(* ===== verification/_CoqProject ===== *)
-Q . S2P
Prelude.v
CommonTypes.v
SessionSlots.v
FdTable.v
PathSpec.v
PathUtils.v
TcApi.v
Iovec.v
Nfs4Impl.v
DataCache.v
NfsCache.v
CachedRead.v
Compounds.v
CompoundExec.v
CompoundSpecs.v
Base64.v
Counters.v
TcImpl.v
PosixImpl.v
PosixSpecs.v
TcLib.v
PosixTree.v
AvlTree.v
AvlSpec.v
AvlRotate.v
AvlInsert.v
AvlIter.v
AvlRemove.v
AvlRuns.v
DirentCache.v
DirentTrees.v
DirentSpec.v
DirentOps.v
DirentList.v
StateTypes.v
StateLock.v
LockBook.v
LockSubtract.v
LockNoMemory.v
LockMerge.v
LockHeld.v
LockExcl.v
LockOps.v
LockProps.v
