(* ===== verification/Prelude.v ===== *)
(** Verification of the TC client, a library that sends vectors of file operations
    to an NFSv4.1 server in few compounds.

    ** The program and its files

    The client is under [tc_client/]. From the caller down to the network:

    - [tc/tc_lib.cpp], recursive copy and removal of trees: [TcLib.v], Module [Lib].
    - [tc/tc_impl.cpp], the entry points, which count calls, choose the NFSv4 or the
      POSIX layer and follow symbolic links: [TcImpl.v], Module [Tc].
    - [tc/tc_cache.cpp] and [tc_cache/TC_MetaDataCache.h], the caching layer over the
      NFSv4 layer and its metadata cache: [NfsCache.v], Module [Nfs].
    - [tc_cache/TC_DataCache.h], the cache of file data: [DataCache.v], Module [Cache].
    - [nfs4/tc_impl_nfs4.c], which translates descriptors and cuts arrays into
      compounds: [Nfs4Impl.v], Module [Nfs4].
    - [nfs4/handle.c], which builds the compounds of an array with short paths, sends them
      on a slot and processes the results: [Compounds.v], Module [Cpd]; what a server does
      with a compound and what the caller sees of it: [CompoundExec.v], Module [Exec]; the
      operations on arrays against reference semantics: [CompoundSpecs.v], Module [Arrays].
    - [nfs4/nfs4_util.c], the descriptor table: [FdTable.v], Module [Fds].
    - [nfs4/session_slots.c], the slots of the session: [SessionSlots.v], Module [Slots].
    - [util/iovec_utils.cpp], cutting I/O vectors to the size of a compound: [Iovec.v].
    - [util/path_utils.cpp] and [util/slice.h], paths: [PathUtils.v], Module [Paths], with
      the reference semantics of paths in [PathSpec.v].
    - [include/tc_api.h] and [support/tc_helper.c], the data of the interface: [TcApi.v],
      Module [Api].
    - [support/tc_helper.c] and [include/tc_helper.h], the counters of the entry points, their
      list and its lock: [Counters.v], Module [Counters].
    - [include/common_types.h], bit sets, slices and buffers: [CommonTypes.v].
    - [support/bsd-base64.c], the base64 codec: [Base64.v], Module [B64].
    - [posix/tc_impl_posix.c] and [posix/splice_copy.c], the layer that serves the entry
      points from a local file system: [PosixImpl.v], Module [Psx]; reads, writes, copies
      and attributes in [PosixSpecs.v], Module [PosixRuns]; listing and removal of trees, down
      from the entry points, in [PosixTree.v], Module [PosixTree].

    Of the NFS-Ganesha server that the client is built into, the directory cache and the
    trees below it, and the byte-range locks:

    - [support/avl.c] and [include/avltree.h], AVL trees: [AvlTree.v], Module [Avl]. What a
      memory must hold to be a tree is in [AvlSpec.v]; [AvlRotate.v], [AvlInsert.v],
      [AvlIter.v] and [AvlRemove.v] have the rotations, insertion, iterators and searches, and
      removal; [AvlRuns.v] has runs of operations and the replacement of a node.
    - [cache_inode/cache_inode_avl.c] with the functions of [cache_inode_readdir.c],
      [cache_inode_misc.c] and [cache_inode_rename.c] that work on cached entries of a
      directory: [DirentCache.v], Module [Dirents]. [DirentTrees.v] has the two trees of a
      directory in one memory, [DirentSpec.v] the invariant, probes, insertion and lookups,
      [DirentOps.v] the operations on names, [DirentList.v] the listing.
    - [SAL/state_lock.c], byte-range locks, with the statuses, types and comparisons it uses of
      [SAL/state_misc.c], [SAL/nfs4_owner.c] and [SAL/9p_owner.c]: [StateTypes.v], Module [Sal],
      and [StateLock.v], Module [Locks]. Its state has the entries by address, the lists as lists
      of addresses, the reference counts of owners and the pin counts of files. [LockBook.v] has
      the invariant of entries and lists, [LockSubtract.v] and [LockNoMemory.v] the subtraction of
      a range with and without enough memory, [LockMerge.v] the merging of a lock, [LockHeld.v]
      and [LockExcl.v] what both do to the bytes that are held, [LockOps.v] the operations on a
      file and [LockProps.v] what they promise.

    [CachedRead.v] composes the layers of a read: the caches, the descriptor layer, the
    cutting into compounds and the export. This file holds machine integers, the
    [outcome] of C code and lemmas on lists that the others share.

    ** How code is modelled

    Integers are [Z] with the wrap-around of their width written out ([u8], [u32], [u64],
    [s32]). C code that can fail an assertion, follow a null pointer or leave an array
    returns an [outcome], where these are [Abort], and taking a lock the thread holds is
    [Deadlock]. Loops without a structural bound take fuel and return [None] when it is
    used up; their theorems say how much fuel is enough, or that none is. Code over a
    shared state is in a state monad ([M]). Paths that are read and written in
    place are slices of one flat memory. Memory that the program allocates can be refused
    where the source tests for it; memory it does not initialise is a parameter
    ([junk_...]).

    Code that is not in the repository, or is behind an interface of its own, is a
    parameter with laws: the operations of the export ([Nfs4.obj_ops], with the classes
    [Nfs4.Compound], [Nfs4.OpenOk] and [Nfs4.CloseOk]), the cache of the Poco library
    ([Cache.Poco], [Cache.PocoLaws]), the memory of the caller ([Nfs.Memory],
    [Reads.MemoryLaws]), the files of the server ([Nfs.AttrServer], [Reads.ReadServer],
    [Reads.FsalRead], [Tc.LinkServer], [Lib.RmServer]). Below the compounds the network,
    the attribute codec and the descriptor table are arguments of [Cpd]; the file system
    behind the network is a [server] with the classes [Exec.Tree] (names lead from
    directories to files, the root is its own parent), [Exec.Limits] (what fits into a
    compound) and [Arrays.Acts] (what one operation does to a file). The POSIX layer is over a
    record of the system calls with the classes [FileKernel] (files, where every call can fail and
    transfer less than was asked for), [PipeKernel] (the same with pipes) and [DirKernel]
    (directories). The comparison of an AVL tree is a parameter with the class [Order]; for directory entries it is
    that of the cookies, and the hash of names, the addresses of the stack and of allocated
    memory and the calls on cache entries are parameters. The file system below the locks, which
    opens files, takes and releases locks and says what it supports, is a parameter of [Locks], and
    so are the owners by address. Each class has an instance, which the witnesses of the theorems
    use.

    ** What is proved

    - Slots: no two compounds hold a slot, sequence ids are consecutive, a caller waits
      only when all slots are taken.
    - Descriptors: the table refines a finite map; a concurrent free of one descriptor
      breaks it.
    - Paths: normalising, joining, rebasing, distances and splitting into directory and
      name agree with the directories that paths lead to.
    - I/O vectors: cutting tiles the vectors and restoring gives them back, with the
      cases in which the cutting goes past a vector.
    - NFSv4 layer: the loops over compounds do what one operation after the other does;
      opening, closing, cursors and handles; closing all files deadlocks.
    - Compounds: moving the current file handle from path to path with the shortest of
      absolute path, relative path and saved handle leads where a lookup from the root
      leads; reading attributes of and removing an array of paths gives the results of one
      operation after the other, up to the first error, for as many elements as fit; runs in which the code goes wrong:
      a read that goes to the file of an earlier element, a hard link that loses its saved
      handle, an array overrun.
    - Caches: reads return the bytes last put, removal forgets, the structure of the
      metadata cache is kept by every operation, attributes and reads through the caches
      are those of the server, with the cases in which keys collide or short blocks are
      misread.
    - Base64: the codec computes the encoding, round trips, and accepts nothing else.
    - Counters: threads that register different counters keep the list, whatever the order of
      their steps; two threads that register the same counter make it follow itself.
    - Entry points: links are followed, with the arrays in which they are not, the
      counters stay listed and in range, recursive removal removes what it should.
    - POSIX layer: writes and reads of arrays of files, copies through a pipe, both with errors
      and short transfers, recursive removal; and the calls whose error or whose arguments are lost.
    - AVL trees: every function, on nodes whose parent and balance share a word; the trees
      implement sorted lists, and the supremum of a key above all nodes is not one.
    - Directory entries: cookies are unique and lookups find what was inserted within their
      number of probes; removed entries keep their cookies, so that a listing in pages gives
      every entry once; a rename over an entry loses its key, and a listing starts again after
      the last entry was removed.
    - Byte-range locks, on exports that do not block locks themselves and for requests that do not
      wait: owners exclude each other whatever the requests, taking and releasing a range refine
      the table of held bytes, also when memory runs out; and the requests that go wrong: a
      release with the state of the lock, the release of all locks of an owner, which never ends,
      a request of another type on a lock up to the last byte, and a pin that is taken twice.

    ** Bounds

    A read and the cutting of a vector need one round per compound or block; the theorems
    ask for as much fuel as there are blocks or pieces. Removal of trees needs one round
    per level of the tree. The height of an AVL tree is at most 122, since its nodes are
    aligned and have different 64-bit addresses, so that 123 rounds are enough for every loop on
    it; the insertion of a directory entry needs at most four probes more than there are
    entries. A request on the locks of a file needs at most two rounds per lock of the file and
    one more, and memory for as many entries. Lengths are below 2^63. Paths are shorter than [PATH_MAX]
    where the code keeps them in such an array; paths that only pass through [tc_path_rebase_s],
    which counts in [int], have fewer than 2^30 characters, and its buffer fewer than 2^31. A copy
    through a pipe needs at most one round per byte. The pin count of a file, an [int32_t] that the
    code does not test, is a number without bound in the model, which agrees with the code below
    2^31 pins.

    ** Not modelled

    Start and shutdown, threads other than the interleavings of the slot table, the descriptor
    table and the list of counters, and logging. Of [nfs4/handle.c] the RPC and its
    encoding, the set-up of the session and the operations of the file system abstraction
    on one object ([fs_...]) are not; [Nfs4Impl.v] keeps its calls into [handle.c] behind
    the parameter [Nfs4.obj_ops]. Of the directory cache, filling it from the file system and
    the checks of permissions before a listing are not. Of the locks, the queue of notifications
    and the hash of cookies are not, and blocked locks, delegations and file systems without lock
    owners are modelled without theorems of their own. The rest of the NFS-Ganesha
    server (most of [SAL/], [cache_inode/], [FSAL/] and [support/], and [Protocols/], [RPCAL/] and
    [MainNFSD/]) is not reached by the operations of the client. *)

From stdpp Require Export prelude gmap strings.
From Stdlib Require Export Ascii ZArith Lia.

(** ** Machine integers

    A C integer of width [w] is a [Z]; the wrap-around of unsigned arithmetic
    is written where the source relies on it, with these functions. *)

Definition u32 (x : Z) : Z := (x mod 2 ^ 32)%Z.
Definition u64 (x : Z) : Z := (x mod 2 ^ 64)%Z.
Definition u8 (x : Z) : Z := (x mod 2 ^ 8)%Z.

(** Conversion to [int]. *)
Definition s32 (x : Z) : Z := let y := u32 x in if (y <? 2 ^ 31)%Z then y else (y - 2 ^ 32)%Z.

Definition zlen {A} (l : list A) : Z := Z.of_nat (length l).

(** ** Control outcomes

    [Ok] is a normal return; [Abort] is a failed [assert], or undefined behaviour such
    as an access out of range or through a null pointer; [Deadlock] is a lock operation
    that blocks its own thread for ever. *)

Inductive outcome (A : Type) : Type :=
  | Ok (a : A)
  | Abort
  | Deadlock.
Arguments Ok {A} a.
Arguments Abort {A}.
Arguments Deadlock {A}.

Definition obind {A B} (c : outcome A) (k : A -> outcome B) : outcome B :=
  match c with
  | Ok a => k a
  | Abort => Abort
  | Deadlock => Deadlock
  end.

Definition oassert (b : bool) : outcome unit := if b then Ok tt else Abort.

Declare Scope tc_scope.
Delimit Scope tc_scope with tc.
Notation "'let!' x ':=' c 'in' k" := (obind c (fun x => k))
  (at level 10, x pattern, c at level 100, k at level 200)
  : tc_scope.
Notation "'assert!' b ';;' k" := (obind (oassert b) (fun _ => k))
  (at level 10, b at level 99, k at level 200) : tc_scope.
#[global] Open Scope tc_scope.

Lemma obind_Ok_inv {A B} (c : outcome A) (k : A -> outcome B) b :
  obind c k = Ok b -> exists a, c = Ok a /\ k a = Ok b.
Proof. destruct c; simpl; intros H; [eauto | discriminate | discriminate]. Qed.

Lemma oassert_Ok b u : oassert b = Ok u <-> b = true.
Proof. destruct b, u; simpl; intuition discriminate. Qed.

(** ** Error numbers and C constants *)

Definition ENOENT : Z := 2.
Definition EAGAIN : Z := 11.
Definition ENOMEM : Z := 12.
Definition EINVAL : Z := 22.
Definition ENFILE : Z := 23.
Definition ENOTSUP : Z := 95.
Definition ENOBUFS : Z := 105.
Definition SIZE_MAX : Z := 2 ^ 64 - 1.

(** ** Tactics and hint databases *)

Create HintDb tc discriminated.

(** Turn boolean comparisons in the context and goal into propositions. *)
Ltac reflect_bools :=
  repeat match goal with
  | H : (_ && _)%bool = true |- _ => apply andb_true_iff in H as [? ?]
  | H : (_ || _)%bool = false |- _ => apply orb_false_iff in H as [? ?]
  | H : negb _ = true |- _ => apply negb_true_iff in H
  | H : negb _ = false |- _ => apply negb_false_iff in H
  | H : (_ <? _)%Z = true |- _ => apply Z.ltb_lt in H
  | H : (_ <? _)%Z = false |- _ => apply Z.ltb_ge in H
  | H : (_ <=? _)%Z = true |- _ => apply Z.leb_le in H
  | H : (_ <=? _)%Z = false |- _ => apply Z.leb_gt in H
  | H : (_ =? _)%Z = true |- _ => apply Z.eqb_eq in H
  | H : (_ =? _)%Z = false |- _ => apply Z.eqb_neq in H
  | H : (_ <? _)%nat = true |- _ => apply Nat.ltb_lt in H
  | H : (_ <? _)%nat = false |- _ => apply Nat.ltb_ge in H
  | H : (_ <=? _)%nat = true |- _ => apply Nat.leb_le in H
  | H : (_ <=? _)%nat = false |- _ => apply Nat.leb_gt in H
  | H : (_ =? _)%nat = true |- _ => apply Nat.eqb_eq in H
  | H : (_ =? _)%nat = false |- _ => apply Nat.eqb_neq in H
  end.

(** Split the conditionals of the goal one by one. *)
Ltac split_ifs :=
  repeat match goal with
  | |- context [if ?b then _ else _] =>
      match type of b with
      | bool => let E := fresh "E" in destruct b eqn:E
      end
  end; reflect_bools.

(** Invert a chain of [let!] and [assert!] in a hypothesis. *)
Ltac inv_outcome H :=
  repeat match type of H with
  | obind _ _ = Ok _ =>
      let a := fresh "a" in let Ha := fresh "Ha" in
      apply obind_Ok_inv in H as [a [Ha H]];
      try (apply oassert_Ok in Ha)
  end.

(** ** Words *)

Lemma u32_small x : (0 <= x < 2 ^ 32)%Z -> u32 x = x.
Proof. apply Z.mod_small. Qed.

Lemma u64_small x : (0 <= x < 2 ^ 64)%Z -> u64 x = x.
Proof. apply Z.mod_small. Qed.

Lemma u32_range x : (0 <= u32 x < 2 ^ 32)%Z.
Proof. apply Z.mod_pos_bound; lia. Qed.

Lemma u64_range x : (0 <= u64 x < 2 ^ 64)%Z.
Proof. apply Z.mod_pos_bound; lia. Qed.

Lemma u8_small x : (0 <= x < 2 ^ 8)%Z -> u8 x = x.
Proof. apply Z.mod_small. Qed.

Lemma s32_small x : (0 <= x < 2 ^ 31)%Z -> s32 x = x.
Proof.
  intros Hx. unfold s32. rewrite u32_small by lia. by rewrite (proj2 (Z.ltb_lt _ _)) by lia.
Qed.

Lemma u32_add_l x y : u32 (u32 x + y) = u32 (x + y).
Proof. apply Z.add_mod_idemp_l; lia. Qed.

#[export] Hint Resolve u32_range u64_range : tc.

(** ** Lists *)

(** A duplicate-free list of indices below [n] has at most [n] elements. *)
Lemma NoDup_bounded_length (l : list nat) n :
  NoDup l -> (forall i, i ∈ l -> (i < n)%nat) -> (length l <= n)%nat.
Proof.
  intros Hnd Hb. rewrite <- (length_seq n 0). apply submseteq_length.
  apply NoDup_submseteq; [done|]. intros x Hx. apply elem_of_seq.
  specialize (Hb x Hx). lia.
Qed.

Lemma take_insert_last {A} (l : list A) n x :
  (n < length l)%nat -> take (S n) (<[ n := x ]> l) = take n l ++ [x].
Proof.
  intros H. rewrite (take_S_r _ _ x) by (by rewrite list_lookup_insert_eq).
  by rewrite take_insert_ge by lia.
Qed.

Lemma concat_snoc {A} (l : list (list A)) x : concat (l ++ [x]) = concat l ++ x.
Proof. rewrite concat_app. simpl. by rewrite app_nil_r. Qed.

(** ** Bounded loops

    [Ok None] is a loop whose fuel ran out. *)

Definition fbind {A B} (c : outcome (option A)) (k : A -> outcome (option B))
  : outcome (option B) :=
  let! r := c in match r with Some a => k a | None => Ok None end.

Notation "'let?' x ':=' c 'in' k" := (fbind c (fun x => k))
  (at level 10, x pattern, c at level 100, k at level 200) : tc_scope.

Definition done {A} (a : A) : outcome (option A) := Ok (Some a).

Lemma filter_all {A} (P : A -> Prop) `{forall x, Decision (P x)} l :
  Forall P l -> filter P l = l.
Proof.
  induction 1 as [|x l Hx _ IH]; [done|]. rewrite filter_cons, decide_True by done. by rewrite IH.
Qed.

Lemma filter_none {A} (P : A -> Prop) `{forall x, Decision (P x)} l :
  Forall (fun x => ~ P x) l -> filter P l = [].
Proof.
  induction 1 as [|x l Hx _ IH]; [done|]. by rewrite filter_cons, decide_False by done.
Qed.

Lemma take_plus {A} (n k : nat) (l : list A) : take (n + k) l = take n l ++ take k (drop n l).
Proof.
  rewrite <- (take_drop n (take (n + k) l)), take_take, skipn_firstn_comm. do 2 f_equal; lia.
Qed.

(** ** Computations on a state *)

(** A computation on a state [S]; [Ok None] is a loop whose fuel ran out. *)
Definition M (S A : Type) : Type := S -> outcome (option (A * S)).

#[export] Instance M_ret {S} : MRet (M S) := fun A a s => done (a, s).
#[export] Instance M_bind {S} : MBind (M S) := fun A B k c s => let? (a, s) := c s in k a s.

Definition stop {S A} : M S A := fun _ => Abort.
Definition check {S} (b : bool) : M S unit := fun s => assert! b ;; done (tt, s).
Definition need {S A} (o : option A) : M S A :=
  match o with Some a => mret a | None => stop end.
(** An operation that does not use the state. *)
Definition run {S A} (o : outcome A) : M S A := fun s => let! a := o in done (a, s).

Fixpoint each {S A B} (f : A -> M S B) (l : list A) : M S (list B) :=
  match l with
  | [] => mret []
  | a :: l => b ← f a; bs ← each f l; mret (b :: bs)
  end.

Lemma bind_done {S A B} (c : M S A) (k : A -> M S B) s a s1 :
  c s = done (a, s1) -> (c ≫= k) s = k a s1.
Proof. intros E. unfold mbind, M_bind, fbind. by rewrite E. Qed.

Lemma bind_inv {S A B} (c : M S A) (k : A -> M S B) s b s2 :
  (c ≫= k) s = done (b, s2) -> exists a s1, c s = done (a, s1) /\ k a s1 = done (b, s2).
Proof.
  unfold mbind, M_bind, fbind. intros E. apply obind_Ok_inv in E as [[[a s1]|] [E1 E2]]; [eauto | done].
Qed.

Lemma bind_none {S A B} (c : M S A) (k : A -> M S B) s : c s = Ok None -> (c ≫= k) s = Ok None.
Proof. intros E. unfold mbind, M_bind, fbind. by rewrite E. Qed.
