(* ===== verification/CommonTypes.v ===== *)
(** The small data types every other component uses, from
    [include/common_types.h]: the byte-packed bit set ([bitset_t]), string
    slices ([slice_t]) and bounded append buffers ([buf_t]).

    A slice is a pointer and a length and a buffer is a pointer, a length and a
    capacity, so both are modelled over one flat memory of characters: the path
    code normalises a path in the very buffer that its components point into. *)

From S2P Require Import Prelude.
Local Open Scope nat_scope.

(** ** Bit sets *)

Module Bitset.

(** [size] is the number of bits, [bits] the bytes holding them. *)
Record bitset := mk_bitset { bs_size : nat; bs_bits : list Z }.

Definition nbytes (s : nat) : nat := (s + 7) / 8.

(** [calloc] gives zeroed bytes. *)
Definition new_bitset (s : nat) : bitset :=
  mk_bitset s (replicate (nbytes s) 0%Z).

Definition bs_set (bs : bitset) (pos : nat) : bitset :=
  if pos <? bs_size bs then
    mk_bitset (bs_size bs)
      (alter (fun b => Z.lor b (Z.shiftl 1 (Z.of_nat (pos mod 8))))
         (pos / 8) (bs_bits bs))
  else bs.

Definition bs_set_all (bs : bitset) : bitset :=
  mk_bitset (bs_size bs) (replicate (nbytes (bs_size bs)) 255%Z).

Definition bs_reset_all (bs : bitset) : bitset :=
  mk_bitset (bs_size bs) (replicate (nbytes (bs_size bs)) 0%Z).

(** POSIX [ffs]: one plus the index of the least significant set bit, 0 when
    no bit is set.  [n] bits are examined from bit [i] on. *)
Fixpoint ffs_from (n : nat) (i : nat) (x : Z) : Z :=
  match n with
  | O => 0
  | S n => if Z.testbit x (Z.of_nat i) then Z.of_nat i + 1
           else ffs_from n (S i) x
  end%Z.

Definition ffs (x : Z) : Z := ffs_from 32 0 x.

(** The loop of [bs_ffs] over the remaining bytes, [i] the current index. *)
Fixpoint bs_ffs_loop (size : nat) (i : nat) (bits : list Z) : Z :=
  match bits with
  | [] => -1
  | b :: bits =>
      let res := ffs b in
      if 0 <? res then
        let res := res + (Z.of_nat i * 8 - 1) in
        if res <? Z.of_nat size then res else -1
      else bs_ffs_loop size (S i) bits
  end%Z.

Definition bs_ffs (bs : bitset) : Z := bs_ffs_loop (bs_size bs) 0 (bs_bits bs).

Definition bs_get (bs : bitset) (pos : nat) : bool :=
  if pos <? bs_size bs then
    negb (Z.eqb (Z.land (default 0%Z (bs_bits bs !! (pos / 8)))
                        (Z.shiftl 1 (Z.of_nat (pos mod 8)))) 0)
  else false.

Definition bs_reset (bs : bitset) (pos : nat) : bitset :=
  if pos <? bs_size bs then
    mk_bitset (bs_size bs)
      (alter (fun b => Z.land b (Z.lnot (Z.shiftl 1 (Z.of_nat (pos mod 8)))))
         (pos / 8) (bs_bits bs))
  else bs.

(** [init_bitset] clears a caller-supplied area. *)
Definition init_bitset (s : nat) : bitset :=
  mk_bitset s (replicate (nbytes s) 0%Z).

(** *** Well-formedness: the bytes are bytes and there are enough of them. *)

Definition byte_ok (b : Z) : Prop := (0 <= b < 256)%Z.

Definition bs_wf (bs : bitset) : Prop :=
  length (bs_bits bs) = nbytes (bs_size bs) /\ Forall byte_ok (bs_bits bs).

(** The bit at [pos] of a byte list, with no bound check. *)
Definition bit_at (bits : list Z) (pos : nat) : bool :=
  Z.testbit (default 0%Z (bits !! (pos / 8))) (Z.of_nat (pos mod 8)).

Lemma land_pow2_testbit b k :
  negb (Z.eqb (Z.land b (Z.shiftl 1 (Z.of_nat k))) 0) = Z.testbit b (Z.of_nat k).
Proof.
  rewrite Z.shiftl_1_l.
  destruct (Z.testbit b (Z.of_nat k)) eqn:E.
  - apply negb_true_iff, Z.eqb_neq. intros H.
    assert (Z.testbit (Z.land b (2 ^ Z.of_nat k)) (Z.of_nat k) = true) as H1.
    { rewrite Z.land_spec, E, Z.pow2_bits_true; [done | lia]. }
    rewrite H in H1. by rewrite Z.testbit_0_l in H1.
  - apply negb_false_iff, Z.eqb_eq, Z.bits_inj'. intros n Hn.
    rewrite Z.land_spec, Z.testbit_0_l.
    destruct (decide (n = Z.of_nat k)) as [->|]; [by rewrite E |].
    rewrite Z.pow2_bits_false by lia. by rewrite andb_false_r.
Qed.

Lemma bs_get_bit bs pos :
  bs_get bs pos = (pos <? bs_size bs) && bit_at (bs_bits bs) pos.
Proof.
  unfold bs_get, bit_at. destruct (pos <? bs_size bs); [|done].
  by rewrite land_pow2_testbit.
Qed.

Lemma nbytes_lt pos size : pos < size -> pos / 8 < nbytes size.
Proof.
  unfold nbytes. intros H.
  apply Nat.Div0.div_lt_upper_bound.
  pose proof (Nat.div_mod_eq (size + 7) 8).
  pose proof (Nat.mod_upper_bound (size + 7) 8). lia.
Qed.

Lemma pos_split pos pos' :
  pos <> pos' -> pos / 8 = pos' / 8 -> pos mod 8 <> pos' mod 8.
Proof.
  pose proof (Nat.div_mod_eq pos 8). pose proof (Nat.div_mod_eq pos' 8). lia.
Qed.

(** Updating one byte changes exactly the bits of that byte. *)
Lemma bit_at_alter f bits i pos :
  i < length bits ->
  bit_at (alter f i bits) pos =
  if decide (i = pos / 8)
  then Z.testbit (f (default 0%Z (bits !! i))) (Z.of_nat (pos mod 8))
  else bit_at bits pos.
Proof.
  intros Hi. unfold bit_at. case_decide as E; subst.
  - rewrite list_lookup_alter_eq.
    destruct (lookup_lt_is_Some_2 bits (pos / 8) Hi) as [b ->]. done.
  - by rewrite list_lookup_alter_ne.
Qed.

Lemma bs_get_set bs pos pos' :
  bs_wf bs -> pos < bs_size bs ->
  bs_get (bs_set bs pos) pos' = if decide (pos' = pos) then true else bs_get bs pos'.
Proof.
  intros [Hl _] Hp. rewrite !bs_get_bit. unfold bs_set.
  rewrite (proj2 (Nat.ltb_lt _ _) Hp). cbn [bs_size bs_bits].
  rewrite bit_at_alter by (rewrite Hl; by apply nbytes_lt).
  destruct (decide (pos' = pos)) as [->|Hne].
  - rewrite (proj2 (Nat.ltb_lt _ _) Hp), decide_True by done.
    by rewrite Z.lor_spec, Z.shiftl_1_l, Z.pow2_bits_true, orb_true_r by lia.
  - case_decide as E'; [|done]. unfold bit_at. rewrite E'.
    rewrite Z.lor_spec, Z.shiftl_1_l, Z.pow2_bits_false; [by rewrite orb_false_r|].
    pose proof (pos_split pos pos'). lia.
Qed.

Lemma bs_get_reset bs pos pos' :
  bs_wf bs -> pos < bs_size bs ->
  bs_get (bs_reset bs pos) pos' = if decide (pos' = pos) then false else bs_get bs pos'.
Proof.
  intros [Hl _] Hp. rewrite !bs_get_bit. unfold bs_reset.
  rewrite (proj2 (Nat.ltb_lt _ _) Hp). cbn [bs_size bs_bits].
  rewrite bit_at_alter by (rewrite Hl; by apply nbytes_lt).
  destruct (decide (pos' = pos)) as [->|Hne].
  - rewrite decide_True by done.
    rewrite Z.land_spec, Z.lnot_spec, Z.shiftl_1_l, Z.pow2_bits_true by lia.
    by rewrite !andb_false_r.
  - case_decide as E'; [|done]. unfold bit_at. rewrite E'.
    rewrite Z.land_spec, Z.lnot_spec, Z.shiftl_1_l, Z.pow2_bits_false;
      [by rewrite andb_true_r | | lia].
    pose proof (pos_split pos pos'). lia.
Qed.

Lemma testbit_high b i : byte_ok b -> 8 <= i -> Z.testbit b (Z.of_nat i) = false.
Proof.
  unfold byte_ok. intros Hb Hi.
  rewrite <- (Z.mod_small b (2 ^ 8)) by lia.
  apply Z.mod_pow2_bits_high. lia.
Qed.

Lemma byte_ok_bits b :
  (0 <= b)%Z -> (forall i, 8 <= i -> Z.testbit b (Z.of_nat i) = false) -> byte_ok b.
Proof.
  intros H0 H. unfold byte_ok. split; [done|].
  replace b with (b mod 2 ^ 8)%Z; [apply Z.mod_pos_bound; lia|].
  apply Z.bits_inj'. intros n Hn. destruct (decide (n < 8)%Z).
  - apply Z.mod_pow2_bits_low. lia.
  - rewrite Z.mod_pow2_bits_high by lia.
    specialize (H (Z.to_nat n)). rewrite Z2Nat.id in H by lia.
    symmetry. apply H. lia.
Qed.

Lemma byte_ok_lor b k : byte_ok b -> k < 8 -> byte_ok (Z.lor b (Z.shiftl 1 (Z.of_nat k))).
Proof.
  intros Hb Hk. apply byte_ok_bits.
  - apply Z.lor_nonneg. unfold byte_ok in Hb. split; [lia|].
    apply Z.shiftl_nonneg. lia.
  - intros i Hi. rewrite Z.lor_spec, Z.shiftl_1_l, (testbit_high b) by done.
    rewrite Z.pow2_bits_false by lia. done.
Qed.

Lemma byte_ok_ldiff b k :
  byte_ok b -> byte_ok (Z.land b (Z.lnot (Z.shiftl 1 (Z.of_nat k)))).
Proof.
  intros Hb. apply byte_ok_bits.
  - apply Z.land_nonneg. unfold byte_ok in Hb. lia.
  - intros i Hi. rewrite Z.land_spec, (testbit_high b) by done. done.
Qed.

Lemma bs_wf_alter bs f i :
  bs_wf bs -> (forall b, byte_ok b -> byte_ok (f b)) ->
  bs_wf (mk_bitset (bs_size bs) (alter f i (bs_bits bs))).
Proof.
  intros [Hl Hb] Hf. split; simpl; [by rewrite length_alter|].
  apply Forall_alter; [done|]. intros x _ Hx. by apply Hf.
Qed.

Lemma bs_wf_set bs pos : bs_wf bs -> bs_wf (bs_set bs pos).
Proof.
  intros H. unfold bs_set. destruct (pos <? bs_size bs); [|done].
  apply bs_wf_alter; [done|]. intros b Hb. apply byte_ok_lor; [done|].
  apply Nat.mod_upper_bound. lia.
Qed.

Lemma bs_wf_reset bs pos : bs_wf bs -> bs_wf (bs_reset bs pos).
Proof.
  intros H. unfold bs_reset. destruct (pos <? bs_size bs); [|done].
  apply bs_wf_alter; [done|]. intros b Hb. by apply byte_ok_ldiff.
Qed.

Lemma bs_size_set bs pos : bs_size (bs_set bs pos) = bs_size bs.
Proof. unfold bs_set. by destruct (pos <? bs_size bs). Qed.

Lemma bs_size_reset bs pos : bs_size (bs_reset bs pos) = bs_size bs.
Proof. unfold bs_reset. by destruct (pos <? bs_size bs). Qed.

#[export] Hint Resolve bs_wf_set bs_wf_reset : tc.

Lemma bs_wf_set_all bs : bs_wf (bs_set_all bs).
Proof.
  split; simpl; [by rewrite length_replicate|].
  apply Forall_replicate. unfold byte_ok. lia.
Qed.

Lemma bs_get_set_all bs pos :
  bs_get (bs_set_all bs) pos = (pos <? bs_size bs).
Proof.
  rewrite bs_get_bit. cbn [bs_set_all bs_size bs_bits].
  destruct (pos <? bs_size bs) eqn:E; [|done].
  reflect_bools. unfold bit_at.
  rewrite lookup_replicate_2 by (by apply nbytes_lt). cbn [default andb].
  pose proof (Nat.mod_upper_bound pos 8) as Hm.
  generalize dependent (pos mod 8). intros k Hk.
  do 8 (destruct k as [|k]; [reflexivity|]). lia.
Qed.

(** *** [ffs] and [bs_ffs] find the least set bit *)

Lemma ffs_from_spec n i x :
  (ffs_from n i x = 0%Z /\ forall j, i <= j < i + n -> Z.testbit x (Z.of_nat j) = false) \/
  (exists k, ffs_from n i x = (Z.of_nat k + 1)%Z /\ i <= k < i + n /\
     Z.testbit x (Z.of_nat k) = true /\
     forall j, i <= j < k -> Z.testbit x (Z.of_nat j) = false).
Proof.
  revert i. induction n as [|n IH]; intros i; simpl.
  - left. split; [done|]. lia.
  - destruct (Z.testbit x (Z.of_nat i)) eqn:E.
    + right. exists i. repeat split; try lia; auto.
    + destruct (IH (S i)) as [[H1 H2] | (k & H1 & H2 & H3 & H4)].
      * left. split; [done|]. intros j Hj.
        destruct (decide (j = i)) as [->|]; [done|]. apply H2. lia.
      * right. exists k. repeat split; try lia; auto. intros j Hj.
        destruct (decide (j = i)) as [->|]; [done|]. apply H4. lia.
Qed.

Lemma bit_at_cons b bits pos :
  bit_at (b :: bits) pos =
  if pos <? 8 then Z.testbit b (Z.of_nat pos) else bit_at bits (pos - 8).
Proof.
  unfold bit_at. destruct (pos <? 8) eqn:E; reflect_bools.
  - by rewrite Nat.div_small, Nat.mod_small by lia.
  - replace pos with ((pos - 8) + 1 * 8) at 1 2 by lia.
    by rewrite Nat.div_add, Nat.Div0.mod_add, Nat.add_1_r by lia.
Qed.

(** [k] is the first set bit of [bits]. *)
Definition first_bit (bits : list Z) (k : nat) : Prop :=
  k < 8 * length bits /\ bit_at bits k = true /\
  forall j, j < k -> bit_at bits j = false.

Lemma bs_ffs_loop_spec size i bits :
  Forall byte_ok bits ->
  (bs_ffs_loop size i bits = (-1)%Z /\ forall j, bit_at bits j = false) \/
  (exists k, first_bit bits k /\
     bs_ffs_loop size i bits =
     if 8 * i + k <? size then Z.of_nat (8 * i + k) else (-1)%Z).
Proof.
  intros Hb. revert i. induction Hb as [|b bits Hb _ IH]; intros i.
  { left. split; [done|]. intros j. unfold bit_at. rewrite lookup_nil. apply Z.testbit_0_l. }
  cbn [bs_ffs_loop]. unfold ffs.
  destruct (ffs_from_spec 32 0 b) as [[-> H2] | (k & -> & Hk & Ht & Hlow)].
  - assert (forall j, Z.testbit b (Z.of_nat j) = false) as Hz.
    { intros j. destruct (decide (j < 8)); [apply H2; lia|].
      apply testbit_high; [done | lia]. }
    simpl. destruct (IH (S i)) as [[-> H3] | (k & (Hk & Ht & Hlow) & ->)].
    + left. split; [done|]. intros j. rewrite bit_at_cons. by destruct (j <? 8).
    + right. exists (k + 8). split.
      * split; [simpl; lia|]. split.
        -- rewrite bit_at_cons. rewrite (proj2 (Nat.ltb_ge _ _)) by lia.
           by rewrite Nat.add_sub.
        -- intros j Hj. rewrite bit_at_cons. destruct (j <? 8) eqn:E; [done|].
           reflect_bools. apply Hlow. lia.
      * by replace (8 * S i + k) with (8 * i + (k + 8)) by lia.
  - assert (k < 8).
    { destruct (decide (k < 8)); [done|].
      rewrite testbit_high in Ht by (done || lia). done. }
    right. exists k. split.
    + split; [simpl; lia|]. split.
      * rewrite bit_at_cons. by rewrite (proj2 (Nat.ltb_lt _ _)) by lia.
      * intros j Hj. rewrite bit_at_cons.
        rewrite (proj2 (Nat.ltb_lt _ _)) by lia. apply Hlow. lia.
    + rewrite (proj2 (Z.ltb_lt _ _)) by lia.
      replace (Z.of_nat k + 1 + (Z.of_nat i * 8 - 1))%Z
        with (Z.of_nat (8 * i + k)) by lia.
      destruct (8 * i + k <? size) eqn:E; reflect_bools.
      * by rewrite (proj2 (Z.ltb_lt _ _)) by lia.
      * by rewrite (proj2 (Z.ltb_ge _ _)) by lia.
Qed.

(** [bs_ffs] returns the least set position, or -1 when there is none. *)
Lemma bs_ffs_spec bs :
  bs_wf bs ->
  (bs_ffs bs = (-1)%Z /\ forall j, bs_get bs j = false) \/
  (exists k, bs_ffs bs = Z.of_nat k /\ k < bs_size bs /\ bs_get bs k = true /\
     forall j, j < k -> bs_get bs j = false).
Proof.
  intros [_ Hb]. unfold bs_ffs.
  destruct (bs_ffs_loop_spec (bs_size bs) 0 (bs_bits bs) Hb)
    as [[-> H] | (k & (Hk & Ht & Hlow) & ->)].
  - left. split; [done|]. intros j. by rewrite bs_get_bit, H, andb_false_r.
  - rewrite Nat.mul_0_r, Nat.add_0_l. destruct (k <? bs_size bs) eqn:E.
    + right. exists k. rewrite bs_get_bit, E, Ht. reflect_bools.
      repeat split; [done|]. intros j Hj. by rewrite bs_get_bit, Hlow, andb_false_r.
    + left. split; [done|]. reflect_bools. intros j. rewrite bs_get_bit.
      destruct (j <? bs_size bs) eqn:E2; [|done]. reflect_bools.
      simpl. apply Hlow. lia.
Qed.

End Bitset.

(** ** Memory, slices and buffers *)

Module Buf.

Definition NUL : ascii := "000"%char.

(** A pointer is null, an address of the character memory, or the start of a
    string literal. *)
Inductive ptr := PNull | PMem (a : nat) | PLit (s : list ascii).

#[export] Instance ptr_eq_dec : EqDecision ptr.
Proof. solve_decision. Defined.

(** The character [p[i]]. *)
Definition rd (m : list ascii) (p : ptr) (i : nat) : ascii :=
  match p with
  | PNull => NUL
  | PMem a => default NUL (m !! (a + i))
  | PLit s => default NUL (s !! i)
  end.

(** [p + i]. *)
Definition padd (p : ptr) (i : nat) : ptr :=
  match p with
  | PNull => PNull
  | PMem a => PMem (a + i)
  | PLit s => PLit (drop i s)
  end.

Record slice_t := mkslice { sl_data : ptr; sl_size : nat }.

(** The [n] characters at [p]. *)
Definition chars (m : list ascii) (p : ptr) (n : nat) : list ascii :=
  match p with
  | PNull => []
  | PMem a => take n (drop a m)
  | PLit s => take n s
  end.

Definition bytes (m : list ascii) (sl : slice_t) : list ascii :=
  chars m (sl_data sl) (sl_size sl).

(** [strnlen]. *)
Fixpoint strnlen_from (m : list ascii) (p : ptr) (i max : nat) : nat :=
  match max with
  | O => i
  | S max => if decide (rd m p i = NUL) then i else strnlen_from m p (S i) max
  end.
Definition strnlen (m : list ascii) (p : ptr) (max : nat) : nat := strnlen_from m p 0 max.

(** [strlen] of a string that ends within its object. *)
Definition strlen (m : list ascii) (p : ptr) : nat :=
  strnlen m p (match p with PNull => 0 | PMem _ => length m | PLit s => length s end).

Definition toslice (m : list ascii) (d : ptr) : slice_t :=
  mkslice d (match d with PNull => 0 | _ => strlen m d end).

(** [fillslice]; a null destination is [None]. *)
Definition fillslice (sl : option slice_t) (d : ptr) (s : nat) : option slice_t :=
  match sl with Some _ => Some (mkslice d s) | None => None end.

Fixpoint lstrip_count (m : list ascii) (p : ptr) (i n : nat) (c : ascii) : nat :=
  match n with
  | O => i
  | S n => if decide (rd m p i = c) then lstrip_count m p (S i) n c else i
  end.

Definition slice_lstrip (m : list ascii) (sl : slice_t) (c : ascii) : slice_t :=
  let i := lstrip_count m (sl_data sl) 0 (sl_size sl) c in
  mkslice (padd (sl_data sl) i) (sl_size sl - i).

Fixpoint rstrip_size (m : list ascii) (p : ptr) (n : nat) (c : ascii) : nat :=
  match n with
  | O => O
  | S n' => if decide (rd m p n' = c) then rstrip_size m p n' c else n
  end.

Definition slice_rstrip (m : list ascii) (sl : slice_t) (c : ascii) : slice_t :=
  mkslice (sl_data sl) (rstrip_size m (sl_data sl) (sl_size sl) c).

Fixpoint lindex_from (m : list ascii) (p : ptr) (i n : nat) (c : ascii) : nat :=
  match n with
  | O => i
  | S n => if decide (rd m p i = c) then i else lindex_from m p (S i) n c
  end.

Definition slice_lindex (m : list ascii) (sl : slice_t) (c : ascii) : Z :=
  let i := lindex_from m (sl_data sl) 0 (sl_size sl) c in
  if i =? sl_size sl then (-1)%Z else Z.of_nat i.

(** The loop [for (i = sl.size - 1; i >= 0 && sl.data[i] != c; --i)], with
    [n = i + 1]. *)
Fixpoint rindex_from (m : list ascii) (p : ptr) (n : nat) (c : ascii) : Z :=
  match n with
  | O => (-1)%Z
  | S i => if decide (rd m p i = c) then Z.of_nat i else rindex_from m p i c
  end.

Definition slice_rindex (m : list ascii) (sl : slice_t) (c : ascii) : Z :=
  rindex_from m (sl_data sl) (sl_size sl) c.

(** [char] is signed. *)
Definition char_val (c : ascii) : Z :=
  let z := Z.of_nat (nat_of_ascii c) in if (z <? 128)%Z then z else (z - 256)%Z.

Fixpoint cmp_from (m : list ascii) (pa pb : ptr) (i n : nat) : option Z :=
  match n with
  | O => None
  | S n =>
      if decide (rd m pa i = rd m pb i) then cmp_from m pa pb (S i) n
      else Some (char_val (rd m pa i) - char_val (rd m pb i))%Z
  end.

Definition cmpslice (m : list ascii) (sa sb : slice_t) : Z :=
  match cmp_from m (sl_data sa) (sl_data sb) 0 (Nat.min (sl_size sa) (sl_size sb)) with
  | Some d => d
  | None =>
      if sl_size sa =? sl_size sb then 0%Z
      else if sl_size sa <? sl_size sb then (-1)%Z else 1%Z
  end.

(** A buffer of [capacity] characters at address [bdata]. *)
Record buf_t := mkbuf { capacity : nat; size : nat; bdata : nat }.

(** [BUF_INITIALIZER]. *)
Definition BUF_INITIALIZER (b c : nat) : buf_t := mkbuf c 0 b.

Definition with_size (b : buf_t) (s : nat) : buf_t := mkbuf (capacity b) s (bdata b).

Definition asslice (b : buf_t) : slice_t := mkslice (PMem (bdata b)) (size b).

(** [memmove] reads its source before it writes. *)
Definition memmove (m : list ascii) (dst : nat) (src : list ascii) : list ascii :=
  list_inserts dst src m.

Definition buf_append_slice (m : list ascii) (b : buf_t) (sl : slice_t)
  : Z * list ascii * buf_t :=
  if capacity b <? size b + sl_size sl then ((-1)%Z, m, b)
  else
    let m := if decide (PMem (bdata b + size b) = sl_data sl) then m
             else memmove m (bdata b + size b) (bytes m sl) in
    (s32 (Z.of_nat (sl_size sl)), m, with_size b (size b + sl_size sl)).

Definition buf_append_str (m : list ascii) (b : buf_t) (s : ptr)
  : Z * list ascii * buf_t := buf_append_slice m b (toslice m s).

Definition buf_append_buf (m : list ascii) (dst src : buf_t)
  : Z * list ascii * buf_t := buf_append_slice m dst (asslice src).

Definition buf_append_char (m : list ascii) (b : buf_t) (c : ascii)
  : outcome (Z * list ascii * buf_t) :=
  if capacity b <=? size b then
    assert! (capacity b =? size b) ;; Ok ((-1)%Z, m, b)
  else Ok (1%Z, <[ bdata b + size b := c ]> m, with_size b (S (size b))).

(** The terminating character is written but not counted. *)
Definition buf_append_null (m : list ascii) (b : buf_t)
  : outcome (bool * list ascii * buf_t) :=
  let! (res, m, b) := buf_append_char m b NUL in
  if (0 <? res)%Z then Ok ((0 <=? res - 1)%Z, m, with_size b (pred (size b)))
  else Ok ((0 <=? res)%Z, m, b).

Definition asstr (m : list ascii) (b : buf_t) : outcome (ptr * list ascii * buf_t) :=
  let! (ok, m, b) := buf_append_null m b in
  Ok (if ok then PMem (bdata b) else PNull, m, b).

Definition buf_end (b : buf_t) : nat := bdata b + size b.

(** The [size_t] difference, converted to [int] by the return. *)
Definition buf_remaining (b : buf_t) : Z := s32 (Z.of_nat (capacity b) - Z.of_nat (size b)).

Definition buf_reset (b : buf_t) : buf_t := with_size b 0.

(** [vsnprintf(dst, n, ...)] whose formatted text is [text]: at most [n - 1]
    characters and the terminator are stored, the full length is returned.
    [None] is an output error, which returns a negative value. *)
Definition vsnprintf (m : list ascii) (dst n : nat) (text : option (list ascii))
  : Z * list ascii :=
  match text with
  | None => ((-1)%Z, m)
  | Some text =>
      (Z.of_nat (length text),
       match n with O => m | S n' => memmove m dst (take n' text ++ [NUL]) end)
  end.

Definition buf_printf (m : list ascii) (b : buf_t) (text : option (list ascii))
  : Z * list ascii * buf_t :=
  let '(n, m) := vsnprintf m (bdata b) (capacity b) text in
  (n, m, with_size b (Z.to_nat (u64 n))).

Definition buf_appendf (m : list ascii) (b : buf_t) (text : option (list ascii))
  : outcome (Z * list ascii * buf_t) :=
  let '(n, m) := vsnprintf m (buf_end b) (Z.to_nat (u64 (buf_remaining b))) text in
  if (n <? 0)%Z then Ok (n, m, b)
  else if (buf_remaining b <? n)%Z then Ok ((- ENOMEM)%Z, m, b)
  else
    let b := with_size b (size b + Z.to_nat n) in
    assert! (size b <=? capacity b) ;; Ok (n, m, b).

(** *** Well-formed buffers and what the append operations do *)

(** The buffer lies in memory and its contents in the buffer. *)
Definition buf_wf (m : list ascii) (b : buf_t) : Prop :=
  bdata b + capacity b <= length m /\ size b <= capacity b.

(** The contents of a buffer. *)
Definition contents (m : list ascii) (b : buf_t) : list ascii := bytes m (asslice b).

(** [m'] differs from [m] only inside the unused part of the buffer. *)
Definition only_tail (m m' : list ascii) (b : buf_t) : Prop :=
  length m' = length m /\
  forall a, a < bdata b + size b \/ bdata b + capacity b <= a -> m' !! a = m !! a.

Definition in_mem (m : list ascii) (sl : slice_t) : Prop :=
  match sl_data sl with
  | PNull => sl_size sl = 0
  | PMem a => a + sl_size sl <= length m
  | PLit s => sl_size sl <= length s
  end.

Lemma length_bytes m sl : in_mem m sl -> length (bytes m sl) = sl_size sl.
Proof.
  unfold in_mem, bytes, chars. destruct (sl_data sl); simpl; intros H.
  - done.
  - rewrite length_take, length_drop. lia.
  - rewrite length_take. lia.
Qed.

Lemma lookup_chars m a n i :
  i < n -> chars m (PMem a) n !! i = m !! (a + i).
Proof. intros H. simpl. by rewrite lookup_take_lt, lookup_drop. Qed.

Lemma rd_bytes m sl i c :
  bytes m sl !! i = Some c -> rd m (sl_data sl) i = c.
Proof.
  unfold bytes, chars, rd. destruct (sl_data sl); simpl; [done| |].
  - rewrite lookup_take_Some, lookup_drop. intros [-> _]. done.
  - rewrite lookup_take_Some. intros [-> _]. done.
Qed.

(** Reading memory that a write left alone. *)
Lemma chars_agree m m' a n :
  (forall i, i < n -> m' !! (a + i) = m !! (a + i)) ->
  chars m' (PMem a) n = chars m (PMem a) n.
Proof.
  intros H. apply list_eq. intros i. simpl.
  destruct (decide (i < n)).
  - rewrite !lookup_take_lt, !lookup_drop by done. by apply H.
  - by rewrite !lookup_take_ge by lia.
Qed.

Lemma chars_app m a n n' :
  a + n + n' <= length m ->
  chars m (PMem a) (n + n') = chars m (PMem a) n ++ chars m (PMem (a + n)) n'.
Proof.
  intros H. simpl.
  by rewrite <- (take_drop n (take (n + n') (drop a m))), take_take,
    skipn_firstn_comm, drop_drop, Nat.min_l, (Nat.add_comm n n'), Nat.add_sub by lia.
Qed.

Lemma lookup_memmove m dst src a :
  dst + length src <= length m ->
  memmove m dst src !! a =
  if decide (dst <= a < dst + length src) then src !! (a - dst) else m !! a.
Proof.
  intros H. unfold memmove. case_decide.
  - apply list_lookup_inserts; lia.
  - destruct (decide (a < dst)).
    + by rewrite list_lookup_inserts_lt.
    + by rewrite list_lookup_inserts_ge by lia.
Qed.

Lemma length_memmove m dst src : length (memmove m dst src) = length m.
Proof. apply length_inserts. Qed.

Lemma chars_memmove m dst src :
  dst + length src <= length m -> chars (memmove m dst src) (PMem dst) (length src) = src.
Proof.
  intros H. apply list_eq. intros i. destruct (decide (i < length src)).
  - rewrite lookup_chars, lookup_memmove by done.
    rewrite decide_True by lia. f_equal. lia.
  - rewrite (lookup_ge_None_2 src) by lia. apply lookup_ge_None_2. simpl.
    rewrite length_take. lia.
Qed.

(** Appending a slice that fits stores its characters at the end of the buffer
    and touches nothing else. *)
Lemma append_slice_fits m b sl :
  buf_wf m b -> in_mem m sl -> size b + sl_size sl <= capacity b ->
  exists m', buf_append_slice m b sl =
      (s32 (Z.of_nat (sl_size sl)), m', with_size b (size b + sl_size sl)) /\
    only_tail m m' b /\ buf_wf m' (with_size b (size b + sl_size sl)) /\
    contents m' (with_size b (size b + sl_size sl)) = contents m b ++ bytes m sl /\
    (forall a, bdata b + size b + sl_size sl <= a -> m' !! a = m !! a).
Proof.
  intros [Hw Hs] Hin Hfit. unfold buf_append_slice.
  rewrite (proj2 (Nat.ltb_ge _ _)) by lia. eexists. split; [done|].
  pose proof (length_bytes _ _ Hin) as Hlen.
  assert (forall m', length m' = length m ->
     (forall a, m' !! a = if decide (bdata b + size b <= a < bdata b + size b + sl_size sl)
                then bytes m sl !! (a - (bdata b + size b)) else m !! a) ->
     only_tail m m' b /\ buf_wf m' (with_size b (size b + sl_size sl)) /\
     contents m' (with_size b (size b + sl_size sl)) = contents m b ++ bytes m sl /\
     (forall a, bdata b + size b + sl_size sl <= a -> m' !! a = m !! a)) as Hgoal.
  { intros m' Hl Hm'. split_and!.
    - split; [done|]. intros a Ha. rewrite Hm', decide_False by lia. done.
    - split; simpl; lia.
    - unfold contents, asslice, bytes at 1 2. simpl sl_data. simpl sl_size.
      rewrite chars_app by (simpl; lia). f_equal.
      + apply chars_agree. intros i Hi. rewrite Hm', decide_False by lia. done.
      + apply list_eq. intros i. destruct (decide (i < sl_size sl)).
        * rewrite lookup_chars, Hm', decide_True by lia. f_equal. lia.
        * rewrite (lookup_ge_None_2 (bytes m sl)) by lia.
          apply lookup_ge_None_2. simpl. rewrite length_take. lia.
    - intros a Ha. rewrite Hm', decide_False by lia. done. }
  apply Hgoal; case_decide as E.
  - done.
  - apply length_memmove.
  - intros a. case_decide; [|done]. unfold bytes. rewrite <- E.
    rewrite lookup_chars by lia. f_equal. lia.
  - intros a. rewrite lookup_memmove by lia. by rewrite Hlen.
Qed.

(** A slice that does not fit leaves buffer and memory alone. *)
Lemma append_slice_full m b sl :
  capacity b < size b + sl_size sl -> buf_append_slice m b sl = ((-1)%Z, m, b).
Proof. intros H. unfold buf_append_slice. by rewrite (proj2 (Nat.ltb_lt _ _) H). Qed.

Lemma append_char_fits m b c :
  buf_wf m b -> size b < capacity b ->
  exists m', buf_append_char m b c = Ok (1%Z, m', with_size b (S (size b))) /\
    only_tail m m' b /\ buf_wf m' (with_size b (S (size b))) /\
    contents m' (with_size b (S (size b))) = contents m b ++ [c] /\
    (forall a, bdata b + size b < a -> m' !! a = m !! a).
Proof.
  intros [Hw Hs] Hfit. unfold buf_append_char.
  rewrite (proj2 (Nat.leb_gt _ _)) by lia. eexists. split; [done|].
  assert (forall a, a <> bdata b + size b ->
            <[ bdata b + size b := c ]> m !! a = m !! a) as Hne.
  { intros a Ha. by rewrite list_lookup_insert_ne. }
  split_and!.
  - split; [apply length_insert|]. intros a Ha. apply Hne. lia.
  - split; simpl; [rewrite length_insert|]; lia.
  - unfold contents, asslice, bytes. simpl sl_data. simpl sl_size.
    replace (S (size b)) with (size b + 1) by lia.
    rewrite chars_app by (simpl; rewrite length_insert; lia). f_equal.
    + apply chars_agree. intros i Hi. apply Hne. lia.
    + apply list_eq. intros [|i].
      * rewrite lookup_chars, Nat.add_0_r, list_lookup_insert_eq by lia. done.
      * apply lookup_ge_None_2. simpl. rewrite length_take. lia.
  - intros a Ha. apply Hne. lia.
Qed.

(** Terminating a buffer keeps its contents; it fails only when it is full. *)
Lemma append_null_spec m b :
  buf_wf m b ->
  exists m', buf_append_null m b = Ok (size b <? capacity b, m', b) /\
    only_tail m m' b /\ contents m' b = contents m b /\
    (size b < capacity b -> m' !! (bdata b + size b) = Some NUL) /\
    (forall a, a <> bdata b + size b -> m' !! a = m !! a).
Proof.
  intros [Hw Hs]. unfold buf_append_null, buf_append_char.
  destruct (capacity b <=? size b) eqn:E; reflect_bools.
  - replace (capacity b =? size b) with true by (symmetry; apply Nat.eqb_eq; lia).
    simpl. exists m. rewrite (proj2 (Nat.ltb_ge _ _)) by lia.
    split_and!; try done; try lia.
  - simpl. rewrite (proj2 (Nat.ltb_lt _ _)) by lia.
    eexists. split; [by destruct b|].
    assert (forall a, a <> bdata b + size b ->
            <[ bdata b + size b := NUL ]> m !! a = m !! a) as Hne.
    { intros a Ha. by rewrite list_lookup_insert_ne. }
    split_and!.
    + split; [apply length_insert|]. intros a Ha. apply Hne. lia.
    + unfold contents, bytes, asslice. simpl sl_data. apply chars_agree.
      intros i Hi. simpl in Hi. apply Hne. lia.
    + intros _. apply list_lookup_insert_eq. lia.
    + done.
Qed.

(** A length that an [int] holds. *)
Definition int_sized (n : nat) : Prop := (Z.of_nat n < 2 ^ 31)%Z.

Lemma buf_remaining_small b :
  size b <= capacity b -> int_sized (capacity b) ->
  buf_remaining b = Z.of_nat (capacity b - size b) /\ u64 (buf_remaining b) = buf_remaining b.
Proof.
  unfold int_sized, buf_remaining. intros Hs Hc.
  rewrite s32_small, <- Nat2Z.inj_sub by lia. split; [done|]. apply u64_small. lia.
Qed.

(** Formatting into the rest of a buffer with room for it. *)
Lemma appendf_text m b text :
  buf_wf m b -> int_sized (capacity b) -> length text <= capacity b - size b -> size b < capacity b ->
  let t := take (capacity b - size b - 1) text ++ [NUL] in
  exists m', buf_appendf m b (Some text) =
      Ok (Z.of_nat (length text), m', with_size b (size b + length text)) /\
    m' = memmove m (bdata b + size b) t /\ length m' = length m.
Proof.
  intros [Hw Hs] Hcap Hlen Hlt t. unfold buf_appendf, vsnprintf, buf_end.
  destruct (buf_remaining_small b Hs Hcap) as [E1 E2]. rewrite E2, E1, Nat2Z.id.
  destruct (capacity b - size b) as [|n] eqn:E; [lia|].
  rewrite (proj2 (Z.ltb_ge _ _)), (proj2 (Z.ltb_ge _ _)), Nat2Z.id by lia.
  cbn [with_size size capacity].
  rewrite (proj2 (Nat.leb_le _ _)) by lia. cbn [obind oassert].
  subst t. replace (S n - 1) with n by lia.
  eexists. split_and!; [done | done | apply length_memmove].
Qed.

(** A text shorter than the rest of the buffer is appended whole and
    terminated.  A text as long as the rest of the buffer is also reported as
    appended, but its last character is replaced by the terminator: the bound
    check is off by one. *)
Theorem buf_appendf_last_char m b text :
  buf_wf m b -> int_sized (capacity b) -> 0 < length text <= capacity b - size b ->
  exists m', buf_appendf m b (Some text) =
      Ok (Z.of_nat (length text), m', with_size b (size b + length text)) /\
    contents m' (with_size b (size b + length text)) = contents m b ++
      (if length text <? capacity b - size b then text else removelast text ++ [NUL]) /\
    (length text < capacity b - size b ->
       m' !! (bdata b + (size b + length text)) = Some NUL).
Proof.
  intros Hwf Hcap [H0 Hlen]. pose proof Hwf as [Hw Hs].
  destruct (appendf_text m b text Hwf Hcap Hlen) as (m' & E & Hm & Hl); [lia|].
  set (t := take (capacity b - size b - 1) text ++ [NUL]) in Hm.
  assert (length t = S (Nat.min (capacity b - size b - 1) (length text))) as Hlt.
  { subst t. rewrite length_app, length_take. simpl. lia. }
  assert (forall i, i < length t -> m' !! (bdata b + size b + i) = t !! i) as Hin.
  { intros i Hi. rewrite Hm, lookup_memmove by lia. rewrite decide_True by lia. f_equal. lia. }
  exists m'. split_and!; [done | |].
  - unfold contents, asslice, bytes. simpl sl_data. simpl sl_size.
    rewrite chars_app by lia. f_equal.
    + apply chars_agree. intros i Hi. rewrite Hm, lookup_memmove by lia.
      by rewrite decide_False by lia.
    + apply list_eq. intros i. destruct (decide (i < length text)) as [Hi|Hi].
      * rewrite lookup_chars, Hin by lia. subst t.
        destruct (length text <? capacity b - size b) eqn:El; reflect_bools.
        { rewrite take_ge by lia. by rewrite lookup_app_l. }
        replace (capacity b - size b - 1) with (pred (length text)) by lia.
        by rewrite <- removelast_firstn_len.
      * rewrite !lookup_ge_None_2; [done | | simpl; rewrite length_take; lia].
        destruct (_ <? _); [lia|]. rewrite length_app, removelast_firstn_len, length_take.
        simpl. lia.
  - intros Hsh. rewrite Nat.add_assoc, Hin by lia. subst t.
    rewrite take_ge by lia. by rewrite list_lookup_middle.
Qed.

Lemma buf_appendf_last_char_witness :
  exists m', buf_appendf (replicate 6 NUL) (mkbuf 3 0 0)
      (Some ["a"; "b"; "c"]%char) = Ok (3%Z, m', mkbuf 3 3 0) /\
    contents m' (mkbuf 3 3 0) = ["a"; "b"; NUL]%char.
Proof.
  refine (let '(ex_intro _ m' (conj E (conj H _))) :=
            buf_appendf_last_char (replicate 6 NUL) (mkbuf 3 0 0) ["a"; "b"; "c"]%char _ _ _
          in ex_intro _ m' (conj E H)).
  - split; simpl; lia.
  - unfold int_sized. simpl. lia.
  - simpl. lia.
Defined.

End Buf.
