(* ===== verification/SessionSlots.v ===== *)
(** The NFSv4.1 session slot table of [nfs4/session_slots.c].

    Every compound takes a slot before it is sent and gives it back when the
    reply (or the failure to send) is known; the server uses the slot id and
    its sequence id to give the compound exactly-once semantics.  All calls run
    under [sst->mutex], so an operation is one atomic step; a call that would
    sleep on [slot_cv] is one that cannot step, [None]. *)

From S2P Require Import Prelude CommonTypes.
Import Bitset.
Local Open Scope Z_scope.

Module Slots.

Definition SESSION_SLOT_TABLE_CAPACITY : nat := 128.

Record session_slot_table := mk_sst {
  slots : list Z;                     (* sequenceid4 of each slot *)
  highest_used_slotid_plus1 : Z;
  server_highest_slotid : Z;
  target_highest_slotid : Z;
  free_slots : bitset
}.

(** The table as [new_session_slot_table] fills it in. *)
Definition initial_sst : session_slot_table :=
  mk_sst (replicate SESSION_SLOT_TABLE_CAPACITY 1)
    0
    (Z.of_nat SESSION_SLOT_TABLE_CAPACITY - 1)
    (Z.of_nat SESSION_SLOT_TABLE_CAPACITY - 1)
    (bs_set_all (new_bitset SESSION_SLOT_TABLE_CAPACITY)).

(** [malloc_ok] is the outcome of the allocation of the table. *)
Definition new_session_slot_table (malloc_ok : bool) : option session_slot_table :=
  if malloc_ok then Some initial_sst else None.

(** Deleting a table requires that no slot is outstanding; the caller's
    pointer becomes null. *)
Definition del_session_slot_table (sst : option session_slot_table)
  : outcome (option session_slot_table) :=
  match sst with
  | Some t => assert! (highest_used_slotid_plus1 t =? 0) ;; Ok None
  | None => Ok None
  end.

(** Returns the slot, its sequence id, the highest slot in use and the new
    table; [None] while the calling thread has to wait. *)
Definition alloc_session_slot (sst : session_slot_table)
  : option (Z * Z * Z * session_slot_table) :=
  let slotid := bs_ffs (free_slots sst) in
  if (slotid =? -1) || (target_highest_slotid sst <? slotid) then None
  else
    let free := bs_reset (free_slots sst) (Z.to_nat slotid) in
    let highest :=
      if highest_used_slotid_plus1 sst <=? slotid then slotid + 1
      else highest_used_slotid_plus1 sst in
    Some (slotid, default 0 (slots sst !! Z.to_nat slotid), u32 (highest - 1),
      mk_sst (slots sst) highest (server_highest_slotid sst)
        (target_highest_slotid sst) free).

(** [while (s >= 0 && bs_get(free_slots, s)) --s;], returning [s + 1] for the
    loop entered with [s = n - 1]. *)
Fixpoint scan_down (free : bitset) (n : nat) : nat :=
  match n with
  | O => O
  | S s => if bs_get free s then scan_down free s else S s
  end.

(** Returns the new table and whether a waiter is signalled. *)
Definition free_session_slot (sst : session_slot_table) (slotid : nat)
    (server_highest target_highest : Z) (sent : bool)
  : outcome (session_slot_table * bool) :=
  assert! (negb (bs_get (free_slots sst) slotid)) ;;
  let free := bs_set (free_slots sst) slotid in
  let highest :=
    if Z.of_nat slotid + 1 =? highest_used_slotid_plus1 sst
    then Z.of_nat (scan_down free slotid)
    else highest_used_slotid_plus1 sst in
  let signal := Z.of_nat slotid <=? target_highest in
  if sent then
    assert! (highest <=? u32 (server_highest + 1)) ;;
    Ok (mk_sst (alter (fun q => u32 (q + 1)) slotid (slots sst))
          highest server_highest target_highest free, signal)
  else
    Ok (mk_sst (slots sst) highest (server_highest_slotid sst)
          (target_highest_slotid sst) free, signal).

Definition get_slot_sequence (sst : session_slot_table) (slotid : nat) : outcome Z :=
  assert! (slotid <? SESSION_SLOT_TABLE_CAPACITY)%nat ;;
  Ok (default 0 (slots sst !! slotid)).

(** ** Traces

    An event is a completed call.  A slot passed to [free_session_slot] is a
    slot id of the table, as every caller obtained it from
    [alloc_session_slot]; the two limits the server replies with are
    [uint32_t]. *)

Inductive event :=
  | EAlloc (slotid : nat) (sequence highest : Z)
  | EFree (slotid : nat) (sent : bool) (signal : bool).

Inductive step : session_slot_table -> event -> session_slot_table -> Prop :=
  | step_alloc sst slotid seq highest sst' :
      alloc_session_slot sst = Some (Z.of_nat slotid, seq, highest, sst') ->
      step sst (EAlloc slotid seq highest) sst'
  | step_free sst slotid server target sent sst' signal :
      (slotid < SESSION_SLOT_TABLE_CAPACITY)%nat ->
      0 <= server < 2 ^ 32 -> 0 <= target < 2 ^ 32 ->
      free_session_slot sst slotid server target sent = Ok (sst', signal) ->
      step sst (EFree slotid sent signal) sst'.

(** [reach tr sst]: the table [sst] is reached from a new one by the calls of
    [tr], the latest call first. *)
Inductive reach : list event -> session_slot_table -> Prop :=
  | reach_new sst :
      new_session_slot_table true = Some sst -> reach [] sst
  | reach_step tr sst e sst' :
      reach tr sst -> step sst e sst' -> reach (e :: tr) sst'.

(** ** The abstract view of a trace *)

(** The slots handed out and not yet given back. *)
Fixpoint outstanding (tr : list event) : gset nat :=
  match tr with
  | [] => ∅
  | EAlloc s _ _ :: tr => {[ s ]} ∪ outstanding tr
  | EFree s _ _ :: tr => outstanding tr ∖ {[ s ]}
  end.

(** How many compounds were sent on slot [s]. *)
Fixpoint sent_on (s : nat) (tr : list event) : nat :=
  match tr with
  | EFree s' true _ :: tr => if decide (s' = s) then S (sent_on s tr) else sent_on s tr
  | _ :: tr => sent_on s tr
  | [] => O
  end.

(** [h] is one more than the greatest element of [X], 0 for the empty set. *)
Definition is_sup (X : gset nat) (h : nat) : Prop :=
  (forall s, s ∈ X -> (s < h)%nat) /\ (h = O \/ pred h ∈ X).

(** What a table means: the slots in use, and the number of compounds each
    slot carried. *)
Record represents (X : gset nat) (sent : nat -> nat) (sst : session_slot_table)
    : Prop := {
  rep_len : length (slots sst) = SESSION_SLOT_TABLE_CAPACITY;
  rep_wf : bs_wf (free_slots sst);
  rep_size : bs_size (free_slots sst) = SESSION_SLOT_TABLE_CAPACITY;
  rep_free : forall s, (s < SESSION_SLOT_TABLE_CAPACITY)%nat ->
    bs_get (free_slots sst) s = bool_decide (s ∉ X);
  rep_range : forall s, s ∈ X -> (s < SESSION_SLOT_TABLE_CAPACITY)%nat;
  rep_high : exists h : nat, highest_used_slotid_plus1 sst = Z.of_nat h /\ is_sup X h;
  rep_seq : forall s, (s < SESSION_SLOT_TABLE_CAPACITY)%nat ->
    slots sst !! s = Some (u32 (1 + Z.of_nat (sent s)))
}.

(** *** The scan for the next highest slot *)

Lemma scan_down_spec free n X :
  (forall s, (s < n)%nat -> bs_get free s = bool_decide (s ∉ X)) ->
  (forall s, s ∈ X -> (s < n)%nat) ->
  is_sup X (scan_down free n).
Proof.
  revert X. induction n as [|n IH]; intros X Hf Hb; simpl.
  - split; [exact Hb | by left].
  - rewrite Hf by lia. case_bool_decide as E.
    + apply IH; [intros; apply Hf; lia|]. intros s Hs.
      specialize (Hb s Hs). assert (s <> n) by congruence. lia.
    + split; [exact Hb|]. right. simpl.
      destruct (decide (n ∈ X)); [done | contradiction].
Qed.

Lemma is_sup_unique X h h' : is_sup X h -> is_sup X h' -> h = h'.
Proof.
  intros [Hb Hm] [Hb' Hm'].
  assert (forall a b, (forall s, s ∈ X -> (s < b)%nat) ->
            (a = O \/ pred a ∈ X) -> (a <= b)%nat) as Hle.
  { intros a b Hab [->|Ha]; [lia|]. specialize (Hab _ Ha). lia. }
  pose proof (Hle h h' Hb' Hm). pose proof (Hle h' h Hb Hm'). lia.
Qed.

Lemma is_sup_add X h s :
  is_sup X h -> is_sup ({[ s ]} ∪ X) (if h <=? s then S s else h)%nat.
Proof.
  intros [Hb Hm]. destruct (h <=? s)%nat eqn:E; reflect_bools; split.
  - intros s'. rewrite elem_of_union, elem_of_singleton.
    intros [-> | H]; [lia|]. specialize (Hb _ H). lia.
  - right. by apply elem_of_union_l, elem_of_singleton.
  - intros s'. rewrite elem_of_union, elem_of_singleton.
    intros [-> | H]; [lia|]. by apply Hb.
  - right. destruct Hm as [Hm | Hm]; [lia|]. by apply elem_of_union_r.
Qed.

(** *** Each operation preserves the representation *)

Lemma represents_new sst :
  new_session_slot_table true = Some sst -> represents ∅ (fun _ => O) sst.
Proof.
  intros H%Some_inj. subst sst. split; cbn [initial_sst slots free_slots highest_used_slotid_plus1].
  - apply length_replicate.
  - apply bs_wf_set_all.
  - done.
  - intros s Hs. rewrite bs_get_set_all. cbn [bs_size new_bitset].
    rewrite (proj2 (Nat.ltb_lt _ _) Hs). symmetry. apply bool_decide_true. set_solver.
  - set_solver.
  - exists O. split; [done|]. split; [set_solver | by left].
  - intros s Hs. by rewrite lookup_replicate_2.
Qed.

(** The slot allocated is the least one that is not in use, and the highest
    slot reported is the highest one in use. *)
Lemma represents_alloc X sent sst slotid seq highest sst' :
  represents X sent sst ->
  alloc_session_slot sst = Some (Z.of_nat slotid, seq, highest, sst') ->
  (slotid ∉ X) /\ (slotid < SESSION_SLOT_TABLE_CAPACITY)%nat /\
  Z.of_nat slotid <= target_highest_slotid sst /\
  (forall s, (s < slotid)%nat -> s ∈ X) /\
  seq = u32 (1 + Z.of_nat (sent slotid)) /\
  (exists h, highest = Z.of_nat h /\ is_sup ({[ slotid ]} ∪ X) (S h)) /\
  represents ({[ slotid ]} ∪ X) sent sst'.
Proof.
  intros [Hlen Hwf Hsize Hfree Hrange (h & Hh & Hsup) Hseq] Ha.
  unfold alloc_session_slot in Ha.
  destruct (bs_ffs_spec _ Hwf) as [[Hm1 _] | (k & Hk & Hks & Hget & Hlow)].
  { rewrite Hm1 in Ha. done. }
  rewrite Hk in Ha. destruct (_ || _) eqn:Hc; [done|].
  apply orb_false_iff in Hc as [_ Hc]. rewrite Nat2Z.id in Ha.
  injection Ha as Heq%Nat2Z.inj <- <- <-. subst k.
  rewrite Hsize in Hks.
  assert (slotid ∉ X) as Hnot.
  { rewrite Hfree in Hget by done. by apply bool_decide_eq_true in Hget. }
  pose proof (is_sup_add X h slotid Hsup) as Hsup'.
  set (h' := (if h <=? slotid then S slotid else h)%nat) in *.
  assert ((if highest_used_slotid_plus1 sst <=? Z.of_nat slotid
           then Z.of_nat slotid + 1 else highest_used_slotid_plus1 sst)
          = Z.of_nat h') as ->.
  { rewrite Hh. subst h'. destruct (h <=? slotid)%nat eqn:E; reflect_bools.
    - rewrite (proj2 (Z.leb_le _ _)) by lia. lia.
    - rewrite (proj2 (Z.leb_gt _ _)) by lia. lia. }
  assert (0 < h' <= SESSION_SLOT_TABLE_CAPACITY)%nat as Hh'.
  { destruct Hsup' as [Hb [Hz | Hm]].
    - exfalso. specialize (Hb slotid). rewrite Hz in Hb. set_solver by lia.
    - assert (slotid < h')%nat by (by apply Hb, elem_of_union_l, elem_of_singleton).
      apply elem_of_union in Hm as [Hm%elem_of_singleton | Hm%Hrange]; lia. }
  reflect_bools. split_and!; try done; try lia.
  - intros s Hs. specialize (Hlow s Hs). rewrite Hfree in Hlow by lia.
    apply bool_decide_eq_false in Hlow. by destruct (decide (s ∈ X)).
  - by rewrite Hseq.
  - exists (pred h'). rewrite u32_small by (unfold SESSION_SLOT_TABLE_CAPACITY in *; lia).
    replace (S (pred h')) with h' by lia. split; [lia | done].
  - split; simpl; auto with tc.
    + by rewrite bs_size_reset.
    + intros s Hs. rewrite bs_get_reset by (done || lia).
      case_decide as E; subst.
      * symmetry. apply bool_decide_false. set_solver.
      * rewrite Hfree by done. apply bool_decide_ext. set_solver.
    + set_solver.
    + eauto.
Qed.

Lemma represents_free X sent sst slotid server target snt sst' signal :
  represents X sent sst -> (slotid < SESSION_SLOT_TABLE_CAPACITY)%nat ->
  free_session_slot sst slotid server target snt = Ok (sst', signal) ->
  slotid ∈ X /\ signal = (Z.of_nat slotid <=? target) /\
  represents (X ∖ {[ slotid ]})
    (fun s => if snt then if decide (slotid = s) then S (sent s) else sent s
              else sent s) sst'.
Proof.
  intros [Hlen Hwf Hsize Hfree Hrange (h & Hh & Hsup) Hseq] Hs Hf.
  unfold free_session_slot in Hf. inv_outcome Hf.
  rewrite Hfree in Ha by done. apply negb_true_iff, bool_decide_eq_false in Ha.
  assert (slotid ∈ X) as Hin by (destruct (decide (slotid ∈ X)); done).
  set (free := bs_set (free_slots sst) slotid) in *.
  assert (forall s, (s < SESSION_SLOT_TABLE_CAPACITY)%nat ->
            bs_get free s = bool_decide (s ∉ X ∖ {[ slotid ]})) as Hfree'.
  { intros s Hs'. unfold free. rewrite bs_get_set by (done || lia).
    case_decide; subst.
    - symmetry. apply bool_decide_true. set_solver.
    - rewrite Hfree by done. apply bool_decide_ext. set_solver. }
  set (hi := if Z.of_nat slotid + 1 =? highest_used_slotid_plus1 sst
             then Z.of_nat (scan_down free slotid)
             else highest_used_slotid_plus1 sst) in *.
  assert (exists h', hi = Z.of_nat h' /\ is_sup (X ∖ {[ slotid ]}) h') as Hhi.
  { subst hi. rewrite Hh. destruct (Z.of_nat slotid + 1 =? Z.of_nat h) eqn:E;
      reflect_bools.
    - eexists. split; [done|]. apply scan_down_spec.
      + intros. apply Hfree'. lia.
      + intros s. rewrite elem_of_difference, elem_of_singleton. intros [H1 H2].
        destruct Hsup as [Hb _]. specialize (Hb s H1). lia.
    - exists h. split; [done|]. destruct Hsup as [Hb Hm]. split.
      + intros s. rewrite elem_of_difference. intros [H1 _]. by apply Hb.
      + destruct Hm as [Hm | Hm]; [by left|]. right.
        assert (slotid < h)%nat by (by apply Hb). set_solver by lia. }
  split; [done|].
  assert (sst' = mk_sst
            (if snt then alter (fun q => u32 (q + 1)) slotid (slots sst) else slots sst)
            hi (if snt then server else server_highest_slotid sst)
            (if snt then target else target_highest_slotid sst) free /\
          signal = (Z.of_nat slotid <=? target)) as [-> ->].
  { destruct snt; inv_outcome Hf; by simplify_eq. }
  split; [done|]. split; simpl; auto with tc.
  - destruct snt; by rewrite ?length_alter.
  - unfold free. auto with tc.
  - unfold free. by rewrite bs_size_set.
  - intros s. set_solver.
  - intros s Hs'. destruct snt; [|by apply Hseq].
    case_decide as E; [subst s|].
    + rewrite list_lookup_alter_eq, Hseq by done. simpl.
      rewrite u32_add_l. do 2 f_equal. lia.
    + rewrite list_lookup_alter_ne by done. by apply Hseq.
Qed.

(** The counts of [represents] only matter pointwise. *)
(** Giving back a slot in use, when the server's limit covers the others in use. *)
Lemma free_ok X sent sst slotid server target snt :
  represents X sent sst -> slotid ∈ X -> 0 <= server < 2 ^ 32 - 1 ->
  (snt = true -> forall s, s ∈ X ∖ {[ slotid ]} -> Z.of_nat s <= server) ->
  exists sst' signal, free_session_slot sst slotid server target snt = Ok (sst', signal).
Proof.
  intros Hrep Hin Hserver Hs. pose proof (rep_range _ _ _ Hrep _ Hin) as Hlt.
  assert (bs_get (free_slots sst) slotid = false) as Hget.
  { rewrite (rep_free _ _ _ Hrep) by done. apply bool_decide_false. set_solver. }
  destruct (rep_high _ _ _ Hrep) as (h & Hh & Hsup).
  assert (exists sst' signal,
            free_session_slot sst slotid server target false = Ok (sst', signal))
    as (sst1 & sg1 & Hf1).
  { unfold free_session_slot. rewrite Hget. simpl. eauto. }
  destruct (represents_free _ _ _ _ _ _ _ _ _ Hrep Hlt Hf1) as (_ & _ & Hrep1).
  destruct (rep_high _ _ _ Hrep1) as (h1 & Hh1 & Hb1 & Hm1).
  unfold free_session_slot in Hf1 |- *. rewrite Hget in Hf1 |- *. simpl in Hf1 |- *.
  injection Hf1 as <- _. simpl in Hh1.
  destruct snt; [|eauto]. rewrite Hh1, u32_small by lia.
  rewrite (proj2 (Z.leb_le _ _)); [simpl; eauto|].
  destruct Hm1 as [-> | Hm1]; [lia|]. specialize (Hs eq_refl _ Hm1). lia.
Qed.

Lemma represents_ext X sent sent' sst :
  (forall s, sent s = sent' s) -> represents X sent sst -> represents X sent' sst.
Proof. intros Heq []. split; auto. intros. rewrite <- Heq. auto. Qed.

(** Every reachable table represents its trace. *)
Lemma reach_represents tr sst :
  reach tr sst -> represents (outstanding tr) (fun s => sent_on s tr) sst.
Proof.
  induction 1 as [sst Hnew | tr sst e sst' Hr IH Hstep].
  - by apply represents_new.
  - destruct Hstep as [sst s seq hi sst' Ha | sst s server target snt sst' sg Hs _ _ Hf].
    + apply (represents_alloc _ _ _ _ _ _ _ IH) in Ha. by destruct_and! Ha.
    + apply (represents_free _ _ _ _ _ _ _ _ _ IH Hs) in Hf as (_ & _ & Hf).
      eapply represents_ext; [|exact Hf]. intros s'. by destruct snt.
Qed.

Lemma reach_target_nonneg tr sst :
  reach tr sst -> 0 <= target_highest_slotid sst.
Proof.
  induction 1 as [sst H%Some_inj | tr sst e sst' Hr IH Hstep]; [by subst|].
  destruct Hstep as [sst s seq hi sst' Ha | sst s server target snt sst' sg _ _ Ht Hf].
  - unfold alloc_session_slot in Ha. destruct (_ || _); by simplify_eq.
  - unfold free_session_slot in Hf. inv_outcome Hf.
    destruct snt; inv_outcome Hf; simplify_eq; simpl; lia.
Qed.

(** Allocation waits exactly when every slot the server wants used is taken. *)
Lemma alloc_None_iff X sent sst :
  represents X sent sst ->
  alloc_session_slot sst = None <->
  forall s, (s < SESSION_SLOT_TABLE_CAPACITY)%nat ->
    Z.of_nat s <= target_highest_slotid sst -> s ∈ X.
Proof.
  intros [Hlen Hwf Hsize Hfree Hrange _ _]. unfold alloc_session_slot.
  destruct (bs_ffs_spec _ Hwf) as [[-> Hnone] | (k & -> & Hks & Hget & Hlow)].
  - split; [|done]. intros _ s Hs _. specialize (Hnone s).
    rewrite Hfree in Hnone by done. apply bool_decide_eq_false in Hnone.
    by destruct (decide (s ∈ X)).
  - rewrite Hsize in Hks. rewrite (proj2 (Z.eqb_neq _ _)) by lia. simpl.
    destruct (_ <? _) eqn:E; reflect_bools.
    + split; [|done]. intros _ s Hs Ht. specialize (Hlow s ltac:(lia)).
      rewrite Hfree in Hlow by done. apply bool_decide_eq_false in Hlow.
      by destruct (decide (s ∈ X)).
    + split; [done|]. intros H. specialize (H k Hks E).
      rewrite Hfree in Hget by done. by apply bool_decide_eq_true in Hget.
Qed.

(** ** Properties *)

(** C1: a compound never gets a slot that another compound still holds: the
    slot returned is the least one that is not outstanding and lies within the
    limit the server asked for, and the reported highest slot is the highest
    one in use. *)
Theorem alloc_exclusive tr sst slotid seq highest sst' :
  reach tr sst ->
  alloc_session_slot sst = Some (Z.of_nat slotid, seq, highest, sst') ->
  (slotid ∉ outstanding tr) /\ (slotid < SESSION_SLOT_TABLE_CAPACITY)%nat /\
  Z.of_nat slotid <= target_highest_slotid sst /\
  (forall s, (s < slotid)%nat -> s ∈ outstanding tr) /\
  exists h, highest = Z.of_nat h /\ h ∈ {[ slotid ]} ∪ outstanding tr /\
    forall s, s ∈ {[ slotid ]} ∪ outstanding tr -> (s <= h)%nat.
Proof.
  intros Hr Ha.
  destruct (represents_alloc _ _ _ _ _ _ _ (reach_represents _ _ Hr) Ha)
    as (H1 & H2 & H3 & H4 & _ & (h & Hh & Hb & Hm) & _).
  split_and!; try done. exists h. split_and!; [done | by destruct Hm |].
  intros s Hs. specialize (Hb s Hs). lia.
Qed.

Definition after_alloc (sst : session_slot_table) : session_slot_table :=
  match alloc_session_slot sst with Some (_, _, _, sst') => sst' | None => sst end.

Definition tr1 : list event := [EAlloc 0 1 0].

Lemma reach_tr1 : reach tr1 (after_alloc initial_sst).
Proof.
  apply (reach_step [] initial_sst); [by apply reach_new|].
  apply step_alloc. vm_compute. reflexivity.
Qed.

Lemma alloc_exclusive_witness :
  (1%nat ∉ outstanding tr1) /\ (1 < SESSION_SLOT_TABLE_CAPACITY)%nat /\
  1 <= target_highest_slotid (after_alloc initial_sst) /\
  (forall s, (s < 1)%nat -> s ∈ outstanding tr1) /\
  exists h, 1 = Z.of_nat h /\ h ∈ {[ 1%nat ]} ∪ outstanding tr1 /\
    forall s, s ∈ {[ 1%nat ]} ∪ outstanding tr1 -> (s <= h)%nat.
Proof.
  apply (alloc_exclusive tr1 (after_alloc initial_sst) 1 1 1
           (after_alloc (after_alloc initial_sst)) reach_tr1).
  vm_compute. reflexivity.
Defined.

(** C2: the sequence ids used on a slot are consecutive: the compound about to
    use a slot carries one more (modulo 2^32) than the number of compounds
    already sent on that slot, so a failed send reuses its sequence id and a
    sent one never does. *)
Theorem sequence_consecutive tr sst slotid seq highest sst' :
  reach tr sst ->
  alloc_session_slot sst = Some (Z.of_nat slotid, seq, highest, sst') ->
  seq = u32 (1 + Z.of_nat (sent_on slotid tr)) /\
  get_slot_sequence sst' slotid = Ok seq.
Proof.
  intros Hr Ha.
  destruct (represents_alloc _ _ _ _ _ _ _ (reach_represents _ _ Hr) Ha)
    as (_ & H2 & _ & _ & -> & _ & Hrep).
  split; [done|]. unfold get_slot_sequence.
  rewrite (proj2 (Nat.ltb_lt _ _) H2). simpl. by rewrite (rep_seq _ _ _ Hrep).
Qed.

Definition after_free (sst : session_slot_table) (s : nat) : session_slot_table :=
  match free_session_slot sst s 127 127 true with Ok (sst', _) => sst' | _ => sst end.

Definition tr2 : list event := EFree 0 true true :: tr1.

Lemma reach_tr2 : reach tr2 (after_free (after_alloc initial_sst) 0).
Proof.
  apply (reach_step tr1 (after_alloc initial_sst)); [apply reach_tr1|].
  apply (step_free _ 0 127 127); [vm_compute; lia | lia | lia |].
  vm_compute. reflexivity.
Qed.

Lemma sequence_consecutive_witness :
  2 = u32 (1 + Z.of_nat (sent_on 0 tr2)) /\
  get_slot_sequence (after_alloc (after_free (after_alloc initial_sst) 0)) 0 = Ok 2.
Proof.
  apply (sequence_consecutive tr2 (after_free (after_alloc initial_sst) 0) 0 2 0
           _ reach_tr2).
  vm_compute. reflexivity.
Defined.

(** C3: waiting is justified and cannot last for ever: a caller has to wait
    only when every slot within the server's limit is outstanding (slot 0 among
    them), and giving back slot 0, whatever the server replied, signals a
    waiter and leaves a table from which an allocation succeeds. *)
Theorem wait_progress tr sst :
  reach tr sst -> alloc_session_slot sst = None ->
  0%nat ∈ outstanding tr /\
  (forall s, (s < SESSION_SLOT_TABLE_CAPACITY)%nat ->
     Z.of_nat s <= target_highest_slotid sst -> s ∈ outstanding tr) /\
  (forall server target sent sst' signal,
     0 <= target -> free_session_slot sst 0 server target sent = Ok (sst', signal) ->
     signal = true /\ is_Some (alloc_session_slot sst')).
Proof.
  intros Hr Hnone. pose proof (reach_represents _ _ Hr) as Hrep.
  pose proof (reach_target_nonneg _ _ Hr) as Ht.
  pose proof (proj1 (alloc_None_iff _ _ _ Hrep) Hnone) as Hall.
  split_and!; [apply Hall; [vm_compute; lia | lia] | done |].
  intros server target snt sst' signal Htgt Hf.
  assert (target_highest_slotid sst' = if snt then target else target_highest_slotid sst)
    as Htgt'.
  { unfold free_session_slot in Hf. inv_outcome Hf.
    destruct snt; inv_outcome Hf; by simplify_eq. }
  apply (represents_free _ _ _ 0 _ _ _ _ _ Hrep) in Hf as (_ & -> & Hrep');
    [|vm_compute; lia].
  split; [apply Z.leb_le; lia|].
  destruct (alloc_session_slot sst') eqn:E; [eauto|].
  apply (alloc_None_iff _ _ _ Hrep') with (s := 0%nat) in E;
    [set_solver | vm_compute; lia | rewrite Htgt'; destruct snt; lia].
Qed.

(** A server that limits the client to one slot. *)
Definition one_slot : session_slot_table :=
  match free_session_slot (after_alloc initial_sst) 0 0 0 true with
  | Ok (sst', _) => sst' | _ => initial_sst end.

Definition tr3 : list event := EAlloc 0 2 0 :: EFree 0 true true :: tr1.

Lemma reach_tr3 : reach tr3 (after_alloc one_slot).
Proof.
  apply (reach_step (EFree 0 true true :: tr1) one_slot).
  - apply (reach_step tr1 (after_alloc initial_sst)); [apply reach_tr1|].
    apply (step_free _ 0 0 0); [vm_compute; lia | lia | lia |].
    vm_compute. reflexivity.
  - apply step_alloc. vm_compute. reflexivity.
Qed.

Lemma wait_progress_witness : 0%nat ∈ outstanding tr3.
Proof.
  refine (proj1 (wait_progress tr3 (after_alloc one_slot) reach_tr3 _)).
  vm_compute. reflexivity.
Defined.

(** Giving back a slot that is outstanding never trips an assertion as
    long as the server's reported highest slot covers the slots still in use,
    and the table can be deleted exactly when no slot is outstanding. *)
Theorem free_never_aborts tr sst slotid server target sent :
  reach tr sst -> slotid ∈ outstanding tr ->
  0 <= server < 2 ^ 32 - 1 ->
  (sent = true -> forall s, s ∈ outstanding tr ∖ {[ slotid ]} -> Z.of_nat s <= server) ->
  (exists sst' signal, free_session_slot sst slotid server target sent = Ok (sst', signal)) /\
  del_session_slot_table (Some sst) = Abort.
Proof.
  intros Hr Hin Hserver Hs. pose proof (reach_represents _ _ Hr) as Hrep.
  split; [by apply (free_ok _ _ _ _ _ _ _ Hrep)|].
  destruct (rep_high _ _ _ Hrep) as (h & Hh & Hsup).
  simpl. rewrite Hh. destruct Hsup as [Hb _]. specialize (Hb _ Hin).
  by rewrite (proj2 (Z.eqb_neq _ _)) by lia.
Qed.

Lemma free_never_aborts_witness :
  (exists sst' signal,
     free_session_slot (after_alloc initial_sst) 0 127 127 true = Ok (sst', signal)) /\
  del_session_slot_table (Some (after_alloc initial_sst)) = Abort.
Proof.
  apply (free_never_aborts tr1 (after_alloc initial_sst) 0 127 127 true reach_tr1).
  - set_solver.
  - lia.
  - intros _ s. set_solver.
Defined.

End Slots.
