(* ===== verification/FdTable.v ===== *)
(** The client-side file descriptor table of [nfs4/nfs4_util.c].

    A TC file descriptor is an index into the static array [fd_list], offset by
    [VFD_OFFSET]; unused indices are kept on the stack [free_fds].  The locks are
    part of the state, as the calling thread holds them: taking a mutex that the
    thread already holds is [Deadlock]. *)

From S2P Require Import Prelude.
Local Open Scope Z_scope.

Module Fds.

Definition MAX_FD : nat := 1024.
Definition VFD_OFFSET : Z := Z.shiftl 1 30.

(** A lock as its owner sees it. *)
Inductive rwlock := Unlocked | RdLocked (n : nat) | WrLocked.

Record nfs_fh4 := mk_fh { nfs_fh4_val : option (list ascii); nfs_fh4_len : nat }.
Record stateid4 := mk_stateid { si_seqid : Z; si_other : list ascii }.

Record tc_kfd := mk_kfd {
  fd_lock : rwlock;
  fd : Z;
  fh : nfs_fh4;
  stateid : stateid4;
  seqid : Z;
  offset : Z;
  filesize : Z
}.

Record fd_table := mk_fdt {
  fd_list : list tc_kfd;
  free_fds : list nat;
  free_fds_top : nat;
  fd_list_lock : bool
}.

(** ** Locks *)

(** Whether the platform's [pthread_rwlock_rdlock] reports [EDEADLK] to a thread
    that holds the lock for writing (POSIX leaves this open); the source ignores
    the returned value. *)
Definition rdlock (detects : bool) (l : rwlock) : outcome rwlock :=
  match l with
  | Unlocked => Ok (RdLocked 1)
  | RdLocked n => Ok (RdLocked (S n))
  | WrLocked => if detects then Ok WrLocked else Deadlock
  end.

Definition wrlock (detects : bool) (l : rwlock) : outcome rwlock :=
  match l with
  | Unlocked => Ok WrLocked
  | RdLocked _ => Deadlock
  | WrLocked => if detects then Ok WrLocked else Deadlock
  end.

Definition rwunlock (l : rwlock) : rwlock :=
  match l with
  | RdLocked (S (S n)) => RdLocked (S n)
  | _ => Unlocked
  end.

Definition set_lock (k : tc_kfd) (l : rwlock) : tc_kfd :=
  mk_kfd l (fd k) (fh k) (stateid k) (seqid k) (offset k) (filesize k).

Definition with_list (t : fd_table) (l : list tc_kfd) : fd_table :=
  mk_fdt l (free_fds t) (free_fds_top t) (fd_list_lock t).

Definition mutex_lock (t : fd_table) : outcome fd_table :=
  if fd_list_lock t then Deadlock
  else Ok (mk_fdt (fd_list t) (free_fds t) (free_fds_top t) true).

Definition mutex_unlock (t : fd_table) : fd_table :=
  mk_fdt (fd_list t) (free_fds t) (free_fds_top t) false.

(** ** Operations *)

(** The initialisation loop of [vinit_fds] from index [i] on, [n] entries left;
    [rwinit i] is what [pthread_rwlock_init] returns for entry [i]. *)
Fixpoint vinit_loop (rwinit : nat -> Z) (n i : nat) (t : fd_table) : Z * fd_table :=
  match n with
  | O => (0, t)
  | S n =>
      let r := rwinit i in
      if negb (r =? 0) then (r, t)
      else
        vinit_loop rwinit n (S i)
          (mk_fdt
             (alter (fun k => mk_kfd Unlocked (-1) (fh k) (stateid k) (seqid k)
                                (offset k) (filesize k)) i (fd_list t))
             (<[ free_fds_top t := i ]> (free_fds t))
             (S (free_fds_top t)) (fd_list_lock t))
  end.

Definition vinit_fds (attr_r : Z) (rwinit : nat -> Z) (t : fd_table)
  : outcome (Z * fd_table) :=
  if negb (attr_r =? 0) then Ok (attr_r, t)
  else
    let! t := mutex_lock t in
    let '(r, t) := vinit_loop rwinit MAX_FD 0
                     (mk_fdt (fd_list t) (free_fds t) 0 (fd_list_lock t)) in
    Ok (r, mutex_unlock t).

Definition tc_count_free_fds (t : fd_table) : outcome (Z * fd_table) :=
  let! t := mutex_lock t in
  Ok (Z.of_nat (free_fds_top t), mutex_unlock t).

(** [sid] and [object] are not null; the new handle is a copy. *)
Definition tc_alloc_fd (sid : stateid4) (object : nfs_fh4) (t : fd_table)
  : outcome (Z * fd_table) :=
  let! t := mutex_lock t in
  match free_fds_top t with
  | O => Ok (- ENFILE, mutex_unlock t)
  | S top =>
      let cur_fd := default O (free_fds t !! top) in
      assert! (match fd_list t !! cur_fd with Some k => fd k <? 0 | None => false end) ;;
      let l := alter (fun k => mk_kfd (fd_lock k) (Z.of_nat cur_fd + VFD_OFFSET)
                                 object sid 0 0 (filesize k)) cur_fd (fd_list t) in
      Ok (Z.of_nat cur_fd + VFD_OFFSET,
          mutex_unlock (mk_fdt l (free_fds t) top (fd_list_lock t)))
  end.

Section locks.
Variable detects : bool.

(** Returns the index of the locked entry, [None] for an invalid descriptor. *)
Definition tc_get_fd_struct (fdno : Z) (lock_for_write : bool) (t : fd_table)
  : outcome (option nat * fd_table) :=
  let i := fdno - VFD_OFFSET in
  if (i <? 0) || (Z.of_nat MAX_FD <=? i) then Ok (None, t)
  else
    let i := Z.to_nat i in
    match fd_list t !! i with
    | None => Ok (None, t)
    | Some k =>
        let! l := rdlock detects (fd_lock k) in
        if (fd k <? 0) || negb (fd k =? Z.of_nat i + VFD_OFFSET) then
          Ok (None, with_list t (<[ i := set_lock k (rwunlock l) ]> (fd_list t)))
        else if lock_for_write then
          let! l := wrlock detects (rwunlock l) in
          Ok (Some i, with_list t (<[ i := set_lock k l ]> (fd_list t)))
        else
          Ok (Some i, with_list t (<[ i := set_lock k l ]> (fd_list t)))
    end.

(** Releases the lock of an entry and returns what [pthread_rwlock_unlock]
    returns, 0 for the owner. *)
Definition tc_put_fd_struct (i : nat) (t : fd_table) : Z * fd_table :=
  (0, with_list t (alter (fun k => set_lock k (rwunlock (fd_lock k))) i (fd_list t))).

Definition clear_entry (k : tc_kfd) : tc_kfd :=
  mk_kfd (fd_lock k) (-1) (mk_fh None (nfs_fh4_len (fh k))) (stateid k) 0 0 (filesize k).

Definition push_free (i : nat) (t : fd_table) : outcome fd_table :=
  let! t := mutex_lock t in
  Ok (mutex_unlock (mk_fdt (fd_list t) (<[ free_fds_top t := i ]> (free_fds t))
                      (S (free_fds_top t)) (fd_list_lock t))).

Definition tc_free_fd (fdno : Z) (t : fd_table) : outcome (Z * fd_table) :=
  let! (r, t) := tc_get_fd_struct fdno true t in
  match r with
  | None => Ok (- EINVAL, t)
  | Some i =>
      let t := with_list t (alter clear_entry i (fd_list t)) in
      let t := (tc_put_fd_struct i t).2 in
      let! t := push_free (Z.to_nat (fdno - VFD_OFFSET)) t in
      Ok (0, t)
  end.

(** The local [seqid] that is returned is never assigned. *)
Definition tc_incr_fd_seqid (fdno : Z) (t : fd_table) : outcome (Z * fd_table) :=
  let! (r, t) := tc_get_fd_struct fdno true t in
  match r with
  | None => Ok (- EINVAL, t)
  | Some i =>
      let t := with_list t
        (alter (fun k => mk_kfd (fd_lock k) (fd k) (fh k) (stateid k)
                           (u32 (seqid k + 1)) (offset k) (filesize k)) i (fd_list t)) in
      Ok (0, (tc_put_fd_struct i t).2)
  end.

(** [tc_for_each_fd] from entry [i] on; [p] is the processor, which gets the
    entry's index and the caller's [args], and [rc] the last value it returned. *)
Fixpoint for_each_loop {A} (p : nat -> fd_table -> A -> outcome (Z * fd_table * A))
    (n i : nat) (rc : Z) (t : fd_table) (args : A) : outcome (Z * fd_table * A) :=
  match n with
  | O => Ok (rc, t, args)
  | S n =>
      match fd_list t !! i with
      | None => Ok (rc, t, args)
      | Some k =>
          let! l := wrlock detects (fd_lock k) in
          let t := with_list t (<[ i := set_lock k l ]> (fd_list t)) in
          if 0 <? fd k then
            let! (rc, t, args) := p i t args in
            let t := (tc_put_fd_struct i t).2 in
            if negb (rc =? 0) then Ok (rc, t, args)
            else for_each_loop p n (S i) rc t args
          else
            for_each_loop p n (S i) rc (tc_put_fd_struct i t).2 args
      end
  end.

Definition tc_for_each_fd {A} (p : nat -> fd_table -> A -> outcome (Z * fd_table * A))
    (t : fd_table) (args : A) : outcome (Z * fd_table * A) :=
  let! t := mutex_lock t in
  let! (rc, t, args) := for_each_loop p MAX_FD 0 0 t args in
  Ok (rc, mutex_unlock t, args).

End locks.

(** ** The abstract table

    A descriptor is open or not; an open one has a handle, a state id, a
    sequence id, a cursor and a size. *)

Definition free_set (t : fd_table) : list nat := take (free_fds_top t) (free_fds t).

(** What [fdno] stands for, [None] when it is not open. *)
Definition entry (t : fd_table) (fdno : Z) : option tc_kfd :=
  if (fdno - VFD_OFFSET <? 0) || (Z.of_nat MAX_FD <=? fdno - VFD_OFFSET) then None
  else
    match fd_list t !! Z.to_nat (fdno - VFD_OFFSET) with
    | Some k => if fd k =? fdno then Some k else None
    | None => None
    end.

(** Well-formedness between calls: no lock is held, the free stack lists each
    unused index once and every other entry carries its own descriptor. *)
Record fdt_wf (t : fd_table) : Prop := {
  wf_list : length (fd_list t) = MAX_FD;
  wf_stack : length (free_fds t) = MAX_FD;
  wf_top : (free_fds_top t <= MAX_FD)%nat;
  wf_mutex : fd_list_lock t = false;
  wf_nodup : NoDup (free_set t);
  wf_entry : forall i k, fd_list t !! i = Some k ->
    fd_lock k = Unlocked /\
    fd k = (if decide (i ∈ free_set t) then -1 else Z.of_nat i + VFD_OFFSET);
  wf_bound : forall i, i ∈ free_set t -> (i < MAX_FD)%nat
}.

(** ** Entries and indices *)

Lemma VFD_OFFSET_pos : 0 < VFD_OFFSET.
Proof. reflexivity. Qed.

Lemma set_lock_same k : fd_lock k = Unlocked -> set_lock k Unlocked = k.
Proof. destruct k; simpl; by intros ->. Qed.

Lemma entry_inv t fdno k :
  fdt_wf t -> entry t fdno = Some k ->
  exists i, fdno = Z.of_nat i + VFD_OFFSET /\ (i < MAX_FD)%nat /\
    fd_list t !! i = Some k /\ (i ∉ free_set t) /\ fd k = fdno /\ fd_lock k = Unlocked.
Proof.
  intros Hwf. unfold entry. destruct (_ || _) eqn:E; [done|]. reflect_bools.
  destruct (fd_list t !! _) as [k'|] eqn:Hk; [|done].
  destruct (fd k' =? fdno) eqn:Hf; [|done]. intros [= ->]. reflect_bools.
  exists (Z.to_nat (fdno - VFD_OFFSET)). destruct (wf_entry _ Hwf _ _ Hk) as [Hl Hfd].
  split_and!; try done; [lia | lia |].
  intros Hin. rewrite decide_True in Hfd by done.
  pose proof VFD_OFFSET_pos. lia.
Qed.

Lemma entry_index t i k :
  fdt_wf t -> fd_list t !! i = Some k ->
  entry t (Z.of_nat i + VFD_OFFSET) = if decide (i ∈ free_set t) then None else Some k.
Proof.
  intros Hwf Hk. pose proof (lookup_lt_Some _ _ _ Hk) as Hi.
  rewrite (wf_list _ Hwf) in Hi. unfold entry.
  rewrite (proj2 (Z.ltb_ge _ _)), (proj2 (Z.leb_gt _ _)) by lia. simpl.
  replace (Z.to_nat _) with i by lia. rewrite Hk.
  destruct (wf_entry _ Hwf _ _ Hk) as [_ ->]. pose proof VFD_OFFSET_pos.
  case_decide; [by rewrite (proj2 (Z.eqb_neq _ _)) by lia | by rewrite Z.eqb_refl].
Qed.

(** Replacing one entry of the array changes one descriptor. *)
Lemma entry_insert t t' i k' :
  fd_list t' = <[ i := k' ]> (fd_list t) -> (i < length (fd_list t))%nat ->
  (i < MAX_FD)%nat ->
  forall fdno, entry t' fdno =
    if decide (fdno = Z.of_nat i + VFD_OFFSET)
    then (if fd k' =? fdno then Some k' else None) else entry t fdno.
Proof.
  intros Hl Hi HM fdno. unfold entry. rewrite Hl. case_decide as E.
  - subst fdno. rewrite (proj2 (Z.ltb_ge _ _)), (proj2 (Z.leb_gt _ _)) by lia.
    simpl. replace (Z.to_nat _) with i by lia. by rewrite list_lookup_insert_eq.
  - destruct (_ || _) eqn:Eb; [done|]. reflect_bools.
    by rewrite list_lookup_insert_ne by lia.
Qed.

Section ops.
Context (detects : bool).

(** On a well-formed table a descriptor is found exactly when it is open, and
    its entry is then locked in the requested mode. *)
Lemma get_fd_struct_spec t fdno w :
  fdt_wf t ->
  tc_get_fd_struct detects fdno w t =
  match entry t fdno with
  | Some k => Ok (Some (Z.to_nat (fdno - VFD_OFFSET)),
      with_list t (<[ Z.to_nat (fdno - VFD_OFFSET) :=
                        set_lock k (if w then WrLocked else RdLocked 1) ]> (fd_list t)))
  | None => Ok (None, t)
  end.
Proof.
  intros Hwf. unfold tc_get_fd_struct, entry.
  destruct (_ || _) eqn:E; [done|]. reflect_bools.
  destruct (fd_list t !! _) as [k|] eqn:Hk; [|done].
  destruct (wf_entry _ Hwf _ _ Hk) as [Hl Hfd]. rewrite Hl. simpl.
  replace (Z.of_nat (Z.to_nat (fdno - VFD_OFFSET)) + VFD_OFFSET) with fdno in * by lia.
  pose proof VFD_OFFSET_pos. rewrite Hfd. case_decide.
  - rewrite (proj2 (Z.eqb_neq _ _)) by lia. simpl.
    rewrite (set_lock_same k Hl), (list_insert_id _ _ _ Hk). by destruct t.
  - rewrite Z.eqb_refl, (proj2 (Z.ltb_ge _ _)) by lia. simpl. by destruct w.
Qed.

Lemma alter_insert_eq {A} (f : A -> A) (l : list A) i x :
  (i < length l)%nat -> alter f i (<[ i := x ]> l) = <[ i := f x ]> l.
Proof.
  intros Hi. apply list_eq. intros j. destruct (decide (i = j)) as [->|].
  - by rewrite list_lookup_alter_eq, !list_lookup_insert_eq.
  - by rewrite list_lookup_alter_ne, !list_lookup_insert_ne.
Qed.

(** Freeing an open descriptor clears its entry and pushes its index. *)
Lemma free_fd_spec t fdno :
  fdt_wf t ->
  tc_free_fd detects fdno t =
  match entry t fdno with
  | Some k =>
      let i := Z.to_nat (fdno - VFD_OFFSET) in
      Ok (0, mk_fdt (<[ i := clear_entry k ]> (fd_list t))
               (<[ free_fds_top t := i ]> (free_fds t)) (S (free_fds_top t)) false)
  | None => Ok (- EINVAL, t)
  end.
Proof.
  intros Hwf. unfold tc_free_fd. rewrite get_fd_struct_spec by done.
  destruct (entry t fdno) as [k|] eqn:E; simpl; [|done].
  destruct (entry_inv _ _ _ Hwf E) as (i & -> & Hi & Hk & _ & _ & Hl).
  replace (Z.to_nat (Z.of_nat i + VFD_OFFSET - VFD_OFFSET)) with i by lia.
  unfold push_free, mutex_lock. simpl. rewrite (wf_mutex _ Hwf). simpl.
  rewrite !alter_insert_eq by (rewrite (wf_list _ Hwf); lia).
  unfold set_lock, clear_entry. simpl. by rewrite Hl.
Qed.

Lemma incr_seqid_spec t fdno :
  fdt_wf t ->
  tc_incr_fd_seqid detects fdno t =
  match entry t fdno with
  | Some k =>
      Ok (0, with_list t (<[ Z.to_nat (fdno - VFD_OFFSET) :=
               mk_kfd Unlocked (fd k) (fh k) (stateid k) (u32 (seqid k + 1))
                 (offset k) (filesize k) ]> (fd_list t)))
  | None => Ok (- EINVAL, t)
  end.
Proof.
  intros Hwf. unfold tc_incr_fd_seqid. rewrite get_fd_struct_spec by done.
  destruct (entry t fdno) as [k|] eqn:E; simpl; [|done].
  destruct (entry_inv _ _ _ Hwf E) as (i & -> & Hi & Hk & _ & _ & Hl).
  replace (Z.to_nat (Z.of_nat i + VFD_OFFSET - VFD_OFFSET)) with i by lia.
  by rewrite !alter_insert_eq by (rewrite (wf_list _ Hwf); lia).
Qed.

(** An open descriptor's index is not on the free stack, so there is room to
    push it. *)
Lemma open_top_lt t i :
  fdt_wf t -> (i < MAX_FD)%nat -> (i ∉ free_set t) -> (free_fds_top t < MAX_FD)%nat.
Proof.
  intros Hwf Hi Hnot.
  assert (length (i :: free_set t) <= MAX_FD)%nat as H.
  { apply NoDup_bounded_length.
    - apply NoDup_cons. split; [done | apply (wf_nodup _ Hwf)].
    - intros j. rewrite elem_of_cons. intros [-> | Hj]; [done|].
      by apply (wf_bound _ Hwf). }
  unfold free_set in H. simpl in H. rewrite length_take, (wf_stack _ Hwf) in H.
  pose proof (wf_top _ Hwf). lia.
Qed.

(** Updating an entry without touching its descriptor and lock keeps the table
    well formed. *)
Lemma wf_update t i k k' :
  fdt_wf t -> fd_list t !! i = Some k -> fd k' = fd k -> fd_lock k' = Unlocked ->
  fdt_wf (with_list t (<[ i := k' ]> (fd_list t))).
Proof.
  intros Hwf Hk Hfd Hl. destruct (wf_entry _ Hwf _ _ Hk) as [_ Hfdk].
  destruct Hwf as [H1 H2 H3 H4 H5 H6 H7]. split; simpl; try done.
  - by rewrite length_insert.
  - intros j kj. destruct (decide (i = j)) as [<-|Hne].
    + rewrite list_lookup_insert_eq by (by eapply lookup_lt_Some).
      intros [= <-]. split; [done|]. rewrite Hfd. exact Hfdk.
    + rewrite list_lookup_insert_ne by done. apply H6.
Qed.

Lemma wf_free t i k :
  fdt_wf t -> fd_list t !! i = Some k -> (i ∉ free_set t) ->
  fdt_wf (mk_fdt (<[ i := clear_entry k ]> (fd_list t))
            (<[ free_fds_top t := i ]> (free_fds t)) (S (free_fds_top t)) false).
Proof.
  intros Hwf Hk Hnot. pose proof (lookup_lt_Some _ _ _ Hk) as Hi.
  rewrite (wf_list _ Hwf) in Hi. pose proof (open_top_lt _ _ Hwf Hi Hnot) as Ht.
  assert (free_set (mk_fdt (<[ i := clear_entry k ]> (fd_list t))
            (<[ free_fds_top t := i ]> (free_fds t)) (S (free_fds_top t)) false)
          = free_set t ++ [i]) as Hset.
  { unfold free_set. simpl. apply take_insert_last. rewrite (wf_stack _ Hwf). lia. }
  destruct (wf_entry _ Hwf _ _ Hk) as [Hlk _].
  destruct Hwf as [H1 H2 H3 H4 H5 H6 H7].
  split; rewrite ?Hset; cbn [fd_list free_fds free_fds_top fd_list_lock]; try done.
  - by rewrite length_insert.
  - by rewrite length_insert.
  - apply NoDup_app. split_and!; [done | | apply NoDup_singleton].
    intros x Hx. rewrite list_elem_of_singleton. by intros ->.
  - intros j kj. destruct (decide (i = j)) as [<-|Hne].
    + rewrite list_lookup_insert_eq by lia. intros [= <-]. split; [done|].
      rewrite decide_True; [done|]. set_solver.
    + rewrite list_lookup_insert_ne by done. intros Hj.
      destruct (H6 _ _ Hj) as [Hlj ->]. split; [done|].
      repeat case_decide; set_solver.
  - intros j. rewrite elem_of_app, list_elem_of_singleton. intros [Hj | ->]; auto.
Qed.

(** Allocation pops the top of the free stack and fills in its entry. *)
Lemma alloc_fd_spec t sid object top :
  fdt_wf t -> free_fds_top t = S top ->
  exists i k, free_fds t !! top = Some i /\ fd_list t !! i = Some k /\
    free_set t = take top (free_fds t) ++ [i] /\
    tc_alloc_fd sid object t =
    Ok (Z.of_nat i + VFD_OFFSET,
        mk_fdt (<[ i := mk_kfd Unlocked (Z.of_nat i + VFD_OFFSET) object sid 0 0
                          (filesize k) ]> (fd_list t)) (free_fds t) top false).
Proof.
  intros Hwf Htop.
  destruct (lookup_lt_is_Some_2 (free_fds t) top) as [i Hi].
  { rewrite (wf_stack _ Hwf). pose proof (wf_top _ Hwf). lia. }
  assert (free_set t = take top (free_fds t) ++ [i]) as Hset.
  { unfold free_set. rewrite Htop. by apply take_S_r. }
  assert (i ∈ free_set t) as Hin by (rewrite Hset; set_solver).
  destruct (lookup_lt_is_Some_2 (fd_list t) i) as [k Hk].
  { rewrite (wf_list _ Hwf). by apply (wf_bound _ Hwf). }
  exists i, k. split_and!; try done.
  destruct (wf_entry _ Hwf _ _ Hk) as [Hlk Hfd]. rewrite decide_True in Hfd by done.
  unfold tc_alloc_fd, mutex_lock. rewrite (wf_mutex _ Hwf). simpl. rewrite Htop, Hi.
  simpl. rewrite Hk, Hfd. simpl. do 3 f_equal.
  rewrite <- (list_insert_id (fd_list t) i k Hk) at 1.
  rewrite alter_insert_eq by (by eapply lookup_lt_Some). by rewrite Hlk.
Qed.

Lemma wf_alloc t i k k' top :
  fdt_wf t -> free_fds_top t = S top -> fd_list t !! i = Some k ->
  free_set t = take top (free_fds t) ++ [i] ->
  fd_lock k' = Unlocked -> fd k' = Z.of_nat i + VFD_OFFSET ->
  fdt_wf (mk_fdt (<[ i := k' ]> (fd_list t)) (free_fds t) top false).
Proof.
  intros Hwf Htop Hk Hset Hl Hfd.
  pose proof (wf_nodup _ Hwf) as Hnd. rewrite Hset in Hnd.
  apply NoDup_app in Hnd as (Hnd1 & Hnd2 & _).
  assert (i ∉ take top (free_fds t)) as Hnot.
  { intros H. by apply (Hnd2 i H), list_elem_of_singleton. }
  destruct Hwf as [H1 H2 H3 H4 H5 H6 H7].
  split; unfold free_set; cbn [fd_list free_fds free_fds_top fd_list_lock];
    rewrite ?length_insert; try done; try lia.
  - intros j kj. destruct (decide (i = j)) as [<-|Hne].
    + rewrite list_lookup_insert_eq by (by eapply lookup_lt_Some).
      intros [= <-]. split; [done|]. by rewrite decide_False.
    + rewrite list_lookup_insert_ne by done. intros Hj.
      destruct (H6 _ _ Hj) as [Hlj ->]. split; [done|]. rewrite Hset.
      repeat case_decide; set_solver.
  - intros j Hj. apply H7. rewrite Hset. by apply elem_of_app; left.
Qed.

End ops.

(** ** Initialisation *)

(** After [i] rounds of the loop of [vinit_fds] the first [i] entries are unused
    and the stack holds their indices. *)
Definition init_upto (i : nat) (t : fd_table) : Prop :=
  length (fd_list t) = MAX_FD /\ length (free_fds t) = MAX_FD /\
  free_fds_top t = i /\ take i (free_fds t) = seq 0 i /\
  forall j k, (j < i)%nat -> fd_list t !! j = Some k -> fd_lock k = Unlocked /\ fd k = -1.

Lemma vinit_loop_spec rwinit n i t :
  (forall j, rwinit j = 0) -> (i + n = MAX_FD)%nat -> init_upto i t ->
  exists t', vinit_loop rwinit n i t = (0, t') /\ init_upto MAX_FD t' /\
    fd_list_lock t' = fd_list_lock t.
Proof.
  intros Hrw. revert i t. induction n as [|n IH]; intros i t Hin Hinv; simpl.
  { exists t. split_and!; try done. by replace MAX_FD with i by lia. }
  rewrite Hrw. simpl.
  edestruct IH as (t' & -> & H1 & H2); [| |exists t'; split_and!; [done|done|exact H2]];
    [lia|]. clear IH.
  destruct Hinv as (Hl & Hs & Htop & Htake & Hent).
  split_and!; cbn [fd_list free_fds free_fds_top].
  - by rewrite length_alter.
  - by rewrite length_insert.
  - lia.
  - rewrite Htop, take_insert_last by lia. rewrite Htake, seq_S. done.
  - intros j k Hj. destruct (decide (i = j)) as [<-|Hne].
    + rewrite list_lookup_alter_eq. destruct (fd_list t !! i); simpl; [|done].
      by intros [= <-].
    + rewrite list_lookup_alter_ne by done. apply Hent. lia.
Qed.

(** The static tables before initialisation. *)
Definition raw_table (t : fd_table) : Prop :=
  length (fd_list t) = MAX_FD /\ length (free_fds t) = MAX_FD /\ fd_list_lock t = false.

Lemma vinit_wf rwinit t :
  (forall j, rwinit j = 0) -> raw_table t ->
  exists t', vinit_fds 0 rwinit t = Ok (0, t') /\ fdt_wf t' /\
    free_fds_top t' = MAX_FD /\ forall fdno, entry t' fdno = None.
Proof.
  intros Hrw (Hl & Hs & Hm). unfold vinit_fds, mutex_lock. rewrite Hm. change (negb (0 =? 0)) with false.
  cbn [obind fd_list free_fds free_fds_top fd_list_lock].
  edestruct (vinit_loop_spec rwinit MAX_FD 0) as (t' & -> & Hinv & _);
    [done | done | | ].
  { split_and!; try done. intros j k Hj. lia. }
  exists (mutex_unlock t'). destruct Hinv as (H1 & H2 & H3 & H4 & H5).
  assert (free_set (mutex_unlock t') = seq 0 MAX_FD) as Hset.
  { unfold free_set, mutex_unlock. cbn [free_fds free_fds_top]. by rewrite H3. }
  assert (fdt_wf (mutex_unlock t')) as Hwf.
  { split; rewrite ?Hset; cbn [mutex_unlock fd_list free_fds free_fds_top fd_list_lock];
      try done; try lia.
    - apply NoDup_seq.
    - intros i k Hk. pose proof (lookup_lt_Some _ _ _ Hk) as Hi. rewrite H1 in Hi.
      rewrite decide_True by (apply elem_of_seq; lia). eauto.
    - intros i. rewrite elem_of_seq. lia. }
  split_and!; try done. intros fdno. destruct (entry _ fdno) as [k|] eqn:E; [|done].
  apply (entry_inv _ _ _ Hwf) in E as (i & _ & Hi & _ & Hnot & _).
  rewrite Hset, elem_of_seq in Hnot. lia.
Qed.

(** ** What clients of the table rely on *)

Section clients.
Context (detects : bool).

(** Locking an open entry for reading and releasing it. *)
Lemma get_put_read t fdno k :
  fdt_wf t -> entry t fdno = Some k ->
  let i := Z.to_nat (fdno - VFD_OFFSET) in
  exists t1, tc_get_fd_struct detects fdno false t = Ok (Some i, t1) /\
    fd_list t1 !! i = Some (set_lock k (RdLocked 1)) /\ (tc_put_fd_struct i t1).2 = t.
Proof.
  cbv zeta.
  intros Hwf E. rewrite get_fd_struct_spec, E by done.
  destruct (entry_inv _ _ _ Hwf E) as (i & -> & Hi & Hk & _ & _ & Hl).
  replace (Z.to_nat (Z.of_nat i + VFD_OFFSET - VFD_OFFSET)) with i by lia.
  pose proof (lookup_lt_Some _ _ _ Hk) as Hlt. eexists. split_and!; [done | |].
  - by apply list_lookup_insert_eq.
  - unfold tc_put_fd_struct. cbn [fd_list with_list snd]. rewrite alter_insert_eq by done.
    unfold with_list. cbn [fd_list free_fds free_fds_top fd_list_lock fd_lock set_lock rwunlock].
    rewrite (list_insert_id (fd_list t) i); [by destruct t|].
    rewrite Hk. f_equal. destruct k; cbn in *. by subst.
Qed.

(** Locking an open entry for writing, updating it with [f] and releasing it. *)
Lemma get_put_write t fdno k (f : tc_kfd -> tc_kfd) :
  fdt_wf t -> entry t fdno = Some k -> (forall k, fd (f k) = fd k) ->
  (forall k l l', set_lock (f (set_lock k l)) l' = set_lock (f k) l') ->
  (forall k, fd_lock (f k) = fd_lock k) ->
  exists i t1, tc_get_fd_struct detects fdno true t = Ok (Some i, t1) /\
    fd_list t1 !! i = Some (set_lock k WrLocked) /\
    let t' := (tc_put_fd_struct i (with_list t1 (alter f i (fd_list t1)))).2 in
    fdt_wf t' /\ free_fds_top t' = free_fds_top t /\
    forall g, entry t' g = if decide (g = fdno) then Some (f k) else entry t g.
Proof.
  intros Hwf E Hfd Hset Hlk. rewrite get_fd_struct_spec, E by done.
  destruct (entry_inv _ _ _ Hwf E) as (i & -> & Hi & Hk & _ & Hfdk & Hl).
  replace (Z.to_nat (Z.of_nat i + VFD_OFFSET - VFD_OFFSET)) with i by lia.
  pose proof (lookup_lt_Some _ _ _ Hk) as Hlt. eexists _, _. split_and!; [done | |].
  { by apply list_lookup_insert_eq. }
  cbv zeta. unfold tc_put_fd_struct. cbn [fd_list with_list snd].
  rewrite !alter_insert_eq by done.
  assert (set_lock (f (set_lock k WrLocked)) (rwunlock (fd_lock (f (set_lock k WrLocked)))) = f k)
    as ->.
  { rewrite Hset, Hlk. cbn [fd_lock set_lock rwunlock]. apply set_lock_same. by rewrite Hlk. }
  change (with_list (with_list (with_list t _) _) ?l) with (with_list t l).
  split_and!.
  - eapply wf_update; [done | done | apply Hfd | by rewrite Hlk].
  - done.
  - intros g. erewrite (entry_insert t _ i); [| reflexivity | done | done].
    case_decide; [|done]. subst. by rewrite Hfd, Hfdk, Z.eqb_refl.
Qed.

(** Freeing an open descriptor. *)
Lemma free_fd_entry t fdno k :
  fdt_wf t -> entry t fdno = Some k ->
  exists t', tc_free_fd detects fdno t = Ok (0, t') /\ fdt_wf t' /\
    (forall g, entry t' g = if decide (g = fdno) then None else entry t g) /\
    exists top, free_fds_top t' = S top /\ Z.of_nat (default O (free_fds t' !! top)) + VFD_OFFSET = fdno.
Proof.
  intros Hwf E. rewrite free_fd_spec, E by done.
  destruct (entry_inv _ _ _ Hwf E) as (i & -> & Hi & Hk & Hnot & Hfd & Hl).
  replace (Z.to_nat (Z.of_nat i + VFD_OFFSET - VFD_OFFSET)) with i by lia. cbv zeta.
  pose proof (open_top_lt _ _ Hwf Hi Hnot) as Ht.
  eexists. split_and!; [done | by apply wf_free | |].
  - intros g. erewrite (entry_insert t _ i);
      [| reflexivity | by eapply lookup_lt_Some | done].
    case_decide; [|done]. subst g. cbn [fd clear_entry].
    pose proof VFD_OFFSET_pos. by rewrite (proj2 (Z.eqb_neq _ _)) by lia.
  - eexists. split; [done|]. cbn [free_fds].
    rewrite list_lookup_insert_eq by (rewrite (wf_stack _ Hwf); lia). done.
Qed.

Lemma free_fd_closed t fdno :
  fdt_wf t -> entry t fdno = None -> tc_free_fd detects fdno t = Ok (- EINVAL, t).
Proof. intros Hwf E. by rewrite free_fd_spec, E by done. Qed.

Lemma get_closed t fdno w :
  fdt_wf t -> entry t fdno = None -> tc_get_fd_struct detects fdno w t = Ok (None, t).
Proof. intros Hwf E. by rewrite get_fd_struct_spec, E by done. Qed.

(** Allocating when a descriptor is free. *)
Lemma alloc_fd_entry t sid object top :
  fdt_wf t -> free_fds_top t = S top ->
  exists r t' sz, tc_alloc_fd sid object t = Ok (r, t') /\ fdt_wf t' /\
    r = Z.of_nat (default O (free_fds t !! top)) + VFD_OFFSET /\ entry t r = None /\
    free_fds_top t' = top /\
    forall fdno, entry t' fdno =
      if decide (fdno = r) then Some (mk_kfd Unlocked r object sid 0 0 sz) else entry t fdno.
Proof.
  intros Hwf Htop.
  destruct (alloc_fd_spec t sid object top Hwf Htop) as (i & k & Hi & Hk & Hset & Ha).
  eexists _, _, (filesize k). split_and!; [exact Ha | by eapply wf_alloc | by rewrite Hi | | done |].
  - rewrite (entry_index _ _ _ Hwf Hk), Hset. rewrite decide_True; [done | set_solver].
  - intros fdno. erewrite (entry_insert t _ i); [| reflexivity | by eapply lookup_lt_Some |].
    2: { apply (wf_bound _ Hwf). rewrite Hset. set_solver. }
    case_decide; [subst; simpl; by rewrite Z.eqb_refl | done].
Qed.

(** Allocating when none is. *)
Lemma alloc_fd_full t sid object :
  fdt_wf t -> free_fds_top t = O -> tc_alloc_fd sid object t = Ok (- ENFILE, t).
Proof.
  intros Hwf Htop. unfold tc_alloc_fd, mutex_lock. rewrite (wf_mutex _ Hwf). simpl.
  rewrite Htop. unfold mutex_unlock. simpl. pose proof (wf_mutex _ Hwf).
  destruct t; simpl in *. congruence.
Qed.

End clients.

(** ** Properties *)

(** C4: allocation refines inserting into a finite map of open descriptors.  On
    a well-formed table it always returns normally; it fails with [-ENFILE]
    exactly when all [MAX_FD] descriptors are open and then changes nothing;
    otherwise it returns a descriptor that was not open, opens it with the given
    state id and handle, sequence id and cursor 0, and leaves every other
    descriptor alone. *)
Theorem alloc_fd_refines t sid object :
  fdt_wf t ->
  exists r t', tc_alloc_fd sid object t = Ok (r, t') /\ fdt_wf t' /\
    ((r = - ENFILE /\ t' = t /\
      forall i, (i < MAX_FD)%nat -> entry t (Z.of_nat i + VFD_OFFSET) <> None) \/
     (entry t r = None /\ exists size, forall fdno, entry t' fdno =
        if decide (fdno = r) then Some (mk_kfd Unlocked r object sid 0 0 size)
        else entry t fdno)).
Proof.
  intros Hwf. destruct (free_fds_top t) as [|top] eqn:Htop.
  - exists (- ENFILE), t. split_and!; [by apply alloc_fd_full | done | left; split_and!; [done|done|]].
    intros i Hi. destruct (lookup_lt_is_Some_2 (fd_list t) i) as [k Hk].
    { by rewrite (wf_list _ Hwf). }
    rewrite (entry_index _ _ _ Hwf Hk). unfold free_set. rewrite Htop.
    by rewrite decide_False by set_solver.
  - destruct (alloc_fd_entry t sid object top Hwf Htop)
      as (r & t' & sz & Ha & Hwf' & _ & Hr & _ & He).
    exists r, t'. split_and!; [done | done | right; eauto].
Qed.

Definition zero_kfd : tc_kfd :=
  mk_kfd Unlocked 0 (mk_fh None 0) (mk_stateid 0 []) 0 0 0.
Definition raw0 : fd_table := mk_fdt (replicate MAX_FD zero_kfd) (replicate MAX_FD O) 0 false.
Definition table0 : fd_table :=
  match vinit_fds 0 (fun _ => 0) raw0 with Ok (_, t) => t | _ => raw0 end.

Lemma table0_wf : fdt_wf table0.
Proof.
  destruct (vinit_wf (fun _ => 0) raw0) as (t & Ht & Hwf & _); [done|by split_and!|].
  unfold table0. by rewrite Ht.
Qed.

Lemma alloc_fd_refines_witness :
  exists r t', tc_alloc_fd (mk_stateid 7 []) (mk_fh None 0) table0 = Ok (r, t') /\
    fdt_wf t'.
Proof.
  destruct (alloc_fd_refines table0 (mk_stateid 7 []) (mk_fh None 0) table0_wf)
    as (r & t' & H & Hwf & _).
  exists r, t'. by split.
Defined.

(** Freeing refines deleting from that map.  On a well-formed table it
    always returns normally: [-EINVAL] and no change for a descriptor that is not
    open; for an open one 0, the descriptor is closed, the others are untouched,
    and the next allocation returns this very descriptor again. *)
Theorem free_fd_refines detects t fdno :
  fdt_wf t ->
  exists r t', tc_free_fd detects fdno t = Ok (r, t') /\ fdt_wf t' /\
    ((entry t fdno = None /\ r = - EINVAL /\ t' = t) \/
     (entry t fdno <> None /\ r = 0 /\
      (forall g, entry t' g = if decide (g = fdno) then None else entry t g) /\
      forall sid object, exists t'', tc_alloc_fd sid object t' = Ok (fdno, t''))).
Proof.
  intros Hwf. destruct (entry t fdno) as [k|] eqn:E.
  - destruct (free_fd_entry detects t fdno k Hwf E) as (t' & Hf & Hwf' & He & top & Htop & Hfd).
    exists 0, t'. split_and!; [done | done | right; split_and!; try done].
    intros sid object.
    destruct (alloc_fd_entry t' sid object top Hwf' Htop) as (r & t'' & sz & Ha & _ & Hr & _).
    exists t''. by rewrite Ha, Hr, Hfd.
  - exists (- EINVAL), t. split_and!; [by apply free_fd_closed | done | by left].
Qed.

Lemma free_fd_refines_witness :
  exists r t', tc_free_fd true VFD_OFFSET table0 = Ok (r, t') /\ fdt_wf t'.
Proof.
  destruct (free_fd_refines true table0 VFD_OFFSET table0_wf) as (r & t' & H & Hwf & _).
  exists r, t'. by split.
Defined.

(** ** Concurrent frees

    [tc_free_fd] is three critical sections: the check under the read lock (which
    is dropped to take the write lock), the clearing of the entry under the write
    lock, and the push under [fd_list_lock]. *)

Definition free_check (detects : bool) (fdno : Z) (t : fd_table)
  : outcome (option nat * fd_table) :=
  let! (r, t) := tc_get_fd_struct detects fdno false t in
  match r with
  | Some i => Ok (Some i, (tc_put_fd_struct i t).2)
  | None => Ok (None, t)
  end.

Definition free_clear (detects : bool) (i : nat) (t : fd_table) : outcome fd_table :=
  match fd_list t !! i with
  | None => Ok t
  | Some k =>
      let! l := wrlock detects (fd_lock k) in
      Ok (with_list t (<[ i := set_lock (clear_entry k) (rwunlock l) ]> (fd_list t)))
  end.

Lemma free_check_spec detects fdno t :
  fdt_wf t ->
  free_check detects fdno t =
  Ok (match entry t fdno with
      | Some _ => Some (Z.to_nat (fdno - VFD_OFFSET)) | None => None end, t).
Proof.
  intros Hwf. unfold free_check. rewrite get_fd_struct_spec by done.
  destruct (entry t fdno) as [k|] eqn:E; [|done]. simpl. do 2 f_equal.
  destruct (entry_inv _ _ _ Hwf E) as (i & -> & Hi & Hk & _ & _ & Hl).
  replace (Z.to_nat (Z.of_nat i + VFD_OFFSET - VFD_OFFSET)) with i by lia.
  rewrite alter_insert_eq by (by eapply lookup_lt_Some).
  unfold with_list. simpl. rewrite (list_insert_id (fd_list t) i); [by destruct t|].
  rewrite Hk. f_equal. unfold set_lock. simpl. destruct k; simpl in *. by subst.
Qed.

(** Run alone, the three sections are [tc_free_fd]. *)
Lemma free_fd_sections detects fdno t :
  fdt_wf t ->
  tc_free_fd detects fdno t =
  let! (r, t) := free_check detects fdno t in
  match r with
  | None => Ok (- EINVAL, t)
  | Some i =>
      let! t := free_clear detects i t in
      let! t := push_free i t in
      Ok (0, t)
  end.
Proof.
  intros Hwf. rewrite free_fd_spec, free_check_spec by done.
  destruct (entry t fdno) as [k|] eqn:E; [|done].
  destruct (entry_inv _ _ _ Hwf E) as (i & -> & Hi & Hk & _ & _ & Hl).
  replace (Z.to_nat (Z.of_nat i + VFD_OFFSET - VFD_OFFSET)) with i by lia.
  unfold free_clear, push_free, mutex_lock. cbn [obind].
  rewrite Hk, Hl. simpl. rewrite (wf_mutex _ Hwf). simpl.
  unfold set_lock, clear_entry. simpl. by rewrite Hl.
Qed.

(** Two threads free the same descriptor: both pass the check before either
    clears the entry. *)
Definition race_free (detects : bool) (fdno : Z) (t : fd_table) : outcome fd_table :=
  let! (r1, t) := free_check detects fdno t in
  let! (r2, t) := free_check detects fdno t in
  match r1, r2 with
  | Some i1, Some i2 =>
      let! t := free_clear detects i1 t in
      let! t := push_free i1 t in
      let! t := free_clear detects i2 t in
      push_free i2 t
  | _, _ => Ok t
  end.

(** One allocation, by the entry at the top of the stack. *)
Lemma alloc_step t sid object top i k :
  fd_list_lock t = false -> free_fds_top t = S top -> free_fds t !! top = Some i ->
  fd_list t !! i = Some k ->
  tc_alloc_fd sid object t =
  if fd k <? 0 then
    Ok (Z.of_nat i + VFD_OFFSET,
        mk_fdt (alter (fun k => mk_kfd (fd_lock k) (Z.of_nat i + VFD_OFFSET)
                                  object sid 0 0 (filesize k)) i (fd_list t))
          (free_fds t) top false)
  else Abort.
Proof.
  intros H1 H2 H3 H4. unfold tc_alloc_fd, mutex_lock. rewrite H1. cbn [obind free_fds_top].
  rewrite H2. cbn [free_fds fd_list]. rewrite H3. cbn [from_option id]. rewrite H4.
  by destruct (fd k <? 0).
Qed.

(** C5: [tc_free_fd] is not safe against a concurrent free of the same
    descriptor.  In the interleaving where both threads pass the check, both
    report success and the index is pushed twice; the next allocation returns the
    descriptor, and the one after that trips the assertion of [tc_alloc_fd]. *)
Theorem concurrent_free_corrupts detects t fdno other sid object :
  fdt_wf t -> entry t fdno <> None -> entry t other <> None -> fdno <> other ->
  exists t' t'', race_free detects fdno t = Ok t' /\
    tc_alloc_fd sid object t' = Ok (fdno, t'') /\
    tc_alloc_fd sid object t'' = Abort.
Proof.
  intros Hwf Ef Eo Hne.
  destruct (entry t fdno) as [k|] eqn:E; [|done]. clear Ef.
  destruct (entry t other) as [ko|] eqn:E'; [|done]. clear Eo.
  destruct (entry_inv _ _ _ Hwf E) as (i & -> & Hi & Hk & Hnot & _ & Hl).
  destruct (entry_inv _ _ _ Hwf E') as (j & -> & Hj & Hkj & Hnotj & _ & _).
  assert (S (S (free_fds_top t)) <= MAX_FD)%nat as Ht.
  { assert (length (i :: j :: free_set t) <= MAX_FD)%nat as H.
    { apply NoDup_bounded_length.
      - rewrite !NoDup_cons, elem_of_cons. split_and!; [|done|apply (wf_nodup _ Hwf)].
        intros [-> | H]; done.
      - intros x. rewrite !elem_of_cons. intros [-> | [-> | Hx]]; try done.
        by apply (wf_bound _ Hwf). }
    unfold free_set in H. simpl in H. rewrite length_take, (wf_stack _ Hwf) in H.
    pose proof (wf_top _ Hwf). lia. }
  pose proof (wf_stack _ Hwf) as Hst. pose proof (wf_list _ Hwf) as Hll.
  unfold race_free. rewrite !free_check_spec by done. cbn [obind].
  rewrite !free_check_spec by done. rewrite E. cbn [obind].
  replace (Z.to_nat (Z.of_nat i + VFD_OFFSET - VFD_OFFSET)) with i by lia.
  unfold free_clear. rewrite Hk, Hl. simpl.
  unfold push_free, mutex_lock. simpl. rewrite (wf_mutex _ Hwf). simpl.
  rewrite list_lookup_insert_eq by lia. simpl.
  eexists _, _. split; [done|]. split.
  - erewrite alloc_step; [| done | done | |].
    2: { apply list_lookup_insert_eq. rewrite length_insert. lia. }
    2: { apply list_lookup_insert_eq. rewrite length_insert. lia. }
    reflexivity.
  - erewrite alloc_step; [| done | done | |].
    2: { simpl. rewrite list_lookup_insert_ne by lia.
         apply list_lookup_insert_eq. lia. }
    2: { simpl. rewrite list_lookup_alter_eq.
         by rewrite list_lookup_insert_eq by (rewrite length_insert; lia). }
    cbn [fd]. pose proof VFD_OFFSET_pos. by rewrite (proj2 (Z.ltb_ge _ _)) by lia.
Qed.

Definition table2 : fd_table :=
  match tc_alloc_fd (mk_stateid 7 []) (mk_fh None 0) table0 with
  | Ok (_, t) =>
      match tc_alloc_fd (mk_stateid 8 []) (mk_fh None 0) t with Ok (_, t) => t | _ => t end
  | _ => table0
  end.

Lemma table2_wf : fdt_wf table2.
Proof.
  unfold table2.
  destruct (alloc_fd_spec table0 (mk_stateid 7 []) (mk_fh None 0) 1023 table0_wf)
    as (i & k & Hi & Hk & Hset & ->); [by vm_compute|].
  pose proof (wf_alloc table0 i k
    (mk_kfd Unlocked (Z.of_nat i + VFD_OFFSET) (mk_fh None 0) (mk_stateid 7 []) 0 0
       (filesize k)) 1023 table0_wf ltac:(by vm_compute) Hk Hset eq_refl eq_refl) as Hwf1.
  destruct (alloc_fd_spec _ (mk_stateid 8 []) (mk_fh None 0) 1022 Hwf1 eq_refl)
    as (j & kj & Hj & Hkj & Hsetj & ->).
  by eapply (wf_alloc _ j kj _ 1022 Hwf1 eq_refl Hkj Hsetj).
Qed.

Lemma concurrent_free_corrupts_witness :
  exists t' t'', race_free true (1023 + VFD_OFFSET) table2 = Ok t' /\
    tc_alloc_fd (mk_stateid 9 []) (mk_fh None 0) t' = Ok (1023 + VFD_OFFSET, t'') /\
    tc_alloc_fd (mk_stateid 9 []) (mk_fh None 0) t'' = Abort.
Proof.
  apply (concurrent_free_corrupts true table2 (1023 + VFD_OFFSET) (1022 + VFD_OFFSET));
    [apply table2_wf | by vm_compute | by vm_compute | by vm_compute].
Defined.

End Fds.
