(* ===== verification/PathSpec.v ===== *)
(** The reference semantics of paths used to specify [util/path_utils.cpp]:
    what the components of a path are, which directory a path leads to, and the
    facts about normal forms that do not depend on how paths are stored. *)

From S2P Require Import Prelude.
Local Open Scope nat_scope.

Module PathSpec.

Definition SLASH : ascii := "/"%char.
Definition DOT : ascii := "."%char.
Definition DOTDOT_ : list ascii := [DOT; DOT].

(** Characters between slashes. *)
Fixpoint split_slash (w : list ascii) : list (list ascii) :=
  match w with
  | [] => [[]]
  | c :: w =>
      if decide (c = SLASH) then [] :: split_slash w
      else match split_slash w with x :: xs => (c :: x) :: xs | [] => [[c]] end
  end.

Definition is_abs (w : list ascii) : bool :=
  match w with c :: _ => bool_decide (c = SLASH) | [] => false end.

(** What one component does to the components collected so far. *)
Definition norm_step (abs : bool) (cs : list (list ascii)) (c : list ascii)
  : list (list ascii) :=
  if decide (c = DOTDOT_) then
    match last cs with
    | None => if abs then cs else cs ++ [c]
    | Some b => if decide (b = DOTDOT_) then cs ++ [c] else removelast cs
    end
  else if decide (c = []) then cs
  else if decide (c = [DOT]) then cs
  else cs ++ [c].

Definition norm (abs : bool) (w : list ascii) : list (list ascii) :=
  foldl (norm_step abs) [] (split_slash w).

(** The components of a path; those of an absolute path start with a slash. *)
Definition path_components (w : list ascii) : list (list ascii) :=
  let cs := norm (is_abs w) w in
  if is_abs w then
    match cs with [] => [[SLASH]] | c :: cs => (SLASH :: c) :: cs end
  else cs.

(** Components separated by slashes; [first] says whether the next one is the
    first. *)
Fixpoint join_from (first : bool) (cs : list (list ascii)) : list ascii :=
  match cs with
  | [] => []
  | c :: cs => (if first then [] else [SLASH]) ++ c ++ join_from false cs
  end.

Definition join (cs : list (list ascii)) : list ascii := join_from true cs.

(** The normalised path; an empty one is written as a dot. *)
Definition normal_form (w : list ascii) : list ascii :=
  match path_components w with [] => [DOT] | cs => join cs end.

(** *** Where a path leads

    A directory is the list of names from the root; the parent of the root is
    the root. *)
Definition walk (dir : list (list ascii)) (c : list ascii) : list (list ascii) :=
  if decide (c = DOTDOT_) then removelast dir
  else if decide (c = []) then dir
  else if decide (c = [DOT]) then dir
  else dir ++ [c].

Definition walks (dir : list (list ascii)) (cs : list (list ascii)) : list (list ascii) :=
  foldl walk dir cs.

Definition resolve (cwd : list (list ascii)) (w : list ascii) : list (list ascii) :=
  walks (if is_abs w then [] else cwd) (split_slash w).

(** ** Splitting and joining *)

Definition no_slash (c : list ascii) : Prop := Forall (fun x => x <> SLASH) c.

Lemma split_slash_no_slash w : Forall no_slash (split_slash w).
Proof.
  induction w as [|c w IH]; simpl; [by repeat constructor|].
  case_decide.
  - constructor; [constructor | done].
  - destruct (split_slash w) as [|x xs].
    + by repeat constructor.
    + inversion_clear IH. constructor; [by constructor | done].
Qed.

Lemma split_slash_cons w : exists x xs, split_slash w = x :: xs.
Proof.
  induction w as [|c w (x & xs & IH)]; simpl; [eauto|].
  case_decide; [eauto|]. rewrite IH. eauto.
Qed.

Lemma split_slash_app x w :
  no_slash x -> split_slash (x ++ SLASH :: w) = x :: split_slash w.
Proof.
  induction 1 as [|c x Hc _ IH]; simpl; [done|].
  by rewrite decide_False, IH by done.
Qed.

Lemma split_slash_single x : no_slash x -> split_slash x = [x].
Proof.
  induction 1 as [|c x Hc _ IH]; simpl; [done|]. by rewrite decide_False, IH by done.
Qed.

Lemma split_slash_join cs :
  Forall no_slash cs -> cs <> [] -> split_slash (join cs) = cs.
Proof.
  intros Hcs Hne. destruct cs as [|c cs]; [done|]. clear Hne. revert c Hcs.
  unfold join. induction cs as [|d cs IH]; intros c Hcs; simpl.
  - rewrite app_nil_r. apply split_slash_single. by inversion Hcs.
  - inversion_clear Hcs as [|? ? Hc Hcs']. rewrite split_slash_app by done.
    f_equal. by apply IH.
Qed.

(** A path that starts at the root is a slash followed by the rest. *)
Lemma is_abs_inv w : is_abs w = true -> exists w', w = SLASH :: w'.
Proof.
  destruct w as [|c w]; simpl; [done|]. intros H%bool_decide_eq_true. subst. eauto.
Qed.

(** ** Normal component lists *)

Definition proper (c : list ascii) : Prop :=
  c <> [] /\ c <> [DOT] /\ c <> DOTDOT_ /\ no_slash c.

(** Parent references come first, and an absolute path has none. *)
Definition normal (abs : bool) (cs : list (list ascii)) : Prop :=
  exists k names, cs = replicate k DOTDOT_ ++ names /\ Forall proper names /\
    (abs = true -> k = 0).

Lemma DOTDOT_no_slash : no_slash DOTDOT_.
Proof. repeat constructor; discriminate. Qed.

Lemma normal_step abs cs c :
  normal abs cs -> no_slash c -> normal abs (norm_step abs cs c).
Proof.
  intros (k & names & -> & Hp & Hk) Hc. unfold norm_step.
  case_decide as Ed.
  - destruct names as [|n names _] using rev_ind.
    + rewrite app_nil_r. destruct k as [|k].
      * simpl. destruct abs; [exists 0, []; done|].
        exists 1, []. subst c. done.
      * assert (abs = false) as -> by (destruct abs; [specialize (Hk eq_refl); lia | done]).
        rewrite last_lookup, length_replicate. simpl Init.Nat.pred.
        rewrite lookup_replicate_2 by lia. rewrite decide_True by done. subst c.
        exists (S (S k)), []. split_and!; [|done|done].
        rewrite app_nil_r, <- replicate_S_end. done.
    + rewrite app_assoc, last_snoc. apply Forall_app in Hp as [Hp Hn].
      inversion_clear Hn as [|? ? (_ & _ & Hdd & _) _]. rewrite decide_False by done.
      rewrite removelast_last. exists k, names. done.
  - case_decide; [exists k, names; done|]. case_decide; [exists k, names; done|].
    exists k, (names ++ [c]). split_and!; [by rewrite app_assoc | | done].
    apply Forall_app. split; [done|]. by repeat constructor.
Qed.

Lemma normal_fold abs cs xs :
  normal abs cs -> Forall no_slash xs -> normal abs (foldl (norm_step abs) cs xs).
Proof.
  intros Hn Hx. revert cs Hn. induction Hx as [|x xs Hx _ IH]; intros cs Hn; simpl; [done|].
  apply IH. by apply normal_step.
Qed.

Lemma norm_normal abs w : normal abs (norm abs w).
Proof.
  apply normal_fold; [exists 0, []; done | apply split_slash_no_slash].
Qed.

Lemma normal_no_slash abs cs : normal abs cs -> Forall no_slash cs.
Proof.
  intros (k & names & -> & Hp & _). apply Forall_app. split.
  - apply Forall_replicate, DOTDOT_no_slash.
  - eapply Forall_impl; [exact Hp|]. by intros c (_ & _ & _ & H).
Qed.

(** Components of a normal list are kept one by one. *)
Lemma fold_normal abs cs : normal abs cs -> foldl (norm_step abs) [] cs = cs.
Proof.
  intros (k & names & -> & Hp & Hk). rewrite foldl_app.
  assert (foldl (norm_step abs) [] (replicate k DOTDOT_) = replicate k DOTDOT_) as ->.
  { destruct abs; [by rewrite Hk|]. clear. induction k as [|k IH]; [done|].
    rewrite replicate_S_end, foldl_snoc, IH. unfold norm_step. rewrite decide_True by done.
    destruct k as [|k]; [done|].
    rewrite last_lookup, length_replicate. simpl Init.Nat.pred.
    rewrite lookup_replicate_2 by lia. by rewrite decide_True. }
  generalize (replicate k DOTDOT_). intros pre. revert pre.
  induction Hp as [|n names (H1 & H2 & H3 & _) _ IH]; intros pre; simpl.
  - by rewrite app_nil_r.
  - unfold norm_step at 2. rewrite !decide_False by done.
    rewrite IH. by rewrite <- app_assoc.
Qed.

Lemma norm_step_nil abs cs : norm_step abs cs [] = cs.
Proof. unfold norm_step. by rewrite decide_False, decide_True. Qed.

(** The characters of the components are characters of the path. *)
Lemma split_slash_chars w c x : c ∈ split_slash w -> x ∈ c -> x ∈ w.
Proof.
  revert c. induction w as [|a w IH]; intros c; simpl.
  - intros ->%list_elem_of_singleton. by intros ?%not_elem_of_nil.
  - case_decide.
    + intros [-> | Hc]%elem_of_cons Hx; [by apply not_elem_of_nil in Hx|]. right. by apply (IH c).
    + destruct (split_slash_cons w) as (y & ys & E). rewrite E in *.
      intros [-> | Hc]%elem_of_cons Hx; [|right; apply (IH c); [by right | done]].
      apply elem_of_cons in Hx as [-> | Hx]; [left|]. right. apply (IH y); [left | done].
Qed.

Lemma norm_step_elem abs cs c x : x ∈ norm_step abs cs c -> x ∈ cs \/ x = c.
Proof.
  unfold norm_step. repeat case_decide; try (destruct (last cs) as [b|] eqn:E); repeat case_decide;
    try destruct abs; rewrite ?elem_of_app, ?list_elem_of_singleton; auto;
    apply last_Some in E as (l & ->); rewrite removelast_last, elem_of_app; auto.
Qed.

Lemma norm_elem abs w c : c ∈ norm abs w -> c ∈ split_slash w.
Proof.
  unfold norm. assert (forall cs xs, c ∈ foldl (norm_step abs) cs xs -> c ∈ cs \/ c ∈ xs) as H.
  { intros cs xs. revert cs. induction xs as [|x xs IH]; intros cs H; [auto|].
    apply IH in H as [H|H]; [|right; by right].
    apply norm_step_elem in H as [H | ->]; [auto | right; left]. }
  intros Hc. apply H in Hc as [Hc|Hc]; [by apply not_elem_of_nil in Hc | done].
Qed.

Lemma norm_chars abs w c x : c ∈ norm abs w -> x ∈ c -> x ∈ w.
Proof. intros Hc%norm_elem. by apply split_slash_chars. Qed.

(** *** Normalisation is idempotent *)

Lemma is_abs_normal_rel cs : normal false cs -> is_abs (join cs) = false.
Proof.
  intros Hn. pose proof (normal_no_slash _ _ Hn) as Hs.
  destruct cs as [|c cs]; [done|]. unfold join. simpl.
  inversion_clear Hs as [|? ? Hc _].
  destruct c as [|x c].
  - destruct Hn as ([|k] & names & Heq & Hp & _); simpl in Heq; [|done].
    subst. inversion_clear Hp as [|? ? (H & _) _]. done.
  - inversion_clear Hc. simpl. by apply bool_decide_eq_false.
Qed.

Lemma path_components_join w :
  path_components w <> [] -> path_components (join (path_components w)) = path_components w.
Proof.
  pose proof (norm_normal (is_abs w) w) as Hn. unfold path_components at 1 3 4.
  set (cs := norm (is_abs w) w) in *. destruct (is_abs w) eqn:E.
  - intros _. destruct cs as [|c cs'] eqn:Hcs.
    + done.
    + unfold path_components, join. simpl. unfold norm. simpl. rewrite norm_step_nil.
      change (c ++ join_from false cs') with (join (c :: cs')).
      rewrite split_slash_join by (done || by eapply normal_no_slash).
      by rewrite fold_normal.
  - intros Hne. unfold path_components. rewrite is_abs_normal_rel by done.
    unfold norm. rewrite split_slash_join by (done || by eapply normal_no_slash).
    by apply fold_normal.
Qed.

Lemma normal_form_idem w : normal_form (normal_form w) = normal_form w.
Proof.
  unfold normal_form at 2 3. destruct (path_components w) as [|c cs] eqn:E; [done|].
  unfold normal_form. rewrite <- E, path_components_join by (by rewrite E).
  by rewrite E.
Qed.

(** ** Normalisation keeps the meaning of a path *)

Lemma walks_app dir a b : walks dir (a ++ b) = walks (walks dir a) b.
Proof. apply foldl_app. Qed.

Lemma walks_snoc dir a c : walks dir (a ++ [c]) = walk (walks dir a) c.
Proof. by rewrite walks_app. Qed.

Lemma walk_proper dir n : proper n -> walk dir n = dir ++ [n].
Proof. intros (H1 & H2 & H3 & _). unfold walk. by rewrite !decide_False. Qed.

Lemma walks_norm_step abs dir cs c :
  (abs = true -> dir = []) -> normal abs cs ->
  walks dir (norm_step abs cs c) = walk (walks dir cs) c.
Proof.
  intros Hdir (k & names & -> & Hp & Hk).
  destruct (decide (c = DOTDOT_)) as [-> | Hc].
  - unfold norm_step. rewrite decide_True by done.
    destruct names as [|n names _] using rev_ind.
    + rewrite app_nil_r. destruct k as [|k].
      * simpl. destruct abs; [by rewrite Hdir | done].
      * rewrite last_lookup, length_replicate. simpl Init.Nat.pred.
        rewrite lookup_replicate_2 by lia. rewrite decide_True by done.
        apply walks_snoc.
    + rewrite app_assoc, last_snoc. apply Forall_app in Hp as [Hp Hn].
      rewrite Forall_singleton in Hn. pose proof Hn as (_ & _ & Hdd & _).
      rewrite decide_False by exact Hdd.
      rewrite removelast_last, walks_snoc, (walk_proper _ n) by done.
      change (walk ?d DOTDOT_) with (removelast d). by rewrite removelast_last.
  - unfold norm_step, walk. rewrite !(decide_False (P := c = DOTDOT_)) by done.
    case_decide; [done|]. case_decide; [done|]. rewrite walks_snoc. unfold walk.
    by rewrite !decide_False.
Qed.

Lemma walks_norm abs dir w :
  (abs = true -> dir = []) -> walks dir (norm abs w) = walks dir (split_slash w).
Proof.
  intros Hdir. unfold norm.
  assert (forall cs xs, normal abs cs -> Forall no_slash xs ->
            walks dir (foldl (norm_step abs) cs xs) = walks (walks dir cs) xs) as H.
  { intros cs xs Hn Hx. revert cs Hn.
    induction Hx as [|x xs Hx _ IH]; intros cs Hn; [done|].
    simpl. rewrite IH by (by apply normal_step). by rewrite walks_norm_step. }
  rewrite H; [done | exists 0, []; done | apply split_slash_no_slash].
Qed.

Lemma walk_nil dir : walk dir [] = dir.
Proof. unfold walk. by rewrite decide_False, decide_True. Qed.

(** What an absolute path leads to is its list of names. *)
Lemma walks_proper dir names : Forall proper names -> walks dir names = dir ++ names.
Proof.
  intros Hp. revert dir. induction Hp as [|n names (H1 & H2 & H3 & _) _ IH]; intros dir.
  - by rewrite app_nil_r.
  - unfold walks. simpl. unfold walk at 2. rewrite !decide_False by done.
    fold (walks (dir ++ [n]) names). rewrite IH. by rewrite <- app_assoc.
Qed.

Lemma norm_abs_proper w : Forall proper (norm true w).
Proof.
  destruct (norm_normal true w) as (k & names & -> & Hp & Hk). by rewrite (Hk eq_refl).
Qed.

Lemma resolve_abs cwd w : is_abs w = true -> resolve cwd w = norm true w.
Proof.
  intros E. unfold resolve. rewrite E, <- (walks_norm true) by done.
  by rewrite walks_proper by apply norm_abs_proper.
Qed.

Lemma resolve_normal_form cwd w : resolve cwd (normal_form w) = resolve cwd w.
Proof.
  unfold normal_form. destruct (is_abs w) eqn:E.
  - assert (path_components w <> []) as Hne.
    { unfold path_components. rewrite E. by destruct (norm _ w). }
    destruct (path_components w) as [|c cs] eqn:Hc; [done|]. rewrite <- Hc.
    assert (is_abs (join (path_components w)) = true) as Ea.
    { unfold path_components. rewrite E. by destruct (norm true w). }
    rewrite !resolve_abs by done.
    pose proof (path_components_join w ltac:(by rewrite Hc)) as Hj.
    unfold path_components at 1 3 in Hj. rewrite Ea, E in Hj.
    pose proof (norm_abs_proper w) as Hp.
    pose proof (norm_abs_proper (join (path_components w))) as Hp'.
    assert (forall n, proper n -> n <> []) as Hne' by (by intros n (H & _)).
    destruct (norm true (join _)) as [|x xs], (norm true w) as [|y ys]; try done;
      injection Hj; intros; subst; try done.
    + inversion_clear Hp. by exfalso; eapply Hne'.
    + inversion_clear Hp'. by exfalso; eapply Hne'.
  - unfold resolve at 2. rewrite E, <- (walks_norm false) by done.
    pose proof (norm_normal false w) as Hn. unfold path_components. rewrite E.
    destruct (norm false w) as [|c cs] eqn:Hc.
    + unfold resolve. simpl. unfold walks. simpl. unfold walk.
      by rewrite decide_False, decide_False, decide_True.
    + unfold resolve. rewrite is_abs_normal_rel by done.
      by rewrite split_slash_join by (done || by eapply normal_no_slash).
Qed.

(** ** Relative paths and distances *)

(** Length of the longest common prefix. *)
Fixpoint lcp (a b : list (list ascii)) : nat :=
  match a, b with
  | x :: a, y :: b => if decide (x = y) then S (lcp a b) else 0
  | _, _ => 0
  end.

Definition rel_comps (base path : list ascii) : list (list ascii) :=
  let bc := path_components base in
  let pc := path_components path in
  replicate (length bc - lcp bc pc) DOTDOT_ ++ drop (lcp bc pc) pc.

(** The path that leads from [base] to [path]. *)
Definition rel_path (base path : list ascii) : list ascii :=
  match rel_comps base path with [] => [DOT] | cs => join cs end.

(** Steps between two directories in the tree. *)
Definition tree_distance (a b : list (list ascii)) : nat :=
  (length a - lcp a b) + (length b - lcp a b).

Lemma lcp_le a b : lcp a b <= length a /\ lcp a b <= length b.
Proof.
  revert b. induction a as [|x a IH]; intros [|y b]; simpl; try lia.
  case_decide; [|lia]. specialize (IH b). lia.
Qed.

Lemma lcp_take a b : take (lcp a b) a = take (lcp a b) b.
Proof.
  revert b. induction a as [|x a IH]; intros [|y b]; simpl; try done.
  case_decide; [|done]. subst. simpl. by rewrite IH.
Qed.

Lemma lcp_comm a b : lcp a b = lcp b a.
Proof.
  revert b. induction a as [|x a IH]; intros [|y b]; simpl; try done.
  repeat case_decide; congruence.
Qed.

Lemma tree_distance_comm a b : tree_distance a b = tree_distance b a.
Proof. unfold tree_distance. rewrite lcp_comm. lia. Qed.

Lemma tree_distance_0 a b : tree_distance a b = 0 <-> a = b.
Proof.
  unfold tree_distance. pose proof (lcp_le a b) as [H1 H2]. split.
  - intros H. pose proof (lcp_take a b) as Ht.
    rewrite !take_ge in Ht by lia. done.
  - intros <-. assert (lcp a a = length a) as ->; [|lia].
    clear. induction a as [|x a IH]; simpl; [done|]. by rewrite decide_True, IH.
Qed.

Lemma split_slash_app_slash a b :
  split_slash (a ++ SLASH :: b) = split_slash a ++ split_slash b.
Proof.
  induction a as [|c a IH]; simpl; [done|]. case_decide; [by rewrite IH|].
  rewrite IH. by destruct (split_slash_cons a) as (x & xs & ->).
Qed.

Lemma split_slash_join_all cs :
  cs <> [] -> split_slash (join cs) = concat (split_slash <$> cs).
Proof.
  intros Hne. destruct cs as [|c cs]; [done|]. clear Hne. revert c. unfold join.
  induction cs as [|d cs IH]; intros c; simpl.
  - by rewrite !app_nil_r.
  - rewrite split_slash_app_slash. f_equal. apply IH.
Qed.

(** Walking up [n] levels. *)
Lemma walks_up dir n :
  walks dir (replicate n DOTDOT_) = take (length dir - n) dir.
Proof.
  revert dir. induction n as [|n IH]; intros dir.
  - simpl. by rewrite Nat.sub_0_r, take_ge.
  - change (walks dir (replicate (S n) DOTDOT_))
      with (walks (removelast dir) (replicate n DOTDOT_)).
    rewrite IH, removelast_firstn_len, take_take, length_take.
    f_equal. lia.
Qed.

Lemma walks_slashed dir c : proper c -> walks dir (split_slash (SLASH :: c)) = dir ++ [c].
Proof.
  intros Hp. simpl. rewrite split_slash_single by apply Hp.
  change (walks dir ([] :: ?l)) with (walks (walk dir []) l).
  rewrite walk_nil. by rewrite walks_proper by (by constructor).
Qed.

Lemma concat_split_proper names :
  Forall proper names -> concat (split_slash <$> names) = names.
Proof.
  induction 1 as [|n names (_ & _ & _ & Hn) _ IH]; [done|].
  rewrite fmap_cons, split_slash_single by done. cbn [concat app]. by rewrite IH.
Qed.

Lemma walks_concat_proper dir names :
  Forall proper names -> walks dir (concat (split_slash <$> names)) = dir ++ names.
Proof.
  intros Hp. rewrite <- (walks_proper dir names Hp).
  by rewrite concat_split_proper.
Qed.

Lemma concat_split_dotdot n :
  concat (split_slash <$> replicate n DOTDOT_) = replicate n DOTDOT_.
Proof. induction n as [|n IH]; simpl; [done|]. f_equal. exact IH. Qed.

(** The components of an absolute path, after the first one has lost its
    slash, are the names it leads to. *)
Lemma abs_components w :
  is_abs w = true ->
  (norm true w = [] /\ path_components w = [[SLASH]]) \/
  (exists c cs, norm true w = c :: cs /\ path_components w = (SLASH :: c) :: cs).
Proof.
  intros E. unfold path_components. rewrite E. destruct (norm true w); eauto 10.
Qed.

Lemma SLASH_not_proper_slashed c : proper c -> [SLASH] <> SLASH :: c.
Proof. intros (H & _) [=]. by subst. Qed.

Lemma concat_rel dir base path :
  walks dir (split_slash (rel_path base path)) =
  walks dir (concat (split_slash <$> rel_comps base path)).
Proof.
  unfold rel_path. destruct (rel_comps base path) eqn:E; [done|]. rewrite <- E.
  by rewrite split_slash_join_all by (by rewrite E).
Qed.

Lemma walks_rel_comps base path :
  is_abs base = true -> is_abs path = true ->
  walks (norm true base) (concat (split_slash <$> rel_comps base path)) = norm true path.
Proof.
  intros Eb Ep. unfold rel_comps. rewrite fmap_app, concat_app, walks_app.
  rewrite concat_split_dotdot, walks_up.
  pose proof (norm_abs_proper base) as Hpb. pose proof (norm_abs_proper path) as Hpp.
  assert (forall l : list (list ascii), l ++ [] = l) as Hnil by apply app_nil_r.
  destruct (abs_components base Eb) as [[Hb Hbc] | (b & bs & Hb & Hbc)],
    (abs_components path Ep) as [[Hp Hpc] | (p & ps & Hp & Hpc)];
    rewrite Hb, Hp, Hbc, Hpc in *; simpl lcp.
  - done.
  - inversion_clear Hpp as [|? ? Hp1 Hp2].
    rewrite decide_False by (by apply SLASH_not_proper_slashed).
    cbn [drop fmap list_fmap concat]. rewrite walks_app, walks_slashed by done.
    by rewrite walks_concat_proper.
  - inversion_clear Hpb as [|? ? Hb1 Hb2].
    rewrite decide_False by (by apply not_eq_sym, SLASH_not_proper_slashed).
    cbn [drop fmap list_fmap concat length]. rewrite Nat.sub_0_r, Nat.sub_diag. done.
  - inversion_clear Hpb as [|? ? Hb1 Hb2]. inversion_clear Hpp as [|? ? Hp1 Hp2].
    case_decide as Eq.
    + injection Eq as ->. pose proof (lcp_le bs ps) as [H1 H2].
      cbn [drop length]. rewrite walks_concat_proper by (by apply Forall_drop).
      replace (S (length bs) - (S (length bs) - S (lcp bs ps))) with (S (lcp bs ps)) by lia.
      simpl. by rewrite lcp_take, take_drop.
    + cbn [drop fmap list_fmap concat length]. rewrite Nat.sub_0_r, Nat.sub_diag.
      rewrite walks_app, walks_slashed by done. by rewrite walks_concat_proper.
Qed.

Lemma is_abs_rel_path base path :
  is_abs base = true -> is_abs path = true -> is_abs (rel_path base path) = false.
Proof.
  intros Eb Ep. unfold rel_path, rel_comps.
  pose proof (norm_abs_proper path) as Hpp.
  destruct (lcp_le (path_components base) (path_components path)) as [H1 H2].
  destruct (length (path_components base) - _) as [|n] eqn:En; [|done]. simpl.
  assert (1 <= length (path_components base)) as Hb.
  { destruct (abs_components base Eb) as [[_ ->] | (b & bs & _ & ->)]; simpl; lia. }
  destruct (lcp _ _) as [|l]; [lia|].
  assert (Forall proper (drop (S l) (path_components path))) as Hd.
  { destruct (abs_components path Ep) as [[_ ->] | (p & ps & Hp & ->)]; simpl.
    - by destruct l.
    - rewrite Hp in Hpp. inversion_clear Hpp. by apply Forall_drop. }
  destruct (drop (S l) _) as [|c cs]; [done|].
  inversion_clear Hd as [|? ? (Hc1 & _ & _ & Hc2) _]. unfold join. simpl.
  destruct c as [|x c]; [done|]. inversion_clear Hc2. simpl. by apply bool_decide_eq_false.
Qed.

Lemma resolve_rel_path base path :
  is_abs base = true -> is_abs path = true ->
  resolve (resolve [] base) (rel_path base path) = resolve [] path.
Proof.
  intros Eb Ep. rewrite !(resolve_abs [] _) by done. unfold resolve.
  rewrite is_abs_rel_path by done. rewrite concat_rel. by apply walks_rel_comps.
Qed.

(** The components of the path from one directory to another: parents, then names. *)
Lemma rel_components base path :
  is_abs base = true -> is_abs path = true ->
  let l := lcp (path_components base) (path_components path) in
  path_components (rel_path base path)
  = replicate (length (path_components base) - l) DOTDOT_ ++ drop l (norm true path).
Proof.
  intros Eb Ep l. set (k := length _ - l).
  assert (normal false (replicate k DOTDOT_ ++ drop l (norm true path))) as Hn.
  { exists k, (drop l (norm true path)). split_and!; [done | | done].
    apply Forall_drop, norm_abs_proper. }
  rewrite <- (fold_normal false _ Hn).
  unfold path_components at 1. rewrite is_abs_rel_path by done.
  change (norm false ?w) with (foldl (norm_step false) [] (split_slash w)). unfold rel_path.
  assert (foldl (norm_step false) [] (concat (split_slash <$> rel_comps base path))
    = foldl (norm_step false) [] (replicate k DOTDOT_ ++ drop l (norm true path))) as E.
  { unfold rel_comps. fold l k. rewrite fmap_app, concat_app, concat_split_dotdot, !foldl_app.
    generalize (foldl (norm_step false) [] (replicate k DOTDOT_)). intros acc.
    destruct l as [|l]; cbn [drop].
    - destruct (abs_components path Ep) as [[-> ->] | (c & cs & Hc & ->)].
      + simpl. by rewrite !norm_step_nil.
      + rewrite Hc. pose proof (norm_abs_proper path) as Hp. rewrite Hc in Hp.
        inversion_clear Hp as [|? ? Hc1 Hcs]. cbn. rewrite decide_True by done.
        rewrite split_slash_single by apply Hc1. cbn.
        fold (split_slash <$> cs). rewrite concat_split_proper by done. by rewrite norm_step_nil.
    - destruct (abs_components path Ep) as [[-> ->] | (c & cs & Hc & ->)]; [by destruct l|].
      rewrite Hc. pose proof (norm_abs_proper path) as Hp. rewrite Hc in Hp.
      inversion_clear Hp. cbn [drop]. by rewrite concat_split_proper by (by apply Forall_drop). }
  rewrite <- E. destruct (rel_comps base path) as [|c cs] eqn:Erc; [done|]. rewrite <- Erc.
  by rewrite split_slash_join_all by (by rewrite Erc).
Qed.

(** Where the path from one directory to another is shorter than the path to the latter, the
    directories have ancestors in common. *)
Lemma rel_shorter base path :
  is_abs base = true -> is_abs path = true ->
  length (path_components (rel_path base path)) + 1 < length (path_components path) ->
  exists l, l <= length (norm true base) /\ take l (norm true base) = take l (norm true path) /\
    path_components (rel_path base path)
    = replicate (length (norm true base) - l) DOTDOT_ ++ drop l (norm true path).
Proof.
  intros Eb Ep. rewrite rel_components, length_app, length_replicate, length_drop by done.
  pose proof (norm_abs_proper base) as Hpb. pose proof (norm_abs_proper path) as Hpp.
  destruct (abs_components base Eb) as [[Hb Hbc] | (b & bs & Hb & Hbc)],
    (abs_components path Ep) as [[Hp Hpc] | (p & ps & Hp & Hpc)];
    rewrite Hb, Hp, Hbc, Hpc in *; cbn [length lcp].
  - lia.
  - inversion_clear Hpp. rewrite decide_False by (by apply SLASH_not_proper_slashed). lia.
  - lia.
  - case_decide as Eq; [|lia]. injection Eq as ->. intros Hlt.
    pose proof (lcp_le bs ps) as [H1 H2]. exists (S (lcp bs ps)). split_and!; [lia | | done].
    cbn [take]. by rewrite lcp_take.
Qed.

(** ** Absolute paths in normal form *)

(** The path of a list of names. *)
Definition abs_of (names : list (list ascii)) : list ascii :=
  match names with [] => [SLASH] | _ => join_from false names end.

(** A name in a directory. *)
Definition child (d n : list ascii) : list ascii := if decide (d = [SLASH]) then SLASH :: n else d ++ SLASH :: n.

Definition canonical (p : list ascii) : Prop := is_abs p = true /\ normal_form p = p.

Lemma normal_form_abs w : is_abs w = true -> normal_form w = abs_of (norm true w).
Proof. intros E. unfold normal_form, path_components. rewrite E. by destruct (norm true w). Qed.

Lemma canonical_names p : canonical p -> exists names, Forall proper names /\ p = abs_of names.
Proof. intros [Ha Hn]. exists (norm true p). split; [apply norm_abs_proper | by rewrite <- normal_form_abs]. Qed.

Lemma is_abs_abs_of names : is_abs (abs_of names) = true.
Proof. by destruct names. Qed.

Lemma norm_abs_of names : Forall proper names -> norm true (abs_of names) = names.
Proof.
  intros Hp. destruct names as [|n names]; [done|].
  change (abs_of (n :: names)) with (SLASH :: join (n :: names)). unfold norm. cbn [split_slash].
  rewrite decide_True by done. cbn [foldl]. rewrite norm_step_nil, split_slash_join.
  - apply fold_normal. exists 0, (n :: names). done.
  - eapply Forall_impl; [exact Hp|]. by intros c (_ & _ & _ & H).
  - done.
Qed.

Lemma canonical_abs_of names : Forall proper names -> canonical (abs_of names).
Proof.
  intros Hp. split; [apply is_abs_abs_of|]. by rewrite normal_form_abs, norm_abs_of by apply is_abs_abs_of || done.
Qed.

Lemma join_from_snoc first names n :
  join_from first (names ++ [n])
  = join_from first names ++ (if first && bool_decide (names = []) then [] else [SLASH]) ++ n.
Proof.
  revert first. induction names as [|m names IH]; intros first; cbn [app join_from].
  - rewrite bool_decide_eq_true_2, app_nil_r by done. by destruct first.
  - rewrite IH, andb_false_l, bool_decide_eq_false_2, andb_false_r by done. by rewrite <- !app_assoc.
Qed.

Lemma abs_of_root names : Forall proper names -> abs_of names = [SLASH] -> names = [].
Proof.
  intros Hp E. destruct names as [|n names]; [done|]. cbn in E. injection E as E.
  apply Forall_cons in Hp as [(Hn & _) _]. by destruct n.
Qed.

Lemma child_abs_of names n : Forall proper names -> child (abs_of names) n = abs_of (names ++ [n]).
Proof.
  intros Hp. unfold child. case_decide as E.
  - apply abs_of_root in E as ->; [|done]. cbn. by rewrite app_nil_r.
  - destruct names as [|m names]; [done|].
    change (abs_of ((m :: names) ++ [n])) with (join_from false ((m :: names) ++ [n])).
    by rewrite join_from_snoc.
Qed.

Lemma norm_child names n : Forall proper names -> proper n -> norm true (abs_of names ++ SLASH :: n) = names ++ [n].
Proof.
  intros Hp Hn. unfold norm. rewrite split_slash_app_slash, foldl_app.
  change (foldl _ [] (split_slash (abs_of names))) with (norm true (abs_of names)).
  rewrite norm_abs_of, split_slash_single by (done || apply Hn). destruct Hn as (H1 & H2 & H3 & _).
  cbn [foldl]. unfold norm_step. by rewrite !decide_False.
Qed.

End PathSpec.
