(* ===== verification/PathUtils.v ===== *)
(** Path manipulation, from [util/path_utils.cpp] and [util/slice.h].

    The functions work on slices of a character memory and write into bounded
    buffers; [tc_path_join_s], [tc_path_append] and [_tc_path_joinall_impl]
    normalise a path inside the buffer it is stored in.  The reference definition
    of what a path's components are is [path_components], on plain character
    lists; the memory-level functions are proved to compute it. *)

From S2P Require Import Prelude CommonTypes PathSpec.
Import Buf PathSpec.
Local Open Scope nat_scope.

Module Paths.

Definition TC_PATH_MAX : nat := 4096.

(** ** [util::Slice] *)

Definition rtrim (m : list ascii) (s : slice_t) (c : ascii) : slice_t :=
  mkslice (sl_data s) (rstrip_size m (sl_data s) (sl_size s) c).

Definition ltrim (m : list ascii) (s : slice_t) (c : ascii) : slice_t :=
  let n := lstrip_count m (sl_data s) 0 (sl_size s) c in
  mkslice (padd (sl_data s) n) (sl_size s - n).

Definition trim (m : list ascii) (s : slice_t) (c : ascii) : slice_t :=
  ltrim m (rtrim m s c) c.

(** [operator==] compares sizes and characters. *)
Definition slice_eqb (m : list ascii) (x y : slice_t) : bool :=
  (sl_size x =? sl_size y) && bool_decide (bytes m x = bytes m y).

Definition slice_is (m : list ascii) (x : slice_t) (lit : list ascii) : bool :=
  slice_eqb m x (mkslice (PLit lit) (length lit)).

(** Pointer decrement of [components[0].data() - 1]. *)
Definition pdec (p : ptr) : ptr :=
  match p with PMem (S a) => PMem a | p => p end.

(** ** Tokenising *)

(** [while (end < path.size() && path[end] != '/') ++end;], [n = size - end]. *)
Fixpoint comp_end (m : list ascii) (p : ptr) (n end_ : nat) : nat :=
  match n with
  | O => end_
  | S n => if decide (rd m p end_ = SLASH) then end_ else comp_end m p n (S end_)
  end.

(** One component of the outer loop. *)
Definition add_comp (m : list ascii) (is_absolute : bool)
    (components : list slice_t) (comp : slice_t) : list slice_t :=
  if slice_is m comp [DOT; DOT] then
    match last components with
    | None => if is_absolute then components else components ++ [comp]
    | Some back =>
        if negb (slice_is m back [DOT; DOT]) then removelast components
        else components ++ [comp]
    end
  else if negb (sl_size comp =? 0) && negb (slice_is m comp [SLASH])
          && negb (slice_is m comp [DOT])
  then components ++ [comp] else components.

(** The outer loop; [fuel] bounds its rounds, each of which moves [end_]. *)
Fixpoint comp_loop (fuel : nat) (m : list ascii) (is_absolute : bool) (path : slice_t)
    (beg end_ : nat) (components : list slice_t) : list slice_t :=
  match fuel with
  | O => components
  | S fuel =>
      if end_ <? sl_size path then
        let end_ := comp_end m (sl_data path) (sl_size path - end_) end_ in
        let comp := mkslice (padd (sl_data path) beg) (end_ - beg) in
        comp_loop fuel m is_absolute path (S end_) (S end_)
          (add_comp m is_absolute components comp)
      else components
  end.

Definition tc_get_path_components (m : list ascii) (path : slice_t)
  : outcome (list slice_t) :=
  if sl_size path =? 0 then Ok []
  else
    let is_absolute := bool_decide (rd m (sl_data path) 0 = SLASH) in
    let start := sl_data path in
    let path := trim m path SLASH in
    let components := comp_loop (S (sl_size path)) m is_absolute path 0 0 [] in
    if is_absolute then
      match components with
      | c :: cs =>
          let c := mkslice (pdec (sl_data c)) (S (sl_size c)) in
          assert! (bool_decide (rd m (sl_data c) 0 = SLASH)) ;; Ok (c :: cs)
      | [] => Ok [mkslice start 1]
      end
    else Ok components.

(** Returns the number of components and the array; [want] is whether the
    caller asked for it, [malloc_ok] whether its allocation succeeds. *)
Definition tc_path_tokenize_s (m : list ascii) (path : slice_t) (want malloc_ok : bool)
  : outcome (Z * option (list slice_t)) :=
  let! comps := tc_get_path_components m path in
  if negb want then Ok (Z.of_nat (length comps), None)
  else if length comps =? 0 then Ok (0%Z, None)
  else if negb malloc_ok then Ok ((-1)%Z, None)
  else Ok (Z.of_nat (length comps), Some comps).

Definition tc_path_tokenize (m : list ascii) (path : ptr) (want malloc_ok : bool)
  : outcome (Z * option (list slice_t)) :=
  if decide (path = PNull) then Ok ((-1)%Z, None)
  else
    let n := strnlen m path TC_PATH_MAX in
    if TC_PATH_MAX <=? n then Ok ((-1)%Z, None)
    else tc_path_tokenize_s m (mkslice path n) want malloc_ok.

(** Whether the components are those of the root directory. *)
Definition is_root (m : list ascii) (comps : list slice_t) : bool :=
  match comps with [c] => slice_is m c [SLASH] | _ => false end.

Definition tc_path_depth_s (m : list ascii) (path : slice_t) : outcome Z :=
  let! comps := tc_get_path_components m path in
  Ok (if is_root m comps then 0%Z else Z.of_nat (length comps)).

Definition tc_path_depth (m : list ascii) (path : ptr) : outcome Z :=
  tc_path_depth_s m (toslice m path).

(** [while (l < n1 && l < n2 && c1[l] == c2[l]) ++l;] *)
Fixpoint common_prefix (m : list ascii) (c1 c2 : list slice_t) : nat :=
  match c1, c2 with
  | x :: c1, y :: c2 => if slice_eqb m x y then S (common_prefix m c1 c2) else 0
  | _, _ => 0
  end.

Definition tc_path_distance_s (m : list ascii) (src dst : slice_t) : outcome Z :=
  assert! (0 <? sl_size dst) ;;
  if negb (bool_decide (rd m (sl_data dst) 0 = SLASH)) then
    let! comps := tc_get_path_components m dst in
    Ok (Z.of_nat (length comps))
  else
    assert! ((0 <? sl_size src) && bool_decide (rd m (sl_data src) 0 = SLASH)) ;;
    let! src_comps := tc_get_path_components m src in
    let! dst_comps := tc_get_path_components m dst in
    let src_len := Z.of_nat (length src_comps) in
    let dst_len := Z.of_nat (length dst_comps) in
    if is_root m src_comps then
      Ok (if is_root m dst_comps then 0%Z else dst_len)
    else if is_root m dst_comps then Ok src_len
    else
      let l := Z.of_nat (common_prefix m src_comps dst_comps) in
      Ok (src_len - l + dst_len - l)%Z.

Definition tc_path_distance (m : list ascii) (src dst : ptr) : outcome Z :=
  tc_path_distance_s m (toslice m src) (toslice m dst).

(** ** Joining and normalising *)

Definition tc_path_append_impl (m : list ascii) (b : buf_t) (comp : slice_t)
  : outcome (Z * list ascii * buf_t) :=
  if sl_size comp =? 0 then Ok (0%Z, m, b)
  else if (u64 (buf_remaining b) <? Z.of_nat (sl_size comp))%Z then Ok ((-1)%Z, m, b)
  else
    let! (m, b) :=
      if negb (size b =? 0) then
        let! (_, m, b) := buf_append_char m b SLASH in Ok (m, b)
      else Ok (m, b) in
    let '(_, m, b) := buf_append_slice m b comp in
    Ok (0%Z, m, b).

(** The loop of [tc_path_normalize_s] over the remaining components. *)
Fixpoint append_comps (m : list ascii) (b : buf_t) (first : bool)
    (comps : list slice_t) : outcome (list ascii * buf_t) :=
  match comps with
  | [] => Ok (m, b)
  | c :: comps =>
      let! (m, b) :=
        if first then Ok (m, b)
        else let! (_, m, b) := buf_append_char m b SLASH in Ok (m, b) in
      let '(_, m, b) := buf_append_slice m b c in
      append_comps m b false comps
  end.

Definition tc_path_normalize_s (m : list ascii) (path : slice_t) (b : buf_t)
  : outcome (Z * list ascii * buf_t) :=
  let! components := tc_get_path_components m path in
  match components with
  | [] =>
      assert! (negb (bool_decide (rd m (sl_data path) 0 = SLASH))) ;;
      let! (_, m, b) := buf_append_char m b DOT in Ok (1%Z, m, b)
  | _ =>
      let old_size := size b in
      let! (m, b) := append_comps m b true components in
      Ok ((Z.of_nat (size b) - Z.of_nat old_size)%Z, m, b)
  end.

Definition tc_path_normalize (m : list ascii) (path : ptr) (buf buf_size : nat)
  : outcome (Z * list ascii) :=
  if decide (path = PNull) then Ok ((-1)%Z, m)
  else
    let plen := strnlen m path TC_PATH_MAX in
    if (TC_PATH_MAX <=? plen) || (buf_size <=? 1) then Ok ((-1)%Z, m)
    else
      let! (n, m, b) := tc_path_normalize_s m (mkslice path plen)
                          (BUF_INITIALIZER buf buf_size) in
      let! (_, m, b) := buf_append_null m b in
      Ok (n, m).

(** The buffer's [size] is that of the joined path before normalisation: the
    normalised result is written over the same memory. *)
Definition tc_path_join_s (m : list ascii) (path1 path2 : slice_t) (b : buf_t)
  : outcome (Z * list ascii * buf_t) :=
  let! (_, m, b) := tc_path_append_impl m b path1 in
  let! (_, m, b) := tc_path_append_impl m b path2 in
  let! (p, m, b) := asstr m b in
  let! (n, m) := tc_path_normalize m p (bdata b) (capacity b) in
  Ok (n, m, b).

Definition tc_path_join (m : list ascii) (path1 path2 : ptr) (buf buf_size : nat)
  : outcome (Z * list ascii) :=
  let len1 := strnlen m path1 TC_PATH_MAX in
  let len2 := strnlen m path2 TC_PATH_MAX in
  if (TC_PATH_MAX <=? len1) || (TC_PATH_MAX <=? len2) then Ok ((-1)%Z, m)
  else
    let! (n, m, b) := tc_path_join_s m (mkslice path1 len1) (mkslice path2 len2)
                        (BUF_INITIALIZER buf buf_size) in
    let! (_, m, b) := buf_append_null m b in
    Ok (n, m).

(** The argument loop of [_tc_path_joinall_impl]; [inl] is an early return. *)
Fixpoint joinall_loop (m : list ascii) (b : buf_t) (paths : list ptr)
  : outcome (Z * list ascii + list ascii * buf_t) :=
  match paths with
  | [] => Ok (inr (m, b))
  | p :: paths =>
      let! (ret, m, b) := tc_path_append_impl m b (toslice m p) in
      if (ret <? 0)%Z then Ok (inl (ret, m)) else joinall_loop m b paths
  end.

Definition tc_path_joinall_impl (m : list ascii) (buf buf_size : nat) (paths : list ptr)
  : outcome (Z * list ascii) :=
  let! r := joinall_loop m (BUF_INITIALIZER buf buf_size) paths in
  match r with
  | inl (ret, m) => Ok (ret, m)
  | inr (m, b) =>
      let! (ok, m, b) := buf_append_null m b in
      if negb ok then Ok ((- ENOBUFS)%Z, m)
      else tc_path_normalize m (PMem buf) buf buf_size
  end.

Definition tc_path_append (m : list ascii) (b : buf_t) (comp : slice_t)
  : outcome (Z * list ascii * buf_t) :=
  let! (_, m, b) := tc_path_append_impl m b comp in
  let! (p, m, b) := asstr m b in
  let! (n, m) := tc_path_normalize m p (bdata b) (capacity b) in
  Ok (n, m, b).

(** ** Rebasing *)

Definition DOTDOT : slice_t := mkslice (PLit [DOT; DOT]) 2.

Definition total_size (comps : list slice_t) : nat := sum_list (sl_size <$> comps).

(** Appends the components with separators, adding up what the append calls
    return (also when they fail). *)
Fixpoint append_sized (m : list ascii) (b : buf_t) (first : bool) (n : Z)
    (comps : list slice_t) : outcome (Z * list ascii * buf_t) :=
  match comps with
  | [] => Ok (n, m, b)
  | c :: comps =>
      let! (n, m, b) :=
        if first then Ok (n, m, b)
        else let! (r, m, b) := buf_append_char m b SLASH in Ok ((n + r)%Z, m, b) in
      let '(r, m, b) := buf_append_slice m b c in
      append_sized m b false (n + r)%Z comps
  end.

Definition tc_path_rebase_s (m : list ascii) (base path : slice_t) (b : buf_t)
  : outcome (Z * list ascii * buf_t) :=
  let! base_comps := tc_get_path_components m base in
  let! path_comps := tc_get_path_components m path in
  let l := common_prefix m base_comps path_comps in
  let relative_comps :=
    replicate (length base_comps - l) DOTDOT ++ drop l path_comps in
  let result_size :=
    s32 (Z.of_nat (total_size relative_comps) + (Z.of_nat (length relative_comps) - 1)) in
  if (buf_remaining b <? result_size)%Z then Ok ((-1)%Z, m, b)
  else
    let! (n, m, b) := append_sized m b true 0 relative_comps in
    if (u64 n =? 0)%Z then
      let! (r, m, b) := buf_append_char m b DOT in Ok (r, m, b)
    else Ok (s32 n, m, b).

Definition tc_path_rebase (m : list ascii) (base path : ptr) (buf buf_size : nat)
  : outcome (Z * list ascii) :=
  let! (n, m, b) := tc_path_rebase_s m (toslice m base) (toslice m path)
                      (BUF_INITIALIZER buf buf_size) in
  let! (_, m, b) := buf_append_null m b in
  Ok (n, m).

(** ** Splitting into directory and base name *)

(** Returns the result and the two slices. *)
Definition tc_path_dir_base_s (m : list ascii) (path : slice_t)
  : bool * slice_t * slice_t :=
  if sl_size path =? 0 then (false, mkslice PNull 0, mkslice PNull 0)
  else
    let path := slice_rstrip m path SLASH in
    if (sl_size path =? 0) && bool_decide (rd m (sl_data path) 0 = SLASH) then
      (true, mkslice (sl_data path) 1, mkslice PNull 0)
    else
      let i := slice_rindex m path SLASH in
      if (i <? 0)%Z then (false, mkslice PNull 0, mkslice (sl_data path) (sl_size path))
      else
        let i := Z.to_nat i in
        (true, mkslice (sl_data path) (if i =? 0 then 1 else i),
         mkslice (padd (sl_data path) (i + 1)) (sl_size path - i - 1)).

Definition tc_path_dirname_s (m : list ascii) (path : slice_t) : slice_t :=
  (tc_path_dir_base_s m path).1.2.

Definition tc_path_basename_s (m : list ascii) (path : slice_t) : slice_t :=
  (tc_path_dir_base_s m path).2.

(** ** Texts in memory *)

(** The memory holds the characters [w] at address [a]. *)
Definition holds (m : list ascii) (a : nat) (w : list ascii) : Prop :=
  forall i c, w !! i = Some c -> m !! (a + i) = Some c.

Lemma holds_nil m a : holds m a [].
Proof. intros i c. by rewrite lookup_nil. Qed.

Lemma holds_cons m a c w : holds m a (c :: w) <-> m !! a = Some c /\ holds m (S a) w.
Proof.
  split.
  - intros H. split; [rewrite <- (Nat.add_0_r a); by apply H|].
    intros i d Hi. specialize (H (S i) d Hi). by rewrite Nat.add_succ_r in H.
  - intros [H1 H2] [|i] d; simpl; [intros [= <-]; by rewrite Nat.add_0_r|].
    intros Hi. rewrite Nat.add_succ_r. by apply H2.
Qed.

Lemma holds_app m a w w' :
  holds m a (w ++ w') <-> holds m a w /\ holds m (a + length w) w'.
Proof.
  revert a. induction w as [|c w IH]; intros a; simpl.
  - rewrite Nat.add_0_r. split; [|tauto]. intros H. split; [apply holds_nil | done].
  - rewrite !holds_cons, IH, Nat.add_succ_r. simpl. tauto.
Qed.

Lemma holds_chars m a w : holds m a w -> chars m (PMem a) (length w) = w.
Proof.
  intros H. apply list_eq. intros i. destruct (decide (i < length w)) as [Hi|Hi].
  - rewrite lookup_chars by done. destruct (lookup_lt_is_Some_2 w i Hi) as [c Hc].
    by rewrite Hc, (H i c Hc).
  - rewrite (lookup_ge_None_2 w) by lia. apply lookup_ge_None_2. simpl.
    rewrite length_take. lia.
Qed.

Lemma chars_holds m a n : holds m a (chars m (PMem a) n).
Proof.
  intros i c. simpl. rewrite lookup_take_Some, lookup_drop. by intros [-> _].
Qed.

Lemma holds_length m a w : holds m a w -> w <> [] -> a + length w <= length m.
Proof.
  intros H Hne. destruct w as [|c w _] using rev_ind; [done|].
  rewrite length_app. simpl.
  pose proof (H (length w) c) as Hl. rewrite list_lookup_middle in Hl by done.
  pose proof (lookup_lt_Some _ _ _ (Hl eq_refl)). lia.
Qed.

Lemma holds_rd m a c w : holds m a (c :: w) -> rd m (PMem a) 0 = c.
Proof. rewrite holds_cons. intros [H _]. simpl. by rewrite Nat.add_0_r, H. Qed.

Lemma holds_rd_at m a e c w : holds m (a + e) (c :: w) -> rd m (PMem a) e = c.
Proof. rewrite holds_cons. intros [H _]. simpl. by rewrite H. Qed.

(** ** Trimming *)

Lemma rstrip_size_spec m a w c :
  holds m a w ->
  exists w' j, w = w' ++ replicate j c /\ rstrip_size m (PMem a) (length w) c = length w'.
Proof.
  induction w as [|d w IH] using rev_ind; intros H; [by exists [], 0|].
  apply holds_app in H as [H1 H2]. rewrite length_app. simpl. rewrite Nat.add_1_r.
  pose proof (holds_rd_at _ _ _ _ _ H2) as Hrd. cbn [rstrip_size]. rewrite Hrd.
  case_decide as E.
  - clear Hrd. destruct (IH H1) as (w' & j & -> & ->). exists w', (S j). split; [|done].
    by rewrite E, <- app_assoc, replicate_S_end.
  - exists (w ++ [d]), 0. rewrite app_nil_r, length_app. simpl. split; [done | lia].
Qed.

Lemma lstrip_count_spec m a e w c :
  holds m (a + e) w ->
  exists w' i, w = replicate i c ++ w' /\ (forall x w'', w' = x :: w'' -> x <> c) /\
    lstrip_count m (PMem a) e (length w) c = e + i.
Proof.
  revert e. induction w as [|d w IH]; intros e H.
  - exists [], 0. split_and!; [done | done | simpl; lia].
  - pose proof (holds_rd_at _ _ _ _ _ H) as Hrd. cbn [lstrip_count length].
    rewrite Hrd. apply holds_cons in H as [_ H].
    case_decide as E.
    + destruct (IH (S e)) as (w' & i & -> & Hne & ->).
      { by rewrite Nat.add_succ_r. }
      exists w', (S i). rewrite E. split_and!; [done | done | lia].
    + exists (d :: w), 0. split_and!; [done | | lia]. intros x w'' [= <- <-]. done.
Qed.

Lemma norm_trim abs i w j :
  norm abs (replicate i SLASH ++ w ++ replicate j SLASH) = norm abs w.
Proof.
  unfold norm.
  assert (forall cs k, foldl (norm_step abs) cs (split_slash (replicate k SLASH)) = cs)
    as Htail.
  { intros cs k. revert cs. induction k as [|k IH]; intros cs; simpl;
      rewrite norm_step_nil; [done|]. apply IH. }
  induction i as [|i IH]; simpl.
  - destruct j as [|j]; simpl; [by rewrite app_nil_r|].
    rewrite split_slash_app_slash, foldl_app. apply Htail.
  - by rewrite norm_step_nil.
Qed.

(** ** The component loop computes the reference components *)

Lemma slice_is_spec m x lit :
  in_mem m x -> slice_is m x lit = bool_decide (bytes m x = lit).
Proof.
  intros Hin. unfold slice_is, slice_eqb. simpl sl_size.
  assert (bytes m (mkslice (PLit lit) (length lit)) = lit) as ->.
  { unfold bytes. simpl. by rewrite take_ge. }
  case_bool_decide as E; [|by rewrite andb_false_r].
  rewrite <- E, length_bytes, Nat.eqb_refl by done. done.
Qed.

Lemma add_comp_spec m abs comps comp :
  Forall (in_mem m) comps -> in_mem m comp -> no_slash (bytes m comp) ->
  bytes m <$> add_comp m abs comps comp = norm_step abs (bytes m <$> comps) (bytes m comp).
Proof.
  intros Hcs Hc Hns. unfold add_comp, norm_step. rewrite !slice_is_spec by done.
  case_bool_decide as Ed.
  - rewrite decide_True by done. rewrite fmap_last.
    destruct (last comps) as [b|] eqn:Hl; simpl.
    + rewrite slice_is_spec by (eapply Forall_forall; [exact Hcs | by apply last_Some_elem_of]).
      case_bool_decide; simpl.
      * rewrite decide_True by done. by rewrite fmap_app.
      * rewrite decide_False by done.
        apply last_Some in Hl as [comps' ->].
        rewrite removelast_last, fmap_app. cbn [fmap list_fmap].
        by rewrite removelast_last.
    + destruct abs; [done | by rewrite fmap_app].
  - rewrite decide_False by done.
    assert (bytes m comp <> [SLASH]) as Hsl.
    { intros E. rewrite E in Hns. by inversion_clear Hns. }
    rewrite (bool_decide_false _ Hsl). simpl.
    rewrite <- (length_bytes m comp Hc).
    destruct (bytes m comp) as [|x b] eqn:Eb; [done|]. simpl.
    case_bool_decide as E1.
    + by rewrite decide_True.
    + rewrite decide_False by done. cbn [negb]. by rewrite fmap_app, <- Eb.
Qed.

(** The scan for the end of a component. *)
Lemma comp_end_spec m a e w :
  holds m (a + e) w ->
  exists x r, w = x ++ r /\ no_slash x /\ (r = [] \/ exists r', r = SLASH :: r') /\
    comp_end m (PMem a) (length w) e = e + length x.
Proof.
  revert e. induction w as [|d w IH]; intros e H.
  - exists [], []. split_and!; [done | constructor | by left | simpl; lia].
  - pose proof (holds_rd_at _ _ _ _ _ H) as Hrd. cbn [comp_end length].
    rewrite Hrd. apply holds_cons in H as [_ H].
    case_decide as E.
    + exists [], (d :: w). rewrite E. split_and!; [done | constructor | eauto | simpl; lia].
    + destruct (IH (S e)) as (x & r & -> & Hx & Hr & ->).
      { by rewrite Nat.add_succ_r. }
      exists (d :: x), r. split_and!; [done | by constructor | done | simpl; lia].
Qed.

(** The slices lie in the memory between [lo] and [hi], in order, and any two of
    them, or the last one and [hi], are separated by at least one character. *)
Fixpoint spaced (lo : nat) (comps : list slice_t) (hi : nat) : Prop :=
  match comps with
  | [] => lo <= hi
  | c :: comps =>
      exists x, sl_data c = PMem x /\ lo <= x /\ spaced (x + sl_size c + 1) comps hi
  end.

Lemma spaced_le lo comps hi : spaced lo comps hi -> lo <= hi.
Proof.
  revert lo. induction comps as [|c comps IH]; intros lo; simpl; [done|].
  intros (x & _ & Hx & H%IH). lia.
Qed.

Lemma spaced_data lo comps hi :
  spaced lo comps hi -> Forall (fun c => exists x, sl_data c = PMem x) comps.
Proof.
  revert lo. induction comps as [|c comps IH]; intros lo; [constructor|].
  intros (x & Hd & _ & H). constructor; [eauto | by eapply IH].
Qed.

Lemma spaced_mono lo lo' comps hi hi' :
  spaced lo comps hi -> lo' <= lo -> hi <= hi' -> spaced lo' comps hi'.
Proof.
  revert lo lo'. induction comps as [|c comps IH]; intros lo lo'; simpl; [lia|].
  intros (x & Hd & Hx & H) Hlo Hhi. exists x. split_and!; [done | lia | by eapply IH].
Qed.

Lemma spaced_snoc lo comps hi c x :
  spaced lo comps hi -> sl_data c = PMem x -> hi <= x ->
  spaced lo (comps ++ [c]) (x + sl_size c + 1).
Proof.
  intros H Hd Hx. revert lo H.
  induction comps as [|c' comps IH]; intros lo; simpl.
  - intros H. exists x. split_and!; [done | lia | lia].
  - intros (y & Hdy & Hy & H). exists y. split_and!; [done | done | by apply IH].
Qed.

Lemma spaced_removelast lo comps hi : spaced lo comps hi -> spaced lo (removelast comps) hi.
Proof.
  revert lo. induction comps as [|c comps IH]; intros lo; [done|].
  intros (x & Hd & Hx & H). destruct comps as [|c' comps]; simpl.
  - simpl in H. lia.
  - exists x. split_and!; [done | done|]. by apply IH.
Qed.

Lemma spaced_in_mem m lo comps hi :
  spaced lo comps hi -> hi <= S (length m) -> Forall (in_mem m) comps.
Proof.
  intros H Hhi. revert lo H. induction comps as [|c comps IH]; intros lo; [constructor|].
  intros (x & Hd & Hx & H). constructor; [|by eapply IH].
  apply spaced_le in H. unfold in_mem. rewrite Hd. lia.
Qed.

(** The slice is preceded in memory by a separator. *)
Definition slashed (m : list ascii) (c : slice_t) : Prop :=
  exists x, sl_data c = PMem (S x) /\ m !! x = Some SLASH.

Lemma add_comp_cases m abs comps comp :
  add_comp m abs comps comp = comps \/
  add_comp m abs comps comp = comps ++ [comp] \/
  add_comp m abs comps comp = removelast comps.
Proof.
  unfold add_comp. destruct (slice_is m comp [DOT; DOT]).
  - destruct (last comps) as [b|]; [destruct (negb _) | destruct abs]; tauto.
  - destruct (_ && _ && _); tauto.
Qed.

Lemma Forall_removelast {A} (P : A -> Prop) l : Forall P l -> Forall P (removelast l).
Proof.
  intros H. destruct l as [|x l _] using rev_ind; [done|].
  rewrite removelast_last. by apply Forall_app in H as [H _].
Qed.

(** The outer loop, from an offset [e] where the text [w] is left: its components
    are those of the reference, in place in the path, and in an absolute path each
    one follows a separator. *)
Lemma comp_loop_spec fuel m abs a n e w comps lo :
  holds m (a + e) w -> n = e + length w -> length w < fuel -> a + n <= length m ->
  spaced lo comps (a + e) ->
  (abs = true -> w <> [] -> exists x, a + e = S x /\ m !! x = Some SLASH) ->
  (abs = true -> Forall (slashed m) comps) ->
  let res := comp_loop fuel m abs (mkslice (PMem a) n) e e comps in
  bytes m <$> res = foldl (norm_step abs) (bytes m <$> comps) (split_slash w) /\
  spaced lo res (a + n + 1) /\
  (abs = true -> Forall (slashed m) res).
Proof.
  revert e w comps. induction fuel as [|fuel IH]; intros e w comps; [lia|].
  intros Hw Hn Hfuel Hm Hsp Habs Hsl. cbn [comp_loop sl_size sl_data padd].
  destruct w as [|d w].
  { simpl in Hn. rewrite (proj2 (Nat.ltb_ge e n)) by lia. simpl.
    rewrite norm_step_nil. split_and!; [done | | done].
    eapply spaced_mono; [done | lia | lia]. }
  rewrite (proj2 (Nat.ltb_lt e n)) by (simpl in Hn; lia).
  specialize (fun Ha => Habs Ha ltac:(done)).
  replace (n - e) with (length (d :: w)) by lia.
  destruct (comp_end_spec m a e (d :: w) Hw) as (x & r & Ew & Hx & Hr & ->).
  rewrite Ew in *. clear Ew d w. rewrite length_app in Hn, Hfuel.
  apply holds_app in Hw as [Hwx Hwr].
  replace (e + length x - e) with (length x) by lia.
  set (comp := mkslice (PMem (a + e)) (length x)).
  assert (bytes m comp = x) as Hb by (unfold bytes; by apply holds_chars).
  assert (in_mem m comp) as Hin by (unfold in_mem; simpl; lia).
  assert (Forall (in_mem m) comps) as Hins by (eapply spaced_in_mem; [done | lia]).
  assert (bytes m <$> add_comp m abs comps comp = norm_step abs (bytes m <$> comps) x) as Hadd.
  { rewrite add_comp_spec; rewrite ?Hb; done. }
  assert (spaced lo (add_comp m abs comps comp) (a + e + length x + 1)) as Hsp'.
  { destruct (add_comp_cases m abs comps comp) as [->|[->| ->]].
    - eapply spaced_mono; [done | lia | lia].
    - apply (spaced_snoc lo comps (a + e) comp (a + e)); done.
    - eapply spaced_mono; [by apply spaced_removelast | lia | lia]. }
  assert (abs = true -> Forall (slashed m) (add_comp m abs comps comp)) as Hsl'.
  { intros Ha. destruct (add_comp_cases m abs comps comp) as [->|[->| ->]]; [auto | |].
    - apply Forall_app. split; [auto|]. constructor; [|done].
      destruct (Habs Ha) as (y & Hy & Hmy). exists y. simpl. by rewrite <- Hy.
    - apply Forall_removelast. auto. }
  destruct Hr as [->|[r' ->]].
  - rewrite app_nil_r, split_slash_single by done. simpl in Hn.
    destruct fuel as [|fuel]; cbn [comp_loop sl_size];
      rewrite ?(proj2 (Nat.ltb_ge (S (e + length x)) n)) by lia;
      (split_and!; [done | eapply spaced_mono; [done | lia | lia] | done]).
  - rewrite split_slash_app by done. cbn [foldl]. rewrite <- Hadd.
    apply holds_cons in Hwr as [Hs Hwr]. simpl in Hn, Hfuel.
    apply IH; [|lia|lia|done| | |done].
    + by replace (a + S (e + length x)) with (S (a + e + length x)) by lia.
    + eapply spaced_mono; [done | lia | lia].
    + intros _ _. exists (a + e + length x). split; [lia | done].
Qed.

Lemma trim_spec m a w :
  holds m a w ->
  exists i w' j, w = replicate i SLASH ++ w' ++ replicate j SLASH /\
    trim m (mkslice (PMem a) (length w)) SLASH = mkslice (PMem (a + i)) (length w') /\
    holds m (a + i) w' /\ (is_abs w = true -> w' <> [] -> 0 < i).
Proof.
  intros H. destruct (rstrip_size_spec m a w SLASH H) as (w1 & j & Ew & Hr).
  assert (holds m a w1) as H1 by (rewrite Ew in H; by apply holds_app in H as [H _]).
  destruct (lstrip_count_spec m a 0 w1 SLASH) as (w2 & i & Ew1 & Hne & Hl).
  { by rewrite Nat.add_0_r. }
  exists i, w2, j. split_and!; [by rewrite Ew, Ew1, <- app_assoc | | |].
  - unfold trim, ltrim, rtrim. cbn [sl_data sl_size]. rewrite Hr, Hl.
    simpl. f_equal. rewrite Ew1, length_app, length_replicate. lia.
  - rewrite Ew1 in H1. apply holds_app in H1 as [_ H1]. by rewrite length_replicate in H1.
  - destruct i; [|lia]. rewrite Ew, Ew1. destruct w2 as [|x w2]; [done|].
    simpl. intros Habs _. apply bool_decide_eq_true in Habs. by destruct (Hne x w2).
Qed.

(** [tc_get_path_components] computes the components of the path, as slices that
    lie in order inside it; its assertion never fails. *)
Lemma get_path_components_spec m a w :
  holds m a w -> a + length w <= length m ->
  exists comps, tc_get_path_components m (mkslice (PMem a) (length w)) = Ok comps /\
    bytes m <$> comps = path_components w /\ spaced a comps (a + length w + 1).
Proof.
  intros Hw Hm. unfold tc_get_path_components, path_components. cbn [sl_size sl_data].
  destruct w as [|d w]; [exists []; split_and!; [done | done | simpl; lia]|].
  rewrite (holds_rd _ _ _ _ Hw). change (length (d :: w) =? 0) with false. cbn iota.
  destruct (trim_spec m a (d :: w) Hw) as (i & w' & j & Ew & -> & Hw' & Hi).
  change (bool_decide (d = SLASH)) with (is_abs (d :: w)).
  cbn [sl_size].
  pose proof (f_equal length Ew) as Hlen.
  rewrite !length_app, !length_replicate in Hlen.
  destruct (comp_loop_spec (S (length w')) m (is_abs (d :: w)) (a + i) (length w') 0 w' []
              (a + i)) as (Hb & Hsp & Hsl).
  { by rewrite Nat.add_0_r. }
  { lia. } { lia. } { lia. } { simpl. lia. }
  { intros Habs Hne. specialize (Hi Habs Hne). exists (a + i - 1). split; [lia|].
    rewrite Ew in Hw. apply holds_app in Hw as [Hw _].
    replace (a + i - 1) with (a + (i - 1)) by lia. apply Hw.
    by apply lookup_replicate_2; lia. }
  { constructor. }
  cbv zeta in Hb, Hsp, Hsl.
  set (comps := comp_loop _ _ _ _ _ _ _) in *.
  assert (bytes m <$> comps = norm (is_abs (d :: w)) (d :: w)) as Hc.
  { rewrite Hb. generalize (is_abs (d :: w)). intros abs. by rewrite Ew, norm_trim. }
  assert (comps <> [] -> w' <> []) as Hne by (intros Hne ->; by apply Hne).
  clearbody comps. rewrite <- Hc. destruct (is_abs (d :: w)) eqn:Habs.
  - specialize (Hsl eq_refl). destruct comps as [|c comps].
    + eexists. split_and!; [done | |].
      * simpl. f_equal. apply is_abs_inv in Habs as [w0 [= -> ->]].
        unfold bytes. simpl. apply holds_cons in Hw as [Hw _].
        apply holds_chars with (w := [SLASH]). by apply holds_cons; split.
      * simpl. exists a. split_and!; [done | lia | lia].
    + apply Forall_cons in Hsl as [(x & Hd & Hx) _].
      destruct c as [dc sc]. simpl in Hd. subst dc. cbn [pdec sl_data sl_size].
      rewrite bool_decide_true by (simpl; by rewrite Nat.add_0_r, Hx).
      eexists. split_and!; [reflexivity | |].
      * rewrite !fmap_cons. f_equal. unfold bytes. simpl.
        by rewrite (drop_S _ _ _ Hx).
      * destruct Hsp as (x' & [= <-] & Hlo & Hsp). simpl in Hsp.
        exists x. simpl. split_and!; [done | |].
        { specialize (Hi eq_refl (Hne ltac:(done))). lia. }
        eapply spaced_mono; [done | lia | simpl in Hlen; lia].
  - eexists. split_and!; [reflexivity | done|].
    eapply spaced_mono; [done | lia | simpl in *; lia].
Qed.

(** ** Appending components to a buffer *)

(** The components can still be read when they are appended from address [p]
    on, nothing at or after [p0] being preserved: each one lies before [p0] or not
    before the place it is copied to. *)
Fixpoint readable (p0 p : nat) (first : bool) (comps : list slice_t) : Prop :=
  match comps with
  | [] => True
  | c :: comps =>
      let p := if first then p else S p in
      (forall x, sl_data c = PMem x -> x + sl_size c <= p0 \/ p <= x) /\
      readable p0 (p + sl_size c) false comps
  end.

Lemma bytes_agree m m' c p0 p :
  (forall x, sl_data c = PMem x -> x + sl_size c <= p0 \/ p <= x) ->
  (forall a, a < p0 \/ p <= a -> m' !! a = m !! a) ->
  bytes m' c = bytes m c.
Proof.
  intros Hc Hm. unfold bytes. destruct (sl_data c) as [|x|] eqn:E; [done | | done].
  apply chars_agree. intros i Hi. apply Hm. destruct (Hc x eq_refl); lia.
Qed.

Lemma readable_agree m m' p0 p p' first comps :
  readable p0 p first comps -> p' <= p ->
  (forall a, a < p0 \/ p' <= a -> m' !! a = m !! a) ->
  bytes m' <$> comps = bytes m <$> comps.
Proof.
  revert p first. induction comps as [|c comps IH]; intros p first; [done|].
  intros [Hc Hr] Hp Hm. rewrite !fmap_cons. f_equal.
  - eapply bytes_agree; [|exact Hm]. intros x Hx.
    destruct (Hc x Hx); destruct first; lia.
  - eapply IH; [done | destruct first; lia | done].
Qed.

Lemma in_mem_length m m' c : length m' = length m -> in_mem m c -> in_mem m' c.
Proof. intros Hl. unfold in_mem. by rewrite Hl. Qed.

(** Length of the joined components. *)
Lemma join_from_sizes m first comps :
  Forall (in_mem m) comps ->
  length (join_from first (bytes m <$> comps)) =
  total_size comps + (if first then pred (length comps) else length comps).
Proof.
  intros H. revert first. induction H as [|c comps Hc _ IH]; intros first.
  { by destruct first. }
  rewrite fmap_cons. cbn [join_from]. rewrite !length_app, IH, length_bytes by done.
  unfold total_size. rewrite fmap_cons. simpl. destruct first; simpl; lia.
Qed.

(** The separator, if any, and one component. *)
Lemma append_one m b (first : bool) c p0 :
  buf_wf m b -> in_mem m c -> p0 <= bdata b + size b ->
  (forall x, sl_data c = PMem x ->
     x + sl_size c <= p0 \/ bdata b + size b + (if first then 0 else 1) <= x) ->
  let n := (if first then 0 else 1) + sl_size c in
  size b + n <= capacity b ->
  exists m1 m',
    (if first then Ok (m, b)
     else let! (_, m, b) := buf_append_char m b SLASH in Ok (m, b)) =
      Ok (m1, with_size b (size b + (if first then 0 else 1))) /\
    buf_append_slice m1 (with_size b (size b + (if first then 0 else 1))) c =
      (s32 (Z.of_nat (sl_size c)), m', with_size b (size b + n)) /\
    buf_wf m' (with_size b (size b + n)) /\ length m' = length m /\
    contents m' (with_size b (size b + n)) =
      contents m b ++ (if first then [] else [SLASH]) ++ bytes m c /\
    (forall a, a < bdata b + size b \/ bdata b + size b + n <= a -> m' !! a = m !! a).
Proof.
  intros Hwf Hc Hp0 Hx n Hn. subst n. destruct first.
  - rewrite Nat.add_0_r. simpl in *. exists m.
    destruct (append_slice_fits m b c Hwf Hc Hn) as (m' & E & [Hl Ht] & Hw & Hct & Hf).
    exists m'. destruct b as [cap sz bd]; simpl in *.
    split_and!; try done. intros a [Ha|Ha]; [apply Ht; lia | apply Hf; lia].
  - simpl in *.
    destruct (append_char_fits m b SLASH Hwf) as (m1 & E1 & [Hl1 Ht1] & Hw1 & Hct1 & Hf1).
    { lia. }
    rewrite E1. simpl. rewrite Nat.add_1_r. exists m1.
    destruct (append_slice_fits m1 (with_size b (S (size b))) c Hw1)
      as (m' & E & [Hl Ht] & Hw & Hct & Hf).
    { by eapply in_mem_length. } { simpl. lia. }
    simpl in *. rewrite Nat.add_succ_r. exists m'. split_and!; try done.
    + congruence.
    + unfold with_size at 1 in Hct. simpl in Hct. unfold with_size at 1. simpl.
      rewrite Hct, Hct1, <- app_assoc. simpl. do 2 f_equal.
      eapply (bytes_agree m m1 c p0 (bdata b + size b + 1)); [done|].
      intros a [Ha|Ha]; [apply Ht1; lia | apply Hf1; lia].
    + intros a [Ha|Ha].
      * rewrite Ht by lia. apply Ht1. lia.
      * rewrite Hf by lia. apply Hf1. lia.
Qed.

Lemma append_comps_spec m b first comps p0 :
  buf_wf m b -> Forall (in_mem m) comps -> p0 <= bdata b + size b ->
  readable p0 (bdata b + size b) first comps ->
  let w := join_from first (bytes m <$> comps) in
  size b + length w <= capacity b ->
  exists m', append_comps m b first comps = Ok (m', with_size b (size b + length w)) /\
    buf_wf m' (with_size b (size b + length w)) /\ length m' = length m /\
    contents m' (with_size b (size b + length w)) = contents m b ++ w /\
    (forall a, a < bdata b + size b \/ bdata b + size b + length w <= a -> m' !! a = m !! a).
Proof.
  revert m b first. induction comps as [|c comps IH]; intros m b first Hwf Hin Hp0 Hrd w Hfit.
  { subst w. simpl in *. rewrite Nat.add_0_r, app_nil_r in *. exists m.
    destruct b; simpl in *. done. }
  apply Forall_cons in Hin as [Hc Hin]. destruct Hrd as [Hcr Hrd].
  subst w. rewrite fmap_cons in *. cbn [join_from] in *.
  rewrite !length_app, length_bytes in Hfit by done.
  destruct (append_one m b first c p0 Hwf Hc Hp0) as (m1 & m2 & E1 & E2 & Hw2 & Hl2 & Hct2 & Hf2).
  { intros x Hx. destruct (Hcr x Hx); destruct first; lia. }
  { destruct first; simpl in *; lia. }
  cbn [append_comps]. rewrite E1. cbn [obind]. rewrite E2.
  set (n := (if first then 0 else 1) + sl_size c) in *.
  assert (bytes m2 <$> comps = bytes m <$> comps) as Hsame.
  { eapply (readable_agree m m2 p0 _ (bdata b + size b + n)); [exact Hrd | | ].
    - subst n. destruct first; lia.
    - intros a Ha. apply Hf2. lia. }
  destruct (IH m2 (with_size b (size b + n)) false) as (m' & E & Hw & Hl & Hct & Hf).
  { done. }
  { eapply Forall_impl; [exact Hin|]. intros. by eapply in_mem_length. }
  { simpl. lia. }
  { simpl. subst n. replace (bdata b + (size b + ((if first then 0 else 1) + sl_size c)))
      with ((if first then bdata b + size b else S (bdata b + size b)) + sl_size c); [done|].
    destruct first; lia. }
  { rewrite Hsame. simpl. subst n. destruct first; simpl in *; lia. }
  rewrite Hsame in *. simpl in *. unfold with_size in *. simpl in *.
  assert (length ((if first then [] else [SLASH]) ++ bytes m c
            ++ join_from false (bytes m <$> comps)) =
          n + length (join_from false (bytes m <$> comps))) as Hlen.
  { rewrite !length_app, length_bytes by done. subst n. destruct first; simpl; lia. }
  rewrite Hlen, Nat.add_assoc. exists m'. split_and!; try done.
  - congruence.
  - rewrite Hct, Hct2, <- !app_assoc. done.
  - intros a Ha. rewrite Hf by lia. apply Hf2. lia.
Qed.

Lemma spaced_readable lo comps hi p0 p (first : bool) :
  spaced lo comps hi -> p + (if first then 0 else 1) <= lo -> readable p0 p first comps.
Proof.
  revert lo p first. induction comps as [|c comps IH]; intros lo p first; [done|].
  intros (x & Hd & Hx & Hsp) Hp. split.
  - intros y. rewrite Hd. intros [= <-]. right. destruct first; lia.
  - eapply IH; [exact Hsp|]. destruct first; lia.
Qed.

Lemma spaced_before lo comps hi p0 p (first : bool) :
  spaced lo comps hi -> hi <= S p0 -> readable p0 p first comps.
Proof.
  revert lo p first. induction comps as [|c comps IH]; intros lo p first; [done|].
  intros (x & Hd & Hx & Hsp) Hp. split.
  - intros y. rewrite Hd. intros [= <-]. left. apply spaced_le in Hsp. lia.
  - by eapply IH.
Qed.

(** The joined components are no longer than the text they come from. *)
Lemma spaced_join_length m lo comps hi :
  spaced lo comps hi -> Forall (in_mem m) comps -> comps <> [] ->
  lo + length (join (bytes m <$> comps)) + 1 <= hi.
Proof.
  intros Hsp Hin Hne. unfold join. rewrite join_from_sizes by done. clear Hin.
  revert lo Hsp Hne. induction comps as [|c comps IH]; intros lo; [done|].
  intros (x & Hd & Hx & Hsp) _. unfold total_size in *. rewrite fmap_cons. simpl.
  destruct comps as [|c' comps].
  - simpl in *. lia.
  - specialize (IH _ Hsp ltac:(done)). simpl in *. lia.
Qed.

Lemma normal_form_length w : length (normal_form w) <= Nat.max 1 (length w).
Proof.
  destruct (get_path_components_spec w 0 w) as (comps & _ & Hb & Hsp).
  { by intros i c. } { lia. }
  unfold normal_form. rewrite <- Hb. destruct comps as [|c comps]; simpl; [lia|].
  pose proof (spaced_join_length w _ _ _ Hsp) as H. simpl in H.
  assert (Forall (in_mem w) (c :: comps)) as Hin by (eapply spaced_in_mem; [done | lia]).
  specialize (H Hin ltac:(done)). lia.
Qed.

Lemma length_join_from cs : length (join_from false cs) = sum_list (length <$> cs) + length cs.
Proof. induction cs as [|c cs IH]; [done|]. rewrite fmap_cons. simpl. rewrite length_app, IH. simpl. lia. Qed.

Lemma components_length w : sum_list (length <$> path_components w) + length (path_components w) <= length w + 2.
Proof.
  rewrite <- length_join_from. pose proof (normal_form_length w) as H. unfold normal_form, join in H.
  destruct (path_components w) as [|c cs]; simpl in *; lia.
Qed.

(** A relative path is not much longer than three characters for each component of the base and the path. *)
Lemma rel_path_length base path :
  length (rel_path base path) <= 3 * length base + length path + 9.
Proof.
  pose proof (components_length base) as Hb. pose proof (components_length path) as Hp.
  assert (length (rel_path base path) <= S (length (join_from false (rel_comps base path)))) as H.
  { unfold rel_path, join. destruct (rel_comps base path); simpl; lia. }
  rewrite length_join_from in H. unfold rel_comps in H.
  set (l := lcp _ _) in H. set (k := length (path_components base) - l) in H.
  rewrite fmap_app, sum_list_with_app, !length_app, length_replicate, length_drop in H.
  assert (sum_list (length <$> replicate k DOTDOT_) = 2 * k) as Hk.
  { clear. induction k as [|k IH]; [done|]. cbn [replicate]. rewrite fmap_cons. cbn [sum_list_with sum_list id].
    rewrite IH. simpl. lia. }
  assert (sum_list (length <$> drop l (path_components path)) <= sum_list (length <$> path_components path)) as Hd.
  { rewrite <- (take_drop l (path_components path)) at 2. rewrite fmap_app, sum_list_with_app. lia. }
  subst k. lia.
Qed.

Lemma strnlen_spec m a w max :
  holds m a (w ++ [NUL]) -> NUL ∉ w -> length w < max -> strnlen m (PMem a) max = length w.
Proof.
  unfold strnlen.
  assert (forall e, holds m (a + e) (w ++ [NUL]) -> NUL ∉ w -> length w < max ->
            strnlen_from m (PMem a) e max = e + length w) as H.
  { revert max. induction w as [|d w IH]; intros [|max] e Hw Hn Hl; simpl in Hl; try lia;
      cbn [strnlen_from app] in *; rewrite (holds_rd_at _ _ _ _ _ Hw).
    - rewrite decide_True by done. simpl. lia.
    - apply not_elem_of_cons in Hn as [Hd Hn]. rewrite decide_False by done.
      apply holds_cons in Hw as [_ Hw]. rewrite IH; [simpl; lia | | done | lia].
      by rewrite Nat.add_succ_r. }
  intros. rewrite H; rewrite ?Nat.add_0_r; done.
Qed.

Lemma contents_holds m b w : contents m b = w -> holds m (bdata b) w.
Proof. intros <-. apply chars_holds. Qed.

(** The path at [a] can be read while a buffer at [buf] is filled. *)
Definition apart (a n buf : nat) : Prop := buf <= a \/ a + n <= buf.

Lemma normalize_s_spec m a w b :
  holds m a w -> a + length w <= length m -> buf_wf m b ->
  apart a (length w) (bdata b + size b) ->
  (w <> [] \/ rd m (PMem a) 0 <> SLASH) ->
  size b + length (normal_form w) <= capacity b ->
  exists m', tc_path_normalize_s m (mkslice (PMem a) (length w)) b =
      Ok (Z.of_nat (length (normal_form w)), m', with_size b (size b + length (normal_form w))) /\
    buf_wf m' (with_size b (size b + length (normal_form w))) /\ length m' = length m /\
    contents m' (with_size b (size b + length (normal_form w))) =
      contents m b ++ normal_form w /\
    (forall x, x < bdata b + size b \/ bdata b + size b + length (normal_form w) <= x ->
       m' !! x = m !! x).
Proof.
  intros Hw Hm Hwf Hap Hne Hfit. unfold tc_path_normalize_s.
  destruct (get_path_components_spec m a w Hw Hm) as (comps & -> & Hb & Hsp).
  cbn [obind]. unfold normal_form in *. rewrite <- Hb in *.
  assert (Forall (in_mem m) comps) as Hin by (eapply spaced_in_mem; [done | lia]).
  destruct comps as [|c comps].
  - cbn [fmap list_fmap sl_data] in *. rewrite bool_decide_false.
    + simpl in *. rewrite Nat.add_1_r in *.
      destruct (append_char_fits m b DOT Hwf) as (m' & -> & [Hl Ht] & Hw' & Hct & Hf); [lia|].
      exists m'. split_and!; try done.
      intros x [Hx|Hx]; [apply Ht; lia | apply Hf; lia].
    + destruct w as [|d w]; [by destruct Hne|]. rewrite (holds_rd _ _ _ _ Hw).
      intros ->. destruct (abs_components (SLASH :: w)) as [[_ E]|(? & ? & _ & E)];
        [done | |]; by rewrite E in Hb.
  - rewrite fmap_cons in *. cbn iota in *. rewrite <- fmap_cons in *.
    destruct (append_comps_spec m b true (c :: comps) (bdata b + size b))
      as (m' & E & Hw' & Hl & Hct & Hf); try done.
    { destruct Hap; [eapply spaced_readable | eapply spaced_before]; try exact Hsp; lia. }
    rewrite E. unfold join in *. cbn [obind size with_size].
    exists m'. split_and!; try done. do 3 f_equal. simpl. lia.
Qed.

(** The string [w] is stored at [a]. *)
Definition cstr (m : list ascii) (a : nat) (w : list ascii) : Prop :=
  holds m a (w ++ [NUL]) /\ NUL ∉ w.

Lemma cstr_length m a w : cstr m a w -> a + length w < length m.
Proof.
  intros [H _]. apply holds_length in H; [|by destruct w].
  rewrite length_app in H. simpl in H. lia.
Qed.

Lemma cstr_holds m a w : cstr m a w -> holds m a w.
Proof. intros [H _]. by apply holds_app in H as [H _]. Qed.

Lemma cstr_strnlen m a w max : cstr m a w -> length w < max -> strnlen m (PMem a) max = length w.
Proof. intros [H1 H2] Hl. by apply strnlen_spec. Qed.

Lemma cstr_first m a w : cstr m a w -> w <> [] \/ rd m (PMem a) 0 <> SLASH.
Proof.
  destruct w; [|by left]. intros [H _]. right. by rewrite (holds_rd _ _ _ _ H).
Qed.

Lemma cstr_toslice m a w : cstr m a w -> toslice m (PMem a) = mkslice (PMem a) (length w).
Proof.
  intros H. unfold toslice, strlen. rewrite (cstr_strnlen m a w); [done | done|].
  apply cstr_length in H. lia.
Qed.

(** A buffer that holds [w] and is terminated there is a string. *)
Lemma terminated m b w :
  contents m b = w -> m !! (bdata b + size b) = Some NUL -> length w = size b ->
  holds m (bdata b) (w ++ [NUL]).
Proof.
  intros Hc Hn Hl. apply holds_app. split; [by apply contents_holds|].
  apply holds_cons. rewrite Hl. split; [done | apply holds_nil].
Qed.

(** Joining components adds no character but the separator. *)
Lemma join_from_chars first cs x :
  x ∈ join_from first cs -> x = SLASH \/ exists c, c ∈ cs /\ x ∈ c.
Proof.
  revert first. induction cs as [|c cs IH]; intros first; simpl.
  - by intros ?%elem_of_nil.
  - rewrite !elem_of_app. intros [Hx|[Hx|Hx]].
    + left. destruct first; [by apply elem_of_nil in Hx | by apply list_elem_of_singleton].
    + right. exists c. split; [by left | done].
    + destruct (IH _ Hx) as [->|(c' & Hc' & Hxc)]; [by left|].
      right. exists c'. split; [by right | done].
Qed.

Lemma path_components_chars w c x : c ∈ path_components w -> x ∈ c -> x ∈ w.
Proof.
  destruct (get_path_components_spec w 0 w) as (comps & _ & <- & Hsp).
  { by intros i d. } { lia. }
  intros (sl & -> & Hsl)%list_elem_of_fmap Hxc.
  apply spaced_data in Hsp. rewrite Forall_forall in Hsp.
  destruct (Hsp _ Hsl) as [y Hy]. unfold bytes, chars in Hxc. rewrite Hy in Hxc.
  apply elem_of_take in Hxc as (k & Hk & _). rewrite lookup_drop in Hk.
  by apply list_elem_of_lookup_2 in Hk.
Qed.

(** Normalising adds no character but dots and slashes. *)
Lemma normal_form_chars w x : x ∈ normal_form w -> x ∈ w \/ x = SLASH \/ x = DOT.
Proof.
  unfold normal_form. destruct (path_components w) as [|c cs] eqn:E.
  - intros ->%list_elem_of_singleton. auto.
  - rewrite <- E. intros [->|(c' & Hc' & Hx)]%join_from_chars; [auto|].
    left. by eapply path_components_chars.
Qed.

Lemma normal_form_NUL w : NUL ∉ w -> NUL ∉ normal_form w.
Proof. intros H [?|[?|?]]%normal_form_chars; done. Qed.

Lemma normalize_spec m a w buf buf_size :
  cstr m a w -> length w < TC_PATH_MAX ->
  1 < buf_size -> buf + buf_size <= length m -> apart a (length w) buf ->
  length (normal_form w) < buf_size ->
  exists m', tc_path_normalize m (PMem a) buf buf_size =
      Ok (Z.of_nat (length (normal_form w)), m') /\
    cstr m' buf (normal_form w) /\ length m' = length m /\
    (forall x, x < buf \/ buf + length (normal_form w) < x -> m' !! x = m !! x).
Proof.
  intros Hs Hmax Hbs Hbuf Hap Hfit. unfold tc_path_normalize.
  rewrite decide_False by done. rewrite (cstr_strnlen m a w) by done.
  rewrite (proj2 (Nat.leb_gt _ _) Hmax), (proj2 (Nat.leb_gt _ _) Hbs). cbn [orb].
  pose proof (cstr_length _ _ _ Hs) as Hlen.
  destruct (normalize_s_spec m a w (BUF_INITIALIZER buf buf_size))
    as (m1 & -> & Hw1 & Hl1 & Hct1 & Hf1).
  { by apply cstr_holds. } { lia. } { split; simpl; lia. }
  { simpl. by rewrite Nat.add_0_r. } { by apply (cstr_first m a w). } { simpl. lia. }
  cbn [obind]. destruct (append_null_spec m1 _ Hw1) as (m2 & -> & [Hl2 _] & Hct2 & Hn2 & Hf2).
  simpl in *. exists m2. split_and!; [done | | congruence |].
  - split; [|apply normal_form_NUL; apply Hs].
    eapply (terminated _ (mkbuf buf_size (length (normal_form w)) buf)); simpl; [|auto|done].
    unfold with_size in Hct1, Hct2. simpl in *. by rewrite Hct2, Hct1.
  - intros x Hx. rewrite Hf2 by lia. apply Hf1. lia.
Qed.

(** ** Joining *)

(** What [tc_path_append_impl] makes of the text in the buffer. *)
Definition append_text (acc w : list ascii) : list ascii :=
  match w, acc with
  | [], _ => acc
  | _, [] => w
  | _, _ => acc ++ SLASH :: w
  end.

Lemma append_text_length acc w :
  length (append_text acc w) =
  length acc + match w with [] => 0 | _ => length w + if length acc =? 0 then 0 else 1 end.
Proof.
  destruct w, acc; simpl; rewrite ?length_app; simpl; lia.
Qed.

Lemma append_text_app acc w :
  w <> [] -> append_text acc w = acc ++ (if length acc =? 0 then [] else [SLASH]) ++ w.
Proof. by destruct w, acc. Qed.

(** The memory at [a] with [n] characters is outside the buffer's unused part. *)
Definition outside (a n : nat) (b : buf_t) : Prop :=
  a + n <= bdata b + size b \/ bdata b + capacity b <= a.

Lemma append_impl_spec m b a w :
  holds m a w -> a + length w <= length m -> buf_wf m b -> int_sized (capacity b) -> outside a (length w) b ->
  let t := append_text (contents m b) w in
  length t <= capacity b ->
  exists m', tc_path_append_impl m b (mkslice (PMem a) (length w)) =
      Ok (0%Z, m', with_size b (length t)) /\
    buf_wf m' (with_size b (length t)) /\ length m' = length m /\
    contents m' (with_size b (length t)) = t /\
    (forall x, x < bdata b + size b \/ bdata b + capacity b <= x -> m' !! x = m !! x).
Proof.
  intros Hw Hm Hwf Hcap Hout t Hfit. unfold tc_path_append_impl. cbn [sl_size].
  assert (length (contents m b) = size b) as Hc.
  { unfold contents. rewrite length_bytes; [done|]. destruct Hwf. unfold in_mem. simpl. lia. }
  subst t. rewrite append_text_length, Hc in *.
  destruct (decide (w = [])) as [->|Hne].
  { simpl in *. rewrite Nat.add_0_r. exists m. by destruct b. }
  rewrite append_text_app, Hc by done.
  assert (length w <> 0) as Hnz by (by destruct w).
  rewrite (proj2 (Nat.eqb_neq _ _) Hnz).
  replace (match w with [] => 0 | _ => length w + (if size b =? 0 then 0 else 1) end)
    with (length w + (if size b =? 0 then 0 else 1)) in * by (by destruct w).
  destruct (buf_remaining_small b (proj2 Hwf) Hcap) as [-> ->].
  rewrite (proj2 (Z.ltb_ge _ _)) by (destruct (size b =? 0); lia).
  destruct (append_one m b (size b =? 0) (mkslice (PMem a) (length w)) (bdata b + size b))
    as (m1 & m' & E1 & E2 & Hw' & Hl' & Hct' & Hf').
  { done. } { unfold in_mem. simpl. lia. } { lia. }
  { intros x [= <-]. simpl. destruct Hout; [by left | right; destruct (size b =? 0); lia]. }
  { simpl. destruct (size b =? 0); simpl; lia. }
  exists m'.
  replace (if negb (size b =? 0) then _ else _) with
    (if size b =? 0 then Ok (m, b)
     else let! (_, m, b) := buf_append_char m b SLASH in Ok (m, b))
    by (by destruct (size b =? 0)).
  replace (size b + (length w + (if size b =? 0 then 0 else 1)))
    with (size b + ((if size b =? 0 then 0 else 1) + length w)) by lia.
  simpl in E2, Hw', Hct', Hf'. rewrite E1. cbn [obind]. rewrite E2.
  split_and!; try done.
  - rewrite Hct'. unfold bytes. simpl sl_data. simpl sl_size. by rewrite (holds_chars m a w).
  - intros x Hx. apply Hf'. destruct (size b =? 0); simpl in *; lia.
Qed.

Lemma append_text_mono acc w : length acc <= length (append_text acc w).
Proof. rewrite append_text_length. lia. Qed.

Lemma append_texts_mono acc ws : length acc <= length (foldl append_text acc ws).
Proof.
  revert acc. induction ws as [|w ws IH]; intros acc; simpl; [done|].
  etrans; [apply (append_text_mono _ w) | apply IH].
Qed.

Lemma append_text_chars acc w x : x ∈ append_text acc w -> x ∈ acc \/ x ∈ w \/ x = SLASH.
Proof.
  destruct w as [|d w]; [by left|]. destruct acc as [|c acc]; simpl; [by right; left|].
  rewrite elem_of_cons, elem_of_app, !elem_of_cons. tauto.
Qed.

Lemma append_texts_chars acc ws x :
  x ∈ foldl append_text acc ws -> x = SLASH \/ x ∈ acc \/ exists w, w ∈ ws /\ x ∈ w.
Proof.
  revert acc. induction ws as [|w ws IH]; intros acc; simpl; [by right; left|].
  intros [->|[Hx|(w' & Hw' & Hx)]]%IH; [by left | |].
  - apply append_text_chars in Hx as [Hx|[Hx| ->]]; [auto | | auto].
    right. right. exists w. split; [by left | done].
  - right. right. exists w'. split; [by right | done].
Qed.

(** Appending a path walks on from where the first one leads. *)
Lemma resolve_append_text cwd acc w :
  acc <> [] -> resolve cwd (append_text acc w) = walks (resolve cwd acc) (split_slash w).
Proof.
  intros Hacc. destruct w as [|d w]; [done|]. destruct acc as [|c acc]; [done|].
  cbn [append_text]. unfold resolve.
  replace (is_abs ((c :: acc) ++ SLASH :: d :: w)) with (is_abs (c :: acc)) by done.
  by rewrite split_slash_app_slash, walks_app.
Qed.

(** The strings [ws] are stored at the addresses [ps], outside [buf..buf+n). *)
Definition args (m : list ascii) (ps : list ptr) (ws : list (list ascii)) (buf n : nat) : Prop :=
  Forall2 (fun p w => exists a, p = PMem a /\ cstr m a w /\
                        (a + length w < buf \/ buf + n <= a)) ps ws.

Lemma cstr_frame m m' a w :
  cstr m a w -> (forall i, i <= length w -> m' !! (a + i) = m !! (a + i)) -> cstr m' a w.
Proof.
  intros [H Hn] Hm. split; [|done]. intros i c Hi.
  rewrite Hm; [by apply H|]. apply lookup_lt_Some in Hi.
  rewrite length_app in Hi. simpl in Hi. lia.
Qed.

Lemma args_frame m m' ps ws buf n :
  args m ps ws buf n -> (forall x, x < buf \/ buf + n <= x -> m' !! x = m !! x) ->
  args m' ps ws buf n.
Proof.
  intros H Hm. eapply Forall2_impl; [exact H|]. intros p w (a & -> & Hs & Ho).
  exists a. split_and!; [done | | done]. eapply cstr_frame; [done|]. intros. apply Hm. lia.
Qed.

Lemma joinall_loop_spec m b ps ws :
  args m ps ws (bdata b) (capacity b) -> buf_wf m b -> int_sized (capacity b) ->
  let t := foldl append_text (contents m b) ws in
  length t <= capacity b ->
  exists m', joinall_loop m b ps = Ok (inr (m', with_size b (length t))) /\
    buf_wf m' (with_size b (length t)) /\ length m' = length m /\
    contents m' (with_size b (length t)) = t /\
    (forall x, x < bdata b \/ bdata b + capacity b <= x -> m' !! x = m !! x).
Proof.
  revert m b ws. induction ps as [|p ps IH]; intros m b ws Hargs Hwf Hcap t Hfit; subst t.
  - inversion Hargs; subst. simpl. exists m.
    replace (length (contents m b)) with (size b); [by destruct b|].
    destruct Hwf. unfold contents. rewrite length_bytes; [done|]. unfold in_mem. simpl. lia.
  - inversion Hargs as [|? w ? ws' (a & -> & Hs & Hout) Hargs']; subst.
    cbn [joinall_loop foldl] in *. rewrite (cstr_toslice m a w Hs).
    pose proof (append_texts_mono (append_text (contents m b) w) ws') as Hmono.
    pose proof (cstr_length _ _ _ Hs) as Hl.
    destruct (append_impl_spec m b a w) as (m1 & -> & Hw1 & Hl1 & Hct1 & Hf1);
      [by apply cstr_holds | lia | done | done | unfold outside; lia | lia |].
    cbn [obind]. change (0 <? 0)%Z with false. cbn iota.
    destruct (IH m1 (with_size b (length (append_text (contents m b) w))) ws')
      as (m' & E & Hw & Hl' & Hct & Hf).
    { simpl. eapply args_frame; [exact Hargs'|]. intros. apply Hf1. destruct Hwf. lia. }
    { done. } { done. } { by rewrite Hct1. }
    rewrite Hct1 in *. unfold with_size in *. simpl in *. exists m'.
    split_and!; [done | done | congruence | done|].
    intros x Hx. rewrite Hf by lia. apply Hf1. destruct Hwf. lia.
Qed.

(** Joining any number of paths, when everything fits. *)
(** What [_tc_path_joinall_impl] does with the joined text. *)
Lemma joinall_finish m t buf buf_size :
  buf_wf m (mkbuf buf_size (length t) buf) -> contents m (mkbuf buf_size (length t) buf) = t ->
  NUL ∉ t -> length t < buf_size -> 1 < buf_size -> length t < TC_PATH_MAX ->
  exists m', (let! (ok, m, b) := buf_append_null m (mkbuf buf_size (length t) buf) in
              if negb ok then Ok ((- ENOBUFS)%Z, m) else tc_path_normalize m (PMem buf) buf buf_size) =
      Ok (Z.of_nat (length (normal_form t)), m') /\
    cstr m' buf (normal_form t) /\ length m' = length m /\
    (forall x, x < buf \/ buf + buf_size <= x -> m' !! x = m !! x).
Proof.
  intros Hw Hct Hnul Hfit Hbs Hmax.
  destruct (append_null_spec m _ Hw) as (m2 & -> & [Hl2 _] & Hct2 & Hn2 & Hf2).
  cbn [obind size capacity]. rewrite (proj2 (Nat.ltb_lt _ _) Hfit). cbn [negb].
  destruct Hw as [? Hbuf]. cbn [capacity size bdata] in *.
  destruct (normalize_spec m2 buf t buf buf_size) as (m' & E & Hs & Hl & Hf); try done.
  { split; [|done]. eapply (terminated m2 (mkbuf buf_size (length t) buf)); simpl; auto.
    by rewrite Hct2. }
  { lia. } { left. lia. }
  { pose proof (normal_form_length t). lia. }
  exists m'. split_and!; [done | done | congruence |].
  intros x Hx. pose proof (normal_form_length t). by rewrite Hf, Hf2 by (simpl; lia).
Qed.

Lemma args_NUL m ps ws buf n acc :
  args m ps ws buf n -> NUL ∉ acc -> NUL ∉ foldl append_text acc ws.
Proof.
  intros Hargs Hacc [?|[?|(w & Hw & Hx)]]%append_texts_chars; [done | done|].
  eapply Forall2_Forall_r in Hargs; [|apply Forall_forall; intros ? ? ? (? & _ & [_ H] & _); exact H].
  rewrite Forall_forall in Hargs. by eapply Hargs.
Qed.

Lemma joinall_spec m ps ws buf buf_size :
  args m ps ws buf buf_size -> buf + buf_size <= length m -> int_sized buf_size ->
  let t := foldl append_text [] ws in
  length t < buf_size -> 1 < buf_size -> length t < TC_PATH_MAX ->
  exists m', tc_path_joinall_impl m buf buf_size ps = Ok (Z.of_nat (length (normal_form t)), m') /\
    cstr m' buf (normal_form t) /\ length m' = length m /\
    (forall x, x < buf \/ buf + buf_size <= x -> m' !! x = m !! x).
Proof.
  intros Hargs Hbuf Hcap t Hfit Hbs Hmax. unfold tc_path_joinall_impl.
  destruct (joinall_loop_spec m (BUF_INITIALIZER buf buf_size) ps ws)
    as (m1 & -> & Hw1 & Hl1 & Hct1 & Hf1); [done | split; simpl; lia | done | change (length t <= buf_size); lia |].
  cbn [obind]. change (contents m (BUF_INITIALIZER buf buf_size)) with (@nil ascii) in *.
  fold t in Hct1, Hw1 |- *.
  destruct (joinall_finish m1 t buf buf_size) as (m' & E & Hs & Hl & Hf); try done.
  { eapply args_NUL; [done | by intros ?%elem_of_nil]. }
  exists m'. split_and!; [exact E | done | congruence |].
  intros x Hx. rewrite Hf by done. by apply Hf1.
Qed.

(** [tc_path_join] up to the terminator its last line writes, which goes where the
    joined path ended before it was normalised. *)
Lemma join_spec m a1 w1 a2 w2 buf buf_size :
  args m [PMem a1; PMem a2] [w1; w2] buf buf_size -> buf + buf_size <= length m -> int_sized buf_size ->
  length w1 < TC_PATH_MAX -> length w2 < TC_PATH_MAX ->
  let t := append_text w1 w2 in
  length t < buf_size -> 1 < buf_size -> length t < TC_PATH_MAX ->
  exists m' m'', tc_path_join m (PMem a1) (PMem a2) buf buf_size =
      Ok (Z.of_nat (length (normal_form t)), m'') /\
    cstr m' buf (normal_form t) /\ m'' !! (buf + length t) = Some NUL /\
    (forall x, x <> buf + length t -> m'' !! x = m' !! x) /\
    (forall x, x < buf \/ buf + buf_size <= x -> m'' !! x = m !! x).
Proof.
  intros Hargs Hbuf Hcap H1 H2 t Hfit Hbs Hmax. unfold tc_path_join.
  apply Forall2_cons in Hargs as [(x1 & [= <-] & Hs1 & Ho1) Hargs].
  apply Forall2_cons in Hargs as [(x2 & [= <-] & Hs2 & Ho2) _].
  pose proof (append_text_mono w1 w2) as Hmono. fold t in Hmono.
  pose proof (cstr_length _ _ _ Hs1). pose proof (cstr_length _ _ _ Hs2).
  rewrite (cstr_strnlen m a1 w1), (cstr_strnlen m a2 w2) by done.
  rewrite (proj2 (Nat.leb_gt _ _) H1), (proj2 (Nat.leb_gt _ _) H2). cbn [orb].
  assert (append_text (contents m (BUF_INITIALIZER buf buf_size)) w1 = w1) as Et1
    by (by destruct w1).
  unfold tc_path_join_s.
  destruct (append_impl_spec m (BUF_INITIALIZER buf buf_size) a1 w1)
    as (m1 & -> & Hw1 & Hl1 & Hct1 & Hf1);
    [by apply cstr_holds | lia | split; simpl; lia | done | unfold outside; simpl; lia
    | rewrite Et1; simpl; lia |].
  rewrite Et1 in *. unfold with_size in *. cbn [obind] in *. simpl in *.
  destruct (append_impl_spec m1 (mkbuf buf_size (length w1) buf) a2 w2)
    as (m2 & -> & Hw2 & Hl2 & Hct2 & Hf2);
    [eapply cstr_holds, cstr_frame; [exact Hs2 | intros; apply Hf1; lia]
    | lia | done | done | unfold outside; simpl; lia | rewrite Hct1; fold t; simpl; lia |].
  rewrite Hct1 in *. unfold with_size in *. cbn [obind] in *. simpl in *. fold t in Hw2, Hct2 |- *.
  unfold asstr.
  destruct (append_null_spec m2 _ Hw2) as (m3 & -> & [Hl3 _] & Hct3 & Hn3 & Hf3).
  cbn [obind size capacity bdata] in *. rewrite (proj2 (Nat.ltb_lt _ _) Hfit).
  assert (NUL ∉ t) as Hnul.
  { intros [?|[?|?]]%append_text_chars; [by destruct Hs1 | by destruct Hs2 | done]. }
  destruct (normalize_spec m3 buf t buf buf_size) as (m4 & E & Hs & Hl4 & Hf4); try done.
  { split; [|done]. eapply (terminated m3 (mkbuf buf_size (length t) buf)); simpl; auto.
    by rewrite Hct3. }
  { lia. } { left. lia. } { pose proof (normal_form_length t). lia. }
  rewrite E. cbn [obind].
  destruct (append_null_spec m4 (mkbuf buf_size (length t) buf))
    as (m5 & -> & [Hl5 _] & _ & Hn5 & Hf5); [split; simpl; lia|].
  exists m4, m5. cbn [obind size capacity bdata] in *. split_and!; [done | done | auto | done |].
  intros x Hx. pose proof (normal_form_length t).
  rewrite Hf5, Hf4, Hf3, Hf2, Hf1 by lia. done.
Qed.

(** ** Rebasing *)

Lemma slice_eqb_spec m x y :
  in_mem m x -> in_mem m y -> slice_eqb m x y = bool_decide (bytes m x = bytes m y).
Proof.
  intros Hx Hy. unfold slice_eqb. case_bool_decide as E; [|by rewrite andb_false_r].
  by rewrite <- (length_bytes m x Hx), <- (length_bytes m y Hy), E, Nat.eqb_refl.
Qed.

Lemma common_prefix_spec m c1 c2 :
  Forall (in_mem m) c1 -> Forall (in_mem m) c2 ->
  common_prefix m c1 c2 = lcp (bytes m <$> c1) (bytes m <$> c2).
Proof.
  intros H1. revert c2. induction H1 as [|x c1 Hx _ IH]; intros c2 H2; [done|].
  destruct H2 as [|y c2 Hy H2]; [done|]. cbn [common_prefix fmap list_fmap lcp].
  rewrite slice_eqb_spec by done. case_bool_decide; case_decide; try done.
  f_equal. by apply IH.
Qed.

(** [append_sized] appends as [append_comps] does and counts what it appends. *)
Lemma append_sized_comps m b (first : bool) n comps :
  size b <= capacity b -> int_sized (capacity b) ->
  size b + total_size comps + (if first then pred (length comps) else length comps) <= capacity b ->
  append_sized m b first n comps =
  (let! (m, b') := append_comps m b first comps in
   Ok ((n + Z.of_nat (total_size comps
                      + (if first then pred (length comps) else length comps)))%Z, m, b')).
Proof.
  revert m b first n. induction comps as [|c comps IH]; intros m b first n Hb Hcap Hfit.
  { simpl. destruct first; by rewrite Z.add_0_r. }
  unfold total_size in *. rewrite fmap_cons in *.
  cbn [append_sized append_comps sum_list_with sum_list length id] in *.
  assert (forall m b (k : Z), size b <= capacity b -> int_sized (capacity b) ->
    size b + (sl_size c + sum_list (sl_size <$> comps)) + length comps <= capacity b ->
    (let '(r, m, b) := buf_append_slice m b c in append_sized m b false (k + r)%Z comps) =
    (let! (m, b') := (let '(_, m, b) := buf_append_slice m b c in append_comps m b false comps) in
     Ok ((k + Z.of_nat (sl_size c + sum_list (sl_size <$> comps) + length comps))%Z, m, b')))
    as Hone.
  { intros m0 b0 k Hb0 Hc0 Hk. unfold buf_append_slice, int_sized in *.
    rewrite (proj2 (Nat.ltb_ge _ _)), s32_small by lia.
    rewrite IH by (unfold with_size; simpl; lia).
    destruct (append_comps _ _ _ _) as [[? ?]| |]; simpl; try done. do 3 f_equal. lia. }
  destruct first.
  - cbn [obind]. rewrite Hone by (done || (simpl in *; lia)). by destruct (buf_append_slice m b c) as [[? ?] ?].
  - unfold buf_append_char. rewrite (proj2 (Nat.leb_gt _ _)) by lia. cbn [obind].
    rewrite Hone by (done || (simpl; lia)).
    destruct (buf_append_slice _ _ c) as [[? ?] ?].
    destruct (append_comps _ _ _ _) as [[? ?]| |]; simpl; try done. do 3 f_equal. lia.
Qed.

Lemma readable_outside p0 top p (first : bool) comps :
  Forall (fun c => forall x, sl_data c = PMem x -> x + sl_size c <= p0 \/ top <= x) comps ->
  p + total_size comps + (if first then pred (length comps) else length comps) <= top ->
  readable p0 p first comps.
Proof.
  intros H. revert p first. induction H as [|c comps Hc _ IH]; intros p first; [done|].
  unfold total_size in *. rewrite fmap_cons. simpl. intros Hp. split.
  - intros x Hx. destruct (Hc x Hx); [by left | right; destruct first; lia].
  - apply IH. destruct first; simpl in *; lia.
Qed.

Lemma path_components_nonempty w c : c ∈ path_components w -> c <> [].
Proof.
  assert (forall abs, Forall (fun c => c <> []) (norm abs w)) as Hn.
  { intros abs. destruct (norm_normal abs w) as (k & names & -> & Hp & _).
    apply Forall_app. split; [by apply Forall_replicate|].
    eapply Forall_impl; [exact Hp|]. by intros ? (? & _). }
  unfold path_components. specialize (Hn (is_abs w)). rewrite Forall_forall in Hn.
  destruct (is_abs w); [|by apply Hn].
  destruct (norm true w) as [|d ds].
  - intros ->%list_elem_of_singleton. done.
  - intros [->|Hc]%elem_of_cons; [done|]. apply Hn. by right.
Qed.

Lemma spaced_within lo comps hi :
  spaced lo comps hi ->
  Forall (fun c => forall x, sl_data c = PMem x -> lo <= x /\ x + sl_size c < hi) comps.
Proof.
  revert lo. induction comps as [|c comps IH]; intros lo; [constructor|].
  intros (x & Hd & Hx & Hsp). constructor.
  - intros y. rewrite Hd. intros [= <-]. apply spaced_le in Hsp. lia.
  - apply IH in Hsp. eapply Forall_impl; [exact Hsp|].
    intros c' Hc' y Hy. specialize (Hc' y Hy). lia.
Qed.

(** The components [tc_path_rebase_s] appends. *)
Lemma rel_slices m a1 w1 a2 w2 :
  holds m a1 w1 -> a1 + length w1 <= length m -> holds m a2 w2 -> a2 + length w2 <= length m ->
  exists c1 c2, tc_get_path_components m (mkslice (PMem a1) (length w1)) = Ok c1 /\
    tc_get_path_components m (mkslice (PMem a2) (length w2)) = Ok c2 /\
    let l := common_prefix m c1 c2 in
    let rel := replicate (length c1 - l) DOTDOT ++ drop l c2 in
    Forall (in_mem m) rel /\ bytes m <$> rel = rel_comps w1 w2 /\
    Forall (fun c => forall x, sl_data c = PMem x ->
              a2 <= x /\ x + sl_size c <= a2 + length w2) rel.
Proof.
  intros Hs1 Hm1 Hs2 Hm2.
  destruct (get_path_components_spec m a1 w1 Hs1 Hm1) as (c1 & E1 & Hb1 & Hsp1).
  destruct (get_path_components_spec m a2 w2 Hs2 Hm2) as (c2 & E2 & Hb2 & Hsp2).
  assert (Forall (in_mem m) c1) as Hi1 by (eapply spaced_in_mem; [done | lia]).
  assert (Forall (in_mem m) c2) as Hi2 by (eapply spaced_in_mem; [done | lia]).
  exists c1, c2. cbv zeta. rewrite common_prefix_spec by done. split_and!; [done | done | | |].
  - apply Forall_app. split; [apply Forall_replicate; unfold in_mem; simpl; lia|].
    by apply Forall_drop.
  - unfold rel_comps. rewrite <- Hb1, <- Hb2, fmap_app, fmap_replicate, fmap_drop, length_fmap.
    done.
  - apply Forall_app. split; [by apply Forall_replicate|]. apply Forall_drop.
    apply spaced_within in Hsp2. eapply Forall_impl; [exact Hsp2|].
    intros c Hc x Hx. specialize (Hc x Hx). lia.
Qed.

Lemma elem_of_drop_in {A} (x : A) n l : x ∈ drop n l -> x ∈ l.
Proof. rewrite <- (take_drop n l) at 2. rewrite elem_of_app. auto. Qed.

Lemma rel_path_chars w1 w2 x : x ∈ rel_path w1 w2 -> x ∈ w2 \/ x = SLASH \/ x = DOT.
Proof.
  unfold rel_path. destruct (rel_comps w1 w2) as [|c cs] eqn:E.
  - intros ->%list_elem_of_singleton. auto.
  - rewrite <- E. intros [->|(c' & Hc' & Hx)]%join_from_chars; [auto|].
    unfold rel_comps in Hc'. apply elem_of_app in Hc' as [Hc'|Hc'].
    + apply elem_of_replicate in Hc' as [-> _].
      apply elem_of_cons in Hx as [->| ->%list_elem_of_singleton]; auto.
    + left. eapply path_components_chars; [by eapply elem_of_drop_in | done].
Qed.

Lemma rel_path_pos w1 w2 :
  rel_comps w1 w2 <> [] -> 0 < length (join (rel_comps w1 w2)).
Proof.
  destruct (rel_comps w1 w2) as [|d ds] eqn:E; [done|]. intros _.
  unfold join. simpl. rewrite length_app.
  assert (d <> []) as Hd; [|destruct d; simpl; [done | lia]].
  assert (d ∈ rel_comps w1 w2) as Hdin by (rewrite E; by left).
  unfold rel_comps in Hdin. apply elem_of_app in Hdin as [Hd|Hd].
  - by apply elem_of_replicate in Hd as [-> _].
  - eapply path_components_nonempty. by eapply elem_of_drop_in.
Qed.

(** The writing part of [tc_path_rebase_s]. *)
Lemma rebase_append m w1 w2 rel b :
  buf_wf m b -> int_sized (capacity b) -> size b = 0 -> Forall (in_mem m) rel -> bytes m <$> rel = rel_comps w1 w2 ->
  Forall (fun c => forall x, sl_data c = PMem x ->
            x + sl_size c <= bdata b \/ bdata b + capacity b <= x) rel ->
  let n := length (rel_path w1 w2) in
  n <= capacity b ->
  (buf_remaining b <? s32 (Z.of_nat (total_size rel) + (Z.of_nat (length rel) - 1)))%Z = false /\
  exists m1, (let! (n, m, b) := append_sized m b true 0 rel in
      if (u64 n =? 0)%Z then let! (r, m, b) := buf_append_char m b DOT in Ok (r, m, b)
      else Ok (s32 n, m, b)) = Ok (Z.of_nat n, m1, with_size b n) /\
    buf_wf m1 (with_size b n) /\ length m1 = length m /\
    contents m1 (with_size b n) = rel_path w1 w2 /\
    (forall x, x < bdata b \/ bdata b + capacity b <= x -> m1 !! x = m !! x).
Proof.
  intros Hwf Hcap H0 Hin Hb Hloc n Hfit. subst n.
  pose proof (join_from_sizes m true rel Hin) as Hsz. rewrite Hb in Hsz.
  assert (contents m b = []) as Hc0 by (unfold contents, asslice, bytes; by rewrite H0).
  pose proof (rel_path_pos w1 w2) as Hpos.
  destruct (buf_remaining_small b (proj2 Hwf) Hcap) as [-> _]. unfold int_sized in Hcap. rewrite H0.
  unfold rel_path, join in *. destruct (rel_comps w1 w2) as [|d ds] eqn:Erel.
  - apply fmap_nil_inv in Hb as ->. change (total_size []) with 0. simpl in *.
    split; [apply Z.ltb_ge; vm_compute (s32 _); lia|].
    destruct (append_char_fits m b DOT Hwf) as (m1 & -> & [Hl Ht] & Hw & Hct & Hf); [lia|].
    rewrite H0 in *. exists m1. split_and!; try done.
    + by rewrite Hct, Hc0.
    + intros; apply Ht; lia.
  - rewrite <- Erel in *. specialize (Hpos ltac:(by rewrite Erel)).
    split; [apply Z.ltb_ge; rewrite s32_small; simpl in *; lia|].
    destruct (append_comps_spec m b true rel (bdata b)) as (m1 & E & Hw & Hl & Hct & Hf);
      try done; [lia | | rewrite Hb; lia |].
    { apply (readable_outside _ (bdata b + capacity b)); [done | simpl in *; lia]. }
    rewrite append_sized_comps by (unfold int_sized; simpl in *; lia). rewrite E. cbn [obind].
    rewrite Hb, H0, Hc0 in *.
    rewrite <- Hsz, Z.add_0_l, u64_small, s32_small, (proj2 (Z.eqb_neq _ _)) by lia.
    exists m1. split_and!; try done. intros x Hx. apply Hf. lia.
Qed.

Lemma rebase_spec m a1 w1 a2 w2 buf buf_size :
  cstr m a1 w1 -> cstr m a2 w2 -> (a2 + length w2 <= buf \/ buf + buf_size <= a2) ->
  buf + buf_size <= length m -> int_sized buf_size -> length (rel_path w1 w2) < buf_size ->
  exists m', tc_path_rebase m (PMem a1) (PMem a2) buf buf_size =
      Ok (Z.of_nat (length (rel_path w1 w2)), m') /\
    cstr m' buf (rel_path w1 w2) /\ length m' = length m /\
    (forall x, x < buf \/ buf + buf_size <= x -> m' !! x = m !! x).
Proof.
  intros Hs1 Hs2 Hout Hbuf Hcap Hfit. unfold tc_path_rebase, tc_path_rebase_s.
  rewrite (cstr_toslice m a1 w1), (cstr_toslice m a2 w2) by done.
  pose proof (cstr_length _ _ _ Hs1). pose proof (cstr_length _ _ _ Hs2).
  destruct (rel_slices m a1 w1 a2 w2) as (c1 & c2 & -> & -> & Hin & Hb & Hloc);
    [by apply cstr_holds | lia | by apply cstr_holds | lia |].
  cbn [obind]. cbv zeta in Hin, Hb, Hloc |- *.
  set (b := BUF_INITIALIZER buf buf_size).
  destruct (fun Hwf => rebase_append m w1 w2 _ b Hwf Hcap eq_refl Hin Hb)
    as (-> & m1 & E & Hw & Hl & Hct & Hf).
  { split; simpl; lia. }
  { eapply Forall_impl; [exact Hloc|]. intros c Hc x Hx. specialize (Hc x Hx). simpl. lia. }
  { simpl. lia. }
  rewrite E. cbn [obind].
  destruct (append_null_spec m1 _ Hw) as (m2 & -> & [Hl2 _] & Hct2 & Hn2 & Hf2).
  exists m2. simpl in *. split_and!; [done | | congruence |].
  - split.
    + eapply (terminated m2 (with_size b (length (rel_path w1 w2)))); simpl; auto.
      by rewrite Hct2.
    + intros [?|[?|?]]%rel_path_chars; [by destruct Hs2 | done | done].
  - intros x Hx. rewrite Hf2 by lia. by apply Hf.
Qed.

(** A relative path that does not fit in the buffer is an error; otherwise the buffer holds it. *)
Lemma rebase_s_spec m a1 w1 a2 w2 buf buf_size :
  holds m a1 w1 -> a1 + length w1 <= length m -> holds m a2 w2 -> a2 + length w2 <= length m ->
  (a2 + length w2 <= buf \/ buf + buf_size <= a2) -> buf + buf_size <= length m -> 0 < buf_size ->
  int_sized buf_size -> int_sized (length (rel_path w1 w2)) ->
  exists n m' b', tc_path_rebase_s m (mkslice (PMem a1) (length w1)) (mkslice (PMem a2) (length w2))
      (BUF_INITIALIZER buf buf_size) = Ok (n, m', b') /\
    ((n < 0)%Z /\ buf_size < length (rel_path w1 w2) \/
     (0 <= n)%Z /\ bytes m' (asslice b') = rel_path w1 w2).
Proof.
  intros Hs1 Hm1 Hs2 Hm2 Hout Hbuf Hpos Hcap Hrel. unfold tc_path_rebase_s.
  destruct (rel_slices m a1 w1 a2 w2 Hs1 Hm1 Hs2 Hm2) as (c1 & c2 & -> & -> & Hin & Hb & Hloc).
  cbn [obind]. cbv zeta in Hin, Hb, Hloc |- *.
  set (rel := replicate _ DOTDOT ++ _) in *. set (b := BUF_INITIALIZER buf buf_size).
  destruct (decide (length (rel_path w1 w2) <= buf_size)) as [Hfit|Hfit].
  - destruct (fun Hwf => rebase_append m w1 w2 rel b Hwf Hcap eq_refl Hin Hb)
      as (-> & m1 & E & Hw & Hl & Hct & Hf).
    { split; simpl; lia. }
    { eapply Forall_impl; [exact Hloc|]. intros c Hc x Hx. specialize (Hc x Hx). simpl. lia. }
    { simpl. lia. }
    rewrite E. exists (Z.of_nat (length (rel_path w1 w2))), m1, (with_size b (length (rel_path w1 w2))).
    split; [done|]. right. split; [lia | done].
  - pose proof (join_from_sizes m true rel Hin) as Hsz. rewrite Hb in Hsz.
    unfold rel_path in Hfit, Hrel. destruct (rel_comps w1 w2) as [|d ds] eqn:Erel; [simpl in Hfit; lia|].
    destruct rel as [|c rel']; [done|]. unfold join in Hfit, Hrel. cbn [length pred] in Hsz.
    destruct (buf_remaining_small b (Nat.le_0_l _) Hcap) as [-> _]. unfold int_sized in Hrel.
    rewrite s32_small, (proj2 (Z.ltb_lt _ _)) by (simpl size; simpl capacity; cbn [length]; lia).
    exists (-1)%Z, m, b. split; [done|]. left. split; [lia|]. unfold rel_path. rewrite Erel. unfold join. lia.
Qed.

(** ** Depth and distance *)

Lemma get_components_str m a w :
  cstr m a w ->
  exists comps, tc_get_path_components m (toslice m (PMem a)) = Ok comps /\
    bytes m <$> comps = path_components w /\ Forall (in_mem m) comps.
Proof.
  intros Hs. pose proof (cstr_length _ _ _ Hs). rewrite (cstr_toslice m a w) by done.
  destruct (get_path_components_spec m a w) as (c & E & Hb & Hsp);
    [by apply cstr_holds | lia |].
  exists c. split_and!; [done | done|]. eapply spaced_in_mem; [done | lia].
Qed.

Lemma is_root_spec m comps :
  Forall (in_mem m) comps -> is_root m comps = bool_decide (bytes m <$> comps = [[SLASH]]).
Proof.
  intros H. destruct H as [|c [|c' comps] Hc H];
    [by rewrite bool_decide_false | | by rewrite bool_decide_false]. cbn [is_root fmap list_fmap].
  rewrite slice_is_spec by done. apply bool_decide_ext. split; [by intros ->|].
  by intros [= ->].
Qed.

Lemma lcp_slashed c cs d ds : lcp ((SLASH :: c) :: cs) ((SLASH :: d) :: ds) = lcp (c :: cs) (d :: ds).
Proof. simpl. repeat case_decide; congruence. Qed.

Lemma distance_spec m a1 w1 a2 w2 :
  cstr m a1 w1 -> cstr m a2 w2 -> is_abs w1 = true -> is_abs w2 = true ->
  tc_path_distance m (PMem a1) (PMem a2) =
  Ok (Z.of_nat (tree_distance (norm true w1) (norm true w2))).
Proof.
  intros Hs1 Hs2 Ha1 Ha2. unfold tc_path_distance, tc_path_distance_s.
  destruct (get_components_str m a1 w1 Hs1) as (c1 & -> & Hb1 & Hi1).
  destruct (get_components_str m a2 w2 Hs2) as (c2 & -> & Hb2 & Hi2).
  rewrite (cstr_toslice m a1 w1), (cstr_toslice m a2 w2) by done. cbn [sl_size sl_data].
  cbn [obind]. rewrite !is_root_spec, common_prefix_spec, <- (length_fmap (bytes m) c1),
    <- (length_fmap (bytes m) c2), Hb1, Hb2 by done.
  apply cstr_holds in Hs1, Hs2. unfold tree_distance.
  pose proof (norm_abs_proper w1) as Hp1. pose proof (norm_abs_proper w2) as Hp2.
  destruct (is_abs_inv w1 Ha1) as [w1' ->], (is_abs_inv w2 Ha2) as [w2' ->].
  rewrite (holds_rd _ _ _ _ Hs1), (holds_rd _ _ _ _ Hs2).
  rewrite !(bool_decide_true (SLASH = SLASH)) by done. cbn [length Nat.ltb Nat.leb negb andb].
  clear Hb1 Hb2 Hs1 Hs2.
  destruct (abs_components _ Ha1) as [[H1 E1] | (b & bs & H1 & E1)],
    (abs_components _ Ha2) as [[H2 E2] | (p & ps & H2 & E2)];
    rewrite H1, H2, E1, E2 in *.
  - done.
  - inversion_clear Hp2 as [|? ? Hp _].
    rewrite bool_decide_true, bool_decide_false by
      (try done; intros [= E _]; by destruct Hp as [Hp _]). done.
  - inversion_clear Hp1 as [|? ? Hp _].
    rewrite bool_decide_false, bool_decide_true by
      (try done; intros [= E _]; by destruct Hp as [Hp _]). simpl.
    f_equal. lia.
  - inversion_clear Hp1 as [|? ? Hp _]. inversion_clear Hp2 as [|? ? Hp' _].
    rewrite bool_decide_false by (intros [= E _]; by destruct Hp as [Hp _]).
    rewrite bool_decide_false by (intros [= E _]; by destruct Hp' as [Hp' _]).
    rewrite lcp_slashed. destruct (lcp_le (b :: bs) (p :: ps)). cbn [length] in *.
    cbn [obind oassert]. f_equal. lia.
Qed.

(** ** Directory and base name *)

Lemma rindex_spec m a w c :
  holds m a w ->
  (rindex_from m (PMem a) (length w) c = (-1)%Z /\ (c ∉ w)) \/
  (exists d b, w = d ++ c :: b /\ (c ∉ b) /\
     rindex_from m (PMem a) (length w) c = Z.of_nat (length d)).
Proof.
  induction w as [|x w IH] using rev_ind; intros H.
  { left. split; [done | apply not_elem_of_nil]. }
  apply holds_app in H as [H1 H2]. rewrite length_app, Nat.add_1_r. cbn [rindex_from].
  rewrite (holds_rd_at _ _ _ _ _ H2). case_decide as E.
  - right. exists w, []. rewrite E. split_and!; [done | apply not_elem_of_nil | done].
  - destruct (IH H1) as [[-> Hn] | (d & b & -> & Hb & ->)].
    + left. split; [done|]. rewrite not_elem_of_app, list_elem_of_singleton. auto.
    + right. exists d, (b ++ [x]). rewrite <- app_assoc. split_and!; [done | | done].
      rewrite not_elem_of_app, list_elem_of_singleton. auto.
Qed.

Lemma not_elem_no_slash b : SLASH ∉ b -> no_slash b.
Proof. intros H. apply Forall_forall. intros x Hx ->. done. Qed.

(** Trailing slashes do not change where a path leads. *)
Lemma resolve_trailing cwd w j :
  w <> [] -> resolve cwd (w ++ replicate j SLASH) = resolve cwd w.
Proof.
  intros Hw. unfold resolve.
  replace (is_abs (w ++ replicate j SLASH)) with (is_abs w) by (by destruct w).
  destruct j as [|j]; simpl; [by rewrite app_nil_r|].
  rewrite split_slash_app_slash, walks_app.
  generalize (walks (if is_abs w then [] else cwd) (split_slash w)). intros dir.
  induction j as [|j IH]; [done|]. simpl. rewrite walk_nil. exact IH.
Qed.

(** The two slices, by the shape of the path without its trailing slashes. *)
Lemma dir_base_spec m a w :
  holds m a w -> a + length w <= length m -> w <> [] ->
  exists w' j, w = w' ++ replicate j SLASH /\
    let '(ok, dir, base) := tc_path_dir_base_s m (mkslice (PMem a) (length w)) in
    (w' = [] /\ ok = true /\ bytes m dir = [SLASH] /\ bytes m base = []) \/
    ((SLASH ∉ w') /\ w' <> [] /\ ok = false /\ bytes m dir = [] /\ bytes m base = w') \/
    (exists d b, w' = d ++ SLASH :: b /\ (SLASH ∉ b) /\ ok = true /\
       bytes m dir = match d with [] => [SLASH] | _ => d end /\ bytes m base = b).
Proof.
  intros Hw Hm Hne. destruct (rstrip_size_spec m a w SLASH Hw) as (w' & j & Ew & Hr).
  exists w', j. split; [done|]. unfold tc_path_dir_base_s. cbn [sl_size sl_data].
  rewrite (proj2 (Nat.eqb_neq (length w) 0)) by (by destruct w).
  unfold slice_rstrip, slice_rindex. cbn [sl_size sl_data]. rewrite Hr.
  rewrite Ew in Hw. apply holds_app in Hw as [Hw' Hj].
  destruct w' as [|x w'].
  - destruct j as [|j]; [by rewrite Ew in Hne|]. simpl in Hj.
    rewrite Nat.add_0_r in Hj. rewrite (holds_rd _ _ _ _ Hj), bool_decide_true by done.
    left. split_and!; try done. simpl. apply holds_cons in Hj as [Hj _].
    apply (holds_chars m a [SLASH]), holds_cons. split; [done | apply holds_nil].
  - change (length (x :: w') =? 0) with false. cbn [andb].
    destruct (rindex_spec m a (x :: w') SLASH Hw') as [[-> Hn] | (d & b & E & Hb & ->)].
    + right. left. split_and!; try done. by apply (holds_chars m a (x :: w')).
    + rewrite (proj2 (Z.ltb_ge _ _)) by lia. rewrite Nat2Z.id.
      right. right. exists d, b. rewrite E in Hw' |- *. apply holds_app in Hw' as [Hd Hs].
      apply holds_cons in Hs as [Hsl Hbh]. split_and!; try done.
      * destruct d as [|y d].
        { simpl in *. rewrite Nat.add_0_r in Hsl.
          apply (holds_chars m a [SLASH]), holds_cons. split; [done | apply holds_nil]. }
        by apply (holds_chars m a (y :: d)).
      * unfold bytes. cbn [sl_data sl_size padd]. rewrite length_app. cbn [length].
        replace (length d + S (length b) - length d - 1) with (length b) by lia.
        apply holds_chars. by replace (a + (length d + 1)) with (S (a + length d)) by lia.
Qed.

Lemma resolve_dir_base cwd d b :
  SLASH ∉ b ->
  resolve cwd (d ++ SLASH :: b) = walk (resolve cwd match d with [] => [SLASH] | _ => d end) b.
Proof.
  intros Hb%not_elem_no_slash. destruct d as [|x d].
  - unfold resolve. cbn [app is_abs].
    cbn [split_slash]. rewrite decide_True by done.
    by rewrite (split_slash_single b).
  - unfold resolve. replace (is_abs ((x :: d) ++ SLASH :: b)) with (is_abs (x :: d)) by done.
    by rewrite split_slash_app_slash, (split_slash_single b), walks_snoc by done.
Qed.

(** The string after [tc_path_join]. *)
Lemma join_stores m a1 w1 a2 w2 buf buf_size :
  args m [PMem a1; PMem a2] [w1; w2] buf buf_size -> buf + buf_size <= length m -> int_sized buf_size ->
  length w1 < TC_PATH_MAX -> length w2 < TC_PATH_MAX ->
  append_text w1 w2 <> [] ->
  length (append_text w1 w2) < buf_size -> 1 < buf_size ->
  length (append_text w1 w2) < TC_PATH_MAX ->
  exists m', tc_path_join m (PMem a1) (PMem a2) buf buf_size =
      Ok (Z.of_nat (length (normal_form (append_text w1 w2))), m') /\
    cstr m' buf (normal_form (append_text w1 w2)) /\
    (forall x, x < buf \/ buf + buf_size <= x -> m' !! x = m !! x).
Proof.
  intros Hargs Hbuf Hcap H1 H2 Hne Hfit Hbs Hmax.
  destruct (join_spec m a1 w1 a2 w2 buf buf_size) as (m4 & m' & -> & [Hs Hn] & Hnul & Hf & Hfr);
    try done.
  exists m'. split_and!; [done | | done]. split; [|done].
  pose proof (normal_form_length (append_text w1 w2)) as Hnl.
  assert (0 < length (append_text w1 w2)) by (destruct (append_text w1 w2); [done | simpl; lia]).
  intros i c Hi. destruct (decide (i = length (append_text w1 w2))) as [->|Hd].
  - apply lookup_snoc_Some in Hi as [[Hi _]|[_ <-]]; [lia | done].
  - rewrite Hf by lia. by apply Hs.
Qed.

(** Joining onto the string that the buffer holds. *)
Lemma joinall_inplace m w ps ws buf buf_size :
  cstr m buf w -> args m ps ws buf buf_size -> buf + buf_size <= length m -> int_sized buf_size ->
  let t := foldl append_text w ws in
  length w < buf_size -> length t < buf_size -> 1 < buf_size -> length t < TC_PATH_MAX ->
  exists m', tc_path_joinall_impl m buf buf_size (PMem buf :: ps) =
      Ok (Z.of_nat (length (normal_form t)), m') /\
    cstr m' buf (normal_form t) /\ length m' = length m /\
    (forall x, x < buf \/ buf + buf_size <= x -> m' !! x = m !! x).
Proof.
  intros Hw Hargs Hbuf Hcap t Hlw Hfit Hbs Hmax. unfold tc_path_joinall_impl. cbn [joinall_loop].
  rewrite (cstr_toslice m buf w Hw). set (b := BUF_INITIALIZER buf buf_size).
  assert (tc_path_append_impl m b (mkslice (PMem buf) (length w)) = Ok (0%Z, m, with_size b (length w))) as ->.
  { unfold tc_path_append_impl. cbn [sl_size]. destruct (length w =? 0) eqn:E.
    - apply Nat.eqb_eq in E. by rewrite E.
    - destruct (buf_remaining_small b (Nat.le_0_l _) Hcap) as [-> ->].
      unfold b, BUF_INITIALIZER, buf_append_slice. cbn [size capacity sl_size sl_data bdata Nat.eqb negb].
      rewrite (proj2 (Z.ltb_ge _ _)) by lia. cbn [obind size capacity bdata].
      rewrite (proj2 (Nat.ltb_ge _ _)) by lia. rewrite decide_True; [done|]. by rewrite Nat.add_0_r. }
  cbn [obind].
  assert (buf_wf m (with_size b (length w)) /\ contents m (with_size b (length w)) = w) as [Hwf Hc].
  { split; [split; simpl; lia|]. unfold contents, bytes, asslice. cbn [sl_data sl_size bdata size with_size].
    apply holds_chars. by apply cstr_holds. }
  destruct (joinall_loop_spec m (with_size b (length w)) ps ws) as (m1 & -> & Hw1 & Hl1 & Hct1 & Hf1);
    [done | done | done | rewrite Hc; change (length t <= buf_size); lia |].
  rewrite Hc in *. fold t in Hct1, Hw1 |- *. cbn [obind].
  destruct (joinall_finish m1 t buf buf_size) as (m' & E & Hs & Hl & Hf); try done.
  { eapply args_NUL; [done | by apply Hw]. }
  exists m'. split_and!; [exact E | done | congruence |].
  intros x Hx. rewrite Hf by done. by apply Hf1.
Qed.

(** A string in the middle of a memory. *)
Lemma cstr_middle l w r : NUL ∉ w -> cstr (l ++ w ++ NUL :: r) (length l) w.
Proof.
  intros Hn. split; [|done]. intros i c Hi. change (NUL :: r) with ([NUL] ++ r). rewrite (app_assoc w).
  rewrite lookup_app_r by lia. replace (length l + i - length l) with i by lia.
  by apply lookup_app_l_Some.
Qed.

(** The two parts of an absolute path: the path is the name in the directory. *)
Lemma dir_base_abs p :
  NUL ∉ p -> is_abs p = true ->
  let m := p ++ [NUL] in
  let '(_, dir, base) := tc_path_dir_base_s m (toslice m (PMem 0)) in
  is_abs (bytes m dir) = true /\ (NUL ∉ bytes m dir) /\ length (bytes m dir) <= length p
  /\ (NUL ∉ bytes m base) /\ (SLASH ∉ bytes m base)
  /\ forall cwd, resolve cwd p = walk (resolve cwd (bytes m dir)) (bytes m base).
Proof.
  intros Hp Hs. set (m := p ++ [NUL]). cbv zeta.
  assert (cstr m 0 p) as Hc by (by apply (cstr_middle [] p)).
  rewrite (cstr_toslice m 0 p Hc).
  destruct (dir_base_spec m 0 p) as (w & j & Ew & H);
    [by apply cstr_holds | unfold m; rewrite length_app; lia | by destruct p |].
  destruct (tc_path_dir_base_s m _) as [[ok dir] base]. subst p.
  destruct H as [(-> & -> & Hd & Hb) | [(Hn & Hw & -> & Hd & Hb) | (d & b & -> & Hn & -> & Hd & Hb)]];
    rewrite Hd, Hb.
  - split_and!; [done | by intros ?%list_elem_of_singleton | destruct j; [done | simpl; lia]
      | apply not_elem_of_nil | apply not_elem_of_nil |].
    intros cwd. destruct j as [|j]; [done|]. cbn [app replicate].
    rewrite <- (resolve_trailing cwd [SLASH] j) by done. cbn [app]. by rewrite walk_nil.
  - destruct w as [|c w]; [done|]. cbn in Hs. apply bool_decide_eq_true in Hs as ->.
    destruct Hn. by left.
  - rewrite !not_elem_of_app in Hp. destruct Hp as [[Hpd Hpb%not_elem_of_cons] _].
    rewrite !length_app. cbn [length]. split_and!.
    + destruct d; [done|]. exact Hs.
    + destruct d; [by intros ?%list_elem_of_singleton | done].
    + destruct d; simpl; lia.
    + apply Hpb.
    + done.
    + intros cwd. rewrite resolve_trailing by (by destruct d). by apply resolve_dir_base.
Qed.

Lemma cstr_text m a w : cstr m a w -> bytes m (toslice m (PMem a)) = w.
Proof. intros H. rewrite (cstr_toslice m a w H). apply holds_chars. by apply cstr_holds. Qed.

(** ** What the functions compute *)

(** Boolean form of [cstr] for concrete memories. *)
Definition cstrb (m : list ascii) (a : nat) (w : list ascii) : bool :=
  bool_decide (chars m (PMem a) (S (length w)) = w ++ [NUL]) && bool_decide (NUL ∉ w).

Lemma cstrb_sound m a w : cstrb m a w = true -> cstr m a w.
Proof.
  unfold cstrb. rewrite andb_true_iff, !bool_decide_eq_true. intros [H1 H2].
  split; [rewrite <- H1; apply chars_holds | done].
Qed.

(** C6: [tc_path_normalize] writes the normal form of the path into the
    buffer, terminated, and returns its length; it does so also when the buffer is
    where the path is stored, and changes no other memory.  The normal form leads
    to the same directory as the path from every working directory, is no longer
    than the path (or is a dot), and is left as it is by normalising it again. *)
Theorem tc_path_normalize_correct m a w buf buf_size :
  cstr m a w -> length w < TC_PATH_MAX ->
  buf + buf_size <= length m -> 1 < buf_size -> apart a (length w) buf ->
  length (normal_form w) < buf_size ->
  (exists m', tc_path_normalize m (PMem a) buf buf_size =
      Ok (Z.of_nat (length (normal_form w)), m') /\
    cstr m' buf (normal_form w) /\ length m' = length m /\
    (forall x, x < buf \/ buf + length (normal_form w) < x -> m' !! x = m !! x)) /\
  (forall cwd, resolve cwd (normal_form w) = resolve cwd w) /\
  length (normal_form w) <= Nat.max 1 (length w) /\
  normal_form (normal_form w) = normal_form w.
Proof.
  intros. split_and!; [by apply normalize_spec | intros cwd; apply resolve_normal_form |
    apply normal_form_length | apply normal_form_idem].
Qed.

Definition str (s : string) : list ascii := String.list_ascii_of_string s.

(** A memory with a string at 0 and free space. *)
Definition mem_of (s : string) : list ascii := str s ++ replicate 40 NUL.

Lemma tc_path_normalize_correct_witness :
  exists m', tc_path_normalize (mem_of "/a/./b/../c//d/") (PMem 0) 0 16 = Ok (6%Z, m') /\
    cstr m' 0 (str "/a/c/d").
Proof.
  refine (let '(conj (ex_intro _ m' (conj E (conj H _))) _) :=
            tc_path_normalize_correct (mem_of "/a/./b/../c//d/") 0 (str "/a/./b/../c//d/") 0 16
              _ _ _ _ _ _ in ex_intro _ m' (conj E H)).
  - apply cstrb_sound. vm_compute. reflexivity.
  - apply Nat.ltb_lt. vm_compute. reflexivity.
  - apply Nat.leb_le. vm_compute. reflexivity.
  - lia.
  - left. lia.
  - apply Nat.ltb_lt. vm_compute. reflexivity.
Defined.

(** [tc_path_join] of two paths that are not both empty, when the joined
    text fits, stores the normal form of the joined text.  It leads where walking
    the second path from the target of the first one leads. *)
Theorem tc_path_join_correct m a1 w1 a2 w2 buf buf_size :
  args m [PMem a1; PMem a2] [w1; w2] buf buf_size -> buf + buf_size <= length m -> int_sized buf_size ->
  length w1 < TC_PATH_MAX -> length w2 < TC_PATH_MAX ->
  append_text w1 w2 <> [] ->
  length (append_text w1 w2) < buf_size -> 1 < buf_size ->
  length (append_text w1 w2) < TC_PATH_MAX ->
  (exists m', tc_path_join m (PMem a1) (PMem a2) buf buf_size =
      Ok (Z.of_nat (length (normal_form (append_text w1 w2))), m') /\
    cstr m' buf (normal_form (append_text w1 w2)) /\
    (forall x, x < buf \/ buf + buf_size <= x -> m' !! x = m !! x)) /\
  (forall cwd, w1 <> [] ->
     resolve cwd (normal_form (append_text w1 w2)) = walks (resolve cwd w1) (split_slash w2)).
Proof.
  intros. split; [by apply join_stores|].
  intros cwd Hw1. by rewrite resolve_normal_form, resolve_append_text.
Qed.

Definition mem2 : list ascii := str "/srv/nfs" ++ [NUL] ++ str "../x" ++ replicate 60 NUL.

Lemma tc_path_join_correct_witness :
  exists m', tc_path_join mem2 (PMem 0) (PMem 9) 20 40 = Ok (6%Z, m') /\ cstr m' 20 (str "/srv/x").
Proof.
  refine (let '(conj (ex_intro _ m' (conj E (conj H _))) _) :=
            tc_path_join_correct mem2 0 (str "/srv/nfs") 9 (str "../x") 20 40
              _ _ _ _ _ _ _ _ _ in ex_intro _ m' (conj E H)).
  - repeat constructor; eexists; (split_and!; [reflexivity | apply cstrb_sound; reflexivity |]);
      left; apply Nat.ltb_lt; vm_compute; reflexivity.
  - apply Nat.leb_le. vm_compute. reflexivity.
  - reflexivity.
  - apply Nat.ltb_lt. vm_compute. reflexivity.
  - apply Nat.ltb_lt. vm_compute. reflexivity.
  - done.
  - apply Nat.ltb_lt. vm_compute. reflexivity.
  - lia.
  - apply Nat.ltb_lt. vm_compute. reflexivity.
Defined.

(** Joining two empty paths reports a path of one character and stores
    the empty string: the last terminator overwrites the dot. *)
Theorem tc_path_join_empty m a1 a2 buf buf_size :
  args m [PMem a1; PMem a2] [[]; []] buf buf_size -> buf + buf_size <= length m ->
  int_sized buf_size -> 1 < buf_size ->
  exists m', tc_path_join m (PMem a1) (PMem a2) buf buf_size = Ok (1%Z, m') /\ cstr m' buf [].
Proof.
  intros Hargs Hbuf Hcap Hbs.
  destruct (join_spec m a1 [] a2 [] buf buf_size) as (m4 & m' & -> & _ & Hnul & _);
    unfold TC_PATH_MAX; simpl; try done; try lia.
  simpl in Hnul. rewrite Nat.add_0_r in Hnul.
  exists m'. split; [done|]. split; [|apply not_elem_of_nil].
  apply holds_cons. split; [done | apply holds_nil].
Qed.

Lemma tc_path_join_empty_witness :
  exists m', tc_path_join (replicate 20 NUL) (PMem 0) (PMem 1) 4 8 = Ok (1%Z, m') /\ cstr m' 4 [].
Proof.
  apply (tc_path_join_empty (replicate 20 NUL) 0 1 4 8).
  - repeat constructor; eexists; (split_and!; [reflexivity | apply cstrb_sound; reflexivity |]);
      simpl; lia.
  - apply Nat.leb_le. vm_compute. reflexivity.
  - reflexivity.
  - lia.
Defined.

(** A path that fits exactly in the rest of a buffer that is not empty
    is reported as appended, but only the separator is stored: the room for the
    separator is not counted. *)
Theorem tc_path_append_impl_drops m b comp :
  buf_wf m b -> int_sized (capacity b) -> 0 < size b -> 0 < sl_size comp -> size b + sl_size comp = capacity b ->
  exists m', tc_path_append_impl m b comp = Ok (0%Z, m', with_size b (S (size b))) /\
    contents m' (with_size b (S (size b))) = contents m b ++ [SLASH].
Proof.
  intros Hwf Hcap Hb Hc Hfit. unfold tc_path_append_impl.
  destruct (buf_remaining_small b (proj2 Hwf) Hcap) as [-> ->].
  rewrite (proj2 (Nat.eqb_neq (sl_size comp) 0)), (proj2 (Z.ltb_ge _ _)),
    (proj2 (Nat.eqb_neq (size b) 0)) by lia.
  destruct (append_char_fits m b SLASH Hwf) as (m' & -> & _ & Hw & Hct & _); [lia|].
  cbn [negb obind]. rewrite append_slice_full by (simpl; lia). by exists m'.
Qed.

Lemma tc_path_append_impl_drops_witness :
  exists m', tc_path_append_impl (str "abcde") (mkbuf 5 3 0) (mkslice (PLit (str "xy")) 2) =
      Ok (0%Z, m', mkbuf 5 4 0) /\ contents m' (mkbuf 5 4 0) = str "abc/".
Proof.
  apply (tc_path_append_impl_drops (str "abcde") (mkbuf 5 3 0) (mkslice (PLit (str "xy")) 2));
    simpl; try lia; [split; simpl; lia | reflexivity].
Defined.

(** Joining any number of paths, when the joined text fits, stores the
    normal form of the text and changes nothing outside the buffer. *)
Theorem tc_path_joinall_correct m ps ws buf buf_size :
  args m ps ws buf buf_size -> buf + buf_size <= length m -> int_sized buf_size ->
  length (foldl append_text [] ws) < buf_size -> 1 < buf_size ->
  length (foldl append_text [] ws) < TC_PATH_MAX ->
  exists m', tc_path_joinall_impl m buf buf_size ps =
      Ok (Z.of_nat (length (normal_form (foldl append_text [] ws))), m') /\
    cstr m' buf (normal_form (foldl append_text [] ws)) /\ length m' = length m /\
    (forall x, x < buf \/ buf + buf_size <= x -> m' !! x = m !! x).
Proof. apply joinall_spec. Qed.

Lemma tc_path_joinall_correct_witness :
  exists m', tc_path_joinall_impl mem2 20 40 [PMem 0; PMem 9; PMem 0] = Ok (14%Z, m') /\
    cstr m' 20 (str "/srv/x/srv/nfs").
Proof.
  refine (let '(ex_intro _ m' (conj E (conj H _))) :=
            tc_path_joinall_correct mem2 [PMem 0; PMem 9; PMem 0]
              [str "/srv/nfs"; str "../x"; str "/srv/nfs"] 20 40 _ _ _ _ _ _
          in ex_intro _ m' (conj E H)).
  - repeat constructor; eexists; (split_and!; [reflexivity | apply cstrb_sound; reflexivity |]);
      left; apply Nat.ltb_lt; vm_compute; reflexivity.
  - apply Nat.leb_le. vm_compute. reflexivity.
  - reflexivity.
  - apply Nat.ltb_lt. vm_compute. reflexivity.
  - lia.
  - apply Nat.ltb_lt. vm_compute. reflexivity.
Defined.

(** C7: [tc_path_rebase] of an absolute path on an absolute base, into a buffer of fewer
    than 2^31 bytes that has room for the result and its terminator and does not overlap the
    path, returns the length of a relative path that leads from the base to the path, stores
    it terminated, and changes nothing outside the buffer. *)
Theorem tc_path_rebase_correct m a1 base a2 path buf buf_size :
  cstr m a1 base -> cstr m a2 path -> is_abs base = true -> is_abs path = true ->
  (a2 + length path <= buf \/ buf + buf_size <= a2) -> buf + buf_size <= length m ->
  int_sized buf_size -> length (rel_path base path) < buf_size ->
  (exists m', tc_path_rebase m (PMem a1) (PMem a2) buf buf_size =
      Ok (Z.of_nat (length (rel_path base path)), m') /\
    cstr m' buf (rel_path base path) /\ length m' = length m /\
    (forall x, x < buf \/ buf + buf_size <= x -> m' !! x = m !! x)) /\
  is_abs (rel_path base path) = false /\
  resolve (resolve [] base) (rel_path base path) = resolve [] path.
Proof.
  intros. split_and!; [by apply rebase_spec | by apply is_abs_rel_path | by apply resolve_rel_path].
Qed.

Definition mem3 : list ascii := str "/a/b/c" ++ [NUL] ++ str "/a/x/./y" ++ replicate 60 NUL.

Lemma tc_path_rebase_correct_witness :
  exists m', tc_path_rebase mem3 (PMem 0) (PMem 7) 20 40 = Ok (9%Z, m') /\
    cstr m' 20 (str "../../x/y").
Proof.
  refine (let '(conj (ex_intro _ m' (conj E (conj H _))) _) :=
            tc_path_rebase_correct mem3 0 (str "/a/b/c") 7 (str "/a/x/./y") 20 40 _ _ _ _ _ _ _ _
          in ex_intro _ m' (conj E H)).
  - apply cstrb_sound. reflexivity.
  - apply cstrb_sound. reflexivity.
  - reflexivity.
  - reflexivity.
  - left. apply Nat.leb_le. vm_compute. reflexivity.
  - apply Nat.leb_le. vm_compute. reflexivity.
  - reflexivity.
  - apply Nat.ltb_lt. vm_compute. reflexivity.
Defined.

(** A buffer with 2^31 bytes or more left is refused however short the result is: the rest
    of it is a negative [int]. *)
Lemma tc_path_rebase_large_buffer m base path b c1 c2 :
  tc_get_path_components m base = Ok c1 -> tc_get_path_components m path = Ok c2 ->
  (2 ^ 31 <= Z.of_nat (capacity b) - Z.of_nat (size b) < 2 ^ 32 - 1)%Z ->
  int_sized (2 * length c1 + total_size c2 + length c1 + length c2) ->
  tc_path_rebase_s m base path b = Ok ((-1)%Z, m, b).
Proof.
  unfold int_sized. intros E1 E2 Hb Hs. unfold tc_path_rebase_s. rewrite E1, E2. cbn [obind]. cbv zeta.
  set (l := common_prefix m c1 c2).
  set (k := length c1 - l).
  assert (total_size (replicate k DOTDOT ++ drop l c2) = 2 * k + total_size (drop l c2)) as ->.
  { unfold total_size. rewrite fmap_app, sum_list_with_app. f_equal. clear.
    induction k as [|k IH]; [done|]. cbn [replicate]. rewrite fmap_cons. cbn [sum_list_with sum_list id].
    rewrite IH. simpl. lia. }
  assert (total_size (drop l c2) <= total_size c2).
  { rewrite <- (take_drop l c2) at 2. unfold total_size. rewrite fmap_app, sum_list_with_app. lia. }
  rewrite length_app, length_replicate, length_drop.
  assert (buf_remaining b < -1)%Z as Hr.
  { unfold buf_remaining, s32. rewrite u32_small, (proj2 (Z.ltb_ge _ _)) by lia. lia. }
  assert (-1 <= s32 (Z.of_nat (2 * k + total_size (drop l c2)) + (Z.of_nat (k + (length c2 - l)) - 1)))%Z as Hn.
  { destruct (decide (k + (length c2 - l) = 0)) as [E|Hne]; [|rewrite s32_small; lia].
    assert (drop l c2 = []) as -> by (apply drop_ge; lia). assert (k = 0) as -> by lia.
    assert (length c2 - l = 0) as -> by lia. done. }
  generalize dependent (s32 (Z.of_nat (2 * k + total_size (drop l c2)) + (Z.of_nat (k + (length c2 - l)) - 1))).
  intros z Hn. by rewrite (proj2 (Z.ltb_lt _ _)) by lia.
Qed.

(** The distance of two absolute paths is the number of steps between the
    directories they lead to in the tree; it is symmetric, and zero only when
    they lead to the same directory. *)
Theorem tc_path_distance_correct m a1 w1 a2 w2 :
  cstr m a1 w1 -> cstr m a2 w2 -> is_abs w1 = true -> is_abs w2 = true ->
  exists d, tc_path_distance m (PMem a1) (PMem a2) = Ok (Z.of_nat d) /\
    tc_path_distance m (PMem a2) (PMem a1) = Ok (Z.of_nat d) /\
    d = tree_distance (resolve [] w1) (resolve [] w2) /\
    (d = 0 <-> resolve [] w1 = resolve [] w2).
Proof.
  intros Hs1 Hs2 Ha1 Ha2. eexists. rewrite !(resolve_abs []) by done.
  split_and!; [by apply distance_spec | | done | apply tree_distance_0].
  rewrite (distance_spec m a2 w2 a1 w1) by done. by rewrite tree_distance_comm.
Qed.

Lemma tc_path_distance_correct_witness :
  exists d, tc_path_distance mem3 (PMem 0) (PMem 7) = Ok (Z.of_nat d) /\
    d = tree_distance [str "a"; str "b"; str "c"] [str "a"; str "x"; str "y"].
Proof.
  refine (let '(ex_intro _ d (conj E (conj _ (conj H _)))) :=
            tc_path_distance_correct mem3 0 (str "/a/b/c") 7 (str "/a/x/./y") _ _ _ _
          in ex_intro _ d (conj E H)); try reflexivity; apply cstrb_sound; reflexivity.
Defined.

(** [tc_path_dir_base_s] splits a path, trailing slashes aside, into a
    directory and a last name without slashes: the path leads where that name
    leads from the directory.  A path of slashes is the root with no name, and one
    without a directory part is the name alone. *)
Theorem tc_path_dir_base_correct m a w :
  holds m a w -> a + length w <= length m -> w <> [] ->
  let '(ok, dir, base) := tc_path_dir_base_s m (mkslice (PMem a) (length w)) in
  (SLASH ∉ bytes m base) /\
  (ok = true -> bytes m dir <> [] /\
     forall cwd, resolve cwd w = walk (resolve cwd (bytes m dir)) (bytes m base)) /\
  (ok = false -> bytes m dir = [] /\ forall cwd, resolve cwd w = walk cwd (bytes m base)).
Proof.
  intros Hw Hm Hne. destruct (dir_base_spec m a w Hw Hm Hne) as (w' & j & -> & H).
  destruct (tc_path_dir_base_s m _) as [[ok dir] base].
  destruct H as [(-> & -> & Hd & Hb) | [(Hn & Hw' & -> & Hd & Hb) | (d & b & -> & Hn & -> & Hd & Hb)]];
    rewrite Hd, Hb.
  - split_and!; [apply not_elem_of_nil | | done]. intros _. split; [done|]. intros cwd.
    destruct j as [|j]; [done|]. cbn [app replicate].
    rewrite <- (resolve_trailing cwd [SLASH] j) by done. cbn [app]. by rewrite walk_nil.
  - split_and!; [done | done|]. intros _. split; [done|]. intros cwd.
    rewrite resolve_trailing by done. apply not_elem_no_slash in Hn. unfold resolve.
    destruct w' as [|x w']; [done|]. pose proof Hn as Hn'. inversion_clear Hn'.
    cbn [is_abs]. rewrite bool_decide_false by done. by rewrite split_slash_single.
  - split_and!; [done | | done]. intros _. split; [by destruct d|]. intros cwd.
    rewrite resolve_trailing by (by destruct d). by apply resolve_dir_base.
Qed.

Lemma tc_path_dir_base_correct_witness :
  resolve [] (str "/a/b//") = walk (resolve [] (str "/a")) (str "b").
Proof.
  exact (proj2 (proj1 (proj2 (tc_path_dir_base_correct (str "/a/b//") 0 (str "/a/b//")
           (fun i c H => H) (le_n _) ltac:(done))) eq_refl) []).
Defined.

End Paths.
