(* ===== verification/TcApi.v ===== *)
(** The data of the client interface: files, I/O vectors, results and attributes,
    from [include/tc_api.h], with the comparison and copy functions of
    [support/tc_helper.c]. *)

From S2P Require Import Prelude.
Local Open Scope Z_scope.

Module Api.

(** ** Files *)

Inductive VFILETYPE :=
  VFILE_NULL | VFILE_DESCRIPTOR | VFILE_PATH | VFILE_HANDLE | VFILE_CURRENT | VFILE_SAVED.

#[export] Instance VFILETYPE_eq_dec : EqDecision VFILETYPE.
Proof. solve_decision. Defined.

Definition VFD_NULL : Z := -1.
Definition VFD_CWD : Z := -2.
Definition VFD_ABS : Z := -3.
Definition FILEID_NFS_FH_TYPE : Z := 4097.

(** [struct file_handle] of Linux. *)
Record file_handle := mk_handle {
  handle_bytes : nat;
  handle_type : Z;
  f_handle : list ascii
}.

#[export] Instance file_handle_eq_dec : EqDecision file_handle.
Proof. solve_decision. Defined.

(** [struct nfs4_fd_data]: [stateid] and [fh4] point into one entry of the
    descriptor table, given here by its index. *)
Record nfs4_fd_data := mk_fd_data { fdd_entry : nat; fd_cursor : Z }.

#[export] Instance nfs4_fd_data_eq_dec : EqDecision nfs4_fd_data.
Proof. solve_decision. Defined.

(** The union [path_or_handle]; [UNull] is a null pointer in any of its members. *)
Inductive path_or_handle :=
  | UNull
  | UFdData (d : nfs4_fd_data)
  | UPath (p : list ascii)
  | UHandle (h : file_handle).

#[export] Instance path_or_handle_eq_dec : EqDecision path_or_handle.
Proof. solve_decision. Defined.

Record vfile := mk_vfile { type : VFILETYPE; fd : Z; u : path_or_handle }.

#[export] Instance vfile_eq_dec : EqDecision vfile.
Proof. solve_decision. Defined.

(** The member [path], when the union holds one. *)
Definition path (f : vfile) : option (list ascii) :=
  match u f with UPath p => Some p | _ => None end.

Definition starts_with_slash (p : list ascii) : bool :=
  match p with c :: _ => bool_decide (c = "/"%char) | [] => false end.

Definition vfile_from_path (pathname : list ascii) : vfile :=
  mk_vfile VFILE_PATH (if starts_with_slash pathname then VFD_ABS else VFD_CWD)
    (UPath pathname).

Definition vfile_from_fd (fd : Z) : vfile := mk_vfile VFILE_DESCRIPTOR fd UNull.

Definition vfile_current : vfile := mk_vfile VFILE_CURRENT (-1) UNull.

Definition vfile_from_cfh (relpath : option (list ascii)) : vfile :=
  match relpath with
  | Some p =>
      if starts_with_slash p then vfile_from_path p
      else mk_vfile VFILE_CURRENT (-1) (UPath p)
  | None => mk_vfile VFILE_CURRENT (-1) UNull
  end.

(** ** I/O vectors *)

Definition TC_OFFSET_END : Z := SIZE_MAX.
Definition TC_OFFSET_CUR : Z := SIZE_MAX - 1.

(** [data] is the address of the caller's buffer. *)
Record viovec := mk_iov {
  file : vfile;
  offset : Z;
  length : Z;
  data : Z;
  iov_type : Z;
  is_creation : bool;
  is_direct_io : bool;
  is_failure : bool;
  is_eof : bool;
  is_write_stable : bool;
  is_last_of_multiparts : bool
}.

#[export] Instance viovec_eq_dec : EqDecision viovec.
Proof. solve_decision. Defined.

(** The fields of [iov] that the initialisers do not set keep their value. *)
Definition viov2file (iov : viovec) (tcf : vfile) (off len buf : Z) : viovec :=
  mk_iov tcf off len buf (iov_type iov) false false false false false false.

Definition viov2current (iov : viovec) (off len buf : Z) : viovec :=
  viov2file iov vfile_current off len buf.

Definition viov2path (iov : viovec) (p : list ascii) (off len buf : Z) : viovec :=
  mk_iov (vfile_from_path p) off len buf (iov_type iov) false false false false false false.

Definition viov2fd (iov : viovec) (fd off len buf : Z) : viovec :=
  mk_iov (vfile_from_fd fd) off len buf (iov_type iov) false false false false false false.

Definition viov4creation (iov : viovec) (p : list ascii) (len buf : Z) : viovec :=
  mk_iov (vfile_from_path p) 0 len buf (iov_type iov) true false false false false false.

Definition set_file (iov : viovec) (f : vfile) : viovec :=
  mk_iov f (offset iov) (length iov) (data iov) (iov_type iov) (is_creation iov)
    (is_direct_io iov) (is_failure iov) (is_eof iov) (is_write_stable iov)
    (is_last_of_multiparts iov).

Definition set_offset (iov : viovec) (o : Z) : viovec :=
  mk_iov (file iov) o (length iov) (data iov) (iov_type iov) (is_creation iov)
    (is_direct_io iov) (is_failure iov) (is_eof iov) (is_write_stable iov)
    (is_last_of_multiparts iov).

Definition set_length (iov : viovec) (l : Z) : viovec :=
  mk_iov (file iov) (offset iov) l (data iov) (iov_type iov) (is_creation iov)
    (is_direct_io iov) (is_failure iov) (is_eof iov) (is_write_stable iov)
    (is_last_of_multiparts iov).

Definition set_eof (iov : viovec) (e : bool) : viovec :=
  mk_iov (file iov) (offset iov) (length iov) (data iov) (iov_type iov) (is_creation iov)
    (is_direct_io iov) (is_failure iov) e (is_write_stable iov)
    (is_last_of_multiparts iov).

(** ** Results *)

Record vres := mk_vres { index : Z; err_no : Z }.

#[export] Instance vres_eq_dec : EqDecision vres.
Proof. solve_decision. Defined.

Definition vokay (r : vres) : bool := err_no r =? 0.

Definition vfailure (i err : Z) : vres := mk_vres i err.

(** The pair of files of a rename. *)
Record vfile_pair := mk_pair { src_file : vfile; dst_file : vfile }.

Record vextent_pair := mk_extent {
  src_path : list ascii;
  dst_path : list ascii;
  src_offset : Z;
  dst_offset : Z;
  ext_length : Z
}.

Definition vfill_extent_pair (spath : list ascii) (soff : Z) (dpath : list ascii)
    (doff len : Z) : vextent_pair := mk_extent spath dpath soff doff len.

(** ** Attributes *)

Record timespec := mk_time { tv_sec : Z; tv_nsec : Z }.

Record vattrs_masks := mk_masks {
  has_mode : bool; has_size : bool; has_nlink : bool; has_fileid : bool;
  has_blocks : bool; has_uid : bool; has_gid : bool; has_rdev : bool;
  has_atime : bool; has_mtime : bool; has_ctime : bool
}.

(** The attribute values, as in [struct vattrs] and in [struct stat] (where
    [fileid] is [st_ino]). *)
Record avals := mk_vals {
  mode : Z; size : Z; nlink : Z; fileid : Z; blocks : Z; uid : Z; gid : Z; rdev : Z;
  atime : timespec; mtime : timespec; ctime : timespec
}.

Record vattrs := mk_attrs { attr_file : vfile; masks : vattrs_masks; vals : avals }.

Definition VMASK_INIT_ALL : vattrs_masks :=
  mk_masks true true true true true true true true true true true.
Definition VMASK_INIT_NONE : vattrs_masks :=
  mk_masks false false false false false false false false false false false.

(** Each setter stores a value and raises its flag. *)
Definition vattrs_set_mode (a : vattrs) (x : Z) : vattrs :=
  let 'mk_attrs f (mk_masks _ b c d e g h i j k l) (mk_vals _ v w y z p q r s t o) := a in
  mk_attrs f (mk_masks true b c d e g h i j k l) (mk_vals x v w y z p q r s t o).
Definition vattrs_set_size (a : vattrs) (x : Z) : vattrs :=
  let 'mk_attrs f (mk_masks b _ c d e g h i j k l) (mk_vals v _ w y z p q r s t o) := a in
  mk_attrs f (mk_masks b true c d e g h i j k l) (mk_vals v x w y z p q r s t o).
Definition vattrs_set_nlink (a : vattrs) (x : Z) : vattrs :=
  let 'mk_attrs f (mk_masks b c _ d e g h i j k l) (mk_vals v w _ y z p q r s t o) := a in
  mk_attrs f (mk_masks b c true d e g h i j k l) (mk_vals v w x y z p q r s t o).
Definition vattrs_set_fileid (a : vattrs) (x : Z) : vattrs :=
  let 'mk_attrs f (mk_masks b c d _ e g h i j k l) (mk_vals v w y _ z p q r s t o) := a in
  mk_attrs f (mk_masks b c d true e g h i j k l) (mk_vals v w y x z p q r s t o).
Definition vattrs_set_uid (a : vattrs) (x : Z) : vattrs :=
  let 'mk_attrs f (mk_masks b c d e g _ h i j k l) (mk_vals v w y z p _ q r s t o) := a in
  mk_attrs f (mk_masks b c d e g true h i j k l) (mk_vals v w y z p x q r s t o).
Definition vattrs_set_gid (a : vattrs) (x : Z) : vattrs :=
  let 'mk_attrs f (mk_masks b c d e g h _ i j k l) (mk_vals v w y z p q _ r s t o) := a in
  mk_attrs f (mk_masks b c d e g h true i j k l) (mk_vals v w y z p q x r s t o).
Definition vattrs_set_rdev (a : vattrs) (x : Z) : vattrs :=
  let 'mk_attrs f (mk_masks b c d e g h i _ j k l) (mk_vals v w y z p q r _ s t o) := a in
  mk_attrs f (mk_masks b c d e g h i true j k l) (mk_vals v w y z p q r x s t o).
Definition vattrs_set_atime (a : vattrs) (x : timespec) : vattrs :=
  let 'mk_attrs f (mk_masks b c d e g h i j _ k l) (mk_vals v w y z p q r s _ t o) := a in
  mk_attrs f (mk_masks b c d e g h i j true k l) (mk_vals v w y z p q r s x t o).
Definition vattrs_set_mtime (a : vattrs) (x : timespec) : vattrs :=
  let 'mk_attrs f (mk_masks b c d e g h i j k _ l) (mk_vals v w y z p q r s t _ o) := a in
  mk_attrs f (mk_masks b c d e g h i j k true l) (mk_vals v w y z p q r s t x o).
Definition vattrs_set_ctime (a : vattrs) (x : timespec) : vattrs :=
  let 'mk_attrs f (mk_masks b c d e g h i j k l _) (mk_vals v w y z p q r s t o _) := a in
  mk_attrs f (mk_masks b c d e g h i j k l true) (mk_vals v w y z p q r s t o x).

(** [euid] and [egid] are the caller's effective ids. *)
Definition vset_up_creation (newobj : vattrs) (name : list ascii) (m euid egid : Z) : vattrs :=
  let a := mk_attrs (vfile_from_path name) VMASK_INIT_NONE (vals newobj) in
  vattrs_set_gid (vattrs_set_uid (vattrs_set_mode a m) euid) egid.

(** Overwrite in [dst] the values that the mask selects. *)
Definition select (mk : vattrs_masks) (src dst : avals) : avals :=
  mk_vals
    (if has_mode mk then mode src else mode dst)
    (if has_size mk then size src else size dst)
    (if has_nlink mk then nlink src else nlink dst)
    (if has_fileid mk then fileid src else fileid dst)
    (if has_blocks mk then blocks src else blocks dst)
    (if has_uid mk then uid src else uid dst)
    (if has_gid mk then gid src else gid dst)
    (if has_rdev mk then rdev src else rdev dst)
    (if has_atime mk then atime src else atime dst)
    (if has_mtime mk then mtime src else mtime dst)
    (if has_ctime mk then ctime src else ctime dst).

Definition vstat2attrs (st : avals) (attrs : vattrs) : vattrs :=
  mk_attrs (attr_file attrs) (masks attrs) (select (masks attrs) st (vals attrs)).

Definition tc_attrs2attrs (dst src : vattrs) : vattrs :=
  mk_attrs (attr_file src) (masks dst) (select (masks dst) (vals src) (vals dst)).

Definition vattrs2stat (attrs : vattrs) (st : avals) : avals :=
  select (masks attrs) (vals attrs) st.

(** ** [support/tc_helper.c] *)

(** Copies the attributes that [src] has, one setter call each; there is none for
    the block count. *)
Definition tc_copy_attrs (src dst : vattrs) : vattrs :=
  let mk := masks src in
  let v := vals src in
  let set {A} (b : bool) (f : vattrs -> A -> vattrs) (x : A) (d : vattrs) :=
    if b then f d x else d in
  let dst := set (has_mode mk) vattrs_set_mode (mode v) dst in
  let dst := set (has_size mk) vattrs_set_size (size v) dst in
  let dst := set (has_nlink mk) vattrs_set_nlink (nlink v) dst in
  let dst := set (has_fileid mk) vattrs_set_fileid (fileid v) dst in
  let dst := set (has_uid mk) vattrs_set_uid (uid v) dst in
  let dst := set (has_gid mk) vattrs_set_gid (gid v) dst in
  let dst := set (has_rdev mk) vattrs_set_rdev (rdev v) dst in
  let dst := set (has_atime mk) vattrs_set_atime (atime v) dst in
  let dst := set (has_mtime mk) vattrs_set_mtime (mtime v) dst in
  set (has_ctime mk) vattrs_set_ctime (ctime v) dst.

(** [None] when [malloc] fails. *)
Definition new_file_handle (malloc_ok : bool) (fh_val : list ascii) : option file_handle :=
  if malloc_ok then Some (mk_handle (List.length fh_val) FILEID_NFS_FH_TYPE fh_val) else None.

(** [memcmp] of the first [n] bytes is not zero. *)
Definition memcmp_ne (a b : list ascii) (n : nat) : bool :=
  negb (bool_decide (take n a = take n b)).

(** A null path or handle that is dereferenced is [Abort]. *)
Definition tc_cmp_file (tcf1 tcf2 : vfile) : outcome bool :=
  if negb (bool_decide (type tcf1 = type tcf2)) then Ok false
  else
    match type tcf1 with
    | VFILE_DESCRIPTOR => Ok (fd tcf1 =? fd tcf2)
    | VFILE_PATH | VFILE_CURRENT =>
        match path tcf1, path tcf2 with
        | None, None => Ok true
        | Some p1, Some p2 => Ok (bool_decide (p1 = p2))
        | _, _ => Abort
        end
    | VFILE_HANDLE =>
        match u tcf1, u tcf2 with
        | UHandle h1, UHandle h2 =>
            if negb (handle_bytes h1 =? handle_bytes h2)%nat then Ok false
            else if negb (handle_type h1 =? handle_type h2) then Ok false
            else Ok (memcmp_ne (f_handle h1) (f_handle h2) (handle_bytes h1))
        | _, _ => Abort
        end
    | VFILE_NULL | VFILE_SAVED => Ok true
    end.

(** [compare_content] on the characters [rd] finds at an address. *)
Fixpoint compare_content (rd : Z -> nat -> list ascii) (iovec1 iovec2 : list viovec) : bool :=
  match iovec1, iovec2 with
  | a :: iovec1, b :: iovec2 =>
      if negb (length a =? length b)
         || negb (bool_decide (rd (data a) (Z.to_nat (length a))
                               = rd (data b) (Z.to_nat (length a))))
      then false else compare_content rd iovec1 iovec2
  | _, _ => true
  end.

(** ** Properties *)

(** A handle is well formed when its size is that of its bytes. *)
Definition handle_wf (f : vfile) : Prop :=
  match type f, u f with
  | VFILE_HANDLE, UHandle h => handle_bytes h = List.length (f_handle h)
  | VFILE_HANDLE, _ => False
  | (VFILE_PATH | VFILE_CURRENT), (UPath _ | UNull) => True
  | (VFILE_PATH | VFILE_CURRENT), _ => False
  | _, _ => True
  end.

Definition same_file (f g : vfile) : Prop :=
  type f = type g /\
  match type f with
  | VFILE_DESCRIPTOR => fd f = fd g
  | VFILE_PATH | VFILE_CURRENT | VFILE_HANDLE => u f = u g
  | VFILE_NULL | VFILE_SAVED => True
  end.

(** [tc_cmp_file] where it is right: on files that are not handles and have a
    path where both need one. *)
Lemma cmp_file_spec f g :
  handle_wf f -> handle_wf g -> type f <> VFILE_HANDLE ->
  (type f = type g -> is_Some (path f) <-> is_Some (path g)) ->
  exists b, tc_cmp_file f g = Ok b /\ (b = true <-> same_file f g).
Proof.
  destruct f as [tf ff uf], g as [tg fg ug]. unfold tc_cmp_file, same_file, path, handle_wf.
  simpl. intros Hf Hg Hh Hp. case_bool_decide as E; simpl.
  2: { exists false. split; [done|]. split; [done|]. by intros [? _]. }
  subst tg. specialize (Hp eq_refl).
  assert (forall p q : option (list ascii), (is_Some p <-> is_Some q) ->
    exists b, match p, q with
      | None, None => Ok true | Some p1, Some p2 => Ok (bool_decide (p1 = p2))
      | _, _ => Abort end = Ok b /\ (b = true <-> p = q)) as Hpath.
  { intros [p|] [q|] H; simpl.
    - eexists. split; [done|]. rewrite bool_decide_eq_true. split; congruence.
    - destruct H as [H _]. by destruct (H ltac:(eauto)).
    - destruct H as [_ H]. by destruct (H ltac:(eauto)).
    - by exists true. }
  destruct tf; try done; try (by exists true).
  - eexists. split; [done|]. rewrite Z.eqb_eq. tauto.
  - destruct (Hpath _ _ Hp) as (b & -> & Hb). exists b. split; [done|]. rewrite Hb.
    destruct uf, ug; try done; split; try done; try (intros [_ ?]; congruence);
      (intros [= ->]; done).
  - destruct (Hpath _ _ Hp) as (b & -> & Hb). exists b. split; [done|]. rewrite Hb.
    destruct uf, ug; try done; split; try done; try (intros [_ ?]; congruence);
      (intros [= ->]; done).
Qed.

(** Files other than handles are compared by what they name.  Two handles
    of the same size and type are reported equal exactly when their bytes differ:
    the result of [memcmp] is returned unnegated. *)
Theorem tc_cmp_file_handles f g :
  handle_wf f -> handle_wf g ->
  (type f = type g -> is_Some (path f) <-> is_Some (path g)) ->
  exists b, tc_cmp_file f g = Ok b /\
    match type f, u f, u g with
    | VFILE_HANDLE, UHandle h1, UHandle h2 =>
        type g = VFILE_HANDLE -> handle_bytes h1 = handle_bytes h2 ->
        handle_type h1 = handle_type h2 -> (b = true <-> f_handle h1 <> f_handle h2)
    | VFILE_HANDLE, _, _ => type f <> type g
    | _, _, _ => b = true <-> same_file f g
    end.
Proof.
  intros Hf Hg Hp. destruct (decide (type f = VFILE_HANDLE)) as [Ht|Ht].
  - rewrite Ht. unfold tc_cmp_file, handle_wf in *. rewrite Ht in *.
    destruct (u f) as [| | |h1]; try done.
    case_bool_decide as E; simpl.
    + rewrite <- E in Hg. destruct (u g) as [| | |h2]; try done.
      destruct (negb (handle_bytes h1 =? handle_bytes h2)%nat) eqn:E1; reflect_bools.
      { exists false. split; [done|]. intros _ ?. done. }
      destruct (negb (handle_type h1 =? handle_type h2)) eqn:E2; reflect_bools.
      { exists false. split; [done|]. intros _ _ ?. done. }
      eexists. split; [done|]. intros _ _ _. unfold memcmp_ne.
      rewrite negb_true_iff, bool_decide_eq_false, !take_ge by lia. done.
    + exists false. split; [done|]. destruct (u g); done.
  - destruct (cmp_file_spec f g Hf Hg Ht Hp) as (b & -> & Hb). exists b. split; [done|].
    destruct (type f), (u f), (u g); done.
Qed.

Definition handle_a : vfile := mk_vfile VFILE_HANDLE 0 (UHandle (mk_handle 1 1 ["a"%char])).

Lemma tc_cmp_file_handles_witness :
  exists b, tc_cmp_file handle_a handle_a = Ok b /\ (b = true <-> ["a"%char] <> ["a"%char]).
Proof.
  refine (let '(ex_intro _ b (conj E H)) := tc_cmp_file_handles handle_a handle_a _ _ _
          in ex_intro _ b (conj E (H eq_refl eq_refl eq_refl))); done.
Defined.

(** Copying attributes gives [dst] every attribute that [src] has, value and
    flag, except the block count, and keeps the others. *)
Theorem tc_copy_attrs_spec src dst :
  let r := tc_copy_attrs src dst in
  let mk := masks src in
  let mk' := mk_masks (has_mode mk) (has_size mk) (has_nlink mk) (has_fileid mk) false
    (has_uid mk) (has_gid mk) (has_rdev mk) (has_atime mk) (has_mtime mk) (has_ctime mk) in
  attr_file r = attr_file dst /\ vals r = select mk' (vals src) (vals dst) /\
  masks r = mk_masks
    (has_mode mk || has_mode (masks dst)) (has_size mk || has_size (masks dst))
    (has_nlink mk || has_nlink (masks dst)) (has_fileid mk || has_fileid (masks dst))
    (has_blocks (masks dst)) (has_uid mk || has_uid (masks dst))
    (has_gid mk || has_gid (masks dst)) (has_rdev mk || has_rdev (masks dst))
    (has_atime mk || has_atime (masks dst)) (has_mtime mk || has_mtime (masks dst))
    (has_ctime mk || has_ctime (masks dst)).
Proof.
  destruct src as [sf [] []], dst as [df [] []]. unfold tc_copy_attrs. cbn -[select].
  repeat match goal with |- context [if ?b then _ else _] => destruct b; cbn -[select] end;
    done.
Qed.

(** Converting a [stat] to attributes and back restores exactly the fields that
    the mask selects. *)
Lemma stat_attrs_roundtrip st attrs st' :
  let r := vattrs2stat (vstat2attrs st attrs) st' in
  r = select (masks attrs) st st' /\
  (masks attrs = VMASK_INIT_ALL -> r = st) /\ (masks attrs = VMASK_INIT_NONE -> r = st').
Proof.
  destruct attrs as [f m v]. unfold vattrs2stat, vstat2attrs. cbn [masks vals attr_file].
  split_and!.
  - unfold select. cbn. by f_equal; destruct m; cbn; repeat case_match.
  - intros ->. by destruct st.
  - intros ->. by destruct st'.
Qed.

End Api.
