(* ===== verification/Iovec.v ===== *)
(** Splitting arrays of I/O vectors to the size of a compound and merging the
    results back, from [util/iovec_utils.cpp]. *)

From S2P Require Import Prelude CommonTypes PathSpec PathUtils TcApi.
Import Api.
Local Open Scope Z_scope.

Module Iovec.

Definition TC_SPLIT_THRESHOLD : Z := 4096.
Definition OPSIZE : Z := 4.
Definition PUTFH4SZ : Z := 16.
Definition LOOKUP4SZ : Z := 16.
Definition OPEN4SZ : Z := 136.
Definition CLOSE4SZ : Z := 20.
Definition COMPOUND4SZ : Z := 40.
Definition NFS4_FHSIZE : Z := 128.
Definition CPDSIZE : Z := 192 + 256 + COMPOUND4SZ.
Definition RDWRSIZE : Z := 48.

(** [tc_path_tokenize(path, NULL)] of a string stored on its own. *)
Definition count_components (p : list ascii) : outcome Z :=
  let! (n, _) := Paths.tc_path_tokenize (p ++ [Buf.NUL]) (Buf.PMem 0) false true in Ok n.

Definition lookup_size (p : list ascii) : outcome Z :=
  let! n := count_components p in
  Ok (u64 (Z.of_nat (List.length p) + (OPSIZE + LOOKUP4SZ) * (n - 1))).

Definition tc_get_iov_overhead (iov : viovec) : outcome Z :=
  let rdwr_bytes := OPSIZE + RDWRSIZE in
  let! (putfh_bytes, lookup_bytes, open_close_bytes) :=
    match type (file iov) with
    | VFILE_DESCRIPTOR => Ok (OPSIZE + NFS4_FHSIZE, 0, 0)
    | VFILE_PATH =>
        match path (file iov) with
        | None => Abort
        | Some p =>
            let! lookup_bytes := lookup_size p in
            Ok (if starts_with_slash p then OPSIZE else PUTFH4SZ + NFS4_FHSIZE,
                lookup_bytes, OPEN4SZ + CLOSE4SZ + OPSIZE * 3)
        end
    | VFILE_HANDLE =>
        match u (file iov) with
        | UNull => Abort
        | _ => Ok (PUTFH4SZ + NFS4_FHSIZE, 0, OPEN4SZ + CLOSE4SZ + OPSIZE * 2)
        end
    | VFILE_CURRENT =>
        match path (file iov) with
        | None => Ok (0, 0, 0)
        | Some p =>
            assert! (negb (starts_with_slash p)) ;;
            let! lookup_bytes := lookup_size p in
            Ok (0, lookup_bytes, OPEN4SZ + CLOSE4SZ + OPSIZE * 3)
        end
    | VFILE_SAVED => Ok (OPSIZE, 0, 0)
    | VFILE_NULL => Abort
    end in
  Ok (u64 (putfh_bytes + lookup_bytes + open_close_bytes + rdwr_bytes)).

(** The part of [iov] of [len] bytes at offset [off]. *)
Definition piece (iov : viovec) (off len : Z) : viovec :=
  mk_iov (file iov) (u64 (offset iov + off)) len (u64 (data iov + off)) (iov_type iov)
    (is_creation iov && (off =? 0)) (is_direct_io iov) (is_failure iov) (is_eof iov)
    (is_write_stable iov) (u64 (off + len) =? length iov).

(** Returns the compound, its size and the offset in [i_iov] after the part. *)
Definition add_iov_to_cpd (i_iov : viovec) (i_off : Z) (cur_cpd : list viovec)
    (cpd_size len : Z) : outcome (list viovec * Z * Z) :=
  let iov := piece i_iov i_off len in
  let! overhead := tc_get_iov_overhead iov in
  Ok (cur_cpd ++ [iov], u64 (cpd_size + u64 (overhead + len)), u64 (i_off + len)).

(** The loop of [tc_split_iov_array] on the vectors left, the first of them from
    [i_off] on; [None] when [fuel] rounds are not enough. *)
Fixpoint split_loop (fuel : nat) (size_limit : Z) (iovs : list viovec) (i_off : Z)
    (cur_cpd : list viovec) (cpd_size : Z) (parts : list (list viovec))
  : outcome (option (list (list viovec))) :=
  match fuel with
  | O => Ok None
  | S fuel =>
      match iovs with
      | [] => Ok (Some (match cur_cpd with [] => parts | _ => parts ++ [cur_cpd] end))
      | i_iov :: rest =>
          let space_left := u64 (size_limit - cpd_size) in
          let! overhead := tc_get_iov_overhead i_iov in
          let data_remain := u64 (overhead + length i_iov - i_off) in
          if data_remain <=? space_left then
            let! (cur_cpd, cpd_size, _) :=
              add_iov_to_cpd i_iov i_off cur_cpd cpd_size (u64 (length i_iov - i_off)) in
            split_loop fuel size_limit rest 0 cur_cpd cpd_size parts
          else
            let tiny_head := space_left <=? TC_SPLIT_THRESHOLD in
            let tiny_tail := (u64 (data_remain + CPDSIZE) <=? size_limit)
                             && (u64 (data_remain - space_left) <=? TC_SPLIT_THRESHOLD) in
            if tiny_head || tiny_tail then
              split_loop fuel size_limit iovs i_off [] CPDSIZE (parts ++ [cur_cpd])
            else
              let! (cur_cpd, _, i_off) :=
                add_iov_to_cpd i_iov i_off cur_cpd cpd_size (u64 (size_limit - cpd_size)) in
              split_loop fuel size_limit iovs i_off [] CPDSIZE (parts ++ [cur_cpd])
      end
  end.

Definition tc_split_iov_array (fuel : nat) (iova : list viovec) (size_limit : Z)
  : outcome (option (list (list viovec))) :=
  split_loop fuel size_limit iova 0 [] CPDSIZE [].

(** ** Restoring *)

(** The vectors, the index of the current one and the offset reached in it; an
    access past the array is [Abort]. *)
Definition rstate : Type := list viovec * nat * Z.

Definition advance (s : rstate) (eof : bool) : outcome rstate :=
  let '(iovs, i, i_off) := s in
  match iovs !! i with
  | None => Abort
  | Some i_iov => Ok (<[ i := set_eof (set_length i_iov i_off) eof ]> iovs, S i, 0)
  end.

Definition match_ (s : rstate) (iov : viovec) : outcome bool :=
  let '(iovs, i, i_off) := s in
  match iovs !! i with
  | None => Abort
  | Some i_iov =>
      let! same := tc_cmp_file (file iov) (file i_iov) in
      Ok (same && (offset iov =? u64 (offset i_iov + i_off)))
  end.

(** One part; the flag is [res]. *)
Fixpoint restore_part (s : rstate) (part : list viovec) : outcome (rstate * bool) :=
  match part with
  | [] => Ok (s, true)
  | iov :: part =>
      let! m := match_ s iov in
      let! s := if negb m then advance s false else Ok s in
      let! m := match_ s iov in
      if m then
        let '(iovs, i, i_off) := s in
        let i_off := u64 (i_off + length iov) in
        match iovs !! i with
        | None => Abort
        | Some i_iov =>
            let! s := if is_eof iov || (i_off =? length i_iov)
                      then advance (iovs, i, i_off) (is_eof iov) else Ok (iovs, i, i_off) in
            restore_part s part
        end
      else Ok (s, false)
  end.

Fixpoint restore_parts (s : rstate) (parts : list (list viovec)) : outcome (rstate * bool) :=
  match parts with
  | [] => Ok (s, true)
  | p :: parts =>
      let! (s, res) := restore_part s p in
      if res then restore_parts s parts else Ok (s, false)
  end.

(** Returns the restored vectors and whether all parts matched. *)
Definition vrestore_iov_array (iova : list viovec) (parts : list (list viovec))
  : outcome (list viovec * bool) :=
  let! (s, res) := restore_parts (iova, O, 0) parts in
  let! s := if negb (s.2 =? 0) then advance s false else Ok s in
  Ok (s.1.1, res).

Definition tc_merge_iov_array (iova : list viovec) : bool := false.

(** ** Rounds of the split loop *)

(** The vector has an overhead [o] below the split threshold and the sizes do not
    wrap around. *)
Record iov_ok (limit : Z) (iov : viovec) (o : Z) : Prop := {
  ok_overhead : tc_get_iov_overhead iov = Ok o;
  ok_pos : 0 < o <= TC_SPLIT_THRESHOLD;
  ok_length : 0 <= length iov;
  ok_small : o + length iov + limit + CPDSIZE < 2 ^ 64
}.

(** The overhead depends on the file only. *)
Lemma overhead_piece iov off len : tc_get_iov_overhead (piece iov off len) = tc_get_iov_overhead iov.
Proof. done. Qed.

Section rounds.
Context (limit : Z) (iov : viovec) (o : Z) (Hok : iov_ok limit iov o).
Context (rest : list viovec) (i_off cs : Z) (cur : list viovec) (parts : list (list viovec)).
Context (Hoff : 0 <= i_off <= length iov) (Hcs : CPDSIZE <= cs <= limit).

Lemma add_iov_spec len :
  0 <= len -> i_off + len <= length iov -> cs + o + len < 2 ^ 64 ->
  add_iov_to_cpd iov i_off cur cs len = Ok (cur ++ [piece iov i_off len], cs + o + len, i_off + len).
Proof.
  intros H1 H2 H3. unfold add_iov_to_cpd. rewrite overhead_piece, (ok_overhead _ _ _ Hok).
  pose proof Hok as []. cbn [obind]. unfold CPDSIZE, COMPOUND4SZ in *.
  rewrite (u64_small (o + len)), (u64_small (cs + (o + len))), (u64_small (i_off + len)) by lia.
  do 3 f_equal. lia.
Qed.

Lemma split_fit fuel :
  o + (length iov - i_off) <= limit - cs ->
  split_loop (S fuel) limit (iov :: rest) i_off cur cs parts =
  split_loop fuel limit rest 0 (cur ++ [piece iov i_off (length iov - i_off)])
    (cs + o + (length iov - i_off)) parts.
Proof.
  intros Hfit. cbn [split_loop]. rewrite (ok_overhead _ _ _ Hok). cbn [obind].
  pose proof Hok as []. unfold CPDSIZE, COMPOUND4SZ in *.
  rewrite (u64_small (limit - cs)), (u64_small (o + length iov - i_off)),
    (u64_small (length iov - i_off)) by lia.
  rewrite (proj2 (Z.leb_le _ _)) by lia. by rewrite add_iov_spec by lia.
Qed.

(** The head or the tail of a split would be too small. *)
Definition tiny (space remain : Z) : bool :=
  (space <=? TC_SPLIT_THRESHOLD) ||
  ((remain + CPDSIZE <=? limit) && (remain - space <=? TC_SPLIT_THRESHOLD)).

Lemma split_unfit fuel :
  limit - cs < o + (length iov - i_off) ->
  split_loop (S fuel) limit (iov :: rest) i_off cur cs parts =
  if tiny (limit - cs) (o + (length iov - i_off)) then
    split_loop fuel limit (iov :: rest) i_off [] CPDSIZE (parts ++ [cur])
  else
    let! (cur, _, i_off) := add_iov_to_cpd iov i_off cur cs (limit - cs) in
    split_loop fuel limit (iov :: rest) i_off [] CPDSIZE (parts ++ [cur]).
Proof.
  intros Hfit. cbn [split_loop]. rewrite (ok_overhead _ _ _ Hok). cbn [obind].
  pose proof Hok as []. unfold tiny, CPDSIZE, COMPOUND4SZ in *.
  rewrite (u64_small (limit - cs)), (u64_small (o + length iov - i_off)) by lia.
  rewrite (proj2 (Z.leb_gt (o + length iov - i_off) _)) by lia.
  rewrite !u64_small by lia. by rewrite !Z.add_sub_assoc.
Qed.

Lemma split_split fuel :
  limit - cs < o + (length iov - i_off) ->
  tiny (limit - cs) (o + (length iov - i_off)) = false ->
  limit - cs <= length iov - i_off ->
  split_loop (S fuel) limit (iov :: rest) i_off cur cs parts =
  split_loop fuel limit (iov :: rest) (i_off + (limit - cs)) [] CPDSIZE
    (parts ++ [cur ++ [piece iov i_off (limit - cs)]]).
Proof.
  intros H1 H2 H3. rewrite split_unfit, H2 by done.
  pose proof Hok as []. unfold CPDSIZE, COMPOUND4SZ in *.
  by rewrite add_iov_spec by lia.
Qed.

End rounds.

(** ** The pieces of a vector *)

(** [ps] are consecutive pieces of [iov] from [off] to its end, none of them empty
    but possibly the only one. *)
Inductive cut (iov : viovec) : Z -> list viovec -> Prop :=
  | cut_last off : 0 <= off <= length iov -> (off = 0 \/ off < length iov) ->
      cut iov off [piece iov off (length iov - off)]
  | cut_more off len ps : 0 <= off -> 0 < len -> off + len < length iov ->
      cut iov (off + len) ps -> cut iov off (piece iov off len :: ps).

(** The pieces of several vectors, in order. *)
Inductive tiled : list viovec -> list viovec -> Prop :=
  | tiled_nil : tiled [] []
  | tiled_cons iov ps iovs qs :
      cut iov 0 ps -> tiled iovs qs -> tiled (iov :: iovs) (ps ++ qs).

(** In an empty compound a vector is cut into pieces that fill compounds, and a
    last one that fits with its overhead. *)
Lemma split_from_empty limit iov o rest k :
  iov_ok limit iov o -> TC_SPLIT_THRESHOLD < limit - CPDSIZE ->
  forall i_off r parts fuel,
  0 <= i_off -> length iov - i_off = Z.of_nat k * (limit - CPDSIZE) + r ->
  0 <= r <= limit - CPDSIZE - o -> (i_off = 0 /\ k = O \/ 0 < r) ->
  exists parts' ps last, split_loop (k + S fuel) limit (iov :: rest) i_off [] CPDSIZE parts =
      split_loop fuel limit rest 0 [last] (CPDSIZE + o + r) parts' /\
    concat parts' = concat parts ++ ps /\ cut iov i_off (ps ++ [last]).
Proof.
  intros Hok HT.
  assert (0 < limit - CPDSIZE) as HS by (unfold TC_SPLIT_THRESHOLD in *; lia).
  induction k as [|k IH]; intros i_off r parts fuel Hoff Hlen Hr Hne.
  - exists parts, [], (piece iov i_off (length iov - i_off)). cbn [Nat.add].
    change (Z.of_nat 0) with 0 in Hlen. rewrite Z.mul_0_l, Z.add_0_l in Hlen.
    assert (i_off = 0 \/ i_off < length iov) by lia. pose proof (ok_length _ _ _ Hok).
    split_and!; [|by rewrite app_nil_r | apply cut_last; lia].
    rewrite (split_fit limit iov o) by (done || lia). by rewrite Hlen.
  - assert (length iov - i_off - (limit - CPDSIZE) = Z.of_nat k * (limit - CPDSIZE) + r) as Hl' by lia.
    assert (0 < r) by lia. pose proof (ok_pos _ _ _ Hok).
    assert (0 <= Z.of_nat k * (limit - CPDSIZE)) by (apply Z.mul_nonneg_nonneg; lia).
    cbn [Nat.add]. rewrite (split_split limit iov o); [|done|lia|lia|lia| |lia].
    2: { unfold tiny. rewrite (proj2 (Z.leb_gt (limit - CPDSIZE) _)) by lia.
         by rewrite (proj2 (Z.leb_gt (_ + CPDSIZE) _)) by lia. }
    destruct (IH (i_off + (limit - CPDSIZE)) r
      (parts ++ [[] ++ [piece iov i_off (limit - CPDSIZE)]]) fuel)
      as (parts' & ps & last & -> & Hc & Hcut); [lia | lia | lia | lia |].
    exists parts', (piece iov i_off (limit - CPDSIZE) :: ps), last. split_and!; [done | |].
    + rewrite Hc, concat_app, <- app_assoc. done.
    + apply (cut_more iov i_off (limit - CPDSIZE)); [lia | lia | lia | done].
Qed.

(** ** When the split is exact *)

Definition ovh (iov : viovec) : Z :=
  match tc_get_iov_overhead iov with Ok o => o | _ => 0 end.

Section exact.
Context (limit : Z).

(** From an empty compound, what is left after filling compounds is not empty and
    fits with its overhead. *)
Definition fresh_ok (o len : Z) : bool :=
  let s := limit - CPDSIZE in
  ((len <? s) || (0 <? len mod s)) && (len mod s <=? s - o).

(** The sizes alone decide whether the split is exact: a vector is split only
    where more than the split point is left, and its rest is [fresh_ok]. *)
Fixpoint clean_split (space : Z) (iovs : list viovec) : bool :=
  match iovs with
  | [] => true
  | iov :: iovs =>
      let o := ovh iov in
      let len := length iov in
      let s := limit - CPDSIZE in
      if o + len <=? space then clean_split (space - o - len) iovs
      else if tiny limit space (o + len) then
        fresh_ok o len && clean_split (s - o - len mod s) iovs
      else
        (space <? len) && fresh_ok o (len - space)
        && clean_split (s - o - (len - space) mod s) iovs
  end.

(** Enough rounds of the loop. *)
Definition rounds (iovs : list viovec) : nat :=
  S (sum_list_with (fun iov => Z.to_nat (length iov / (limit - CPDSIZE)) + 3)%nat iovs).

Context (HT : TC_SPLIT_THRESHOLD < limit - CPDSIZE).

Lemma split_rest iov rest i_off parts fuel :
  iov_ok limit iov (ovh iov) -> 0 <= i_off -> (i_off = 0 \/ i_off < length iov) ->
  let len := length iov - i_off in
  fresh_ok (ovh iov) len = true ->
  (Z.to_nat (length iov / (limit - CPDSIZE)) + 1 <= fuel)%nat ->
  exists fuel' parts' ps last, split_loop fuel limit (iov :: rest) i_off [] CPDSIZE parts =
      split_loop fuel' limit rest 0 [last]
        (CPDSIZE + ovh iov + len mod (limit - CPDSIZE)) parts' /\
    (fuel <= fuel' + Z.to_nat (length iov / (limit - CPDSIZE)) + 1)%nat /\
    concat parts' = concat parts ++ ps /\ cut iov i_off (ps ++ [last]).
Proof.
  intros Hok Hoff Hne len Hfr Hfuel. unfold fresh_ok in Hfr. reflect_bools.
  assert (0 < limit - CPDSIZE) as HS by (unfold TC_SPLIT_THRESHOLD in *; lia).
  set (s := limit - CPDSIZE) in *. subst len.
  pose proof (ok_length _ _ _ Hok). set (len := length iov - i_off) in *.
  assert (0 <= len) by lia.
  pose proof (Z.div_mod len s ltac:(lia)) as Hdm. pose proof (Z.mod_pos_bound len s HS).
  assert (0 <= len / s) by (by apply Z.div_pos).
  assert (len / s <= length iov / s) by (apply Z.div_le_mono; lia).
  set (k := Z.to_nat (len / s)).
  destruct (split_from_empty limit iov (ovh iov) rest k Hok HT i_off (len mod s) parts
              (fuel - k - 1)) as (parts' & ps & last & E & Hc & Hcut).
  - done.
  - subst k. rewrite Z2Nat.id by done. fold s len. lia.
  - fold s. lia.
  - apply orb_true_iff in H as [H|H]; reflect_bools; [|by right].
    destruct Hne as [->|Hne].
    + left. split; [done|]. subst k. by rewrite Z.div_small.
    + right. rewrite Z.mod_small; lia.
  - exists (fuel - k - 1)%nat, parts', ps, last. split_and!; [|lia|done|done].
    rewrite <- E. f_equal. lia.
Qed.

Lemma split_tiled iovs :
  Forall (fun iov => iov_ok limit iov (ovh iov)) iovs ->
  forall cur cs parts fuel, CPDSIZE <= cs <= limit -> clean_split (limit - cs) iovs = true ->
  (rounds iovs <= fuel)%nat ->
  exists parts' qs, split_loop fuel limit iovs 0 cur cs parts = Ok (Some parts') /\
    concat parts' = concat parts ++ cur ++ qs /\ tiled iovs qs.
Proof.
  assert (0 < limit - CPDSIZE) as HS by (unfold TC_SPLIT_THRESHOLD in *; lia).
  induction 1 as [|iov iovs Hok _ IH]; intros cur cs parts fuel Hcs Hcl Hfuel.
  { unfold rounds in Hfuel. simpl in Hfuel. destruct fuel as [|fuel]; [lia|].
    eexists _, []. split_and!; [done | | constructor]. rewrite app_nil_r.
    destruct cur; [by rewrite app_nil_r|]. by rewrite concat_snoc. }
  unfold rounds in Hfuel. cbn [sum_list_with] in Hfuel. fold (rounds iovs) in Hfuel.
  destruct fuel as [|fuel]; [lia|].
  pose proof (ok_length _ _ _ Hok) as Hlen. pose proof (ok_pos _ _ _ Hok) as Hpos.
  cbn [clean_split] in Hcl.
  destruct (ovh iov + length iov <=? limit - cs) eqn:Hfit; reflect_bools.
  { rewrite (split_fit limit iov (ovh iov)) by (done || lia). rewrite Z.sub_0_r.
    destruct (IH (cur ++ [piece iov 0 (length iov)]) (cs + ovh iov + length iov) parts fuel)
      as (parts' & qs & E & Hc & Ht); [lia | | unfold rounds; lia |].
    { by replace (limit - (cs + ovh iov + length iov))
        with (limit - cs - ovh iov - length iov) by lia. }
    exists parts', ([piece iov 0 (length iov)] ++ qs). split_and!; [done | |].
    - by rewrite Hc, <- !app_assoc.
    - constructor; [|done]. rewrite <- (Z.sub_0_r (length iov)). apply cut_last; lia. }
  assert (forall i_off parts0, 0 <= i_off -> i_off = 0 \/ i_off < length iov ->
    fresh_ok (ovh iov) (length iov - i_off) = true ->
    clean_split (limit - CPDSIZE - ovh iov - (length iov - i_off) mod (limit - CPDSIZE)) iovs = true ->
    exists parts' ps qs, split_loop fuel limit (iov :: iovs) i_off [] CPDSIZE parts0 =
        Ok (Some parts') /\ concat parts' = concat parts0 ++ ps ++ qs /\
      cut iov i_off ps /\ tiled iovs qs) as Hrest.
  { intros i_off parts0 Ho Hne Hfr Hcl'.
    destruct (split_rest iov iovs i_off parts0 fuel Hok Ho Hne Hfr)
      as (fuel' & parts' & ps & last & -> & Hf' & Hc & Hcut); [lia|].
    pose proof (Z.mod_pos_bound (length iov - i_off) (limit - CPDSIZE) HS).
    unfold fresh_ok in Hfr. reflect_bools.
    destruct (IH [last] (CPDSIZE + ovh iov + (length iov - i_off) mod (limit - CPDSIZE))
                parts' fuel') as (parts'' & qs & E & Hc' & Ht); [lia | | unfold rounds; lia |].
    { rewrite <- Hcl'. f_equal. lia. }
    exists parts'', (ps ++ [last]), qs. split_and!; try done.
    by rewrite Hc', Hc, <- !app_assoc. }
  destruct (tiny limit (limit - cs) (ovh iov + length iov)) eqn:Htiny; reflect_bools.
  - rewrite (split_unfit limit iov (ovh iov)), Z.sub_0_r, Htiny by (done || lia).
    destruct (Hrest 0 (parts ++ [cur])) as (parts' & ps & qs & -> & Hc & Hcut & Ht);
      rewrite ?Z.sub_0_r; try done; [by left|].
    exists parts', (ps ++ qs). split_and!; [done | | by constructor].
    by rewrite Hc, concat_snoc, <- app_assoc.
  - rewrite (split_split limit iov (ovh iov)) by (rewrite ?Z.sub_0_r; done || lia).
    destruct (Hrest (0 + (limit - cs)) (parts ++ [cur ++ [piece iov 0 (limit - cs)]]))
      as (parts' & ps & qs & -> & Hc & Hcut & Ht); rewrite ?Z.add_0_l; try done; [lia | by right |].
    exists parts', ((piece iov 0 (limit - cs) :: ps) ++ qs). split_and!; [done | |].
    + by rewrite Hc, concat_snoc, <- !app_assoc.
    + constructor; [|done]. unfold tiny in Htiny. reflect_bools. unfold TC_SPLIT_THRESHOLD in *.
      apply cut_more; [lia | lia | lia | done].
Qed.

End exact.

(** ** Restoring what was split *)

Lemma restore_part_app s a b :
  restore_part s (a ++ b) =
  let! (s, res) := restore_part s a in if res then restore_part s b else Ok (s, false).
Proof.
  revert s. induction a as [|iov a IH]; intros s; [done|].
  cbn [app restore_part]. destruct (match_ s iov) as [m| |]; try done. cbn [obind].
  destruct (if negb m then _ else _) as [s1| |]; try done. cbn [obind].
  destruct (match_ s1 iov) as [m'| |]; try done. cbn [obind].
  destruct m'; [|done]. destruct s1 as [[iovs i] i_off].
  destruct (iovs !! i); [|done].
  destruct (if is_eof iov || _ then _ else _) as [s2| |]; try done. cbn [obind]. apply IH.
Qed.

Lemma restore_parts_concat s s' parts :
  restore_part s (concat parts) = Ok (s', true) -> restore_parts s parts = Ok (s', true).
Proof.
  revert s. induction parts as [|p parts IH]; intros s; [done|].
  cbn [concat restore_parts]. rewrite restore_part_app.
  destruct (restore_part s p) as [[s1 []]| |]; cbn [obind]; try done. apply IH.
Qed.

(** A vector whose file equals itself and that has not hit the end of file. *)
Definition restorable (iov : viovec) : Prop :=
  tc_cmp_file (file iov) (file iov) = Ok true /\ is_eof iov = false /\
  0 <= length iov < 2 ^ 64.

Lemma restore_one iovs i off iov len rest :
  iovs !! i = Some iov -> restorable iov -> 0 <= off -> 0 <= len -> off + len <= length iov ->
  restore_part (iovs, i, off) (piece iov off len :: rest) =
  restore_part (if off + len =? length iov then (iovs, S i, 0) else (iovs, i, off + len)) rest.
Proof.
  intros Hi (Hcmp & Heof & Hl) H1 H2 H3. cbn [restore_part].
  assert (match_ (iovs, i, off) (piece iov off len) = Ok true) as Hm.
  { cbn [match_]. rewrite Hi. cbn [file piece]. rewrite Hcmp. cbn [obind].
    cbn [offset piece]. by rewrite Z.eqb_refl. }
  rewrite Hm. cbn [obind negb]. rewrite Hm. cbn [obind]. rewrite Hi.
  cbn [length is_eof piece]. rewrite Heof, u64_small by lia. cbn [orb].
  destruct (off + len =? length iov) eqn:E; [|done]. reflect_bools.
  cbn [advance]. rewrite Hi. cbn [obind].
  replace (set_eof (set_length iov (off + len)) false) with iov; [by rewrite list_insert_id|].
  rewrite E. destruct iov; cbn in *. by subst.
Qed.

Lemma restore_cut iovs i iov off ps rest :
  iovs !! i = Some iov -> restorable iov -> cut iov off ps ->
  restore_part (iovs, i, off) (ps ++ rest) = restore_part (iovs, S i, 0) rest.
Proof.
  intros Hi Hr Hcut. induction Hcut as [off Ho Hne|off len ps Ho Hlen Hlt _ IH].
  - cbn [app]. rewrite restore_one by (done || lia).
    by rewrite (proj2 (Z.eqb_eq _ _)) by lia.
  - cbn [app]. rewrite restore_one by (done || lia).
    by rewrite (proj2 (Z.eqb_neq _ _)) by lia.
Qed.

Lemma restore_tiled pre iovs qs :
  Forall restorable iovs -> tiled iovs qs ->
  restore_part (pre ++ iovs, List.length pre, 0) qs =
  Ok ((pre ++ iovs, List.length (pre ++ iovs), 0), true).
Proof.
  intros Hr Ht. revert pre Hr. induction Ht as [|iov ps iovs qs Hcut _ IH]; intros pre Hr.
  - by rewrite app_nil_r.
  - apply Forall_cons in Hr as [H1 H2].
    rewrite (restore_cut _ _ iov 0 ps qs) by (try done; by apply list_lookup_middle).
    specialize (IH (pre ++ [iov]) H2). rewrite <- app_assoc in IH. cbn [app] in IH.
    rewrite <- IH. f_equal. rewrite length_app. simpl. f_equal. f_equal. lia.
Qed.

Lemma split_restore limit iovs fuel :
  TC_SPLIT_THRESHOLD < limit - CPDSIZE ->
  Forall (fun iov => iov_ok limit iov (ovh iov)) iovs -> Forall restorable iovs ->
  clean_split limit (limit - CPDSIZE) iovs = true -> (rounds limit iovs <= fuel)%nat ->
  exists parts, tc_split_iov_array fuel iovs limit = Ok (Some parts) /\
    tiled iovs (concat parts) /\ vrestore_iov_array iovs parts = Ok (iovs, true).
Proof.
  intros HT Hok Hr Hcl Hf. unfold tc_split_iov_array.
  destruct (split_tiled limit HT iovs Hok [] CPDSIZE [] fuel) as (parts & qs & E & Hc & Ht);
    [unfold TC_SPLIT_THRESHOLD in *; lia | done | done |].
  simpl in Hc. exists parts. rewrite Hc. split_and!; [done | done|].
  unfold vrestore_iov_array.
  rewrite (restore_parts_concat (iovs, O, 0) (iovs, List.length iovs, 0)); [done|].
  rewrite Hc. apply (restore_tiled [] iovs qs); done.
Qed.

(** C8: for vectors of files that compare equal to themselves, not marked as at the end of
    the file, with an overhead of at most the split threshold, a limit that leaves more than
    the threshold for data, sizes that do not overflow, and such that no piece runs past its
    vector and no empty rest is left ([clean_split]): splitting into compounds terminates,
    the parts in order are exactly the pieces of the vectors, without gap or overlap, and
    restoring from parts whose I/O was complete gives the vectors back. *)
Theorem split_restore_roundtrip limit iovs fuel :
  TC_SPLIT_THRESHOLD < limit - CPDSIZE ->
  Forall (fun iov => iov_ok limit iov (ovh iov)) iovs -> Forall restorable iovs ->
  clean_split limit (limit - CPDSIZE) iovs = true -> (rounds limit iovs <= fuel)%nat ->
  exists parts, tc_split_iov_array fuel iovs limit = Ok (Some parts) /\
    tiled iovs (concat parts) /\ vrestore_iov_array iovs parts = Ok (iovs, true).
Proof. apply split_restore. Qed.

Definition fd_iov (fd off len : Z) : viovec :=
  mk_iov (vfile_from_fd fd) off len 4096 1 false false false false false false.

Lemma split_restore_roundtrip_witness :
  exists parts, tc_split_iov_array 40 [fd_iov 3 0 20000; fd_iov 4 100 300] 10000 = Ok (Some parts) /\
    tiled [fd_iov 3 0 20000; fd_iov 4 100 300] (concat parts) /\
    vrestore_iov_array [fd_iov 3 0 20000; fd_iov 4 100 300] parts =
      Ok ([fd_iov 3 0 20000; fd_iov 4 100 300], true).
Proof.
  apply (split_restore_roundtrip 10000 [fd_iov 3 0 20000; fd_iov 4 100 300] 40).
  - reflexivity.
  - repeat constructor; vm_compute; congruence.
  - repeat constructor; vm_compute; congruence.
  - vm_compute. reflexivity.
  - apply Nat.leb_le. vm_compute. reflexivity.
Defined.

(** Vectors that fit in a compound with their overhead are split cleanly. *)
Lemma clean_split_fits limit iovs space :
  TC_SPLIT_THRESHOLD < limit - CPDSIZE ->
  Forall (fun iov => iov_ok limit iov (ovh iov) /\ ovh iov + length iov <= limit - CPDSIZE) iovs ->
  clean_split limit space iovs = true.
Proof.
  intros HT H. revert space. induction H as [|iov iovs [Hok Hfit] _ IH]; intros space; [done|].
  pose proof (ok_pos _ _ _ Hok). pose proof (ok_length _ _ _ Hok).
  cbn [clean_split]. destruct (_ <=? space) eqn:E; [apply IH|]. reflect_bools.
  assert (forall len, 0 <= len <= length iov -> fresh_ok limit (ovh iov) len = true) as Hfr.
  { intros len Hlen. unfold fresh_ok. rewrite Z.mod_small by lia.
    rewrite (proj2 (Z.ltb_lt _ _)), (proj2 (Z.leb_le _ _)) by lia. done. }
  destruct (tiny limit space _) eqn:Ht.
  - rewrite Hfr by lia. apply IH.
  - unfold tiny in Ht. reflect_bools.
    destruct (ovh iov + length iov + CPDSIZE <=? limit) eqn:E2; reflect_bools; [|lia].
    simpl in H2. reflect_bools. rewrite (proj2 (Z.ltb_lt _ _)), Hfr by lia. apply IH.
Qed.

(** ** Where the split goes wrong *)

(** The bytes of a compound: its header, overheads and data. *)
Definition cpd_bytes (part : list viovec) : Z :=
  CPDSIZE + foldr (fun iov n => ovh iov + length iov + n) 0 part.

(** A single vector that alone would exceed the limit only because of its
    overhead is split past its end.  The first part reads or writes beyond the
    vector's buffer, and the length of the second part wraps around to almost
    2^64. *)
Theorem split_overreads limit iov fuel :
  TC_SPLIT_THRESHOLD < limit - CPDSIZE -> iov_ok limit iov (ovh iov) ->
  length iov < limit - CPDSIZE < ovh iov + length iov ->
  exists p1 p2, tc_split_iov_array (S (S (S fuel))) [iov] limit = Ok (Some [[p1]; [p2]]) /\
    length p1 = limit - CPDSIZE /\ length iov < length p1 /\
    length p2 = 2 ^ 64 - (length p1 - length iov).
Proof.
  intros HT Hok [H1 H2]. pose proof Hok as [Hov Hpos Hlen Hsm].
  unfold tc_split_iov_array. set (s := limit - CPDSIZE) in *.
  assert (0 < s) as Hs by (unfold TC_SPLIT_THRESHOLD in *; lia).
  rewrite (split_unfit limit iov (ovh iov)) by (done || (unfold CPDSIZE in *; lia)).
  rewrite Z.sub_0_r.
  replace (tiny limit (limit - CPDSIZE) (ovh iov + length iov)) with false.
  2: { symmetry. unfold tiny. fold s. rewrite (proj2 (Z.leb_gt s _)) by lia.
       by rewrite (proj2 (Z.leb_gt (_ + CPDSIZE) _)) by lia. }
  unfold add_iov_to_cpd. rewrite overhead_piece, Hov. cbn [obind]. fold s.
  rewrite Z.add_0_l, (u64_small s) by (unfold CPDSIZE, COMPOUND4SZ in *; lia).
  cbn [split_loop]. rewrite Hov. cbn [obind]. fold s.
  rewrite (u64_small s) by (unfold CPDSIZE, COMPOUND4SZ in *; lia).
  rewrite (u64_small (ovh iov + length iov - s)) by (unfold CPDSIZE, COMPOUND4SZ in *; lia).
  rewrite (proj2 (Z.leb_le _ _)) by lia.
  unfold add_iov_to_cpd. rewrite overhead_piece, Hov. cbn [obind app].
  eexists _, _. split; [done|]. cbn [length piece]. split_and!; [done | done|].
  unfold u64. rewrite <- (Z.mod_add _ 1) by lia. rewrite Z.mod_small; unfold CPDSIZE, COMPOUND4SZ in *; lia.
Qed.

Lemma split_overreads_witness :
  exists p1 p2, tc_split_iov_array 3 [fd_iov 3 0 9500] 10000 = Ok (Some [[p1]; [p2]]) /\
    length p1 = 9512 /\ length p2 = 2 ^ 64 - 12.
Proof.
  refine (let '(ex_intro _ p1 (ex_intro _ p2 (conj E (conj H1 (conj _ H2))))) :=
            split_overreads 10000 (fd_iov 3 0 9500) 0 _ _ _
          in ex_intro _ p1 (ex_intro _ p2 (conj E (conj H1 _)))).
  - reflexivity.
  - repeat constructor; vm_compute; congruence.
  - split; reflexivity.
  - rewrite H1 in H2. exact H2.
Defined.

(** A vector whose data exactly fills a compound is split into a part with
    all of its data and an empty part, and restoring from these parts runs past
    the end of the array. *)
Theorem split_exact_breaks_restore limit iov fuel :
  TC_SPLIT_THRESHOLD < limit - CPDSIZE -> iov_ok limit iov (ovh iov) -> restorable iov ->
  length iov = limit - CPDSIZE ->
  exists parts, tc_split_iov_array (S (S (S fuel))) [iov] limit = Ok (Some parts) /\
    parts = [[piece iov 0 (length iov)]; [piece iov (length iov) 0]] /\
    vrestore_iov_array [iov] parts = Abort.
Proof.
  intros HT Hok Hr Hlen. pose proof Hok as [Hov Hpos _ Hsm].
  assert (0 < length iov) as Hs by (unfold TC_SPLIT_THRESHOLD in *; lia).
  unfold tc_split_iov_array. eexists. split_and!; [|reflexivity|].
  - rewrite (split_split limit iov (ovh iov)); [|done|lia|unfold CPDSIZE in *; lia|lia| |lia].
    2: { unfold tiny. rewrite (proj2 (Z.leb_gt (limit - CPDSIZE) _)) by lia.
         by rewrite (proj2 (Z.leb_gt (_ + CPDSIZE) _)) by lia. }
    rewrite (split_fit limit iov (ovh iov)); [|done|lia|unfold CPDSIZE in *; lia|].
    2: { unfold CPDSIZE, TC_SPLIT_THRESHOLD in *; lia. }
    rewrite Z.add_0_l, <- Hlen, Z.sub_diag. done.
  - unfold vrestore_iov_array. cbn [restore_parts].
    rewrite (restore_one [iov] 0 0 iov (length iov) []) by (done || lia).
    rewrite Z.add_0_l, Z.eqb_refl. cbn [restore_part obind]. done.
Qed.

Lemma split_exact_breaks_restore_witness :
  exists parts, tc_split_iov_array 3 [fd_iov 3 0 9512] 10000 = Ok (Some parts) /\
    vrestore_iov_array [fd_iov 3 0 9512] parts = Abort.
Proof.
  refine (let '(ex_intro _ ps (conj E (conj _ H))) :=
            split_exact_breaks_restore 10000 (fd_iov 3 0 9512) 0 _ _ _ _
          in ex_intro _ ps (conj E H)).
  - reflexivity.
  - repeat constructor; vm_compute; congruence.
  - repeat constructor; vm_compute; congruence.
  - reflexivity.
Defined.

Lemma split_prefix fuel limit iovs i_off cur cs parts r :
  split_loop fuel limit iovs i_off cur cs parts = Ok (Some r) -> exists r', r = parts ++ r'.
Proof.
  revert iovs i_off cur cs parts. induction fuel as [|fuel IH]; intros iovs i_off cur cs parts; [done|].
  cbn [split_loop]. destruct iovs as [|iov rest].
  { destruct cur; intros [= <-]; [exists []; by rewrite app_nil_r | eauto]. }
  intros H. inv_outcome H. destruct (_ <=? _) in H.
  - inv_outcome H. destruct a0 as [[? ?] ?]. by apply IH in H.
  - destruct (_ || _) in H.
    + apply IH in H as [r' ->]. rewrite <- app_assoc. eauto.
    + inv_outcome H. destruct a0 as [[? ?] ?]. apply IH in H as [r' ->].
      rewrite <- app_assoc. eauto.
Qed.

(** A part made by splitting a long vector is larger than the limit, by the
    overhead of the vector. *)
Theorem split_exceeds_limit limit iov iovs fuel r :
  TC_SPLIT_THRESHOLD < limit - CPDSIZE -> iov_ok limit iov (ovh iov) ->
  limit - CPDSIZE <= length iov ->
  tc_split_iov_array (S fuel) (iov :: iovs) limit = Ok (Some r) ->
  exists p r', r = p :: r' /\ cpd_bytes p = limit + ovh iov.
Proof.
  intros HT Hok Hlen. pose proof (ok_pos _ _ _ Hok).
  unfold tc_split_iov_array.
  rewrite (split_split limit iov (ovh iov));
    [|done|unfold TC_SPLIT_THRESHOLD in *; lia|unfold CPDSIZE, TC_SPLIT_THRESHOLD in *; lia|lia| |lia].
  2: { unfold tiny. rewrite (proj2 (Z.leb_gt (limit - CPDSIZE) _)) by lia.
       by rewrite (proj2 (Z.leb_gt (_ + CPDSIZE) _)) by lia. }
  intros [r' ->]%split_prefix. eexists _, _. split; [done|].
  unfold cpd_bytes. cbn [foldr app]. unfold ovh at 1. rewrite overhead_piece.
  fold (ovh iov). cbn [length piece]. lia.
Qed.

Lemma split_exceeds_limit_witness :
  exists p r', match tc_split_iov_array 40 [fd_iov 3 0 20000] 10000 with
               | Ok (Some r) => r | _ => [] end = p :: r' /\ cpd_bytes p = 10184.
Proof.
  refine (split_exceeds_limit 10000 (fd_iov 3 0 20000) [] 39 _ _ _ _ _).
  - reflexivity.
  - repeat constructor; vm_compute; congruence.
  - vm_compute. congruence.
  - vm_compute. reflexivity.
Defined.

(** A long vector at the cursor of its descriptor is split into parts whose
    offsets are no longer the cursor: the marker [TC_OFFSET_CUR] is added to, and
    the second part goes to an absolute offset near the start of the file. *)
Theorem split_loses_cursor limit iov iovs fuel r :
  TC_SPLIT_THRESHOLD < limit - CPDSIZE -> iov_ok limit iov (ovh iov) ->
  limit - CPDSIZE + (limit - CPDSIZE) < length iov -> offset iov = TC_OFFSET_CUR ->
  tc_split_iov_array (S (S fuel)) (iov :: iovs) limit = Ok (Some r) ->
  exists p1 p2 r', r = [p1] :: [p2] :: r' /\ offset p1 = TC_OFFSET_CUR /\
    offset p2 = limit - CPDSIZE - 2.
Proof.
  intros HT Hok Hlen Hcur. pose proof (ok_pos _ _ _ Hok). pose proof (ok_small _ _ _ Hok).
  unfold tc_split_iov_array, TC_SPLIT_THRESHOLD, CPDSIZE, COMPOUND4SZ in *.
  assert (forall o', 0 <= o' -> 0 < ovh iov + (length iov - o') - (limit - CPDSIZE) ->
            tiny limit (limit - CPDSIZE) (ovh iov + (length iov - o')) = false) as Htiny.
  { intros o' Ho' Hl. unfold tiny, TC_SPLIT_THRESHOLD, CPDSIZE, COMPOUND4SZ in *.
    rewrite (proj2 (Z.leb_gt (limit - _) _)) by lia.
    by rewrite (proj2 (Z.leb_gt (_ + (_ + _ + _)) _)) by lia. }
  rewrite (split_split limit iov (ovh iov));
    [|done|lia|unfold CPDSIZE, COMPOUND4SZ; lia|unfold CPDSIZE, COMPOUND4SZ; lia
     |apply Htiny; unfold CPDSIZE, COMPOUND4SZ; lia|unfold CPDSIZE, COMPOUND4SZ; lia].
  rewrite (split_split limit iov (ovh iov));
    [|done|unfold CPDSIZE, COMPOUND4SZ; lia|unfold CPDSIZE, COMPOUND4SZ; lia
     |unfold CPDSIZE, COMPOUND4SZ; lia
     |apply Htiny; unfold CPDSIZE, COMPOUND4SZ; lia|unfold CPDSIZE, COMPOUND4SZ; lia].
  intros [r' ->]%split_prefix. eexists _, _, _. split; [done|].
  cbn [offset piece]. rewrite Hcur. split; [done|].
  unfold u64, TC_OFFSET_CUR, SIZE_MAX, CPDSIZE, COMPOUND4SZ.
  rewrite <- (Z.mod_add _ (-1)) by lia. rewrite Z.mod_small; lia.
Qed.

Lemma split_loses_cursor_witness :
  exists p1 p2 r', match tc_split_iov_array 40 [fd_iov 3 TC_OFFSET_CUR 20000] 10000 with
               | Ok (Some r) => r | _ => [] end = [p1] :: [p2] :: r' /\
    offset p1 = TC_OFFSET_CUR /\ offset p2 = 9510.
Proof.
  refine (split_loses_cursor 10000 (fd_iov 3 TC_OFFSET_CUR 20000) [] 38 _ _ _ _ _ _).
  - reflexivity.
  - repeat constructor; vm_compute; congruence.
  - vm_compute. reflexivity.
  - reflexivity.
  - vm_compute. reflexivity.
Defined.

End Iovec.
