(* ===== verification/Nfs4Impl.v ===== *)
(** The NFSv4 implementation layer, [nfs4/tc_impl_nfs4.c].

    Each operation on an array sends compounds through the export's operations
    ([obj_ops], implemented by the FSAL, a parameter here) until the whole array is
    done; descriptors are translated to file handles and state ids around the
    calls. *)

From S2P Require Import Prelude CommonTypes FdTable PathSpec PathUtils TcApi Iovec.
Import Api.
Local Open Scope Z_scope.

Module Nfs4.

(** ** The operations of the export *)

(** State [W] of the session and the server.  A null function pointer is [None]
    where the source checks for it. *)
Record obj_ops (W : Type) := mk_ops {
  vec_read : option (list viovec -> list vattrs -> W ->
                     vres * list viovec * list vattrs * W);
  vec_write : option (list viovec -> list vattrs -> list vattrs -> W ->
                      vres * list viovec * list vattrs * list vattrs * W);
  vec_read_write : option (list viovec -> list vattrs -> list vattrs -> W ->
                           vres * list viovec * list vattrs * list vattrs * W);
  vec_open : option (list vattrs -> list Z -> W ->
                     vres * list vattrs * list Fds.stateid4 * W);
  vec_close : list Fds.nfs_fh4 -> list Fds.stateid4 -> list Z -> W -> vres * W;
  vec_lgetattrs : list vattrs -> W -> vres * list vattrs * W;
  vec_lsetattrs : list vattrs -> W -> vres * list vattrs * W;
  vec_mkdir : list vattrs -> W -> vres * list vattrs * W;
  vec_rename : list vfile_pair -> W -> vres * W;
  vec_remove : list vfile -> W -> vres * W;
  vec_lcopy : list vextent_pair -> W -> vres * W;
  vec_hardlink : list (list ascii) -> list (list ascii) -> W -> vres * W;
  vec_symlink : list (list ascii) -> list (list ascii) -> W -> vres * W;
  vec_readlink : list (list ascii) -> list (list ascii) -> W -> vres * list (list ascii) * W;
  vec_listdir : list (list ascii) -> vattrs_masks -> Z -> bool -> W ->
                vres * list (vattrs * list ascii) * W;
  sca_chdir : list ascii -> W -> Z * W;
  sca_getcwd : W -> list ascii;
  fullpath : list ascii
}.
Arguments vec_read {W}. Arguments vec_write {W}. Arguments vec_read_write {W}.
Arguments vec_open {W}. Arguments vec_close {W}. Arguments vec_lgetattrs {W}.
Arguments vec_lsetattrs {W}. Arguments vec_mkdir {W}. Arguments vec_rename {W}.
Arguments vec_remove {W}. Arguments vec_lcopy {W}. Arguments vec_hardlink {W}.
Arguments vec_symlink {W}. Arguments vec_readlink {W}. Arguments vec_listdir {W}.
Arguments sca_chdir {W}. Arguments sca_getcwd {W}. Arguments fullpath {W}.

(** ** The compound loop *)

(** [for (finished = 0; finished < count; finished += tcres.index)]: [op] gets the
    number of finished elements and of those left, and the arrays and the state
    [x]. *)
Fixpoint drive {X} (fuel : nat) (op : nat -> nat -> X -> vres * X)
    (count finished : nat) (tcres : vres) (x : X) : outcome (option (vres * X)) :=
  match fuel with
  | O => Ok None
  | S fuel =>
      if (finished <? count)%nat then
        let '(tcres, x) := op finished (count - finished)%nat x in
        if vokay tcres then drive fuel op count (finished + Z.to_nat (index tcres)) tcres x
        else done (vfailure (index tcres + Z.of_nat finished) (err_no tcres), x)
      else done (tcres, x)
  end.

(** An operation on a read-only array. *)
Definition on_array {A W} (xs : list A) (f : list A -> W -> vres * W)
  : nat -> nat -> W -> vres * W :=
  fun finished n w => f (take n (drop finished xs)) w.

(** An operation that updates its array in place. *)
Definition in_place {A W} (f : list A -> W -> vres * list A * W)
  : nat -> nat -> list A * W -> vres * (list A * W) :=
  fun finished n x =>
    let '(xs, w) := x in
    let '(r, ys, w) := f (take n (drop finished xs)) w in
    (r, (take finished xs ++ ys ++ drop (finished + n) xs, w)).

(** [f] on the [n] elements from [finished] on, and what it makes of the array. *)
Definition slice_of {A} (finished n : nat) (xs : list A) : list A := take n (drop finished xs).
Definition put_slice {A} (finished n : nat) (xs ys : list A) : list A :=
  take finished xs ++ ys ++ drop (finished + n) xs.

Section impl.
Context {W : Type}.
(** The export of [op_ctx]. *)
Context (export : option (obj_ops W)).
(** What [pthread_rwlock] calls do on a lock the thread holds. *)
Context (detects : bool).
(** Whether the allocation for element [i] succeeds. *)
Context (malloc_ok : nat -> bool).

(** A null export that is not checked for is dereferenced. *)
Definition with_export {B} (k : obj_ops W -> outcome B) : outcome B :=
  match export with Some o => k o | None => Abort end.

(** ** Reading and writing *)

(** What an I/O function works on: the vectors and the two attribute arrays. *)
Definition iobufs : Type := list viovec * list vattrs * list vattrs * W.

Definition nfs4_do_readv (fuel : nat) (read_count : nat) (x : iobufs)
  : outcome (option (vres * iobufs)) :=
  match export with
  | None => done (vfailure 0 ENOENT, x)
  | Some o =>
      match vec_read o with
      | None => done (vfailure 0 ENOTSUP, x)
      | Some f =>
          drive fuel (fun finished n (x : iobufs) =>
            let '(iovs, old_attrs, attrs, w) := x in
            let '(r, iovs', attrs', w) := f (slice_of finished n iovs) (drop finished attrs) w in
            (r, (put_slice finished n iovs iovs', old_attrs, take finished attrs ++ attrs', w)))
            read_count 0 (vfailure 0 ENOENT) x
      end
  end.

Definition do_write_with
    (get : obj_ops W -> option (list viovec -> list vattrs -> list vattrs -> W ->
                                vres * list viovec * list vattrs * list vattrs * W))
    (fuel : nat) (write_count : nat) (x : iobufs) : outcome (option (vres * iobufs)) :=
  match export with
  | None => done (vfailure 0 ENOENT, x)
  | Some o =>
      match get o with
      | None => done (vfailure 0 ENOTSUP, x)
      | Some f =>
          drive fuel (fun finished n (x : iobufs) =>
            let '(iovs, old_attrs, new_attrs, w) := x in
            let '(r, iovs', old', new', w) :=
              f (slice_of finished n iovs) (drop finished old_attrs) (drop finished new_attrs) w in
            (r, (put_slice finished n iovs iovs', take finished old_attrs ++ old',
                 take finished new_attrs ++ new', w)))
            write_count 0 (vfailure 0 ENOENT) x
      end
  end.

Definition nfs4_do_writev : nat -> nat -> iobufs -> outcome (option (vres * iobufs)) :=
  do_write_with vec_write.

Definition nfs4_do_read_writev : nat -> nat -> iobufs -> outcome (option (vres * iobufs)) :=
  do_write_with vec_read_write.

(** *** Descriptors in I/O vectors *)

Definition nfs4_fill_fd_data (mem_ok : bool) (tcf : vfile) (t : Fds.fd_table)
  : outcome (Z * vfile * Fds.fd_table) :=
  assert! (bool_decide (type tcf = VFILE_DESCRIPTOR)) ;;
  let! (tcfd, t) := Fds.tc_get_fd_struct detects (fd tcf) false t in
  match tcfd with
  | None => Ok (- EINVAL, tcf, t)
  | Some i =>
      if negb mem_ok then Ok (- ENOMEM, tcf, (Fds.tc_put_fd_struct i t).2)
      else
        let cursor := match Fds.fd_list t !! i with Some k => Fds.offset k | None => 0 end in
        Ok (0, mk_vfile (type tcf) (fd tcf) (UFdData (mk_fd_data i cursor)),
            (Fds.tc_put_fd_struct i t).2)
  end.

Definition nfs4_clear_fd_data (tcf : vfile) : vfile := mk_vfile (type tcf) (fd tcf) UNull.

(** [tcfd->offset += n]. *)
Definition add_offset (n : Z) (k : Fds.tc_kfd) : Fds.tc_kfd :=
  Fds.mk_kfd (Fds.fd_lock k) (Fds.fd k) (Fds.fh k) (Fds.stateid k) (Fds.seqid k)
    (u64 (Fds.offset k + n)) (Fds.filesize k).

(** The first [count] vectors. *)
Fixpoint nfs4_clear_fd_iovecs (iovs : list viovec) (count : nat) (t : Fds.fd_table)
  : outcome (list viovec * Fds.fd_table) :=
  match count, iovs with
  | S count, iov :: iovs =>
      let! (iov, t) :=
        if bool_decide (type (file iov) = VFILE_DESCRIPTOR) then
          let! t :=
            if offset iov =? TC_OFFSET_CUR then
              let! (tcfd, t) := Fds.tc_get_fd_struct detects (fd (file iov)) true t in
              match tcfd with
              | None => Abort
              | Some i =>
                  let t := Fds.with_list t (alter (add_offset (length iov)) i (Fds.fd_list t)) in
                  Ok (Fds.tc_put_fd_struct i t).2
              end
            else Ok t in
          Ok (set_file iov (nfs4_clear_fd_data (file iov)), t)
        else Ok (iov, t) in
      let! (iovs, t) := nfs4_clear_fd_iovecs iovs count t in
      Ok (iov :: iovs, t)
  | _, _ => Ok (iovs, t)
  end.

(** The loop from vector [i] on; [before] are the vectors already filled. *)
Fixpoint fill_loop (before iovs : list viovec) (i : nat) (t : Fds.fd_table)
  : outcome (Z * list viovec * Fds.fd_table) :=
  match iovs with
  | [] => Ok (0, before, t)
  | iov :: iovs =>
      if bool_decide (type (file iov) = VFILE_DESCRIPTOR) then
        let! (r, f, t) := nfs4_fill_fd_data (malloc_ok i) (file iov) t in
        if negb (r =? 0) then
          let! (all, t) := nfs4_clear_fd_iovecs (before ++ set_file iov f :: iovs) (pred i) t in
          Ok (r, all, t)
        else fill_loop (before ++ [set_file iov f]) iovs (S i) t
      else fill_loop (before ++ [iov]) iovs (S i) t
  end.

Definition nfs4_fill_fd_iovecs (iovs : list viovec) (t : Fds.fd_table)
  : outcome (Z * list viovec * Fds.fd_table) := fill_loop [] iovs 0 t.

(** *** The I/O driver *)

Definition CPD_LIMIT : Z := Z.shiftl 1 20.

Definition count_last (part : list viovec) : nat :=
  List.length (filter (fun iov => is_last_of_multiparts iov = true) part).

(** The loop over the parts; [j] is the number of vectors completed.  Parts after
    a failed one are left as they are. *)
Fixpoint parts_loop (fuel : nat) (fn : nat -> nat -> iobufs -> outcome (option (vres * iobufs)))
    (parts : list (list viovec)) (j : nat) (tcres : vres) (old_attrs new_attrs : list vattrs)
    (w : W) : outcome (option (vres * list (list viovec) * list vattrs * list vattrs * W)) :=
  match parts with
  | [] => done (tcres, [], old_attrs, new_attrs, w)
  | p :: parts =>
      let? (tcres, (p', old', new', w)) :=
        fn fuel (List.length p) (p, drop j old_attrs, drop j new_attrs, w) in
      let old_attrs := take j old_attrs ++ old' in
      let new_attrs := take j new_attrs ++ new' in
      if negb (vokay tcres) then done (tcres, p' :: parts, old_attrs, new_attrs, w)
      else
        let? (tcres, parts', old_attrs, new_attrs, w) :=
          parts_loop fuel fn parts (j + count_last p') tcres old_attrs new_attrs w in
        done (tcres, p' :: parts', old_attrs, new_attrs, w)
  end.

(** [junk] is the indeterminate [tcres.index] of an empty call. *)
Definition nfs4_do_iovec (fuel : nat) (junk : Z) (iovs : list viovec)
    (fn : nat -> nat -> iobufs -> outcome (option (vres * iobufs)))
    (old_attrs new_attrs : list vattrs) (t : Fds.fd_table) (w : W)
  : outcome (option (vres * list viovec * list vattrs * list vattrs * Fds.fd_table * W)) :=
  let iovs := map (fun iov =>
    mk_iov (file iov) (offset iov) (length iov) (data iov) (iov_type iov) (is_creation iov)
      (is_direct_io iov) false false (is_write_stable iov) (is_last_of_multiparts iov)) iovs in
  let! (r, iovs, t) := nfs4_fill_fd_iovecs iovs t in
  if negb (r =? 0) then done (mk_vres 0 r, iovs, old_attrs, new_attrs, t, w)
  else
    let? parts := Iovec.tc_split_iov_array fuel iovs CPD_LIMIT in
    let? (tcres, parts, old_attrs, new_attrs, w) :=
      parts_loop fuel fn parts 0 (mk_vres junk r) old_attrs new_attrs w in
    let! (iovs, _) := Iovec.vrestore_iov_array iovs parts in
    let! (iovs, t) := nfs4_clear_fd_iovecs iovs (List.length iovs) t in
    done (tcres, iovs, old_attrs, new_attrs, t, w).

Definition nfs4_readv (fuel : nat) (junk : Z) (iovs : list viovec) (attrs : list vattrs) :=
  nfs4_do_iovec fuel junk iovs nfs4_do_readv [] attrs.

Definition nfs4_writev (fuel : nat) (junk : Z) (iovs : list viovec)
    (old_attrs new_attrs : list vattrs) :=
  nfs4_do_iovec fuel junk iovs nfs4_do_writev old_attrs new_attrs.

Definition nfs4_read_writev (fuel : nat) (junk : Z) (iovs : list viovec)
    (old_attrs new_attrs : list vattrs) :=
  nfs4_do_iovec fuel junk iovs nfs4_do_read_writev old_attrs new_attrs.

(** ** Opening and closing *)

Definition O_CREAT : Z := 64.

(** [euid] and [egid] are the effective ids; [modes] may be null. *)
Definition open_attrs (euid egid : Z) (attrs : vattrs) (p : list ascii) (flags : Z)
    (mode : option Z) : vattrs :=
  if Z.testbit flags 6 then vset_up_creation attrs p (default 0 mode) euid egid
  else mk_attrs (vfile_from_path p) (masks attrs) (vals attrs).

(** [tcfd->filesize = n]. *)
Definition set_filesize (n : Z) (k : Fds.tc_kfd) : Fds.tc_kfd :=
  Fds.mk_kfd (Fds.fd_lock k) (Fds.fd k) (Fds.fh k) (Fds.stateid k) (Fds.seqid k)
    (Fds.offset k) n.

(** A descriptor for the opened file [a] with state id [sid]; running out of
    descriptors makes [tc_get_fd_struct] return null, which is dereferenced. *)
Definition open_fd (sid : Fds.stateid4) (a : vattrs) (t : Fds.fd_table)
  : outcome (vfile * Fds.fd_table) :=
  match u (attr_file a) with
  | UHandle h =>
      let fh4 := Fds.mk_fh (Some (f_handle h)) (handle_bytes h) in
      let! (r, t) := Fds.tc_alloc_fd sid fh4 t in
      let! (tcfd, t) := Fds.tc_get_fd_struct detects r true t in
      match tcfd with
      | None => Abort
      | Some i =>
          let f := match Fds.fd_list t !! i with Some k => Fds.fd k | None => -1 end in
          let t := Fds.with_list t (alter (set_filesize (size (vals a))) i (Fds.fd_list t)) in
          Ok (vfile_from_fd f, (Fds.tc_put_fd_struct i t).2)
      end
  | _ => Abort
  end.

Fixpoint open_fds (sids : list Fds.stateid4) (attrs : list vattrs) (t : Fds.fd_table)
  : outcome (list vfile * Fds.fd_table) :=
  match sids, attrs with
  | sid :: sids, a :: attrs =>
      let! (f, t) := open_fd sid a t in
      let! (fs, t) := open_fds sids attrs t in
      Ok (f :: fs, t)
  | _, _ => Ok ([], t)
  end.

Definition null_file : vfile := mk_vfile VFILE_NULL 0 UNull.

(** The arrays of handles, state ids and sequence ids of the open files. *)
Fixpoint close_gather (files : list vfile) (t : Fds.fd_table)
  : outcome (list (Fds.nfs_fh4 * Fds.stateid4 * Z) * Fds.fd_table) :=
  match files with
  | [] => Ok ([], t)
  | f :: files =>
      if bool_decide (type f = VFILE_NULL) then close_gather files t
      else
        assert! (bool_decide (type f = VFILE_DESCRIPTOR)) ;;
        let! (tcfd, t) := Fds.tc_get_fd_struct detects (fd f) false t in
        match tcfd with
        | None => Abort
        | Some i =>
            match Fds.fd_list t !! i with
            | None => Abort
            | Some k =>
                let! (rest, t) := close_gather files (Fds.tc_put_fd_struct i t).2 in
                Ok ((Fds.fh k, Fds.stateid k, Fds.seqid k) :: rest, t)
            end
        end
  end.

(** [for (i = finished; i < tcres.index + finished; ++i)], [n] files left. *)
Fixpoint close_range (n i : nat) (files : list vfile) (t : Fds.fd_table)
  : outcome (list vfile * Fds.fd_table) :=
  match n with
  | O => Ok (files, t)
  | S n =>
      match files !! i with
      | None => Abort
      | Some f =>
          let! (_, t) := Fds.tc_free_fd detects (fd f) t in
          close_range n (S i) (<[ i := mk_vfile VFILE_NULL (fd f) (u f) ]> files) t
      end
  end.

Fixpoint close_loop (fuel : nat) (o : obj_ops W)
    (gathered : list (Fds.nfs_fh4 * Fds.stateid4 * Z)) (finished : nat) (tcres : vres)
    (files : list vfile) (t : Fds.fd_table) (w : W)
  : outcome (option (vres * list vfile * Fds.fd_table * W)) :=
  match fuel with
  | O => Ok None
  | S fuel =>
      if (finished <? List.length gathered)%nat then
        let g := drop finished gathered in
        let '(tcres, w) := vec_close o (g.*1.*1) (g.*1.*2) (g.*2) w in
        if negb (vokay tcres)
        then done (vfailure (index tcres + Z.of_nat finished) (err_no tcres), files, t, w)
        else
          let! (files, t) := close_range (Z.to_nat (index tcres)) finished files t in
          close_loop fuel o gathered (finished + Z.to_nat (index tcres)) tcres files t w
      else done (tcres, files, t, w)
  end.

(** [for (i = 0; i < count; ++i) if (files[i].type != VFILE_NULL) tc_free_fd(...)] *)
Fixpoint free_rest (files : list vfile) (t : Fds.fd_table) : outcome Fds.fd_table :=
  match files with
  | [] => Ok t
  | f :: files =>
      let! t := if bool_decide (type f = VFILE_NULL) then Ok t
                else let! (_, t) := Fds.tc_free_fd detects (fd f) t in Ok t in
      free_rest files t
  end.

Definition nfs4_closev (fuel : nat) (files : list vfile) (t : Fds.fd_table) (w : W)
  : outcome (option (vres * list vfile * Fds.fd_table * W)) :=
  with_export (fun o =>
    let! (gathered, t) := close_gather files t in
    let? (tcres, files, t, w) :=
      close_loop fuel o gathered 0 (mk_vres (Z.of_nat (List.length files)) 0) files t w in
    let! t := free_rest files t in
    done (tcres, files, t, w)).

Fixpoint open_loop (fuel : nat) (f : list vattrs -> list Z -> W ->
      vres * list vattrs * list Fds.stateid4 * W)
    (flags : list Z) (finished : nat) (attrs : list vattrs) (tcfs : list vfile)
    (t : Fds.fd_table) (w : W)
  : outcome (option (option (list vfile) * list vattrs * Fds.fd_table * W)) :=
  match fuel with
  | O => Ok None
  | S fuel =>
      if (finished <? List.length attrs)%nat then
        let '(tcres, attrs', sids, w) := f (drop finished attrs) (drop finished flags) w in
        let attrs := take finished attrs ++ attrs' in
        if negb (vokay tcres) then
          let? (_, _, t, w) := nfs4_closev (S finished) (take finished tcfs) t w in
          done (None, attrs, t, w)
        else
          let n := Z.to_nat (index tcres) in
          let! (fs, t) := open_fds (take n sids) (take n attrs') t in
          open_loop fuel f flags (finished + n) attrs
            (put_slice finished n tcfs fs) t w
      else done (Some tcfs, attrs, t, w)
  end.

(** [None] is a null result.  The handles in [attrs] are freed at the end; the
    pointers to them stay in the array. *)
Definition nfs4_openv (fuel : nat) (euid egid : Z) (paths : list (list ascii))
    (flags : list Z) (modes : option (list Z)) (attrs : list vattrs)
    (t : Fds.fd_table) (w : W)
  : outcome (option (option (list vfile) * list vattrs * Fds.fd_table * W)) :=
  with_export (fun o =>
    match vec_open o with
    | None => done (None, attrs, t, w)
    | Some f =>
        let attrs := imap (fun i a =>
          open_attrs euid egid a (default [] (paths !! i)) (default 0 (flags !! i))
            (match modes with Some ms => ms !! i | None => None end)) attrs in
        open_loop fuel f flags 0 attrs (replicate (List.length attrs) null_file) t w
    end).

(** The processor of [nfs4_close_all]: the entry's write lock and [fd_list_lock]
    are held by the caller. *)
Definition nfs4_close_impl (i : nat) (t : Fds.fd_table) (w : W)
  : outcome (Z * Fds.fd_table * W) :=
  with_export (fun o =>
    match Fds.fd_list t !! i with
    | None => Abort
    | Some k =>
        let '(tcres, w) := vec_close o [Fds.fh k] [Fds.stateid k] [Fds.seqid k] w in
        if negb (vokay tcres) then Ok (EAGAIN, t, w)
        else
          let! (_, t) := Fds.tc_free_fd detects (Fds.fd k) t in
          Ok (0, t, w)
    end).

Definition nfs4_close_all (t : Fds.fd_table) (w : W) : outcome (Fds.fd_table * W) :=
  let! (_, t, w) := Fds.tc_for_each_fd detects nfs4_close_impl t w in Ok (t, w).

Definition SEEK_SET : Z := 0.
Definition SEEK_CUR : Z := 1.
Definition SEEK_END : Z := 2.

(** [off_t] is a signed 64-bit integer. *)
Definition s64 (x : Z) : Z := let y := u64 x in if y <? 2 ^ 63 then y else y - 2 ^ 64.

(** [tcfd->offset = n]. *)
Definition set_cursor (n : Z) (k : Fds.tc_kfd) : Fds.tc_kfd :=
  Fds.mk_kfd (Fds.fd_lock k) (Fds.fd k) (Fds.fh k) (Fds.stateid k) (Fds.seqid k) n
    (Fds.filesize k).

Definition nfs4_fseek (tcf : vfile) (off whence : Z) (t : Fds.fd_table)
  : outcome (Z * Fds.fd_table) :=
  assert! (bool_decide (type tcf = VFILE_DESCRIPTOR)) ;;
  let! (tcfd, t) := Fds.tc_get_fd_struct detects (fd tcf) true t in
  match tcfd with
  | None => Abort
  | Some i =>
      match Fds.fd_list t !! i with
      | None => Abort
      | Some k =>
          let! o :=
            if whence =? SEEK_SET then Ok (u64 off)
            else if whence =? SEEK_CUR then Ok (u64 (Fds.offset k + off))
            else if whence =? SEEK_END then Ok (u64 (Fds.filesize k + off))
            else Abort in
          let t := Fds.with_list t (alter (set_cursor o) i (Fds.fd_list t)) in
          Ok (s64 o, (Fds.tc_put_fd_struct i t).2)
      end
  end.

(** ** Attributes *)

Definition with_attr_file (a : vattrs) (f : vfile) : vattrs := mk_attrs f (masks a) (vals a).

(** The first [count] attributes; a saved file of another type is put back where
    there is a handle now. *)
Fixpoint nfs4_restore_vfiles (attrs : list vattrs) (count : nat) (saved : list vfile)
  : list vattrs :=
  match count, attrs, saved with
  | S count, a :: attrs, f :: saved =>
      (if negb (bool_decide (type f = type (attr_file a)))
          && bool_decide (type (attr_file a) = VFILE_HANDLE)
       then with_attr_file a f else a) :: nfs4_restore_vfiles attrs count saved
  | _, _, _ => attrs
  end.

(** The loop from element [i] on; [before] are the attributes already translated
    and [saved] their files. *)
Fixpoint process_loop (before attrs : list vattrs) (i : nat) (saved : list vfile)
    (t : Fds.fd_table) : outcome (option (list vfile) * list vattrs * Fds.fd_table) :=
  match attrs with
  | [] => Ok (Some saved, before, t)
  | a :: attrs =>
      let tcf := attr_file a in
      let saved := saved ++ [tcf] in
      if bool_decide (type tcf = VFILE_DESCRIPTOR) then
        let! (tcfd, t) := Fds.tc_get_fd_struct detects (fd tcf) false t in
        let fail t :=
          Ok (None, nfs4_restore_vfiles (before ++ a :: attrs) (pred i) saved, t) in
        match tcfd with
        | None => fail t
        | Some e =>
            match Fds.fd_list t !! e with
            | None => Abort
            | Some k =>
                let h := new_file_handle (malloc_ok i)
                  (take (Fds.nfs_fh4_len (Fds.fh k)) (default [] (Fds.nfs_fh4_val (Fds.fh k)))) in
                let t := (Fds.tc_put_fd_struct e t).2 in
                match h with
                | None => fail t
                | Some h =>
                    process_loop
                      (before ++ [with_attr_file a (mk_vfile VFILE_HANDLE (fd tcf) (UHandle h))])
                      attrs (S i) saved t
                end
            end
        end
      else process_loop (before ++ [a]) attrs (S i) saved t
  end.

Definition nfs4_process_vfiles (attrs : list vattrs) (t : Fds.fd_table)
  : outcome (option (list vfile) * list vattrs * Fds.fd_table) := process_loop [] attrs 0 [] t.

(** The common body of the attribute operations: [tcres] is what an empty array
    returns. *)
Definition attrs_op (f : obj_ops W -> list vattrs -> W -> vres * list vattrs * W)
    (fuel : nat) (tcres : vres) (attrs : list vattrs) (t : Fds.fd_table) (w : W)
  : outcome (option (vres * list vattrs * Fds.fd_table * W)) :=
  let! (saved, attrs, t) := nfs4_process_vfiles attrs t in
  match saved with
  | None => done (vfailure 0 ENOMEM, attrs, t, w)
  | Some saved =>
      with_export (fun o =>
        let? (tcres, (attrs, w)) :=
          drive fuel (in_place (f o)) (List.length attrs) 0 tcres (attrs, w) in
        done (tcres, nfs4_restore_vfiles attrs (List.length attrs) saved, t, w))
  end.

Definition nfs4_lgetattrsv (fuel : nat) (attrs : list vattrs) (t : Fds.fd_table) (w : W) :=
  attrs_op vec_lgetattrs fuel (mk_vres (Z.of_nat (List.length attrs)) 0) attrs t w.

Definition nfs4_lsetattrsv (fuel : nat) (attrs : list vattrs) (t : Fds.fd_table) (w : W) :=
  attrs_op vec_lsetattrs fuel (mk_vres (Z.of_nat (List.length attrs)) 0) attrs t w.

(** [junk] is the indeterminate result of an empty array. *)
Definition nfs4_mkdirv (fuel : nat) (junk : vres) (dirs : list vattrs) (t : Fds.fd_table) (w : W) :=
  attrs_op vec_mkdir fuel junk dirs t w.

(** ** The other operations *)

(** [contents] are the entries the callback [cb] is applied to, with their
    directories, until it returns false. *)
Fixpoint apply_cb {C} (cb : vattrs -> list ascii -> C -> bool * C)
    (contents : list (vattrs * list ascii)) (cbarg : C) : C :=
  match contents with
  | [] => cbarg
  | (e, dir) :: contents =>
      let '(go, cbarg) := cb e dir cbarg in
      if go then apply_cb cb contents cbarg else cbarg
  end.

Definition nfs4_listdirv {C} (dirs : list (list ascii)) (mk : vattrs_masks) (max_entries : Z)
    (recursive : bool) (cb : vattrs -> list ascii -> C -> bool * C) (cbarg : C) (w : W)
  : outcome (vres * C * W) :=
  with_export (fun o =>
    let '(r, contents, w) := vec_listdir o dirs mk max_entries recursive w in
    Ok (r, apply_cb cb contents cbarg, w)).

Definition nfs4_renamev (fuel : nat) (junk : vres) (pairs : list vfile_pair) (w : W)
  : outcome (option (vres * W)) :=
  with_export (fun o =>
    drive fuel (on_array pairs (vec_rename o)) (List.length pairs) 0 junk w).

Definition nfs4_removev (fuel : nat) (files : list vfile) (w : W) : outcome (option (vres * W)) :=
  with_export (fun o =>
    drive fuel (on_array files (vec_remove o)) (List.length files) 0 (mk_vres 0 0) w).

Definition nfs4_lcopyv (fuel : nat) (pairs : list vextent_pair) (w : W)
  : outcome (option (vres * W)) :=
  with_export (fun o =>
    drive fuel (on_array pairs (vec_lcopy o)) (List.length pairs) 0 (mk_vres 0 0) w).

(** An operation on two arrays of the same length. *)
Definition on_arrays {A B} (xs : list A) (ys : list B) (f : list A -> list B -> W -> vres * W)
  : nat -> nat -> W -> vres * W :=
  fun finished n w => f (slice_of finished n xs) (slice_of finished n ys) w.

Definition nfs4_hardlinkv (fuel : nat) (junk : vres) (oldpaths newpaths : list (list ascii))
    (w : W) : outcome (option (vres * W)) :=
  with_export (fun o =>
    drive fuel (on_arrays oldpaths newpaths (vec_hardlink o)) (List.length oldpaths) 0 junk w).

Definition nfs4_symlinkv (fuel : nat) (junk : vres) (oldpaths newpaths : list (list ascii))
    (w : W) : outcome (option (vres * W)) :=
  with_export (fun o =>
    drive fuel (on_arrays oldpaths newpaths (vec_symlink o)) (List.length oldpaths) 0 junk w).

(** [bufs] are the contents of the result buffers. *)
Definition nfs4_readlinkv (fuel : nat) (junk : vres) (paths bufs : list (list ascii)) (w : W)
  : outcome (option (vres * (list (list ascii) * W))) :=
  with_export (fun o =>
    drive fuel (fun finished n (x : list (list ascii) * W) =>
      let '(bufs, w) := x in
      let '(r, bufs', w) := vec_readlink o (slice_of finished n paths) (slice_of finished n bufs) w in
      (r, (put_slice finished n bufs bufs', w)))
      (List.length paths) 0 junk (bufs, w)).

(** [strncmp(path, fullpath, strlen(fullpath)) != 0] *)
Definition nfs4_chdir (p : list ascii) (w : W) : outcome (Z * W) :=
  with_export (fun o =>
    if negb (bool_decide (take (List.length (fullpath o)) p = fullpath o)) then Ok (- EINVAL, w)
    else Ok (sca_chdir o p w)).

Definition nfs4_getcwd (w : W) : outcome (list ascii) :=
  with_export (fun o => Ok (sca_getcwd o w)).

End impl.
(** ** The compound loop executes the elements in order *)

(** Executing elements [f .. f + k - 1] one by one up to the first error; [n] of the
    call's elements were executed before. *)
Fixpoint seq_exec {X} (exec : nat -> X -> Z * X) (f k n : nat) (x : X) : vres * X :=
  match k with
  | O => (mk_vres (Z.of_nat n) 0, x)
  | S k =>
      let '(e, x) := exec f x in
      if e =? 0 then seq_exec exec (S f) k (S n) x else (mk_vres (Z.of_nat n) e, x)
  end.

(** What the FSAL promises of an array operation: a call executes at least one
    element, in order up to the first error, and reports how many it executed and
    the error.  How many elements fit in one compound is up to the FSAL. *)
Class Compound {X} (exec : nat -> X -> Z * X) (op : nat -> nat -> X -> vres * X) : Prop :=
  compound_spec : forall f n x, (0 < n)%nat ->
    exists k, (1 <= k <= n)%nat /\ op f n x = seq_exec exec f k 0 x.

Lemma seq_exec_shift {X} (exec : nat -> X -> Z * X) f k n x :
  seq_exec exec f k n x =
  let '(r, x') := seq_exec exec f k 0 x in
  (mk_vres (index r + Z.of_nat n) (err_no r), x').
Proof.
  assert (forall m, seq_exec exec f k (m + n) x =
    let '(r, x') := seq_exec exec f k m x in (mk_vres (index r + Z.of_nat n) (err_no r), x'))
    as H; [|by apply (H O)].
  revert f x. induction k as [|k IH]; intros f x m; cbn [seq_exec].
  - cbn. f_equal. f_equal. lia.
  - destruct (exec f x) as [e x1]. destruct (e =? 0); [|cbn; f_equal; f_equal; lia].
    apply (IH (S f) x1 (S m)).
Qed.

Lemma seq_exec_ok {X} (exec : nat -> X -> Z * X) f k n x r x' :
  seq_exec exec f k n x = (r, x') -> err_no r = 0 -> index r = Z.of_nat (n + k).
Proof.
  revert f n x. induction k as [|k IH]; intros f n x; cbn [seq_exec].
  - intros [= <- _] _. cbn. f_equal. lia.
  - destruct (exec f x) as [e x1]. destruct (e =? 0) eqn:E.
    + intros H He. rewrite (IH _ _ _ H He). f_equal. lia.
    + intros [= <- _]. cbn. reflect_bools. done.
Qed.

Lemma seq_exec_app {X} (exec : nat -> X -> Z * X) f k k' n x :
  seq_exec exec f (k + k') n x =
  let '(r, x') := seq_exec exec f k n x in
  if err_no r =? 0 then seq_exec exec (f + k) k' (n + k) x' else (r, x').
Proof.
  revert f n x. induction k as [|k IH]; intros f n x; cbn [seq_exec Nat.add].
  - cbn. by rewrite !Nat.add_0_r.
  - destruct (exec f x) as [e x1]. destruct (e =? 0) eqn:E.
    + rewrite IH. by rewrite !Nat.add_succ_r.
    + cbn. by rewrite E.
Qed.

Lemma drive_spec {X} (exec : nat -> X -> Z * X) op `{!Compound exec op} fuel count f r0 x :
  (count <= f + fuel)%nat -> (f <= count)%nat ->
  exists r x', drive (S fuel) op count f r0 x = done (r, x') /\
    let '(rs, xs) := seq_exec exec f (count - f) f x in
    x' = xs /\ (f < count -> err_no r = err_no rs)%nat /\
    (err_no rs <> 0 -> index r = index rs) /\ (f = count -> r = r0)%nat.
Proof.
  revert f r0 x. induction fuel as [|fuel IH]; intros f r0 x Hf Hle.
  - exists r0, x. cbn [drive]. rewrite (proj2 (Nat.ltb_ge _ _)) by lia.
    replace (count - f)%nat with O by lia. cbn. split_and!; try done. lia.
  - destruct (decide (f = count)) as [->|Hne].
    { exists r0, x. cbn [drive]. rewrite (proj2 (Nat.ltb_ge _ _)) by lia.
      rewrite Nat.sub_diag. cbn. split_and!; try done. lia. }
    remember (S fuel) as fu. cbn [drive]. rewrite (proj2 (Nat.ltb_lt _ _)) by lia.
    destruct (compound_spec f (count - f)%nat x) as (k & Hk & ->); [lia|].
    replace (count - f)%nat with (k + (count - (f + k)))%nat by lia.
    rewrite seq_exec_app, (seq_exec_shift exec f k f).
    destruct (seq_exec exec f k 0 x) as [r x1] eqn:E. cbn [err_no index].
    unfold vokay. destruct (err_no r =? 0) eqn:Er.
    + reflect_bools. pose proof (seq_exec_ok _ _ _ _ _ _ _ E Er) as Hi.
      rewrite Hi, Nat2Z.id, Nat.add_0_l. subst fu.
      destruct (IH (f + k)%nat r x1) as (r' & x' & -> & H); [lia | lia |].
      exists r', x'. split; [done|].
      destruct (seq_exec exec (f + k) (count - (f + k)) (f + k) x1) as [rs xs] eqn:E2.
      destruct H as (-> & H1 & H2 & H3). split_and!; try done; try lia.
      intros _. destruct (decide (f + k = count)%nat) as [Hc|Hc]; [|apply H1; lia].
      rewrite H3 by done. rewrite <- Hc, Nat.sub_diag in E2. cbn in E2.
      injection E2 as <- <-. cbn. done.
    + reflect_bools. eexists _, _. split; [done|]. cbn. split_and!; try done.
Qed.


(** Two elements per compound, each of them adding its index to a sum; element 3
    fails. *)
Definition sum_exec (i : nat) (x : Z) : Z * Z :=
  if decide (i = 3%nat) then (5, x) else (0, x + Z.of_nat i).
Definition sum_op (f n : nat) (x : Z) : vres * Z := seq_exec sum_exec f (Nat.min n 2) 0 x.


(** ** Descriptors in I/O vectors *)

Definition is_fd (iov : viovec) : bool := bool_decide (type (file iov) = VFILE_DESCRIPTOR).

(** What filling in makes of a vector. *)
Definition fill_one (t : Fds.fd_table) (iov : viovec) : viovec :=
  match Fds.entry t (fd (file iov)) with
  | Some k =>
      if is_fd iov then
        set_file iov (mk_vfile VFILE_DESCRIPTOR (fd (file iov))
          (UFdData (mk_fd_data (Z.to_nat (fd (file iov) - Fds.VFD_OFFSET)) (Fds.offset k))))
      else iov
  | None => iov
  end.

Definition clear_one (iov : viovec) : viovec :=
  if is_fd iov then set_file iov (nfs4_clear_fd_data (file iov)) else iov.

(** The entry of descriptor [g] after clearing [iovs]: its cursor moves by the
    length of each vector at the cursor. *)
Definition move_cursor (g : Z) (iovs : list viovec) (k : Fds.tc_kfd) : Fds.tc_kfd :=
  foldl (fun k iov =>
    if is_fd iov && (offset iov =? TC_OFFSET_CUR) && (fd (file iov) =? g)
    then add_offset (length iov) k else k) k iovs.

(** All descriptors of the vectors are open. *)
Definition all_open (t : Fds.fd_table) (iovs : list viovec) : Prop :=
  forall iov, iov ∈ iovs -> is_fd iov = true -> Fds.entry t (fd (file iov)) <> None.

Section cursors.
Context (detects : bool) (malloc_ok : nat -> bool).

Lemma fill_data_ok t iov i k :
  Fds.fdt_wf t -> is_fd iov = true -> Fds.entry t (fd (file iov)) = Some k ->
  malloc_ok i = true ->
  nfs4_fill_fd_data detects (malloc_ok i) (file iov) t =
  Ok (0, mk_vfile VFILE_DESCRIPTOR (fd (file iov))
           (UFdData (mk_fd_data (Z.to_nat (fd (file iov) - Fds.VFD_OFFSET)) (Fds.offset k))), t).
Proof.
  intros Hwf Hfd Hk ->. unfold is_fd in Hfd. unfold nfs4_fill_fd_data. rewrite Hfd.
  cbn [oassert obind]. apply bool_decide_eq_true in Hfd. rewrite Hfd.
  destruct (Fds.get_put_read detects t _ k Hwf Hk) as (t1 & -> & He & Ht).
  cbn [obind negb]. by rewrite Ht, He.
Qed.

Lemma fill_loop_ok t before iovs i :
  Fds.fdt_wf t -> all_open t iovs -> (forall j, malloc_ok j = true) ->
  fill_loop detects malloc_ok before iovs i t = Ok (0, before ++ map (fill_one t) iovs, t).
Proof.
  intros Hwf Hopen Hm. revert before i Hopen. induction iovs as [|iov iovs IH]; intros before i Hopen.
  { cbn. by rewrite app_nil_r. }
  assert (all_open t iovs) as Ho by (intros x Hx; apply Hopen; by right).
  cbn [fill_loop map]. unfold fill_one at 1. fold (is_fd iov).
  destruct (is_fd iov) eqn:Hfd.
  - destruct (Fds.entry t (fd (file iov))) as [k|] eqn:Hk.
    2: { exfalso. apply (Hopen iov); [by left | done | done]. }
    rewrite (fill_data_ok t iov i k) by done. cbn [obind].
    change (negb (0 =? 0)) with false. cbn iota. rewrite IH by done.
    by rewrite <- app_assoc.
  - rewrite IH by done. rewrite <- app_assoc. by destruct (Fds.entry t _).
Qed.

Lemma add_offset_props n :
  (forall k, Fds.fd (add_offset n k) = Fds.fd k) /\
  (forall k l l', Fds.set_lock (add_offset n (Fds.set_lock k l)) l' =
                  Fds.set_lock (add_offset n k) l') /\
  (forall k, Fds.fd_lock (add_offset n k) = Fds.fd_lock k).
Proof. done. Qed.

(** Clearing the first [n] vectors. *)
Lemma clear_spec t iovs n :
  Fds.fdt_wf t -> all_open t (take n iovs) ->
  exists t', nfs4_clear_fd_iovecs detects iovs n t =
      Ok (map clear_one (take n iovs) ++ drop n iovs, t') /\ Fds.fdt_wf t' /\
    Fds.free_fds_top t' = Fds.free_fds_top t /\
    forall g, Fds.entry t' g = move_cursor g (take n iovs) <$> Fds.entry t g.
Proof.
  revert t n. induction iovs as [|iov iovs IH]; intros t n Hwf Hopen.
  { exists t. rewrite take_nil, drop_nil. split_and!; [by destruct n | done | done |].
    intros g. by destruct (Fds.entry t g). }
  destruct n as [|n].
  { exists t. split_and!; [done | done | done |]. intros g. by destruct (Fds.entry t g). }
  cbn [nfs4_clear_fd_iovecs take drop map app]. unfold clear_one at 1. fold (is_fd iov).
  assert (forall t1, (forall g, is_Some (Fds.entry t g) -> is_Some (Fds.entry t1 g)) ->
            all_open t1 (take n iovs)) as Hopen'.
  { intros t1 H1 x Hx Hfd. assert (Fds.entry t (fd (file x)) <> None) as Hne.
    { apply Hopen; [by right | done]. }
    apply not_eq_None_Some in Hne. apply H1 in Hne. by apply not_eq_None_Some. }
  destruct (is_fd iov && (offset iov =? TC_OFFSET_CUR)) eqn:Ecur.
  - apply andb_true_iff in Ecur as [Hfd Hcur]. rewrite Hfd, Hcur.
    destruct (Fds.entry t (fd (file iov))) as [k|] eqn:Hk.
    2: { exfalso. apply (Hopen iov); [by left | done | done]. }
    destruct (add_offset_props (length iov)) as (P1 & P2 & P3).
    destruct (Fds.get_put_write detects t _ k (add_offset (length iov)) Hwf Hk P1 P2 P3)
      as (e & t1 & -> & _ & Hwf1 & Htop1 & He1).
    cbn [obind]. set (t2 := (Fds.tc_put_fd_struct e _).2) in *. clearbody t2.
    destruct (IH t2 n Hwf1) as (t' & -> & Hwf' & Htop' & He').
    { apply Hopen'. intros g [kg Hg]. rewrite He1. case_decide; eauto. }
    exists t'. cbn [obind]. split_and!; [done | done | congruence |].
    intros g. rewrite He', He1. unfold move_cursor. cbn [foldl]. rewrite Hfd, Hcur. cbn [andb].
    destruct (decide (g = fd (file iov))) as [->|Hne].
    + rewrite Z.eqb_refl, Hk. done.
    + rewrite (proj2 (Z.eqb_neq _ _)) by done. done.
  - destruct (IH t n Hwf) as (t' & E & Hwf' & Htop' & He'); [by apply Hopen'|].
    exists t'. split_and!; [|done|done|].
    + destruct (is_fd iov) eqn:Hfd.
      * cbn [andb] in Ecur. rewrite Ecur. cbn [obind]. by rewrite E.
      * cbn [obind]. by rewrite E.
    + intros g. rewrite He'. unfold move_cursor. cbn [foldl]. by rewrite Ecur.
Qed.

End cursors.

Lemma fill_one_same t iov :
  is_fd (fill_one t iov) = is_fd iov /\ offset (fill_one t iov) = offset iov /\
  length (fill_one t iov) = length iov /\ fd (file (fill_one t iov)) = fd (file iov) /\
  clear_one (fill_one t iov) = clear_one iov.
Proof.
  unfold fill_one. destruct (Fds.entry t _); [|done].
  destruct (is_fd iov) eqn:E; [|by rewrite E].
  unfold is_fd in E. apply bool_decide_eq_true in E.
  destruct iov as [[tf ff uf] ? ? ? ? ? ? ? ? ? ?]. cbn in E. by subst tf.
Qed.

Lemma clear_filled t iovs : map clear_one (map (fill_one t) iovs) = map clear_one iovs.
Proof. rewrite map_map. apply map_ext. intros iov. apply fill_one_same. Qed.

Lemma move_cursor_filled t g iovs k :
  move_cursor g (map (fill_one t) iovs) k = move_cursor g iovs k.
Proof.
  unfold move_cursor. revert k. induction iovs as [|iov iovs IH]; intros k; [done|].
  cbn [map foldl]. destruct (fill_one_same t iov) as (-> & -> & -> & -> & _). apply IH.
Qed.

Lemma all_open_filled t iovs : all_open t iovs -> all_open t (map (fill_one t) iovs).
Proof.
  intros H x (iov & -> & Hin)%list_elem_of_fmap Hfd.
  destruct (fill_one_same t iov) as (E1 & _ & _ & -> & _). rewrite E1 in Hfd. by apply H.
Qed.

(** Filling in the descriptors of I/O vectors and clearing them after the I/O
    leaves the descriptor table as it was, except that the cursor of a descriptor
    has moved by the lengths of the vectors that were at the cursor, and keeps
    every lock released. *)
Theorem fill_clear_cursors detects malloc_ok t iovs :
  Fds.fdt_wf t -> all_open t iovs -> (forall i, malloc_ok i = true) ->
  exists iovs' t', nfs4_fill_fd_iovecs detects malloc_ok iovs t = Ok (0, iovs', t) /\
    nfs4_clear_fd_iovecs detects iovs' (List.length iovs') t = Ok (map clear_one iovs, t') /\
    Fds.fdt_wf t' /\ forall g, Fds.entry t' g = move_cursor g iovs <$> Fds.entry t g.
Proof.
  intros Hwf Hopen Hm. unfold nfs4_fill_fd_iovecs.
  rewrite (fill_loop_ok detects malloc_ok t [] iovs 0) by done. cbn [app].
  destruct (clear_spec detects t (map (fill_one t) iovs) (List.length (map (fill_one t) iovs)) Hwf)
    as (t' & E & Hwf' & _ & He).
  { rewrite firstn_all. by apply all_open_filled. }
  exists (map (fill_one t) iovs), t'. rewrite E, firstn_all, drop_all, app_nil_r, clear_filled.
  split_and!; [done | done | done |]. intros g. rewrite He, firstn_all.
  destruct (Fds.entry t g); [|done]. cbn. by rewrite move_cursor_filled.
Qed.

(** The table with one open descriptor. *)
Definition table1 : Fds.fd_table :=
  match Fds.tc_alloc_fd (Fds.mk_stateid 7 []) (Fds.mk_fh None 0) Fds.table0 with
  | Ok (_, t) => t | _ => Fds.table0 end.
Definition fd1 : Z := 1023 + Fds.VFD_OFFSET.

Lemma table1_wf : Fds.fdt_wf table1.
Proof.
  unfold table1.
  destruct (Fds.alloc_fd_entry Fds.table0 (Fds.mk_stateid 7 []) (Fds.mk_fh None 0) 1023
              Fds.table0_wf) as (r & t' & sz & -> & Hwf & _); [by vm_compute | done].
Qed.

Definition cur_iov (f len : Z) : viovec :=
  mk_iov (vfile_from_fd f) TC_OFFSET_CUR len 0 1 false false false false false false.

Lemma fill_clear_cursors_witness :
  exists iovs' t',
    nfs4_fill_fd_iovecs true (fun _ => true) [cur_iov fd1 100; cur_iov fd1 20] table1 =
      Ok (0, iovs', table1) /\
    nfs4_clear_fd_iovecs true iovs' (List.length iovs') table1 =
      Ok ([cur_iov fd1 100; cur_iov fd1 20], t') /\
    Fds.fdt_wf t' /\ Fds.offset <$> Fds.entry t' fd1 = Some 120.
Proof.
  destruct (fill_clear_cursors true (fun _ => true) table1 [cur_iov fd1 100; cur_iov fd1 20])
    as (iovs' & t' & E1 & E2 & Hwf & He).
  - apply table1_wf.
  - intros iov Hin _. assert (fd (file iov) = fd1) as ->; [|by vm_compute].
    apply elem_of_cons in Hin as [->|Hin%list_elem_of_singleton]; [done | by subst].
  - done.
  - exists iovs', t'. split_and!; [done | done | done |]. rewrite He. vm_compute. reflexivity.
Defined.

(** When a later descriptor is not open, filling in fails after it has moved
    the cursor of an earlier vector although no I/O took place, and leaves the
    vector before the failing one filled in. *)
Theorem fill_error_moves_cursor detects malloc_ok t a b bad k :
  Fds.fdt_wf t -> is_fd a = true -> is_fd b = true -> is_fd bad = true ->
  offset a = TC_OFFSET_CUR -> Fds.entry t (fd (file a)) = Some k ->
  Fds.entry t (fd (file b)) <> None -> Fds.entry t (fd (file bad)) = None ->
  (forall i, malloc_ok i = true) ->
  exists t', nfs4_fill_fd_iovecs detects malloc_ok [a; b; bad] t =
      Ok (- EINVAL, [clear_one a; fill_one t b; bad], t') /\
    Fds.entry t' (fd (file a)) = Some (add_offset (length a) k).
Proof.
  intros Hwf Ha Hb Hbad Hcur Hk Hkb Hkbad Hm.
  destruct (Fds.entry t (fd (file b))) as [kb|] eqn:Eb; [|done].
  unfold nfs4_fill_fd_iovecs. cbn [fill_loop]. fold (is_fd a) (is_fd b) (is_fd bad).
  rewrite Ha, Hb, Hbad. rewrite (fill_data_ok detects malloc_ok t a 0 k) by done.
  cbn [obind]. change (negb (0 =? 0)) with false. cbn iota.
  rewrite (fill_data_ok detects malloc_ok t b 1 kb) by done.
  cbn [obind]. change (negb (0 =? 0)) with false. cbn iota.
  assert (nfs4_fill_fd_data detects (malloc_ok 2%nat) (file bad) t = Ok (- EINVAL, file bad, t)) as ->.
  { unfold nfs4_fill_fd_data. unfold is_fd in Hbad. rewrite Hbad. cbn [oassert obind].
    by rewrite Fds.get_closed. }
  cbn [obind]. change (negb (- EINVAL =? 0)) with true. cbn iota. cbn [app pred].
  match goal with |- context [nfs4_clear_fd_iovecs _ ?l _ _] =>
    destruct (clear_spec detects t l 1 Hwf) as (t' & E & _ & _ & He) end.
  { intros x Hx%list_elem_of_singleton _. subst x. cbn. by rewrite Hk. }
  rewrite E. cbn [obind take drop map app]. exists t'. split.
  - do 3 f_equal. f_equal; [|f_equal].
    + unfold is_fd in Ha. apply bool_decide_eq_true in Ha.
      destruct a as [[tf ff uf] ? ? ? ? ? ? ? ? ? ?]. cbn in Ha. by subst tf.
    + unfold fill_one. by rewrite Eb, Hb.
    + f_equal. by destruct bad as [[] ? ? ? ? ? ? ? ? ? ?].
  - rewrite He, Hk. unfold move_cursor. cbn. by rewrite Hcur, !Z.eqb_refl.
Qed.

Lemma fill_error_moves_cursor_witness :
  exists t', nfs4_fill_fd_iovecs true (fun _ => true)
      [cur_iov fd1 100; cur_iov fd1 20; cur_iov 5 7] table1 =
      Ok (- EINVAL, [cur_iov fd1 100; fill_one table1 (cur_iov fd1 20); cur_iov 5 7], t') /\
    Fds.entry t' fd1 =
      Some (Fds.mk_kfd Fds.Unlocked fd1 (Fds.mk_fh None 0) (Fds.mk_stateid 7 []) 0 100 0).
Proof.
  apply (fill_error_moves_cursor true (fun _ => true) table1 (cur_iov fd1 100) (cur_iov fd1 20)
           (cur_iov 5 7)
           (Fds.mk_kfd Fds.Unlocked fd1 (Fds.mk_fh None 0) (Fds.mk_stateid 7 []) 0 0 0)).
  - apply table1_wf.
  - reflexivity.
  - reflexivity.
  - reflexivity.
  - reflexivity.
  - vm_compute. reflexivity.
  - vm_compute. discriminate.
  - vm_compute. reflexivity.
  - intros i. reflexivity.
Defined.

(** ** One I/O vector through the driver *)

Lemma overhead_fd iov :
  is_fd iov = true -> Iovec.tc_get_iov_overhead iov = Ok 184.
Proof.
  unfold is_fd. intros E%bool_decide_eq_true.
  destruct iov as [[tf ff uf] ? ? ? ? ? ? ? ? ? ?]. cbn in E. by subst tf.
Qed.

Lemma split_one_fd iov fuel :
  is_fd iov = true -> 0 <= length iov -> 184 + length iov <= CPD_LIMIT - Iovec.CPDSIZE ->
  Iovec.tc_split_iov_array (S (S fuel)) [iov] CPD_LIMIT =
  Ok (Some [[Iovec.piece iov 0 (length iov)]]).
Proof.
  intros Hfd H0 Hlen. unfold Iovec.tc_split_iov_array.
  change CPD_LIMIT with 1048576 in *. change Iovec.CPDSIZE with 488 in *.
  rewrite (Iovec.split_fit _ iov 184); change Iovec.CPDSIZE with 488;
    [by rewrite Z.sub_0_r | | lia | lia | lia].
  split; [by apply overhead_fd | unfold Iovec.TC_SPLIT_THRESHOLD; lia | done |].
  change Iovec.CPDSIZE with 488. lia.
Qed.

Definition reset_flags (iov : viovec) : viovec :=
  mk_iov (file iov) (offset iov) (length iov) (data iov) (iov_type iov) (is_creation iov)
    (is_direct_io iov) false false (is_write_stable iov) (is_last_of_multiparts iov).

(** When the I/O of a vector at the cursor of its descriptor fails, the driver
    returns the error but still moves the cursor by the requested length. *)
Theorem do_iovec_failure_moves_cursor {W} detects malloc_ok junk fuel iov k r t (w : W) fn :
  Fds.fdt_wf t -> is_fd iov = true -> offset iov = TC_OFFSET_CUR ->
  0 <= length iov -> 184 + length iov <= CPD_LIMIT - Iovec.CPDSIZE ->
  Fds.entry t (fd (file iov)) = Some k -> (forall i, malloc_ok i = true) ->
  err_no r <> 0 -> (forall x, fn (S (S fuel)) 1%nat x = done (r, x)) ->
  exists t', nfs4_do_iovec detects malloc_ok (S (S fuel)) junk [iov] fn [] [] t w =
      done (r, [clear_one (reset_flags iov)], [], [], t', w) /\
    Fds.entry t' (fd (file iov)) = Some (add_offset (length iov) k).
Proof.
  intros Hwf Hfd Hcur H0 Hlen Hk Hm Her Hfn. unfold nfs4_do_iovec. cbn [map].
  fold (reset_flags iov). unfold nfs4_fill_fd_iovecs.
  assert (all_open t [reset_flags iov]) as Hopen.
  { intros x ->%list_elem_of_singleton _. cbn. by rewrite Hk. }
  rewrite (fill_loop_ok detects malloc_ok t [] [reset_flags iov] 0) by done.
  cbn [obind app map]. change (negb (0 =? 0)) with false. cbn iota.
  destruct (fill_one_same t (reset_flags iov)) as (E1 & E2 & E3 & E4 & E5).
  set (iov1 := fill_one t (reset_flags iov)) in *.
  change (is_fd (reset_flags iov)) with (is_fd iov) in E1.
  change (length (reset_flags iov)) with (length iov) in E3.
  rewrite split_one_fd by (rewrite ?E1, ?E3; done).
  cbn [fbind obind]. cbn [parts_loop List.length]. rewrite Hfn. unfold fbind, done. cbn [obind].
  unfold vokay. rewrite (proj2 (Z.eqb_neq _ _) Her). cbn [negb take drop app].
  assert (is_eof iov1 = false) as Heof.
  { subst iov1. unfold fill_one. destruct (Fds.entry t _); [|done].
    by destruct (is_fd (reset_flags iov)). }
  assert (tc_cmp_file (file iov1) (file iov1) = Ok true) as Hcmp.
  { rewrite Hfd in E1. unfold is_fd in E1. apply bool_decide_eq_true in E1.
    unfold tc_cmp_file. rewrite bool_decide_true by done. rewrite E1. cbn.
    by rewrite Z.eqb_refl. }
  unfold Iovec.vrestore_iov_array. cbn [obind Iovec.restore_parts].
  change CPD_LIMIT with 1048576 in Hlen. change Iovec.CPDSIZE with 488 in Hlen.
  rewrite (Iovec.restore_one [iov1] 0 0 iov1 (length iov1) []); [|done| |lia|lia|lia].
  2: { split_and!; [done | done | lia | lia]. }
  rewrite Z.add_0_l, Z.eqb_refl. cbn [Iovec.restore_part obind negb snd fst].
  change (negb (0 =? 0)) with false. cbn [obind fst List.length].
  destruct (clear_spec detects t [iov1] 1 Hwf) as (t' & E & _ & _ & He).
  { intros x ->%list_elem_of_singleton _. rewrite E4. cbn. by rewrite Hk. }
  rewrite E. cbn [obind]. exists t'. split.
  - cbn [take drop map app]. by rewrite E5.
  - rewrite He, Hk. unfold move_cursor. cbn [foldl take].
    rewrite E1, E2, E3, E4. cbn [offset reset_flags file]. rewrite Hfd, Hcur, !Z.eqb_refl.
    done.
Qed.

Definition failing_fn (fuel n : nat) (x : @iobufs unit) : outcome (option (vres * @iobufs unit)) :=
  done (mk_vres 0 5, x).

Lemma do_iovec_failure_moves_cursor_witness :
  exists t', nfs4_do_iovec true (fun _ => true) 2 0 [cur_iov fd1 100] failing_fn [] [] table1 tt =
      done (mk_vres 0 5, [cur_iov fd1 100], [], [], t', tt) /\
    Fds.entry t' fd1 =
      Some (Fds.mk_kfd Fds.Unlocked fd1 (Fds.mk_fh None 0) (Fds.mk_stateid 7 []) 0 100 0).
Proof.
  apply (do_iovec_failure_moves_cursor true (fun _ => true) 0 0 (cur_iov fd1 100)
           (Fds.mk_kfd Fds.Unlocked fd1 (Fds.mk_fh None 0) (Fds.mk_stateid 7 []) 0 0 0)
           (mk_vres 0 5) table1 tt failing_fn).
  - apply table1_wf.
  - reflexivity.
  - reflexivity.
  - vm_compute. discriminate.
  - vm_compute. discriminate.
  - vm_compute. reflexivity.
  - intros i. reflexivity.
  - discriminate.
  - intros x. reflexivity.
Defined.

(** ** Closing *)

(** The table without the descriptors [fds]. *)
Definition freed (t t' : Fds.fd_table) (fds : list Z) : Prop :=
  Fds.fdt_wf t' /\ forall g, Fds.entry t' g = if decide (g ∈ fds) then None else Fds.entry t g.

Lemma freed_nil t : Fds.fdt_wf t -> freed t t [].
Proof. intros H. split; [done|]. intros g. by rewrite decide_False by apply not_elem_of_nil. Qed.

Lemma freed_app t t1 t2 a b : freed t t1 a -> freed t1 t2 b -> freed t t2 (a ++ b).
Proof.
  intros [_ H1] [Hwf H2]. split; [done|]. intros g. rewrite H2, H1.
  repeat case_decide; set_solver.
Qed.

Section closing.
Context {W : Type} (detects : bool).

Lemma free_freed t g :
  Fds.fdt_wf t -> exists r t', Fds.tc_free_fd detects g t = Ok (r, t') /\ freed t t' [g].
Proof.
  intros Hwf. destruct (Fds.entry t g) as [k|] eqn:E.
  - destruct (Fds.free_fd_entry detects t g k Hwf E) as (t' & Hf & Hwf' & He & _).
    exists 0, t'. split; [done|]. split; [done|]. intros h. rewrite He.
    repeat case_decide; set_solver.
  - exists (- EINVAL), t. split; [by apply Fds.free_fd_closed|]. split; [done|].
    intros h. case_decide as Hh; [|done]. apply list_elem_of_singleton in Hh. by subst.
Qed.

Lemma free_rest_spec files t :
  Fds.fdt_wf t ->
  exists t', free_rest detects files t = Ok t' /\
    freed t t' (fd <$> filter (fun f => type f <> VFILE_NULL) files).
Proof.
  revert t. induction files as [|f files IH]; intros t Hwf.
  { exists t. split; [done | by apply freed_nil]. }
  cbn [free_rest]. rewrite filter_cons. case_bool_decide as E.
  - rewrite decide_False by (intros H; done). cbn [obind]. by apply IH.
  - rewrite decide_True by done. destruct (free_freed t (fd f) Hwf) as (r & t1 & -> & H1).
    cbn [obind]. destruct (IH t1) as (t' & -> & H2); [apply H1|].
    exists t'. split; [done|]. rewrite fmap_cons. by apply (freed_app t t1 t' [fd f]).
Qed.

Definition nullify (f : vfile) : vfile := mk_vfile VFILE_NULL (fd f) (u f).

Lemma close_range_spec n pre post t :
  Fds.fdt_wf t -> (n <= List.length post)%nat ->
  exists t', close_range detects n (List.length pre) (pre ++ post) t =
      Ok (pre ++ (nullify <$> take n post) ++ drop n post, t') /\
    freed t t' (fd <$> take n post).
Proof.
  revert pre post t. induction n as [|n IH]; intros pre post t Hwf Hle.
  { exists t. split; [done | by apply freed_nil]. }
  destruct post as [|f post]; [cbn in Hle; lia|]. cbn [close_range].
  rewrite list_lookup_middle by done.
  destruct (free_freed t (fd f) Hwf) as (r & t1 & -> & H1). cbn [obind].
  replace (<[ List.length pre := mk_vfile VFILE_NULL (fd f) (u f) ]> (pre ++ f :: post))
    with ((pre ++ [nullify f]) ++ post).
  2: { rewrite <- (Nat.add_0_r (List.length pre)), insert_app_r, <- app_assoc. done. }
  replace (S (List.length pre)) with (List.length (pre ++ [nullify f]))
    by (rewrite length_app; cbn; lia).
  destruct (IH (pre ++ [nullify f]) post t1) as (t' & -> & H2); [apply H1 | cbn in Hle; lia |].
  exists t'. split; [by rewrite <- !app_assoc|]. cbn [take]. rewrite fmap_cons.
  by apply (freed_app t t1 t' [fd f]).
Qed.

(** What the FSAL promises of closing: a successful call closes at least one file
    and no more than it was given. *)
Class CloseOk (o : obj_ops W) : Prop :=
  close_ok : forall fhs sids seqs w r w', vec_close o fhs sids seqs w = (r, w') ->
    err_no r = 0 -> fhs <> [] -> 1 <= index r <= Z.of_nat (List.length fhs).

Lemma close_loop_spec (o : obj_ops W) `{!CloseOk o} fuel gathered pre post r0 t w :
  Fds.fdt_wf t -> List.length gathered = List.length (pre ++ post) ->
  (List.length post <= fuel)%nat ->
  exists r n t' w', close_loop detects (S fuel) o gathered (List.length pre) r0 (pre ++ post) t w =
      done (r, pre ++ (nullify <$> take n post) ++ drop n post, t', w') /\
    freed t t' (fd <$> take n post).
Proof.
  revert pre post r0 t w. induction fuel as [|fuel IH]; intros pre post r0 t w Hwf Hlen Hf;
    rewrite length_app in Hlen.
  { exists r0, O, t, w. cbn [close_loop]. rewrite (proj2 (Nat.ltb_ge _ _)) by lia.
    split; [done | by apply freed_nil]. }
  remember (S fuel) as fu. cbn [close_loop].
  destruct (_ <? List.length gathered)%nat eqn:Elt; reflect_bools.
  2: { exists r0, O, t, w. split; [done | by apply freed_nil]. }
  destruct (vec_close o _ _ _ w) as [r w1] eqn:Ec. unfold vokay.
  destruct (err_no r =? 0) eqn:Er; cbn [negb]; reflect_bools.
  2: { eexists _, O, t, w1. split; [done | by apply freed_nil]. }
  apply close_ok in Ec; [|done|].
  2: { intros E. apply (f_equal List.length) in E. rewrite !length_fmap, length_drop in E.
       cbn in E. lia. }
  rewrite !length_fmap, length_drop in Ec. set (k := Z.to_nat (index r)).
  destruct (close_range_spec k pre post t Hwf) as (t1 & -> & Hfr1); [lia|].
  cbn [obind]. rewrite app_assoc. subst fu.
  assert (List.length (pre ++ (nullify <$> take k post)) = List.length pre + k)%nat as Hl.
  { rewrite length_app, length_fmap, length_take. lia. }
  rewrite <- Hl.
  destruct (IH (pre ++ (nullify <$> take k post)) (drop k post) r t1 w1)
    as (r' & n & t' & w' & -> & Hfr'); [apply Hfr1 | | rewrite length_drop; lia |].
  { rewrite length_app, Hl, length_drop. lia. }
  exists r', (k + n)%nat, t', w'. split.
  - rewrite <- app_assoc, (drop_drop post), <- take_take_drop, fmap_app. by rewrite <- !app_assoc.
  - rewrite <- take_take_drop, fmap_app. by apply (freed_app t t1 t').
Qed.

Lemma close_gather_spec files t :
  Fds.fdt_wf t ->
  Forall (fun f => type f = VFILE_DESCRIPTOR /\ Fds.entry t (fd f) <> None) files ->
  exists gathered, close_gather detects files t = Ok (gathered, t) /\
    List.length gathered = List.length files.
Proof.
  intros Hwf. induction 1 as [|f files [Hty Hop] _ (g & E & Hl)]; [by exists []|].
  cbn [close_gather]. rewrite Hty. cbn [oassert obind bool_decide].
  rewrite !bool_decide_false, bool_decide_true by done. cbn [oassert obind].
  destruct (Fds.entry t (fd f)) as [k|] eqn:Ek; [|done].
  destruct (Fds.get_put_read detects t _ k Hwf Ek) as (t1 & -> & He & Ht).
  cbn [obind]. rewrite He, Ht, E. cbn [obind]. eexists. split; [done|]. cbn. by rewrite Hl.
Qed.

End closing.

Lemma closev_spec {W} detects (o : obj_ops W) files t (w : W) :
  CloseOk o -> Fds.fdt_wf t ->
  Forall (fun f => type f = VFILE_DESCRIPTOR /\ Fds.entry t (fd f) <> None) files ->
  exists r files' t' w',
    nfs4_closev (Some o) detects (S (List.length files)) files t w = done (r, files', t', w') /\
    Fds.fdt_wf t' /\
    forall g, Fds.entry t' g = if decide (g ∈ fd <$> files) then None else Fds.entry t g.
Proof.
  intros Hok Hwf Hfiles. unfold nfs4_closev. cbn [with_export].
  destruct (close_gather_spec detects files t Hwf Hfiles) as (g & -> & Hg). cbn [obind].
  destruct (close_loop_spec detects o (List.length files) g [] files
              (mk_vres (Z.of_nat (List.length files)) 0) t w) as (r & n & t1 & w1 & E & Hfr1);
    [done | done | done |].
  cbn [app List.length] in E. rewrite E. unfold fbind, done. cbn [obind].
  destruct (free_rest_spec detects ((nullify <$> take n files) ++ drop n files) t1)
    as (t2 & -> & Hfr2); [apply Hfr1|].
  eexists _, _, _, _. split; [done|].
  destruct (freed_app _ _ _ _ _ Hfr1 Hfr2) as [Hwf2 He]. split; [done|]. intros h. rewrite He.
  replace (fd <$> filter (fun f => type f <> VFILE_NULL) ((nullify <$> take n files) ++ drop n files))
    with (fd <$> drop n files).
  { by rewrite <- fmap_app, take_drop. }
  rewrite filter_app, fmap_app.
  rewrite filter_none, filter_all; [done | |].
  - apply Forall_drop. eapply Forall_impl; [exact Hfiles|]. by intros f [-> _].
  - apply Forall_fmap, Forall_true. intros f H. by apply H.
Qed.

(** Closing an array of open descriptors terminates and frees exactly these
    descriptors, however many files the server closes per compound and whether or
    not it reports an error. *)
Theorem closev_frees_all {W} detects (o : obj_ops W) files t (w : W) :
  CloseOk o -> Fds.fdt_wf t ->
  Forall (fun f => type f = VFILE_DESCRIPTOR /\ Fds.entry t (fd f) <> None) files ->
  exists r files' t' w',
    nfs4_closev (Some o) detects (S (List.length files)) files t w = done (r, files', t', w') /\
    Fds.fdt_wf t' /\
    forall g, Fds.entry t' g = if decide (g ∈ fd <$> files) then None else Fds.entry t g.
Proof. apply closev_spec. Qed.

(** Operations that handle one element per call and always succeed; opening gives
    each file its path as the handle and a state id with its path. *)
Definition path_of (a : vattrs) : list ascii := default [] (path (attr_file a)).
Definition path_handle (a : vattrs) : file_handle :=
  mk_handle (List.length (path_of a)) FILEID_NFS_FH_TYPE (path_of a).
Definition one {A} (l : list A) (w : unit) : vres * unit := (mk_vres 1 0, w).
Definition one2 {A B} (l : list A) (l' : list B) (w : unit) : vres * unit := (mk_vres 1 0, w).
Definition keep {A} (l : list A) (w : unit) : vres * list A * unit := (mk_vres 1 0, l, w).
Definition open_one (l : list vattrs) (flags : list Z) (w : unit)
  : vres * list vattrs * list Fds.stateid4 * unit :=
  (mk_vres 1 0,
   match l with
   | [] => []
   | a :: l => with_attr_file a (mk_vfile VFILE_HANDLE 0 (UHandle (path_handle a))) :: l
   end,
   map (fun a => Fds.mk_stateid 9 (path_of a)) l, w).

Definition one_ops : obj_ops unit := {|
  vec_read := None; vec_write := None; vec_read_write := None;
  vec_open := Some open_one;
  vec_close := fun fhs _ _ w => (mk_vres 1 0, w);
  vec_lgetattrs := keep; vec_lsetattrs := keep; vec_mkdir := keep;
  vec_rename := one; vec_remove := one; vec_lcopy := one;
  vec_hardlink := one2; vec_symlink := one2;
  vec_readlink := fun _ bufs w => (mk_vres 1 0, bufs, w);
  vec_listdir := fun _ _ _ _ w => (mk_vres 0 0, [], w);
  sca_chdir := fun _ w => (0, w); sca_getcwd := fun _ => []; fullpath := ["/"; "e"]%char |}.

#[export] Instance one_ops_close : CloseOk one_ops.
Proof.
  intros fhs sids seqs w r w'. cbn. intros [= <- _] _ Hne. cbn.
  destruct fhs; [done | cbn; lia].
Qed.

Definition fd2 : Z := 1022 + Fds.VFD_OFFSET.

Lemma closev_frees_all_witness :
  exists r files' t' w',
    nfs4_closev (Some one_ops) true 3 [vfile_from_fd fd1; vfile_from_fd fd2] Fds.table2 tt =
      done (r, files', t', w') /\ Fds.entry t' fd1 = None /\ Fds.entry t' fd2 = None.
Proof.
  destruct (closev_frees_all true one_ops [vfile_from_fd fd1; vfile_from_fd fd2] Fds.table2 tt)
    as (r & files' & t' & w' & E & _ & He).
  - apply one_ops_close.
  - apply Fds.table2_wf.
  - repeat constructor; vm_compute; discriminate.
  - exists r, files', t', w'. split_and!; [exact E | |]; rewrite He;
      rewrite decide_True; [reflexivity | | reflexivity |]; cbn.
    + apply elem_of_cons. left. reflexivity.
    + apply elem_of_cons. right. apply elem_of_cons. left. reflexivity.
Defined.

(** Freeing a descriptor whose write lock and [fd_list_lock] the thread holds. *)
Lemma free_held detects t i k :
  Fds.fd_list t !! i = Some k -> Fds.fd_lock k = Fds.WrLocked ->
  Fds.fd k = Z.of_nat i + Fds.VFD_OFFSET -> (i < Fds.MAX_FD)%nat -> Fds.fd_list_lock t = true ->
  Fds.tc_free_fd detects (Fds.fd k) t = Deadlock.
Proof.
  intros Hk Hl Hfd Hi Hm. unfold Fds.tc_free_fd, Fds.tc_get_fd_struct. rewrite Hfd.
  pose proof Fds.VFD_OFFSET_pos.
  rewrite (proj2 (Z.ltb_ge _ _)), (proj2 (Z.leb_gt _ _)) by lia. cbn [orb].
  replace (Z.to_nat _) with i by lia. rewrite Hk, Hl. destruct detects; [|done].
  cbn [Fds.rdlock obind]. rewrite Hfd, Z.eqb_refl, (proj2 (Z.ltb_ge _ _)) by lia.
  cbn [negb orb Fds.rwunlock Fds.wrlock obind Fds.tc_put_fd_struct snd].
  unfold Fds.push_free, Fds.mutex_lock.
  cbn [Fds.fd_list_lock Fds.with_list Fds.tc_put_fd_struct snd]. by rewrite Hm.
Qed.

(** C14: closing all descriptors at shutdown deadlocks as soon as one is open and
    the server closes it: the entry is freed while [tc_for_each_fd] holds the lock
    of the free stack. *)
Theorem close_all_deadlocks {W} detects (o : obj_ops W) t (w : W) g :
  Fds.fdt_wf t -> Fds.entry t g <> None ->
  (forall fhs sids seqs w, err_no (vec_close o fhs sids seqs w).1 = 0) ->
  nfs4_close_all (Some o) detects t w = Deadlock.
Proof.
  intros Hwf Hg Hcl. unfold nfs4_close_all, Fds.tc_for_each_fd, Fds.mutex_lock.
  rewrite (Fds.wf_mutex _ Hwf). cbn [obind].
  destruct (Fds.entry t g) as [kg|] eqn:Eg; [|done].
  destruct (Fds.entry_inv _ _ _ Hwf Eg) as (ig & -> & Hig & Hkg & _ & Hfdg & _).
  set (t1 := Fds.mk_fdt (Fds.fd_list t) (Fds.free_fds t) (Fds.free_fds_top t) true).
  assert (forall n i, (i + n = Fds.MAX_FD)%nat -> (i <= ig)%nat ->
    Fds.for_each_loop detects (nfs4_close_impl (Some o) detects) n i 0 t1 w = Deadlock) as Hloop.
  { induction n as [|n IH]; intros i Hin Hi; [lia|]. cbn [Fds.for_each_loop].
    destruct (lookup_lt_is_Some_2 (Fds.fd_list t) i) as [k Hk].
    { rewrite (Fds.wf_list _ Hwf). lia. }
    cbn [Fds.fd_list t1]. rewrite Hk. destruct (Fds.wf_entry _ Hwf _ _ Hk) as [Hl Hfd].
    rewrite Hl. cbn [Fds.wrlock obind]. rewrite Hfd. pose proof Fds.VFD_OFFSET_pos.
    case_decide as Hfree.
    - cbn [Z.ltb Z.compare]. cbn iota.
      replace (Fds.tc_put_fd_struct i _).2 with t1.
      2: { unfold Fds.tc_put_fd_struct. cbn [snd Fds.fd_list Fds.with_list t1].
           rewrite Fds.alter_insert_eq by (by eapply lookup_lt_Some).
           cbn [Fds.fd_lock Fds.set_lock Fds.rwunlock]. unfold Fds.with_list.
           cbn [Fds.free_fds Fds.free_fds_top Fds.fd_list_lock].
           rewrite (list_insert_id (Fds.fd_list t) i); [done|]. rewrite Hk. f_equal.
           destruct k; cbn in *. by subst. }
      apply IH; [lia|]. destruct (decide (i = ig)) as [->|]; [|lia].
      rewrite Hkg in Hk. injection Hk as <-. lia.
    - rewrite (proj2 (Z.ltb_lt _ _)) by lia. unfold nfs4_close_impl at 1. cbn [with_export].
      cbn [Fds.fd_list Fds.with_list t1].
      rewrite list_lookup_insert_eq by (by eapply lookup_lt_Some).
      destruct (vec_close o _ _ _ w) as [r w1] eqn:Ec.
      pose proof (Hcl [Fds.fh (Fds.set_lock k Fds.WrLocked)]
        [Fds.stateid (Fds.set_lock k Fds.WrLocked)] [Fds.seqid (Fds.set_lock k Fds.WrLocked)] w) as Hr.
      rewrite Ec in Hr. cbn in Hr. unfold vokay. rewrite Hr. cbn [Z.eqb negb].
      rewrite (free_held detects _ i (Fds.set_lock k Fds.WrLocked)); [done | | done | | lia | done].
      + cbn. apply list_lookup_insert_eq. by eapply lookup_lt_Some.
      + done. }
  by rewrite (Hloop Fds.MAX_FD 0%nat) by lia.
Qed.

Lemma close_all_deadlocks_witness : nfs4_close_all (Some one_ops) true table1 tt = Deadlock.
Proof.
  apply (close_all_deadlocks true one_ops table1 tt fd1).
  - apply table1_wf.
  - vm_compute. discriminate.
  - intros fhs sids seqs w. reflexivity.
Defined.

(** ** Opening *)

(** [t'] is [t] with the new descriptors [gs]. *)
Record opened (t t' : Fds.fd_table) (gs : list Z) : Prop := {
  op_wf : Fds.fdt_wf t';
  op_top : (Fds.free_fds_top t' + List.length gs = Fds.free_fds_top t)%nat;
  op_nodup : NoDup gs;
  op_new : forall g, g ∈ gs -> Fds.entry t g = None /\ Fds.entry t' g <> None;
  op_old : forall g, (g ∉ gs) -> Fds.entry t' g = Fds.entry t g
}.

Lemma opened_nil t : Fds.fdt_wf t -> opened t t [].
Proof.
  intros Hwf. split; [done | cbn; lia | constructor | | done]. by intros g ?%elem_of_nil.
Qed.

Lemma opened_app t t1 t2 a b : opened t t1 a -> opened t1 t2 b -> opened t t2 (a ++ b).
Proof.
  intros [H1 H2 H3 H4 H5] [K1 K2 K3 K4 K5].
  assert (forall g, g ∈ a -> g ∉ b) as Hdis.
  { intros g Ha Hb. by destruct (H4 g Ha), (K4 g Hb). }
  split.
  - done.
  - rewrite length_app. lia.
  - apply NoDup_app. split_and!; [done | done | done].
  - intros g [Hg|Hg]%elem_of_app.
    + destruct (H4 g Hg). split; [done|]. rewrite K5; [done | by apply Hdis].
    + destruct (K4 g Hg) as [E1 E2]. split; [|done]. rewrite <- H5; [done|].
      intros Ha. by apply (Hdis g).
  - intros g Hg. rewrite not_elem_of_app in Hg. destruct Hg. rewrite K5, H5; done.
Qed.

(** Descriptor [g] stands for the file that the server opened with the state id and the
    attributes [p]: the entry has this state id, the handle and the size of this file, and
    the offset zero. *)
Definition bound_to (t : Fds.fd_table) (g : Z) (p : Fds.stateid4 * vattrs) : Prop :=
  exists h, u (attr_file p.2) = UHandle h /\
    Fds.entry t g = Some (Fds.mk_kfd Fds.Unlocked g
      (Fds.mk_fh (Some (f_handle h)) (handle_bytes h)) p.1 0 0 (size (vals p.2))).

Lemma bound_later t t' gs l gs' :
  opened t t' gs' -> Forall2 (bound_to t) gs l -> Forall2 (bound_to t') gs l.
Proof.
  intros Ho H. eapply Forall2_impl; [exact H|]. intros g p (h & Hh & Hg). exists h. split; [done|].
  rewrite (op_old _ _ _ Ho); [done|]. intros Hin. destruct (op_new _ _ _ Ho g Hin). congruence.
Qed.

Section opening.
Context {W : Type} (detects : bool).

(** The state ids and attributes that the server returns for an array of files, call after
    call until all are open; [None] when a call fails. *)
Fixpoint server_opens (fuel : nat)
    (f : list vattrs -> list Z -> W -> vres * list vattrs * list Fds.stateid4 * W)
    (attrs : list vattrs) (flags : list Z) (w : W) : option (list (Fds.stateid4 * vattrs)) :=
  match attrs, fuel with
  | [], _ => Some []
  | _, O => None
  | _, S fuel =>
      let '(r, attrs', sids, w) := f attrs flags w in
      if err_no r =? 0 then
        let n := Z.to_nat (index r) in
        app (zip (take n sids) (take n attrs')) <$> server_opens fuel f (drop n attrs') (drop n flags) w
      else None
  end.

Lemma open_fd_spec sid a t h :
  Fds.fdt_wf t -> u (attr_file a) = UHandle h -> Fds.free_fds_top t <> O ->
  exists g t', open_fd detects sid a t = Ok (vfile_from_fd g, t') /\ opened t t' [g] /\
    Fds.entry t' g = Some (Fds.mk_kfd Fds.Unlocked g
      (Fds.mk_fh (Some (f_handle h)) (handle_bytes h)) sid 0 0 (size (vals a))).
Proof.
  intros Hwf Hh Htop. destruct (Fds.free_fds_top t) as [|top] eqn:Et; [done|].
  unfold open_fd. rewrite Hh.
  destruct (Fds.alloc_fd_entry t sid (Fds.mk_fh (Some (f_handle h)) (handle_bytes h)) top Hwf Et)
    as (g & t1 & sz & -> & Hwf1 & _ & Hnew & Htop1 & He1).
  cbn [obind]. pose proof (He1 g) as Hg. rewrite decide_True in Hg by done.
  destruct (Fds.get_put_write detects t1 g _ (set_filesize (size (vals a))) Hwf1 Hg)
    as (i & t2 & -> & Hi & Hwf2 & Htop2 & He2); [done | done | done |].
  cbn [obind]. rewrite Hi. cbn [Fds.fd Fds.set_lock].
  eexists g, _. split; [done|]. split.
  - split; [exact Hwf2 | rewrite Htop2, Htop1; cbn; lia | apply NoDup_singleton | |].
    + intros x ->%list_elem_of_singleton. split; [done|]. rewrite He2, decide_True by done. done.
    + intros x Hx. rewrite list_elem_of_singleton in Hx.
      by rewrite He2, He1, !decide_False by done.
  - by rewrite He2, decide_True by done.
Qed.

Lemma open_fds_spec sids attrs t :
  Fds.fdt_wf t -> List.length sids = List.length attrs ->
  Forall (fun a => exists h, u (attr_file a) = UHandle h) attrs ->
  (List.length attrs <= Fds.free_fds_top t)%nat ->
  exists gs t', open_fds detects sids attrs t = Ok (vfile_from_fd <$> gs, t') /\
    List.length gs = List.length attrs /\ opened t t' gs /\ Forall2 (bound_to t') gs (zip sids attrs).
Proof.
  revert sids t. induction attrs as [|a attrs IH]; intros sids t Hwf Hlen Hh Htop.
  { destruct sids; [|done]. exists [], t. split_and!; [done | done | by apply opened_nil | constructor]. }
  destruct sids as [|sid sids]; [done|]. apply Forall_cons in Hh as [[h Hh] Hhs].
  cbn [List.length] in *. cbn [open_fds].
  destruct (open_fd_spec sid a t h Hwf Hh) as (g & t1 & -> & Ho & Hg); [lia|]. cbn [obind].
  pose proof (op_top _ _ _ Ho) as Ht1. cbn in Ht1.
  destruct (IH sids t1) as (gs & t' & -> & Hl & Ho' & Hb); [apply Ho | lia | done | lia |].
  exists (g :: gs), t'. split_and!; [done | cbn; lia | by apply (opened_app t t1 t' [g]) |].
  cbn [zip zip_with]. constructor; [|done].
  eapply Forall2_cons, (bound_later t1 t' [g] [(sid, a)] gs Ho'). repeat constructor. by exists h.
Qed.

(** What the FSAL promises of opening: a successful call opens at least one of the
    files it was given, with a handle and a state id for each. *)
Class OpenOk (f : list vattrs -> list Z -> W -> vres * list vattrs * list Fds.stateid4 * W)
  : Prop :=
  open_ok : forall attrs flags w r attrs' sids w', f attrs flags w = (r, attrs', sids, w') ->
    List.length attrs' = List.length attrs /\
    (err_no r = 0 -> attrs <> [] ->
     1 <= index r <= Z.of_nat (List.length attrs) /\
     List.length sids = List.length attrs /\
     Forall (fun a => exists h, u (attr_file a) = UHandle h)
       (take (Z.to_nat (index r)) attrs')).

Lemma open_loop_spec (o : obj_ops W) f `{!OpenOk f} `{!CloseOk o} fuel flags attrs gs l t0 t w :
  Fds.fdt_wf t0 -> opened t0 t gs -> Forall2 (bound_to t) gs l -> (List.length gs <= List.length attrs)%nat ->
  (List.length attrs <= List.length gs + fuel)%nat ->
  (List.length attrs <= Fds.free_fds_top t0)%nat ->
  exists res attrs' t' w',
    open_loop (Some o) detects (S fuel) f flags (List.length gs) attrs
      ((vfile_from_fd <$> gs) ++ replicate (List.length attrs - List.length gs) null_file) t w =
      done (res, attrs', t', w') /\ Fds.fdt_wf t' /\
    match server_opens fuel f (drop (List.length gs) attrs) (drop (List.length gs) flags) w with
    | Some l' => exists gs', res = Some (vfile_from_fd <$> gs') /\
        List.length gs' = List.length attrs /\ opened t0 t' gs' /\ Forall2 (bound_to t') gs' (l ++ l')
    | None => res = None /\ forall g, Fds.entry t' g = Fds.entry t0 g
    end.
Proof.
  intros Hwf0. revert attrs gs l t w. induction fuel as [|fuel IH]; intros attrs gs l t w Ho Hb Hle Hf Htop.
  { eexists (Some _), attrs, t, w. cbn [open_loop]. rewrite (proj2 (Nat.ltb_ge _ _)) by lia.
    split_and!; [done | apply Ho |]. rewrite drop_ge by lia. cbn [server_opens]. exists gs.
    replace (List.length attrs - List.length gs)%nat with O by lia.
    rewrite !app_nil_r. split_and!; [done | lia | done | done]. }
  remember (S fuel) as fu. cbn [open_loop].
  destruct (List.length gs <? List.length attrs)%nat eqn:Elt; reflect_bools.
  2: { eexists (Some _), attrs, t, w. split_and!; [done | apply Ho |]. rewrite drop_ge by lia. subst fu.
       cbn [server_opens]. exists gs.
       replace (List.length attrs - List.length gs)%nat with O by lia.
       rewrite !app_nil_r. split_and!; [done | lia | done | done]. }
  destruct (drop (List.length gs) attrs) as [|a0 rest] eqn:Edrop.
  { apply (f_equal List.length) in Edrop. rewrite length_drop in Edrop. cbn in Edrop. lia. }
  rewrite <- Edrop. replace (server_opens fu f (drop (List.length gs) attrs) (drop (List.length gs) flags) w)
    with (let '(r, attrs', sids, w) := f (drop (List.length gs) attrs) (drop (List.length gs) flags) w in
      if err_no r =? 0 then
        let n := Z.to_nat (index r) in
        app (zip (take n sids) (take n attrs')) <$> server_opens fuel f (drop n attrs')
          (drop n (drop (List.length gs) flags)) w
      else None) by (rewrite Edrop; by subst fu).
  clear a0 rest Edrop.
  destruct (f _ _ w) as [[[r attrs1] sids] w1] eqn:Ef.
  apply open_ok in Ef as [Hlen1 Hok]. rewrite length_drop in Hlen1.
  unfold vokay. destruct (err_no r =? 0) eqn:Er; cbn [negb]; reflect_bools.
  - destruct Hok as (Hidx & Hsids & Hhs); [done | |].
    { intros E. apply (f_equal List.length) in E. rewrite length_drop in E. cbn in E. lia. }
    rewrite length_drop in Hidx, Hsids. set (n := Z.to_nat (index r)) in *.
    destruct (open_fds_spec (take n sids) (take n attrs1) t) as (gs1 & t1 & -> & Hl1 & Ho1 & Hb1).
    { apply Ho. } { rewrite !length_take. lia. } { done. }
    { rewrite length_take. pose proof (op_top _ _ _ Ho). lia. }
    cbn [obind]. rewrite length_take in Hl1. subst fu.
    set (attrs2 := take (List.length gs) attrs ++ attrs1).
    assert (List.length attrs2 = List.length attrs) as Hl2.
    { subst attrs2. rewrite length_app, length_take. lia. }
    assert (List.length gs + n = List.length (gs ++ gs1))%nat as -> by (rewrite length_app; lia).
    replace (put_slice _ _ _ _) with ((vfile_from_fd <$> gs ++ gs1) ++
      replicate (List.length attrs2 - List.length (gs ++ gs1)) null_file).
    2: { unfold put_slice. rewrite fmap_app, length_app, <- app_assoc.
         rewrite take_app_length' by (by rewrite length_fmap). do 2 f_equal.
         rewrite drop_app_ge by (rewrite length_fmap; lia).
         rewrite length_fmap, drop_replicate. f_equal. lia. }
    destruct (IH attrs2 (gs ++ gs1) (l ++ zip (take n sids) (take n attrs1)) t1 w1)
      as (res & attrs' & t' & w' & -> & Hwf' & Hres).
    { by apply (opened_app t0 t t1). } { apply Forall2_app; [by eapply bound_later | done]. }
    { rewrite length_app. lia. } { rewrite length_app. lia. } { lia. }
    exists res, attrs', t', w'. split_and!; [done | done |]. rewrite Hl2 in Hres. cbv zeta.
    replace (drop (List.length (gs ++ gs1)) attrs2) with (drop n attrs1) in Hres.
    2: { subst attrs2. rewrite length_app, <- drop_drop, drop_app_length' by (rewrite length_take; lia).
         f_equal. lia. }
    rewrite drop_drop. replace (List.length gs + n)%nat with (List.length (gs ++ gs1)) by (rewrite length_app; lia).
    destruct (server_opens fuel _ _ _ _) as [l'|]; cbn [fmap option_fmap option_map]; [|done].
    destruct Hres as (gs' & -> & H1 & H2 & H3). exists gs'. by rewrite <- app_assoc in H3.
  - rewrite take_app_length' by (by rewrite length_fmap).
    destruct (closev_spec detects o (vfile_from_fd <$> gs) t w1)
      as (r' & fs' & t' & w' & E & Hwf' & He); [done | apply Ho | |].
    { apply Forall_fmap, Forall_forall. intros g Hg. split; [done|].
      by apply (op_new _ _ _ Ho). }
    rewrite length_fmap in E. rewrite E. unfold fbind, done. cbn [obind].
    eexists None, _, t', w'. split_and!; [done | done | done |]. intros g. rewrite He.
    assert (fd <$> (vfile_from_fd <$> gs) = gs) as ->.
    { rewrite <- list_fmap_compose. by apply list_fmap_id. }
    case_decide as Hin; [by destruct (op_new _ _ _ Ho g Hin) | by apply (op_old _ _ _ Ho)].
Qed.

End opening.

(** The attributes that [nfs4_openv] hands to the server. *)
Definition asked_open (euid egid : Z) (paths : list (list ascii)) (flags : list Z) (modes : option (list Z))
    (attrs : list vattrs) : list vattrs :=
  imap (fun i a => open_attrs euid egid a (default [] (paths !! i)) (default 0 (flags !! i))
          (match modes with Some ms => ms !! i | None => None end)) attrs.


#[export] Instance open_one_ok : OpenOk open_one.
Proof.
  intros attrs flags w r attrs' sids w' [= <- <- <- <-]. rewrite !length_map. split; [by destruct attrs|].
  intros _ Hne. cbn. destruct attrs as [|a attrs]; [done|]. cbn. split_and!; [lia | lia | |].
  - done.
  - repeat constructor. by eexists.
Qed.

Definition attrs0 : vattrs :=
  mk_attrs null_file VMASK_INIT_NONE
    (mk_vals 0 0 0 0 0 0 0 0 (mk_time 0 0) (mk_time 0 0) (mk_time 0 0)).


(** Opening a file when all descriptors are in use crashes: the error of
    [tc_alloc_fd] is passed to [tc_get_fd_struct], whose null result is
    dereferenced. *)
Theorem openv_out_of_descriptors {W} detects (o : obj_ops W) f fuel euid egid p flags modes a t (w : W) :
  vec_open o = Some f -> OpenOk f -> Fds.fdt_wf t -> Fds.free_fds_top t = O ->
  (forall attrs flags w, err_no (f attrs flags w).1.1.1 = 0) ->
  nfs4_openv (Some o) detects (S fuel) euid egid [p] flags modes [a] t w = Abort.
Proof.
  intros Hf Hop Hwf Htop Hok. unfold nfs4_openv. cbn [with_export]. rewrite Hf.
  cbn [imap]. set (a1 := open_attrs _ _ _ _ _ _). cbn [open_loop List.length Nat.ltb Nat.leb drop].
  pose proof (Hok [a1] flags w) as Hr. change (drop 0 flags) with flags.
  destruct (f [a1] flags w) as [[[r attrs1] sids] w1] eqn:Ef. cbn in Hr.
  apply open_ok in Ef as [Hlen H]. destruct (H Hr) as (Hi & Hs & Hh); [done|].
  unfold vokay. rewrite Hr. cbn [Z.eqb negb take app]. cbn [List.length] in *.
  replace (Z.to_nat (index r)) with 1%nat in * by lia.
  destruct attrs1 as [|b attrs1]; [done|]. destruct sids as [|sid sids]; [done|].
  cbn [take] in *. apply Forall_cons in Hh as [[h Hh] _]. cbn [open_fds].
  unfold open_fd. rewrite Hh, Fds.alloc_fd_full by done. cbn [obind].
  by rewrite (Fds.get_closed detects t (- ENFILE)).
Qed.

(** A table with all descriptors in use. *)
Definition full_table : Fds.fd_table :=
  Fds.mk_fdt (imap (fun i _ => Fds.mk_kfd Fds.Unlocked (Z.of_nat i + Fds.VFD_OFFSET)
                                 (Fds.mk_fh None 0) (Fds.mk_stateid 0 []) 0 0 0)
                (replicate Fds.MAX_FD tt)) (replicate Fds.MAX_FD O) O false.

Lemma full_table_wf : Fds.fdt_wf full_table.
Proof.
  split.
  - cbn [Fds.fd_list full_table]. by rewrite length_imap, length_replicate.
  - apply length_replicate.
  - apply Nat.le_0_l.
  - done.
  - constructor.
  - intros i k. cbn [Fds.fd_list full_table]. rewrite list_lookup_imap.
    intros (x & _ & ->)%fmap_Some. split; [done|]. rewrite decide_False; [done|].
    apply not_elem_of_nil.
  - by intros i ?%elem_of_nil.
Qed.

Lemma openv_out_of_descriptors_witness :
  nfs4_openv (Some one_ops) true 2 0 0 [["a"%char]] [0] None [attrs0] full_table tt = Abort.
Proof.
  apply (openv_out_of_descriptors true one_ops open_one 1 0 0 ["a"%char] [0] None attrs0
           full_table tt).
  - reflexivity.
  - apply open_one_ok.
  - apply full_table_wf.
  - reflexivity.
  - intros attrs flags w. reflexivity.
Defined.

(** ** Attributes of descriptors *)

Definition is_fd_attr (a : vattrs) : bool := bool_decide (type (attr_file a) = VFILE_DESCRIPTOR).

(** The attributes with the descriptor translated to the file handle. *)
Definition handle_of (t : Fds.fd_table) (a : vattrs) : vattrs :=
  match Fds.entry t (fd (attr_file a)) with
  | Some k =>
      if is_fd_attr a then
        let b := take (Fds.nfs_fh4_len (Fds.fh k)) (default [] (Fds.nfs_fh4_val (Fds.fh k))) in
        with_attr_file a (mk_vfile VFILE_HANDLE (fd (attr_file a))
          (UHandle (mk_handle (List.length b) FILEID_NFS_FH_TYPE b)))
      else a
  | None => a
  end.

Definition attrs_open (t : Fds.fd_table) (attrs : list vattrs) : Prop :=
  forall a, a ∈ attrs -> is_fd_attr a = true -> Fds.entry t (fd (attr_file a)) <> None.

Section translate.
Context (detects : bool) (malloc_ok : nat -> bool) (Hm : forall i, malloc_ok i = true).

Lemma process_step t before a attrs i saved k :
  Fds.fdt_wf t -> is_fd_attr a = true -> Fds.entry t (fd (attr_file a)) = Some k ->
  process_loop detects malloc_ok before (a :: attrs) i saved t =
  process_loop detects malloc_ok (before ++ [handle_of t a]) attrs (S i)
    (saved ++ [attr_file a]) t.
Proof.
  intros Hwf Hfd Hk. cbn [process_loop]. fold (is_fd_attr a). rewrite Hfd.
  destruct (Fds.get_put_read detects t _ k Hwf Hk) as (t1 & -> & He & Ht).
  cbn [obind]. rewrite He, Ht. unfold new_file_handle. rewrite Hm.
  unfold handle_of. rewrite Hk, Hfd. done.
Qed.

Lemma process_loop_ok t before attrs i saved :
  Fds.fdt_wf t -> attrs_open t attrs ->
  process_loop detects malloc_ok before attrs i saved t =
  Ok (Some (saved ++ (attr_file <$> attrs)), before ++ map (handle_of t) attrs, t).
Proof.
  intros Hwf. revert before i saved.
  induction attrs as [|a attrs IH]; intros before i saved Hopen.
  { cbn. by rewrite !app_nil_r. }
  assert (attrs_open t attrs) as Ho by (intros x Hx; apply Hopen; by right).
  destruct (is_fd_attr a) eqn:Hfd.
  - destruct (Fds.entry t (fd (attr_file a))) as [k|] eqn:Hk.
    2: { exfalso. apply (Hopen a); [by left | done | done]. }
    rewrite (process_step t before a attrs i saved k) by done. rewrite IH by done.
    by rewrite <- !app_assoc.
  - cbn [process_loop]. fold (is_fd_attr a). rewrite Hfd, IH by done.
    assert (handle_of t a = a) as Hh.
    { unfold handle_of. rewrite Hfd. by destruct (Fds.entry t (fd (attr_file a))). }
    cbn [map]. by rewrite <- !app_assoc, Hh.
Qed.

Lemma restore_file t a b :
  attr_file b = attr_file (handle_of t a) -> attrs_open t [a] ->
  (if negb (bool_decide (type (attr_file a) = type (attr_file b)))
      && bool_decide (type (attr_file b) = VFILE_HANDLE)
   then with_attr_file b (attr_file a) else b) = with_attr_file b (attr_file a).
Proof.
  intros Hb Hopen. assert (attr_file b = attr_file a -> b = with_attr_file b (attr_file a)) as Hsame.
  { intros <-. by destruct b. }
  unfold handle_of in Hb. destruct (is_fd_attr a) eqn:Hfd.
  - destruct (Fds.entry t (fd (attr_file a))) as [k|] eqn:Hk.
    2: { exfalso. apply (Hopen a); [by left | done | done]. }
    unfold is_fd_attr in Hfd. apply bool_decide_eq_true in Hfd.
    rewrite Hb, Hfd. done.
  - assert (attr_file b = attr_file a) as E by (by destruct (Fds.entry t _)).
    rewrite E, bool_decide_true by done. cbn. by apply Hsame.
Qed.

Lemma restore_spec t attrs attrs2 :
  attrs_open t attrs -> attr_file <$> attrs2 = attr_file <$> map (handle_of t) attrs ->
  nfs4_restore_vfiles attrs2 (List.length attrs2) (attr_file <$> attrs) =
  zip_with (fun b a => with_attr_file b (attr_file a)) attrs2 attrs.
Proof.
  revert attrs2. induction attrs as [|a attrs IH]; intros attrs2 Hopen Heq.
  { apply fmap_nil_inv in Heq as ->. done. }
  destruct attrs2 as [|b attrs2]; [done|]. cbn [map] in Heq. rewrite !fmap_cons in Heq.
  injection Heq as Hb Heq. rewrite fmap_cons. cbn [nfs4_restore_vfiles List.length zip_with].
  rewrite (restore_file t a b Hb), IH; [done | | done |].
  - intros x Hx. apply Hopen. by right.
  - intros x Hx%list_elem_of_singleton. subst x. apply Hopen. by left.
Qed.

End translate.

(** Translating the descriptors of an attribute array leaves the table alone
    and no descriptor in the array; after the server has filled in the attributes,
    restoring gives every element its file back and keeps the attributes. *)
Theorem process_restore_vfiles detects malloc_ok t attrs :
  Fds.fdt_wf t -> attrs_open t attrs -> (forall i, malloc_ok i = true) ->
  exists saved attrs1, nfs4_process_vfiles detects malloc_ok attrs t = Ok (Some saved, attrs1, t) /\
    Forall (fun a => type (attr_file a) <> VFILE_DESCRIPTOR) attrs1 /\
    forall attrs2, attr_file <$> attrs2 = attr_file <$> attrs1 ->
      let r := nfs4_restore_vfiles attrs2 (List.length attrs2) saved in
      attr_file <$> r = attr_file <$> attrs /\ vals <$> r = vals <$> attrs2 /\
      masks <$> r = masks <$> attrs2.
Proof.
  intros Hwf Hopen Hm. unfold nfs4_process_vfiles.
  rewrite process_loop_ok by done. cbn [app]. eexists _, _. split; [done|]. split.
  - apply Forall_forall. intros x (a & -> & Ha)%list_elem_of_fmap. unfold handle_of.
    destruct (is_fd_attr a) eqn:Hfd.
    + destruct (Fds.entry t (fd (attr_file a))) eqn:E; [done|]. exfalso.
      by apply (Hopen a Ha Hfd).
    + unfold is_fd_attr in Hfd. apply bool_decide_eq_false in Hfd. by destruct (Fds.entry t _).
  - intros attrs2 Heq. rewrite (restore_spec t) by done.
    assert (List.length attrs2 = List.length attrs) as Hl.
    { apply (f_equal List.length) in Heq. by rewrite !length_fmap in Heq. }
    clear -Hl. revert attrs Hl. induction attrs2 as [|b attrs2 IH]; intros [|a attrs] Hl; try done.
    destruct (IH attrs) as (E1 & E2 & E3); [cbn in Hl; lia|].
    cbn [zip_with]. rewrite !fmap_cons, E1, E2, E3. done.
Qed.

Definition fd_attrs (f : Z) : vattrs := with_attr_file attrs0 (vfile_from_fd f).

Lemma process_restore_vfiles_witness :
  exists saved attrs1,
    nfs4_process_vfiles true (fun _ => true) [fd_attrs fd1] table1 = Ok (Some saved, attrs1, table1) /\
    attr_file <$> nfs4_restore_vfiles attrs1 (List.length attrs1) saved = [vfile_from_fd fd1].
Proof.
  destruct (process_restore_vfiles true (fun _ => true) table1 [fd_attrs fd1])
    as (saved & attrs1 & E & _ & H).
  - apply table1_wf.
  - intros a Ha%list_elem_of_singleton _. subst a. vm_compute. discriminate.
  - intros i. reflexivity.
  - exists saved, attrs1. split; [exact E|]. exact (proj1 (H attrs1 eq_refl)).
Defined.

(** When a later descriptor is not open, the attribute operations report a
    memory error and leave the element before it translated to a file handle. *)
Theorem lgetattrsv_leaves_handle {W} export detects malloc_ok fuel t a bad (w : W) :
  Fds.fdt_wf t -> is_fd_attr a = true -> is_fd_attr bad = true ->
  Fds.entry t (fd (attr_file a)) <> None -> Fds.entry t (fd (attr_file bad)) = None ->
  (forall i, malloc_ok i = true) ->
  nfs4_lgetattrsv export detects malloc_ok fuel [a; bad] t w =
    done (vfailure 0 ENOMEM, [handle_of t a; bad], t, w) /\
  type (attr_file (handle_of t a)) = VFILE_HANDLE.
Proof.
  intros Hwf Ha Hbad Hk Hkb Hm. destruct (Fds.entry t (fd (attr_file a))) as [k|] eqn:Ek; [|done].
  split; [|unfold handle_of; by rewrite Ek, Ha].
  unfold nfs4_lgetattrsv, attrs_op, nfs4_process_vfiles.
  rewrite (process_step detects malloc_ok Hm t [] a [bad] 0 [] k) by done.
  cbn [process_loop app]. fold (is_fd_attr bad). rewrite Hbad, Fds.get_closed by done. done.
Qed.

Lemma lgetattrsv_leaves_handle_witness :
  nfs4_lgetattrsv (Some one_ops) true (fun _ => true) 3 [fd_attrs fd1; fd_attrs 7] table1 tt =
    done (vfailure 0 ENOMEM, [handle_of table1 (fd_attrs fd1); fd_attrs 7], table1, tt) /\
  type (attr_file (handle_of table1 (fd_attrs fd1))) = VFILE_HANDLE.
Proof.
  apply (lgetattrsv_leaves_handle (Some one_ops) true (fun _ => true) 3 table1 (fd_attrs fd1)
           (fd_attrs 7) tt).
  - apply table1_wf.
  - reflexivity.
  - reflexivity.
  - vm_compute. discriminate.
  - vm_compute. reflexivity.
  - intros i. reflexivity.
Defined.

(** ** The working directory *)

(** The check that the working directory stays inside the export compares
    characters only: the parent of the export's root is accepted. *)
Theorem chdir_leaves_export {W} (o : obj_ops W) (w : W) :
  fullpath o <> [] ->
  let p := fullpath o ++ ["/"; "."; "."]%char in
  nfs4_chdir (Some o) p w = Ok (sca_chdir o p w) /\
  PathSpec.resolve [] p = removelast (PathSpec.resolve [] (fullpath o)).
Proof.
  intros Hne p. split.
  - unfold nfs4_chdir. cbn [with_export]. subst p. rewrite take_app_length.
    by rewrite bool_decide_true.
  - subst p. unfold PathSpec.resolve.
    replace (PathSpec.is_abs (fullpath o ++ ["/"; "."; "."]%char)) with
      (PathSpec.is_abs (fullpath o)) by (by destruct (fullpath o)).
    change ["/"; "."; "."]%char with (PathSpec.SLASH :: PathSpec.DOTDOT_).
    rewrite PathSpec.split_slash_app_slash.
    rewrite (PathSpec.split_slash_single PathSpec.DOTDOT_) by apply PathSpec.DOTDOT_no_slash.
    rewrite PathSpec.walks_snoc. unfold PathSpec.walk at 1. by rewrite decide_True.
Qed.

Lemma chdir_leaves_export_witness :
  nfs4_chdir (Some one_ops) ["/"; "e"; "/"; "."; "."]%char tt = Ok (0, tt) /\
  PathSpec.resolve [] ["/"; "e"; "/"; "."; "."]%char = [].
Proof. apply (chdir_leaves_export one_ops tt). discriminate. Defined.

End Nfs4.
