(* ===== verification/DataCache.v ===== *)
(** The data cache of [tc_cache/TC_DataCache.h]: blocks of file data in shards,
    each a cache of the Poco library together with the set of the blocks of every
    path. The Poco cache is an interface, with the laws the code relies on; the
    destructor of a block runs when the last reference to it goes. Module
    [Cache]; the theorems relate the cache to the bytes last put for each path. *)

From S2P Require Import Prelude.
Local Open Scope Z_scope.

Module Cache.

(** ** Strings *)

Definition digit (n : Z) : ascii := ascii_of_nat (48 + Z.to_nat n).

Definition is_digit (c : ascii) : bool :=
  (48 <=? nat_of_ascii c)%nat && (nat_of_ascii c <=? 57)%nat.

Fixpoint digits (fuel : nat) (n : Z) (acc : list ascii) : list ascii :=
  let acc := digit (n mod 10) :: acc in
  match fuel with
  | O => acc
  | S fuel => if n <? 10 then acc else digits fuel (n / 10) acc
  end.

(** [std::to_string] of a [size_t], which has at most 20 digits. *)
Definition to_string (n : Z) : list ascii := digits 19 n [].

Definition GetBlockKey (path : list ascii) (block_no : Z) : list ascii :=
  path ++ to_string block_no.

(** The bytes of [data], from the least significant. *)
Fixpoint Decode (data : list ascii) : Z :=
  match data with
  | [] => 0
  | c :: data => Z.of_nat (nat_of_ascii c) + Z.shiftl (Decode data) 8
  end.

Definition hash_m : Z := 3332679571.

(** The loop of [Hash], for strings shorter than 2^32 characters. *)
Fixpoint hash_loop (fuel : nat) (data : list ascii) (h : Z) : Z :=
  match fuel, data with
  | S fuel, _ :: _ =>
      let h := u32 (h + Decode (take 4 data)) in
      let h := u32 (h * hash_m) in
      hash_loop fuel (drop 4 data) (Z.lxor h (Z.shiftr h 16))
  | _, _ => h
  end.

Definition Hash (str : list ascii) (seed : Z) : Z :=
  hash_loop (length str) str (Z.lxor seed (u32 (zlen str * hash_m))).

(** ** The Poco cache

    [contents] is what the cache holds; [pget], [padd] and [premove] may also drop
    entries that expired or that are the least recently used. *)

Class Poco (C V : Type) := {
  contents : C -> gmap (list ascii) V;
  pget : list ascii -> C -> option V * C;
  padd : list ascii -> V -> C -> C;
  premove : list ascii -> C -> C;
  pclear : C -> C
}.

Class PocoLaws (C V : Type) `{Poco C V} : Prop := {
  pget_found : forall k c, (pget k c).1 = contents (pget k c).2 !! k;
  pget_sub : forall k c, contents (pget k c).2 ⊆ contents c;
  padd_sub : forall k v c, contents (padd k v c) ⊆ <[k := v]> (contents c);
  premove_sub : forall k c, contents (premove k c) ⊆ delete k (contents c);
  pclear_empty : forall c, contents (pclear c) = ∅
}.

(** A cache that is large enough and in which nothing expires. *)
#[export] Instance roomy {V} : Poco (gmap (list ascii) V) V := {
  contents c := c;
  pget k c := (c !! k, c);
  padd k v c := <[k := v]> c;
  premove k c := delete k c;
  pclear c := ∅
}.

#[export] Instance roomy_laws {V} : PocoLaws (gmap (list ascii) V) V.
Proof. split; by simpl. Qed.

(** ** Blocks *)

Definition CACHE_BLOCK_SIZE : Z := 256 * 1024.
Definition DATA_REFRESH_TIME_SECONDS : Z := 5.

(** [data] is the allocated memory; [None] is a byte never written. *)
Record DataBlock := mk_block {
  data : list (option ascii);
  len : Z;
  start_idx : Z;
  path : list ascii;
  block_no : Z;
  timestamp : Z
}.

(** [memcpy(dst + at, src + from, n)]; an access outside the objects is [Abort]. *)
Definition memcpy (dst : list (option ascii)) (at_ : Z) (src : list ascii) (from n : Z)
  : outcome (list (option ascii)) :=
  assert! (at_ + n <=? zlen dst) && (from + n <=? zlen src) ;;
  Ok (take (Z.to_nat at_) dst ++ map Some (take (Z.to_nat n) (drop (Z.to_nat from) src))
      ++ drop (Z.to_nat (at_ + n)) dst).

Section Shard.
Context {C : Type} `{Poco C DataBlock}.
(** [CACHE_BLOCK_SIZE] in the source; a parameter so that the statements can be
    evaluated on small blocks. *)
Context (block_size : Z).
(** [time(NULL)] during the call. *)
Context (now : Z).

Definition new_DataBlock (d : list ascii) (from size start : Z) (p : list ascii) (b : Z)
  : outcome DataBlock :=
  let! mem := memcpy (replicate (Z.to_nat block_size) None) start d from size in
  Ok (mk_block mem size start p b now).

Record DataCacheShard := mk_shard {
  base : C;
  cached_blocks : gmap (list ascii) (gset Z)
}.

Definition blocks_of (m : gmap (list ascii) (gset Z)) (p : list ascii) : gset Z :=
  default ∅ (m !! p).

Definition AddBlockToMap (p : list ascii) (b : Z) (s : DataCacheShard) : DataCacheShard :=
  mk_shard (base s) (<[p := {[ b ]} ∪ blocks_of (cached_blocks s) p]> (cached_blocks s)).

Definition erase_block (p : list ascii) (b : Z) (m : gmap (list ascii) (gset Z))
  : gmap (list ascii) (gset Z) :=
  match m !! p with
  | Some bs => <[p := bs ∖ {[ b ]}]> m
  | None => m
  end.

Definition RemoveBlockFromMap (p : list ascii) (b : Z) (s : DataCacheShard) : DataCacheShard :=
  mk_shard (base s) (erase_block p b (cached_blocks s)).

Definition isCached (p : list ascii) (s : DataCacheShard) : bool :=
  match cached_blocks s !! p with
  | Some bs => negb (bool_decide (bs = ∅))
  | None => false
  end.

(** The destructors of blocks. *)
Definition destroy (bs : list DataBlock) (m : gmap (list ascii) (gset Z))
  : gmap (list ascii) (gset Z) :=
  foldr (fun b m => erase_block (path b) (block_no b) m) m bs.

(** The blocks of [c] that satisfy [P] on their key and are no longer in [c']. *)
Definition gone (P : list ascii -> bool) (c c' : C) : list DataBlock :=
  map snd (map_to_list (filter (fun kb => P kb.1 = true /\ contents c' !! kb.1 = None)
                         (contents c))).

(** [DataCacheBase::get]. *)
Definition base_get (key : list ascii) (s : DataCacheShard) : option DataBlock * DataCacheShard :=
  let '(r, c) := pget key (base s) in
  (r, mk_shard c (destroy (gone (fun _ => true) (base s) c) (cached_blocks s))).

(** [DataCacheBase::add] of a new block: the block it replaces is destroyed, and the
    new block itself when the cache drops it at once. *)
Definition base_add (key : list ascii) (db : DataBlock) (s : DataCacheShard) : DataCacheShard :=
  let c := padd key db (base s) in
  let replaced := option_list (contents (base s) !! key) in
  let dropped := match contents c !! key with Some _ => [] | None => [db] end in
  mk_shard c (destroy (replaced ++ dropped
                ++ gone (fun k => negb (bool_decide (k = key))) (base s) c) (cached_blocks s)).

(** [DataCacheBase::add] of a block held by [ptrElem], then [AddBlockToMap], then the
    end of the scope of [ptrElem]. *)
Definition base_readd (key : list ascii) (db : DataBlock) (p : list ascii) (b : Z)
    (s : DataCacheShard) : DataCacheShard :=
  let c := padd key db (base s) in
  let s := mk_shard c (destroy (gone (fun k => negb (bool_decide (k = key))) (base s) c)
                        (cached_blocks s)) in
  let s := AddBlockToMap p b s in
  match contents c !! key with
  | Some _ => s
  | None => mk_shard (base s) (destroy [db] (cached_blocks s))
  end.

Definition base_remove (key : list ascii) (s : DataCacheShard) : DataCacheShard :=
  let c := premove key (base s) in
  mk_shard c (destroy (gone (fun _ => true) (base s) c) (cached_blocks s)).

Definition base_clear (s : DataCacheShard) : DataCacheShard :=
  let c := pclear (base s) in
  mk_shard c (destroy (gone (fun _ => true) (base s) c) (cached_blocks s)).

(** ** Operations of a shard *)

(** A block found in the cache after a copy of [n] bytes to its start. *)
Definition put_tail (b : DataBlock) (mem : list (option ascii)) (n : Z) : DataBlock :=
  mk_block mem (if (start_idx b =? 0) && (len b <? n) then n else len b) (start_idx b)
    (path b) (block_no b) now.

(** A block found in the cache after a copy of its bytes from [delta] on. *)
Definition put_head (b : DataBlock) (mem : list (option ascii)) (delta : Z) : DataBlock :=
  if delta <? start_idx b
  then mk_block mem (block_size - delta) delta (path b) (block_no b) now
  else mk_block mem (len b) (start_idx b) (path b) (block_no b) now.

(** The loop of [put]; [Ok None] when [fuel] rounds are not enough. *)
Fixpoint put_loop (fuel : nat) (p : list ascii) (offset length : Z) (d : list ascii)
    (i write_len : Z) (s : DataCacheShard) : outcome (option DataCacheShard) :=
  match fuel with
  | O => Ok None
  | S fuel =>
      if negb (write_len <? length) then done s
      else
        let bn := u64 (offset + i) / block_size in
        let key := GetBlockKey p bn in
        let n := u64 (length - write_len) in
        if n <? block_size then
          let '(ptrElem, s) := base_get key s in
          match ptrElem with
          | Some b =>
              let! mem := memcpy (data b) 0 d write_len n in
              done (base_readd key (put_tail b mem n) p bn s)
          | None =>
              let! db := new_DataBlock d write_len n 0 p bn in
              done (AddBlockToMap p bn (base_add key db s))
          end
        else
          let! db := new_DataBlock d write_len block_size 0 p bn in
          let s := AddBlockToMap p bn (base_add key db s) in
          put_loop fuel p offset length d (u64 (i + block_size)) (u64 (write_len + block_size)) s
  end.

Definition put (fuel : nat) (p : list ascii) (offset length : Z) (d : list ascii)
    (s : DataCacheShard) : outcome (option DataCacheShard) :=
  let delta_offset := offset mod block_size in
  if length <? block_size then done s
  else if negb (offset mod block_size =? 0) then
    let offset := u64 (offset - delta_offset) in
    let bn := offset / block_size in
    let key := GetBlockKey p bn in
    let '(ptrElem, s) := base_get key s in
    let! s :=
      match ptrElem with
      | Some b =>
          let! mem := memcpy (data b) delta_offset d 0 (block_size - delta_offset) in
          Ok (base_readd key (put_head b mem delta_offset) p bn s)
      | None =>
          let! db := new_DataBlock d 0 (block_size - delta_offset) delta_offset p bn in
          Ok (AddBlockToMap p bn (base_add key db s))
      end in
    put_loop fuel p offset length d block_size (block_size - delta_offset) s
  else put_loop fuel p offset length d 0 0 s.

Definition remove (p : list ascii) (s : DataCacheShard) : DataCacheShard :=
  match cached_blocks s !! p with
  | None => s
  | Some blocks =>
      let s := mk_shard (base s) (delete p (cached_blocks s)) in
      foldl (fun s b => base_remove (GetBlockKey p b) s) s (elements blocks)
  end.

(** The loop of the second [remove] over the set of blocks. Erasing the current block
    invalidates the iterator of the loop, which is then advanced: [Abort]. *)
Fixpoint remove_loop (p : list ascii) (offset length : Z) (blocks : list Z)
    (s : DataCacheShard) : outcome DataCacheShard :=
  match blocks with
  | [] => Ok s
  | b :: blocks =>
      if (b <? offset / block_size) || (u64 (length + offset) / block_size <=? b)
      then remove_loop p offset length blocks s
      else Abort
  end.

Definition remove_range (p : list ascii) (offset length : Z) (s : DataCacheShard)
  : outcome DataCacheShard :=
  match cached_blocks s !! p with
  | None => Ok s
  | Some blocks =>
      let! s := remove_loop p offset length (elements blocks) s in
      if bool_decide (blocks_of (cached_blocks s) p = ∅)
      then Ok (mk_shard (base s) (delete p (cached_blocks s)))
      else Ok s
  end.

(** The loop of [get]: [out] is what was copied to [buf] so far. *)
Fixpoint get_loop (fuel : nat) (p : list ascii) (offset length : Z)
    (i read_len delta_offset : Z) (out : list (option ascii)) (revalidate : bool)
    (s : DataCacheShard)
  : outcome (option (Z * list (option ascii) * bool * DataCacheShard)) :=
  match fuel with
  | O => Ok None
  | S fuel =>
      let offset := if negb (offset mod block_size =? 0) then u64 (offset - delta_offset)
                    else offset in
      let key := GetBlockKey p (u64 (offset + i) / block_size) in
      let '(ptrElem, s) := base_get key s in
      match ptrElem with
      | None => done (s32 read_len, out, revalidate, s)
      | Some b =>
          if negb (start_idx b =? 0) then done (s32 read_len, out, revalidate, s)
          else
            let avail := u64 (len b - delta_offset) in
            let left := u64 (length - read_len) in
            let n := if avail <? left then avail else left in
            assert! (delta_offset + n <=? zlen (data b)) ;;
            let out := out ++ take (Z.to_nat n) (drop (Z.to_nat delta_offset) (data b)) in
            let read_len := if avail <? left then u64 (read_len + avail) else length in
            let revalidate :=
              if DATA_REFRESH_TIME_SECONDS <=? now - timestamp b then true else revalidate in
            if length <=? read_len then done (s32 read_len, out, revalidate, s)
            else get_loop fuel p offset length (u64 (i + block_size)) read_len 0 out revalidate s
      end
  end.

(** Returns the length read, the bytes stored in [buf] and [*revalidate]. *)
Definition get (fuel : nat) (p : list ascii) (offset length : Z) (s : DataCacheShard)
  : outcome (option (Z * list (option ascii) * bool * DataCacheShard)) :=
  if length <? block_size then done (0, [], false, s)
  else get_loop fuel p offset length 0 0 (offset mod block_size) [] false s.

(** ** Shards *)

Definition kNumCacheShards : nat := 16.

Definition TC_DataCache : Type := list DataCacheShard.

Definition shard (p : list ascii) : nat :=
  Z.to_nat (Hash p 8887 mod Z.of_nat kNumCacheShards).

(** An operation on the shard of a path; no shard is out of range. *)
Definition on_shard {A} (p : list ascii) (f : DataCacheShard -> outcome (option (A * DataCacheShard)))
    (dc : TC_DataCache) : outcome (option (A * TC_DataCache)) :=
  match dc !! shard p with
  | None => Abort
  | Some s => let? (a, s) := f s in done (a, <[shard p := s]> dc)
  end.

Definition dc_isCached (p : list ascii) (dc : TC_DataCache) : outcome bool :=
  match dc !! shard p with None => Abort | Some s => Ok (isCached p s) end.

Definition dc_put (fuel : nat) (p : list ascii) (offset length : Z) (d : list ascii)
    (dc : TC_DataCache) : outcome (option (unit * TC_DataCache)) :=
  on_shard p (fun s => let? s := put fuel p offset length d s in done (tt, s)) dc.

Definition dc_remove (p : list ascii) (dc : TC_DataCache)
  : outcome (option (unit * TC_DataCache)) :=
  on_shard p (fun s => done (tt, remove p s)) dc.

Definition dc_remove_range (p : list ascii) (offset length : Z) (dc : TC_DataCache)
  : outcome (option (unit * TC_DataCache)) :=
  on_shard p (fun s => let! s := remove_range p offset length s in done (tt, s)) dc.

Definition dc_AddBlockToMap (p : list ascii) (b : Z) (dc : TC_DataCache)
  : outcome (option (unit * TC_DataCache)) :=
  on_shard p (fun s => done (tt, AddBlockToMap p b s)) dc.

Definition dc_RemoveBlockFromMap (p : list ascii) (b : Z) (dc : TC_DataCache)
  : outcome (option (unit * TC_DataCache)) :=
  on_shard p (fun s => done (tt, RemoveBlockFromMap p b s)) dc.

Definition dc_get (fuel : nat) (p : list ascii) (offset length : Z) (dc : TC_DataCache)
  : outcome (option (Z * list (option ascii) * bool * TC_DataCache)) :=
  on_shard p (get fuel p offset length) dc.

Definition dc_clear (dc : TC_DataCache) : TC_DataCache := map base_clear dc.

(** Sixteen shards over the empty cache [c]. *)
Definition new_TC_DataCache (c : C) : TC_DataCache :=
  replicate kNumCacheShards (mk_shard c ∅).

End Shard.
Arguments DataCacheShard : clear implicits.
Arguments TC_DataCache : clear implicits.

(** ** Keys *)

Lemma digit_is_digit n : 0 <= n < 10 -> is_digit (digit n) = true.
Proof.
  intros Hn. unfold is_digit, digit. rewrite nat_ascii_embedding by lia.
  apply andb_true_iff. split; apply Nat.leb_le; lia.
Qed.

Definition decimal (v : Z) (l : list ascii) : Z :=
  foldl (fun v c => 10 * v + (Z.of_nat (nat_of_ascii c) - 48)) v l.

Lemma decimal_digits fuel : forall n acc,
  0 <= n < 10 ^ (Z.of_nat fuel + 1) -> decimal 0 (digits fuel n acc) = decimal n acc.
Proof.
  assert (Hd : forall x, 0 <= x < 10 -> Z.of_nat (nat_of_ascii (digit x)) - 48 = x).
  { intros x Hx. unfold digit. rewrite nat_ascii_embedding by lia. lia. }
  induction fuel as [|fuel IH]; intros n acc Hn; simpl.
  - change (10 ^ (Z.of_nat 0 + 1)) with 10 in Hn. rewrite Z.mod_small by lia.
    unfold decimal; simpl. by rewrite Hd by lia.
  - pose proof (Z.mod_pos_bound n 10 ltac:(lia)) as Hm.
    destruct (n <? 10) eqn:E; reflect_bools.
    + rewrite Z.mod_small by lia. unfold decimal; simpl. by rewrite Hd by lia.
    + rewrite IH.
      * unfold decimal; simpl. rewrite Hd by lia. f_equal. pose proof (Z.div_mod n 10). lia.
      * split; [apply Z.div_pos; lia|]. apply Z.div_lt_upper_bound; [lia|].
        rewrite <- Z.pow_succ_r by lia.
        replace (Z.succ (Z.of_nat fuel + 1)) with (Z.of_nat (S fuel) + 1) by lia. lia.
Qed.

Lemma to_string_inj n n' :
  0 <= n < 2 ^ 64 -> 0 <= n' < 2 ^ 64 -> to_string n = to_string n' -> n = n'.
Proof.
  intros Hn Hn' E. assert (2 ^ 64 < 10 ^ (Z.of_nat 19 + 1)) as Hb by (vm_compute; done).
  apply (f_equal (decimal 0)) in E. unfold to_string in E.
  rewrite !decimal_digits in E by lia. done.
Qed.

Lemma digits_all fuel : forall n acc, 0 <= n ->
  Forall (fun c => is_digit c = true) acc -> Forall (fun c => is_digit c = true) (digits fuel n acc).
Proof.
  induction fuel as [|fuel IH]; intros n acc Hn Hacc; simpl.
  - constructor; [apply digit_is_digit, Z.mod_pos_bound; lia | done].
  - assert (Forall (fun c => is_digit c = true) (digit (n mod 10) :: acc)).
    { constructor; [apply digit_is_digit, Z.mod_pos_bound; lia | done]. }
    destruct (n <? 10); [done|]. apply IH; [apply Z.div_pos; lia | done].
Qed.

(** A path whose last character is not a decimal digit. *)
Definition no_digit_end (p : list ascii) : Prop :=
  match last p with Some c => is_digit c = false | None => True end.

Lemma no_digit_end_app p x c :
  no_digit_end (p ++ x ++ [c]) -> is_digit c = false.
Proof. unfold no_digit_end. by rewrite app_assoc, last_snoc. Qed.

Lemma digit_suffix p x ds ds' :
  no_digit_end (p ++ x) -> Forall (fun c => is_digit c = true) ds -> ds = x ++ ds' -> x = [].
Proof.
  intros Hp Hds ->. destruct x as [|c x _] using rev_ind; [done|].
  apply no_digit_end_app in Hp. rewrite !Forall_app, Forall_singleton in Hds.
  destruct Hds as [[_ Hc] _]. congruence.
Qed.

(** Keys are unique for paths that do not end in a digit. *)
Lemma GetBlockKey_inj p p' n n' :
  no_digit_end p -> no_digit_end p' -> 0 <= n < 2 ^ 64 -> 0 <= n' < 2 ^ 64 ->
  GetBlockKey p n = GetBlockKey p' n' -> p = p' /\ n = n'.
Proof.
  unfold GetBlockKey. intros Hp Hp' Hn Hn' E.
  assert (forall m, 0 <= m -> Forall (fun c => is_digit c = true) (to_string m)) as Hd.
  { intros m Hm. apply digits_all; [lia | constructor]. }
  apply app_eq_app in E as [x [[-> E]|[-> E]]].
  - assert (x = []) as -> by (eapply (digit_suffix p' x); [done | apply Hd, Hn' | done]).
    rewrite !app_nil_r in *. simpl in E. split; [done|]. symmetry. by apply to_string_inj.
  - assert (x = []) as -> by (eapply (digit_suffix p x); [done | apply Hd, Hn | done]).
    rewrite !app_nil_r in *. simpl in E. split; [done|]. by apply to_string_inj.
Qed.

(** ** What a shard holds *)

Definition key_of (b : DataBlock) : list ascii := GetBlockKey (path b) (block_no b).

Definition tracked (m : gmap (list ascii) (gset Z)) (b : DataBlock) : Prop :=
  block_no b ∈ blocks_of m (path b).

Lemma tracked_erase m b p n :
  tracked m b -> (path b, block_no b) <> (p, n) -> tracked (erase_block p n m) b.
Proof.
  unfold tracked, blocks_of, erase_block. intros Ht Hne.
  destruct (m !! p) as [bs|] eqn:E; [|done].
  destruct (decide (path b = p)) as [<-|Hp].
  - rewrite lookup_insert_eq. rewrite E in Ht. simpl in *. set_solver.
  - by rewrite lookup_insert_ne by done.
Qed.

Lemma tracked_destroy bs m b :
  tracked m b -> (forall g, g ∈ bs -> key_of g <> key_of b) -> tracked (destroy bs m) b.
Proof.
  intros Ht. induction bs as [|g bs IH]; intros Hg; [done|]. simpl. apply tracked_erase.
  - apply IH. intros g' Hin. apply Hg. by right.
  - intros [= Ep En]. apply (Hg g); [by left|]. unfold key_of. congruence.
Qed.

Lemma tracked_add m b p n :
  tracked m b \/ (path b = p /\ block_no b = n) ->
  tracked (<[p := {[ n ]} ∪ blocks_of m p]> m) b.
Proof.
  unfold tracked, blocks_of. intros Hb. destruct (decide (path b = p)) as [<-|Hp].
  - rewrite lookup_insert_eq. simpl. destruct Hb as [Hb|[_ ->]]; set_solver.
  - rewrite lookup_insert_ne by done. destruct Hb as [Hb|[? _]]; done.
Qed.

Section Contents.
Context {C : Type} `{PocoLaws C DataBlock}.
Implicit Types (c : C) (s : DataCacheShard C) (P : DataBlock -> Prop).

(** Every block is under its own key, in the map of its path, and satisfies [P]. *)
Definition holds P s : Prop :=
  forall k b, contents (base s) !! k = Some b ->
    k = key_of b /\ tracked (cached_blocks s) b /\ P b.

Lemma elem_of_gone f c c' g :
  g ∈ gone f c c' <->
  exists k, f k = true /\ contents c !! k = Some g /\ contents c' !! k = None.
Proof.
  unfold gone. rewrite list_elem_of_fmap. split.
  - intros [[k g'] [-> Hin]]. apply elem_of_map_to_list, map_lookup_filter_Some in Hin.
    simpl in *. naive_solver.
  - intros [k [Hf [Hg Hn]]]. exists (k, g). split; [done|].
    apply elem_of_map_to_list, map_lookup_filter_Some. done.
Qed.

Definition keyed s : Prop := forall k b, contents (base s) !! k = Some b -> k = key_of b.

Lemma tracked_drop f s c k b :
  keyed s -> contents c ⊆ contents (base s) -> contents c !! k = Some b ->
  tracked (cached_blocks s) b -> tracked (destroy (gone f (base s) c) (cached_blocks s)) b.
Proof.
  intros Hk Hsub Hb Ht. apply tracked_destroy; [done|].
  intros g [k' [_ [Hg Hn]]]%elem_of_gone E. apply Hk in Hg as ->.
  assert (k = key_of b) as -> by (eapply Hk, lookup_weaken; done). congruence.
Qed.

(** Dropping entries keeps [holds], with the destructors of what is gone. *)
Lemma holds_drop P f s c :
  holds P s -> contents c ⊆ contents (base s) ->
  holds P (mk_shard c (destroy (gone f (base s) c) (cached_blocks s))).
Proof.
  intros Hh Hsub k b Hb. simpl in *.
  destruct (Hh k b) as [-> [Ht Hp]]; [by eapply lookup_weaken|].
  split; [done|]. split; [|done]. eapply tracked_drop; try done. intros k b' Hb'. by apply Hh.
Qed.

Lemma base_get_spec P key s :
  holds P s ->
  holds P (base_get key s).2 /\ (base_get key s).1 = contents (base (base_get key s).2) !! key
  /\ contents (base (base_get key s).2) ⊆ contents (base s).
Proof.
  intros Hh. unfold base_get.
  pose proof (pget_found key (base s)) as Hf. pose proof (pget_sub key (base s)) as Hs.
  destruct (pget key (base s)) as [r c]. simpl in *.
  split; [by apply holds_drop | done].
Qed.

Lemma base_remove_spec P key s :
  holds P s ->
  holds P (base_remove key s) /\ contents (base (base_remove key s)) ⊆ delete key (contents (base s)).
Proof.
  intros Hh. unfold base_remove. simpl. pose proof (premove_sub key (base s)) as Hs.
  split; [|done]. apply holds_drop; [done|]. etrans; [exact Hs | apply delete_subseteq].
Qed.

Lemma base_clear_spec s : contents (base (base_clear s)) = ∅.
Proof. apply pclear_empty. Qed.

(** Adding a block, new or changed, under its key. *)
Lemma add_lookup k key db c b :
  contents (padd key db c) !! k = Some b ->
  (k = key /\ b = db) \/ (k <> key /\ contents c !! k = Some b).
Proof.
  intros Hb. pose proof (lookup_weaken _ _ _ _ Hb (padd_sub key db c)) as Hk.
  destruct (decide (k = key)) as [->|Hne].
  - rewrite lookup_insert_eq in Hk. left. split; congruence.
  - rewrite lookup_insert_ne in Hk by done. by right.
Qed.

Lemma base_add_spec P P' db s :
  holds P s -> P' db ->
  (forall b, key_of b <> key_of db -> P b -> P' b) ->
  holds P' (AddBlockToMap (path db) (block_no db) (base_add (key_of db) db s)).
Proof.
  intros Hh Hdb Hother k b Hb. simpl in *. unfold base_add in Hb. simpl in Hb.
  destruct (add_lookup _ _ _ _ _ Hb) as [[-> ->]|[Hne Hold]].
  - split; [done|]. split; [|done]. apply tracked_add. by right.
  - destruct (Hh k b Hold) as [-> [Ht Hp]]. split; [done|]. split; [|by apply Hother].
    apply tracked_add. left. unfold base_add. simpl. apply tracked_destroy; [done|].
    intros g. rewrite !elem_of_app. intros [Hg|[Hg|Hg]] E.
    + destruct (contents (base s) !! key_of db) as [g'|] eqn:E'; simpl in Hg; [|set_solver].
      apply list_elem_of_singleton in Hg as ->. destruct (Hh _ _ E') as [E'' _]. congruence.
    + destruct (contents (padd (key_of db) db (base s)) !! key_of db); [set_solver|].
      apply list_elem_of_singleton in Hg as ->. congruence.
    + apply elem_of_gone in Hg as [k [_ [Hg Hn]]]. destruct (Hh k g Hg) as [-> _]. congruence.
Qed.

Lemma base_readd_spec P P' db s :
  holds P s -> P' db ->
  (forall b, key_of b <> key_of db -> P b -> P' b) ->
  holds P' (base_readd (key_of db) db (path db) (block_no db) s).
Proof.
  intros Hh Hdb Hother k b Hb. unfold base_readd in *.
  assert (contents (padd (key_of db) db (base s)) !! k = Some b) as Hb'.
  { by destruct (contents (padd (key_of db) db (base s)) !! key_of db). }
  clear Hb. destruct (add_lookup _ _ _ _ _ Hb') as [[-> ->]|[Hne Hold]].
  - rewrite Hb'. simpl. split; [done|]. split; [|done]. apply tracked_add. by right.
  - destruct (Hh k b Hold) as [-> [Ht Hp]]. split; [done|]. split; [|by apply Hother].
    assert (tracked (destroy (gone (fun k => negb (bool_decide (k = key_of db))) (base s)
              (padd (key_of db) db (base s))) (cached_blocks s)) b) as Ht'.
    { apply tracked_destroy; [done|]. intros g Hg E.
      apply elem_of_gone in Hg as [k [_ [Hg Hn]]]. destruct (Hh k g Hg) as [-> _]. congruence. }
    destruct (contents (padd (key_of db) db (base s)) !! key_of db); simpl.
    + apply tracked_add. by left.
    + apply tracked_erase; [apply tracked_add; by left|]. intros [= Ep En].
      apply Hne. unfold key_of. congruence.
Qed.

(** ** Removal *)

Lemma remove_fold p bs : forall s,
  keyed s ->
  (forall k b, contents (base s) !! k = Some b -> path b <> p -> tracked (cached_blocks s) b) ->
  let s' := foldl (fun s b => base_remove (GetBlockKey p b) s) s bs in
  (forall k b, contents (base s') !! k = Some b ->
     contents (base s) !! k = Some b /\ (path b = p -> block_no b ∉ bs)
     /\ (path b <> p -> tracked (cached_blocks s') b)).
Proof.
  induction bs as [|n bs IH]; intros s Hk Ht; simpl.
  { intros k b Hb. split_and!; [done | set_solver | by eapply Ht]. }
  pose proof (premove_sub (GetBlockKey p n) (base s)) as Hsub.
  assert (contents (premove (GetBlockKey p n) (base s)) ⊆ contents (base s)) as Hsub'.
  { etrans; [exact Hsub | apply delete_subseteq]. }
  intros k b Hb. destruct (IH (base_remove (GetBlockKey p n) s)) with (k := k) (b := b)
    as (Hb1 & Hn & Ht'); try done.
  { intros k' b' Hb'. by eapply Hk, lookup_weaken. }
  { intros k' b' Hb' Hp. eapply tracked_drop; try done. by eapply Ht; [eapply lookup_weaken|]. }
  pose proof (lookup_weaken _ _ _ _ Hb1 Hsub) as Hb2. apply lookup_delete_Some in Hb2 as [Hne Hb2].
  split_and!; [done| |done]. intros Ep. specialize (Hn Ep). apply not_elem_of_cons. split; [|done].
  intros En. apply Hne. rewrite (Hk _ _ Hb2). unfold key_of. congruence.
Qed.

Lemma destroy_None bs m p : m !! p = None -> destroy bs m !! p = None.
Proof.
  intros Hm. induction bs as [|b bs IH]; [done|]. simpl. unfold erase_block.
  destruct (destroy bs m !! path b) as [x|] eqn:E; [|done].
  rewrite lookup_insert_ne; [done | congruence].
Qed.

Lemma remove_fold_None p bs : forall s,
  cached_blocks s !! p = None ->
  cached_blocks (foldl (fun s b => base_remove (GetBlockKey p b) s) s bs) !! p = None.
Proof.
  induction bs as [|n bs IH]; intros s Hs; [done|]. simpl. apply IH. simpl. by apply destroy_None.
Qed.

(** Removing a path drops its blocks, and only drops blocks. *)
Lemma remove_spec P p s :
  holds P s ->
  holds P (remove p s) /\ cached_blocks (remove p s) !! p = None
  /\ (forall k b, contents (base (remove p s)) !! k = Some b ->
        path b <> p /\ contents (base s) !! k = Some b).
Proof.
  intros Hh. unfold remove. destruct (cached_blocks s !! p) as [bs|] eqn:E.
  - assert (forall k b, contents (base s) !! k = Some b -> path b = p -> block_no b ∈ elements bs) as Hin.
    { intros k b Hb Ep. destruct (Hh k b Hb) as (_ & Ht & _). unfold tracked, blocks_of in Ht.
      rewrite Ep, E in Ht. by apply elem_of_elements. }
    set (s0 := mk_shard (base s) (delete p (cached_blocks s))).
    assert (keyed s0) as Hk by (intros k b Hb; by apply Hh).
    assert (forall k b, contents (base s0) !! k = Some b -> path b <> p -> tracked (cached_blocks s0) b)
      as Ht.
    { intros k b Hb Hp. destruct (Hh k b Hb) as (_ & Ht & _). unfold tracked, blocks_of in *. simpl.
      by rewrite lookup_delete_ne by done. }
    pose proof (remove_fold p (elements bs) s0 Hk Ht) as Hr. cbv zeta in Hr.
    pose proof (remove_fold_None p (elements bs) s0 (lookup_delete_eq _ _)) as Hnone.
    set (s1 := foldl _ s0 _) in *.
    assert (forall k b, contents (base s1) !! k = Some b -> path b <> p) as Hp.
    { intros k b Hb Ep. destruct (Hr k b Hb) as (Hb' & Hn & _). by apply (Hn Ep), (Hin k b). }
    split_and!.
    + intros k b Hb. destruct (Hr k b Hb) as (Hb' & _ & Ht'). destruct (Hh k b Hb') as (-> & _ & HP).
      split_and!; [done | by eapply Ht', Hp | done].
    + done.
    + intros k b Hb. split; [by eapply Hp | by apply Hr].
  - split_and!; [done..|]. intros k b Hb. split; [|done]. intros Ep.
    destruct (Hh k b Hb) as (_ & Ht & _). unfold tracked, blocks_of in Ht. rewrite Ep, E in Ht. set_solver.
Qed.

End Contents.

(** ** Bytes *)

Lemma memcpy_spec dst at_ src from n :
  0 <= at_ -> 0 <= n -> 0 <= from -> at_ + n <= zlen dst -> from + n <= zlen src ->
  exists mem, memcpy dst at_ src from n = Ok mem /\ zlen mem = zlen dst
  /\ (forall j, at_ <= j < at_ + n ->
        exists c, mem !! Z.to_nat j = Some (Some c) /\ src !! Z.to_nat (from + (j - at_)) = Some c)
  /\ (forall j, 0 <= j -> ~ (at_ <= j < at_ + n) -> mem !! Z.to_nat j = dst !! Z.to_nat j).
Proof.
  unfold zlen. intros Ha Hn Hf Hd Hs. unfold memcpy, zlen.
  rewrite (proj2 (Z.leb_le _ _) Hd), (proj2 (Z.leb_le _ _) Hs). simpl.
  set (piece := take (Z.to_nat n) (drop (Z.to_nat from) src)).
  assert (length piece = Z.to_nat n) as Hp.
  { unfold piece. rewrite length_take, length_drop. lia. }
  assert (length (take (Z.to_nat at_) dst) = Z.to_nat at_) as Ht by (rewrite length_take; lia).
  eexists. split; [reflexivity|]. split; [|split].
  - rewrite !length_app, length_map, Hp, Ht, length_drop. lia.
  - intros j Hj.
    destruct (lookup_lt_is_Some_2 src (Z.to_nat (from + (j - at_)))) as [c Hc]; [lia|].
    exists c. split; [|done].
    rewrite lookup_app_r by lia. rewrite lookup_app_l by (rewrite length_map; lia).
    rewrite Ht, list_lookup_fmap. unfold piece.
    rewrite lookup_take_lt by lia. rewrite lookup_drop.
    replace (Z.to_nat from + (Z.to_nat j - Z.to_nat at_))%nat with (Z.to_nat (from + (j - at_))) by lia.
    by rewrite Hc.
  - intros j Hj Hout. destruct (decide (j < at_)).
    + rewrite lookup_app_l by lia. by rewrite lookup_take_lt by lia.
    + rewrite lookup_app_r by lia. rewrite lookup_app_r by (rewrite length_map; lia).
      rewrite lookup_drop, length_map. f_equal. lia.
Qed.

(** The byte last put at each offset of each path. *)
Definition content : Type := list ascii -> Z -> option ascii.

Definition overwrite (ct : content) (p : list ascii) (o : Z) (d : list ascii) : content :=
  fun p' o' => if bool_decide (p' = p) && (o <=? o') && (o' <? o + zlen d)
               then d !! Z.to_nat (o' - o) else ct p' o'.

Lemma overwrite_in ct p o d o' :
  o <= o' < o + zlen d -> overwrite ct p o d p o' = d !! Z.to_nat (o' - o).
Proof.
  intros Ho. unfold overwrite. rewrite bool_decide_eq_true_2 by done.
  rewrite (proj2 (Z.leb_le _ _)), (proj2 (Z.ltb_lt _ _)) by lia. done.
Qed.

Lemma overwrite_out ct p o d p' o' :
  p' <> p \/ ~ (o <= o' < o + zlen d) -> overwrite ct p o d p' o' = ct p' o'.
Proof.
  intros Ho. unfold overwrite. destruct (bool_decide (p' = p) && (o <=? o') && (o' <? o + zlen d)) eqn:E;
    [|done].
  reflect_bools. apply bool_decide_eq_true in H. destruct Ho; [done | lia].
Qed.

(** Contents that agree everywhere. *)
#[export] Instance content_equiv : Equiv content :=
  pointwise_relation _ (pointwise_relation _ eq).

#[export] Instance content_equivalence : Equivalence (≡@{content}).
Proof. unfold equiv, content_equiv. apply _. Qed.

Lemma overwrite_app ct p o d1 d2 :
  overwrite (overwrite ct p o d1) p (o + zlen d1) d2 ≡ overwrite ct p o (d1 ++ d2).
Proof.
  intros p' o'. unfold overwrite, zlen. rewrite length_app.
  destruct (bool_decide (p' = p)); simpl; [|done].
  destruct (o <=? o') eqn:E1, (o' <? o + Z.of_nat (length d1)) eqn:E2,
    (o + Z.of_nat (length d1) <=? o') eqn:E3,
    (o' <? o + Z.of_nat (length d1) + Z.of_nat (length d2)) eqn:E4,
    (o' <? o + Z.of_nat (length d1 + length d2)) eqn:E5; simpl; reflect_bools; try lia; try done.
  - rewrite lookup_app_l by lia. done.
  - rewrite lookup_app_r by lia. f_equal. lia.
Qed.

Lemma overwrite_nil ct p o : overwrite ct p o [] ≡ ct.
Proof. intros p' o'. apply overwrite_out. right. unfold zlen. simpl. lia. Qed.

Section Coherence.
Context {C : Type} `{PocoLaws C DataBlock}.
Context (block_size : Z) (Hbs : 0 < block_size < 2 ^ 31).
Implicit Types (ct : content) (s : DataCacheShard C).

(** The bytes a block offers are the last ones put. *)
Record block_ok ct (b : DataBlock) : Prop := {
  bo_mem : zlen (data b) = block_size;
  bo_start : 0 <= start_idx b;
  bo_len : 0 < len b;
  bo_end : start_idx b + len b <= block_size;
  bo_shape : start_idx b = 0 \/ start_idx b + len b = block_size;
  bo_no : 0 <= block_no b < 2 ^ 64;
  bo_path : no_digit_end (path b);
  bo_bytes : forall j, start_idx b <= j < start_idx b + len b ->
    exists c, data b !! Z.to_nat j = Some (Some c)
              /\ ct (path b) (block_no b * block_size + j) = Some c
}.

Definition coherent ct s : Prop := holds (block_ok ct) s.

#[export] Instance block_ok_proper : Proper ((≡) ==> eq ==> iff) block_ok.
Proof.
  assert (forall ct ct' b, ct ≡ ct' -> block_ok ct b -> block_ok ct' b) as Hi.
  { intros ct ct' b E []. assert (forall p o, ct p o = ct' p o) as E' by exact E.
    split; try done. intros j Hj.
    destruct (bo_bytes0 j Hj) as [c [Hd Hc]]. exists c. split; [done|]. by rewrite <- E'. }
  intros ct ct' E b ? <-. split; apply Hi; [done | by symmetry].
Qed.

#[export] Instance coherent_proper : Proper ((≡) ==> eq ==> iff) coherent.
Proof.
  intros ct ct' E s ? <-. unfold coherent, holds.
  split; intros Hh k b Hb; destruct (Hh k b Hb) as [? [? Hok]];
    (split; [done|]; split; [done|]); [by rewrite <- E | by rewrite E].
Qed.

(** A block keeps its bytes when bytes of another block are put. *)
Lemma block_ok_other ct b p bn o d :
  block_ok ct b -> key_of b <> GetBlockKey p bn ->
  bn * block_size <= o -> o + zlen d <= (bn + 1) * block_size ->
  block_ok (overwrite ct p o d) b.
Proof.
  intros [] Hk Ho1 Ho2. split; try done. intros j Hj.
  destruct (bo_bytes0 j Hj) as [c [Hd Hc]]. exists c. split; [done|]. rewrite overwrite_out; [done|].
  destruct (decide (path b = p)) as [Ep|]; [right | by left].
  assert (block_no b <> bn) by (intros En; apply Hk; unfold key_of; congruence). nia.
Qed.

Lemma new_block_ok ct now d from size start p bn :
  0 <= from -> 0 < size -> 0 <= start -> start + size <= block_size ->
  start = 0 \/ start + size = block_size ->
  from + size <= zlen d -> 0 <= bn < 2 ^ 64 -> no_digit_end p ->
  exists db, new_DataBlock block_size now d from size start p bn = Ok db
  /\ path db = p /\ block_no db = bn
  /\ block_ok (overwrite ct p (bn * block_size + start)
                 (take (Z.to_nat size) (drop (Z.to_nat from) d))) db.
Proof.
  intros Hf Hs Hst Hend Hshape Hd Hbn Hp. unfold new_DataBlock.
  destruct (memcpy_spec (replicate (Z.to_nat block_size) None) start d from size)
    as [mem [-> [Hl [Hin _]]]]; try lia.
  { unfold zlen. rewrite length_replicate. lia. }
  simpl. eexists. split; [reflexivity|]. split; [done|]. split; [done|].
  unfold zlen in *. rewrite length_replicate in Hl.
  split; simpl; unfold zlen; try done; try lia. intros j Hj. destruct (Hin j) as [c [Hc Hs']]; [lia|].
  exists c. split; [done|].
  rewrite overwrite_in by (unfold zlen; rewrite length_take, length_drop; lia).
  rewrite lookup_take_lt by lia. rewrite lookup_drop, <- Hs'. f_equal. lia.
Qed.

(** A block into which bytes are copied, with a range it covers. *)
Lemma copy_ok ct now b at_ d from n :
  block_ok ct b -> 0 <= at_ -> 0 <= n -> 0 <= from ->
  at_ + n <= block_size -> from + n <= zlen d ->
  exists mem, memcpy (data b) at_ d from n = Ok mem
  /\ forall start' len', 0 <= start' -> 0 < len' -> start' + len' <= block_size ->
       start' = 0 \/ start' + len' = block_size ->
       (forall j, start' <= j < start' + len' ->
          at_ <= j < at_ + n \/ start_idx b <= j < start_idx b + len b) ->
       block_ok (overwrite ct (path b) (block_no b * block_size + at_)
                  (take (Z.to_nat n) (drop (Z.to_nat from) d)))
         (mk_block mem len' start' (path b) (block_no b) now).
Proof.
  intros [] Ha Hn Hf Hend Hd.
  destruct (memcpy_spec (data b) at_ d from n) as [mem [-> [Hl [Hin Hout]]]]; try lia.
  exists mem. split; [done|]. intros start' len' Hs Hlen He Hsh Hcov.
  assert (zlen (take (Z.to_nat n) (drop (Z.to_nat from) d)) = n) as Hz.
  { unfold zlen in *. rewrite length_take, length_drop. lia. }
  split; simpl; try done; try lia.
  intros j Hj. destruct (decide (at_ <= j < at_ + n)) as [Hjn|Hjn].
  - destruct (Hin j Hjn) as [c [Hc Hs']]. exists c. split; [done|].
    rewrite overwrite_in by lia. rewrite lookup_take_lt by lia.
    rewrite lookup_drop, <- Hs'. f_equal. lia.
  - destruct (Hcov j Hj) as [?|Hold]; [done|].
    destruct (bo_bytes0 j Hold) as [c [Hc Hs']]. exists c. split.
    + rewrite Hout by lia. done.
    + rewrite overwrite_out by lia. done.
Qed.

Lemma put_tail_ok ct now b d from n :
  block_ok ct b -> 0 < n < block_size -> 0 <= from -> from + n <= zlen d ->
  exists mem, memcpy (data b) 0 d from n = Ok mem
  /\ block_ok (overwrite ct (path b) (block_no b * block_size + 0)
                 (take (Z.to_nat n) (drop (Z.to_nat from) d))) (put_tail now b mem n).
Proof.
  intros Hb Hn Hf Hd. destruct (copy_ok ct now b 0 d from n) as [mem [-> Hok]]; try lia; try done.
  exists mem. split; [done|]. destruct Hb. unfold put_tail.
  apply Hok; destruct (start_idx b =? 0) eqn:E1, (len b <? n) eqn:E2; simpl; reflect_bools; lia.
Qed.

Lemma put_head_ok ct now b d delta :
  block_ok ct b -> 0 < delta < block_size -> block_size - delta <= zlen d ->
  exists mem, memcpy (data b) delta d 0 (block_size - delta) = Ok mem
  /\ block_ok (overwrite ct (path b) (block_no b * block_size + delta)
                 (take (Z.to_nat (block_size - delta)) (drop (Z.to_nat 0) d)))
       (put_head block_size now b mem delta).
Proof.
  intros Hb Hn Hd. destruct (copy_ok ct now b delta d 0 (block_size - delta)) as [mem [-> Hok]];
    try lia; try done.
  exists mem. split; [done|]. destruct Hb. unfold put_head.
  destruct (delta <? start_idx b) eqn:E; reflect_bools; apply Hok; lia.
Qed.

(** The block found under the key of [p] is a block of [p]. *)
Lemma found_block ct p bn b s :
  coherent ct s -> no_digit_end p -> 0 <= bn < 2 ^ 64 ->
  contents (base s) !! GetBlockKey p bn = Some b ->
  path b = p /\ block_no b = bn /\ block_ok ct b.
Proof.
  intros Hh Hp Hbn Hb. destruct (Hh _ _ Hb) as [E [_ Hok]]. destruct Hok as [] eqn:Eok.
  apply GetBlockKey_inj in E as [-> ->]; try done.
Qed.

Lemma store_new ct now s d from size start p bn :
  coherent ct s ->
  0 <= from -> 0 < size -> 0 <= start -> start + size <= block_size ->
  start = 0 \/ start + size = block_size ->
  from + size <= zlen d -> 0 <= bn < 2 ^ 64 -> no_digit_end p ->
  exists db, new_DataBlock block_size now d from size start p bn = Ok db
  /\ coherent (overwrite ct p (bn * block_size + start)
                 (take (Z.to_nat size) (drop (Z.to_nat from) d)))
       (AddBlockToMap p bn (base_add (GetBlockKey p bn) db s)).
Proof.
  intros Hco Hf Hs Hst He Hsh Hd Hbn Hp.
  destruct (new_block_ok ct now d from size start p bn) as [db [E [Ep [En Hok]]]]; try done.
  exists db. split; [done|]. subst p bn. eapply base_add_spec; [exact Hco | exact Hok |].
  intros b Hk Hb. eapply block_ok_other; [done | exact Hk | lia |].
  unfold zlen in *. rewrite length_take, length_drop. lia.
Qed.

(** A block found and changed is stored again. *)
Lemma store_changed ct s b b' o d :
  coherent ct s -> path b' = path b -> block_no b' = block_no b ->
  block_ok (overwrite ct (path b) o d) b' ->
  block_no b * block_size <= o -> o + zlen d <= (block_no b + 1) * block_size ->
  coherent (overwrite ct (path b) o d)
    (base_readd (GetBlockKey (path b) (block_no b)) b' (path b) (block_no b) s).
Proof.
  intros Hco Ep En Hok Ho1 Ho2. rewrite <- Ep, <- En in *.
  eapply base_readd_spec; [exact Hco | exact Hok |].
  intros b0 Hk Hb. eapply block_ok_other; [done | exact Hk | lia | lia].
Qed.

(** The call of [base_get] for a block of [p]. *)
Lemma get_block ct p bn s :
  coherent ct s -> no_digit_end p -> 0 <= bn < 2 ^ 64 ->
  exists r s', base_get (GetBlockKey p bn) s = (r, s') /\ coherent ct s'
  /\ contents (base s') ⊆ contents (base s)
  /\ contents (base s') !! GetBlockKey p bn = r
  /\ match r with Some b => path b = p /\ block_no b = bn /\ block_ok ct b | None => True end.
Proof.
  intros Hco Hp Hbn. destruct (base_get_spec _ (GetBlockKey p bn) _ Hco) as [Hco' [Hr Hsub]].
  destruct (base_get (GetBlockKey p bn) s) as [r s']. simpl in *.
  exists r, s'. split_and!; try done. destruct r as [b|]; [|done].
  by eapply found_block.
Qed.

Lemma put_loop_ok now p offset d : forall fuel i write_len ct s,
  coherent ct s -> no_digit_end p ->
  0 <= offset -> 0 <= i -> (offset + i) mod block_size = 0 ->
  0 <= write_len <= zlen d -> zlen d < 2 ^ 64 -> offset + i + (zlen d - write_len) + block_size <= 2 ^ 64 ->
  zlen d - write_len < Z.of_nat fuel * block_size ->
  exists s', put_loop block_size now fuel p offset (zlen d) d i write_len s = done s'
  /\ coherent (overwrite ct p (offset + i) (drop (Z.to_nat write_len) d)) s'.
Proof.
  induction fuel as [|fuel IH]; intros i w ct s Hco Hp Ho Hi Hal Hw Hd Hb Hfuel; [lia|]. simpl.
  destruct (w <? zlen d) eqn:E1; reflect_bools; simpl.
  2: { exists s. split; [done|]. rewrite drop_ge by (unfold zlen in *; lia). by rewrite overwrite_nil. }
  rewrite (u64_small (offset + i)), (u64_small (zlen d - w)) by lia.
  set (bn := (offset + i) / block_size).
  assert (offset + i = bn * block_size) as Hbn.
  { unfold bn. pose proof (Z.div_mod (offset + i) block_size). lia. }
  assert (0 <= bn < 2 ^ 64) as Hbn' by nia.
  assert (forall k, take (Z.to_nat k) (drop (Z.to_nat w) d) ++ drop (Z.to_nat (w + k)) d
                    = drop (Z.to_nat w) d \/ ~ (0 <= k)) as Hsplit.
  { intros k. destruct (decide (0 <= k)); [left|by right].
    replace (Z.to_nat (w + k)) with (Z.to_nat w + Z.to_nat k)%nat by lia.
    by rewrite <- drop_drop, take_drop. }
  destruct (zlen d - w <? block_size) eqn:E2; reflect_bools.
  - assert (take (Z.to_nat (zlen d - w)) (drop (Z.to_nat w) d) = drop (Z.to_nat w) d) as Hall.
    { apply take_ge. rewrite length_drop. unfold zlen. lia. }
    destruct (get_block ct p bn s) as (r & s1 & -> & Hco1 & _ & _ & Hr); [done..|].
    destruct r as [b|].
    + destruct Hr as (Ep & En & Hok).
      destruct (put_tail_ok ct now b d w (zlen d - w)) as [mem [-> Hok']]; try lia; try done.
      simpl. eexists. split; [reflexivity|]. rewrite Hall, Z.add_0_r, Ep, En, <- Hbn in Hok'.
      rewrite <- Ep in *. rewrite <- En in Hbn |- *. eapply store_changed; try done; [lia|].
      unfold zlen in *. rewrite length_drop. lia.
    + destruct (store_new ct now s1 d w (zlen d - w) 0 p bn) as [db [-> Hok]]; try lia; try done.
      simpl. eexists. split; [reflexivity|]. by rewrite Hall, Z.add_0_r, <- Hbn in Hok.
  - destruct (store_new ct now s d w block_size 0 p bn) as [db [-> Hok]]; try lia; try done.
    simpl. rewrite (u64_small (i + block_size)), (u64_small (w + block_size)) by lia.
    rewrite Z.add_0_r, <- Hbn in Hok.
    destruct (IH (i + block_size) (w + block_size) _ _ Hok) as [s' [-> Hco']]; try lia; try done.
    { by rewrite Z.add_assoc, <- Z.add_mod_idemp_r, Z.mod_same, Z.add_0_r by lia. }
    exists s'. split; [done|].
    destruct (Hsplit block_size) as [<-|]; [|lia]. rewrite <- overwrite_app.
    replace (zlen (take (Z.to_nat block_size) (drop (Z.to_nat w) d))) with block_size; [|].
    + by rewrite Z.add_assoc in Hco'.
    + unfold zlen in *. rewrite length_take, length_drop. lia.
Qed.

Lemma put_ok now p offset d fuel ct s :
  coherent ct s -> no_digit_end p -> 0 <= offset -> block_size <= zlen d ->
  offset + zlen d + block_size <= 2 ^ 64 -> zlen d < Z.of_nat fuel * block_size ->
  exists s', put block_size now fuel p offset (zlen d) d s = done s'
  /\ coherent (overwrite ct p offset d) s'.
Proof.
  intros Hco Hp Ho Hd Hb Hfuel. unfold put.
  rewrite (proj2 (Z.ltb_ge _ _) Hd). set (delta := offset mod block_size).
  pose proof (Z.mod_pos_bound offset block_size ltac:(lia)) as Hdelta. fold delta in Hdelta.
  destruct (delta =? 0) eqn:E; reflect_bools; simpl.
  { destruct (put_loop_ok now p offset d fuel 0 0 ct s) as [s' [-> Hco']]; try lia; try done.
    { by rewrite Z.add_0_r. }
    exists s'. by rewrite Z.add_0_r in Hco'. }
  assert (offset = offset / block_size * block_size + delta) as Hdm.
  { unfold delta. pose proof (Z.div_mod offset block_size). lia. }
  pose proof (Z.div_pos offset block_size Ho ltac:(lia)) as Hdiv.
  assert (u64 (offset - delta) = offset / block_size * block_size) as -> by (rewrite u64_small; nia).
  rewrite Z.div_mul by lia. set (bn := offset / block_size) in *.
  assert (0 <= bn < 2 ^ 64) as Hbn by nia.
  set (h := take (Z.to_nat (block_size - delta)) d).
  assert (zlen h = block_size - delta) as Hh by (unfold h, zlen in *; rewrite length_take; lia).
  assert (forall s1, coherent (overwrite ct p offset h) s1 ->
    exists s', put_loop block_size now fuel p (bn * block_size) (zlen d) d block_size
                 (block_size - delta) s1 = done s' /\ coherent (overwrite ct p offset d) s') as Hrest.
  { intros s1 Hco1.
    destruct (put_loop_ok now p (bn * block_size) d fuel block_size (block_size - delta) _ s1 Hco1)
      as [s' [-> Hco']]; try lia; try done.
    { by rewrite <- Z.mul_succ_l, Z.mod_mul by lia. }
    exists s'. split; [done|]. rewrite <- (take_drop (Z.to_nat (block_size - delta)) d).
    rewrite <- overwrite_app. fold h. rewrite Hh.
    by replace (offset + (block_size - delta)) with (bn * block_size + block_size) by lia. }
  destruct (get_block ct p bn s) as (r & s1 & -> & Hco1 & _ & _ & Hr); [done..|].
  destruct r as [b|].
  - destruct Hr as (Ep & En & Hok).
    destruct (put_head_ok ct now b d delta) as [mem [-> Hok']]; try lia; try done.
    simpl. apply Hrest. change (drop (Z.to_nat 0) d) with d in Hok'. fold h in Hok'.
    rewrite Ep, En, <- Hdm in Hok'. rewrite <- Ep in *. rewrite <- En in Hdm |- *.
    eapply store_changed; try done; try lia; unfold put_head; by destruct (delta <? start_idx b).
  - destruct (store_new ct now s1 d 0 (block_size - delta) delta p bn) as [db [-> Hok]]; try lia; try done.
    simpl. apply Hrest. by rewrite <- Hdm in Hok.
Qed.

(** ** Reading *)

(** A block that holds less than it could is the last one of its file in the cache. *)
Definition gapless s p : Prop :=
  forall k b, contents (base s) !! k = Some b -> path b = p ->
    start_idx b = 0 -> len b < block_size ->
    contents (base s) !! GetBlockKey p (block_no b + 1) = None.

Definition gapless_b s p : bool :=
  forallb (fun kb =>
    implb (bool_decide (path kb.2 = p) && (start_idx kb.2 =? 0) && (len kb.2 <? block_size))
      (match contents (base s) !! GetBlockKey p (block_no kb.2 + 1) with
       | None => true | Some _ => false end)) (map_to_list (contents (base s))).

Lemma gapless_b_sound s p : gapless_b s p = true -> gapless s p.
Proof.
  unfold gapless_b. rewrite forallb_forall. intros Hall k b Hb Hp Hs Hl.
  specialize (Hall (k, b)). simpl in Hall.
  rewrite bool_decide_eq_true_2, (proj2 (Z.eqb_eq _ _)), (proj2 (Z.ltb_lt _ _)) in Hall by done.
  destruct (contents (base s) !! GetBlockKey p (block_no b + 1)); [|done].
  exfalso. apply diff_false_true, Hall, list_elem_of_In. by apply elem_of_map_to_list.
Qed.

(** The first block read holds data up to the offset. *)
Definition reaches s p offset : Prop :=
  forall b, contents (base s) !! GetBlockKey p (offset / block_size) = Some b ->
    start_idx b = 0 -> offset mod block_size <= len b.

(** The byte at offset [o] is not among those the cache offers. *)
Definition uncached s p o : Prop :=
  forall b, contents (base s) !! GetBlockKey p (o / block_size) = Some b ->
    start_idx b <> 0 \/ len b <= o mod block_size.

(** No block with a byte from [o0] up to [o] is old. *)
Definition fresh now s p o0 o : Prop :=
  forall x b, o0 <= x < o -> contents (base s) !! GetBlockKey p (x / block_size) = Some b ->
    now - timestamp b < DATA_REFRESH_TIME_SECONDS.

Definition file_bytes ct p (o n : Z) : list (option ascii) :=
  map (fun j => ct p (o + Z.of_nat j)) (seq 0 (Z.to_nat n)).

Lemma file_bytes_app ct p o n m :
  0 <= n -> 0 <= m -> file_bytes ct p o (n + m) = file_bytes ct p o n ++ file_bytes ct p (o + n) m.
Proof.
  intros Hn Hm. unfold file_bytes. rewrite Z2Nat.inj_add, seq_app, map_app by lia. f_equal.
  replace (0 + Z.to_nat n)%nat with (Z.to_nat n + 0)%nat by lia.
  rewrite <- fmap_add_seq. etrans; [symmetry; apply list_fmap_compose|]. apply list_fmap_ext. intros k j _.
  unfold compose. f_equal. lia.
Qed.

(** What is copied from a block is what the file holds there. *)
Lemma block_bytes ct b delta n :
  block_ok ct b -> start_idx b = 0 -> 0 <= delta -> 0 <= n -> delta + n <= len b ->
  take (Z.to_nat n) (drop (Z.to_nat delta) (data b))
  = file_bytes ct (path b) (block_no b * block_size + delta) n
  /\ Forall is_Some (file_bytes ct (path b) (block_no b * block_size + delta) n).
Proof.
  intros [] Hs Hd Hn Hl. unfold zlen in *.
  assert (forall j, (j < Z.to_nat n)%nat -> exists c,
    data b !! (Z.to_nat delta + j)%nat = Some (Some c)
    /\ ct (path b) (block_no b * block_size + delta + Z.of_nat j) = Some c) as Hj.
  { intros j Hj. destruct (bo_bytes0 (delta + Z.of_nat j)) as [c [Hc Hct]]; [lia|].
    exists c. rewrite Z.add_assoc in Hct. split; [|done]. rewrite <- Hc. f_equal. lia. }
  split.
  - apply list_eq. intros j. unfold file_bytes. rewrite list_lookup_fmap.
    destruct (decide (j < Z.to_nat n)%nat) as [Hlt|Hge].
    + rewrite lookup_take_lt, lookup_drop, lookup_seq_lt by lia. simpl.
      destruct (Hj j Hlt) as [c [-> ->]]. done.
    + rewrite lookup_take_ge, lookup_seq_ge by lia. done.
  - apply Forall_forall. intros x Hx. apply list_elem_of_fmap in Hx as [j [-> Hin]].
    apply elem_of_seq in Hin. destruct (Hj j) as [c [_ ->]]; [lia|]. done.
Qed.

Lemma gapless_sub s s' p :
  contents (base s') ⊆ contents (base s) -> gapless s p -> gapless s' p.
Proof.
  intros Hsub Hg k b Hb Hp Hs Hl. specialize (Hg k b (lookup_weaken _ _ _ _ Hb Hsub) Hp Hs Hl).
  destruct (contents (base s') !! GetBlockKey p (block_no b + 1)) eqn:E; [|done].
  apply (lookup_weaken _ _ _ _ E) in Hsub. congruence.
Qed.

Lemma uncached_sub s s' p o :
  contents (base s') ⊆ contents (base s) -> uncached s p o -> uncached s' p o.
Proof. intros Hsub Hu b Hb. apply Hu. by eapply lookup_weaken. Qed.

(** What [get] returns, for a read of [length] bytes at [o0]. *)
Definition get_result ct now s0 p o0 length (r : Z * list (option ascii) * bool * DataCacheShard C)
  : Prop :=
  let '(n, out, rv, s') := r in
  coherent ct s' /\ contents (base s') ⊆ contents (base s0)
  /\ 0 <= n <= length /\ out = file_bytes ct p o0 n /\ Forall is_Some out
  /\ (n < length -> uncached s' p (o0 + n))
  /\ (rv = false -> fresh now s0 p o0 (o0 + n)).

(** The state of the loop of [get] before the block at [a + i]: [r] bytes are read, and
    either the next byte is at [delta] in this block, or the last block was short. *)
Record get_inv ct now s0 p o0 length a i r delta (out : list (option ascii)) (rv : bool) s : Prop := {
  gi_co : coherent ct s;
  gi_sub : contents (base s) ⊆ contents (base s0);
  gi_read : 0 <= r < length;
  gi_out : out = file_bytes ct p o0 r /\ Forall is_Some out;
  gi_fresh : rv = false -> fresh now s0 p o0 (o0 + r);
  gi_pos : (a + i + delta = o0 + r
            /\ forall b, contents (base s) !! GetBlockKey p ((a + i) / block_size) = Some b ->
                 start_idx b = 0 -> delta <= len b)
           \/ (contents (base s) !! GetBlockKey p ((a + i) / block_size) = None
               /\ uncached s p (o0 + r))
}.

(** The loop stops at a block that is missing or starts late. *)
Lemma get_stop ct now s0 p o0 length a i r delta out rv s s1 :
  length < 2 ^ 31 -> 0 <= delta < block_size -> (a + i) mod block_size = 0 ->
  get_inv ct now s0 p o0 length a i r delta out rv s ->
  coherent ct s1 -> contents (base s1) ⊆ contents (base s) ->
  (forall b, contents (base s1) !! GetBlockKey p ((a + i) / block_size) = Some b ->
     start_idx b <> 0) ->
  get_result ct now s0 p o0 length (s32 r, out, rv, s1).
Proof.
  intros Hl Hd Hal [] Hco Hsub Hstop. destruct gi_out0 as [Ho Hs].
  rewrite s32_small by lia. split_and!; try done; try lia.
  - by etrans.
  - intros _. destruct gi_pos0 as [[Hpos _]|[_ Hu]]; [|by eapply uncached_sub].
    intros b Hb. left. apply (Hstop b). rewrite <- Hb. do 2 f_equal.
    rewrite <- Hpos. pose proof (Z.div_mod (a + i) block_size ltac:(lia)) as Hq.
    apply Z.div_unique with delta; lia.
Qed.

(** One block: the bytes copied are those of the file, and the loop ends or goes on. *)
Lemma get_step ct now s0 p o0 length a i r delta out rv s s1 b :
  length < 2 ^ 31 -> 0 <= o0 -> 0 <= a -> 0 <= i -> 0 <= delta < block_size ->
  o0 + length + block_size <= 2 ^ 64 ->
  (a + i) mod block_size = 0 -> no_digit_end p -> gapless s p ->
  get_inv ct now s0 p o0 length a i r delta out rv s ->
  coherent ct s1 -> contents (base s1) ⊆ contents (base s) ->
  contents (base s1) !! GetBlockKey p ((a + i) / block_size) = Some b ->
  path b = p -> block_no b = (a + i) / block_size -> block_ok ct b -> start_idx b = 0 ->
  a + i + delta = o0 + r /\ delta <= len b
  /\ let n := Z.min (len b - delta) (length - r) in
     let out' := out ++ take (Z.to_nat n) (drop (Z.to_nat delta) (data b)) in
     let rv' := if DATA_REFRESH_TIME_SECONDS <=? now - timestamp b then true else rv in
     if length <=? r + n then get_result ct now s0 p o0 length (length, out', rv', s1)
     else get_inv ct now s0 p o0 length a (i + block_size) (r + n) 0 out' rv' s1
          /\ (len b < block_size \/ n = block_size - delta).
Proof.
  intros Hl Ho Ha Hi Hd Hbound Hal Hp Hgap [] Hco Hsub Hb Epath Eno Hok Hstart.
  destruct gi_out0 as [Hout Hsome].
  destruct gi_pos0 as [[Hpos Hreach]|[Hnone _]];
    [|apply (lookup_weaken _ _ _ _ Hb) in Hsub; congruence].
  pose proof (lookup_weaken _ _ _ _ Hb Hsub) as Hbs'.
  pose proof (Hreach b Hbs' Hstart) as Hdl. split; [done|]. split; [done|].
  pose proof (bo_end _ _ Hok) as Hbe. pose proof (bo_mem _ _ Hok) as Hbm.
  set (n := Z.min (len b - delta) (length - r)). cbv zeta.
  pose proof (Z.div_mod (a + i) block_size ltac:(lia)) as Hq. rewrite Hal in Hq.
  set (bn := (a + i) / block_size) in *.
  destruct (block_bytes ct b delta n) as [Hcopy Hcsome]; try done; try lia.
  assert (Hat : block_no b * block_size + delta = o0 + r) by lia.
  rewrite Hat, Epath in Hcopy, Hcsome. rewrite Hcopy, Hout.
  rewrite <- file_bytes_app by lia.
  assert (Hall : Forall is_Some (file_bytes ct p o0 (r + n))).
  { rewrite file_bytes_app by lia. apply Forall_app. split; [by rewrite <- Hout | done]. }
  assert (Hfresh : (if DATA_REFRESH_TIME_SECONDS <=? now - timestamp b then true else rv) = false ->
                   fresh now s0 p o0 (o0 + (r + n))).
  { destruct (DATA_REFRESH_TIME_SECONDS <=? now - timestamp b) eqn:Et; [done|]. reflect_bools.
    intros Hrv x b' Hx Hb'. destruct (decide (x < o0 + r)) as [Hlt|Hge].
    - apply (gi_fresh0 Hrv x b'); [lia | done].
    - assert (x / block_size = bn) as Hxb
        by (symmetry; apply Z.div_unique with (x - bn * block_size); lia).
      rewrite Hxb in Hb'.
      assert (b' = b) as -> by (apply (lookup_weaken _ _ _ _ Hbs') in gi_sub0; congruence). done. }
  destruct (length <=? r + n) eqn:E; reflect_bools.
  - assert (r + n = length) as En by lia. rewrite En in *. split_and!; try done; try lia.
    by etrans.
  - split; [|lia].
    assert (n = len b - delta) as En by lia.
    assert ((a + (i + block_size)) / block_size = bn + 1) as Hnext.
    { symmetry. apply Z.div_unique with 0; lia. }
    assert (0 <= bn + 1 < 2 ^ 64) as Hbn by nia.
    split; rewrite ?Hnext; try done; try lia.
    + by etrans.
    + destruct (decide (len b = block_size)) as [Hfull|Hshort].
      * left. split; [lia|]. intros b' Hb' Hs'.
        destruct (found_block ct p (bn + 1) b' s1) as (_ & _ & []); try done; lia.
      * right. split; [rewrite <- Eno; eapply (gapless_sub s s1); eauto; lia|].
        intros b' Hb'. right.
        assert ((o0 + (r + n)) / block_size = bn) as Hdiv
          by (symmetry; apply Z.div_unique with (len b); lia).
        rewrite Hdiv in Hb'. assert (b' = b) as -> by congruence.
        rewrite Z.mod_eq, Hdiv by lia. lia.
Qed.

Lemma get_loop_ok ct now s0 p o0 length a : forall fuel i r delta out rv s,
  length < 2 ^ 31 -> 0 <= o0 -> 0 <= a -> 0 <= i -> 0 <= delta < block_size ->
  o0 + length + block_size <= 2 ^ 64 ->
  a mod block_size = 0 -> i mod block_size = 0 -> a + i < 2 ^ 64 ->
  no_digit_end p -> gapless s p ->
  get_inv ct now s0 p o0 length a i r delta out rv s ->
  (contents (base s) !! GetBlockKey p ((a + i) / block_size) = None \/
   length - r + delta + block_size <= Z.of_nat fuel * block_size) ->
  (0 < fuel)%nat ->
  exists res, get_loop block_size now fuel p a length i r delta out rv s = done res
              /\ get_result ct now s0 p o0 length res.
Proof.
  induction fuel as [|fuel IH];
    intros i r delta out rv s Hl Ho Ha Hi Hd Hb Hma Hmi Hai Hp Hgap Hinv Hfuel Hpos; [lia|].
  assert ((a + i) mod block_size = 0) as Hal.
  { by rewrite <- Z.add_mod_idemp_l, Hma, Z.add_0_l by lia. }
  cbn [get_loop]. rewrite Hma. cbn [negb Z.eqb]. rewrite (u64_small (a + i)) by lia.
  assert (0 <= (a + i) / block_size < 2 ^ 64) as Hbn.
  { split; [apply Z.div_pos; lia | apply Z.div_lt_upper_bound; nia]. }
  destruct (get_block ct p ((a + i) / block_size) s) as (e & s1 & -> & Hco1 & Hsub & He & Hr);
    [by destruct Hinv | done | done |].
  destruct e as [b|].
  2: { eexists. split; [reflexivity|]. eapply get_stop; try done. intros b Hb'. congruence. }
  destruct Hr as (Ep & En & Hok).
  destruct (start_idx b =? 0) eqn:Es; cbn [negb]; reflect_bools.
  2: { eexists. split; [reflexivity|]. eapply get_stop; try done. intros b' Hb'. congruence. }
  destruct (get_step ct now s0 p o0 length a i r delta out rv s s1 b) as (Hat & Hdl & Hstep); try done.
  pose proof (bo_end _ _ Hok) as Hbe. pose proof (bo_mem _ _ Hok) as Hbm.
  pose proof (gi_read _ _ _ _ _ _ _ _ _ _ _ _ _ Hinv) as Hread.
  cbv zeta in Hstep. rewrite (u64_small (len b - delta)), (u64_small (length - r)) by lia.
  assert ((if len b - delta <? length - r then len b - delta else length - r)
          = Z.min (len b - delta) (length - r)) as ->.
  { destruct (len b - delta <? length - r) eqn:E; reflect_bools; lia. }
  set (n := Z.min (len b - delta) (length - r)) in *.
  assert ((if len b - delta <? length - r then u64 (r + (len b - delta)) else length) = r + n) as ->.
  { destruct (len b - delta <? length - r) eqn:E; reflect_bools; [rewrite u64_small|]; lia. }
  rewrite (proj2 (Z.leb_le (delta + n) (zlen (data b)))) by lia. cbn [oassert obind].
  destruct (length <=? r + n) eqn:E; reflect_bools.
  - assert (r + n = length) as -> by lia. rewrite s32_small by lia. eauto.
  - destruct Hstep as [Hinv' Hn].
    assert (contents (base s) !! GetBlockKey p ((a + i) / block_size) <> None) as Hin.
    { intros Hnone. pose proof (lookup_weaken _ _ _ _ He Hsub). congruence. }
    destruct Hfuel as [?|Hfuel]; [done|].
    rewrite (u64_small (i + block_size)) by lia. apply IH; try done; try lia.
    + by rewrite <- Z.add_mod_idemp_r, Z.mod_same, Z.add_0_r by lia.
    + by eapply gapless_sub.
    + destruct Hn as [Hshort|Hn]; [|right; lia]. left.
      assert ((a + (i + block_size)) / block_size = (a + i) / block_size + 1) as ->.
      { replace (a + (i + block_size)) with (a + i + 1 * block_size) by lia. by rewrite Z.div_add by lia. }
      rewrite <- En. eapply (gapless_sub s s1); eauto.
Qed.

Lemma get_ok ct now p offset length fuel s :
  coherent ct s -> no_digit_end p -> gapless s p -> reaches s p offset ->
  0 <= offset -> block_size <= length < 2 ^ 31 -> offset + length + block_size <= 2 ^ 64 ->
  length + 2 * block_size <= Z.of_nat fuel * block_size ->
  exists res, get block_size now fuel p offset length s = done res
              /\ get_result ct now s p offset length res.
Proof.
  intros Hco Hp Hg Hr Ho Hl Hb Hfuel. unfold get. rewrite (proj2 (Z.ltb_ge _ _)) by lia.
  pose proof (Z.mod_pos_bound offset block_size ltac:(lia)) as Hd.
  pose proof (Z.div_mod offset block_size ltac:(lia)) as Hdm.
  pose proof (Z.div_pos offset block_size Ho ltac:(lia)) as Hdiv.
  set (a := offset - offset mod block_size).
  assert (a = offset / block_size * block_size) as Ea by (unfold a; lia).
  assert (a mod block_size = 0) as Hma by (rewrite Ea; apply Z.mod_mul; lia).
  assert (a / block_size = offset / block_size) as Hq by (rewrite Ea; apply Z.div_mul; lia).
  destruct fuel as [|fuel]; [lia|].
  assert (get_loop block_size now (S fuel) p offset length 0 0 (offset mod block_size) [] false s
          = get_loop block_size now (S fuel) p a length 0 0 (offset mod block_size) [] false s) as ->.
  { cbn [get_loop]. rewrite Hma. cbn [negb Z.eqb].
    destruct (offset mod block_size =? 0) eqn:E; reflect_bools; cbn [negb].
    - assert (Eao : a = offset) by (unfold a; lia). by rewrite Eao.
    - by rewrite (u64_small (offset - offset mod block_size)) by (fold a; nia). }
  assert (0 <= a <= offset) as Harange by nia.
  apply get_loop_ok; try done; try lia.
  - split; rewrite ?Z.add_0_r; try done; try lia.
    + intros _ x b Hx. lia.
    + left. rewrite Hq. split; [unfold a; lia|]. exact Hr.
Qed.

(** ** Runs of a shard *)

Lemma get_loop_coherent ct now p length : forall fuel a i r delta out rv s n out' rv' s',
  coherent ct s ->
  get_loop block_size now fuel p a length i r delta out rv s = done (n, out', rv', s') ->
  coherent ct s'.
Proof.
  induction fuel as [|fuel IH]; intros a i r delta out rv s n out' rv' s' Hco E; [done|].
  cbn [get_loop] in E. unfold done in E. destruct (base_get_spec _
    (GetBlockKey p (u64 ((if negb (a mod block_size =? 0) then u64 (a - delta) else a) + i)
                    / block_size)) _ Hco) as [Hco' _].
  destruct (base_get _ s) as [[b|] s1]; simpl in Hco'; [|by simplify_eq].
  destruct (negb (start_idx b =? 0)); [by simplify_eq|].
  apply obind_Ok_inv in E as [[] [_ E]].
  destruct (length <=? _) in E; [by simplify_eq|]. by eapply IH.
Qed.

(** The calls a client makes on a new shard, with what it put. A put of less than a block
    is ignored by the cache: it does not count as put. *)
Inductive run : content -> DataCacheShard C -> Prop :=
  | run_new c : contents c = ∅ -> run (fun _ _ => None) (mk_shard c ∅)
  | run_put ct s now p offset d fuel s' :
      run ct s -> no_digit_end p -> 0 <= offset -> block_size <= zlen d ->
      offset + zlen d + block_size <= 2 ^ 64 -> zlen d < Z.of_nat fuel * block_size ->
      put block_size now fuel p offset (zlen d) d s = done s' ->
      run (overwrite ct p offset d) s'
  | run_short_put ct s now p offset d fuel s' :
      run ct s -> zlen d < block_size -> put block_size now fuel p offset (zlen d) d s = done s' -> run ct s'
  | run_get ct s now p offset length fuel n out rv s' :
      run ct s -> get block_size now fuel p offset length s = done (n, out, rv, s') -> run ct s'
  | run_remove ct s p : run ct s -> run ct (remove p s)
  | run_clear ct s : run ct s -> run ct (base_clear s).

Lemma run_coherent ct s : run ct s -> coherent ct s.
Proof.
  induction 1 as [c Hc|ct s now p o d fuel s' _ IH Hp Ho Hd Hb Hf E
                 |ct s now p o d fuel s' _ IH Hd E
                 |ct s now p o l fuel n out rv s' _ IH E|ct s p _ IH|ct s _ IH].
  - intros k b Hb. simpl in Hb. by rewrite Hc, lookup_empty in Hb.
  - destruct (put_ok now p o d fuel ct s) as [s1 [E1 Hco]]; try done.
    rewrite E1 in E. unfold done in E. by simplify_eq.
  - unfold put in E. rewrite (proj2 (Z.ltb_lt _ _) Hd) in E. unfold done in E. by simplify_eq.
  - unfold get in E. destruct (l <? block_size); [unfold done in E; by simplify_eq|].
    by eapply get_loop_coherent.
  - by apply remove_spec.
  - intros k b Hb. by rewrite base_clear_spec, lookup_empty in Hb.
Qed.

End Coherence.

(** ** Theorems *)

(** C16: after any sequence of puts, reads, removals of paths and evictions on a new shard,
    where puts of a block or more are on paths that do not end in a digit and shorter puts
    are ignored: a read of at least a block of a path that does not end in a digit returns
    the bytes of the last put of a block or more at each offset, none of them indeterminate;
    it stops early only at a byte that is not cached, and asks for revalidation unless every
    block read is fresh. The path must have no cached block after a short one and its first
    block must reach the offset; the range is below 2^64 - [block_size] and shorter than
    2^31. *)
Theorem cache_reads_latest {C} `{PocoLaws C DataBlock} block_size ct (s : DataCacheShard C)
    now p offset length fuel :
  0 < block_size < 2 ^ 31 -> run block_size ct s -> no_digit_end p ->
  gapless block_size s p -> reaches block_size s p offset ->
  0 <= offset -> block_size <= length < 2 ^ 31 -> offset + length + block_size <= 2 ^ 64 ->
  length + 2 * block_size <= Z.of_nat fuel * block_size ->
  exists n out rv s',
    get block_size now fuel p offset length s = done (n, out, rv, s')
    /\ 0 <= n <= length /\ out = file_bytes ct p offset n /\ Forall is_Some out
    /\ (n < length -> uncached block_size s' p (offset + n))
    /\ (rv = false -> fresh block_size now s p offset (offset + n)).
Proof.
  intros Hbs Hrun Hp Hg Hr Ho Hl Hb Hf.
  destruct (get_ok block_size Hbs ct now p offset length fuel s) as [[[[n out] rv] s'] [E Hres]];
    try done; [by apply run_coherent|].
  exists n, out, rv, s'. split; [done|]. destruct Hres as (_ & _ & Hres). exact Hres.
Qed.

Definition bytes (s : string) : list ascii := String.list_ascii_of_string s.

(** The state and the contents after two puts on a roomy cache with blocks of 4. *)
Definition two_puts : outcome (option (DataCacheShard (gmap (list ascii) DataBlock))) :=
  let? s := put 4 10 4 (bytes "/a") 0 (zlen (bytes "abcdef")) (bytes "abcdef") (mk_shard ∅ ∅) in
  put 4 10 4 (bytes "/a") 2 (zlen (bytes "VWXYZ")) (bytes "VWXYZ") s.

Definition shard2 : DataCacheShard (gmap (list ascii) DataBlock) :=
  match two_puts with Ok (Some s) => s | _ => mk_shard ∅ ∅ end.

Lemma shard2_eq : two_puts = done shard2.
Proof.
  unfold shard2. assert (match two_puts with Ok (Some _) => true | _ => false end = true) as Ht
    by (vm_compute; reflexivity). by destruct two_puts as [[s|]| |].
Qed.

Definition put2 : content :=
  overwrite (overwrite (fun _ _ => None) (bytes "/a") 0 (bytes "abcdef")) (bytes "/a") 2 (bytes "VWXYZ").

Lemma shard2_run : run 4 put2 shard2.
Proof.
  pose proof shard2_eq as Hs. unfold two_puts, fbind, done in Hs.
  apply obind_Ok_inv in Hs as [[s1|] [H1 H2]]; [|discriminate H2].
  refine (run_put 4 _ s1 10 _ 2 _ 4 shard2 _ _ _ _ _ _ H2);
    [| reflexivity | apply Z.leb_le; reflexivity.. | apply Z.ltb_lt; reflexivity].
  refine (run_put 4 _ (mk_shard ∅ ∅) 10 _ 0 _ 4 s1 _ _ _ _ _ _ H1);
    [| reflexivity | apply Z.leb_le; reflexivity.. | apply Z.ltb_lt; reflexivity].
  apply run_new. reflexivity.
Qed.

Definition read_from (s : DataCacheShard (gmap (list ascii) DataBlock)) :=
  match get 4 11 8 (bytes "/a") 0 8 s with Ok r => r | _ => None end.

Lemma cache_reads_latest_witness :
  exists n out rv s', two_puts = done shard2
    /\ get 4 11 8 (bytes "/a") 0 8 shard2 = done (n, out, rv, s')
    /\ out = file_bytes put2 (bytes "/a") 0 n
    /\ fmap (fun r => r.1.1.2) (read_from shard2) = Some (map Some (bytes "abVWXYZ")).
Proof.
  pose proof shard2_eq as Hs. pose proof shard2_run as Hrun.
  assert (gapless 4 shard2 (bytes "/a")) as Hg.
  { apply gapless_b_sound. vm_compute. reflexivity. }
  assert (reaches 4 shard2 (bytes "/a") 0) as Hr.
  { intros b Hb. vm_compute in Hb. injection Hb as <-. vm_compute. discriminate. }
  destruct (cache_reads_latest 4 _ shard2 11 (bytes "/a") 0 8 8 ltac:(lia) Hrun)
    as (n & out & rv & s' & E & _ & Hout & _);
    [reflexivity | exact Hg | exact Hr | lia..|].
  exists n, out, rv, s'. split; [exact Hs|]. split; [exact E|]. split; [exact Hout|].
  vm_compute. reflexivity.
Defined.

(** Removing a path from a shard drops every block of the path and nothing else
    than blocks, so that a read of the path finds nothing and [isCached] is false; and a
    path for which [isCached] is false has no block. *)
Theorem cache_remove_forgets {C} `{PocoLaws C DataBlock} block_size ct (s : DataCacheShard C) p :
  0 < block_size < 2 ^ 31 -> run block_size ct s -> no_digit_end p ->
  (forall k b, contents (base (remove p s)) !! k = Some b ->
     path b <> p /\ contents (base s) !! k = Some b)
  /\ isCached p (remove p s) = false
  /\ (forall now fuel offset length, 0 <= offset < 2 ^ 64 -> block_size <= length ->
       exists s', get block_size now (S fuel) p offset length (remove p s) = done (0, [], false, s'))
  /\ (isCached p s = false -> forall k b, contents (base s) !! k = Some b -> path b <> p).
Proof.
  intros Hbs Hrun Hp. pose proof (run_coherent block_size Hbs ct s Hrun) as Hco.
  destruct (remove_spec (block_ok block_size ct) p s Hco) as (Hco' & Hnone & Hout).
  split_and!; [done | by unfold isCached; rewrite Hnone | |].
  - intros now fuel offset length Ho Hl. unfold get. rewrite (proj2 (Z.ltb_ge _ _) Hl). cbn [get_loop].
    set (a := if negb (offset mod block_size =? 0) then _ else _).
    pose proof (u64_range (a + 0)) as Ha.
    assert (0 <= u64 (a + 0) / block_size < 2 ^ 64) as Hbn.
    { split; [apply Z.div_pos; lia | apply Z.div_lt_upper_bound; nia]. }
    destruct (get_block block_size ct p (u64 (a + 0) / block_size) (remove p s))
      as (r & s' & -> & _ & Hsub & Hr & Hb); [done..|].
    destruct r as [b|]; [|eauto].
    destruct (Hout _ _ (lookup_weaken _ _ _ _ Hr Hsub)) as [Hne _]. by destruct Hb.
  - intros Hc k b Hb Ep. destruct (Hco k b Hb) as (_ & Ht & _).
    unfold isCached in Hc. unfold tracked, blocks_of in Ht. rewrite Ep in Ht.
    destruct (cached_blocks s !! p) as [bs|]; [|set_solver].
    apply negb_false_iff, bool_decide_eq_true in Hc as ->. set_solver.
Qed.

Lemma cache_remove_forgets_witness :
  isCached (bytes "/a") shard2 = true
  /\ isCached (bytes "/a") (remove (bytes "/a") shard2) = false.
Proof.
  split; [vm_compute; reflexivity|].
  apply (cache_remove_forgets 4 put2 shard2 (bytes "/a")); [lia | exact shard2_run | reflexivity].
Defined.

(** ** Blocks of two files under one key *)

Lemma zlen_replicate {A} n (x : A) : 0 <= n -> zlen (replicate (Z.to_nat n) x) = n.
Proof. unfold zlen. rewrite length_replicate. lia. Qed.

Lemma new_full_block block_size now d p b :
  0 < block_size -> zlen d = block_size ->
  new_DataBlock block_size now d 0 block_size 0 p b = Ok (mk_block (map Some d) block_size 0 p b now).
Proof.
  intros Hbs Hd. unfold new_DataBlock, memcpy.
  rewrite zlen_replicate, Hd, !Z.leb_refl by lia. cbn [andb oassert obind].
  rewrite Z.add_0_l, (drop_ge (replicate _ _)) by (rewrite length_replicate; lia).
  change (drop (Z.to_nat 0) d) with d. change (take (Z.to_nat 0) _) with (@nil (option ascii)).
  rewrite take_ge by (unfold zlen in Hd; lia). simpl. by rewrite app_nil_r.
Qed.

Lemma put_one_block {C} `{Poco C DataBlock} block_size now p bn d fuel (s : DataCacheShard C) :
  0 < block_size < 2 ^ 31 -> zlen d = block_size -> 0 <= bn -> (bn + 2) * block_size <= 2 ^ 64 ->
  put block_size now (S (S fuel)) p (bn * block_size) block_size d s
  = done (AddBlockToMap p bn (base_add (GetBlockKey p bn)
            (mk_block (map Some d) block_size 0 p bn now) s)).
Proof.
  intros Hbs Hd Hbn Hb. unfold put. rewrite Z.ltb_irrefl, Z.mod_mul by lia. cbn [put_loop negb Z.eqb].
  rewrite (proj2 (Z.ltb_lt 0 block_size)), Z.add_0_r by lia. cbn [negb].
  rewrite (u64_small (bn * block_size)), (u64_small (block_size - 0)) by nia.
  rewrite (proj2 (Z.ltb_ge (block_size - 0) block_size)) by lia.
  rewrite Z.div_mul, new_full_block by (try done; lia). cbn [obind].
  rewrite !Z.add_0_l, (u64_small block_size), Z.ltb_irrefl by lia. done.
Qed.

Lemma get_one_block {C} `{PocoLaws C DataBlock} block_size now p bn b fuel (s s' : DataCacheShard C) :
  0 < block_size < 2 ^ 31 -> 0 <= bn -> (bn + 1) * block_size <= 2 ^ 64 ->
  base_get (GetBlockKey p bn) s = (Some b, s') ->
  start_idx b = 0 -> len b = block_size -> zlen (data b) = block_size ->
  get block_size now (S fuel) p (bn * block_size) block_size s
  = done (block_size, data b, DATA_REFRESH_TIME_SECONDS <=? now - timestamp b, s').
Proof.
  intros Hbs Hbn Hb Hget Hst Hlen Hz. unfold get. rewrite Z.ltb_irrefl, Z.mod_mul by lia.
  cbn [get_loop]. rewrite Z.mod_mul by lia. cbn [negb Z.eqb].
  rewrite Z.add_0_r, (u64_small (bn * block_size)), Z.div_mul, Hget, Hst by nia. cbn [negb Z.eqb].
  rewrite Hlen, !Z.sub_0_r, (u64_small block_size), Z.ltb_irrefl, Z.add_0_l, Hz, Z.leb_refl by lia.
  cbn [oassert obind]. rewrite s32_small by lia. cbn [app].
  change (drop (Z.to_nat 0) (data b)) with (data b). rewrite take_ge by (unfold zlen in Hz; lia).
  by destruct (DATA_REFRESH_TIME_SECONDS <=? now - timestamp b).
Qed.

Lemma roomy_base_get (key : list ascii) (s : DataCacheShard (gmap (list ascii) DataBlock)) :
  base_get key s = (base s !! key, s).
Proof.
  unfold base_get. simpl. assert (gone (fun _ => true) (base s) (base s) = []) as ->.
  { apply elem_of_nil_inv. intros g Hg. apply elem_of_gone in Hg as (k & _ & H1 & H2).
    simpl in *. congruence. }
  by destruct s.
Qed.

Lemma shard_bound p : (shard p < kNumCacheShards)%nat.
Proof.
  unfold shard, kNumCacheShards. pose proof (Z.mod_pos_bound (Hash p 8887) (Z.of_nat 16)). lia.
Qed.

(** The key of a block does not tell the file: what is put for the first block of
    [p ++ "1"] is read as the eleventh block of [p], a file for which nothing was put,
    when both paths are in the same shard. *)
Theorem block_key_collision block_size now p d :
  0 < block_size < 2 ^ 31 -> zlen d = block_size -> shard (p ++ ["1"%char]) = shard p ->
  exists dc dc' : TC_DataCache (gmap (list ascii) DataBlock),
    dc_put block_size now 2 (p ++ ["1"%char]) 0 block_size d (new_TC_DataCache ∅) = done (tt, dc)
    /\ dc_get block_size now 1 p (10 * block_size) block_size dc
       = done (block_size, map Some d, false, dc').
Proof.
  intros Hbs Hd Hsh. pose proof (shard_bound p) as Hlt.
  assert (GetBlockKey p 10 = GetBlockKey (p ++ ["1"%char]) 0) as Hkey.
  { unfold GetBlockKey. by rewrite <- app_assoc. }
  unfold dc_put, on_shard, new_TC_DataCache, TC_DataCache. rewrite Hsh, lookup_replicate_2 by done.
  pose proof (put_one_block block_size now (p ++ ["1"%char]) 0 d 0
                (mk_shard (∅ : gmap (list ascii) DataBlock) ∅)) as Hput.
  rewrite Z.mul_0_l in Hput. rewrite Hput by (try done; lia). unfold fbind, done. cbn [obind].
  set (b := mk_block _ _ _ _ _ _). set (s := AddBlockToMap _ _ _).
  assert (base_get (GetBlockKey p 10) s = (Some b, s)) as Hget.
  { rewrite roomy_base_get. unfold s, base_add. rewrite Hkey. simpl. by rewrite lookup_insert_eq. }
  eexists _, _. split; [reflexivity|].
  unfold dc_get, on_shard, TC_DataCache. rewrite list_lookup_insert_eq by (by rewrite length_replicate).
  rewrite (get_one_block _ _ _ _ b 0 s s); try done; try lia.
  - unfold fbind, done. cbn [obind timestamp b]. by rewrite Z.sub_diag.
  - unfold zlen in *. simpl. by rewrite length_map.
Qed.

Lemma block_key_collision_witness :
  exists dc dc' : TC_DataCache (gmap (list ascii) DataBlock),
    dc_put 4 0 2 (bytes "/e1") 0 4 (bytes "abcd") (new_TC_DataCache ∅) = done (tt, dc)
    /\ dc_get 4 0 1 (bytes "/e") 40 4 dc = done (4, map Some (bytes "abcd"), false, dc').
Proof.
  apply (block_key_collision 4 0 (bytes "/e") (bytes "abcd")); [lia | reflexivity |].
  vm_compute. reflexivity.
Defined.

(** ** Short blocks *)

(** One round of the loop of [get] that takes all a block holds and goes on. *)
Lemma roomy_get_step (block_size now : Z) (fuel : nat) (p : list ascii) (a length i r delta : Z)
    (out : list (option ascii)) (rv : bool) (s : DataCacheShard (gmap (list ascii) DataBlock)) b :
  0 < block_size -> a mod block_size = 0 -> 0 <= a + i < 2 ^ 64 ->
  base s !! GetBlockKey p ((a + i) / block_size) = Some b -> start_idx b = 0 ->
  0 <= delta <= len b -> len b <= zlen (data b) -> len b < 2 ^ 64 ->
  0 <= r -> length < 2 ^ 64 -> len b - delta < length - r ->
  get_loop block_size now (S fuel) p a length i r delta out rv s
  = get_loop block_size now fuel p a length (u64 (i + block_size)) (r + (len b - delta)) 0
      (out ++ take (Z.to_nat (len b - delta)) (drop (Z.to_nat delta) (data b)))
      (if DATA_REFRESH_TIME_SECONDS <=? now - timestamp b then true else rv) s.
Proof.
  intros Hbs Ha Hai Hb Hs Hd Hz Hl Hr Hlen Hlt. cbn [get_loop]. rewrite Ha. cbn [negb Z.eqb].
  rewrite (u64_small (a + i)), roomy_base_get, Hb, Hs by lia. cbn [negb Z.eqb].
  rewrite (u64_small (len b - delta)), (u64_small (length - r)) by lia.
  rewrite (proj2 (Z.ltb_lt _ _) Hlt), (proj2 (Z.leb_le _ _)) by lia. cbn [oassert obind].
  rewrite (u64_small (r + (len b - delta))) by lia. by rewrite (proj2 (Z.leb_gt _ _)) by lia.
Qed.

(** [get] copies the blocks one after the other, also when a block holds less than
    a block of data, as the last block of a long put does: when the next block is cached
    too, its bytes are returned for the offset where the short block ends. *)
Theorem short_block_misplaces (block_size now : Z) (p : list ascii) (m k : Z) (b0 b1 : DataBlock)
    (fuel : nat) (s : DataCacheShard (gmap (list ascii) DataBlock)) :
  0 < block_size < 2 ^ 30 -> 0 < k < block_size -> 0 <= m -> (m + 3) * block_size <= 2 ^ 64 ->
  base s !! GetBlockKey p m = Some b0 -> base s !! GetBlockKey p (m + 1) = Some b1 ->
  base s !! GetBlockKey p (m + 2) = None ->
  start_idx b0 = 0 -> len b0 = k -> zlen (data b0) = block_size ->
  start_idx b1 = 0 -> len b1 = block_size -> zlen (data b1) = block_size ->
  exists rv,
    get block_size now (3 + fuel) p (m * block_size) (2 * block_size) s
    = done (k + block_size, take (Z.to_nat k) (data b0) ++ data b1, rv, s).
Proof.
  intros Hbs Hk Hm Hbound H0 H1 H2 Hs0 Hl0 Hz0 Hs1 Hl1 Hz1.
  assert (0 <= m * block_size) as Hm0 by nia.
  assert (forall j, (m * block_size + j * block_size) / block_size = m + j) as Hdiv.
  { intros j. rewrite <- Z.mul_add_distr_r. apply Z.div_mul. lia. }
  pose proof (Hdiv 0) as D0. pose proof (Hdiv 1) as D1. pose proof (Hdiv 2) as D2.
  rewrite Z.mul_0_l in D0. rewrite Z.mul_1_l in D1.
  replace (2 * block_size) with (block_size + block_size) in D2 by lia.
  rewrite !Z.add_0_r in D0.
  unfold get. rewrite (proj2 (Z.ltb_ge _ _)), Z.mod_mul by lia. cbn [Nat.add].
  rewrite (roomy_get_step _ _ _ _ _ _ _ _ _ _ _ _ b0);
    rewrite ?Z.add_0_r, ?Z.mod_mul, ?D0, ?Hl0; try done; try lia.
  rewrite Z.add_0_l, (u64_small block_size) by lia.
  rewrite (roomy_get_step _ _ _ _ _ _ _ _ _ _ _ _ b1);
    rewrite ?Z.mod_mul, ?D1, ?Hl1; try done; try lia.
  rewrite (u64_small (block_size + block_size)), !Z.sub_0_r by lia. cbn [get_loop].
  rewrite Z.mod_mul by lia. cbn [negb Z.eqb]. rewrite u64_small, D2 by lia.
  rewrite roomy_base_get, H2, s32_small, Z.add_0_l by lia. eexists.
  cbn [app Z.to_nat drop]. by rewrite (take_ge (data b1)) by (unfold zlen in Hz1; lia).
Qed.

(** Six bytes at 0 and four at 8, in blocks of 4. *)
Definition shard3 : DataCacheShard (gmap (list ascii) DataBlock) :=
  match
    let? s := put 4 10 4 (bytes "/a") 0 6 (bytes "abcdef") (mk_shard ∅ ∅) in
    put 4 10 4 (bytes "/a") 8 4 (bytes "WXYZ") s
  with Ok (Some s) => s | _ => mk_shard ∅ ∅ end.

Lemma short_block_misplaces_witness :
  exists rv, get 4 10 3 (bytes "/a") 4 8 shard3 = done (6, map Some (bytes "efWXYZ"), rv, shard3).
Proof.
  apply (short_block_misplaces 4 10 (bytes "/a") 1 2
    (mk_block (map Some (bytes "ef") ++ [None; None]) 2 0 (bytes "/a") 1 10)
    (mk_block (map Some (bytes "WXYZ")) 4 0 (bytes "/a") 2 10) 0 shard3);
    try lia; vm_compute; reflexivity.
Defined.

(** A read that starts inside a block beyond the data the block holds compares the
    wrapped difference of the two lengths, takes the block to hold enough and copies past
    the end of the block. *)
Theorem short_block_overreads {C} `{PocoLaws C DataBlock} block_size now p offset length fuel b
    (s s' : DataCacheShard C) :
  0 < block_size < 2 ^ 31 -> 0 <= offset < 2 ^ 64 -> block_size <= length < 2 ^ 63 ->
  base_get (GetBlockKey p (offset / block_size)) s = (Some b, s') ->
  start_idx b = 0 -> 0 <= len b < offset mod block_size -> zlen (data b) = block_size ->
  get block_size now (S fuel) p offset length s = Abort.
Proof.
  intros Hbs Ho Hl Hget Hs Hlen Hz. unfold get. rewrite (proj2 (Z.ltb_ge _ _)) by lia. cbn [get_loop].
  pose proof (Z.mod_pos_bound offset block_size ltac:(lia)) as Hd.
  rewrite (proj2 (Z.eqb_neq (offset mod block_size) 0)) by lia. cbn [negb].
  pose proof (Z.div_mod offset block_size ltac:(lia)) as Hdm.
  pose proof (Z.div_pos offset block_size ltac:(lia) ltac:(lia)) as Hdiv.
  assert (u64 (u64 (offset - offset mod block_size) + 0) / block_size = offset / block_size) as ->.
  { rewrite Z.add_0_r, !u64_small by (rewrite ?u64_small; nia).
    replace (offset - offset mod block_size) with (offset / block_size * block_size) by lia.
    apply Z.div_mul. lia. }
  rewrite Hget, Hs. cbn [negb Z.eqb]. rewrite Z.sub_0_r, (u64_small length) by lia.
  assert (u64 (len b - offset mod block_size) = 2 ^ 64 + (len b - offset mod block_size)) as ->.
  { unfold u64. symmetry. apply Z.mod_unique with (-1); lia. }
  rewrite (proj2 (Z.ltb_ge _ _)), (proj2 (Z.leb_gt _ _)) by lia. done.
Qed.

Lemma short_block_overreads_witness :
  get 4 10 3 (bytes "/a") 7 4 shard3 = Abort.
Proof.
  apply (short_block_overreads 4 10 (bytes "/a") 7 4 2
    (mk_block (map Some (bytes "ef") ++ [None; None]) 2 0 (bytes "/a") 1 10) shard3 shard3);
    try lia; try (vm_compute; reflexivity).
  vm_compute. split; [discriminate | reflexivity].
Defined.

End Cache.
