(* ===== verification/NfsCache.v ===== *)
(** The caching layer, [tc/tc_cache.cpp] with the metadata cache of
    [tc_cache/TC_MetaDataCache.h]: the operations of the NFSv4 layer wrapped with
    lookups and updates of the metadata cache and the data cache. Module [Nfs]. The
    metadata cache maps paths to shared directory entries, which live in a heap. *)

From S2P Require Import Prelude CommonTypes FdTable TcApi Nfs4Impl DataCache.
From stdpp Require Import fin_maps.
Import Api.
Local Open Scope Z_scope.

Module Nfs.

#[local] Existing Instances Cache.roomy Cache.roomy_laws.

(** ** Directory entries *)

Definition MD_REFRESH_TIME : Z := 5.

Definition matchTime (ts1 ts2 : timespec) : bool :=
  (tv_sec ts1 =? tv_sec ts2) && (tv_nsec ts1 =? tv_nsec ts2).

(** [copyFH]; [None] when [malloc] fails. *)
Definition copyFH (malloc_ok : bool) (old : file_handle) : option file_handle :=
  if malloc_ok
  then Some (mk_handle (handle_bytes old) (handle_type old) (take (handle_bytes old) (f_handle old)))
  else None.

(** Entries are shared: [parent] and [children] refer to the heap, [None] being a null
    pointer. *)
Record DirEntry := mk_entry {
  path_ : list ascii;
  fh : option file_handle;
  attrs_ : avals;
  has_listdir_ : bool;
  parent : option nat;
  children : gmap (list ascii) (option nat);
  timestamp_ : Z
}.

(** The metadata cache: the Poco cache of entry numbers, the entries, and the number of
    the next entry. *)
Record mdcache (CM : Type) := mk_md { mdc : CM; heap : gmap nat DirEntry; next_id : nat }.
Arguments mk_md {CM}. Arguments mdc {CM}. Arguments heap {CM}. Arguments next_id {CM}.

Section entry.
(** [time(NULL)] during the call. *)
Context (now : Z).
(** The indeterminate values of a [struct stat] and of the time stamp of entry [i]. *)
Context (junk_stat : avals) (junk_time : nat -> Z).

Definition new_DirEntry (p : list ascii) (va : vattrs) : DirEntry :=
  mk_entry p None (vattrs2stat va junk_stat) false None ∅ now.

(** The constructor of a child. *)
Definition new_child (va : vattrs) (pa : nat) : outcome DirEntry :=
  assert! (bool_decide (type (attr_file va) = VFILE_PATH)) ;;
  match path (attr_file va) with
  | None => Abort
  | Some p => Ok (mk_entry p None (vattrs2stat va junk_stat) false (Some pa) ∅ now)
  end.

(** The copy constructor, which leaves the time stamp indeterminate. *)
Definition copy_DirEntry (i : nat) (de : DirEntry) : DirEntry :=
  mk_entry (path_ de) (fh de) (attrs_ de) (has_listdir_ de) (parent de) (children de) (junk_time i).

Definition getAttrs (de : DirEntry) (va : vattrs) : vattrs := vstat2attrs (attrs_ de) va.

Definition setDirListed (listed : bool) (de : DirEntry) : DirEntry :=
  mk_entry (path_ de) (fh de) (attrs_ de) listed (parent de) (children de) (timestamp_ de).

Definition addChild (p : list ascii) (child : option nat) (de : DirEntry) : DirEntry :=
  mk_entry (path_ de) (fh de) (attrs_ de) (has_listdir_ de) (parent de)
    (<[p := child]> (children de)) (timestamp_ de).

(** Returns false, and changes nothing, when [validate] is set and the change times
    differ. *)
Definition refreshAttrs (va : vattrs) (validate : bool) (de : DirEntry) : bool * DirEntry :=
  if validate && negb (matchTime (ctime (attrs_ de)) (ctime (vals va))) then (false, de)
  else (true, mk_entry (path_ de) (fh de) (vattrs2stat va (attrs_ de)) (has_listdir_ de)
                (parent de) (children de) now).

Definition getFileSize (de : DirEntry) : Z := size (attrs_ de).

Definition validate (ts : timespec) (de : DirEntry) : bool := matchTime (ctime (attrs_ de)) ts.

Definition setAttrsAndParent (va : vattrs) (pa : nat) (de : DirEntry) : DirEntry :=
  mk_entry (path_ de) (fh de) (vattrs2stat va (attrs_ de)) (has_listdir_ de) (Some pa)
    (children de) (timestamp_ de).

Definition copyFileHandle (malloc_ok : bool) (de : DirEntry) : option file_handle :=
  match fh de with Some h => copyFH malloc_ok h | None => None end.

(** ** The metadata cache *)

Context {CM : Type} `{Cache.Poco CM nat}.

(** [mdCache->get]: the number of the entry and the entry. *)
Definition md_get (p : list ascii) (m : mdcache CM) : option (nat * DirEntry) * mdcache CM :=
  let '(r, c) := Cache.pget p (mdc m) in
  let m := mk_md c (heap m) (next_id m) in
  match r with
  | None => (None, m)
  | Some i => (match heap m !! i with Some de => Some (i, de) | None => None end, m)
  end.

(** [mdCache->add(p, de)] stores a copy of [de]. *)
Definition md_add (p : list ascii) (de : DirEntry) (m : mdcache CM) : mdcache CM :=
  let i := next_id m in
  mk_md (Cache.padd p i (mdc m)) (<[i := copy_DirEntry i de]> (heap m)) (S i).

Definition md_remove (p : list ascii) (m : mdcache CM) : mdcache CM :=
  mk_md (Cache.premove p (mdc m)) (heap m) (next_id m).

(** An entry changed in place. *)
Definition md_set (i : nat) (de : DirEntry) (m : mdcache CM) : mdcache CM :=
  mk_md (mdc m) (<[i := de]> (heap m)) (next_id m).

End entry.

(** ** The state of the layer *)

(** The buffers of the caller, which are part of the world of the session: [load] reads
    bytes at an address, [store] writes bytes, some of which may be indeterminate. *)
Class Memory (W : Type) := {
  load : Z -> Z -> W -> list ascii;
  store : Z -> list (option ascii) -> W -> W
}.

Record cstate (CM CD W : Type) := mk_cstate {
  md : mdcache CM;
  dataCache : Cache.TC_DataCache CD;
  fd_to_path_map : gmap Z (list ascii);
  g_miss_count : Z;
  fds : Fds.fd_table;
  world : W
}.
Arguments mk_cstate {CM CD W}. Arguments md {CM CD W}. Arguments dataCache {CM CD W}.
Arguments fd_to_path_map {CM CD W}. Arguments g_miss_count {CM CD W}. Arguments fds {CM CD W}.
Arguments world {CM CD W}.

Section layer.
Context {CM CD W : Type} `{Cache.Poco CM nat} `{Cache.Poco CD Cache.DataBlock} `{Memory W}.
(** [CACHE_BLOCK_SIZE], [time(NULL)] during the call, and the indeterminate values. *)
Context (block_size now : Z) (junk_stat : avals) (junk_time : nat -> Z).
(** The export, the lock behaviour and the allocations of the layer below. *)
Context (export : option (Nfs4.obj_ops W)) (detects : bool) (malloc_ok : nat -> bool).
(** Rounds of the loops, and the indeterminate results of empty calls below. *)
Context (fuel : nat) (junk : Z).
Notation state := (cstate CM CD W).

(** Operations on the parts of the state. *)
Definition on_md {A} (f : mdcache CM -> A * mdcache CM) : M state A := fun s =>
  let '(a, m) := f (md s) in
  done (a, mk_cstate m (dataCache s) (fd_to_path_map s) (g_miss_count s) (fds s) (world s)).

Definition on_data {A} (f : Cache.TC_DataCache CD -> outcome (option (A * Cache.TC_DataCache CD)))
  : M state A := fun s =>
  let? (a, d) := f (dataCache s) in
  done (a, mk_cstate (md s) d (fd_to_path_map s) (g_miss_count s) (fds s) (world s)).

Definition below {A} (f : Fds.fd_table -> W -> outcome (option (A * Fds.fd_table * W))) : M state A :=
  fun s =>
  let? (a, t, w) := f (fds s) (world s) in
  done (a, mk_cstate (md s) (dataCache s) (fd_to_path_map s) (g_miss_count s) t w).

Definition get_world : M state W := fun s => done (world s, s).

Definition set_world (w : W) : M state unit := fun s =>
  done (tt, mk_cstate (md s) (dataCache s) (fd_to_path_map s) (g_miss_count s) (fds s) w).

Definition add_misses (n : Z) : M state unit := fun s =>
  done (tt, mk_cstate (md s) (dataCache s) (fd_to_path_map s) (g_miss_count s + n) (fds s) (world s)).

Definition set_paths (f : gmap Z (list ascii) -> gmap Z (list ascii)) : M state unit := fun s =>
  done (tt, mk_cstate (md s) (dataCache s) (f (fd_to_path_map s)) (g_miss_count s) (fds s) (world s)).

Definition md_lookup (p : list ascii) : M state (option (nat * DirEntry)) := on_md (md_get p).
Definition md_insert (p : list ascii) (va : vattrs) : M state unit :=
  on_md (fun m => (tt, md_add junk_time p (new_DirEntry now junk_stat p va) m)).
Definition md_update (i : nat) (de : DirEntry) : M state unit := on_md (fun m => (tt, md_set i de m)).
Definition md_erase (p : list ascii) : M state unit := on_md (fun m => (tt, md_remove p m)).

(** ** Descriptors and paths *)

Definition add_fd_to_path (fd : Z) (p : list ascii) : M state unit := set_paths (insert fd p).

Definition get_path_from_fd (fd : Z) : M state (option (list ascii)) := fun s =>
  done (fd_to_path_map s !! fd, s).

Definition clear_fd_to_path (fd : Z) : M state unit := set_paths (delete fd).

Definition cacheable (f : vfile) : bool :=
  bool_decide (type f = VFILE_PATH) || bool_decide (type f = VFILE_DESCRIPTOR).

Definition get_path (f : vfile) : M state (list ascii) :=
  match type f with
  | VFILE_PATH => need (path f)
  | VFILE_DESCRIPTOR => p ← get_path_from_fd (fd f); need p
  | _ => stop
  end.

(** ** Names and handles *)

(** [alloc] tells whether the copy of the handle can be allocated. *)
Definition metacache_path_to_handle (alloc : bool) (tcf : vfile) : M state vfile :=
  p ← need (path tcf);
  e ← md_lookup p;
  mret match e with
       | Some (_, de) =>
           match copyFileHandle alloc de with
           | Some h => mk_vfile VFILE_HANDLE (fd tcf) (UHandle h)
           | None => tcf
           end
       | None => tcf
       end.

(** One file of an array: the file to use and the file saved. *)
Definition FilenameToFh (alloc : bool) (tcf : vfile) : M state (vfile * vfile) :=
  if bool_decide (type tcf = VFILE_PATH)
  then tcf' ← metacache_path_to_handle alloc tcf; mret (tcf', tcf)
  else mret (tcf, tcf).

Definition nfs_updateAttr_FilenameToFh (alloc : bool) (attrs : list vattrs)
  : M state (list vattrs * list vfile) :=
  l ← each (fun a =>
    '(f, saved) ← FilenameToFh alloc (attr_file a); mret (Nfs4.with_attr_file a f, saved)) attrs;
  mret (map fst l, map snd l).

(** The handles are freed; the two arrays have the same length. *)
Definition nfs_restoreAttr_FhToFilename (attrs : list vattrs) (saved : list vfile) : list vattrs :=
  zip_with Nfs4.with_attr_file attrs saved.

Definition nfs_updateIovec_FilenameToFh (alloc : bool) (iovs : list viovec)
  : M state (list viovec * list vfile) :=
  l ← each (fun v =>
    '(f, saved) ← FilenameToFh alloc (file v); mret (set_file v f, saved)) iovs;
  mret (map fst l, map snd l).

Definition nfs_restoreIovec_FhToFilename (iovs : list viovec) (saved : list vfile) : list viovec :=
  zip_with set_file iovs saved.

(** ** Opening and closing *)

(** The elements of [vector<struct vattrs> attrs(count)]. *)
Definition zero_attrs : vattrs :=
  mk_attrs (mk_vfile VFILE_NULL 0 UNull) VMASK_INIT_NONE
    (mk_vals 0 0 0 0 0 0 0 0 (mk_time 0 0) (mk_time 0 0) (mk_time 0 0)).

(** One round of the loop of [nfs_openv]. *)
Definition cache_opened (x : list ascii * vattrs * vfile) : M state unit :=
  let '(p, a, f) := x in
  e ← md_lookup p;
  _ ← match e with
      | Some (i, de) =>
          let '(valid, de) := refreshAttrs now a true de in
          _ ← md_update i de;
          if negb valid then on_data (Cache.dc_remove p) else mret tt
      | None => md_insert p a
      end;
  add_fd_to_path (fd f) p.

Definition nfs_openv (euid egid : Z) (paths : list (list ascii)) (flags : list Z)
    (modes : option (list Z)) : M state (option (list vfile)) :=
  let attrs := replicate (List.length paths) zero_attrs in
  '(files, attrs) ← below (fun t w =>
    let? (files, attrs, t, w) :=
      Nfs4.nfs4_openv export detects fuel euid egid paths flags modes attrs t w in
    done ((files, attrs), t, w));
  match files with
  | None => mret None
  | Some files => _ ← each cache_opened (zip (zip paths attrs) files); mret (Some files)
  end.

(** The caller's array is freed when all is well. *)
Definition nfs_closev (tcfs : list vfile) : M state (vres * list vfile) :=
  '(tcres, tcfs) ← below (fun t w =>
    let? (r, tcfs, t, w) := Nfs4.nfs4_closev export detects fuel tcfs t w in done ((r, tcfs), t, w));
  _ ← each (fun f => clear_fd_to_path (fd f)) (take (Z.to_nat (index tcres)) tcfs);
  mret (tcres, tcfs).

Definition nfs_fseek (tcf : vfile) (off whence : Z) : M state Z :=
  below (fun t w => let! (r, t) := Nfs4.nfs4_fseek detects tcf off whence t in done (r, t, w)).

(** ** Reading *)

(** What the first loop of [check_dataCache] finds for one vector: the vector, the bytes
    read from the cache, and whether they must be validated. *)
Record probe := mk_probe { p_iov : viovec; p_hit : Z; p_reval : bool }.

Definition eof_if_past (v : viovec) (de : DirEntry) : viovec :=
  if getFileSize de <=? u64 (offset v + length v) then set_eof v true else v.

Definition probe_iov (v : viovec) : M state probe :=
  if negb (bool_decide (type (file v) = VFILE_PATH))
     && negb (bool_decide (type (file v) = VFILE_DESCRIPTOR))
  then mret (mk_probe v 0 false)
  else
    p ← get_path (file v);
    '(hit, out, revalidate) ← on_data (Cache.dc_get block_size now fuel p (offset v) (length v));
    w ← get_world;
    _ ← set_world (store (data v) out w);
    if hit =? 0 then mret (mk_probe v 0 false)
    else
      e ← md_lookup p;
      match e with
      | Some (_, de) =>
          if negb revalidate && (now - timestamp_ de <=? MD_REFRESH_TIME)
          then mret (mk_probe (eof_if_past v de) (u64 hit) false)
          else mret (mk_probe v (u64 hit) true)
      | None => mret (mk_probe v 0 false)
      end.

(** The attributes to fetch for validation. *)
Definition reval_attrs (ps : list probe) : list vattrs :=
  map (fun q => mk_attrs (file (p_iov q)) VMASK_INIT_ALL (vals zero_attrs))
    (filter (fun q => p_reval q = true) ps).

(** The loop that compares the attributes fetched. *)
Fixpoint validate_probes (ps : list probe) (attrs : list vattrs) : M state (list probe) :=
  match ps with
  | [] => mret []
  | q :: ps =>
      if p_reval q then
        p ← get_path (file (p_iov q));
        e ← md_lookup p;
        a ← need (head attrs);
        let q :=
          match e with
          | Some (_, de) =>
              if validate (ctime (vals a)) de
              then mk_probe (eof_if_past (p_iov q) de) (p_hit q) true
              else mk_probe (p_iov q) 0 true
          | None => mk_probe (p_iov q) 0 true
          end in
        qs ← validate_probes ps (tail attrs);
        mret (q :: qs)
      else qs ← validate_probes ps attrs; mret (q :: qs)
  end.

(** The last loop: the vectors to read from the server, and [hitArray]. [prev] is the
    vector before and whether it was a hit. *)
Fixpoint split_probes (prev : option (viovec * bool)) (ps : list probe)
  : M state (list viovec * list bool) :=
  match ps with
  | [] => mret ([], [])
  | q :: ps =>
      let v := p_iov q in
      if p_hit q =? 0 then
        v' ← match prev with
             | Some (u, true) =>
                 if bool_decide (type (file v) = VFILE_CURRENT) then
                   p ← need (path (file u));
                   p' ← need (path (file v));
                   mret (set_file v (mk_vfile VFILE_PATH (fd (file v)) (UPath (p ++ ["/"%char] ++ p'))))
                 else mret v
             | _ => mret v
             end;
        '(final, hits) ← split_probes (Some (v, false)) ps;
        mret (v' :: final, false :: hits)
      else if length v <=? p_hit q then
        '(final, hits) ← split_probes (Some (v, true)) ps;
        mret (final, true :: hits)
      else
        let v' := mk_iov (file v) (u64 (offset v + p_hit q)) (u64 (length v - p_hit q))
                    (u64 (data v + p_hit q)) (iov_type v) (is_creation v) (is_direct_io v)
                    (is_failure v) (is_eof v) (is_write_stable v) (is_last_of_multiparts v) in
        '(final, hits) ← split_probes (Some (v, false)) ps;
        mret (v' :: final, false :: hits)
  end.

(** Returns the caller's vectors, the vectors to read (the first [*miss_count] of the array
    returned) and [hitArray]. When the attributes cannot be fetched, [*miss_count] keeps the
    0 of the caller and [hitArray] stays false. *)
Definition check_dataCache (siovec : list viovec) : M state (list viovec * list viovec * list bool) :=
  ps ← each probe_iov siovec;
  let attrs := reval_attrs ps in
  let finish ps := '(final, hits) ← split_probes None ps; mret (map p_iov ps, final, hits) in
  match attrs with
  | [] => finish ps
  | _ =>
      '(tcres, attrs) ← below (fun t w =>
        let? (r, attrs, t, w) := Nfs4.nfs4_lgetattrsv export detects malloc_ok fuel attrs t w in
        done ((r, attrs), t, w));
      if vokay tcres then ps ← validate_probes ps attrs; finish ps
      else mret (map p_iov ps, [], replicate (List.length siovec) false)
  end.

(** The results of the reads, put into the caller's vectors and the data cache. *)
Fixpoint update_dataCache (siovec final : list viovec) (hits : list bool) : M state (list viovec) :=
  match siovec, hits with
  | v :: siovec, true :: hits =>
      vs ← update_dataCache siovec final hits; mret (v :: vs)
  | v :: siovec, false :: hits =>
      f ← need (head final);
      v ← if negb (bool_decide (type (file v) = VFILE_DESCRIPTOR))
             && negb (bool_decide (type (file v) = VFILE_PATH))
          then mret f
          else
            p ← get_path (file v);
            w ← get_world;
            _ ← on_data (Cache.dc_put block_size now fuel p (offset f) (length f)
                           (load (data f) (length f) w));
            mret (mk_iov (file v) (offset v) (u64 (length f + offset f - offset v)) (data v)
                    (iov_type v) (is_creation v) (is_direct_io v) (is_failure f) (is_eof f)
                    (is_write_stable f) (is_last_of_multiparts v));
      vs ← update_dataCache siovec (tail final) hits;
      mret (v :: vs)
  | _, _ => mret siovec
  end.

(** A new entry for every file that has a path. *)
Definition cache_attrs (x : viovec * vattrs) : M state unit :=
  let '(v, a) := x in
  if bool_decide (type (file v) = VFILE_PATH) || bool_decide (type (file v) = VFILE_DESCRIPTOR)
  then p ← get_path (file v); md_insert p a
  else mret tt.

(** [alloc] tells whether the array of vectors, and handles, can be allocated. *)
Definition nfs_readv (alloc : bool) (iovs : list viovec) : M state (vres * list viovec) :=
  let count := List.length iovs in
  if negb alloc then mret (vfailure 0 ENOMEM, iovs)
  else
    '(iovs, final, hits) ← check_dataCache iovs;
    '(final, saved) ← nfs_updateIovec_FilenameToFh alloc final;
    let miss_count := List.length final in
    _ ← add_misses (Z.of_nat miss_count);
    match final with
    | [] => mret (mk_vres (Z.of_nat count) 0, iovs)
    | _ =>
        '(tcres, final, attrs) ← below (fun t w =>
          let? (r, final, _, attrs, t, w) :=
            Nfs4.nfs4_readv export detects malloc_ok fuel junk final (replicate count zero_attrs) t w in
          done ((r, final, attrs), t, w));
        if vokay tcres then
          let final := nfs_restoreIovec_FhToFilename final saved in
          _ ← each cache_attrs (zip final attrs);
          iovs ← update_dataCache iovs final hits;
          mret (tcres, iovs)
        else mret (tcres, iovs)
    end.

(** ** Writing *)

(** One round of [check_and_remove]. *)
Definition check_one (x : viovec * vattrs) : M state unit :=
  let '(v, old) := x in
  if negb (bool_decide (type (file v) = VFILE_DESCRIPTOR))
     && negb (bool_decide (type (file v) = VFILE_PATH)) then mret tt
  else
    p ← get_path (file v);
    e ← md_lookup p;
    match e with
    | Some (_, de) =>
        cached ← on_data (fun d => let! b := Cache.dc_isCached p d in done (b, d));
        if cached && negb (validate (ctime (vals old)) de)
        then on_data (Cache.dc_remove p) else mret tt
    | None => mret tt
    end.

Definition check_and_remove (writes : list viovec) (old_attrs : list vattrs) : M state vres :=
  _ ← each check_one (zip writes old_attrs);
  mret (mk_vres 0 0).

(** The cache updates after one write. *)
Definition cache_written (x : viovec * vattrs) : M state unit :=
  let '(v, a) := x in
  if bool_decide (type (file v) = VFILE_PATH) || bool_decide (type (file v) = VFILE_DESCRIPTOR) then
    p ← get_path (file v);
    _ ← md_insert p a;
    off ← if offset v =? TC_OFFSET_END then mret (u64 (size (vals a) - length v))
          else if offset v =? TC_OFFSET_CUR then
            _ ← check (bool_decide (type (file v) = VFILE_DESCRIPTOR));
            r ← nfs_fseek (file v) 0 Nfs4.SEEK_CUR;
            mret (u64 (r - length v))
          else mret (offset v);
    w ← get_world;
    on_data (Cache.dc_put block_size now fuel p off (length v) (load (data v) (length v) w))
  else mret tt.

(** The result after a success is that of [check_and_remove]. *)
Definition nfs_writev (alloc : bool) (writes : list viovec) : M state (vres * list viovec) :=
  let zeros := replicate (List.length writes) zero_attrs in
  '(writes, saved) ← nfs_updateIovec_FilenameToFh alloc writes;
  '(tcres, writes, old_attrs, attrs) ← below (fun t w =>
    let? (r, writes, old, new, t, w) :=
      Nfs4.nfs4_writev export detects malloc_ok fuel junk writes zeros zeros t w in
    done ((r, writes, old, new), t, w));
  if vokay tcres then
    tcres ← check_and_remove writes old_attrs;
    if negb (vokay tcres) then mret (tcres, writes)
    else
      _ ← each cache_written (zip writes attrs);
      mret (tcres, nfs_restoreIovec_FhToFilename writes saved)
  else mret (tcres, nfs_restoreIovec_FhToFilename writes saved).

(** The caches are not updated and the files not restored. *)
Definition nfs_read_writev (alloc : bool) (operations : list viovec) : M state (vres * list viovec) :=
  let zeros := replicate (List.length operations) zero_attrs in
  '(operations, _) ← nfs_updateIovec_FilenameToFh alloc operations;
  below (fun t w =>
    let? (r, operations, _, _, t, w) :=
      Nfs4.nfs4_read_writev export detects malloc_ok fuel junk operations zeros zeros t w in
    done ((r, operations), t, w)).

(** ** Attributes *)

Definition join_path (parent : list ascii) (child : option (list ascii)) : list ascii :=
  match child with None => parent | Some c => parent ++ ["/"%char] ++ c end.

Definition missed_attrs (va : vattrs) : vattrs := mk_attrs (attr_file va) VMASK_INIT_ALL (vals va).

(** One element of the array: [None] for a file that has no path here, else its path.
    [prev_file] is null, a path or a handle, or the current file after one. *)
Definition attr_path (prev_file : vfile) (va : vattrs) : M state (option (list ascii)) :=
  let cur_file := attr_file va in
  if bool_decide (type cur_file = VFILE_CURRENT) then
    _ ← check (negb (bool_decide (type prev_file = VFILE_NULL)));
    if bool_decide (type prev_file = VFILE_HANDLE) then mret None
    else
      _ ← check (bool_decide (type prev_file = VFILE_PATH));
      p ← need (path prev_file);
      mret (Some (join_path p (path cur_file)))
  else if cacheable cur_file then p ← get_path cur_file; mret (Some p)
  else mret None.

(** Returns the caller's array with the hits filled in, the array of the misses and
    [hitArray]. *)
Fixpoint getattr_check_metacache (prev_file : vfile) (sAttrs : list vattrs)
  : M state (list vattrs * list vattrs * list bool) :=
  match sAttrs with
  | [] => mret ([], [], [])
  | va :: sAttrs =>
      op ← attr_path prev_file va;
      match op with
      | None =>
          '(vas, misses, hits) ← getattr_check_metacache (attr_file va) sAttrs;
          mret (va :: vas, missed_attrs va :: misses, false :: hits)
      | Some p =>
          e ← md_lookup p;
          let prev_file := mk_vfile VFILE_PATH (fd prev_file) (UPath p) in
          let hit := match e with
                     | Some (_, de) => if now - timestamp_ de <=? MD_REFRESH_TIME then Some de else None
                     | None => None
                     end in
          '(vas, misses, hits) ← getattr_check_metacache prev_file sAttrs;
          mret match hit with
               | Some de => (getAttrs de va :: vas, misses, true :: hits)
               | None => (va :: vas, missed_attrs va :: misses, false :: hits)
               end
      end
  end.

Fixpoint getattr_update_metacache (sAttrs final : list vattrs) (hits : list bool)
  : M state (list vattrs) :=
  match sAttrs, hits with
  | va :: sAttrs, true :: hits =>
      vas ← getattr_update_metacache sAttrs final hits; mret (va :: vas)
  | va :: sAttrs, false :: hits =>
      f ← need (head final);
      _ ← if cacheable (attr_file f) then p ← get_path (attr_file f); md_insert p f else mret tt;
      vas ← getattr_update_metacache sAttrs (tail final) hits;
      mret (tc_attrs2attrs va f :: vas)
  | _, _ => mret sAttrs
  end.

Definition null_vfile : vfile := mk_vfile VFILE_NULL 0 UNull.

Definition nfs_lgetattrsv (alloc : bool) (attrs : list vattrs) : M state (vres * list vattrs) :=
  if negb alloc then mret (vfailure 0 ENOMEM, attrs)
  else
    '(attrs, final, hits) ← getattr_check_metacache null_vfile attrs;
    _ ← add_misses (Z.of_nat (List.length final));
    match final with
    | [] => mret (mk_vres (Z.of_nat (List.length attrs)) 0, attrs)
    | _ =>
        '(tcres, final) ← below (fun t w =>
          let? (r, final, t, w) := Nfs4.nfs4_lgetattrsv export detects malloc_ok fuel final t w in
          done ((r, final), t, w));
        if vokay tcres then
          attrs ← getattr_update_metacache attrs final hits; mret (tcres, attrs)
        else mret (tcres, attrs)
    end.

(** One round of [setattr_update_pagecache]. *)
Definition refresh_one (va : vattrs) : M state unit :=
  if negb (bool_decide (type (attr_file va) = VFILE_PATH)) then mret tt
  else
    p ← need (path (attr_file va));
    e ← md_lookup p;
    match e with
    | Some (i, de) => md_update i (refreshAttrs now va false de).2
    | None => mret tt
    end.

Definition setattr_update_pagecache (sAttrs : list vattrs) : M state unit :=
  _ ← each refresh_one sAttrs; mret tt.

Definition nfs_lsetattrsv (alloc : bool) (attrs : list vattrs) : M state (vres * list vattrs) :=
  '(attrs, saved) ← nfs_updateAttr_FilenameToFh alloc attrs;
  '(tcres, attrs) ← below (fun t w =>
    let? (r, attrs, t, w) := Nfs4.nfs4_lsetattrsv export detects malloc_ok fuel attrs t w in
    done ((r, attrs), t, w));
  let attrs := nfs_restoreAttr_FhToFilename attrs saved in
  _ ← if vokay tcres then setattr_update_pagecache attrs else mret tt;
  mret (tcres, attrs).

(** ** Removing, renaming, making directories *)

Definition nfs_updatePair_FilenameToFh (alloc : bool) (pairs : list vfile_pair)
  : M state (list vfile_pair * list vfile) :=
  l ← each (fun q =>
    '(s, saved_s) ← FilenameToFh alloc (src_file q);
    '(d, saved_d) ← FilenameToFh alloc (dst_file q);
    mret (mk_pair s d, [saved_s; saved_d])) pairs;
  mret (map fst l, concat (map snd l)).

Fixpoint nfs_restorePair_FhToFilename (pairs : list vfile_pair) (saved : list vfile)
  : list vfile_pair :=
  match pairs, saved with
  | _ :: pairs, s :: d :: saved => mk_pair s d :: nfs_restorePair_FhToFilename pairs saved
  | _, _ => pairs
  end.

Definition nfs_renamev (alloc : bool) (junk_res : vres) (pairs : list vfile_pair)
  : M state (vres * list vfile_pair) :=
  '(pairs, saved) ← nfs_updatePair_FilenameToFh alloc pairs;
  tcres ← below (fun t w =>
    let? (r, w) := Nfs4.nfs4_renamev export fuel junk_res pairs w in done (r, t, w));
  mret (tcres, nfs_restorePair_FhToFilename pairs saved).

Definition nfs_updateFile_FilenameToFh (alloc : bool) (files : list vfile)
  : M state (list vfile * list vfile) :=
  l ← each (FilenameToFh alloc) files; mret (map fst l, map snd l).

Definition nfs_restoreFile_FhToFilename (files saved : list vfile) : list vfile :=
  zip_with (fun _ s => s) files saved.

Definition forget_removed (f : vfile) : M state unit :=
  if bool_decide (type f = VFILE_PATH)
  then p ← need (path f); _ ← on_data (Cache.dc_remove p); md_erase p
  else mret tt.

Definition nfs_removev (alloc : bool) (files : list vfile) : M state (vres * list vfile) :=
  '(files, saved) ← nfs_updateFile_FilenameToFh alloc files;
  tcres ← below (fun t w => let? (r, w) := Nfs4.nfs4_removev export fuel files w in done (r, t, w));
  let files := nfs_restoreFile_FhToFilename files saved in
  _ ← if vokay tcres then _ ← each forget_removed files; mret tt else mret tt;
  mret (tcres, files).

Definition nfs_mkdirv (alloc : bool) (junk_res : vres) (dirs : list vattrs)
  : M state (vres * list vattrs) :=
  '(dirs, saved) ← nfs_updateAttr_FilenameToFh alloc dirs;
  '(tcres, dirs) ← below (fun t w =>
    let? (r, dirs, t, w) := Nfs4.nfs4_mkdirv export detects malloc_ok fuel junk_res dirs t w in
    done ((r, dirs), t, w));
  mret (tcres, nfs_restoreAttr_FhToFilename dirs saved).

(** ** Listing directories *)

(** The callback given to the layer below, for one entry of [dir]: the caches are updated
    and the caller's callback [cb] is called; its result is ignored. The state is that of
    the metadata cache and of the caller; [junk_attrs] is the indeterminate content of
    [finalDentry]. *)
Definition poco_direntry {U} (cb : vattrs -> list ascii -> U -> bool * U) (mk : vattrs_masks)
    (junk_attrs : vattrs) (dentry : vattrs) (dir : list ascii) (x : outcome (mdcache CM * U))
  : bool * outcome (mdcache CM * U) :=
  (true,
   let! (m, c) := x in
   let '(parentElem, m) := md_get dir m in
   let! m :=
     match parentElem with
     | None => Ok m
     | Some (pid, _) =>
         match path (attr_file dentry) with
         | None => Abort
         | Some p =>
             let '(ptrElem, m) := md_get p m in
             let! (child, m) :=
               match ptrElem with
               | None =>
                   let! de1 := new_child now junk_stat dentry pid in
                   let '(e, m) := md_get p (md_add junk_time p de1 m) in
                   Ok (fmap fst e, m)
               | Some (i, de) => Ok (Some i, md_set i (setAttrsAndParent dentry pid de) m)
               end in
             match heap m !! pid with
             | None => Abort
             | Some pde => Ok (md_set pid (addChild p child pde) m)
             end
         end
     end in
   let finalDentry := tc_attrs2attrs (mk_attrs (attr_file junk_attrs) mk (vals junk_attrs)) dentry in
   Ok (m, (cb finalDentry dir c).2)).

(** The directories to list, and which of [dirs] are cached. *)
Definition listdir_check_metacache (dirs : list (list ascii)) : M state (list (list ascii) * list bool) :=
  hits ← each (fun d =>
    e ← md_lookup d;
    mret match e with
         | None => false
         | Some (_, de) => has_listdir_ de && negb (MD_REFRESH_TIME <? now - timestamp_ de)
         end) dirs;
  mret (map fst (filter (fun x => x.2 = false) (zip dirs hits)), hits).

(** The callback on the cached children, in some order; a null child is dereferenced. *)
Definition invoke_callback {U} (curDir : list ascii) (m : mdcache CM) (curElem : DirEntry)
    (cb : vattrs -> list ascii -> U -> bool * U) (mk : vattrs_masks) (junk_attrs : vattrs) (c : U)
  : outcome U :=
  foldr (fun (x : list ascii * option nat) (k : U -> outcome U) c =>
    match x.2 ≫= fun i => heap m !! i with
    | None => Abort
    | Some de =>
        let d := mk_attrs (vfile_from_path (path_ de)) mk (vals junk_attrs) in
        k (cb (getAttrs de d) curDir c).2
    end) Ok (map_to_list (children curElem)) c.

Definition with_md {A} (f : mdcache CM -> outcome A) : M state A := fun s =>
  let! a := f (md s) in done (a, s).

(** Every directory with an entry is marked as listed; the callback runs for the cached
    ones. *)
Fixpoint reply_from_metacache {U} (dirs : list (list ascii)) (hits : list bool)
    (cb : vattrs -> list ascii -> U -> bool * U) (mk : vattrs_masks) (junk_attrs : vattrs) (c : U)
  : M state U :=
  match dirs, hits with
  | d :: dirs, h :: hits =>
      e ← md_lookup d;
      c ← match e with
          | None => mret c
          | Some (i, de) =>
              let de := setDirListed true de in
              _ ← md_update i de;
              if h then with_md (fun m => invoke_callback d m de cb mk junk_attrs c) else mret c
          end;
      reply_from_metacache dirs hits cb mk junk_attrs c
  | _, _ => mret c
  end.

(** The call of the layer below; the masks are set to all attributes. *)
Definition list_uncached {U} (uncached : list (list ascii)) (mk : vattrs_masks) (max_entries : Z)
    (recursive : bool) (cb : vattrs -> list ascii -> U -> bool * U) (junk_attrs : vattrs) (cbarg : U)
  : M state (vres * U * vattrs_masks) := fun s =>
  let! (r, x, w) :=
    Nfs4.nfs4_listdirv export uncached VMASK_INIT_ALL max_entries recursive
      (poco_direntry cb mk junk_attrs) (Ok (md s, cbarg)) (world s) in
  let! (m, c) := x in
  done ((r, c, VMASK_INIT_ALL),
        mk_cstate m (dataCache s) (fd_to_path_map s) (g_miss_count s) (fds s) w).

Definition nfs_listdirv {U} (dirs : list (list ascii)) (mk : vattrs_masks) (max_entries : Z)
    (recursive : bool) (cb : vattrs -> list ascii -> U -> bool * U) (junk_attrs : vattrs) (cbarg : U)
  : M state (vres * U) :=
  '(uncached, hits) ← listdir_check_metacache dirs;
  '(tcres, c, mk) ←
    match uncached with
    | [] => mret (mk_vres (Z.of_nat (List.length dirs)) 0, cbarg, mk)
    | _ => list_uncached uncached mk max_entries recursive cb junk_attrs cbarg
    end;
  c ← reply_from_metacache dirs hits cb mk junk_attrs c;
  mret (tcres, c).

(** ** Operations passed on *)

Definition pass {A} (f : W -> outcome (option (A * W))) : M state A :=
  below (fun t w => let? (a, w) := f w in done (a, t, w)).

Definition nfs_lcopyv (pairs : list vextent_pair) : M state vres :=
  pass (Nfs4.nfs4_lcopyv export fuel pairs).
Definition nfs_hardlinkv (junk_res : vres) (oldpaths newpaths : list (list ascii)) : M state vres :=
  pass (Nfs4.nfs4_hardlinkv export fuel junk_res oldpaths newpaths).
Definition nfs_symlinkv (junk_res : vres) (oldpaths newpaths : list (list ascii)) : M state vres :=
  pass (Nfs4.nfs4_symlinkv export fuel junk_res oldpaths newpaths).
Definition nfs_readlinkv (junk_res : vres) (paths bufs : list (list ascii))
  : M state (vres * list (list ascii)) :=
  pass (fun w => let? (r, x) := Nfs4.nfs4_readlinkv export fuel junk_res paths bufs w in
                 done ((r, x.1), x.2)).
Definition nfs_chdir (p : list ascii) : M state Z :=
  pass (fun w => let! (r, w) := Nfs4.nfs4_chdir export p w in done (r, w)).
Definition nfs_getcwd : M state (list ascii) :=
  pass (fun w => let! r := Nfs4.nfs4_getcwd export w in done (r, w)).

Definition reset_miss_count : M state unit := fun s =>
  done (tt, mk_cstate (md s) (dataCache s) (fd_to_path_map s) 0 (fds s) (world s)).
Definition get_miss_count : M state Z := fun s => done (g_miss_count s, s).

End layer.

(** [init_page_cache] and [init_data_cache] on empty Poco caches, and [deinit_*]. *)
Definition init_caches {CM CD W} (m : CM) (c : CD) (t : Fds.fd_table) (w : W) : cstate CM CD W :=
  mk_cstate (mk_md m ∅ 0) (Cache.new_TC_DataCache c) ∅ 0 t w.

Definition deinit_caches {CM CD W} `{Cache.Poco CM nat} `{Cache.Poco CD Cache.DataBlock}
    (s : cstate CM CD W) : cstate CM CD W :=
  mk_cstate (mk_md (Cache.pclear (mdc (md s))) (heap (md s)) (next_id (md s)))
    (Cache.dc_clear (dataCache s)) ∅ (g_miss_count s) (fds s) (world s).

(** ** Computations *)

(** A computation keeps [I] and returns a value that satisfies [Q], when it returns. *)
Definition triple {S A} (I : S -> Prop) (c : M S A) (Q : A -> S -> Prop) : Prop :=
  forall s, I s -> forall a s', c s = done (a, s') -> Q a s'.

Definition keeps {S A} (I : S -> Prop) (c : M S A) : Prop := triple I c (fun _ => I).

Section keeps.
Context {S : Type} (I : S -> Prop).

Lemma keeps_ret {A} (a : A) : keeps I (mret a).
Proof. intros s Hs a' s' E. unfold mret, M_ret, done in E. by simplify_eq. Qed.

Lemma keeps_bind {A B} (c : M S A) (k : A -> M S B) :
  keeps I c -> (forall a, keeps I (k a)) -> keeps I (c ≫= k).
Proof.
  intros Hc Hk s Hs b s2 E. apply bind_inv in E as (a & s1 & E1 & E2).
  eapply Hk; [|exact E2]. by eapply Hc.
Qed.

Lemma keeps_stop {A} : keeps I (@stop S A).
Proof. intros s Hs a s' E. discriminate. Qed.

Lemma keeps_check b : keeps I (check b).
Proof. intros s Hs a s' E. destruct b; [|discriminate]. unfold check, done in E. simpl in E. by simplify_eq. Qed.

Lemma keeps_need {A} (o : option A) : keeps I (need o).
Proof. destruct o; [apply keeps_ret | apply keeps_stop]. Qed.

Lemma keeps_each {A B} (f : A -> M S B) l : (forall a, keeps I (f a)) -> keeps I (each f l).
Proof.
  intros Hf. induction l as [|a l IH]; simpl; [apply keeps_ret|].
  apply keeps_bind; [done|]. intros b. apply keeps_bind; [done|]. intros bs. apply keeps_ret.
Qed.

End keeps.

Create HintDb keeps discriminated.
#[export] Hint Resolve keeps_ret keeps_stop keeps_check keeps_need : keeps.

(** Follow the shape of a computation. *)
Ltac keeps :=
  repeat match goal with
  | |- keeps _ (_ ≫= _) => apply keeps_bind; [|intros ?]
  | |- keeps _ (each _ _) => apply keeps_each; intros ?
  | |- keeps _ (let '(_, _) := ?x in _) => destruct x
  | |- keeps _ ((fun _ => _) _) => cbv beta
  | |- keeps _ (if ?b then _ else _) => destruct b
  | |- keeps _ (match ?x with _ => _ end) => destruct x
  | |- keeps _ _ => solve [eauto with keeps]
  end.

(** ** The metadata cache is well formed *)

Section wf.
Context {CM CD W : Type} `{Cache.PocoLaws CM nat} `{Cache.Poco CD Cache.DataBlock} `{Memory W}.
Notation state := (cstate CM CD W).

Record entry_ok (m : mdcache CM) (i : nat) (de : DirEntry) : Prop := {
  eo_id : (i < next_id m)%nat;
  eo_fh : fh de = None;
  eo_parent : forall j, parent de = Some j -> is_Some (heap m !! j);
  eo_children : forall q j, children de !! q = Some (Some j) ->
    exists de', heap m !! j = Some de' /\ path_ de' = q
}.

(** Cached numbers are entries for their path, entries refer to entries, children are
    stored under their path, and no entry has a handle. *)
Record md_ok (m : mdcache CM) : Prop := {
  mo_cached : forall p i, Cache.contents (mdc m) !! p = Some i ->
    exists de, heap m !! i = Some de /\ path_ de = p;
  mo_heap : forall i de, heap m !! i = Some de -> entry_ok m i de
}.

Lemma md_get_spec p m :
  md_ok m ->
  md_ok (md_get p m).2 /\ heap (md_get p m).2 = heap m /\ next_id (md_get p m).2 = next_id m
  /\ Cache.contents (mdc (md_get p m).2) ⊆ Cache.contents (mdc m)
  /\ match (md_get p m).1 with
     | Some (i, de) => Cache.contents (mdc m) !! p = Some i /\ heap m !! i = Some de /\ path_ de = p
     | None => Cache.contents (mdc (md_get p m).2) !! p = None
     end.
Proof.
  intros Hm. unfold md_get.
  pose proof (Cache.pget_found p (mdc m)) as Hf. pose proof (Cache.pget_sub p (mdc m)) as Hs.
  destruct (Cache.pget p (mdc m)) as [r c]. simpl in *.
  assert (md_ok (mk_md c (heap m) (next_id m))) as Hm'.
  { split; simpl; [|by intros i de Hd; destruct (mo_heap m Hm i de Hd)].
    intros q i Hq. by eapply (mo_cached m Hm), lookup_weaken. }
  destruct r as [i|]; [|done].
  assert (Cache.contents (mdc m) !! p = Some i) as Hi by (by eapply lookup_weaken).
  destruct (mo_cached m Hm p i Hi) as [de [Hd Hp]]. simpl. rewrite Hd. done.
Qed.

(** Changing an entry in place, but neither its path nor its handle. *)
Lemma md_set_ok m i de de' :
  md_ok m -> heap m !! i = Some de -> path_ de' = path_ de -> fh de' = fh de ->
  (forall j, parent de' = Some j -> is_Some (heap m !! j)) ->
  (forall q j, children de' !! q = Some (Some j) -> exists x, heap m !! j = Some x /\ path_ x = q) ->
  md_ok (md_set i de' m).
Proof.
  intros Hm Hi Hp Hf Hpar Hch.
  assert (forall j x, heap m !! j = Some x ->
    exists y, <[i := de']> (heap m) !! j = Some y /\ path_ y = path_ x) as Hup.
  { intros j x Hj. destruct (decide (j = i)) as [->|Hne].
    - exists de'. rewrite lookup_insert_eq. split; [done|]. congruence.
    - exists x. by rewrite lookup_insert_ne. }
  split; simpl.
  - intros p j Hj. destruct (mo_cached m Hm p j Hj) as [x [Hx <-]].
    destruct (Hup j x Hx) as [y [Hy <-]]. eauto.
  - assert (forall j x, heap m !! j = Some x ->
      (forall k, parent x = Some k -> is_Some (<[i := de']> (heap m) !! k))) as Hpar'.
    { intros j x Hj k Hk. destruct (eo_parent _ _ _ (mo_heap m Hm j x Hj) k Hk) as [z Hz].
      destruct (Hup k z Hz) as [y [Hy _]]. eauto. }
    intros j x Hj. destruct (decide (j = i)) as [->|Hne].
    + rewrite lookup_insert_eq in Hj. injection Hj as <-.
      destruct (mo_heap m Hm i de Hi). split; simpl; [done | congruence | |].
      * intros k Hk. destruct (Hpar k Hk) as [z Hz]. destruct (Hup k z Hz) as [y [Hy _]]. eauto.
      * intros q k Hk. destruct (Hch q k Hk) as [z [Hz <-]].
        destruct (Hup k z Hz) as [y [Hy Hy']]. eauto.
    + rewrite lookup_insert_ne in Hj by done. destruct (mo_heap m Hm j x Hj).
      split; simpl; [done | done | by eapply Hpar' |].
      intros q k Hk. destruct (eo_children0 q k Hk) as [z [Hz <-]].
      destruct (Hup k z Hz) as [y [Hy Hy']]. eauto.
Qed.

(** Adding an entry without a handle and without children. *)
Lemma md_add_ok junk_time m p de :
  md_ok m -> path_ de = p -> fh de = None -> children de = ∅ ->
  (forall j, parent de = Some j -> is_Some (heap m !! j)) ->
  md_ok (md_add junk_time p de m).
Proof.
  intros Hm Hp Hf Hc Hpar.
  assert (heap m !! next_id m = None) as Hfresh.
  { destruct (heap m !! next_id m) as [x|] eqn:E; [|done].
    pose proof (eo_id _ _ _ (mo_heap m Hm _ _ E)). lia. }
  assert (heap m ⊆ <[next_id m := copy_DirEntry junk_time (next_id m) de]> (heap m)) as Hsub
    by (by apply insert_subseteq).
  split; simpl.
  - intros q j Hj. pose proof (lookup_weaken _ _ _ _ Hj (Cache.padd_sub p (next_id m) (mdc m))) as Hj'.
    destruct (decide (q = p)) as [->|Hne].
    + rewrite lookup_insert_eq in Hj'. injection Hj' as <-. rewrite lookup_insert_eq. eauto.
    + rewrite lookup_insert_ne in Hj' by done. destruct (mo_cached m Hm q j Hj') as [x [Hx <-]].
      exists x. split; [by eapply lookup_weaken | done].
  - intros j x Hj. destruct (decide (j = next_id m)) as [->|Hne].
    + rewrite lookup_insert_eq in Hj. injection Hj as <-. split; simpl; [lia | done | |].
      * intros k Hk. destruct (Hpar k Hk) as [z Hz]. exists z. by eapply lookup_weaken.
      * intros q k Hk. by rewrite Hc, lookup_empty in Hk.
    + rewrite lookup_insert_ne in Hj by done. destruct (mo_heap m Hm j x Hj).
      split; simpl; [lia | done | |].
      * intros k Hk. destruct (eo_parent0 k Hk) as [z Hz]. exists z. by eapply lookup_weaken.
      * intros q k Hk. destruct (eo_children0 q k Hk) as [z [Hz <-]].
        exists z. split; [by eapply lookup_weaken | done].
Qed.

Lemma md_remove_ok p m : md_ok m -> md_ok (md_remove p m).
Proof.
  intros Hm. split; simpl.
  - intros q i Hi. eapply (mo_cached m Hm). eapply lookup_weaken; [exact Hi|].
    etrans; [apply Cache.premove_sub | apply delete_subseteq].
  - intros i de Hd. by destruct (mo_heap m Hm i de Hd).
Qed.

(** *** The operations keep it *)

Definition layer_ok (s : state) : Prop := md_ok (md s).

Context (block_size now : Z) (junk_stat : avals) (junk_time : nat -> Z).
Context (export : option (Nfs4.obj_ops W)) (detects : bool) (malloc_ok : nat -> bool).
Context (fuel : nat) (junk : Z).

Lemma keeps_on_md {A} (f : mdcache CM -> A * mdcache CM) :
  (forall m, md_ok m -> md_ok (f m).2) -> keeps layer_ok (on_md (CD := CD) (W := W) f).
Proof.
  intros Hf s Hs a s' E. unfold on_md, done in E. specialize (Hf (md s) Hs).
  destruct (f (md s)) as [a' m]. simplify_eq. exact Hf.
Qed.

Lemma keeps_on_data {A} (f : Cache.TC_DataCache CD -> outcome (option (A * Cache.TC_DataCache CD))) :
  keeps layer_ok (on_data (CM := CM) (W := W) f).
Proof.
  intros s Hs a s' E. unfold on_data, fbind in E.
  apply obind_Ok_inv in E as [[[a' d]|] [_ E]]; [|done]. unfold done in E. by simplify_eq.
Qed.

Lemma keeps_below {A} (f : Fds.fd_table -> W -> outcome (option (A * Fds.fd_table * W))) :
  keeps layer_ok (below (CM := CM) (CD := CD) f).
Proof.
  intros s Hs a s' E. unfold below, fbind in E.
  apply obind_Ok_inv in E as [[[[a' t] w]|] [_ E]]; [|done]. unfold done in E. by simplify_eq.
Qed.

Lemma keeps_world : keeps layer_ok (get_world (CM := CM) (CD := CD) (W := W)).
Proof. intros s Hs a s' E. unfold get_world, done in E. by simplify_eq. Qed.

Lemma keeps_set_world w : keeps layer_ok (set_world (CM := CM) (CD := CD) w).
Proof. intros s Hs a s' E. unfold set_world, done in E. by simplify_eq. Qed.

Lemma keeps_add_misses n : keeps layer_ok (add_misses (CM := CM) (CD := CD) (W := W) n).
Proof. intros s Hs a s' E. unfold add_misses, done in E. by simplify_eq. Qed.

Lemma keeps_set_paths f : keeps layer_ok (set_paths (CM := CM) (CD := CD) (W := W) f).
Proof. intros s Hs a s' E. unfold set_paths, done in E. by simplify_eq. Qed.

Lemma keeps_path_from_fd x : keeps layer_ok (get_path_from_fd (CM := CM) (CD := CD) (W := W) x).
Proof. intros s Hs a s' E. unfold get_path_from_fd, done in E. by simplify_eq. Qed.

Lemma keeps_lookup p : keeps layer_ok (md_lookup (CD := CD) (W := W) p).
Proof. apply keeps_on_md. intros m Hm. by apply md_get_spec. Qed.

Lemma keeps_insert p va : keeps layer_ok (md_insert (CD := CD) (W := W) now junk_stat junk_time p va).
Proof. apply keeps_on_md. intros m Hm. by apply md_add_ok. Qed.

Lemma keeps_erase p : keeps layer_ok (md_erase (CD := CD) (W := W) p).
Proof. apply keeps_on_md. intros m Hm. by apply md_remove_ok. Qed.

(** A lookup and what follows, which may rely on the entry found. *)
Lemma keeps_lookup_then {A} p (k : option (nat * DirEntry) -> M state A) :
  (forall e, triple (fun s => layer_ok s /\
      match e with Some (i, de) => heap (md s) !! i = Some de | None => True end) (k e) (fun _ => layer_ok)) ->
  keeps layer_ok (md_lookup p ≫= k).
Proof.
  intros Hk s Hs a s' E. apply bind_inv in E as (e & s1 & E1 & E2). eapply Hk; [|exact E2].
  split; [by eapply keeps_lookup|].
  unfold md_lookup, on_md, done in E1. destruct (md_get_spec p (md s) Hs) as (_ & Hh & _ & _ & He).
  destruct (md_get p (md s)) as [e' m]. simplify_eq. simpl in *.
  destruct e as [[i de]|]; [|done]. rewrite Hh. naive_solver.
Qed.

(** An entry found is changed, and nothing but its attributes, list flag or time. *)
Lemma triple_update {A} i de de' (k : unit -> M state A) :
  path_ de' = path_ de -> fh de' = fh de -> parent de' = parent de -> children de' = children de ->
  (forall u, keeps layer_ok (k u)) ->
  triple (fun s => layer_ok s /\ heap (md s) !! i = Some de) (md_update i de' ≫= k) (fun _ => layer_ok).
Proof.
  intros Hp Hf Hpar Hch Hk s [Hs Hi] a s' E. apply bind_inv in E as (u & s1 & E1 & E2).
  eapply Hk; [|exact E2]. unfold md_update, on_md, done in E1. simplify_eq. unfold layer_ok. simpl.
  destruct (mo_heap _ Hs i de Hi). eapply md_set_ok; try done; [rewrite Hpar | rewrite Hch]; done.
Qed.

Lemma triple_keeps {A} P (c : M state A) :
  keeps layer_ok c -> triple (fun s => layer_ok s /\ P s) c (fun _ => layer_ok).
Proof. intros Hc s [Hs _]. by apply Hc. Qed.

Lemma triple_bind {A B} P (c : M state A) (k : A -> M state B) :
  triple P c (fun _ => layer_ok) -> (forall a, keeps layer_ok (k a)) ->
  triple P (c ≫= k) (fun _ => layer_ok).
Proof.
  intros Hc Hk s Hs b s2 E. apply bind_inv in E as (a & s1 & E1 & E2).
  eapply Hk; [|exact E2]. by eapply Hc.
Qed.

#[local] Hint Resolve keeps_on_data keeps_below keeps_world keeps_set_world keeps_add_misses
  keeps_set_paths keeps_path_from_fd keeps_lookup keeps_insert keeps_erase : keeps.

Lemma keeps_get_path f : keeps layer_ok (get_path (CM := CM) (CD := CD) (W := W) f).
Proof. unfold get_path. keeps. Qed.
#[local] Hint Resolve keeps_get_path : keeps.

Lemma keeps_FilenameToFh alloc f : keeps layer_ok (FilenameToFh (CD := CD) (W := W) alloc f).
Proof. unfold FilenameToFh, metacache_path_to_handle. keeps. Qed.
#[local] Hint Resolve keeps_FilenameToFh : keeps.

Lemma keeps_updateIovec alloc l :
  keeps layer_ok (nfs_updateIovec_FilenameToFh (CD := CD) (W := W) alloc l).
Proof. unfold nfs_updateIovec_FilenameToFh. keeps. Qed.

Lemma keeps_updateAttr alloc l :
  keeps layer_ok (nfs_updateAttr_FilenameToFh (CD := CD) (W := W) alloc l).
Proof. unfold nfs_updateAttr_FilenameToFh. keeps. Qed.
#[local] Hint Resolve keeps_updateIovec keeps_updateAttr : keeps.

Lemma keeps_cache_opened x :
  keeps layer_ok (cache_opened (CD := CD) (W := W) now junk_stat junk_time x).
Proof.
  unfold cache_opened. destruct x as [[p a] f]. apply keeps_lookup_then. intros e.
  apply triple_bind; [|intros ?; unfold add_fd_to_path; keeps].
  destruct e as [[i de]|]; [|apply triple_keeps; keeps].
  destruct (refreshAttrs now a true de) as [valid de'] eqn:E. unfold refreshAttrs in E.
  apply triple_update; [..|intros _; keeps];
    destruct (true && negb (matchTime (ctime (attrs_ de)) (ctime (vals a)))); by simplify_eq.
Qed.
#[local] Hint Resolve keeps_cache_opened : keeps.

Lemma keeps_probe v : keeps layer_ok (probe_iov (CM := CM) (CD := CD) (W := W) block_size now fuel v).
Proof. unfold probe_iov. keeps. Qed.

Lemma keeps_validate ps : forall attrs, keeps layer_ok (validate_probes (CD := CD) (W := W) ps attrs).
Proof. induction ps as [|q ps IH]; intros attrs; simpl; keeps. Qed.

Lemma keeps_split ps : forall prev, keeps layer_ok (split_probes (CM := CM) (CD := CD) (W := W) prev ps).
Proof. induction ps as [|q ps IH]; intros prev; simpl; keeps. Qed.
#[local] Hint Resolve keeps_probe keeps_validate keeps_split : keeps.

Lemma keeps_update_dataCache siovec : forall final hits,
  keeps layer_ok (update_dataCache (CM := CM) (CD := CD) (W := W) block_size now fuel siovec final hits).
Proof. induction siovec as [|v siovec IH]; intros final hits; simpl; keeps. Qed.
#[local] Hint Resolve keeps_update_dataCache : keeps.

Lemma keeps_check_metacache l : forall prev,
  keeps layer_ok (getattr_check_metacache (CD := CD) (W := W) now prev l).
Proof. induction l as [|va l IH]; intros prev; simpl; unfold attr_path; keeps. Qed.

Lemma keeps_update_metacache l : forall final hits,
  keeps layer_ok (getattr_update_metacache (CD := CD) (W := W) now junk_stat junk_time l final hits).
Proof. induction l as [|va l IH]; intros final hits; simpl; keeps. Qed.
#[local] Hint Resolve keeps_check_metacache keeps_update_metacache : keeps.

Lemma keeps_refresh_one va : keeps layer_ok (refresh_one (CD := CD) (W := W) now va).
Proof.
  unfold refresh_one. destruct (negb _); [keeps|]. apply keeps_bind; [keeps|]. intros p.
  apply keeps_lookup_then. intros [[i de]|]; [|apply triple_keeps; keeps].
  assert (md_update (CM := CM) (CD := CD) (W := W) i (refreshAttrs now va false de).2
          = (md_update i (refreshAttrs now va false de).2 ≫= mret)) as ->.
  { done. }
  apply triple_update; [done..|intros u; keeps].
Qed.
#[local] Hint Resolve keeps_refresh_one : keeps.

Lemma keeps_reply {U} cb mk junk_attrs dirs : forall hits (c : U),
  keeps layer_ok (reply_from_metacache (CD := CD) (W := W) dirs hits cb mk junk_attrs c).
Proof.
  induction dirs as [|d dirs IH]; intros [|h hits] c; simpl; try (keeps; fail).
  apply keeps_lookup_then. intros e. apply triple_bind; [|intros ?; apply IH].
  destruct e as [[i de]|]; [|apply triple_keeps; keeps].
  apply triple_update; [done..|]. intros u. destruct h; [|keeps].
  intros s Hs a s' E. unfold with_md in E.
  apply obind_Ok_inv in E as [x [_ E]]. unfold done in E. by simplify_eq.
Qed.

Lemma poco_direntry_ok {U} (cb : vattrs -> list ascii -> U -> bool * U) mk junk_attrs dentry dir m c :
  md_ok m ->
  forall m' c', (poco_direntry now junk_stat junk_time cb mk junk_attrs dentry dir (Ok (m, c))).2
                = Ok (m', c') -> md_ok m'.
Proof.
  clear malloc_ok. intros Hm m' c' E. unfold poco_direntry in E. cbn [snd obind] in E.
  destruct (md_get_spec dir m Hm) as (Hm1 & Hh1 & _ & _ & He1).
  destruct (md_get dir m) as [e1 m1]. cbn [fst snd] in *.
  apply obind_Ok_inv in E as [m2 [E Em]]. injection Em as -> _.
  destruct e1 as [[pid pde]|]; [|by injection E as <-].
  destruct (path (attr_file dentry)) as [p|] eqn:Ep; [|done].
  destruct (md_get_spec p m1 Hm1) as (Hm3 & Hh3 & _ & _ & He3).
  destruct (md_get p m1) as [e3 m3]. cbn [fst snd] in *.
  apply obind_Ok_inv in E as [[child m4] [E Em]].
  assert (md_ok m4 /\ forall j, child = Some j -> exists x, heap m4 !! j = Some x /\ path_ x = p)
    as [Hm4 Hchild].
  { destruct e3 as [[i de]|].
    - injection E as <- <-. destruct He3 as (_ & Hi & Hp). rewrite <- Hh3 in Hi. split.
      + eapply md_set_ok; try done.
        * intros j Hj. simpl in Hj. injection Hj as <-. rewrite Hh3, Hh1. naive_solver.
        * by apply (eo_children _ _ _ (mo_heap _ Hm3 i de Hi)).
      + intros j [= <-]. simpl. rewrite lookup_insert_eq. eauto.
    - apply obind_Ok_inv in E as [de1 [En E]].
      unfold new_child in En. apply obind_Ok_inv in En as [[] [_ En]].
      rewrite Ep in En. injection En as <-.
      assert (is_Some (heap m3 !! pid)) as Hpid by (rewrite Hh3, Hh1; naive_solver).
      assert (md_ok (md_add junk_time p (mk_entry p None (vattrs2stat dentry junk_stat) false
                (Some pid) ∅ now) m3)) as Hm5.
      { apply md_add_ok; try done. intros j [= <-]. done. }
      destruct (md_get_spec p _ Hm5) as (Hm6 & Hh6 & _ & _ & He6).
      destruct (md_get p _) as [e6 m6]. cbn [fst snd] in *. injection E as <- <-. split; [done|].
      intros j Hj. destruct e6 as [[i de]|]; [|done]. injection Hj as <-. rewrite Hh6. naive_solver. }
  destruct (heap m4 !! pid) as [pde'|] eqn:Epid; [|done]. injection Em as <-.
  destruct (mo_heap _ Hm4 pid pde' Epid). eapply md_set_ok; try done. simpl. intros q j Hq.
  destruct (decide (q = p)) as [->|Hne].
  - rewrite lookup_insert_eq in Hq. injection Hq as Hq. by apply Hchild.
  - rewrite lookup_insert_ne in Hq by done. by apply eo_children0.
Qed.

Lemma apply_cb_ok {U} (cb : vattrs -> list ascii -> U -> bool * U) mk junk_attrs l : forall x m' c',
  (forall m c, x = Ok (m, c) -> md_ok m) ->
  Nfs4.apply_cb (poco_direntry now junk_stat junk_time cb mk junk_attrs) l x = Ok (m', c') -> md_ok m'.
Proof.
  induction l as [|[e dir] l IH]; intros x m' c' Hx E; simpl in E; [by eapply Hx|].
  eapply IH; [|exact E]. intros m c Em. destruct x as [[m0 c0]| |]; [|done|done].
  eapply poco_direntry_ok; [by eapply Hx | exact Em].
Qed.

Lemma keeps_listdirv {U} dirs mk max_entries recursive (cb : vattrs -> list ascii -> U -> bool * U)
    junk_attrs cbarg :
  keeps layer_ok (nfs_listdirv (CD := CD) now junk_stat junk_time export dirs mk max_entries recursive
                    cb junk_attrs cbarg).
Proof.
  unfold nfs_listdirv, listdir_check_metacache. apply keeps_bind; [keeps|]. intros [uncached hits].
  apply keeps_bind; [|intros [[r c] mk']; apply keeps_bind; [apply keeps_reply | intros ?; keeps]].
  destruct uncached as [|u us]; [keeps|]. intros s Hs a s' E. unfold list_uncached in E.
  apply obind_Ok_inv in E as [[[r x] w] [Ex E]]. apply obind_Ok_inv in E as [[m c] [-> E]].
  unfold done in E. simplify_eq. unfold layer_ok. simpl.
  unfold Nfs4.nfs4_listdirv, Nfs4.with_export in Ex. destruct export as [o|]; [|done].
  destruct (Nfs4.vec_listdir o _ _ _ _ _) as [[r' l] w'].
  injection Ex as _ Ex _. eapply apply_cb_ok; [|exact Ex]. by intros m0 c0 [= <- _].
Qed.


Lemma keeps_check_dataCache l :
  keeps layer_ok (check_dataCache (CM := CM) (CD := CD) block_size now export detects malloc_ok fuel l).
Proof. unfold check_dataCache. keeps. Qed.
#[local] Hint Resolve keeps_check_dataCache : keeps.

Lemma keeps_readv alloc l :
  keeps layer_ok (nfs_readv (CM := CM) (CD := CD) block_size now junk_stat junk_time export detects
                    malloc_ok fuel junk alloc l).
Proof. unfold nfs_readv, cache_attrs. keeps. Qed.

Lemma keeps_writev alloc l :
  keeps layer_ok (nfs_writev (CM := CM) (CD := CD) block_size now junk_stat junk_time export detects
                    malloc_ok fuel junk alloc l).
Proof.
  unfold nfs_writev, check_and_remove, check_one, cache_written, nfs_fseek. keeps.
Qed.

Lemma keeps_lgetattrsv alloc l :
  keeps layer_ok (nfs_lgetattrsv (CD := CD) now junk_stat junk_time export detects malloc_ok fuel alloc l).
Proof. unfold nfs_lgetattrsv. keeps. Qed.

Lemma keeps_lsetattrsv alloc l :
  keeps layer_ok (nfs_lsetattrsv (CD := CD) now export detects malloc_ok fuel alloc l).
Proof. unfold nfs_lsetattrsv, setattr_update_pagecache. keeps. Qed.

Lemma keeps_removev alloc l :
  keeps layer_ok (nfs_removev (CM := CM) (CD := CD) export fuel alloc l).
Proof. unfold nfs_removev, nfs_updateFile_FilenameToFh, forget_removed. keeps. Qed.

Lemma keeps_openv euid egid paths flags modes :
  keeps layer_ok (nfs_openv (CM := CM) (CD := CD) now junk_stat junk_time export detects fuel
                    euid egid paths flags modes).
Proof. unfold nfs_openv. keeps. Qed.

End wf.

(** Without handles in the entries, names are left as they are. *)
Lemma FilenameToFh_same {CM CD W} `{Cache.PocoLaws CM nat} alloc tcf (s : cstate CM CD W) :
  md_ok (md s) -> (type tcf = VFILE_PATH -> is_Some (path tcf)) ->
  exists m, FilenameToFh alloc tcf s
    = done (tcf, tcf, mk_cstate m (dataCache s) (fd_to_path_map s) (g_miss_count s) (fds s) (world s))
  /\ md_ok m.
Proof.
  intros Hs Hp. unfold FilenameToFh. case_bool_decide as Ht.
  2: { exists (md s). by destruct s. }
  destruct (Hp Ht) as [p Ep]. unfold metacache_path_to_handle, need. rewrite Ep.
  unfold md_lookup, on_md, mbind, M_bind, fbind, mret, M_ret, done. cbn [obind].
  destruct (md_get_spec p (md s) Hs) as (Hm & Hh & _ & _ & He).
  destruct (md_get p (md s)) as [e m]. cbn [obind fst snd] in *. exists m. split; [|done].
  destruct e as [[i de]|]; [|done]. destruct He as (_ & Hi & _).
  unfold copyFileHandle. by rewrite (eo_fh _ _ _ (mo_heap _ Hs i de Hi)).
Qed.

#[export] Hint Resolve keeps_below keeps_set_paths keeps_FilenameToFh keeps_updateAttr
  keeps_updateIovec : keeps.

(** ** Runs of the layer *)

Section steps.
Context {CM CD W : Type} `{Cache.PocoLaws CM nat} `{Cache.Poco CD Cache.DataBlock} `{Memory W}.
Notation state := (cstate CM CD W).

Definition ends {A} (c : M state A) (s s' : state) : Prop := exists a, c s = done (a, s').

(** A call of the layer, at any time and with any behaviour of what it calls. *)
Inductive nfs_step (s s' : state) : Prop :=
  | st_open now js jt ex de fuel euid egid paths flags modes :
      ends (nfs_openv now js jt ex de fuel euid egid paths flags modes) s s' -> nfs_step s s'
  | st_close ex de fuel files : ends (nfs_closev ex de fuel files) s s' -> nfs_step s s'
  | st_seek de f off whence : ends (nfs_fseek de f off whence) s s' -> nfs_step s s'
  | st_read bs now js jt ex de mo fuel junk alloc iovs :
      ends (nfs_readv bs now js jt ex de mo fuel junk alloc iovs) s s' -> nfs_step s s'
  | st_write bs now js jt ex de mo fuel junk alloc iovs :
      ends (nfs_writev bs now js jt ex de mo fuel junk alloc iovs) s s' -> nfs_step s s'
  | st_read_write ex de mo fuel junk alloc iovs :
      ends (nfs_read_writev ex de mo fuel junk alloc iovs) s s' -> nfs_step s s'
  | st_getattrs now js jt ex de mo fuel alloc attrs :
      ends (nfs_lgetattrsv now js jt ex de mo fuel alloc attrs) s s' -> nfs_step s s'
  | st_setattrs now ex de mo fuel alloc attrs :
      ends (nfs_lsetattrsv now ex de mo fuel alloc attrs) s s' -> nfs_step s s'
  | st_listdir U now js jt ex dirs mk max_entries recursive (cb : vattrs -> list ascii -> U -> bool * U) ja c :
      ends (nfs_listdirv now js jt ex dirs mk max_entries recursive cb ja c) s s' -> nfs_step s s'
  | st_rename ex fuel alloc jr pairs : ends (nfs_renamev ex fuel alloc jr pairs) s s' -> nfs_step s s'
  | st_remove ex fuel alloc files : ends (nfs_removev ex fuel alloc files) s s' -> nfs_step s s'
  | st_mkdir ex de mo fuel alloc jr dirs :
      ends (nfs_mkdirv ex de mo fuel alloc jr dirs) s s' -> nfs_step s s'
  | st_copy ex fuel pairs : ends (nfs_lcopyv ex fuel pairs) s s' -> nfs_step s s'
  | st_hardlink ex fuel jr olds news : ends (nfs_hardlinkv ex fuel jr olds news) s s' -> nfs_step s s'
  | st_symlink ex fuel jr olds news : ends (nfs_symlinkv ex fuel jr olds news) s s' -> nfs_step s s'
  | st_readlink ex fuel jr paths bufs : ends (nfs_readlinkv ex fuel jr paths bufs) s s' -> nfs_step s s'
  | st_chdir ex p : ends (nfs_chdir ex p) s s' -> nfs_step s s'
  | st_getcwd ex : ends (nfs_getcwd ex) s s' -> nfs_step s s'
  | st_reset : ends reset_miss_count s s' -> nfs_step s s'.

Inductive reachable : state -> Prop :=
  | reach_init m c t w : Cache.contents m = ∅ -> reachable (init_caches m c t w)
  | reach_step s s' : reachable s -> nfs_step s s' -> reachable s'.

Lemma ends_keeps {A} (c : M state A) s s' : keeps layer_ok c -> layer_ok s -> ends c s s' -> layer_ok s'.
Proof. intros Hc Hs [a E]. by eapply Hc. Qed.

Lemma step_ok s s' : layer_ok s -> nfs_step s s' -> layer_ok s'.
Proof.
  intros Hs [].
  all: eapply ends_keeps; [|exact Hs | eassumption].
  - apply keeps_openv.
  - unfold nfs_closev, clear_fd_to_path. keeps.
  - apply keeps_below.
  - apply keeps_readv.
  - apply keeps_writev.
  - unfold nfs_read_writev. keeps.
  - apply keeps_lgetattrsv.
  - apply keeps_lsetattrsv.
  - apply keeps_listdirv.
  - unfold nfs_renamev, nfs_updatePair_FilenameToFh. keeps.
  - apply keeps_removev.
  - unfold nfs_mkdirv. keeps.
  - apply keeps_below.
  - apply keeps_below.
  - apply keeps_below.
  - apply keeps_below.
  - apply keeps_below.
  - apply keeps_below.
  - intros s0 Hs0 a s1 E. unfold reset_miss_count, done in E. by simplify_eq.
Qed.

Lemma reachable_ok s : reachable s -> layer_ok s.
Proof.
  induction 1 as [m c t w Hm|s s' _ IH Hstep]; [|by eapply step_ok].
  split; simpl; [|done]. intros p i Hi. by rewrite Hm, lookup_empty in Hi.
Qed.

End steps.

(** ** Attributes from the cache and from the server *)

Section attributes.
Context {CM CD W : Type} `{Cache.PocoLaws CM nat}.
Notation state := (cstate CM CD W).
(** The attributes the server has for each path. *)
Context (srv : list ascii -> avals).
Context (now : Z) (junk_stat : avals) (junk_time : nat -> Z).

Definition is_path (a : vattrs) : Prop :=
  type (attr_file a) = VFILE_PATH /\ is_Some (path (attr_file a)).

Definition attr_name (a : vattrs) : list ascii := default [] (path (attr_file a)).

(** The attributes [a] asks for, as the server has them. *)
Definition answer (a : vattrs) : vattrs :=
  mk_attrs (attr_file a) (masks a) (select (masks a) (srv (attr_name a)) (vals a)).

(** The server answers for a non-empty prefix of the files asked for. *)
Class AttrServer (o : Nfs4.obj_ops W) : Prop :=
  answers : forall l w, l <> [] -> Forall is_path l ->
    exists n w', (0 < n <= List.length l)%nat
    /\ Nfs4.vec_lgetattrs o l w
       = (mk_vres (Z.of_nat n) 0, map answer (take n l) ++ drop n l, w').

(** Entries that count as fresh hold what the server has. *)
Definition fresh_ok (m : mdcache CM) : Prop :=
  forall p i de, Cache.contents (mdc m) !! p = Some i -> heap m !! i = Some de ->
    now - timestamp_ de <= MD_REFRESH_TIME -> attrs_ de = srv p.

Definition coherent_md (s : state) : Prop := md_ok (md s) /\ fresh_ok (md s).

Lemma select_all x y : select VMASK_INIT_ALL x y = x.
Proof. by destruct x. Qed.

Lemma lookup_coherent p (s : state) :
  coherent_md s ->
  exists e m, md_lookup p s
    = done (e, mk_cstate m (dataCache s) (fd_to_path_map s) (g_miss_count s) (fds s) (world s))
  /\ md_ok m /\ fresh_ok m
  /\ forall i de, e = Some (i, de) -> now - timestamp_ de <= MD_REFRESH_TIME -> attrs_ de = srv p.
Proof.
  intros [Hok Hf]. destruct (md_get_spec p (md s) Hok) as (Hok' & Hh & _ & Hsub & He).
  unfold md_lookup, on_md. destruct (md_get p (md s)) as [e m]. simpl in *.
  eexists e, m. split; [done|]. split; [done|]. split.
  - intros q i de Hq Hi. rewrite Hh in Hi. eapply Hf; [by eapply lookup_weaken | done].
  - intros i de -> Ht. destruct He as (Hp & Hi & _). by eapply Hf.
Qed.

Lemma insert_coherent p va (s : state) :
  coherent_md s -> masks va = VMASK_INIT_ALL -> vals va = srv p ->
  exists m, md_insert now junk_stat junk_time p va s
    = done (tt, mk_cstate m (dataCache s) (fd_to_path_map s) (g_miss_count s) (fds s) (world s))
  /\ md_ok m /\ fresh_ok m.
Proof.
  intros [Hok Hf] Hm Hv. unfold md_insert, on_md. eexists. split; [done|].
  split; [by apply md_add_ok|]. intros q i de Hq Hi Ht. simpl in *.
  pose proof (lookup_weaken _ _ _ _ Hq (Cache.padd_sub p (next_id (md s)) (mdc (md s)))) as Hq'.
  destruct (decide (q = p)) as [->|Hne].
  - rewrite lookup_insert_eq in Hq'. injection Hq' as <-. rewrite lookup_insert_eq in Hi.
    injection Hi as <-. simpl. unfold vattrs2stat. by rewrite Hm, select_all.
  - rewrite lookup_insert_ne in Hq' by done.
    destruct (mo_cached _ Hok q i Hq') as [x [Hx _]].
    pose proof (eo_id _ _ _ (mo_heap _ Hok i x Hx)). rewrite lookup_insert_ne in Hi by lia.
    by eapply Hf.
Qed.

Fixpoint misses (attrs : list vattrs) (hits : list bool) : list vattrs :=
  match attrs, hits with
  | _ :: attrs, true :: hits => misses attrs hits
  | a :: attrs, false :: hits => missed_attrs a :: misses attrs hits
  | _, _ => []
  end.

Definition filled (a : vattrs) (hit : bool) : vattrs := if hit then answer a else a.

Lemma attr_path_of (s : state) prev a :
  is_path a -> attr_path prev a s = done (Some (attr_name a), s).
Proof.
  intros [Ht [p Hp]]. unfold attr_path, cacheable, attr_name. rewrite Ht. simpl.
  unfold get_path, need. rewrite Ht, Hp. done.
Qed.

Lemma check_metacache_spec attrs : forall prev (s : state),
  coherent_md s -> Forall is_path attrs ->
  exists hits m, getattr_check_metacache now prev attrs s
    = done (zip_with filled attrs hits, misses attrs hits, hits,
            mk_cstate m (dataCache s) (fd_to_path_map s) (g_miss_count s) (fds s) (world s))
  /\ md_ok m /\ fresh_ok m /\ List.length hits = List.length attrs.
Proof.
  induction attrs as [|a attrs IH]; intros prev s Hs Hp.
  { exists [], (md s). destruct Hs. by destruct s. }
  apply Forall_cons in Hp as [Ha Hp]. cbn [getattr_check_metacache].
  rewrite (bind_done _ _ _ _ _ (attr_path_of s prev a Ha)).
  destruct (lookup_coherent (attr_name a) s Hs) as (e & m & E & Hm & Hf & He).
  rewrite (bind_done _ _ _ _ _ E). set (hit := match e with Some _ => _ | None => _ end).
  set (prev' := mk_vfile _ _ _).
  destruct (IH prev' (mk_cstate m (dataCache s) (fd_to_path_map s) (g_miss_count s) (fds s) (world s)))
    as (hits & m' & E' & Hm' & Hf' & Hl); [done | done |].
  rewrite (bind_done _ _ _ _ _ E'). simpl in *.
  assert (forall de, hit = Some de -> attrs_ de = srv (attr_name a)) as Hde.
  { intros de. unfold hit. destruct e as [[i de']|]; [|done].
    destruct (now - timestamp_ de' <=? MD_REFRESH_TIME) eqn:Et; [|done]. intros [= <-].
    reflect_bools. by eapply He. }
  destruct hit as [de|].
  - exists (true :: hits), m'. split_and!; [|done..|simpl; lia]. simpl.
    unfold getAttrs, vstat2attrs, answer. by rewrite (Hde de).
  - exists (false :: hits), m'. split_and!; [done..|simpl; lia].
Qed.

Lemma answer_missed a : answer (missed_attrs a) = mk_attrs (attr_file a) VMASK_INIT_ALL (srv (attr_name a)).
Proof. unfold answer. simpl. by rewrite select_all. Qed.

Lemma update_metacache_spec attrs : forall hits (s : state),
  coherent_md s -> Forall is_path attrs -> List.length hits = List.length attrs ->
  exists s', getattr_update_metacache now junk_stat junk_time (zip_with filled attrs hits)
               (map answer (misses attrs hits)) hits s = done (map answer attrs, s')
  /\ coherent_md s'.
Proof.
  induction attrs as [|a attrs IH]; intros [|h hits] s Hs Hp Hl; try done; [by exists s|].
  apply Forall_cons in Hp as [Ha Hp]. injection Hl as Hl. destruct h; cbn [zip_with misses map].
  - cbn [getattr_update_metacache]. destruct (IH hits s Hs Hp Hl) as (s' & E & Hs').
    rewrite (bind_done _ _ _ _ _ E). by exists s'.
  - cbn [getattr_update_metacache head tail]. rewrite answer_missed.
    destruct Ha as [Ht [p Hpath]].
    destruct (insert_coherent p (mk_attrs (attr_file a) VMASK_INIT_ALL (srv (attr_name a))) s)
      as (m & E & Hm & Hf); [done | done | unfold attr_name; by rewrite Hpath |].
    set (s1 := mk_cstate m (dataCache s) (fd_to_path_map s) (g_miss_count s) (fds s) (world s)) in *.
    destruct (IH hits s1 (conj Hm Hf) Hp Hl) as (s' & E' & Hs').
    exists s'. split; [|done].
    erewrite bind_done; [|reflexivity]. erewrite bind_done; [|].
    2: { unfold cacheable, get_path, need. cbn [attr_file]. rewrite Ht, Hpath. simpl.
         erewrite bind_done; [exact E | reflexivity]. }
    rewrite (bind_done _ _ _ _ _ E'). unfold tc_attrs2attrs, answer, mret, M_ret. simpl. done.
Qed.

Lemma all_hits attrs : forall hits,
  List.length hits = List.length attrs -> misses attrs hits = [] ->
  zip_with filled attrs hits = map answer attrs.
Proof.
  induction attrs as [|a attrs IH]; intros [|[] hits] Hl Hm; try done. simpl in *.
  rewrite IH by (try done; lia). done.
Qed.

(** The loop over compounds answers for all files. *)
Lemma drive_answers o `{!AttrServer o} xs : Forall is_path xs -> forall fuel n tcres w,
  (n <= List.length xs)%nat -> (List.length xs - n < fuel)%nat -> vokay tcres = true ->
  exists r w', Nfs4.drive fuel (Nfs4.in_place (Nfs4.vec_lgetattrs o)) (List.length xs) n tcres
                 (map answer (take n xs) ++ drop n xs, w) = done (r, (map answer xs, w'))
  /\ vokay r = true.
Proof.
  intros Hp. induction fuel as [|fuel IH]; intros n tcres w Hn Hf Hr; [lia|]. cbn [Nfs4.drive].
  destruct (Nat.ltb_spec n (List.length xs)) as [Hlt|Hge].
  2: { exists tcres, w. split; [|done]. by rewrite drop_ge, take_ge, app_nil_r by lia. }
  unfold Nfs4.in_place at 1.
  assert (List.length (map answer (take n xs)) = n) as Hlen by (rewrite length_map, length_take; lia).
  rewrite (drop_app_length' (map answer (take n xs))) by done.
  rewrite (take_ge (drop n xs)) by (rewrite length_drop; lia).
  destruct (answers (drop n xs) w) as (k & w' & Hk & ->).
  { intros E. apply (f_equal List.length) in E. rewrite length_drop in E. simpl in E. lia. }
  { by apply Forall_drop. }
  rewrite length_drop in Hk. cbn [vokay err_no Z.eqb index]. rewrite Nat2Z.id.
  rewrite (take_app_length' (map answer (take n xs))) by done.
  rewrite (drop_ge (map answer (take n xs) ++ drop n xs))
    by (rewrite length_app, Hlen, length_drop; lia).
  assert (map answer (take n xs) ++ (map answer (take k (drop n xs)) ++ drop k (drop n xs)) ++ []
          = map answer (take (n + k) xs) ++ drop (n + k) xs) as ->.
  { by rewrite app_nil_r, app_assoc, <- map_app, drop_drop, take_plus. }
  apply IH; [lia | lia | done].
Qed.

Lemma process_paths detects malloc_ok t l : Forall is_path l -> forall before i saved,
  Nfs4.process_loop detects malloc_ok before l i saved t
  = Ok (Some (saved ++ map attr_file l), before ++ l, t).
Proof.
  induction 1 as [|a l [Ht _] _ IH]; intros before i saved; simpl; [by rewrite !app_nil_r|].
  rewrite bool_decide_eq_false_2 by congruence. by rewrite IH, <- !app_assoc.
Qed.

Lemma restore_same l : forall n saved, map attr_file l = saved -> Nfs4.nfs4_restore_vfiles l n saved = l.
Proof.
  induction l as [|a l IH]; intros [|n] [|f saved] E; simplify_eq/=; try done.
  rewrite bool_decide_eq_true_2 by done. simpl. by rewrite IH.
Qed.

Lemma lgetattrsv_answers o `{!AttrServer o} detects malloc_ok fuel l t w :
  Forall is_path l -> (List.length l < fuel)%nat ->
  exists r w', Nfs4.nfs4_lgetattrsv (Some o) detects malloc_ok fuel l t w
               = done (r, map answer l, t, w') /\ vokay r = true.
Proof.
  intros Hp Hf. unfold Nfs4.nfs4_lgetattrsv, Nfs4.attrs_op, Nfs4.nfs4_process_vfiles.
  rewrite process_paths by done. cbn [obind app Nfs4.with_export].
  destruct (drive_answers o l Hp fuel 0 (mk_vres (Z.of_nat (List.length l)) 0) w) as (r & w' & E & Hr);
    [lia | lia | done |].
  change (map answer (take 0 l) ++ drop 0 l) with l in E. rewrite E.
  unfold fbind, done. cbn [obind]. exists r, w'. split; [|done].
  by rewrite restore_same by (rewrite <- list_fmap_compose; by apply list_fmap_ext).
Qed.

End attributes.

(** ** Theorems *)

(** C17: in every state the layer reaches, whatever the session and the server do, a path
    in the metadata cache leads to an entry of that path, entries refer to entries and
    their children are under their own paths. No entry has a file handle, so that the
    translation of names to handles leaves every file as it is. *)
Theorem metadata_cache_invariant {CM CD W} `{Cache.PocoLaws CM nat} `{Cache.Poco CD Cache.DataBlock}
    `{Memory W} (s : cstate CM CD W) :
  reachable s ->
  (forall p i, Cache.contents (mdc (md s)) !! p = Some i ->
     exists de, heap (md s) !! i = Some de /\ path_ de = p)
  /\ (forall i de, heap (md s) !! i = Some de ->
       fh de = None /\ (forall j, parent de = Some j -> is_Some (heap (md s) !! j))
       /\ (forall q j, children de !! q = Some (Some j) ->
            exists de', heap (md s) !! j = Some de' /\ path_ de' = q))
  /\ (forall alloc tcf, (type tcf = VFILE_PATH -> is_Some (path tcf)) ->
       exists s', FilenameToFh alloc tcf s = done (tcf, tcf, s')).
Proof.
  intros Hr. pose proof (reachable_ok s Hr) as Hs. split_and!.
  - apply (mo_cached _ Hs).
  - intros i de Hd. by destruct (mo_heap _ Hs i de Hd).
  - intros alloc tcf Hp. destruct (FilenameToFh_same alloc tcf s Hs Hp) as (m & E & _). eauto.
Qed.

#[export] Instance unit_memory : Memory unit := { load _ n _ := replicate (Z.to_nat n) Ascii.zero;
                                                  store _ _ w := w }.

Definition no_caches : cstate (gmap (list ascii) nat) (gmap (list ascii) Cache.DataBlock) unit :=
  init_caches ∅ ∅ Fds.table0 tt.

Definition attrs_of (p : list ascii) : vattrs := mk_attrs (vfile_from_path p) VMASK_INIT_ALL (vals zero_attrs).

(** The state of a computation that is known to return. *)
Definition final_state {S A} (c : M S A) (s : S) : S :=
  match c s with Ok (Some (_, s')) => s' | _ => s end.

Definition returns {S A} (c : M S A) (s : S) : bool :=
  match c s with Ok (Some _) => true | _ => false end.

Lemma ends_final {CM CD W A} (c : M (cstate CM CD W) A) s : returns c s = true -> ends c s (final_state c s).
Proof.
  unfold returns, ends, final_state. destruct (c s) as [[[a s']|]| |]; [by eexists | done..].
Qed.

(** The state after asking for the attributes of ["/a"]. *)
Definition after_getattr : cstate (gmap (list ascii) nat) (gmap (list ascii) Cache.DataBlock) unit :=
  final_state (nfs_lgetattrsv 10 (vals zero_attrs) (fun _ => 10) (Some Nfs4.one_ops) true
    (fun _ => true) 3 true [attrs_of (Cache.bytes "/a")]) no_caches.

Lemma metadata_cache_invariant_witness :
  (exists i, Cache.contents (mdc (md after_getattr)) !! Cache.bytes "/a" = Some i)
  /\ exists s', FilenameToFh true (vfile_from_path (Cache.bytes "/a")) after_getattr
                = done (vfile_from_path (Cache.bytes "/a"), vfile_from_path (Cache.bytes "/a"), s').
Proof.
  split; [eexists; vm_compute; reflexivity|].
  apply (metadata_cache_invariant after_getattr).
  - apply (reach_step no_caches); [by apply reach_init|].
    eapply (st_getattrs _ _ 10 (vals zero_attrs) (fun _ => 10) (Some Nfs4.one_ops) true
              (fun _ => true) 3 true [attrs_of (Cache.bytes "/a")]).
    apply ends_final. vm_compute. reflexivity.
  - intros _. by eexists.
Defined.

Lemma lgetattrsv_spec {CM CD W} `{Cache.PocoLaws CM nat} srv o `{!AttrServer srv o}
    now junk_stat junk_time detects malloc_ok fuel attrs (s : cstate CM CD W) :
  coherent_md srv now s -> Forall is_path attrs -> (List.length attrs < fuel)%nat ->
  exists r s', nfs_lgetattrsv now junk_stat junk_time (Some o) detects malloc_ok fuel true attrs s
    = done (r, map (answer srv) attrs, s')
  /\ vokay r = true /\ coherent_md srv now s'.
Proof.
  intros Hs Hp Hf. unfold nfs_lgetattrsv. cbn [negb].
  destruct (check_metacache_spec srv now attrs null_vfile s Hs Hp) as (hits & m & E & Hm & Hfr & Hl).
  rewrite (bind_done _ _ _ _ _ E). cbv beta iota.
  assert (Forall is_path (misses attrs hits) /\ (List.length (misses attrs hits) <= List.length attrs)%nat)
    as [Hpm Hlm].
  { clear -Hp. revert hits. induction Hp as [|a l [Ht Hq] _ IH]; intros [|[] hits]; simpl; try done.
    - split; [done|lia].
    - destruct (IH hits). split; [done | lia].
    - destruct (IH hits). split; [constructor; done | lia]. }
  erewrite bind_done; [|reflexivity].
  set (s1 := mk_cstate m _ _ _ _ _).
  set (s2 := mk_cstate (md s1) _ _ _ _ _).
  assert (forall T (A B : T), misses attrs hits <> [] ->
    match misses attrs hits with [] => A | _ :: _ => B end = B) as Hmatch
    by (intros T A B; by destruct (misses attrs hits)).
  destruct (decide (List.length (misses attrs hits) = 0%nat)) as [Em|Em].
  { apply nil_length_inv in Em.
    exists (mk_vres (Z.of_nat (List.length (zip_with (filled srv) attrs hits))) 0), s2.
    split_and!; [|done..]. rewrite Em. unfold mret, M_ret. by rewrite (all_hits srv attrs hits) by done. }
  rewrite Hmatch by (intros E'; by rewrite E' in Em).
  destruct (lgetattrsv_answers srv o detects malloc_ok fuel (misses attrs hits) (fds s2) (world s2))
    as (r & w' & Ea & Hr); [done | lia |].
  set (s3 := mk_cstate (md s2) (dataCache s2) (fd_to_path_map s2) (g_miss_count s2) (fds s2) w').
  destruct (update_metacache_spec srv now junk_stat junk_time attrs hits s3) as (s4 & Eu & Hs4);
    [done.. |].
  exists r, s4. split_and!; [|done..].
  erewrite bind_done.
  2: { unfold below. rewrite Ea. unfold fbind, done. cbn [obind]. reflexivity. }
  cbv beta iota. rewrite Hr. by rewrite (bind_done _ _ _ _ _ Eu).
Qed.

(** Asking for the attributes of files given by path, with a server that answers and
    a cache whose fresh entries hold what the server has, returns for every file the
    attributes the server has, whichever of them come from the cache, in any number of
    compounds, and the entries stored are right too. *)
Theorem lgetattrsv_transparent {CM CD W} `{Cache.PocoLaws CM nat} srv o `{!AttrServer srv o}
    now junk_stat junk_time detects malloc_ok fuel attrs (s : cstate CM CD W) :
  coherent_md srv now s -> Forall is_path attrs -> (List.length attrs < fuel)%nat ->
  exists r s', nfs_lgetattrsv now junk_stat junk_time (Some o) detects malloc_ok fuel true attrs s
    = done (r, map (answer srv) attrs, s')
  /\ vokay r = true /\ coherent_md srv now s'.
Proof. intros. by apply lgetattrsv_spec. Qed.

(** A server whose files have the length of their path as size, and which answers one
    file per compound. *)
Definition toy_srv (p : list ascii) : avals :=
  mk_vals 0 (Z.of_nat (List.length p)) 1 0 0 0 0 0 (mk_time 0 0) (mk_time 0 0) (mk_time 0 0).

Definition toy_ops : Nfs4.obj_ops unit := {|
  Nfs4.vec_read := None; Nfs4.vec_write := None; Nfs4.vec_read_write := None; Nfs4.vec_open := None;
  Nfs4.vec_close _ _ _ w := (mk_vres 1 0, w);
  Nfs4.vec_lgetattrs l w := (mk_vres 1 0, map (answer toy_srv) (take 1 l) ++ drop 1 l, w);
  Nfs4.vec_lsetattrs := Nfs4.keep; Nfs4.vec_mkdir := Nfs4.keep; Nfs4.vec_rename := Nfs4.one;
  Nfs4.vec_remove := Nfs4.one; Nfs4.vec_lcopy := Nfs4.one; Nfs4.vec_hardlink := Nfs4.one2;
  Nfs4.vec_symlink := Nfs4.one2;
  Nfs4.vec_readlink _ b w := (mk_vres 1 0, b, w);
  Nfs4.vec_listdir _ _ _ _ w := (mk_vres 0 0, [], w);
  Nfs4.sca_chdir _ w := (0, w); Nfs4.sca_getcwd _ := []; Nfs4.fullpath := []
|}.

#[export] Instance toy_server : AttrServer toy_srv toy_ops.
Proof.
  intros [|a l] w Hl _; [done|]. exists 1%nat, w. split; [simpl; lia | reflexivity].
Qed.

Lemma lgetattrsv_transparent_witness :
  exists r1 s1 r2 s2,
    nfs_lgetattrsv 10 (vals zero_attrs) (fun _ => 10) (Some toy_ops) true (fun _ => true) 3 true
      [attrs_of (Cache.bytes "/a")] no_caches
    = done (r1, map (answer toy_srv) [attrs_of (Cache.bytes "/a")], s1)
    /\ nfs_lgetattrsv 10 (vals zero_attrs) (fun _ => 10) (Some toy_ops) true (fun _ => true) 3 true
         [attrs_of (Cache.bytes "/a"); attrs_of (Cache.bytes "/bc")] s1
       = done (r2, map (answer toy_srv) [attrs_of (Cache.bytes "/a"); attrs_of (Cache.bytes "/bc")], s2).
Proof.
  assert (forall p, is_path (attrs_of p)) as Hp by (intros p; split; [done | by eexists]).
  destruct (lgetattrsv_transparent toy_srv toy_ops 10 (vals zero_attrs) (fun _ => 10) true (fun _ => true) 3
    [attrs_of (Cache.bytes "/a")] no_caches) as (r1 & s1 & E1 & _ & Hs1).
  { split; [by apply reachable_ok, reach_init|]. intros p i de Hi. cbn in Hi. by rewrite lookup_empty in Hi. }
  { by constructor. }
  { simpl. lia. }
  destruct (lgetattrsv_transparent toy_srv toy_ops 10 (vals zero_attrs) (fun _ => 10) true (fun _ => true) 3
    [attrs_of (Cache.bytes "/a"); attrs_of (Cache.bytes "/bc")] s1) as (r2 & s2 & E2 & _ & _).
  { exact Hs1. }
  { by repeat constructor. }
  { simpl. lia. }
  exists r1, s1, r2, s2. split; [exact E1 | exact E2].
Defined.


End Nfs.
