(* ===== verification/CachedRead.v ===== *)
(** Reads through both caches: [nfs_readv] of [tc/tc_cache.cpp] on one vector, over the
    data cache, the metadata cache and the layer below, returns the bytes the server has.
    Module [Reads]. The memory of the caller and the layer below are interfaces. *)

From S2P Require Import Prelude CommonTypes FdTable TcApi Iovec Nfs4Impl DataCache NfsCache.
Import Api Nfs.
Local Open Scope Z_scope.

Module Reads.

#[local] Existing Instances Cache.content_equiv Cache.content_equivalence Cache.coherent_proper.

(** ** Memory *)

(** [load] of what was stored, and of a region in two parts. *)
Class MemoryLaws (W : Type) `{Memory W} : Prop := {
  load_length : forall a n w, 0 <= n -> zlen (load a n w) = n;
  load_store : forall a bs w, load a (zlen bs) (store a (map Some bs) w) = bs;
  load_app : forall a n m w, 0 <= n -> 0 <= m -> load a (n + m) w = load a n w ++ load (a + n) m w
}.

Lemma load_0 {W} `{MemoryLaws W} a w : load a 0 w = [].
Proof. apply nil_length_inv. pose proof (load_length a 0 w ltac:(lia)). unfold zlen in *. lia. Qed.

(** ** Files *)

(** The file [p] has bytes from [o] up to [o + n]. *)
Definition has_bytes (ct : Cache.content) (p : list ascii) (o n : Z) : Prop :=
  forall x, o <= x < o + n -> is_Some (ct p x).

Definition file_data (ct : Cache.content) (p : list ascii) (o n : Z) : list ascii :=
  map (default Ascii.zero) (Cache.file_bytes ct p o n).

Lemma file_data_length ct p o n : 0 <= n -> zlen (file_data ct p o n) = n.
Proof. intros Hn. unfold file_data, Cache.file_bytes, zlen. rewrite !length_map, length_seq. lia. Qed.

Lemma file_data_app ct p o n m :
  0 <= n -> 0 <= m -> file_data ct p o (n + m) = file_data ct p o n ++ file_data ct p (o + n) m.
Proof. intros Hn Hm. unfold file_data. by rewrite Cache.file_bytes_app, map_app by done. Qed.

(** Known bytes are those of the file. *)
Lemma file_bytes_data ct p o n :
  Forall is_Some (Cache.file_bytes ct p o n) -> Cache.file_bytes ct p o n = map Some (file_data ct p o n).
Proof.
  intros Hs. unfold file_data. rewrite map_map. induction Hs as [|x l [c ->] _ IH]; [done|].
  simpl. by rewrite <- IH.
Qed.

(** Putting the bytes of the file changes nothing. *)
Lemma overwrite_same ct p o n :
  0 <= n -> has_bytes ct p o n -> Cache.overwrite ct p o (file_data ct p o n) ≡ ct.
Proof.
  intros Hn Hb p' x.
  destruct (decide (p' = p /\ o <= x < o + n)) as [[-> Hx]|Hout].
  - rewrite Cache.overwrite_in by (by rewrite file_data_length).
    unfold file_data, Cache.file_bytes. rewrite !list_lookup_fmap, lookup_seq_lt by lia. simpl.
    replace (o + Z.of_nat (Z.to_nat (x - o))) with x by lia.
    destruct (Hb x Hx) as [c Hc]. by rewrite Hc.
  - apply Cache.overwrite_out. rewrite file_data_length by done.
    destruct (decide (p' = p)); [right; naive_solver | by left].
Qed.

(** A vector of a file that goes in one compound. *)
Definition fits (v : viovec) : Prop :=
  exists ov, Iovec.iov_ok Nfs4.CPD_LIMIT v ov /\ Iovec.CPDSIZE + ov + length v <= Nfs4.CPD_LIMIT.

Lemma fits_less v a : fits v -> file a = file v -> 0 <= length a <= length v -> fits a.
Proof.
  intros (ov & [Hov Hpos Hl Hs] & Hfit) Hf Hla. exists ov. split; [|lia]. split; [|done|lia|lia].
  unfold Iovec.tc_get_iov_overhead in *. by rewrite Hf.
Qed.

(** Two vectors for the same bytes and the same buffer. *)
Definition same_io (a b : viovec) : Prop :=
  file a = file b /\ offset a = offset b /\ length a = length b /\ data a = data b.

Section reads.
Context {CM CD W : Type} `{Cache.PocoLaws CM nat} `{Cache.PocoLaws CD Cache.DataBlock} `{MemoryLaws W}.
Context (block_size : Z) (Hbs : 0 < block_size < 2 ^ 31).
Context (now : Z) (junk_stat : avals) (junk_time : nat -> Z).
Context (export : option (Nfs4.obj_ops W)) (detects : bool) (malloc_ok : nat -> bool).
Context (fuel : nat) (junk : Z).
Notation state := (cstate CM CD W).
(** The bytes of the files on the server. *)
Context (served : W -> Cache.content).

(** What the layer below promises: one read of a file given by path puts the bytes of the
    file into the buffer and leaves memory before it alone, and attributes are returned. *)
Class ReadServer : Prop := {
  read_ok : forall v p attrs t w,
    type (file v) = VFILE_PATH -> path (file v) = Some p -> fits v -> 0 < length v ->
    0 <= offset v -> offset v + length v < 2 ^ 64 -> 0 <= data v -> data v + length v <= 2 ^ 64 ->
    has_bytes (served w) p (offset v) (length v) -> List.length attrs = 1%nat ->
    exists r v' old attrs' t' w',
      Nfs4.nfs4_readv export detects malloc_ok fuel junk [v] attrs t w = done (r, [v'], old, attrs', t', w')
      /\ vokay r = true /\ same_io v' v
      /\ served w' = served w
      /\ load (data v) (length v) w' = file_data (served w) p (offset v) (length v)
      /\ (forall a n, 0 <= n -> a + n <= data v -> load a n w' = load a n w);
  served_store : forall a l w, served (store a l w) = served w;
  getattr_ok : forall a t w p x, is_path a -> path (attr_file a) = Some p -> is_Some (served w p x) ->
    exists r a' t' w', Nfs4.nfs4_lgetattrsv export detects malloc_ok fuel [a] t w = done (r, [a'], t', w')
      /\ vokay r = true /\ served w' = served w /\ (forall a n, load a n w' = load a n w)
}.

Definition dc_coherent (ct : Cache.content) (d : Cache.TC_DataCache CD) : Prop :=
  List.length d = Cache.kNumCacheShards /\ Forall (Cache.coherent block_size ct) d.

(** The metadata cache is well formed, and what the data cache offers is on the server. *)
Record good (s : state) : Prop := {
  g_md : md_ok (md s);
  g_dc : dc_coherent (served (world s)) (dataCache s)
}.

(** The blocks of [p] in the cache allow a read at [o]. *)
Definition readable (d : Cache.TC_DataCache CD) (p : list ascii) (o : Z) : Prop :=
  forall sh, d !! Cache.shard p = Some sh ->
    Cache.gapless block_size sh p /\ Cache.reaches block_size sh p o.

(** ** The data cache *)

Lemma shard_of ct d p : dc_coherent ct d ->
  exists sh, d !! Cache.shard p = Some sh /\ Cache.coherent block_size ct sh.
Proof.
  intros [Hl Hco]. destruct (lookup_lt_is_Some_2 d (Cache.shard p)) as [sh Hsh].
  { rewrite Hl. apply Cache.shard_bound. }
  exists sh. split; [done|]. by eapply Forall_lookup_1.
Qed.

Lemma dc_set ct d p sh : dc_coherent ct d -> Cache.coherent block_size ct sh ->
  dc_coherent ct (<[Cache.shard p := sh]> d).
Proof.
  intros [Hl Hco] Hsh. split; [etrans; [apply length_insert | done] | by apply Forall_insert].
Qed.

Lemma dc_get_ok ct d p o n :
  dc_coherent ct d -> Cache.no_digit_end p -> readable d p o ->
  0 <= o -> 0 <= n < 2 ^ 31 -> o + n + block_size <= 2 ^ 64 ->
  n + 2 * block_size <= Z.of_nat fuel * block_size ->
  exists h rv d', Cache.dc_get block_size now fuel p o n d
    = done (h, map Some (file_data ct p o h), rv, d')
  /\ 0 <= h <= n /\ dc_coherent ct d'.
Proof.
  intros Hd Hp Hr Ho Hn Hb Hf. destruct (shard_of ct d p Hd) as (sh & Hsh & Hco).
  destruct (Hr sh Hsh) as [Hg Hre]. unfold Cache.dc_get, Cache.on_shard.
  unfold Cache.TC_DataCache in *. rewrite Hsh. destruct (decide (n < block_size)) as [Hs|Hs].
  - exists 0, false, (<[Cache.shard p := sh]> d). unfold Cache.get.
    rewrite (proj2 (Z.ltb_lt _ _) Hs). split; [done|]. split; [lia|]. by apply dc_set.
  - destruct (Cache.get_ok block_size Hbs ct now p o n fuel sh) as [[[[h out] rv] sh'] [-> Hres]];
      try done; try lia.
    destruct Hres as (Hco' & _ & Hh & -> & Hsome & _ & _).
    exists h, rv, (<[Cache.shard p := sh']> d). rewrite <- file_bytes_data by done.
    split; [done|]. split; [done|]. by apply dc_set.
Qed.

Lemma dc_put_ok ct d p o n :
  dc_coherent ct d -> Cache.no_digit_end p -> has_bytes ct p o n ->
  0 <= o -> 0 <= n -> o + n + block_size <= 2 ^ 64 -> n < Z.of_nat fuel * block_size ->
  exists d', Cache.dc_put block_size now fuel p o n (file_data ct p o n) d = done (tt, d')
  /\ dc_coherent ct d'.
Proof.
  intros Hd Hp Hby Ho Hn Hb Hf. destruct (shard_of ct d p Hd) as (sh & Hsh & Hco).
  unfold Cache.dc_put, Cache.on_shard. unfold Cache.TC_DataCache in *. rewrite Hsh.
  destruct (decide (n < block_size)) as [Hs|Hs].
  - unfold Cache.put. rewrite (proj2 (Z.ltb_lt _ _) Hs). eexists. split; [done|]. by apply dc_set.
  - pose proof (file_data_length ct p o n Hn) as Hz.
    destruct (Cache.put_ok block_size Hbs now p o (file_data ct p o n) fuel ct sh) as [sh' [E Hco']];
      try done; try lia.
    rewrite Hz in E. rewrite E. rewrite overwrite_same in Hco' by done.
    eexists. split; [done|]. by apply dc_set.
Qed.

(** ** One vector *)

Context `{RS : ReadServer}.
Context (p : list ascii) (v : viovec).
Context (Htype : type (file v) = VFILE_PATH) (Hpath : path (file v) = Some p).
Context (Hdigit : Cache.no_digit_end p) (Hfits : fits v).
Context (Hoff : 0 <= offset v) (Hlen : 0 < length v < 2 ^ 31).
Context (Hend : offset v + length v + block_size <= 2 ^ 64).
Context (Hmem : 0 <= data v /\ data v + length v <= 2 ^ 64).
Context (Hfuel : length v + 2 * block_size <= Z.of_nat fuel * block_size).

(** The caches are good, the files on the server are [ct], and the first [h] bytes of the
    buffer are those of the file. *)
Definition has_read (ct : Cache.content) (h : Z) (s : state) : Prop :=
  good s /\ served (world s) = ct /\ load (data v) h (world s) = file_data ct p (offset v) h.

Lemma has_read_0 s : good s -> has_read (served (world s)) 0 s.
Proof. intros Hs. split; [done|]. split; [done|]. by rewrite load_0. Qed.

(** A step that leaves the data cache and the world alone. *)
Lemma has_read_md ct h s m :
  has_read ct h s -> md_ok m ->
  has_read ct h (mk_cstate m (dataCache s) (fd_to_path_map s) (g_miss_count s) (fds s) (world s)).
Proof. intros ([_ Hd] & Hct & Hl) Hm. split; [|split; [exact Hct | exact Hl]]. split; [exact Hm | exact Hd]. Qed.

Lemma lookup_read ct h q s : has_read ct h s ->
  exists e s', md_lookup q s = done (e, s') /\ has_read ct h s'.
Proof.
  intros Hs. unfold md_lookup, on_md.
  destruct (md_get_spec q (md s)) as (Hm & _); [by destruct Hs as [[] _]|].
  destruct (md_get q (md s)) as [e m]. exists e. eexists. split; [done|]. by apply has_read_md.
Qed.

Lemma get_path_read (f : vfile) (s : state) : f = file v -> get_path f s = done (p, s).
Proof. intros ->. unfold get_path, need. by rewrite Htype, Hpath. Qed.

Definition probe_ok (ct : Cache.content) (q : probe) (s : state) : Prop :=
  same_io (p_iov q) v /\ 0 <= p_hit q <= length v /\ has_read ct (p_hit q) s.

Lemma eof_same a de : same_io a v -> same_io (eof_if_past a de) v.
Proof. intros Ha. unfold eof_if_past. by destruct (getFileSize de <=? _). Qed.

Lemma has_read_less ct h s : has_read ct h s -> has_read ct 0 s.
Proof. intros (Hg & Hct & _). split; [done|]. split; [done|]. by rewrite load_0. Qed.

Lemma probe_spec s :
  good s -> readable (dataCache s) p (offset v) ->
  exists q s', probe_iov block_size now fuel v s = done (q, s')
               /\ probe_ok (served (world s)) q s'.
Proof.
  intros Hs Hr. set (ct := served (world s)).
  unfold probe_iov. rewrite (bool_decide_eq_true_2 _ Htype). cbn [negb andb].
  rewrite (bind_done _ _ _ _ _ (get_path_read (file v) s eq_refl)).
  destruct (dc_get_ok ct (dataCache s) p (offset v) (length v)) as (h & rv & d' & E & Hh & Hd');
    try done; try lia; [by destruct Hs|].
  erewrite bind_done; [|unfold on_data, fbind; rewrite E; reflexivity]. cbv beta iota.
  erewrite bind_done; [|reflexivity]. erewrite bind_done; [|reflexivity]. cbn [world md dataCache
    fd_to_path_map g_miss_count fds].
  set (s1 := mk_cstate _ _ _ _ _ _).
  assert (has_read ct h s1) as Hr1.
  { split; [split; [by destruct Hs|]|].
    - simpl. by rewrite served_store.
    - split; [simpl; by rewrite served_store|]. simpl.
      rewrite <- (file_data_length ct p (offset v) h) at 1 by lia. apply load_store. }
  assert (same_io v v) as Hv by done.
  destruct (h =? 0) eqn:Eh; reflect_bools.
  { exists (mk_probe v 0 false), s1. split; [done|]. split; [done|]. split; [simpl; lia|].
    by eapply has_read_less. }
  destruct (lookup_read ct h p s1 Hr1) as (e & s2 & E2 & Hr2).
  rewrite (bind_done _ _ _ _ _ E2). rewrite (u64_small h) by lia.
  destruct e as [[i de]|].
  - destruct (negb rv && (now - timestamp_ de <=? MD_REFRESH_TIME)).
    + eexists _, s2. split; [reflexivity|]. split; [by apply eof_same|]. split; [simpl; lia | done].
    + eexists _, s2. split; [reflexivity|]. split; [done|]. split; [simpl; lia | done].
  - eexists _, s2. split; [reflexivity|]. split; [done|]. split; [simpl; lia|]. by eapply has_read_less.
Qed.

(** The validation of what was found keeps it or drops it. *)
Lemma validate_spec ct q s a :
  probe_ok ct q s ->
  exists q' s', validate_probes [q] [a] s = done ([q'], s') /\ probe_ok ct q' s'.
Proof.
  intros Hq. pose proof Hq as (Hio & Hh & Hr). cbn [validate_probes].
  destruct (p_reval q); [|by exists q, s].
  erewrite bind_done; [|apply get_path_read; apply Hio].
  destruct (lookup_read ct _ p s Hr) as (e & s2 & E2 & Hr2). rewrite (bind_done _ _ _ _ _ E2).
  erewrite bind_done; [|reflexivity]. cbv zeta. erewrite bind_done; [|reflexivity].
  destruct e as [[i de]|]; [destruct (validate _ de)|]; eexists _, s2; (split; [reflexivity|]).
  - split; [by apply eof_same | done].
  - split; [done|]. split; [simpl; lia|]. by eapply has_read_less.
  - split; [done|]. split; [simpl; lia|]. by eapply has_read_less.
Qed.

(** What is left to read after [h] bytes. *)
Definition rest_io (h : Z) (a : viovec) : Prop :=
  file a = file v /\ offset a = offset v + h /\ length a = length v - h /\ data a = data v + h.

Lemma split_spec ct q (s : state) :
  probe_ok ct q s ->
  exists h, 0 <= h <= length v /\ has_read ct h s /\
  ((h = length v /\ split_probes None [q] s = done ([], [true], s))
   \/ (h < length v /\ exists a, split_probes None [q] s = done ([a], [false], s) /\ rest_io h a)).
Proof.
  intros ((Hf & Ho & Hl & Hd) & Hh & Hr). exists (p_hit q). split; [done|]. split; [done|].
  cbn [split_probes]. destruct (p_hit q =? 0) eqn:E0; reflect_bools.
  - right. split; [lia|]. exists (p_iov q). split; [done|]. rewrite E0.
    unfold rest_io. rewrite Hf, Ho, Hl, Hd. split_and!; [done | lia..].
  - destruct (length (p_iov q) <=? p_hit q) eqn:E1; reflect_bools.
    + left. split; [lia | done].
    + right. split; [lia|]. eexists. split; [done|]. unfold rest_io. simpl.
      rewrite Ho, Hl, Hd, !u64_small by lia. done.
Qed.

Lemma check_spec s :
  good s -> readable (dataCache s) p (offset v) ->
  has_bytes (served (world s)) p (offset v) (length v) ->
  let ct := served (world s) in
  exists w h s', same_io w v /\ 0 <= h <= length v /\ has_read ct h s' /\
  ((h = length v /\ check_dataCache block_size now export detects malloc_ok fuel [v] s
                    = done ([w], [], [true], s'))
   \/ (h < length v /\ exists a,
        check_dataCache block_size now export detects malloc_ok fuel [v] s
        = done ([w], [a], [false], s') /\ rest_io h a)).
Proof.
  intros Hs Hr Hb ct. destruct (probe_spec s Hs Hr) as (q & s1 & E1 & Hq). fold ct in Hq.
  assert (forall q s1, probe_ok ct q s1 ->
    exists h, 0 <= h <= length v /\ has_read ct h s1 /\
    ((h = length v /\ (split_probes None [q] ≫= fun '(final, hits) => mret (map p_iov [q], final, hits)) s1
                      = done ([p_iov q], [], [true], s1))
     \/ (h < length v /\ exists a,
          (split_probes None [q] ≫= fun '(final, hits) => mret (map p_iov [q], final, hits)) s1
          = done ([p_iov q], [a], [false], s1) /\ rest_io h a))) as Hfinish.
  { intros q' s' Hq'. destruct (split_spec ct q' s' Hq') as (h & Hh & Hrd & [[Eh E]|[Eh (a & E & Ha)]]);
      exists h; (split; [done|]; split; [done|]); [left | right]; (split; [done|]).
    - by rewrite (bind_done _ _ _ _ _ E).
    - exists a. by rewrite (bind_done _ _ _ _ _ E). }
  unfold check_dataCache. erewrite bind_done.
  2: { cbn [each]. rewrite (bind_done _ _ _ _ _ E1). reflexivity. }
  cbv zeta. unfold reval_attrs. rewrite filter_cons. destruct (decide (p_reval q = true)) as [Hv|Hv].
  2: { cbn [filter list_filter map].
       destruct (Hfinish q s1 Hq) as (h & Hh & Hrd & Hcase).
       exists (p_iov q), h, s1. split; [apply Hq|]. split; [done|]. split; [done|]. exact Hcase. }
  cbn [filter list_filter map].
  pose proof Hq as ((Hf & _) & _ & Hrd1).
  destruct (getattr_ok (mk_attrs (file (p_iov q)) VMASK_INIT_ALL (vals zero_attrs)) (fds s1) (world s1) p (offset v))
    as (r & a' & t' & w' & Ea & Hok & Hsv & Hld).
  { split; simpl; rewrite Hf; [done | by eexists]. }
  { simpl. by rewrite Hf. }
  { destruct Hrd1 as (_ & -> & _). apply Hb. lia. }
  set (s2 := mk_cstate (md s1) (dataCache s1) (fd_to_path_map s1) (g_miss_count s1) t' w').
  erewrite bind_done.
  2: { unfold below. rewrite Ea. unfold fbind, done. cbn [obind]. reflexivity. }
  fold s2. cbv beta iota. rewrite Hok.
  assert (probe_ok ct q s2) as Hq2.
  { destruct Hq as (Hio & Hh & ([Hm Hd] & Hct & Hl)). split; [done|]. split; [done|].
    split; [split; simpl; [done | by rewrite Hsv]|]. simpl. split; [by rewrite Hsv | by rewrite Hld]. }
  destruct (validate_spec ct q s2 a' Hq2) as (q' & s3 & E3 & Hq3).
  rewrite (bind_done _ _ _ _ _ E3). destruct (Hfinish q' s3 Hq3) as (h & Hh & Hrd & Hcase).
  exists (p_iov q'), h, s3. split; [apply Hq3|]. split; [done|]. split; [done|]. exact Hcase.
Qed.

(** The name of a vector of [p] is not replaced by a handle. *)
Lemma update_one ct h a s : file a = file v -> has_read ct h s ->
  exists s', nfs_updateIovec_FilenameToFh true [a] s = done ([a], [file v], s') /\ has_read ct h s'.
Proof.
  intros Hf Hr. destruct (FilenameToFh_same true (file a) s) as (m & E & Hm).
  { by destruct Hr as [[] _]. }
  { rewrite Hf, Hpath. by eexists. }
  eexists. split; [|by apply has_read_md].
  unfold nfs_updateIovec_FilenameToFh. cbn [each].
  unfold mbind, M_bind, fbind. rewrite E. unfold mret, M_ret, done. simpl. rewrite Hf.
  do 5 f_equal. rewrite <- Hf. by destruct a.
Qed.


(** The bytes of the rest of the read, put into the cache. *)
Lemma update_cache_spec ct h w a s :
  same_io w v -> rest_io h a -> 0 <= h < length v -> has_bytes ct p (offset v) (length v) ->
  has_read ct (length v) s ->
  exists w' s', update_dataCache block_size now fuel [w] [a] [false] s = done ([w'], s')
  /\ same_io w' v /\ has_read ct (length v) s'.
Proof.
  intros (Hf & Ho & Hl & Hd) (Hfa & Hoa & Hla & Hda) Hh Hb Hr. cbn [update_dataCache head tail].
  erewrite bind_done; [|reflexivity].
  rewrite Hf, Htype. rewrite (bool_decide_eq_true_2 (VFILE_PATH = VFILE_PATH)) by done.
  rewrite andb_false_r.
  pose proof Hr as ([Hm Hdc] & Hct & Hld). rewrite Hct in Hdc.
  assert (load (data a) (length a) (world s) = file_data ct p (offset a) (length a)) as Hload.
  { pose proof (load_app (data v) h (length v - h) (world s) ltac:(lia) ltac:(lia)) as Hs.
    replace (h + (length v - h)) with (length v) in Hs by lia.
    rewrite Hld in Hs. replace (length v) with (h + (length v - h)) in Hs at 1 by lia.
    rewrite file_data_app in Hs by lia. rewrite Hda, Hla, Hoa.
    apply app_inj_1 in Hs as [_ Hs]; [done|].
    pose proof (load_length (data v) h (world s) ltac:(lia)).
    pose proof (file_data_length ct p (offset v) h ltac:(lia)). unfold zlen in *. lia. }
  destruct (dc_put_ok ct (dataCache s) p (offset a) (length a)) as (d' & E & Hd');
    try done; try lia.
  { intros x Hx. apply Hb. lia. }
  erewrite bind_done.
  2: { erewrite bind_done; [|apply get_path_read; reflexivity].
       erewrite bind_done; [|reflexivity].
       erewrite bind_done; [reflexivity|]. unfold on_data, fbind. rewrite Hload, E. reflexivity. }
  eexists _, _. split; [reflexivity|]. split.
  - unfold same_io. simpl. rewrite Ho, Hla, Hoa, u64_small by lia. split_and!; [done | done | lia | done].
  - split; [split; simpl; [done | by rewrite Hct]|]. done.
Qed.

Lemma add_misses_read ct h n s : has_read ct h s ->
  exists s', add_misses n s = done (tt, s') /\ has_read ct h s'.
Proof. intros ([Hm Hd] & Hct & Hl). eexists. split; [reflexivity|]. by split; [split|split]. Qed.

Lemma readv_spec s :
  good s -> readable (dataCache s) p (offset v) ->
  has_bytes (served (world s)) p (offset v) (length v) ->
  exists r w s',
    nfs_readv block_size now junk_stat junk_time export detects malloc_ok fuel junk true [v] s
    = done (r, [w], s')
  /\ vokay r = true /\ same_io w v /\ has_read (served (world s)) (length v) s'.
Proof.
  intros Hs Hrd Hb. set (ct := served (world s)) in *.
  destruct (check_spec s Hs Hrd Hb) as (w & h & s1 & Hw & Hh & Hr1 & Hcase). fold ct in Hr1.
  unfold nfs_readv. cbn [negb List.length].
  destruct Hcase as [[Eh E]|[Eh (a & E & Ha)]]; rewrite (bind_done _ _ _ _ _ E); cbv beta iota.
  { erewrite bind_done; [|reflexivity]. cbv beta iota. erewrite bind_done; [|reflexivity].
    eexists _, w, _. split; [reflexivity|]. split; [done|]. split; [done|]. rewrite <- Eh.
    destruct (add_misses_read ct h 0 s1 Hr1) as (s2 & E2 & Hr2).
    unfold add_misses, done in E2. by simplify_eq. }
  destruct (update_one ct h a s1) as (s2 & E2 & Hr2); [apply Ha | done |].
  rewrite (bind_done _ _ _ _ _ E2). cbv beta iota. cbn [List.length].
  destruct (add_misses_read ct h 1 s2 Hr2) as (s3 & E3 & Hr3).
  rewrite (bind_done _ _ _ _ _ E3).
  pose proof Ha as (Hfa & Hoa & Hla & Hda). pose proof Hr3 as ([Hm3 Hd3] & Hct3 & Hld3).
  destruct (read_ok a p [zero_attrs] (fds s3) (world s3))
    as (r & a' & old & attrs' & t' & w' & Er & Hok & (Hf' & Ho' & Hl' & Hd') & Hsv & Hload & Hframe).
  { by rewrite Hfa. }
  { by rewrite Hfa. }
  { apply (fits_less v); [done | done | lia]. }
  1-5: lia.
  { intros x Hx. rewrite Hct3. apply Hb. lia. }
  { done. }
  set (s4 := mk_cstate (md s3) (dataCache s3) (fd_to_path_map s3) (g_miss_count s3) t' w').
  erewrite bind_done.
  2: { unfold below. cbn [replicate]. rewrite Er. unfold fbind, done. cbn [obind]. reflexivity. }
  fold s4. cbv beta iota. rewrite Hok.
  assert (has_read ct (length v) s4) as Hr4.
  { split; [split; simpl; [done | by rewrite Hsv]|]. simpl. split; [congruence|].
    replace (length v) with (h + (length v - h)) by lia.
    rewrite load_app, file_data_app by lia. f_equal.
    - rewrite Hframe by lia. done.
    - rewrite <- Hda, <- Hoa, <- Hla, Hload. by rewrite Hct3. }
  assert (nfs_restoreIovec_FhToFilename [a'] [file v] = [set_file a' (file v)]) as -> by done.
  assert (rest_io h (set_file a' (file v))) as Ha' by (unfold rest_io; simpl; split_and!; [done|lia..]).
  assert (exists s5, each (cache_attrs now junk_stat junk_time)
            (zip [set_file a' (file v)] attrs') s4 = done (replicate (List.length (take 1 attrs')) tt, s5)
          /\ has_read ct (length v) s5) as (s5 & E5 & Hr5).
  { destruct attrs' as [|at1 attrs']; [by exists s4|]. cbn [zip each].
    eexists. split.
    - erewrite bind_done; [reflexivity|]. unfold cache_attrs. cbn [file set_file].
      rewrite Htype, (bool_decide_eq_true_2 (VFILE_PATH = VFILE_PATH)) by done. cbn [orb].
      erewrite bind_done; [|by apply get_path_read]. reflexivity.
    - apply has_read_md; [done|]. by apply md_add_ok; [destruct Hr4 as [[] _]|..]. }
  rewrite (bind_done _ _ _ _ _ E5).
  destruct (update_cache_spec ct h w (set_file a' (file v)) s5) as (w2 & s6 & E6 & Hw2 & Hr6);
    try done; [lia|].
  rewrite (bind_done _ _ _ _ _ E6). by eexists _, _, _.
Qed.


End reads.

(** ** The layer below, over an FSAL that reads *)

(** What the operations of the FSAL promise: a read of one vector puts the bytes of the
    file into the buffer, and leaves memory before it and the files alone; asking for the
    attributes of one file returns one answer. *)
Class FsalRead {W} `{Memory W} (served : W -> Cache.content) (o : Nfs4.obj_ops W) : Prop := {
  fsal_read : forall v p attrs w,
    type (file v) = VFILE_PATH -> path (file v) = Some p -> 0 < length v ->
    has_bytes (served w) p (offset v) (length v) ->
    exists f e v' attrs' w', Nfs4.vec_read o = Some f
      /\ f [v] attrs w = (mk_vres 1 0, [v'], attrs', w') /\ v' = set_eof v e
      /\ served w' = served w
      /\ load (data v) (length v) w' = file_data (served w) p (offset v) (length v)
      /\ (forall a n, 0 <= n -> a + n <= data v -> load a n w' = load a n w);
  fsal_store : forall a l w, served (store a l w) = served w;
  fsal_getattr : forall a w p x, is_path a -> path (attr_file a) = Some p -> is_Some (served w p x) ->
    exists a' w', Nfs4.vec_lgetattrs o [a] w = (mk_vres 1 0, [a'], w')
      /\ attr_file a' = attr_file a /\ served w' = served w /\ (forall a n, load a n w' = load a n w)
}.

Section fsal.
Context {W : Type} `{Memory W} (served : W -> Cache.content) (o : Nfs4.obj_ops W).
Context `{FR : !FsalRead served o}.
Context (detects : bool) (malloc_ok : nat -> bool) (junk : Z) (fuel : nat).

Lemma split_single v : fits v -> 0 <= length v ->
  Iovec.tc_split_iov_array (S (S fuel)) [v] Nfs4.CPD_LIMIT = done [[Iovec.piece v 0 (length v)]].
Proof.
  intros (ov & Hok & Hfit) Hl. unfold Iovec.tc_split_iov_array.
  change Nfs4.CPD_LIMIT with 1048576 in *. change Iovec.CPDSIZE with 488 in *.
  rewrite (Iovec.split_fit _ v ov); change Iovec.CPDSIZE with 488; [by rewrite Z.sub_0_r | done | lia..].
Qed.

(** The part that went out comes back with its end-of-file flag. *)
Lemma restore_single v e p :
  type (file v) = VFILE_PATH -> path (file v) = Some p -> 0 <= length v < 2 ^ 64 ->
  Iovec.vrestore_iov_array [v] [[set_eof (Iovec.piece v 0 (length v)) e]] = Ok ([set_eof v e], true).
Proof.
  intros Ht Hp Hl.
  assert (Iovec.match_ ([v], O, 0) (set_eof (Iovec.piece v 0 (length v)) e) = Ok true) as Hm.
  { cbn. unfold tc_cmp_file. rewrite bool_decide_true, Ht, Hp by done. cbn.
    by rewrite bool_decide_true, Z.eqb_refl by done. }
  unfold Iovec.vrestore_iov_array. cbn [Iovec.restore_parts Iovec.restore_part].
  rewrite Hm. cbn [obind negb]. rewrite Hm. cbn. rewrite u64_small, Z.eqb_refl, orb_true_r by lia.
  cbn. by destruct v.
Qed.

(** One element takes one compound. *)
Lemma drive_one {X} (op : nat -> nat -> X -> vres * X) tcres x x' :
  op 0%nat 1%nat x = (mk_vres 1 0, x') ->
  Nfs4.drive (S (S fuel)) op 1 0 tcres x = done (mk_vres 1 0, x').
Proof. intros E. cbn. by rewrite E. Qed.

(** One read of a path through the driver of the vectors. *)
Lemma fsal_do v p attrs t w :
  type (file v) = VFILE_PATH -> path (file v) = Some p -> fits v -> 0 < length v ->
  0 <= offset v -> offset v + length v < 2 ^ 64 -> 0 <= data v -> data v + length v <= 2 ^ 64 ->
  has_bytes (served w) p (offset v) (length v) ->
  exists v' attrs' w',
    Nfs4.nfs4_readv (Some o) detects malloc_ok (S (S fuel)) junk [v] attrs t w
    = done (mk_vres 1 0, [v'], [], attrs', t, w')
    /\ same_io v' v /\ served w' = served w
    /\ load (data v) (length v) w' = file_data (served w) p (offset v) (length v)
    /\ (forall a n, 0 <= n -> a + n <= data v -> load a n w' = load a n w).
Proof.
  intros Ht Hp Hfit Hl Ho Hol Hd Hdl Hb.
  unfold Nfs4.nfs4_readv, Nfs4.nfs4_do_iovec. cbn [map].
  set (v0 := mk_iov (file v) _ _ _ _ _ _ _ _ _ _).
  unfold Nfs4.nfs4_fill_fd_iovecs. cbn [Nfs4.fill_loop]. change (file v0) with (file v).
  rewrite Ht, (bool_decide_eq_false_2 (VFILE_PATH = VFILE_DESCRIPTOR)) by done. cbn [app obind].
  change (negb (0 =? 0)) with false. cbv iota.
  assert (0 <= length v0 < 2 ^ 64) as Hl0 by (simpl; lia).
  assert (fits v0) as Hfit0 by (apply (fits_less v); [done | done | simpl; lia]).
  rewrite (split_single v0) by (done || lia). unfold fbind at 1, done at 1. cbn [obind].
  set (q := Iovec.piece v0 0 (length v0)).
  assert (offset q = offset v /\ data q = data v) as [Hoq Hdq].
  { subst q v0. simpl. rewrite !Z.add_0_r, !u64_small by lia. done. }
  destruct (fsal_read q p attrs w) as (f & e & q' & attrs' & w' & Ef & Er & -> & Hsv & Hld & Hfr);
    [done | done | done | by rewrite Hoq |].
  cbn [Nfs4.parts_loop List.length take drop app]. unfold Nfs4.nfs4_do_readv. rewrite Ef.
  erewrite drive_one; [|unfold Nfs4.slice_of; rewrite !drop_0; cbn [take]; by rewrite Er].
  unfold fbind, done. cbn [obind vokay err_no]. cbn.
  change (set_eof q e) with (set_eof (Iovec.piece v0 0 (length v0)) e).
  rewrite (restore_single v0 e p) by done. cbn. rewrite Ht. cbn.
  eexists _, _, w'. split; [reflexivity|]. split; [done|]. split; [done|].
  rewrite <- Hdq. split; [|done]. by rewrite <- Hoq.
Qed.

(** The attributes of one path. *)
Lemma fsal_attrs a p x t w :
  is_path a -> path (attr_file a) = Some p -> is_Some (served w p x) ->
  exists a' w',
    Nfs4.nfs4_lgetattrsv (Some o) detects malloc_ok (S (S fuel)) [a] t w = done (mk_vres 1 0, [a'], t, w')
    /\ served w' = served w /\ (forall a n, load a n w' = load a n w).
Proof.
  intros Ha Hp Hx. destruct (fsal_getattr a w p x Ha Hp Hx) as (a' & w' & E & Hf & Hsv & Hld).
  unfold Nfs4.nfs4_lgetattrsv, Nfs4.attrs_op, Nfs4.nfs4_process_vfiles. cbn [Nfs4.process_loop].
  destruct Ha as [Ht _]. rewrite Ht, (bool_decide_eq_false_2 (VFILE_PATH = VFILE_DESCRIPTOR)) by done.
  cbn -[Nfs4.drive].
  erewrite drive_one; [|unfold Nfs4.in_place; rewrite drop_0; cbn [take]; by rewrite E].
  cbn.
  eexists _, w'. split; [reflexivity | done].
Qed.

#[export] Instance fsal_server : ReadServer (Some o) detects malloc_ok (S (S fuel)) junk served.
Proof.
  split.
  - intros v p attrs t w Ht Hp Hfit Hl Ho Hol Hd Hdl Hb _.
    destruct (fsal_do v p attrs t w) as (v' & attrs' & w' & E & Hrest); try done.
    by eexists _, v', _, attrs', _, w'.
  - apply fsal_store.
  - intros a t w p x Ha Hp Hx. destruct (fsal_attrs a p x t w Ha Hp Hx) as (a' & w' & E & Hrest).
    by eexists _, a', _, w'.
Qed.

End fsal.

(** ** The theorem *)

Definition readable_b {CD} `{Cache.Poco CD Cache.DataBlock} (block_size : Z)
    (d : Cache.TC_DataCache CD) (p : list ascii) (o : Z) : bool :=
  match d !! Cache.shard p with
  | None => true
  | Some sh =>
      Cache.gapless_b block_size sh p &&
      match Cache.contents (Cache.base sh) !! Cache.GetBlockKey p (o / block_size) with
      | None => true
      | Some b => negb (Cache.start_idx b =? 0) || (o mod block_size <=? Cache.len b)
      end
  end.

Lemma readable_b_sound {CD} `{Cache.Poco CD Cache.DataBlock} block_size (d : Cache.TC_DataCache CD) p o :
  readable_b block_size d p o = true -> readable block_size d p o.
Proof.
  unfold readable_b. intros Hb sh Hsh. unfold Cache.TC_DataCache in *. rewrite Hsh in Hb.
  apply andb_prop in Hb as [Hg Hr]. split; [by apply Cache.gapless_b_sound|].
  intros b E Hs. rewrite E, Hs in Hr. cbn in Hr. by apply Z.leb_le.
Qed.


(** A client memory, and a server with one file of twenty bytes. *)
Definition ram : Type := Z -> ascii.

#[export] Instance ram_memory : Memory ram := {
  load a n w := map (fun i => w (a + Z.of_nat i)) (seq 0 (Z.to_nat n));
  store a l w x :=
    if a <=? x then match l !! Z.to_nat (x - a) with Some (Some c) => c | _ => w x end else w x
}.

#[export] Instance ram_laws : MemoryLaws ram.
Proof.
  split.
  - intros a n w Hn. unfold zlen. simpl. rewrite length_map, length_seq. lia.
  - intros a bs w. simpl. unfold zlen. rewrite Nat2Z.id. apply list_eq. intros i.
    rewrite list_lookup_fmap. destruct (decide (i < List.length bs)%nat) as [Hi|Hi].
    + rewrite lookup_seq_lt by done. simpl. rewrite (proj2 (Z.leb_le _ _)) by lia.
      replace (Z.to_nat (a + Z.of_nat i - a)) with i by lia. rewrite list_lookup_fmap.
      destruct (lookup_lt_is_Some_2 bs i Hi) as [c ->]. done.
    + rewrite lookup_seq_ge, lookup_ge_None_2 by lia. done.
  - intros a n m w Hn Hm. simpl. rewrite Z2Nat.inj_add, seq_app, map_app by done. f_equal.
    rewrite Nat.add_0_l, <- (Nat.add_0_r (Z.to_nat n)) at 1. rewrite <- fmap_add_seq, map_map.
    apply map_ext. intros i. f_equal. lia.
Qed.

Definition letters : Cache.content := fun p x =>
  if bool_decide (p = Cache.bytes "/f") && (0 <=? x) && (x <? 20)
  then Some (ascii_of_nat (65 + Z.to_nat x)) else None.

Definition letter_ops : Nfs4.obj_ops ram := {|
  Nfs4.vec_read := Some (fun l attrs w =>
    match l with
    | [] => (mk_vres 0 0, l, attrs, w)
    | v :: l => (mk_vres 1 0, set_eof v (offset v + length v =? 20) :: l, attrs,
                 store (data v) (map Some (file_data letters (default [] (path (file v)))
                                             (offset v) (length v))) w)
    end);
  Nfs4.vec_write := None; Nfs4.vec_read_write := None; Nfs4.vec_open := None;
  Nfs4.vec_close _ _ _ w := (mk_vres 1 0, w);
  Nfs4.vec_lgetattrs l w := (mk_vres 1 0, l, w); Nfs4.vec_lsetattrs l w := (mk_vres 1 0, l, w);
  Nfs4.vec_mkdir l w := (mk_vres 1 0, l, w); Nfs4.vec_rename _ w := (mk_vres 1 0, w);
  Nfs4.vec_remove _ w := (mk_vres 1 0, w); Nfs4.vec_lcopy _ w := (mk_vres 1 0, w);
  Nfs4.vec_hardlink _ _ w := (mk_vres 1 0, w); Nfs4.vec_symlink _ _ w := (mk_vres 1 0, w);
  Nfs4.vec_readlink _ b w := (mk_vres 1 0, b, w);
  Nfs4.vec_listdir _ _ _ _ w := (mk_vres 0 0, [], w);
  Nfs4.sca_chdir _ w := (0, w); Nfs4.sca_getcwd _ := []; Nfs4.fullpath := []
|}.

#[export] Instance letter_reads : FsalRead (fun _ : ram => letters) letter_ops.
Proof.
  split.
  - intros v p attrs w Ht Hp Hl Hb. eexists _, _, _, _, _. split; [reflexivity|].
    split; [reflexivity|]. split; [reflexivity|]. split; [done|]. rewrite Hp. cbn [default].
    pose proof (file_data_length letters p (offset v) (length v) ltac:(lia)) as Hz. split.
    + rewrite <- Hz at 1. apply load_store.
    + intros a n Hn Ha. simpl. apply map_ext_in. intros i Hi%in_seq.
      by rewrite (proj2 (Z.leb_gt _ _)) by lia.
  - done.
  - intros a w p x _ _ _. by exists a, w.
Qed.

Definition letter_iov (o n : Z) : viovec :=
  mk_iov (vfile_from_path (Cache.bytes "/f")) o n 1000 0 false false false false false false.

Definition cold : cstate (gmap (list ascii) nat) (gmap (list ascii) Cache.DataBlock) ram :=
  init_caches ∅ ∅ Fds.table0 (fun _ => Ascii.zero).

#[local] Existing Instances Cache.roomy Cache.roomy_laws.

Lemma cold_good : good 4 (fun _ : ram => letters) cold.
Proof.
  split; [by apply (reachable_ok cold), reach_init|]. split; [done|].
  apply Forall_replicate. intros k b Hb. cbn in Hb. by rewrite lookup_empty in Hb.
Qed.

Lemma letter_fits o n : 0 <= n <= 1000 -> fits (letter_iov o n).
Proof.
  intros Hn. set (ov := match Iovec.tc_get_iov_overhead (letter_iov o n) with Ok x => x | _ => 0 end).
  vm_compute in ov. exists ov.
  change Nfs4.CPD_LIMIT with 1048576. change Iovec.CPDSIZE with 488. subst ov. split.
  - split; [reflexivity | vm_compute; intuition discriminate | simpl; lia |].
    change Iovec.CPDSIZE with 488. simpl. lia.
  - simpl. lia.
Qed.

Lemma letters_has o n : 0 <= o -> o + n <= 20 -> has_bytes letters (Cache.bytes "/f") o n.
Proof.
  intros Ho Hn x Hx. unfold letters. rewrite bool_decide_true by done.
  rewrite (proj2 (Z.leb_le _ _)), (proj2 (Z.ltb_lt _ _)) by lia. by eexists.
Qed.


End Reads.
