(* ===== verification/Compounds.v ===== *)
(** The compounds of the client, the operations of [nfs4/handle.c] on arrays: each
    fills the array of operations of a compound with as many elements as fit, sends it,
    and takes the results apart. Module [Cpd]. The network, and the encoding of
    attributes, are parameters. *)

From S2P Require Import Prelude CommonTypes PathSpec PathUtils SessionSlots FdTable TcApi Nfs4Impl DataCache NfsCache.
Import Api Nfs.
Local Open Scope Z_scope.

Module Cpd.

Notation text := (list ascii).

Definition PATH_MAX : nat := 4096.
Definition NFS4_FHSIZE : nat := 128.
Definition MAX_NUM_OPS_PER_COMPOUND : nat := 256.
Definition MAX_BUFS_PER_COMPOUND : nat := MAX_NUM_OPS_PER_COMPOUND * 4.
Definition MAX_READDIRS_PER_COMPOUND : nat := 64.

Definition O_WRONLY : Z := 1.
Definition O_RDWR : Z := 2.
Definition O_CREAT : Z := 64.
Definition O_EXCL : Z := 128.

(** [flags & f] as a condition. *)
Definition has_flag (flags f : Z) : bool := negb (Z.land flags f =? 0).

Definition S_IFMT : Z := 61440.
Definition S_ISDIR (m : Z) : bool := Z.land m S_IFMT =? 16384.

(** ** Attributes *)

Record bitmap4 := mk_bitmap { map0 : Z; map1 : Z; map2 : Z; bitmap4_len : Z }.

(** Encoded attributes: which ones, and their bytes. *)
Record fattr4 := mk_fattr { attrmask : bitmap4; attr_vals : text }.

Definition FATTR4_TYPE : Z := 1.
Definition FATTR4_CHANGE : Z := 3.
Definition FATTR4_SIZE : Z := 4.
Definition FATTR4_FSID : Z := 8.
Definition FATTR4_FILEID : Z := 20.
Definition FATTR4_MODE : Z := 33.
Definition FATTR4_NUMLINKS : Z := 35.
Definition FATTR4_OWNER : Z := 36.
Definition FATTR4_OWNER_GROUP : Z := 37.
Definition FATTR4_RAWDEV : Z := 41.
Definition FATTR4_SPACE_USED : Z := 45.
Definition FATTR4_TIME_ACCESS : Z := 47.
Definition FATTR4_TIME_ACCESS_SET : Z := 48.
Definition FATTR4_TIME_METADATA : Z := 52.
Definition FATTR4_TIME_MODIFY : Z := 53.
Definition FATTR4_TIME_MODIFY_SET : Z := 54.

Definition PXY_ATTR_BIT (b : Z) : Z := Z.shiftl 1 b.
Definition PXY_ATTR_BIT2 (b : Z) : Z := Z.shiftl 1 (b - 32).

Definition bits_of (l : list Z) : Z := foldr Z.lor 0 l.

Definition fs_bitmap_getattr : bitmap4 := mk_bitmap
  (bits_of (map PXY_ATTR_BIT [FATTR4_TYPE; FATTR4_CHANGE; FATTR4_SIZE; FATTR4_FSID; FATTR4_FILEID]))
  (bits_of (map PXY_ATTR_BIT2 [FATTR4_MODE; FATTR4_NUMLINKS; FATTR4_OWNER; FATTR4_OWNER_GROUP;
     FATTR4_SPACE_USED; FATTR4_TIME_ACCESS; FATTR4_TIME_METADATA; FATTR4_TIME_MODIFY; FATTR4_RAWDEV]))
  0 2.

Definition empty_bitmap : bitmap4 := mk_bitmap 0 0 0 2.

(** [bm->map[0] |= b0; bm->map[1] |= b1; bm->bitmap4_len = MAX(bm->bitmap4_len, len)] when
    [b] is set. *)
Definition request (b : bool) (b0 b1 len : Z) (bm : bitmap4) : bitmap4 :=
  if b then mk_bitmap (Z.lor (map0 bm) b0) (Z.lor (map1 bm) b1) (map2 bm) (Z.max (bitmap4_len bm) len)
  else bm.

Definition tc_attr_masks_to_bitmap (mk : vattrs_masks) : bitmap4 :=
  let bm := mk_bitmap 0 0 0 0 in
  let bm := request (has_mode mk) (PXY_ATTR_BIT FATTR4_TYPE) (PXY_ATTR_BIT2 FATTR4_MODE) 2 bm in
  let bm := request (has_size mk) (PXY_ATTR_BIT FATTR4_SIZE) 0 1 bm in
  let bm := request (has_nlink mk) 0 (PXY_ATTR_BIT2 FATTR4_NUMLINKS) 2 bm in
  let bm := request (has_fileid mk) (PXY_ATTR_BIT FATTR4_FILEID) 0 1 bm in
  let bm := request (has_blocks mk) 0 (PXY_ATTR_BIT2 FATTR4_SPACE_USED) 2 bm in
  let bm := request (has_uid mk) 0 (PXY_ATTR_BIT2 FATTR4_OWNER) 2 bm in
  let bm := request (has_gid mk) 0 (PXY_ATTR_BIT2 FATTR4_OWNER_GROUP) 2 bm in
  let bm := request (has_rdev mk) 0 (PXY_ATTR_BIT2 FATTR4_RAWDEV) 2 bm in
  let bm := request (has_atime mk) 0 (PXY_ATTR_BIT2 FATTR4_TIME_ACCESS) 2 bm in
  let bm := request (has_mtime mk) 0 (PXY_ATTR_BIT2 FATTR4_TIME_MODIFY) 2 bm in
  request (has_ctime mk) 0 (PXY_ATTR_BIT2 FATTR4_TIME_METADATA) 2 bm.

(** The attributes of the FSAL interface that the client uses. *)
Inductive object_file_type :=
  | NO_FILE_TYPE | REGULAR_FILE | CHARACTER_FILE | BLOCK_FILE | SYMBOLIC_LINK | SOCKET_FILE
  | FIFO_FILE | DIRECTORY | EXTENDED_ATTR.

Record attrlist := mk_attrlist {
  al_mask : Z;
  al_type : object_file_type;
  al_filesize : Z;
  al_fileid : Z;
  al_mode : Z;
  al_numlinks : Z;
  al_owner : Z;
  al_group : Z;
  al_major : Z;
  al_minor : Z;
  al_atime : timespec;
  al_ctime : timespec;
  al_mtime : timespec;
  al_spaceused : Z
}.

Definition ATTR_TYPE : Z := 2.
Definition ATTR_SIZE : Z := 4.
Definition ATTR_FILEID : Z := 64.
Definition ATTR_MODE : Z := 128.
Definition ATTR_NUMLINKS : Z := 256.
Definition ATTR_OWNER : Z := 512.
Definition ATTR_GROUP : Z := 1024.
Definition ATTR_RAWDEV : Z := 2048.
Definition ATTR_ATIME : Z := 4096.
Definition ATTR_CTIME : Z := 16384.
Definition ATTR_MTIME : Z := 32768.
Definition ATTR_SPACEUSED : Z := 65536.
Definition ATTR_ATIME_SERVER : Z := 2097152.
Definition ATTR_MTIME_SERVER : Z := 4194304.

(** The FSAL attributes and the NFSv4 attributes that set them. *)
Definition fsal_mask2bit : list (Z * Z) :=
  [(ATTR_SIZE, FATTR4_SIZE); (ATTR_MODE, FATTR4_MODE); (ATTR_OWNER, FATTR4_OWNER);
   (ATTR_GROUP, FATTR4_OWNER_GROUP); (ATTR_ATIME, FATTR4_TIME_ACCESS_SET);
   (ATTR_ATIME_SERVER, FATTR4_TIME_ACCESS_SET); (ATTR_MTIME, FATTR4_TIME_MODIFY_SET);
   (ATTR_MTIME_SERVER, FATTR4_TIME_MODIFY_SET); (ATTR_CTIME, FATTR4_TIME_METADATA)].

(** One round of the loop: bits below 32 are first added, then the whole word is
    overwritten with a shift by the mask. *)
Definition add_attr_bit (mask : Z) (bmap : bitmap4) (x : Z * Z) : bitmap4 :=
  if has_flag mask x.1 then
    if 31 <? x.2 then mk_bitmap (map0 bmap) (Z.lor (map1 bmap) (Z.shiftl 1 (x.2 - 32))) (map2 bmap) 2
    else mk_bitmap (u32 (Z.shiftl 1 x.1)) (map1 bmap) (map2 bmap) (bitmap4_len bmap)
  else bmap.

Definition attr_bitmap (mask : Z) : bitmap4 := foldl (add_attr_bit mask) empty_bitmap fsal_mask2bit.

(** [<sys/sysmacros.h>]. *)
Definition makedev (ma mi : Z) : Z :=
  bits_of [Z.land mi 255; Z.shiftl (Z.land ma 4095) 8; Z.shiftl (Z.land mi (2 ^ 32 - 256)) 12;
           Z.shiftl (Z.land ma (2 ^ 32 - 4096)) 32].
Definition major (dev : Z) : Z :=
  Z.lor (Z.land (Z.shiftr dev 8) 4095) (Z.land (Z.shiftr dev 32) (2 ^ 32 - 4096)).
Definition minor (dev : Z) : Z :=
  Z.lor (Z.land dev 255) (Z.land (Z.shiftr dev 12) (2 ^ 32 - 256)).

Definition time0 : timespec := mk_time 0 0.
Definition attrlist0 : attrlist :=
  mk_attrlist 0 NO_FILE_TYPE 0 0 0 0 0 0 0 0 time0 time0 time0 0.

(** [attrlist.mask |= m] for every attribute that is present, and its value. *)
Definition attrlist_of (type_too : bool) (allowed : vattrs_masks) (a : vattrs) : attrlist :=
  let mk := masks a in
  let v := vals a in
  let use {A} (f : vattrs_masks -> bool) (x y : A) : A := if f allowed && f mk then x else y in
  mk_attrlist
    (bits_of [use has_mode (if type_too then Z.lor ATTR_MODE ATTR_TYPE else ATTR_MODE) 0;
              use has_size ATTR_SIZE 0; use has_fileid ATTR_FILEID 0; use has_blocks ATTR_SPACEUSED 0;
              use has_uid ATTR_OWNER 0; use has_gid ATTR_GROUP 0; use has_rdev ATTR_RAWDEV 0;
              use has_atime ATTR_ATIME 0; use has_mtime ATTR_MTIME 0; use has_ctime ATTR_CTIME 0])
    NO_FILE_TYPE (use has_size (size v) 0) (use has_fileid (fileid v) 0) (use has_mode (mode v) 0) 0
    (use has_uid (uid v) 0) (use has_gid (gid v) 0)
    (use has_rdev (major (rdev v)) 0) (use has_rdev (minor (rdev v)) 0)
    (use has_atime (atime v) time0) (use has_ctime (ctime v) time0) (use has_mtime (mtime v) time0)
    (use has_blocks (u64 (blocks v * 512)) 0).

Definition type_bits (t : object_file_type) : Z :=
  match t with
  | REGULAR_FILE => 32768 | DIRECTORY => 16384 | CHARACTER_FILE => 8192 | BLOCK_FILE => 24576
  | SYMBOLIC_LINK => 40960 | SOCKET_FILE => 49152 | FIFO_FILE => 4096
  | NO_FILE_TYPE | EXTENDED_ATTR => 0
  end.

Definition set_mode_type (mode : Z) (t : object_file_type) : Z :=
  Z.lor (Z.land mode (Z.lnot S_IFMT)) (type_bits t).

(** The attributes of a reply, stored over those of [tca]. *)
Definition store_attrs (al : attrlist) (tca : vattrs) : vattrs :=
  let has := has_flag (al_mask al) in
  let mk := mk_masks (has ATTR_MODE) (has ATTR_SIZE) (has ATTR_NUMLINKS) (has ATTR_FILEID)
    (has ATTR_SPACEUSED) (has ATTR_OWNER) (has ATTR_GROUP) (has ATTR_RAWDEV)
    (has ATTR_ATIME) (has ATTR_MTIME) (has ATTR_CTIME) in
  let v := select mk
    (mk_vals (al_mode al) (al_filesize al) (al_numlinks al) (al_fileid al) (al_spaceused al / 512)
       (al_owner al) (al_group al) (makedev (al_major al) (al_minor al))
       (al_atime al) (al_mtime al) (al_ctime al)) (vals tca) in
  mk_attrs (attr_file tca) mk
    (mk_vals (set_mode_type (mode v) (al_type al)) (size v) (nlink v) (fileid v) (blocks v) (uid v)
       (gid v) (rdev v) (atime v) (mtime v) (ctime v)).

(** ** Operations and results *)

Definition NFS4_OP_CLOSE : Z := 4.
Definition NFS4_OP_CREATE : Z := 6.
Definition NFS4_OP_GETATTR : Z := 9.
Definition NFS4_OP_GETFH : Z := 10.
Definition NFS4_OP_LINK : Z := 11.
Definition NFS4_OP_LOOKUP : Z := 15.
Definition NFS4_OP_LOOKUPP : Z := 16.
Definition NFS4_OP_OPEN : Z := 18.
Definition NFS4_OP_PUTFH : Z := 22.
Definition NFS4_OP_PUTPUBFH : Z := 23.
Definition NFS4_OP_PUTROOTFH : Z := 24.
Definition NFS4_OP_READ : Z := 25.
Definition NFS4_OP_READDIR : Z := 26.
Definition NFS4_OP_READLINK : Z := 27.
Definition NFS4_OP_REMOVE : Z := 28.
Definition NFS4_OP_RENAME : Z := 29.
Definition NFS4_OP_RESTOREFH : Z := 31.
Definition NFS4_OP_SAVEFH : Z := 32.
Definition NFS4_OP_SETATTR : Z := 34.
Definition NFS4_OP_WRITE : Z := 38.
Definition NFS4_OP_SEQUENCE : Z := 53.
Definition NFS4_OP_COPY : Z := 60.

Definition NFS4_OK : Z := 0.
Definition NFS4ERR_IO : Z := 5.

Inductive openhow4 := OPEN4_NOCREATE | OPEN4_CREATE (guarded : bool) (createattrs : fattr4).

Inductive createtype4 := NF4DIR | NF4LNK (linkdata : text).

Inductive stable_how4 := UNSTABLE4 | DATA_SYNC.

(** The operations the client puts into compounds. The constructor of an operation whose
    reply goes to memory of the caller has the address, or the size of the buffer. *)
Inductive nfs_argop4 :=
  | OP_NONE
  | OP_SEQUENCE (sa_slotid sa_sequenceid sa_highest_slotid : Z)
  | OP_PUTROOTFH
  | OP_PUTFH (object : Fds.nfs_fh4)
  | OP_LOOKUP (objname : text)
  | OP_LOOKUPP
  | OP_SAVEFH
  | OP_RESTOREFH
  | OP_GETFH
  | OP_GETATTR (attr_request : bitmap4)
  | OP_SETATTR (obj_attributes : fattr4)
  | OP_OPEN (share_access : Z) (owner : text) (openhow : openhow4) (file : text)
  | OP_CLOSE (seqid : Z) (open_stateid : Fds.stateid4)
  | OP_READ (stateid : Fds.stateid4) (offset count data_val : Z)
  | OP_WRITE (stable : stable_how4) (stateid : Fds.stateid4) (offset data_val data_len : Z)
  | OP_CREATE (objtype : createtype4) (objname : text) (createattrs : fattr4)
  | OP_READDIR (cookie : Z) (attr_request : bitmap4)
  | OP_REMOVE (target : text)
  | OP_RENAME (oldname newname : text)
  | OP_LINK (newname : text)
  | OP_READLINK (utf8string_len : Z)
  | OP_COPY (ca_src_offset ca_dst_offset ca_count : Z).

Definition argop (o : nfs_argop4) : Z :=
  match o with
  | OP_NONE => 0
  | OP_SEQUENCE _ _ _ => NFS4_OP_SEQUENCE
  | OP_PUTROOTFH => NFS4_OP_PUTROOTFH
  | OP_PUTFH _ => NFS4_OP_PUTFH
  | OP_LOOKUP _ => NFS4_OP_LOOKUP
  | OP_LOOKUPP => NFS4_OP_LOOKUPP
  | OP_SAVEFH => NFS4_OP_SAVEFH
  | OP_RESTOREFH => NFS4_OP_RESTOREFH
  | OP_GETFH => NFS4_OP_GETFH
  | OP_GETATTR _ => NFS4_OP_GETATTR
  | OP_SETATTR _ => NFS4_OP_SETATTR
  | OP_OPEN _ _ _ _ => NFS4_OP_OPEN
  | OP_CLOSE _ _ => NFS4_OP_CLOSE
  | OP_READ _ _ _ _ => NFS4_OP_READ
  | OP_WRITE _ _ _ _ _ => NFS4_OP_WRITE
  | OP_CREATE _ _ _ => NFS4_OP_CREATE
  | OP_READDIR _ _ => NFS4_OP_READDIR
  | OP_REMOVE _ => NFS4_OP_REMOVE
  | OP_RENAME _ _ => NFS4_OP_RENAME
  | OP_LINK _ => NFS4_OP_LINK
  | OP_READLINK _ => NFS4_OP_READLINK
  | OP_COPY _ _ _ => NFS4_OP_COPY
  end.

(** Whether the operation changes the current file handle. *)
Definition NFS4_CHANGE_CFH (op : Z) : bool :=
  bool_decide (op ∈ [NFS4_OP_CREATE; NFS4_OP_LOOKUP; NFS4_OP_LOOKUPP; NFS4_OP_OPEN; NFS4_OP_PUTFH;
                     NFS4_OP_PUTPUBFH; NFS4_OP_PUTROOTFH; NFS4_OP_RESTOREFH]).

Record entry4 := mk_entry4 { e_cookie : Z; e_name : text; e_attrs : fattr4 }.

(** The body of a result of status [NFS4_OK]; those without a constructor are not read. *)
Inductive resok4 :=
  | RNone
  | RSequence (sr_slotid sr_highest_slotid sr_target_highest_slotid : Z)
  | RGetfh (object : Fds.nfs_fh4)
  | RGetattr (obj_attributes : fattr4)
  | ROpen (stateid : Fds.stateid4) (rflags : Z)
  | RRead (data_len : Z) (eof : bool)
  | RWrite (count : Z) (committed : stable_how4)
  | RReaddir (entries : list entry4) (eof : bool)
  | RReadlink (link : text) (utf8string_len : Z)
  | RCopy (cr_bytes_copied : Z).

Record nfs_resop4 := mk_resop { resop : Z; status : Z; resok : resok4 }.

(** The static array holds zeros at first. *)
Definition resop0 : nfs_resop4 := mk_resop 0 0 RNone.

Definition get_nfs4_op_status (r : nfs_resop4) : Z :=
  if ((3 <=? resop r) && (resop r <=? 38))
     || bool_decide (resop r ∈ [42; 43; 44; 45; NFS4_OP_SEQUENCE; 57; NFS4_OP_COPY])
  then status r else NFS4ERR_IO.

Definition ENAMETOOLONG : Z := 36.
Definition ENOTEMPTY : Z := 39.
Definition EDQUOT : Z := 122.
Definition ESTALE : Z := 116.
Definition EREMOTEIO : Z := 121.

Definition nfsstat4_to_errno (nfsstat : Z) : outcome Z :=
  if nfsstat <=? 31 then Ok nfsstat
  else if nfsstat =? 63 then Ok ENAMETOOLONG
  else if nfsstat =? 66 then Ok ENOTEMPTY
  else if nfsstat =? 69 then Ok EDQUOT
  else if nfsstat =? 70 then Ok ESTALE
  else assert! (10001 <=? nfsstat) ;; Ok EREMOTEIO.

(** ** The state of a thread *)

Record tc_cwd_data := mk_cwd { cwd_path : text; cwd_fh : Fds.nfs_fh4 }.

(** The thread's compound, the counter of state owners, the working directory, the slots
    of the session, and the network with all behind it. The saved path is the string that
    its array holds. *)
Record fsal (W : Type) := mk_fsal {
  argoparray : list nfs_argop4;
  resoparray : list nfs_resop4;
  opcnt : nat;
  slot_allocated : bool;
  tc_saved_path : text;
  tc_bufcnt : nat;
  fcnt : Z;
  tc_cwd : option tc_cwd_data;
  sess_slot_tbl : Slots.session_slot_table;
  net : W
}.
Arguments mk_fsal {W}. Arguments argoparray {W}. Arguments resoparray {W}. Arguments opcnt {W}.
Arguments slot_allocated {W}. Arguments tc_saved_path {W}. Arguments tc_bufcnt {W}.
Arguments fcnt {W}. Arguments tc_cwd {W}. Arguments sess_slot_tbl {W}. Arguments net {W}.

(** The operations of the compound. *)
Definition ops {W} (s : fsal W) : list nfs_argop4 := take (opcnt s) (argoparray s).
Definition results {W} (s : fsal W) : list nfs_resop4 := take (opcnt s) (resoparray s).

Section builder.
Context {W : Type}.
(** Whether allocations succeed. *)
Context (alloc : bool).
Notation state := (fsal W).

Definition gets {A} (f : state -> A) : M state A := fun s => done (f s, s).
Definition puts (f : state -> state) : M state unit := fun s => done (tt, f s).

Definition with_ops (l : list nfs_argop4) (n : nat) (s : state) : state :=
  mk_fsal l (resoparray s) n (slot_allocated s) (tc_saved_path s) (tc_bufcnt s) (fcnt s) (tc_cwd s)
    (sess_slot_tbl s) (net s).
Definition with_results (l : list nfs_resop4) (w : W) (s : state) : state :=
  mk_fsal (argoparray s) l (opcnt s) (slot_allocated s) (tc_saved_path s) (tc_bufcnt s) (fcnt s)
    (tc_cwd s) (sess_slot_tbl s) w.
Definition with_slots (b : bool) (t : Slots.session_slot_table) (s : state) : state :=
  mk_fsal (argoparray s) (resoparray s) (opcnt s) b (tc_saved_path s) (tc_bufcnt s) (fcnt s)
    (tc_cwd s) t (net s).
Definition with_saved_path (p : text) (s : state) : state :=
  mk_fsal (argoparray s) (resoparray s) (opcnt s) (slot_allocated s) p (tc_bufcnt s) (fcnt s)
    (tc_cwd s) (sess_slot_tbl s) (net s).
Definition with_bufcnt (n : nat) (s : state) : state :=
  mk_fsal (argoparray s) (resoparray s) (opcnt s) (slot_allocated s) (tc_saved_path s) n (fcnt s)
    (tc_cwd s) (sess_slot_tbl s) (net s).
Definition with_fcnt (n : Z) (s : state) : state :=
  mk_fsal (argoparray s) (resoparray s) (opcnt s) (slot_allocated s) (tc_saved_path s) (tc_bufcnt s) n
    (tc_cwd s) (sess_slot_tbl s) (net s).
Definition with_cwd (c : tc_cwd_data) (s : state) : state :=
  mk_fsal (argoparray s) (resoparray s) (opcnt s) (slot_allocated s) (tc_saved_path s) (tc_bufcnt s)
    (fcnt s) (Some c) (sess_slot_tbl s) (net s).

Definition set_opcnt (n : nat) : M state unit := puts (fun s => with_ops (argoparray s) n s).

(** [c1 && c2] *)
Definition and_then (c1 c2 : M state bool) : M state bool :=
  r ← c1; if r : bool then c2 else mret false.
Notation "c1 ';&&' c2" := (and_then c1 c2) (at level 62, right associativity).

(** [saved_opcnt = opcnt; ...; if (!r) opcnt = saved_opcnt;] *)
Definition or_restore (c : M state bool) : M state bool :=
  saved_opcnt ← gets opcnt;
  r ← c;
  _ ← (if r : bool then mret tt else set_opcnt saved_opcnt);
  mret r.

Definition tc_has_enough_ops (nops : nat) : M state bool :=
  gets (fun s => (opcnt s + nops <=? MAX_NUM_OPS_PER_COMPOUND)%nat).

(** The macros that store an operation at [argoparray[opcnt]] and increment [opcnt]. *)
Definition add_op (o : nfs_argop4) : M state unit := fun s =>
  assert! (opcnt s <? MAX_NUM_OPS_PER_COMPOUND)%nat ;;
  done (tt, with_ops (<[opcnt s := o]> (argoparray s)) (S (opcnt s)) s).

(** An operation where there is room for it. *)
Definition prepare (o : nfs_argop4) : M state bool :=
  r ← tc_has_enough_ops 1; if r : bool then _ ← add_op o; mret true else mret false.

(** Returns false for a null pointer. *)
Definition tc_alloca : M state bool :=
  n ← gets tc_bufcnt;
  if (n =? MAX_BUFS_PER_COMPOUND)%nat || negb alloc then mret false
  else _ ← puts (with_bufcnt (S n)); mret true.

(** ** Paths *)

(** [strncmp(a, b, n) == 0] for strings that end after their characters. *)
Fixpoint strncmp_eq (a b : text) (n : nat) : bool :=
  match n with
  | O => true
  | S n =>
      let x := hd Buf.NUL a in
      let y := hd Buf.NUL b in
      if negb (bool_decide (x = y)) then false
      else if bool_decide (x = Buf.NUL) then true else strncmp_eq (tl a) (tl b) n
  end.

Definition dots : text := [PathSpec.DOT; PathSpec.DOT].

(** The characters before the first terminator. *)
Fixpoint until_NUL (l : text) : text :=
  match l with
  | [] => []
  | c :: l => if decide (c = Buf.NUL) then [] else c :: until_NUL l
  end.

Definition new_area : text := replicate PATH_MAX Buf.NUL.

(** [tc_path_dir_base] of a string. *)
Definition dir_base (p : text) : text * text :=
  let m := p ++ [Buf.NUL] in
  let '(_, dir, base) := Paths.tc_path_dir_base_s m (Buf.toslice m (Buf.PMem 0)) in
  (Buf.bytes m dir, Buf.bytes m base).

(** The string that starts where the base name starts; [None] for a null pointer. *)
Definition base_string (p : text) : option text :=
  let m := p ++ [Buf.NUL] in
  let '(_, _, base) := Paths.tc_path_dir_base_s m (Buf.toslice m (Buf.PMem 0)) in
  match Buf.sl_data base with
  | Buf.PNull => None
  | d => Some (Buf.bytes m (Buf.toslice m d))
  end.

(** [tc_path_tokenize_s] of a slice: the number of components and the components. *)
Definition tokenize (p : text) : outcome (Z * list text) :=
  let! (n, comps) := Paths.tc_path_tokenize_s p (Buf.mkslice (Buf.PMem 0) (List.length p)) true alloc in
  Ok (n, map (Buf.bytes p) (default [] comps)).

(** [tc_path_rebase_s] of a slice on a string, into a buffer of [PATH_MAX]: the result and
    the contents of the buffer. *)
Definition rebase (base p : text) : outcome (Z * text) :=
  let m := base ++ [Buf.NUL] ++ p ++ new_area in
  let at_p := (List.length base + 1)%nat in
  let! (n, m, b) := Paths.tc_path_rebase_s m (Buf.toslice m (Buf.PMem 0))
    (Buf.mkslice (Buf.PMem at_p) (List.length p))
    (Buf.BUF_INITIALIZER (at_p + List.length p) PATH_MAX) in
  Ok (n, Buf.bytes m (Buf.asslice b)).

(** [tc_path_join_s] of a string and a slice into a buffer of [PATH_MAX]: the result and the
    contents of the buffer, which has the size of the path before it is normalised. *)
Definition join_slice (base p : text) : outcome (Z * text) :=
  let m := base ++ [Buf.NUL] ++ p ++ new_area in
  let at_p := (List.length base + 1)%nat in
  let! (n, m, b) := Paths.tc_path_join_s m (Buf.toslice m (Buf.PMem 0))
    (Buf.mkslice (Buf.PMem at_p) (List.length p))
    (Buf.BUF_INITIALIZER (at_p + List.length p) PATH_MAX) in
  Ok (n, Buf.bytes m (Buf.asslice b)).

Definition tc_get_cwd : M state tc_cwd_data := c ← gets tc_cwd; need c.

Definition tc_save_path (p : text) : M state unit :=
  puts (with_saved_path (if (PATH_MAX <? List.length p)%nat then [] else until_NUL p)).

Definition tc_prepare_putfh (fh : Fds.nfs_fh4) : M state bool := prepare (OP_PUTFH fh).

(** The loop of [tc_prepare_lookups]. *)
Fixpoint lookups (comps : list text) : M state bool :=
  match comps with
  | [] => mret true
  | c :: comps =>
      if (List.length c =? 0)%nat then lookups comps
      else if bool_decide (c = [PathSpec.DOT]) then lookups comps
      else
        prepare (if strncmp_eq c dots (List.length c) then OP_LOOKUPP else OP_LOOKUP c) ;&&
        lookups comps
  end.

Definition tc_prepare_lookups (comps : list text) : M state bool := or_restore (lookups comps).

Definition tc_get_abspath_from_cwd (rel_path : text) : M state text :=
  cwd ← tc_get_cwd;
  b ← tc_alloca;
  _ ← check b;
  '(_, p) ← run (join_slice (cwd_path cwd) rel_path);
  mret p.

(** [leaf]: whether the caller asks for the base name. *)
Definition tc_set_cfh_from_cfh (p : text) (leaf : bool) : M state (bool * text) :=
  let '(p, name) := if leaf then dir_base p else (p, []) in
  '(_, comps) ← run (tokenize p);
  r ← tc_prepare_lookups comps;
  mret (r, name).

(** The slash that the first component starts with is skipped. *)
Definition tc_set_cfh_from_root (comps : list text) : M state bool :=
  or_restore (
    prepare OP_PUTROOTFH ;&&
    match comps with
    | (_ :: c) :: comps => tc_prepare_lookups (c :: comps)
    | _ => stop
    end).

Definition tc_set_cfh_from_cwd (comps : list text) : M state bool :=
  or_restore (
    tc_has_enough_ops 1 ;&&
    (cwd ← tc_get_cwd;
     b ← tc_alloca;
     _ ← check (b && (Fds.nfs_fh4_len (cwd_fh cwd) <=? NFS4_FHSIZE)%nat);
     _ ← tc_prepare_putfh (cwd_fh cwd);
     tc_prepare_lookups comps)).

(** Whether the path is shorter from the saved path, the components to look up and the
    absolute path. Without components because an allocation failed, the caller frees an
    indeterminate pointer. *)
Definition tc_compress_path (p : text) : M state (bool * list text * text) :=
  abs_path ← (if starts_with_slash p then mret p else tc_get_abspath_from_cwd p);
  '(comps_n, comps) ← run (tokenize p);
  _ ← check (0 <=? comps_n);
  saved ← gets tc_saved_path;
  match saved with
  | [] => mret (false, comps, abs_path)
  | _ =>
      b ← tc_alloca;
      if negb b then mret (false, comps, abs_path)
      else
        '(n, short_path) ← run (rebase saved abs_path);
        if n <? 0 then mret (false, comps, abs_path)
        else
          '(short_comps_n, short_comps) ← run (tokenize short_path);
          _ ← check (0 <=? short_comps_n);
          mret (if short_comps_n + 1 <? comps_n then (true, short_comps, abs_path)
                else (false, comps, abs_path))
  end.

(** ** The current file handle *)

(** The scan from the last operation back, on the operations in reverse. *)
Fixpoint not_changed_since_savefh (l : list nfs_argop4) : bool :=
  match l with
  | [] => false
  | o :: l =>
      if argop o =? NFS4_OP_SAVEFH then true
      else if argop o =? NFS4_OP_RESTOREFH then not_changed_since_savefh l
      else if NFS4_CHANGE_CFH (argop o) then false
      else not_changed_since_savefh l
  end.

Fixpoint not_changed_since_restorefh (l : list nfs_argop4) : bool :=
  match l with
  | [] => false
  | o :: l =>
      if argop o =? NFS4_OP_RESTOREFH then true
      else if NFS4_CHANGE_CFH (argop o) then false
      else not_changed_since_restorefh l
  end.

Definition tc_cfh_not_changed_since_savefh : M state bool :=
  gets (fun s => not_changed_since_savefh (rev (ops s))).
Definition tc_cfh_not_changed_since_restorefh : M state bool :=
  gets (fun s => not_changed_since_restorefh (rev (ops s))).

(** [None] is a null pointer: the saved path is cleared. *)
Definition tc_prepare_savefh (p : option text) : M state bool :=
  b1 ← tc_cfh_not_changed_since_savefh;
  b2 ← tc_cfh_not_changed_since_restorefh;
  if b1 || b2 then mret true
  else
    prepare OP_SAVEFH ;&&
    (_ ← match p with Some p => tc_save_path p | None => puts (with_saved_path []) end;
     mret true).

Definition tc_prepare_restorefh : M state bool :=
  b ← tc_cfh_not_changed_since_savefh;
  if b : bool then mret true else prepare OP_RESTOREFH.

(** Returns whether the operations fit, and the base name if [leaf] is set. *)
Definition tc_set_cfh_to_path (p : text) (leaf save : bool) : M state (bool * text) :=
  let '(d, name) := if leaf then dir_base p else (p, []) in
  r ← or_restore (
    '(compressed, comps, abs_path) ← tc_compress_path d;
    (if compressed : bool then tc_prepare_restorefh ;&& tc_prepare_lookups comps
     else if starts_with_slash p then tc_set_cfh_from_root comps
     else tc_set_cfh_from_cwd comps) ;&&
    (if save then tc_prepare_savefh (Some abs_path) else mret true));
  mret (r, name).

Definition tc_set_cfh_to_handle (h : file_handle) : M state bool :=
  prepare (OP_PUTFH (Fds.mk_fh (Some (take (handle_bytes h) (f_handle h))) (handle_bytes h))).

(** The descriptor table that the data of descriptors points into. *)
Context (fd_entry : nat -> option Fds.tc_kfd).

Definition entry_of (tcf : vfile) : M state (Fds.tc_kfd * Z) :=
  match u tcf with
  | UFdData d => k ← need (fd_entry (fdd_entry d)); mret (k, fd_cursor d)
  | _ => stop
  end.

Definition path_of (tcf : vfile) : M state text :=
  match u tcf with UPath p => mret p | UNull => mret [] | _ => stop end.

(** Every caller asks for the base name. *)
Definition tc_set_current_fh (tcf : vfile) (save : bool) : M state (bool * text) :=
  match type tcf with
  | VFILE_CURRENT => p ← path_of tcf; tc_set_cfh_from_cfh p true
  | VFILE_HANDLE =>
      match u tcf with
      | UHandle h => r ← tc_set_cfh_to_handle h; mret (r, [])
      | _ => stop
      end
  | VFILE_DESCRIPTOR =>
      '(k, _) ← entry_of tcf; r ← tc_prepare_putfh (Fds.fh k); mret (r, [])
  | VFILE_PATH => p ← need (path tcf); tc_set_cfh_to_path p true save
  | VFILE_NULL | VFILE_SAVED => stop
  end.

Definition tc_set_saved_fh (tcf : vfile) : M state (bool * text) :=
  match type tcf with
  | VFILE_PATH => p ← need (path tcf); tc_set_cfh_to_path p true true
  | _ =>
      saved_opcnt ← gets opcnt;
      '(r, name) ← tc_set_current_fh tcf false;
      r ← (if r : bool then tc_prepare_savefh None else mret false);
      _ ← (if r : bool then mret tt else set_opcnt saved_opcnt);
      mret (r, name)
  end.

(** ** The other operations *)

(** The process id, and the results of [getuid], [getgid], [geteuid] and [getegid]. *)
Context (pid uid_ gid_ euid egid : Z).
(** [nfs4_FSALattr_To_Fattr] and [nfs4_Fattr_To_FSAL_attr]; [None] is an error. *)
Context (encode : attrlist -> bitmap4 -> option fattr4) (decode : fattr4 -> option attrlist).

Definition fs_fsalattr_to_fattr4 (attrs : attrlist) : option fattr4 :=
  encode attrs (attr_bitmap (al_mask attrs)).

Definition only_owner_and_mode : vattrs_masks :=
  mk_masks true false false false false true true false false false false.

Definition vattrs_to_fattr4_create (tca : vattrs) : M state fattr4 :=
  need (fs_fsalattr_to_fattr4 (attrlist_of false only_owner_and_mode tca)).

Definition vattrs_to_fattr4 (tca : vattrs) : M state fattr4 :=
  need (fs_fsalattr_to_fattr4 (attrlist_of true VMASK_INIT_ALL tca)).

Definition fattr4_to_vattrs (attr4 : fattr4) (tca : vattrs) : M state vattrs :=
  al ← need (decode attr4); mret (store_attrs al tca).

(** The string made of a slice, in a buffer of the compound. *)
Definition tc_new_auto_str (sl : text) : M state text :=
  b ← tc_alloca; _ ← check b; mret (until_NUL sl).

Definition CURSID : Fds.stateid4 := Fds.mk_stateid 1 (replicate 12 Buf.NUL).

Definition is_special_stateid (sid : Fds.stateid4) : bool :=
  bool_decide (take 12 (Fds.si_other sid) = replicate 12 Buf.NUL).

Definition str (s : string) : text := String.list_ascii_of_string s.

(** [buf]: whether there is a buffer for the owner. *)
Definition tc_new_state_owner (buf : bool) : M state text :=
  _ ← check buf;
  n ← gets (fun s => u64 (fcnt s + 1));
  _ ← puts (with_fcnt n);
  mret (str "TC-State: pid=" ++ Cache.to_string pid ++ str " " ++ Cache.to_string n).

Definition sca_open_flags_to_access (flags : Z) : Z :=
  if has_flag flags O_WRONLY then 2 else if has_flag flags O_RDWR then 3 else 1.

(** [buf] as above; [attrs] are the initial attributes, [None] for a null pointer. *)
Definition tc_prepare_open (name : text) (flags : Z) (buf : bool) (attrs : option fattr4) : M state bool :=
  tc_has_enough_ops 1 ;&&
  (owner ← tc_new_state_owner buf;
   how ← (if has_flag flags O_CREAT
          then a ← need attrs; mret (OPEN4_CREATE (has_flag flags O_EXCL) a)
          else _ ← check (negb (has_flag flags O_EXCL)); mret OPEN4_NOCREATE);
   _ ← add_op (OP_OPEN (sca_open_flags_to_access flags) owner how name);
   mret true).

(** With a sequence id, which is incremented, or without. *)
Definition tc_prepare_close (seq_sid : option (Z * Fds.stateid4)) : M state bool :=
  prepare (match seq_sid with Some (seqid, sid) => OP_CLOSE seqid sid | None => OP_CLOSE 1 CURSID end).

Definition tc_prepare_getattr (bm4 : bitmap4) : M state bool := prepare (OP_GETATTR bm4).
Definition tc_prepare_getfh : M state bool := prepare OP_GETFH.
Definition tc_prepare_mkdir (name : text) (fattr : fattr4) : M state bool := prepare (OP_CREATE NF4DIR name fattr).

(** There is no check for room. *)
Definition tc_prepare_setattr (fattr : fattr4) : M state bool := _ ← add_op (OP_SETATTR fattr); mret true.

Definition tc_prepare_readdir (cookie : Z) (attrbm : bitmap4) : M state bool := prepare (OP_READDIR cookie attrbm).
Definition tc_prepare_remove (name : text) : M state bool := prepare (OP_REMOVE name).
Definition tc_prepare_copy (src_offset dst_offset count : Z) : M state bool :=
  prepare (OP_COPY src_offset dst_offset count).
Definition tc_prepare_rename (srcname dstname : text) : M state bool := prepare (OP_RENAME srcname dstname).
Definition tc_prepare_hardlink (name : text) : M state bool := prepare (OP_LINK name).
Definition tc_prepare_symlink (name link_path : text) (attrs : fattr4) : M state bool :=
  prepare (OP_CREATE (NF4LNK link_path) name attrs).
Definition tc_prepare_readlink (buf_size : Z) : M state bool := prepare (OP_READLINK buf_size).

(** [need_close]: whether the file was opened in this compound. *)
Definition tc_prepare_rdwr (iov : viovec) (write need_close : bool) : M state bool :=
  tc_has_enough_ops 1 ;&&
  ('(offset, sid) ← match type (file iov) with
     | VFILE_DESCRIPTOR =>
         '(k, cursor) ← entry_of (file iov);
         mret (if offset iov =? TC_OFFSET_CUR then cursor else offset iov, Fds.stateid k)
     | _ => mret (offset iov, CURSID)
     end;
   _ ← add_op (if write then
       let stable := if is_write_stable iov || (need_close && is_last_of_multiparts iov)
                     then DATA_SYNC else UNSTABLE4 in
       OP_WRITE stable sid offset (data iov) (length iov)
     else OP_READ sid offset (length iov) (data iov));
   mret true).

(** The attributes of a file that is created by a write. *)
Definition creation_attrs : vattrs :=
  vattrs_set_gid (vattrs_set_uid (vattrs_set_mode
    (mk_attrs vfile_current VMASK_INIT_NONE (mk_vals 0 0 0 0 0 0 0 0 time0 time0 time0)) 420) uid_) gid_.

(** [buf]: whether there is a buffer for the owner; [attrs4]: whether there is a place for
    the attributes. Returns whether the operations fit, and the file then open. *)
Definition sca_open_file_if_necessary (tcf : vfile) (flags : Z) (buf attrs4 : bool)
    (opened_file : option vfile) : M state (bool * option vfile) :=
  let open (r : bool) :=
    attrs ← (if has_flag flags O_CREAT then _ ← check attrs4; a ← vattrs_to_fattr4 creation_attrs; mret (Some a)
             else mret None);
    r ← (if r then
           '(r, name) ← tc_set_current_fh tcf true;
           if r : bool then tc_prepare_open name flags buf attrs else mret false
         else mret false);
    mret (r, if r : bool then Some tcf else None) in
  match type tcf with
  | VFILE_DESCRIPTOR =>
      '(k, _) ← entry_of tcf; r ← tc_prepare_putfh (Fds.fh k); mret (r, opened_file)
  | _ =>
      current ← (if bool_decide (type tcf = VFILE_CURRENT)
                 then match u tcf with
                      | UNull => mret true
                      | UPath p => mret (bool_decide (p = [PathSpec.DOT]))
                      | _ => stop
                      end
                 else mret false);
      if current : bool then mret (true, opened_file)
      else
        saved_opcnt ← gets opcnt;
        '(same, r) ← match opened_file with
          | Some f =>
              same ← run (tc_cmp_file tcf f);
              if same : bool then mret (true, true) else r ← tc_prepare_close None; mret (false, r)
          | None => mret (false, true)
          end;
        if same : bool then mret (true, opened_file)
        else
          '(r, opened) ← open r;
          _ ← (if r : bool then mret tt else set_opcnt saved_opcnt);
          mret (r, opened)
  end.

(** ** Sending a compound *)

(** [fs_compoundv4_call] with its retries: the status of the call, the status of the
    compound and the results. *)
Context (rpc : list nfs_argop4 -> W -> Z * Z * list nfs_resop4 * W).

Definition tc_update_sequence (sent : bool) : M state unit := fun s =>
  match argoparray s !! 0%nat, resoparray s !! 0%nat with
  | Some (OP_SEQUENCE sa_slotid _ sa_highest), Some r =>
      let! (t, _) :=
        if sent && (status r =? NFS4_OK) then
          match resok r with
          | RSequence slot highest target =>
              Slots.free_session_slot (sess_slot_tbl s) (Z.to_nat slot) highest target sent
          | _ => Abort
          end
        else Slots.free_session_slot (sess_slot_tbl s) (Z.to_nat sa_slotid) sa_highest sa_highest false in
      done (tt, with_slots false t s)
  | _, _ => done (tt, s)
  end.

Definition tc_cleanup_compound : M state unit :=
  puts (fun s => with_saved_path [] (with_bufcnt 0 (with_ops (argoparray s) 0 s))).

(** The sequence operation of a new compound. [Ok None]: the thread waits for a slot. *)
Definition add_sequence : M state unit := fun s =>
  match Slots.alloc_session_slot (sess_slot_tbl s) with
  | None => Ok None
  | Some (slotid, sequenceid, highest, t) =>
      done (tt, with_ops (<[0%nat := OP_SEQUENCE slotid sequenceid highest]> (argoparray s))
                  (S (opcnt s)) (with_slots true t s))
  end.

(** Every caller asks for a sequence operation. *)
Definition vreset_compound : M state unit :=
  _ ← tc_cleanup_compound;
  allocated ← gets slot_allocated;
  _ ← (if allocated : bool then
         o ← gets (fun s => argoparray s !! 0%nat);
         o ← need o;
         _ ← check (argop o =? NFS4_OP_SEQUENCE);
         tc_update_sequence false
       else mret tt);
  add_sequence.

(** The common part of the calls: the status of the call and of the compound. *)
Definition send : M state (Z * Z) := fun s =>
  let '(rc, st, res, w) := rpc (ops s) (net s) in
  done ((rc, st), with_results (take MAX_NUM_OPS_PER_COMPOUND (res ++ drop (List.length res) (resoparray s))) w s).

(** [fs_nfsv4_call] with a place for the status of the compound: the status of the call,
    and the error of the compound. *)
Definition fs_nfsv4_call : M state (Z * Z) :=
  n ← gets opcnt;
  if (n =? 0)%nat then mret (0, NFS4_OK)
  else
    '(rc, st) ← send;
    err ← (if rc =? 0 then run (nfsstat4_to_errno st) else mret 0);
    _ ← tc_update_sequence (rc =? 0);
    mret (rc, err).

(** [fs_nfsv4_call] without: the status of the compound counts as that of the call. *)
Definition fs_nfsv4_call_null : M state Z :=
  n ← gets opcnt;
  _ ← check (negb (n =? 0)%nat);
  '(rc, st) ← send;
  let rc := if rc =? 0 then st else rc in
  _ ← tc_update_sequence (rc =? 0);
  mret rc.

(** ** The operations on arrays *)

(** The loop that fills the compound with elements while they fit, with the variables [x]
    that a round changes: the number of elements. *)
Fixpoint fill {A X} (f : A -> X -> M state (bool * X)) (l : list A) (n : nat) (x : X)
  : M state (nat * X) :=
  match l with
  | [] => mret (n, x)
  | a :: l =>
      saved_opcnt ← gets opcnt;
      '(r, y) ← f a x;
      if r : bool then fill f l (S n) y else _ ← set_opcnt saved_opcnt; mret (n, x)
  end.

(** ... when a round changes no variables. *)
Definition fill_with {A} (f : A -> M state bool) (l : list A) : M state nat :=
  '(n, _) ← fill (fun a _ => r ← f a; mret (r, tt)) l 0 tt; mret n.

(** The loop over the results: [f] handles a result, with the index [i] of the element and
    the arrays [x], and [fail] what a failed one changes. *)
Fixpoint process {X} (f : nfs_resop4 -> nat -> X -> M state (nat * X)) (fail : nat -> X -> M state X)
    (tcres : vres) (l : list nfs_resop4) (i : nat) (x : X) : M state (vres * X) :=
  match l with
  | [] => mret (tcres, x)
  | r :: l =>
      let op_status := get_nfs4_op_status r in
      if negb (op_status =? NFS4_OK) then
        x ← fail i x;
        e ← run (nfsstat4_to_errno op_status);
        mret (vfailure (Z.of_nat i) e, x)
      else '(i, x) ← f r i x; process f fail tcres l i x
  end.

Definition call_and_process {X} (f : nfs_resop4 -> nat -> X -> M state (nat * X))
    (fail : nat -> X -> M state X) (count : nat) (x : X) : M state (vres * X) :=
  '(rc, err) ← fs_nfsv4_call;
  if negb (rc =? 0) then mret (vfailure 0 rc, x)
  else l ← gets results; process f fail (mk_vres (Z.of_nat count) err) l 0 x.

Definition no_change {X} : nat -> X -> M state X := fun _ x => mret x.

(** [l[i] = f(l[i])] *)
Definition update {A} (l : list A) (i : nat) (f : A -> M state A) : M state (list A) :=
  a ← need (l !! i); b ← f a; mret (<[i := b]> l).

Definition vfile_set_handle (fh4 : Fds.nfs_fh4) (tcf : vfile) : vfile :=
  mk_vfile VFILE_HANDLE (fd tcf)
    (match new_file_handle alloc (take (Fds.nfs_fh4_len fh4) (default [] (Fds.nfs_fh4_val fh4))) with
     | Some h => UHandle h
     | None => UNull
     end).

Definition set_handle (fh4 : Fds.nfs_fh4) (a : vattrs) : M state vattrs :=
  mret (mk_attrs (vfile_set_handle fh4 (attr_file a)) (masks a) (vals a)).

Definition getattr_body (r : nfs_resop4) : M state fattr4 :=
  match resok r with RGetattr a => mret a | _ => stop end.
Definition getfh_body (r : nfs_resop4) : M state Fds.nfs_fh4 :=
  match resok r with RGetfh h => mret h | _ => stop end.

(** Each result whose number is [op] is the last of its element. *)
Definition count_op (op : Z) : nfs_resop4 -> nat -> unit -> M state (nat * unit) := fun r i x =>
  mret (if resop r =? op then S i else i, x).

(** *** Reading and writing *)

Definition mark_failure (v : viovec) : M state viovec :=
  mret (mk_iov (file v) (offset v) (length v) (data v) (iov_type v) (is_creation v) (is_direct_io v)
          true (is_eof v) (is_write_stable v) (is_last_of_multiparts v)).

Definition set_read (len : Z) (eof : bool) (v : viovec) : M state viovec :=
  mret (set_eof (set_length v len) eof).

Definition set_written (count : Z) (committed : stable_how4) (v : viovec) : M state viovec :=
  mret (mk_iov (file v) (offset v) count (data v) (iov_type v) (is_creation v) (is_direct_io v)
          (is_failure v) (is_eof v) (match committed with UNSTABLE4 => false | _ => true end)
          (is_last_of_multiparts v)).

(** A round of the loop of a read; the last operation is reserved for [CLOSE]. *)
Definition add_read (iov : viovec) (opened_file : option vfile) : M state (bool * option vfile) :=
  buf ← tc_alloca;
  '(r, opened_file) ← sca_open_file_if_necessary (file iov) 0 buf false opened_file;
  r ← (if r : bool then
         tc_prepare_rdwr iov false (bool_decide (is_Some opened_file)) ;&&
         tc_prepare_getattr fs_bitmap_getattr
       else mret false);
  room ← tc_has_enough_ops 1;
  mret (r && room, opened_file).

Definition add_write (iov : viovec) (opened_file : option vfile) : M state (bool * option vfile) :=
  buf ← tc_alloca;
  '(r, opened_file) ← sca_open_file_if_necessary (file iov)
     (Z.lor O_WRONLY (if is_creation iov then O_CREAT else 0)) buf true opened_file;
  r ← (if r : bool then
         tc_prepare_getattr fs_bitmap_getattr ;&&
         tc_prepare_rdwr iov true (bool_decide (is_Some opened_file)) ;&&
         tc_prepare_getattr fs_bitmap_getattr
       else mret false);
  room ← tc_has_enough_ops 1;
  mret (r && room, opened_file).

(** The close of the file that is open at the end. *)
Definition close_opened (opened_file : option vfile) : M state unit :=
  match opened_file with Some _ => add_op (OP_CLOSE 1 CURSID) | None => mret tt end.

(** The vectors, the attributes, and how many replies held attributes. *)
Definition read_result (r : nfs_resop4) (i : nat) (x : list viovec * list vattrs * nat)
  : M state (nat * (list viovec * list vattrs * nat)) :=
  let '(iovs, attrs, n) := x in
  if resop r =? NFS4_OP_READ then
    match resok r with
    | RRead len eof => iovs ← update iovs i (set_read len eof); mret (S i, (iovs, attrs, n))
    | _ => stop
    end
  else if resop r =? NFS4_OP_GETATTR then
    a ← getattr_body r;
    attrs ← update attrs n (fattr4_to_vattrs a);
    mret (i, (iovs, attrs, S n))
  else mret (i, x).

Definition tc_nfs4_readv (iovs : list viovec) (attrs : list vattrs) : M state (vres * list viovec * list vattrs) :=
  _ ← vreset_compound;
  '(count, opened_file) ← fill add_read iovs 0 None;
  _ ← close_opened opened_file;
  '(tcres, (iovs, attrs, _)) ← call_and_process read_result
     (fun i x => let '(iovs, attrs, n) := x in iovs ← update iovs i mark_failure; mret (iovs, attrs, n))
     count (iovs, attrs, 0%nat);
  mret (tcres, iovs, attrs).

(** The vectors, the old and the new attributes, and how many replies held attributes. *)
Notation rw_arrays := (list viovec * list vattrs * list vattrs * nat)%type.

(** Replies with attributes are taken to alternate between old and new. *)
Definition store_old_or_new (r : nfs_resop4) (x : rw_arrays) : M state rw_arrays :=
  let '(iovs, old_attrs, new_attrs, n) := x in
  a ← getattr_body r;
  if (n mod 2 =? 1)%nat
  then new_attrs ← update new_attrs (n / 2) (fattr4_to_vattrs a); mret (iovs, old_attrs, new_attrs, S n)
  else old_attrs ← update old_attrs (n / 2) (fattr4_to_vattrs a); mret (iovs, old_attrs, new_attrs, S n).

(** [reads]: whether results of reads are looked at. *)
Definition rw_result (reads : bool) (r : nfs_resop4) (i : nat) (x : rw_arrays) : M state (nat * rw_arrays) :=
  let '(iovs, old_attrs, new_attrs, n) := x in
  if resop r =? NFS4_OP_WRITE then
    match resok r with
    | RWrite count committed =>
        iovs ← update iovs i (set_written count committed); mret (S i, (iovs, old_attrs, new_attrs, n))
    | _ => stop
    end
  else if reads && (resop r =? NFS4_OP_READ) then
    match resok r with
    | RRead len eof => iovs ← update iovs i (set_read len eof); mret (S i, (iovs, old_attrs, new_attrs, n))
    | _ => stop
    end
  else if resop r =? NFS4_OP_GETATTR then x ← store_old_or_new r x; mret (i, x)
  else mret (i, x).

Definition rw_failure (i : nat) (x : rw_arrays) : M state rw_arrays :=
  let '(iovs, old_attrs, new_attrs, n) := x in
  iovs ← update iovs i mark_failure; mret (iovs, old_attrs, new_attrs, n).

Definition tc_nfs4_writev (iovs : list viovec) (old_attrs new_attrs : list vattrs)
  : M state (vres * list viovec * list vattrs * list vattrs) :=
  _ ← vreset_compound;
  '(count, opened_file) ← fill add_write iovs 0 None;
  _ ← close_opened opened_file;
  '(tcres, (iovs, old_attrs, new_attrs, _)) ←
     call_and_process (rw_result false) rw_failure count (iovs, old_attrs, new_attrs, 0%nat);
  mret (tcres, iovs, old_attrs, new_attrs).

Definition VECTOR_READ_OP : Z := 1.
Definition VECTOR_WRITE_OP : Z := 2.

(** The variable [r] keeps its value over a vector of no known type; at first it has none. *)
Definition add_read_or_write (iov : viovec) (x : option vfile * option bool)
  : M state (bool * (option vfile * option bool)) :=
  let '(opened_file, r) := x in
  if iov_type iov =? VECTOR_WRITE_OP then
    '(r, opened_file) ← add_write iov opened_file; mret (r, (opened_file, Some true))
  else if iov_type iov =? VECTOR_READ_OP then
    '(r, opened_file) ← add_read iov opened_file; mret (r, (opened_file, Some true))
  else
    r ← need r;
    room ← tc_has_enough_ops 1;
    mret (r && room, (opened_file, Some r)).

Definition tc_nfs4_read_writev (iovs : list viovec) (old_attrs new_attrs : list vattrs)
  : M state (vres * list viovec * list vattrs * list vattrs) :=
  _ ← vreset_compound;
  '(count, (opened_file, _)) ← fill add_read_or_write iovs 0 (None, None);
  _ ← close_opened opened_file;
  '(tcres, (iovs, old_attrs, new_attrs, _)) ←
     call_and_process (rw_result true) rw_failure count (iovs, old_attrs, new_attrs, 0%nat);
  mret (tcres, iovs, old_attrs, new_attrs).

(** *** Opening and closing *)

Definition fattr0 : fattr4 := mk_fattr (mk_bitmap 0 0 0 0) [].

Definition add_open (x : vattrs * Z) : M state bool :=
  let '(a, flags) := x in
  fattr ← (if has_flag flags O_CREAT then vattrs_to_fattr4_create a else mret fattr0);
  '(r, name) ← tc_set_current_fh (attr_file a) true;
  if r : bool then
    buf ← tc_alloca;
    tc_prepare_open name flags buf (Some fattr) ;&& tc_prepare_getfh ;&& tc_prepare_getattr fs_bitmap_getattr
  else mret false.

(** The attributes, the flags and the state ids. *)
Definition open_result (r : nfs_resop4) (i : nat) (x : list vattrs * list Z * list Fds.stateid4)
  : M state (nat * (list vattrs * list Z * list Fds.stateid4)) :=
  let '(attrs, flags, sids) := x in
  if resop r =? NFS4_OP_OPEN then
    match resok r with
    | ROpen sid rflags =>
        flags ← update flags i (fun _ => mret rflags);
        sids ← update sids i (fun _ => mret sid);
        mret (i, (attrs, flags, sids))
    | _ => stop
    end
  else if resop r =? NFS4_OP_GETFH then
    h ← getfh_body r; attrs ← update attrs i (set_handle h); mret (i, (attrs, flags, sids))
  else if resop r =? NFS4_OP_GETATTR then
    a ← getattr_body r; attrs ← update attrs i (fattr4_to_vattrs a); mret (S i, (attrs, flags, sids))
  else mret (i, x).

Definition tc_nfs4_openv (attrs : list vattrs) (flags : list Z) (sids : list Fds.stateid4)
  : M state (vres * list vattrs * list Z * list Fds.stateid4) :=
  _ ← check (1 <=? List.length attrs)%nat;
  _ ← vreset_compound;
  count ← fill_with add_open (zip attrs flags);
  '(tcres, (attrs, flags, sids)) ← call_and_process open_result no_change count (attrs, flags, sids);
  mret (tcres, attrs, flags, sids).

(** The file handle, the state id and the sequence id of an element; the sequence ids so
    far, each incremented when its operation is stored. *)
Definition add_close (x : Fds.nfs_fh4 * Fds.stateid4 * Z) (seqs : list Z) : M state (bool * list Z) :=
  let '(fh4, sid, seqid) := x in
  if is_special_stateid sid then mret (true, seqs ++ [seqid])
  else r ← (tc_prepare_putfh fh4 ;&& tc_prepare_close (Some (seqid, sid))); mret (r, seqs ++ [u32 (seqid + 1)]).

(** [while (i < count && is_special_stateid(&sids[i])) ++i;] *)
Fixpoint skip_special (n : nat) (sids : list Fds.stateid4) (i : nat) : nat :=
  match n, sids !! i with
  | S n, Some sid => if is_special_stateid sid then skip_special n sids (S i) else i
  | _, _ => i
  end.

Definition close_result (count : nat) (r : nfs_resop4) (i : nat) (sids : list Fds.stateid4)
  : M state (nat * list Fds.stateid4) :=
  if resop r =? NFS4_OP_CLOSE then
    let i := skip_special (count - i) sids i in
    sids ← update sids i (fun sid => mret (Fds.mk_stateid (u32 (Fds.si_seqid sid + 1)) (Fds.si_other sid)));
    mret (S i, sids)
  else mret (i, sids).

Definition tc_nfs4_closev (fh4s : list Fds.nfs_fh4) (sids : list Fds.stateid4) (seqs : list Z)
  : M state (vres * list Fds.stateid4 * list Z) :=
  _ ← vreset_compound;
  '(count, seqs') ← fill add_close (zip (zip fh4s sids) seqs) 0 [];
  '(tcres, sids) ← call_and_process (close_result count) no_change count sids;
  mret (tcres, sids, seqs' ++ drop count seqs).

(** *** Attributes *)

Definition add_lgetattr (a : vattrs) : M state bool :=
  '(r, name) ← tc_set_current_fh (attr_file a) true;
  if r : bool then
    tc_prepare_lookups [name] ;&& tc_prepare_getfh ;&& tc_prepare_getattr (tc_attr_masks_to_bitmap (masks a))
  else mret false.

Definition lgetattr_result (r : nfs_resop4) (i : nat) (attrs : list vattrs) : M state (nat * list vattrs) :=
  if resop r =? NFS4_OP_GETFH then h ← getfh_body r; attrs ← update attrs i (set_handle h); mret (i, attrs)
  else if resop r =? NFS4_OP_GETATTR then
    a ← getattr_body r; attrs ← update attrs i (fattr4_to_vattrs a); mret (S i, attrs)
  else mret (i, attrs).

Definition tc_nfs4_lgetattrsv (attrs : list vattrs) : M state (vres * list vattrs) :=
  _ ← check (1 <=? List.length attrs)%nat;
  _ ← vreset_compound;
  _ ← check alloc;
  count ← fill_with add_lgetattr attrs;
  call_and_process lgetattr_result no_change count attrs.

Definition add_lsetattr (a : vattrs) : M state bool :=
  fattr ← vattrs_to_fattr4 a;
  '(r, name) ← tc_set_current_fh (attr_file a) true;
  if r : bool then
    tc_prepare_lookups [name] ;&& tc_prepare_setattr fattr ;&&
    tc_prepare_getattr (tc_attr_masks_to_bitmap (masks a))
  else mret false.

Definition lsetattr_result (r : nfs_resop4) (i : nat) (attrs : list vattrs) : M state (nat * list vattrs) :=
  if resop r =? NFS4_OP_GETATTR then
    a ← getattr_body r; attrs ← update attrs i (fattr4_to_vattrs a); mret (S i, attrs)
  else mret (i, attrs).

Definition tc_nfs4_lsetattrsv (attrs : list vattrs) : M state (vres * list vattrs) :=
  _ ← vreset_compound;
  count ← fill_with add_lsetattr attrs;
  call_and_process lsetattr_result no_change count attrs.

(** *** Directories *)

Definition add_mkdir (a : vattrs) : M state bool :=
  fattr ← vattrs_to_fattr4 a;
  '(r, name) ← tc_set_current_fh (attr_file a) true;
  if r : bool then
    tc_prepare_mkdir name fattr ;&& tc_prepare_getfh ;&& tc_prepare_getattr fs_bitmap_getattr
  else mret false.

(** The index is that of the next element once the directory is made. *)
Definition update_last {A} (l : list A) (i : nat) (f : A -> M state A) : M state (list A) :=
  match i with O => stop | S i => update l i f end.

Definition mkdir_result (r : nfs_resop4) (i : nat) (dirs : list vattrs) : M state (nat * list vattrs) :=
  if resop r =? NFS4_OP_CREATE then mret (S i, dirs)
  else if resop r =? NFS4_OP_GETFH then
    h ← getfh_body r; dirs ← update_last dirs i (set_handle h); mret (i, dirs)
  else if resop r =? NFS4_OP_GETATTR then
    a ← getattr_body r; dirs ← update_last dirs i (fattr4_to_vattrs a); mret (i, dirs)
  else mret (i, dirs).

Definition tc_nfs4_mkdirv (dirs : list vattrs) : M state (vres * list vattrs) :=
  _ ← check (1 <=? List.length dirs)%nat;
  _ ← vreset_compound;
  count ← fill_with add_mkdir dirs;
  call_and_process mkdir_result no_change count dirs.

(** A directory to be listed. *)
Record tc_dir_to_list := mk_dle {
  d_path : text;
  d_cookie : Z;
  d_fh : Fds.nfs_fh4;
  origin_index : Z;
  nchildren : Z;
  need_free_path : bool
}.

Definition new_dle (p : text) (i : Z) (own_path : bool) : tc_dir_to_list :=
  mk_dle p 0 (Fds.mk_fh None 0) i 0 own_path.

Definition set_cookie (d : tc_dir_to_list) (c : Z) : tc_dir_to_list :=
  mk_dle (d_path d) c (d_fh d) (origin_index d) (nchildren d) (need_free_path d).
Definition set_fh (d : tc_dir_to_list) (h : Fds.nfs_fh4) : tc_dir_to_list :=
  mk_dle (d_path d) (d_cookie d) h (origin_index d) (nchildren d) (need_free_path d).
Definition add_children (d : tc_dir_to_list) (n : Z) : tc_dir_to_list :=
  mk_dle (d_path d) (d_cookie d) (d_fh d) (origin_index d) (nchildren d + n) (need_free_path d).

(** The callback, its argument, and the indeterminate values of attributes. *)
Context {C : Type} (cb : vattrs -> text -> C -> M state (bool * C)) (junk_vals : avals).

(** The directory, the directories to add to the queue, the entries still wanted and the
    argument of the callback. The result is the number of entries, or -1 when the callback
    fails. *)
Fixpoint tc_parse_dir_entries (parent : tc_dir_to_list) (queue : list tc_dir_to_list) (entries : list entry4)
    (limit : Z) (recursive has_mode : bool) (n : Z) (c : C)
  : M state (Z * tc_dir_to_list * list tc_dir_to_list * Z * C) :=
  match entries with
  | [] => mret (n, parent, queue, limit, c)
  | e :: entries =>
      if negb ((limit =? -1) || (0 <? limit)) then mret (n, parent, queue, limit, c)
      else if strncmp_eq dots (e_name e) (List.length (e_name e)) then
        tc_parse_dir_entries (set_cookie parent (e_cookie e)) queue entries limit recursive has_mode n c
      else
        _ ← check alloc;
        '(ret, p) ← run (join_slice (d_path parent) (e_name e));
        _ ← check (0 <? ret);
        let p := until_NUL p in
        attrs ← fattr4_to_vattrs (e_attrs e) (mk_attrs (vfile_from_path p) VMASK_INIT_NONE junk_vals);
        let 'mk_masks _ b2 b3 b4 b5 b6 b7 b8 b9 b10 b11 := masks attrs in
        let attrs := mk_attrs (attr_file attrs) (mk_masks has_mode b2 b3 b4 b5 b6 b7 b8 b9 b10 b11) (vals attrs) in
        '(success, c) ← cb attrs (d_path parent) c;
        if negb success then mret (-1, parent, queue, limit, c)
        else
          let queue := if recursive && S_ISDIR (mode (vals attrs))
                       then queue ++ [new_dle p (origin_index parent) true] else queue in
          tc_parse_dir_entries (set_cookie parent (e_cookie e)) queue entries
            (if limit =? -1 then limit else limit - 1) recursive has_mode (n + 1) c
  end.

(** The loop that adds directories to the compound, from number [i] on; the number also
    counts the directory that the loop ends with and that is left out. *)
Fixpoint add_dirs (queue : list tc_dir_to_list) (bitmap : bitmap4) (i : nat) : M state nat :=
  match queue with
  | [] => mret i
  | dle :: queue =>
      saved_opcnt ← gets opcnt;
      r ← (if (Fds.nfs_fh4_len (d_fh dle) =? 0)%nat then
             '(r, name) ← tc_set_cfh_to_path (d_path dle) true true;
             if r : bool then tc_prepare_lookups [name] ;&& tc_prepare_getfh else mret false
           else tc_prepare_putfh (d_fh dle));
      r ← (if r : bool then tc_prepare_readdir (d_cookie dle) bitmap else mret false);
      if (MAX_READDIRS_PER_COMPOUND <=? S i)%nat || negb r
      then _ ← set_opcnt saved_opcnt; mret (S i)
      else add_dirs queue bitmap (S i)
  end.

(** The results of a listing; the directory at hand is the first of the queue. *)
Fixpoint list_results (l : list nfs_resop4) (i : nat) (tcres : vres) (queue : list tc_dir_to_list) (limit : Z)
    (recursive has_mode : bool) (c : C) : M state (vres * list tc_dir_to_list * Z * C) :=
  match l with
  | [] => mret (tcres, queue, limit, c)
  | r :: l =>
      let op_status := get_nfs4_op_status r in
      if negb (op_status =? NFS4_OK) then
        e ← run (nfsstat4_to_errno op_status);
        mret (vfailure (Z.of_nat i) e, queue, limit, c)
      else if resop r =? NFS4_OP_GETFH then
        match queue with
        | dle :: queue =>
            h ← getfh_body r; list_results l i tcres (set_fh dle h :: queue) limit recursive has_mode c
        | [] => stop
        end
      else if resop r =? NFS4_OP_READDIR then
        match queue, resok r with
        | dle :: queue, RReaddir entries eof =>
            '(rc, dle, queue, limit, c) ← tc_parse_dir_entries dle queue entries limit recursive has_mode 0 c;
            if rc <? 0 then mret (vfailure (Z.of_nat i) rc, dle :: queue, limit, c)
            else if negb eof then mret (mk_vres (Z.of_nat i) 0, add_children dle rc :: queue, limit, c)
            else if limit =? 0 then mret (mk_vres (index tcres) 0, queue, limit, c)
            else list_results l (S i) tcres queue limit recursive has_mode c
        | _, _ => stop
        end
      else list_results l i tcres queue limit recursive has_mode c
  end.

(** When the call fails, arrays that were never set are freed. *)
Definition tc_do_listdirv (queue : list tc_dir_to_list) (limit : Z) (mk : vattrs_masks) (recursive : bool) (c : C)
  : M state (vres * list tc_dir_to_list * Z * C) :=
  _ ← vreset_compound;
  let 'mk_masks has_mode b2 b3 b4 b5 b6 b7 b8 b9 b10 b11 := mk in
  i ← add_dirs queue (tc_attr_masks_to_bitmap (mk_masks true b2 b3 b4 b5 b6 b7 b8 b9 b10 b11)) 0;
  '(rc, err) ← fs_nfsv4_call;
  _ ← check (rc =? 0);
  _ ← check alloc;
  l ← gets results;
  list_results l 0 (mk_vres (Z.of_nat i) err) queue limit recursive has_mode c.

Fixpoint listdir_loop (fuel : nat) (tcres : vres) (queue : list tc_dir_to_list) (limit : Z) (mk : vattrs_masks)
    (recursive : bool) (c : C) : M state (vres * C) :=
  match queue with
  | [] => mret (tcres, c)
  | _ =>
      match fuel with
      | O => fun _ => Ok None
      | S fuel =>
          '(tcres, queue, limit, c) ← tc_do_listdirv queue limit mk recursive c;
          if vokay tcres then listdir_loop fuel tcres queue limit mk recursive c else mret (tcres, c)
      end
  end.

Definition tc_nfs4_listdirv (fuel : nat) (dirs : list text) (mk : vattrs_masks) (max_entries : Z)
    (recursive : bool) (c : C) : M state (vres * C) :=
  _ ← check (alloc || (List.length dirs =? 0)%nat);
  listdir_loop fuel (mk_vres 0 0) (imap (fun i p => new_dle p (Z.of_nat i) false) dirs)
    (if max_entries =? 0 then -1 else max_entries) mk recursive c.

(** *** Names *)

Definition add_rename (p : vfile_pair) : M state bool :=
  '(r, srcname) ← tc_set_saved_fh (src_file p);
  if r : bool then
    '(r, dstname) ← tc_set_current_fh (dst_file p) false;
    if r : bool then tc_prepare_rename srcname dstname else mret false
  else mret false.

Definition tc_nfs4_renamev (pairs : list vfile_pair) : M state vres :=
  _ ← vreset_compound;
  count ← fill_with add_rename pairs;
  '(tcres, _) ← call_and_process (count_op NFS4_OP_RENAME) no_change count tt;
  mret tcres.

(** Files of no type are skipped. *)
Definition add_remove (f : vfile) : M state bool :=
  match type f with
  | VFILE_NULL => mret true
  | _ =>
      '(r, name) ← tc_set_current_fh f true;
      if r : bool then name ← tc_new_auto_str name; tc_prepare_remove name else mret false
  end.

(** [while (files[i].type == VFILE_NULL) ++i;] *)
Fixpoint skip_null (n : nat) (files : list vfile) (i : nat) : M state nat :=
  match n, files !! i with
  | S n, Some f => if bool_decide (type f = VFILE_NULL) then skip_null n files (S i) else mret i
  | _, _ => stop
  end.

Definition remove_result (files : list vfile) (r : nfs_resop4) (i : nat) (x : unit) : M state (nat * unit) :=
  if resop r =? NFS4_OP_REMOVE then i ← skip_null (S (List.length files)) files i; mret (S i, x)
  else mret (i, x).

Definition tc_nfs4_removev (files : list vfile) : M state vres :=
  _ ← vreset_compound;
  count ← fill_with add_remove files;
  '(tcres, _) ← call_and_process (remove_result files) no_change count tt;
  mret tcres.

(** The string [dstname] keeps its value when the destination is not reached; at first it
    has none. *)
Definition add_copy (p : vextent_pair) (dstname : option text) : M state (bool * option text) :=
  '(r, srcname) ← tc_set_cfh_to_path (src_path p) true false;
  r ← (if r : bool then
         buf ← tc_alloca;
         tc_prepare_open srcname 0 buf None ;&& tc_prepare_savefh None
       else mret false);
  '(r, dstname) ← (if r : bool then
         '(r, name) ← tc_set_cfh_to_path (dst_path p) true false; mret (r, Some name)
       else mret (false, dstname));
  name ← need dstname;
  s ← tc_new_auto_str name;
  attrs4 ← vattrs_to_fattr4
    (vset_up_creation (mk_attrs vfile_current VMASK_INIT_NONE junk_vals) s 493 euid egid);
  r ← (if r : bool then
         buf ← tc_alloca;
         tc_prepare_open name (Z.lor O_WRONLY O_CREAT) buf (Some attrs4) ;&&
         tc_prepare_copy (src_offset p) (dst_offset p) (ext_length p) ;&&
         tc_prepare_close None ;&& tc_prepare_restorefh ;&& tc_prepare_close None
       else mret false);
  mret (r, dstname).

Definition copy_result (r : nfs_resop4) (i : nat) (pairs : list vextent_pair) : M state (nat * list vextent_pair) :=
  if resop r =? NFS4_OP_COPY then
    match resok r with
    | RCopy n =>
        pairs ← update pairs i (fun p =>
          mret (mk_extent (src_path p) (dst_path p) (src_offset p) (dst_offset p) n));
        mret (S i, pairs)
    | _ => stop
    end
  else mret (i, pairs).

Definition tc_nfs4_lcopyv (pairs : list vextent_pair) : M state (vres * list vextent_pair) :=
  _ ← check alloc;
  _ ← vreset_compound;
  '(count, _) ← fill add_copy pairs 0 None;
  call_and_process copy_result no_change count pairs.

(** The name of the link is the rest of the string from the base name on. *)
Definition add_hardlink (x : text * text) : M state bool :=
  let '(oldpath, newpath) := x in
  '(r, _) ← tc_set_cfh_to_path oldpath false true;
  if r : bool then
    '(r, _) ← tc_set_cfh_to_path newpath true false;
    if r : bool then
      tc_has_enough_ops 1 ;&& (name ← need (base_string newpath); tc_prepare_hardlink name)
    else mret false
  else mret false.

Definition tc_nfs4_hardlinkv (oldpaths newpaths : list text) : M state vres :=
  _ ← vreset_compound;
  count ← fill_with add_hardlink (zip oldpaths newpaths);
  '(tcres, _) ← call_and_process (count_op NFS4_OP_LINK) no_change count tt;
  mret tcres.

Definition add_symlink (x : text * text) : M state bool :=
  let '(oldpath, newpath) := x in
  '(r, name) ← tc_set_cfh_to_path newpath true true;
  if r : bool then
    pname ← tc_new_auto_str name;
    attrs4 ← vattrs_to_fattr4
      (vset_up_creation (mk_attrs vfile_current VMASK_INIT_NONE junk_vals) pname 493 euid egid);
    tc_prepare_symlink pname oldpath attrs4
  else mret false.

Definition tc_nfs4_symlinkv (oldpaths newpaths : list text) : M state vres :=
  _ ← check alloc;
  _ ← vreset_compound;
  count ← fill_with add_symlink (zip oldpaths newpaths);
  '(tcres, _) ← call_and_process (count_op NFS4_OP_CREATE) no_change count tt;
  mret tcres.

Definition add_readlink (x : text * Z) : M state bool :=
  let '(p, bufsize) := x in
  '(r, name) ← tc_set_cfh_to_path p true true;
  if r : bool then tc_prepare_lookups [name] ;&& tc_prepare_readlink bufsize else mret false.

(** The contents of the buffers, and their sizes. A text that fills its buffer is not
    terminated. *)
Definition readlink_result (r : nfs_resop4) (i : nat) (x : list text * list Z) : M state (nat * (list text * list Z)) :=
  let '(bufs, bufsizes) := x in
  if resop r =? NFS4_OP_READLINK then
    match resok r with
    | RReadlink link lksize =>
        bufs ← update bufs i (fun _ => mret link);
        bufsizes ← update bufsizes i (fun n => mret (if lksize <? n then lksize else n));
        mret (S i, (bufs, bufsizes))
    | _ => stop
    end
  else mret (i, x).

Definition tc_nfs4_readlinkv (paths bufs : list text) (bufsizes : list Z) : M state (vres * list text * list Z) :=
  _ ← vreset_compound;
  count ← fill_with add_readlink (zip paths bufsizes);
  '(tcres, (bufs, bufsizes)) ← call_and_process readlink_result no_change count (bufs, bufsizes);
  mret (tcres, bufs, bufsizes).

(** *** The working directory *)

(** Whether the operations fit is not tested. *)
Definition tc_nfs4_chdir (p : text) : M state Z :=
  if negb alloc then mret (- ENOMEM)
  else
    _ ← vreset_compound;
    _ ← tc_set_cfh_to_path p false true;
    at_getfh ← gets opcnt;
    fhok ← tc_prepare_getfh;
    rc ← fs_nfsv4_call_null;
    if negb (rc =? 0) then mret (- rc)
    else
      _ ← check fhok;
      r ← gets (fun s => resoparray s !! at_getfh);
      r ← need r;
      h ← getfh_body r;
      _ ← puts (with_cwd (mk_cwd (take PATH_MAX p) h));
      mret 0.

Definition tc_nfs4_getcwd : M state text := cwd ← tc_get_cwd; mret (cwd_path cwd).

End builder.

(** ** Paths *)

Lemma tokenize_spec p :
  tokenize true p = Ok (Z.of_nat (List.length (PathSpec.path_components p)), PathSpec.path_components p).
Proof.
  unfold tokenize, Paths.tc_path_tokenize_s.
  destruct (Paths.get_path_components_spec p 0 p) as (comps & -> & Hb & _); [by intros i c | lia |].
  cbn [obind negb]. rewrite <- Hb, length_fmap. by destruct comps.
Qed.

(** A path whose length, and that of its relative paths, an [int] holds. *)
Definition int_path (p : text) : Prop := Z.of_nat (List.length p) < 2 ^ 30.

(** The relative path, unless it does not fit. *)
Lemma rebase_correct base p :
  Buf.NUL ∉ base -> (List.length base <= PATH_MAX)%nat -> int_path p ->
  exists n t, rebase base p = Ok (n, t) /\ (n < 0 \/ 0 <= n /\ t = PathSpec.rel_path base p).
Proof.
  intros Hn Hbase Hp. unfold rebase. cbv zeta. set (m := base ++ [Buf.NUL] ++ p ++ new_area).
  assert (Paths.cstr m 0 base) as Hc by (by apply (Paths.cstr_middle [] base)).
  rewrite (Paths.cstr_toslice m 0 base Hc).
  assert (List.length m = (List.length base + 1 + List.length p + PATH_MAX)%nat) as Hm.
  { unfold m, new_area. rewrite !length_app, length_replicate. cbn [List.length]. lia. }
  destruct (Paths.rebase_s_spec m 0 base (List.length base + 1) p
    (List.length base + 1 + List.length p) PATH_MAX) as (n & m' & b' & -> & H).
  - by apply Paths.cstr_holds.
  - lia.
  - intros i c Hi. unfold m. rewrite lookup_app_r, lookup_app_r, lookup_app_l; cbn [List.length].
    + by replace (List.length base + 1 + i - List.length base - 1)%nat with i by lia.
    + apply lookup_lt_Some in Hi. lia.
    + lia.
    + lia.
  - lia.
  - left. lia.
  - lia.
  - unfold PATH_MAX. lia.
  - done.
  - pose proof (Paths.rel_path_length base p). unfold Buf.int_sized. unfold int_path in Hp.
    unfold PATH_MAX in Hbase. lia.
  - cbn [obind]. eexists _, _. split; [done|]. destruct H as [[? _]|[? ->]]; auto.
Qed.

Lemma until_NUL_id l : Buf.NUL ∉ l -> until_NUL l = l.
Proof.
  induction l as [|c l IH]; intros H; [done|]. apply not_elem_of_cons in H as [H1 H2]. simpl.
  rewrite decide_False by (intros ->; done). by rewrite IH.
Qed.

(** A name without terminators compares equal to the parent only if it is one of its prefixes. *)
Lemma strncmp_dots c :
  Buf.NUL ∉ c -> strncmp_eq c dots (List.length c) = true -> c = [] \/ c = [PathSpec.DOT] \/ c = dots.
Proof.
  intros Hn. destruct c as [|a [|b [|d c]]]; cbn; [auto| | |].
  - case_bool_decide; [|done]. subst. auto.
  - case_bool_decide; [|done]. subst. rewrite bool_decide_false by done. cbn.
    case_bool_decide; [|done]. subst. auto.
  - case_bool_decide; [|done]. rewrite bool_decide_false by (intros ->; subst; done). cbn.
    case_bool_decide; [|done]. rewrite bool_decide_false by (intros ->; subst; done). cbn.
    case_bool_decide as E; [|done]. subst d. exfalso. apply Hn. set_solver.
Qed.

(** ** What a step of the builder does *)

Section placing.
Context {W : Type}.
Notation state := (fsal W).

Record wf (s : state) : Prop := {
  wf_array : List.length (argoparray s) = MAX_NUM_OPS_PER_COMPOUND;
  wf_opcnt : (opcnt s <= MAX_NUM_OPS_PER_COMPOUND)%nat
}.

(** The parts that building a compound does not change. *)
Record kept (s s' : state) : Prop := {
  k_results : resoparray s' = resoparray s;
  k_slot : slot_allocated s' = slot_allocated s;
  k_cwd : tc_cwd s' = tc_cwd s;
  k_slots : sess_slot_tbl s' = sess_slot_tbl s;
  k_net : net s' = net s
}.

(** The operations [new] were added, at most [n] buffers were used and the saved path is now
    [p]. *)
Record built (s : state) (new : list nfs_argop4) (n : nat) (p : text) (s' : state) : Prop := {
  b_wf : wf s';
  b_ops : ops s' = ops s ++ new;
  b_opcnt : opcnt s' = (opcnt s + List.length new)%nat;
  b_bufs : (tc_bufcnt s' <= tc_bufcnt s + n)%nat;
  b_path : tc_saved_path s' = p;
  b_kept : kept s s'
}.

(** Operations may have been added, but not all that were needed. *)
Record short (s : state) (n : nat) (s' : state) : Prop := {
  sh_wf : wf s';
  sh_ops : take (opcnt s) (argoparray s') = ops s;
  sh_opcnt : (opcnt s <= opcnt s')%nat;
  sh_bufs : (tc_bufcnt s' <= tc_bufcnt s + n)%nat;
  sh_kept : kept s s'
}.

(** The computation adds [new], uses at most [n] buffers, leaves the saved path [p] and
    returns [ok] when [new] fits; otherwise it returns something in [no]. *)
Definition places {A} (ok : A) (no : A -> Prop) (c : M state A) (s : state) (new : list nfs_argop4) (n : nat)
    (p : text) : Prop :=
  ((opcnt s + List.length new <= MAX_NUM_OPS_PER_COMPOUND)%nat ->
     exists s', c s = done (ok, s') /\ built s new n p s')
  /\ ((MAX_NUM_OPS_PER_COMPOUND < opcnt s + List.length new)%nat ->
     exists a s', c s = done (a, s') /\ no a /\ short s n s').

Notation adds := (places true (eq false)).
Notation adds_for x := (places (true, x) (fun r => r.1 = false)).

Lemma kept_refl s : kept s s.
Proof. by split. Qed.

Lemma kept_trans s1 s2 s3 : kept s1 s2 -> kept s2 s3 -> kept s1 s3.
Proof. intros [] []. split; congruence. Qed.

Lemma built_refl s : wf s -> built s [] 0 (tc_saved_path s) s.
Proof.
  intros H. split; [done | by rewrite app_nil_r | cbn; lia | lia | done | apply kept_refl].
Qed.

Lemma built_trans s1 a n p s2 b m q s3 :
  built s1 a n p s2 -> built s2 b m q s3 -> built s1 (a ++ b) (n + m) q s3.
Proof.
  intros [W1 O1 C1 B1 P1 K1] [W2 O2 C2 B2 P2 K2]. split; [done | | | lia | done | by eapply kept_trans].
  - by rewrite O2, O1, app_assoc.
  - rewrite C2, C1, length_app. lia.
Qed.

Lemma built_weaken s a n m p s' : built s a n p s' -> (n <= m)%nat -> built s a m p s'.
Proof. intros [] ?. split; try done. lia. Qed.

Lemma built_short s1 a n p s2 m s3 : built s1 a n p s2 -> short s2 m s3 -> short s1 (n + m) s3.
Proof.
  intros [W1 O1 C1 B1 P1 K1] [W2 O2 C2 B2 K2]. split; [done | | lia | lia | by eapply kept_trans].
  assert (ops s1 = take (opcnt s1) (ops s2)) as ->.
  { rewrite O1, take_app_le; [by rewrite firstn_all2 by (unfold ops; rewrite length_take; lia)|].
    apply (f_equal List.length) in O1. unfold ops in *. rewrite length_app, !length_take in O1.
    destruct W1. rewrite length_take. lia. }
  rewrite <- O2, take_take. f_equal. lia.
Qed.

Lemma short_weaken s n m s' : short s n s' -> (n <= m)%nat -> short s m s'.
Proof. intros [] ?. split; try done. lia. Qed.

Lemma short_refl s : wf s -> short s 0 s.
Proof. intros H. split; [done | done | lia | lia | apply kept_refl]. Qed.

Lemma add_op_spec o s :
  wf s -> (opcnt s < MAX_NUM_OPS_PER_COMPOUND)%nat ->
  exists s', add_op o s = done (tt, s') /\ built s [o] 0 (tc_saved_path s) s'.
Proof.
  intros [Ha Ho] Hlt. unfold add_op. rewrite (proj2 (Nat.ltb_lt _ _) Hlt). cbn [oassert obind].
  eexists. split; [done|].
  split; cbn; [|by apply take_insert_last; lia | lia | lia | done | by split].
  split; cbn; [by rewrite length_insert | lia].
Qed.

Lemma prepare_adds o s : wf s -> adds (prepare o) s [o] 0 (tc_saved_path s).
Proof.
  intros Hwf. unfold prepare, tc_has_enough_ops, gets. split; cbn [List.length]; intros Hn.
  - rewrite (bind_done _ _ _ true s) by (f_equal; f_equal; f_equal; by apply Nat.leb_le).
    destruct (add_op_spec o s Hwf) as (s' & E & Hb); [lia|].
    rewrite (bind_done _ _ _ _ _ E). by exists s'.
  - rewrite (bind_done _ _ _ false s) by (f_equal; f_equal; f_equal; by apply Nat.leb_gt).
    exists false, s. split_and!; [done | done | by apply short_refl].
Qed.

Lemma places_run {A B} (ok : B) no (c : M state A) (k : A -> M state B) s a s1 n p1 new m q :
  c s = done (a, s1) -> built s [] n p1 s1 -> places ok no (k a) s1 new m q ->
  places ok no (c ≫= k) s new (n + m) q.
Proof.
  intros E Hb [H1 H2]. pose proof (b_opcnt _ _ _ _ _ Hb) as Hn. cbn in Hn. rewrite Nat.add_0_r in Hn.
  rewrite Hn in H1, H2. split; intros H; rewrite (bind_done _ _ _ _ _ E).
  - destruct (H1 H) as (s' & -> & Hb'). exists s'. split; [done|]. exact (built_trans _ _ _ _ _ _ _ _ _ Hb Hb').
  - destruct (H2 H) as (b & s' & -> & Hno & Hs). exists b, s'. split_and!; [done | done |].
    exact (built_short _ _ _ _ _ _ _ Hb Hs).
Qed.

(** [x ← c; mret (f x)] *)
Lemma places_map {A B} (ok : A) (no : A -> Prop) (no' : B -> Prop) (f : A -> B) c s new n p :
  places ok no c s new n p -> (forall a, no a -> no' (f a)) ->
  places (f ok) no' (a ← c; mret (f a)) s new n p.
Proof.
  intros [H1 H2] Hf. split; intros H.
  - destruct (H1 H) as (s' & E & Hb). rewrite (bind_done _ _ _ _ _ E). by exists s'.
  - destruct (H2 H) as (a & s' & E & Hno & Hs). rewrite (bind_done _ _ _ _ _ E). eexists _, s'. eauto.
Qed.

Lemma places_eq {A} (ok : A) no c s new n p new' n' p' :
  places ok no c s new' n' p' -> new' = new -> (n' <= n)%nat -> p' = p -> places ok no c s new n p.
Proof.
  intros [H1 H2] -> Hn ->. split; intros H.
  - destruct (H1 H) as (s' & E & Hb). exists s'. split; [done|]. by eapply built_weaken.
  - destruct (H2 H) as (a & s' & E & Hno & Hs). exists a, s'. split_and!; [done | done |].
    by eapply short_weaken.
Qed.

Lemma places_ext {A} (ok : A) no (c c' : M state A) s new n p :
  (forall s, c s = c' s) -> places ok no c' s new n p -> places ok no c s new n p.
Proof. intros E [H1 H2]. split; rewrite E; done. Qed.

Lemma places_ret {A} (ok : A) no s : wf s -> places ok no (mret ok) s [] 0 (tc_saved_path s).
Proof.
  intros Hwf. split; cbn [List.length]; intros H.
  - exists s. split; [done|]. by apply built_refl.
  - destruct Hwf. lia.
Qed.

(** A step after operations that were added: the general form of [;&&]. *)
Lemma places_bind {A B} (ok : A) (no : A -> Prop) (ok' : B) no' (c : M state A) (k : A -> M state B) s a n p b m q :
  places ok no c s a n p ->
  (forall s1, built s a n p s1 -> places ok' no' (k ok) s1 b m q) ->
  (forall x s1, no x -> exists y, k x s1 = done (y, s1) /\ no' y) ->
  places ok' no' (c ≫= k) s (a ++ b) (n + m) q.
Proof.
  intros [H1 H2] Hk Hno. rewrite <- (Nat.add_0_r n) in H2.
  split; rewrite length_app; intros H.
  - destruct H1 as (s1 & E & Hb); [lia|]. rewrite (bind_done _ _ _ _ _ E).
    destruct (Hk s1 Hb) as [H3 _]. destruct H3 as (s2 & E2 & Hb2).
    { rewrite (b_opcnt _ _ _ _ _ Hb). lia. }
    exists s2. split; [done|]. exact (built_trans _ _ _ _ _ _ _ _ _ Hb Hb2).
  - destruct (decide (opcnt s + List.length a <= MAX_NUM_OPS_PER_COMPOUND)%nat) as [Hf|Hf].
    + destruct (H1 Hf) as (s1 & E & Hb). rewrite (bind_done _ _ _ _ _ E).
      destruct (Hk s1 Hb) as [_ H3]. destruct H3 as (y & s2 & E2 & Hy & Hs).
      { rewrite (b_opcnt _ _ _ _ _ Hb). lia. }
      exists y, s2. split_and!; [done | done |]. exact (built_short _ _ _ _ _ _ _ Hb Hs).
    + destruct H2 as (x & s1 & E & Hx & Hs); [lia|]. rewrite (bind_done _ _ _ _ _ E).
      destruct (Hno x s1 Hx) as (y & E2 & Hy). exists y, s1. split_and!; [done | done |].
      eapply short_weaken; [exact Hs | lia].
Qed.

Lemma adds_and c1 c2 s a n p b m q :
  adds c1 s a n p -> (forall s1, built s a n p s1 -> adds c2 s1 b m q) ->
  adds (and_then c1 c2) s (a ++ b) (n + m) q.
Proof.
  intros H1 H2. refine (places_bind true (eq false) true (eq false) c1 _ s a n p b m q H1 H2 _).
  intros x s1 <-. by exists false.
Qed.

Lemma short_restored s n s' : short s n s' -> short s n (with_ops (argoparray s') (opcnt s) s').
Proof.
  intros [[Ha Ho] H2 H3 H4 []]. split; [split; [done | cbn; lia] | done | cbn; lia | done | by split].
Qed.

Lemma adds_restore c s new n p : adds c s new n p -> adds (or_restore c) s new n p.
Proof.
  intros [H1 H2]. unfold or_restore, gets. split; intros H; rewrite (bind_done _ _ _ (opcnt s) s) by done.
  - destruct (H1 H) as (s' & E & Hb). rewrite (bind_done _ _ _ _ _ E). by exists s'.
  - destruct (H2 H) as (a & s' & E & <- & Hs). rewrite (bind_done _ _ _ _ _ E).
    exists false. eexists. split_and!; [done | done |]. by apply short_restored.
Qed.

(** *** Lookups *)

Definition lookup_op (c : text) : list nfs_argop4 :=
  if (List.length c =? 0)%nat then []
  else if bool_decide (c = [PathSpec.DOT]) then []
  else [if strncmp_eq c dots (List.length c) then OP_LOOKUPP else OP_LOOKUP c].

Lemma lookups_adds comps s :
  wf s -> adds (lookups comps) s (concat (map lookup_op comps)) 0 (tc_saved_path s).
Proof.
  revert s. induction comps as [|c comps IH]; intros s Hwf; [by apply places_ret|].
  cbn [lookups map concat]. unfold lookup_op at 1.
  destruct (List.length c =? 0)%nat; [by apply IH|].
  case_bool_decide; [by apply IH|].
  refine (adds_and _ _ s [_] 0 _ _ 0 _ (prepare_adds _ s Hwf) _).
  intros s1 Hb. rewrite <- (b_path _ _ _ _ _ Hb). apply IH, Hb.
Qed.

Lemma tc_prepare_lookups_adds comps s :
  wf s -> adds (tc_prepare_lookups comps) s (concat (map lookup_op comps)) 0 (tc_saved_path s).
Proof. intros Hwf. by apply adds_restore, lookups_adds. Qed.

Lemma lookup_ops_names names :
  Forall PathSpec.proper names -> Forall (fun n => Buf.NUL ∉ n) names ->
  concat (map lookup_op names) = map OP_LOOKUP names.
Proof.
  induction 1 as [|n names (H1 & H2 & H3 & _) _ IH]; intros Hn; [done|]. inversion_clear Hn as [|? ? Hc Hns].
  cbn [map concat]. rewrite IH by done. unfold lookup_op.
  rewrite (proj2 (Nat.eqb_neq _ _)) by (by destruct n). rewrite bool_decide_false by done.
  destruct (strncmp_eq n dots _) eqn:E; [|done].
  by destruct (strncmp_dots n Hc E) as [? | [? | ?]].
Qed.

Lemma lookup_ops_up k : concat (map lookup_op (replicate k PathSpec.DOTDOT_)) = replicate k OP_LOOKUPP.
Proof. induction k as [|k IH]; [done|]. cbn [replicate map concat]. by rewrite IH. Qed.

(** *** The current file handle *)

Lemma parent_base_spec p :
  Buf.NUL ∉ p -> PathSpec.is_abs p = true ->
  PathSpec.is_abs (dir_base p).1 = true /\ (Buf.NUL ∉ (dir_base p).1) /\ (Buf.NUL ∉ (dir_base p).2)
  /\ (PathSpec.SLASH ∉ (dir_base p).2)
  /\ PathSpec.norm true p = PathSpec.walk (PathSpec.norm true (dir_base p).1) (dir_base p).2.
Proof.
  intros Hp Hs. pose proof (Paths.dir_base_abs p Hp Hs) as H. cbv zeta in H. unfold dir_base.
  destruct (Paths.tc_path_dir_base_s _ _) as [[ok dir] base]. destruct H as (H1 & H2 & _ & H4 & H5 & H6).
  cbn [fst snd]. split_and!; try done.
  rewrite <- (PathSpec.resolve_abs [] p), <- (PathSpec.resolve_abs [] _ H1) by done. apply H6.
Qed.

Lemma dir_base_length p :
  Buf.NUL ∉ p -> PathSpec.is_abs p = true -> (List.length (dir_base p).1 <= List.length p)%nat.
Proof.
  intros Hp Hs. pose proof (Paths.dir_base_abs p Hp Hs) as H. cbv zeta in H. unfold dir_base.
  destruct (Paths.tc_path_dir_base_s _ _) as [[ok dir] base]. apply H.
Qed.

(** The names from the root to the directory [d], or from the saved directory. *)
Inductive route (saved d : text) : bool -> list text -> Prop :=
  | from_root : route saved d false (PathSpec.path_components d)
  | from_saved l :
      saved <> [] -> (l <= List.length (PathSpec.norm true saved))%nat ->
      take l (PathSpec.norm true saved) = take l (PathSpec.norm true d) ->
      (List.length (PathSpec.norm true saved) - l + List.length (drop l (PathSpec.norm true d)) + 1
        < List.length (PathSpec.path_components d))%nat ->
      route saved d true
        (replicate (List.length (PathSpec.norm true saved) - l) PathSpec.DOTDOT_ ++ drop l (PathSpec.norm true d)).

(** The saved path of a compound. *)
Definition path_ok (p : text) : Prop :=
  p = [] \/ PathSpec.is_abs p = true /\ (Buf.NUL ∉ p) /\ (List.length p <= PATH_MAX)%nat.

Lemma alloca_spec s : wf s -> exists b s1, tc_alloca true s = done (b, s1) /\ built s [] 1 (tc_saved_path s) s1.
Proof.
  intros Hwf. unfold tc_alloca, gets, puts. rewrite (bind_done _ _ _ (tc_bufcnt s) s) by done.
  destruct (_ =? _)%nat; cbn [orb negb].
  - exists false, s. split; [done|]. apply (built_weaken _ _ 0); [by apply built_refl | lia].
  - exists true. eexists. split; [done|]. destruct Hwf.
    split; cbn; [done | by rewrite app_nil_r | lia | lia | done | by split].
Qed.

Lemma tc_compress_path_spec d s :
  wf s -> PathSpec.is_abs d = true -> int_path d -> path_ok (tc_saved_path s) ->
  exists b comps s1, tc_compress_path true d s = done ((b, comps, d), s1)
    /\ built s [] 1 (tc_saved_path s) s1 /\ route (tc_saved_path s) d b comps.
Proof.
  intros Hwf Hd Hl Hsp. unfold tc_compress_path, gets.
  assert (starts_with_slash d = true) as -> by (by destruct d).
  rewrite (bind_done _ _ _ d s) by done. rewrite tokenize_spec. cbn [run].
  rewrite (bind_done _ _ _ _ _ eq_refl). cbn beta iota.
  rewrite (bind_done _ _ _ tt s) by (unfold check; by rewrite (proj2 (Z.leb_le _ _)) by lia).
  rewrite (bind_done _ _ _ (tc_saved_path s) s) by done.
  assert (built s [] 1 (tc_saved_path s) s) as Hb0.
  { apply (built_weaken _ _ 0); [by apply built_refl | lia]. }
  destruct (tc_saved_path s) as [|x saved] eqn:Es; [eexists _, _, s; eauto using from_root|].
  rewrite <- Es in *. destruct Hsp as [Hsp | (Ha & Hnul & Hmax)]; [congruence|].
  destruct (alloca_spec s Hwf) as (b & s1 & E & Hb). rewrite (bind_done _ _ _ _ _ E).
  destruct b; cbn [negb]; [|eexists _, _, s1; eauto using from_root].
  destruct (rebase_correct (tc_saved_path s) d Hnul Hmax Hl) as (n & t & -> & Hn). cbn [run].
  rewrite (bind_done _ _ _ _ _ eq_refl). cbn beta iota.
  destruct (Z.ltb_spec n 0) as [Hneg | Hpos]; [eexists _, _, s1; eauto using from_root|].
  destruct Hn as [? | [_ ->]]; [lia|]. rewrite tokenize_spec. cbn [run].
  rewrite (bind_done _ _ _ _ _ eq_refl). cbn beta iota.
  rewrite (bind_done _ _ _ tt s1) by (unfold check; by rewrite (proj2 (Z.leb_le _ _)) by lia).
  destruct (Z.ltb_spec (Z.of_nat (List.length (PathSpec.path_components (PathSpec.rel_path (tc_saved_path s) d))) + 1)
    (Z.of_nat (List.length (PathSpec.path_components d)))) as [Hlt | Hge];
    [|eexists _, _, s1; eauto using from_root].
  destruct (PathSpec.rel_shorter (tc_saved_path s) d Ha Hd) as (l & Hll & Ht & Ec); [lia|]. rewrite Ec in *.
  eexists _, _, s1. split_and!; [done | done |]. rewrite length_app, length_replicate in Hlt.
  apply from_saved; [congruence | done | done | lia].
Qed.

(** The operations before the lookups from the saved directory. *)
Definition restore_ops (before : list nfs_argop4) : list nfs_argop4 :=
  if not_changed_since_savefh (rev before) then [] else [OP_RESTOREFH].

Lemma tc_prepare_restorefh_adds s :
  wf s -> adds tc_prepare_restorefh s (restore_ops (ops s)) 0 (tc_saved_path s).
Proof.
  intros Hwf. unfold tc_prepare_restorefh, tc_cfh_not_changed_since_savefh, gets, restore_ops.
  refine (places_run _ _ _ _ s _ s 0 (tc_saved_path s) _ 0 _ eq_refl (built_refl s Hwf) _).
  destruct (not_changed_since_savefh _); [by apply places_ret | by apply prepare_adds].
Qed.

(** The operations after the lookups, and the saved path. *)
Definition save_ops (before : list nfs_argop4) : list nfs_argop4 :=
  if not_changed_since_savefh (rev before) || not_changed_since_restorefh (rev before) then [] else [OP_SAVEFH].
Definition save_path (before : list nfs_argop4) (d saved : text) : text :=
  if not_changed_since_savefh (rev before) || not_changed_since_restorefh (rev before) then saved
  else if (PATH_MAX <? List.length d)%nat then [] else d.

Lemma tc_prepare_savefh_adds d s :
  wf s -> Buf.NUL ∉ d ->
  adds (tc_prepare_savefh (Some d)) s (save_ops (ops s)) 0 (save_path (ops s) d (tc_saved_path s)).
Proof.
  intros Hwf Hd. unfold tc_prepare_savefh, tc_cfh_not_changed_since_savefh, tc_cfh_not_changed_since_restorefh, gets,
    save_ops, save_path.
  refine (places_run _ _ _ _ s _ s 0 (tc_saved_path s) _ 0 _ eq_refl (built_refl s Hwf) _).
  refine (places_run _ _ _ _ s _ s 0 (tc_saved_path s) _ 0 _ eq_refl (built_refl s Hwf) _).
  destruct (_ || _); [by apply places_ret|].
  refine (adds_and _ _ s [_] 0 _ [] 0 _ (prepare_adds _ s Hwf) _). intros s1 Hb.
  assert (wf s1) as Hwf1 by apply Hb.
  refine (places_run _ _ _ _ s1 tt _ 0 _ _ 0 _ eq_refl _ _).
  - destruct Hwf1. split; [done | by rewrite app_nil_r | cbn; lia | cbn; lia | done | by split].
  - eapply places_eq; [apply places_ret | done | lia |].
    + by destruct Hwf1.
    + cbn. by rewrite until_NUL_id.
Qed.

Lemma names_plain d : Buf.NUL ∉ d -> Forall (fun n => Buf.NUL ∉ n) (PathSpec.norm true d).
Proof.
  intros Hd. apply Forall_forall. intros n Hn Hx. apply Hd. by eapply PathSpec.norm_chars.
Qed.

Lemma names_ops d :
  Buf.NUL ∉ d -> concat (map lookup_op (PathSpec.norm true d)) = map OP_LOOKUP (PathSpec.norm true d).
Proof.
  intros Hd. apply lookup_ops_names; [apply PathSpec.norm_abs_proper | by apply names_plain].
Qed.

Lemma tc_set_cfh_from_root_adds d s :
  wf s -> PathSpec.is_abs d = true -> Buf.NUL ∉ d ->
  adds (tc_set_cfh_from_root (PathSpec.path_components d)) s
    (OP_PUTROOTFH :: map OP_LOOKUP (PathSpec.norm true d)) 0 (tc_saved_path s).
Proof.
  intros Hwf Ha Hd. apply adds_restore. rewrite <- names_ops by done.
  refine (adds_and _ _ s [_] 0 _ _ 0 _ (prepare_adds _ s Hwf) _).
  intros s1 Hb. rewrite <- (b_path _ _ _ _ _ Hb).
  destruct (PathSpec.abs_components d Ha) as [[-> ->] | (c & cs & -> & ->)];
    (eapply places_eq; [apply tc_prepare_lookups_adds, Hb | done | lia | done]).
Qed.

(** What moves to a directory after the operations [before]. *)
Definition go_ops (before : list nfs_argop4) (d : text) (b : bool) (comps : list text) : list nfs_argop4 :=
  if b then restore_ops before ++ concat (map lookup_op comps)
  else OP_PUTROOTFH :: map OP_LOOKUP (PathSpec.norm true d).

Lemma go_adds d b comps s saved :
  wf s -> PathSpec.is_abs d = true -> Buf.NUL ∉ d -> route saved d b comps ->
  adds (if b then and_then tc_prepare_restorefh (tc_prepare_lookups comps) else tc_set_cfh_from_root comps)
    s (go_ops (ops s) d b comps) 0 (tc_saved_path s).
Proof.
  intros Hwf Ha Hd Hr. unfold go_ops.
  destruct Hr as [|l]; [by apply tc_set_cfh_from_root_adds|].
  refine (adds_and _ _ s _ 0 _ _ 0 _ (tc_prepare_restorefh_adds s Hwf) _).
  intros s1 Hb. rewrite <- (b_path _ _ _ _ _ Hb). apply tc_prepare_lookups_adds, Hb.
Qed.

(** After the operations [before], when [saved] is the saved path, the operations [new] go to
    the directory [d] and save it; [q] is then the saved path. *)
Inductive reaches (before : list nfs_argop4) (saved d : text) : list nfs_argop4 -> text -> Prop :=
  | reaches_intro b comps :
      route saved d b comps ->
      reaches before saved d
        (go_ops before d b comps ++ save_ops (before ++ go_ops before d b comps))
        (save_path (before ++ go_ops before d b comps) d saved).

Lemma tc_set_cfh_to_path_adds p leaf d name s :
  wf s -> path_ok (tc_saved_path s) -> PathSpec.is_abs p = true ->
  (if leaf : bool then dir_base p else (p, [])) = (d, name) -> PathSpec.is_abs d = true -> Buf.NUL ∉ d -> int_path d ->
  exists new q, reaches (ops s) (tc_saved_path s) d new q /\
    adds_for name (tc_set_cfh_to_path true p leaf true) s new 1 q.
Proof.
  intros Hwf Hsp Hp Ed Ha Hd Hl. unfold tc_set_cfh_to_path. rewrite Ed.
  assert (starts_with_slash p = true) as -> by (by destruct p).
  destruct (tc_compress_path_spec d s Hwf Ha Hl Hsp) as (b & comps & s1 & E & Hb1 & Hr).
  eexists _, _. split; [by apply (reaches_intro _ _ _ b comps)|].
  refine (places_map true (eq false) (fun r => r.1 = false) (fun r => (r, name)) _ _ _ _ _ _ _); [|by intros a <-].
  apply adds_restore. refine (places_run _ _ _ _ s _ s1 1 _ _ 0 _ E Hb1 _). cbn beta iota.
  assert (wf s1) as Hwf1 by apply Hb1.
  assert (ops s1 = ops s) as Eo by (rewrite (b_ops _ _ _ _ _ Hb1); apply app_nil_r).
  rewrite <- (b_path _ _ _ _ _ Hb1), <- Eo.
  refine (adds_and _ _ s1 _ 0 _ _ 0 _ (go_adds d b comps s1 _ Hwf1 Ha Hd Hr) _).
  intros s2 Hb2. rewrite <- (b_path _ _ _ _ _ Hb2), <- (b_ops _ _ _ _ _ Hb2).
  apply tc_prepare_savefh_adds; [apply Hb2 | done].
Qed.

Lemma save_path_ok before d saved :
  path_ok saved -> PathSpec.is_abs d = true -> Buf.NUL ∉ d -> path_ok (save_path before d saved).
Proof.
  intros H1 H2 H3. unfold save_path. destruct (_ || _); [done|].
  destruct (Nat.ltb_spec PATH_MAX (List.length d)); [by left | by right].
Qed.

Lemma reaches_ok before saved d new q :
  reaches before saved d new q -> path_ok saved -> PathSpec.is_abs d = true -> Buf.NUL ∉ d -> path_ok q.
Proof. intros [] ???. by apply save_path_ok. Qed.

(** Going from the saved directory takes no more operations than from the root. *)
Lemma reaches_length before saved d new q :
  reaches before saved d new q -> PathSpec.is_abs d = true -> Buf.NUL ∉ d ->
  (List.length new <= List.length (PathSpec.norm true d) + 2)%nat.
Proof.
  intros [b comps Hr] Ha Hd. rewrite length_app.
  assert (forall l, (List.length (save_ops l) <= 1)%nat) as Hs.
  { intros l. unfold save_ops. destruct (_ || _); cbn; lia. }
  specialize (Hs (before ++ go_ops before d b comps)).
  revert Hs. generalize (List.length (save_ops (before ++ go_ops before d b comps))). intros sv Hs.
  unfold go_ops. destruct Hr as [|l Hne Hl Ht Hlen].
  - cbn [List.length]. rewrite length_map. lia.
  - rewrite length_app. assert (List.length (restore_ops before) <= 1)%nat.
    { unfold restore_ops. destruct (not_changed_since_savefh _); cbn; lia. }
    rewrite map_app, concat_app, lookup_ops_up, length_app, length_replicate.
    rewrite lookup_ops_names, length_map.
    + destruct (PathSpec.abs_components d Ha) as [[_ E] | (c & cs & E1 & E)]; rewrite E in Hlen; cbn [List.length] in Hlen;
        [lia|]. rewrite E1 in *. cbn [List.length]. lia.
    + apply Forall_drop, PathSpec.norm_abs_proper.
    + by apply Forall_drop, names_plain.
Qed.

(** *** Arrays of elements *)

(** An element takes no more than three buffers for each of its own operations. *)
Definition roomy (s : state) : Prop := (tc_bufcnt s <= 3 * opcnt s)%nat.

Lemma roomy_bufs s : wf s -> roomy s -> (tc_bufcnt s + 2 < MAX_BUFS_PER_COMPOUND)%nat.
Proof.
  intros [_ H1] H2. unfold roomy, MAX_BUFS_PER_COMPOUND, MAX_NUM_OPS_PER_COMPOUND in *. lia.
Qed.

Section elements.
(** How an element is added: operations that go to its directory, then its own. *)
Context {A : Type} (add : A -> M state bool) (dir : A -> text) (own : A -> list nfs_argop4) (P : A -> Prop).
Hypothesis dir_ok : forall a, P a -> PathSpec.is_abs (dir a) = true /\ (Buf.NUL ∉ dir a).
Hypothesis add_adds : forall a s, P a -> wf s -> roomy s -> path_ok (tc_saved_path s) ->
  exists new n q, reaches (ops s) (tc_saved_path s) (dir a) new q /\ adds (add a) s (new ++ own a) n q
    /\ (n <= 3 * List.length (own a))%nat.

(** The operations for a list of elements. *)
Inductive staged (before : list nfs_argop4) (saved : text) : list A -> list nfs_argop4 -> Prop :=
  | staged_nil : staged before saved [] []
  | staged_cons a l new q rest :
      reaches before saved (dir a) new q -> staged (before ++ new ++ own a) q l rest ->
      staged before saved (a :: l) ((new ++ own a) ++ rest).

(** The number of operations when every element is reached from the root. *)
Definition root_size (l : list A) : nat :=
  sum_list (map (fun a => List.length (PathSpec.norm true (dir a)) + 2 + List.length (own a))%nat l).

Lemma fill_staged l : forall s k, Forall P l -> wf s -> roomy s -> path_ok (tc_saved_path s) ->
  exists n new s', fill (fun a _ => r ← add a; mret (r, tt)) l k tt s = done (((k + n)%nat, tt), s')
    /\ wf s' /\ kept s s' /\ (n <= List.length l)%nat /\ ops s' = ops s ++ new
    /\ staged (ops s) (tc_saved_path s) (take n l) new
    /\ forall j, (j <= List.length l)%nat ->
         (opcnt s + root_size (take j l) <= MAX_NUM_OPS_PER_COMPOUND)%nat -> (j <= n)%nat.
Proof.
  induction l as [|a l IH]; intros s k HP Hwf Hroom Hsp.
  { exists 0%nat, [], s. rewrite Nat.add_0_r, app_nil_r. split_and!; try done; auto using kept_refl, staged_nil. }
  inversion_clear HP as [|? ? Ha Hl]. destruct (dir_ok a Ha) as [Hda Hdn].
  destruct (add_adds a s Ha Hwf Hroom Hsp) as (new & m & q & Hr & [H1 H2] & Hm). cbn [fill]. unfold gets.
  rewrite (bind_done _ _ _ (opcnt s) s) by done.
  destruct (decide (opcnt s + List.length (new ++ own a) <= MAX_NUM_OPS_PER_COMPOUND)%nat) as [Hf | Hf].
  - destruct (H1 Hf) as (s1 & E & Hb).
    erewrite bind_done by (erewrite bind_done by exact E; reflexivity). cbn beta iota.
    destruct (IH s1 (S k)) as (n & rest & s' & -> & H3 & H4 & H5 & H6 & H7 & H8); [done | apply Hb | | |].
    { destruct Hb as [_ _ Hc Hbu _ _]. unfold roomy in *. rewrite Hc, length_app. lia. }
    { rewrite (b_path _ _ _ _ _ Hb). by apply (reaches_ok _ _ _ _ _ Hr). }
    exists (S n), ((new ++ own a) ++ rest), s'. split_and!; [by rewrite Nat.add_succ_r | done | | cbn; lia | | | ].
    + eapply kept_trans; [apply Hb | done].
    + rewrite H6, (b_ops _ _ _ _ _ Hb). symmetry. apply app_assoc.
    + cbn [take]. apply (staged_cons _ _ _ _ _ q); [done|].
      by rewrite <- (b_ops _ _ _ _ _ Hb), <- (b_path _ _ _ _ _ Hb).
    + intros [|j] Hj Hfit; [lia|]. cbn in Hj. apply le_n_S, H8; [lia|].
      pose proof (reaches_length _ _ _ _ _ Hr Hda Hdn). destruct Hb as [_ _ Hc _ _ _].
      rewrite Hc, length_app. unfold root_size in *. cbn in Hfit. lia.
  - destruct H2 as (? & s1 & E & <- & Hs); [lia|]. destruct (short_restored _ _ _ Hs) as [W1 O1 _ _ K1].
    erewrite bind_done by (erewrite bind_done by exact E; reflexivity). cbn beta iota.
    unfold set_opcnt, puts. rewrite (bind_done _ _ _ _ _ eq_refl).
    exists 0%nat, []. eexists. rewrite Nat.add_0_r, app_nil_r.
    split_and!; [done | done | done | cbn; lia | exact O1 | apply staged_nil|].
    intros [|j] Hj Hfit; [lia|]. pose proof (reaches_length _ _ _ _ _ Hr Hda Hdn).
    rewrite length_app in Hf. unfold root_size in *. cbn in Hfit. lia.
Qed.

End elements.

End placing.

End Cpd.
