(* ===== verification/CompoundExec.v ===== *)
(** What a server does with the compounds of [Compounds.v], and what the operations of
    [nfs4/handle.c] then return. Module [Exec]. The server executes the operations of a
    compound in order up to the first failure, on a current and a saved file handle; its
    files, and the operations on them, are a record. *)

From S2P Require Import Prelude CommonTypes PathSpec PathUtils SessionSlots FdTable TcApi Nfs4Impl DataCache NfsCache Compounds.
Import Api Nfs Cpd.
Local Open Scope Z_scope.

Module Exec.

Notation text := (list ascii).
Notation fhandle := Fds.nfs_fh4.

Definition NFS4ERR_NOENT : Z := 2.
Definition NFS4ERR_NOTDIR : Z := 20.
Definition NFS4ERR_NOFILEHANDLE : Z := 10020.
Definition NFS4ERR_RESTOREFH : Z := 10030.

(** ** The server *)

(** Lookup of a name in a directory and of the parent of a directory, the attributes of a
    file, the other operations, given the current and the saved file handle, which may
    replace the current one, and the limits on slots that a reply has. An [inl] is an error. *)
Record server (F : Type) := mk_server {
  root : fhandle;
  s_lookup : F -> fhandle -> text -> Z + fhandle;
  s_lookupp : F -> fhandle -> Z + fhandle;
  s_getattr : F -> fhandle -> bitmap4 -> fattr4;
  s_perform : F -> nfs_argop4 -> fhandle -> option fhandle -> Z + (resok4 * fhandle * F);
  highest_slotid : Z;
  target_slotid : Z
}.
Arguments mk_server {F}. Arguments root {F}. Arguments s_lookup {F}. Arguments s_lookupp {F}.
Arguments s_getattr {F}. Arguments s_perform {F}. Arguments highest_slotid {F}. Arguments target_slotid {F}.

(** The files, the current and the saved file handle. *)
Record conf (F : Type) := mk_conf { files : F; cfh : option fhandle; sfh : option fhandle }.
Arguments mk_conf {F}. Arguments files {F}. Arguments cfh {F}. Arguments sfh {F}.

Section server.
Context {F : Type} (srv : server F).

Definition on_cfh {A} (c : conf F) (f : fhandle -> Z + A) : Z + A :=
  match cfh c with Some h => f h | None => inl NFS4ERR_NOFILEHANDLE end.

Definition go (c : conf F) (h : fhandle) : resok4 * conf F := (RNone, mk_conf (files c) (Some h) (sfh c)).

(** One operation. *)
Definition step (o : nfs_argop4) (c : conf F) : Z + (resok4 * conf F) :=
  match o with
  | OP_SEQUENCE slot _ _ => inr (RSequence slot (highest_slotid srv) (target_slotid srv), c)
  | OP_PUTROOTFH => inr (go c (root srv))
  | OP_PUTFH h => inr (go c h)
  | OP_LOOKUP n => on_cfh c (fun d => match s_lookup srv (files c) d n with inl e => inl e | inr h => inr (go c h) end)
  | OP_LOOKUPP => on_cfh c (fun d => match s_lookupp srv (files c) d with inl e => inl e | inr h => inr (go c h) end)
  | OP_SAVEFH => on_cfh c (fun d => inr (RNone, mk_conf (files c) (Some d) (Some d)))
  | OP_RESTOREFH => match sfh c with Some d => inr (go c d) | None => inl NFS4ERR_RESTOREFH end
  | OP_GETFH => on_cfh c (fun d => inr (RGetfh d, c))
  | OP_GETATTR bm => on_cfh c (fun d => inr (RGetattr (s_getattr srv (files c) d bm), c))
  | _ => on_cfh c (fun d =>
      match s_perform srv (files c) o d (sfh c) with
      | inl e => inl e
      | inr (r, h, f) => inr (r, mk_conf f (Some (if NFS4_CHANGE_CFH (argop o) then h else d)) (sfh c))
      end)
  end.

(** The results of a compound, the last of which may be an error. *)
Fixpoint exec (l : list nfs_argop4) (c : conf F) : list nfs_resop4 * conf F :=
  match l with
  | [] => ([], c)
  | o :: l =>
      match step o c with
      | inl e => ([mk_resop (argop o) e RNone], c)
      | inr (r, c) => let '(rs, c) := exec l c in (mk_resop (argop o) NFS4_OK r :: rs, c)
      end
  end.

(** The configuration after a compound, or the error it ends with. *)
Fixpoint ends (l : list nfs_argop4) (c : conf F) : Z + conf F :=
  match l with
  | [] => inr c
  | o :: l => match step o c with inl e => inl e | inr (_, c) => ends l c end
  end.

Definition compound_status (rs : list nfs_resop4) : Z :=
  match last rs with Some r => status r | None => NFS4_OK end.

(** A network that delivers compounds to the server. *)
Definition deliver (l : list nfs_argop4) (f : F) : Z * Z * list nfs_resop4 * F :=
  let '(rs, c) := exec l (mk_conf f None None) in (0, compound_status rs, rs, files c).

End server.

(** ** Paths on the server *)

Section paths.
Context {F : Type} (srv : server F).

(** The file that a list of names leads to. *)
Fixpoint find (f : F) (d : fhandle) (names : list text) : Z + fhandle :=
  match names with
  | [] => inr d
  | n :: names => match s_lookup srv f d n with inl e => inl e | inr h => find f h names end
  end.

(** A status that stands for an error. *)
Definition is_error (e : Z) : Prop := e <> NFS4_OK /\ exists n, nfsstat4_to_errno e = Ok n.

(** Names are looked up in directories only, and the parent of a directory is where it was
    found. *)
Class Tree (dirs : F -> fhandle -> Prop) := {
  root_dir f : dirs f (root srv);
  lookup_dir f d n h : s_lookup srv f d n = inr h -> dirs f d;
  lookup_parent f d n h : s_lookup srv f d n = inr h -> dirs f h -> s_lookupp srv f h = inr d;
  lookup_error f d n e : s_lookup srv f d n = inl e -> is_error e;
  lookupp_error f d e : s_lookupp srv f d = inl e -> is_error e;
  perform_error f o d s e : s_perform srv f o d s = inl e -> is_error e
}.

(** The limits on slots that replies have cover the slots of the client. *)
Class Limits := {
  limit_highest : Z.of_nat Slots.SESSION_SLOT_TABLE_CAPACITY <= highest_slotid srv + 1 < 2 ^ 32;
  limit_target : Z.of_nat Slots.SESSION_SLOT_TABLE_CAPACITY <= target_slotid srv + 1
}.

Lemma find_app f d a b :
  find f d (a ++ b) = match find f d a with inl e => inl e | inr h => find f h b end.
Proof.
  revert d. induction a as [|n a IH]; intros d; [done|]. cbn [app find].
  destruct (s_lookup srv f d n); [done | apply IH].
Qed.

Lemma ends_app l1 l2 c :
  ends srv (l1 ++ l2) c = match ends srv l1 c with inl e => inl e | inr c => ends srv l2 c end.
Proof.
  revert c. induction l1 as [|o l1 IH]; intros c; [done|]. cbn [app ends].
  destruct (step srv o c) as [e | [r c1]]; [done | apply IH].
Qed.

Lemma ends_lookups names f d s :
  ends srv (map OP_LOOKUP names) (mk_conf f (Some d) s)
  = match find f d names with inl e => inl e | inr h => inr (mk_conf f (Some h) s) end.
Proof.
  revert d. induction names as [|n names IH]; intros d; [done|].
  cbn [map ends step on_cfh cfh files find]. destruct (s_lookup srv f d n); [done | apply IH].
Qed.

Lemma ends_up {dirs} `{!Tree dirs} k names f h s :
  find f (root srv) names = inr h -> dirs f h -> (k <= List.length names)%nat ->
  exists h', find f (root srv) (take (List.length names - k) names) = inr h'
    /\ ends srv (replicate k OP_LOOKUPP) (mk_conf f (Some h) s) = inr (mk_conf f (Some h') s).
Proof.
  revert names h. induction k as [|k IH]; intros names h Hf Hd Hk.
  { exists h. by rewrite Nat.sub_0_r, firstn_all. }
  destruct names as [|n names _] using rev_ind; [cbn in Hk; lia|].
  rewrite length_app in *. cbn [List.length] in *.
  rewrite find_app in Hf. destruct (find f (root srv) names) as [|d] eqn:E; [done|]. cbn [find] in Hf.
  destruct (s_lookup srv f d n) as [|x] eqn:El; [done|]. injection Hf as ->.
  destruct (IH names d E) as (h' & H1 & H2); [by eapply lookup_dir | lia|].
  exists h'. cbn [replicate ends step on_cfh cfh files]. rewrite (lookup_parent f d n h El Hd).
  split; [|exact H2]. rewrite take_app_le by lia.
  by replace (List.length names + 1 - S k)%nat with (List.length names - k)%nat by lia.
Qed.

(** *** Operations that keep the current file handle *)

Lemma step_cfh o c r c' :
  step srv o c = inr (r, c') -> NFS4_CHANGE_CFH (argop o) = false -> cfh c' = cfh c.
Proof.
  intros H Ho. destruct o; try discriminate Ho; try (by destruct Ho);
    destruct c as [f [h|] s]; cbn in H; unfold on_cfh, go in H; cbn in H;
    repeat (case_match; simplify_eq/=); by simplify_eq/=.
Qed.

Lemma step_sfh o c r c' :
  step srv o c = inr (r, c') -> argop o <> NFS4_OP_SAVEFH -> sfh c' = sfh c.
Proof.
  intros H Ho. destruct o; try discriminate Ho; try (by destruct Ho);
    destruct c as [f [h|] s]; cbn in H; unfold on_cfh, go in H; cbn in H;
    repeat (case_match; simplify_eq/=); by simplify_eq/=.
Qed.

Lemma ends_snoc l o c c' :
  ends srv (l ++ [o]) c = inr c' -> exists c1 r, ends srv l c = inr c1 /\ step srv o c1 = inr (r, c').
Proof.
  rewrite ends_app. destruct (ends srv l c) as [|c1]; [done|]. cbn.
  destruct (step srv o c1) as [|[r c2]] eqn:E; [done|]. intros [= ->]. eauto.
Qed.

(** What the scans of the builder find: the current and the saved file handle are the same. *)
Lemma since_savefh l c c' :
  ends srv l c = inr c' -> not_changed_since_savefh (rev l) = true -> cfh c' = sfh c'.
Proof.
  revert c'. induction l as [|o l IH] using rev_ind; intros c' H; [done|].
  rewrite rev_app_distr. cbn [rev app not_changed_since_savefh].
  apply ends_snoc in H as (c1 & r & H1 & H2). destruct (Z.eqb_spec (argop o) NFS4_OP_SAVEFH) as [E|E].
  - intros _. destruct o; try discriminate E. cbn in H2. unfold on_cfh in H2. case_match; by simplify_eq/=.
  - destruct (Z.eqb_spec (argop o) NFS4_OP_RESTOREFH) as [E'|_].
    + intros _. destruct o; try discriminate E'. cbn in H2. unfold go in H2. case_match; by simplify_eq/=.
    + destruct (NFS4_CHANGE_CFH (argop o)) eqn:Eo; [done|]. intros Hn.
      rewrite (step_cfh _ _ _ _ H2 Eo), (step_sfh _ _ _ _ H2 E). by apply IH.
Qed.

Lemma since_restorefh l c c' :
  ends srv l c = inr c' -> not_changed_since_restorefh (rev l) = true ->
  not_changed_since_savefh (rev l) = false -> cfh c' = sfh c'.
Proof.
  revert c'. induction l as [|o l IH] using rev_ind; intros c' H; [done|].
  rewrite rev_app_distr. cbn [rev app not_changed_since_savefh not_changed_since_restorefh].
  apply ends_snoc in H as (c1 & r & H1 & H2). destruct (Z.eqb_spec (argop o) NFS4_OP_SAVEFH) as [E|E]; [done|].
  destruct (Z.eqb_spec (argop o) NFS4_OP_RESTOREFH) as [E'|_].
  - intros _ _. destruct o; try discriminate E'. cbn in H2. unfold go in H2. case_match; by simplify_eq/=.
  - destruct (NFS4_CHANGE_CFH (argop o)) eqn:Eo; [done|]. intros Hn Hm.
    rewrite (step_cfh _ _ _ _ H2 Eo), (step_sfh _ _ _ _ H2 E). by apply IH.
Qed.

(** *** Going to a directory *)

Context {dirs : F -> fhandle -> Prop} `{!Tree dirs}.

(** The saved path, if any, leads to the saved file handle, a directory. *)
Definition saved_ok (f : F) (saved : text) (s : option fhandle) : Prop :=
  saved = [] \/ exists h, s = Some h /\ find f (root srv) (PathSpec.norm true saved) = inr h /\ dirs f h.

Definition there (c : conf F) (d : text) (s : fhandle -> option fhandle) : Z + conf F :=
  match find (files c) (root srv) (PathSpec.norm true d) with
  | inl e => inl e
  | inr h => inr (mk_conf (files c) (Some h) (s h))
  end.

Lemma restore_ends before c0 c h :
  ends srv before c0 = inr c -> sfh c = Some h ->
  ends srv (restore_ops before) c = inr (mk_conf (files c) (Some h) (Some h)).
Proof.
  intros H Hs. unfold restore_ops. destruct (not_changed_since_savefh _) eqn:E.
  - pose proof (since_savefh _ _ _ H E) as Hc. destruct c as [f c s]. cbn in *. congruence.
  - cbn. rewrite Hs. unfold go. by rewrite Hs.
Qed.

Lemma go_ends before c0 c saved d b comps :
  ends srv before c0 = inr c -> saved_ok (files c) saved (sfh c) ->
  PathSpec.is_abs d = true -> Buf.NUL ∉ d -> route saved d b comps ->
  ends srv (go_ops before d b comps) c = there c d (fun _ => sfh c).
Proof.
  intros Hc Hs Ha Hd Hr. unfold go_ops, there. destruct Hr as [|l Hne Hl Ht _].
  { cbn [ends step]. unfold go. apply ends_lookups. }
  destruct Hs as [?|(h & Hs & Hf & Hdir)]; [done|]. rewrite Hs.
  rewrite ends_app, (restore_ends _ _ _ _ Hc Hs).
  rewrite map_app, concat_app, lookup_ops_up, ends_app.
  destruct (ends_up (List.length (PathSpec.norm true saved) - l) _ _ _ (Some h) Hf Hdir) as (h' & Hf' & ->); [lia|].
  replace (List.length (PathSpec.norm true saved) - (List.length (PathSpec.norm true saved) - l))%nat
    with l in Hf' by lia. rewrite Ht in Hf'.
  rewrite lookup_ops_names, ends_lookups;
    [| apply Forall_drop, PathSpec.norm_abs_proper | by apply Forall_drop, names_plain].
  rewrite <- (take_drop l (PathSpec.norm true d)) at 2. by rewrite find_app, Hf'.
Qed.

(** Whichever route the builder takes, the directory at the end is the one the path leads
    to from the root, or the same lookup fails; the directory is saved with its path. *)
Lemma reaches_ends before c0 c saved d new q :
  ends srv before c0 = inr c -> saved_ok (files c) saved (sfh c) ->
  PathSpec.is_abs d = true -> Buf.NUL ∉ d -> reaches before saved d new q ->
  ends srv new c = there c d Some
  /\ forall h, find (files c) (root srv) (PathSpec.norm true d) = inr h -> dirs (files c) h ->
       saved_ok (files c) q (Some h).
Proof.
  intros Hc Hs Ha Hd [b comps Hr]. pose proof (go_ends _ _ _ _ _ _ _ Hc Hs Ha Hd Hr) as Hg.
  rewrite ends_app, Hg. unfold there in *. destruct (find _ _ _) as [|h] eqn:Ef; [done|].
  assert (ends srv (before ++ go_ops before d b comps) c0 = inr (mk_conf (files c) (Some h) (sfh c))) as Hb.
  { by rewrite ends_app, Hc. }
  pose proof (since_savefh _ _ _ Hb) as H1. pose proof (since_restorefh _ _ _ Hb) as H2.
  unfold save_ops, save_path. cbn [cfh sfh] in *.
  destruct (not_changed_since_savefh _); [|destruct (not_changed_since_restorefh _)]; cbn [orb].
  1-2: assert (sfh c = Some h) as E by (symmetry; auto); rewrite E in *; split; [done | by intros ? [= <-] _].
  split; [done|]. intros ? [= <-] Hdir. destruct (_ <? _)%nat; [by left|]. right. eauto.
Qed.

(** *** What the client sees *)

(** The operations whose results the client skips. *)
Definition is_move (op : Z) : bool :=
  bool_decide (op ∈ [NFS4_OP_SEQUENCE; NFS4_OP_PUTROOTFH; NFS4_OP_LOOKUP; NFS4_OP_LOOKUPP; NFS4_OP_SAVEFH; NFS4_OP_RESTOREFH]).

(** The results of a compound, without those of moves that succeed; of a failure, the
    status. *)
Definition visible : list nfs_resop4 -> list (Z + nfs_resop4) :=
  omap (fun r => if status r =? NFS4_OK then if is_move (resop r) then None else Some (inr r)
                 else Some (inl (status r))).

Lemma visible_app a b : visible (a ++ b) = visible a ++ visible b.
Proof. apply omap_app. Qed.

Lemma exec_app l1 l2 c :
  exec srv (l1 ++ l2) c
  = match ends srv l1 c with
    | inl _ => exec srv l1 c
    | inr c1 => ((exec srv l1 c).1 ++ (exec srv l2 c1).1, (exec srv l2 c1).2)
    end.
Proof.
  revert c. induction l1 as [|o l1 IH]; intros c; [cbn; by destruct (exec srv l2 c)|]. cbn [app exec ends].
  destruct (step srv o c) as [e | [r c1]]; [done|]. rewrite IH.
  destruct (ends srv l1 c1); [done|]. by destruct (exec srv l1 c1), (exec srv l2 c2).
Qed.

Lemma step_error o c e : step srv o c = inl e -> is_error e.
Proof.
  intros H. destruct o; cbn in H; unfold on_cfh in H;
    repeat (case_match; simplify_eq/=);     first [discriminate | by eapply (lookup_error (dirs := dirs)) | by eapply (lookupp_error (dirs := dirs))
          | by eapply (perform_error (dirs := dirs)) | split; [done | by eexists]].
Qed.

Lemma move_files o c r c' : is_move (argop o) = true -> step srv o c = inr (r, c') -> files c' = files c.
Proof.
  intros Ho H. destruct o; try discriminate Ho; cbn in H; unfold on_cfh, go in H;
    repeat (case_match; simplify_eq/=); by simplify_eq/=.
Qed.

Lemma exec_moves l c :
  Forall (fun o => is_move (argop o) = true) l ->
  visible (exec srv l c).1 = match ends srv l c with inl e => [inl e] | inr _ => [] end
  /\ files (exec srv l c).2 = files c.
Proof.
  intros Hl. revert c. induction Hl as [|o l Ho _ IH]; intros c; [done|]. cbn [exec ends].
  destruct (step srv o c) as [e | [r c1]] eqn:E.
  - cbn. by rewrite (proj2 (Z.eqb_neq e _) (proj1 (step_error _ _ _ E))).
  - specialize (IH c1). destruct (exec srv l c1) as [rs c2]. cbn in *. rewrite Ho.
    by rewrite <- (move_files _ _ _ _ Ho E).
Qed.

Lemma lookups_moves names : Forall (fun o => is_move (argop o) = true) (map OP_LOOKUP names).
Proof. induction names; by constructor. Qed.

Lemma lookup_op_moves c : Forall (fun o => is_move (argop o) = true) (lookup_op c).
Proof. unfold lookup_op. repeat case_match; repeat constructor. Qed.

Lemma lookup_ops_moves comps : Forall (fun o => is_move (argop o) = true) (concat (map lookup_op comps)).
Proof.
  induction comps as [|c comps IH]; [constructor|]. cbn. apply Forall_app. split; [apply lookup_op_moves | done].
Qed.

Lemma reaches_moves before saved d new q :
  reaches before saved d new q -> Forall (fun o => is_move (argop o) = true) new.
Proof.
  intros [b comps _]. apply Forall_app. split; [|unfold save_ops; case_match; repeat constructor].
  unfold go_ops. destruct b.
  - apply Forall_app. split; [unfold restore_ops; case_match; repeat constructor | apply lookup_ops_moves].
  - constructor; [done | apply lookups_moves].
Qed.

(** *** Compounds that do not use the saved directory *)

Definition plain_go (d : text) : list nfs_argop4 :=
  OP_PUTROOTFH :: map OP_LOOKUP (PathSpec.norm true d) ++ [OP_SAVEFH].

Lemma plain_go_moves d : Forall (fun o => is_move (argop o) = true) (plain_go d).
Proof. constructor; [done|]. apply Forall_app. split; [apply lookups_moves | by constructor]. Qed.

Lemma plain_go_ends d c : ends srv (plain_go d) c = there c d Some.
Proof.
  unfold plain_go, there. cbn [ends step]. unfold go. rewrite ends_app, ends_lookups.
  by destruct (find _ _ _).
Qed.

Section elements.
Context {A : Type} (dir : A -> text) (own : A -> list nfs_argop4) (P : A -> Prop).
Hypothesis dir_ok : forall a, P a -> PathSpec.is_abs (dir a) = true /\ (Buf.NUL ∉ dir a).
(** The operations of an element that succeed leave its directory where it is. *)
Hypothesis own_keeps : forall a f h c', P a ->
  find f (root srv) (PathSpec.norm true (dir a)) = inr h ->
  ends srv (own a) (mk_conf f (Some h) (Some h)) = inr c' ->
  sfh c' = Some h /\ dirs f h /\ dirs (files c') h
  /\ forall names, find f (root srv) names = inr h -> find (files c') (root srv) names = inr h.

Definition plain (l : list A) : list nfs_argop4 := concat (map (fun a => plain_go (dir a) ++ own a) l).

Lemma length_plain l : List.length (plain l) = root_size dir own l.
Proof.
  unfold plain, root_size. induction l as [|a l IH]; [done|]. cbn [map concat sum_list sum_list_with].
  rewrite !length_app, IH. unfold plain_go. cbn [List.length]. rewrite length_app, length_map. cbn. lia.
Qed.

(** The compound with the short routes and the one without have the same effect, and the
    client sees the same results. *)
Lemma staged_visible before saved l new c0 c :
  staged dir own before saved l new -> Forall P l ->
  ends srv before c0 = inr c -> saved_ok (files c) saved (sfh c) ->
  visible (exec srv new c).1 = visible (exec srv (plain l) c).1
  /\ files (exec srv new c).2 = files (exec srv (plain l) c).2.
Proof.
  intros H. revert c. induction H as [before saved | before saved a l new q rest Hr _ IH]; intros c HP Hc Hs; [done|].
  inversion_clear HP as [|? ? Ha Hl]. destruct (dir_ok a Ha) as [Hda Hdn].
  destruct (reaches_ends _ _ _ _ _ _ _ Hc Hs Hda Hdn Hr) as [He Hq].
  destruct (exec_moves new c (reaches_moves _ _ _ _ _ Hr)) as [V1 F1].
  destruct (exec_moves (plain_go (dir a)) c (plain_go_moves _)) as [V2 F2].
  unfold plain. cbn [map concat]. rewrite <- !app_assoc. fold (plain l).
  rewrite !(exec_app _ (own a ++ _)), He, plain_go_ends in *.
  unfold there in *. destruct (find _ _ _) as [e|h] eqn:Ef; [by rewrite V1, V2, F1, F2|].
  cbn [fst snd]. rewrite !visible_app, V1, V2. cbn [app]. rewrite !exec_app.
  destruct (ends srv (own a) _) as [|c'] eqn:Eo; [done|]. cbn [fst snd]. rewrite !visible_app.
  destruct (own_keeps a _ h c' Ha Ef Eo) as (K1 & K2 & K3 & K4).
  destruct (IH c' Hl) as [-> ->]; [| | done].
  - rewrite ends_app, Hc, ends_app, He. exact Eo.
  - rewrite K1. destruct (Hq h eq_refl K2) as [?|(? & [= <-] & Hf & _)]; [by left|]. right. eauto.
Qed.

End elements.

End paths.

(** ** Calls *)

(** A thread between calls: no slot is held; [X] are the slots that other threads hold, and
    [sent] counts the compounds sent on each slot. *)
Record ready {W} (X : gset nat) (sent : nat -> nat) (s : fsal W) : Prop := {
  r_args : List.length (argoparray s) = MAX_NUM_OPS_PER_COMPOUND;
  r_results : List.length (resoparray s) = MAX_NUM_OPS_PER_COMPOUND;
  r_slot : slot_allocated s = false;
  r_rep : Slots.represents X sent (sess_slot_tbl s);
  r_free : exists k, (k < Slots.SESSION_SLOT_TABLE_CAPACITY)%nat /\ (k ∉ X);
  r_target : Z.of_nat Slots.SESSION_SLOT_TABLE_CAPACITY <= Slots.target_highest_slotid (sess_slot_tbl s) + 1
}.

(** A thread that fills a compound: it holds the slot [slot]. *)
Record started {W} (X : gset nat) (sent : nat -> nat) (slot : nat) (s s1 : fsal W) : Prop := {
  st_wf : wf s1;
  st_ops : exists hi, ops s1 = [OP_SEQUENCE (Z.of_nat slot) (u32 (1 + Z.of_nat (sent slot))) hi];
  st_path : tc_saved_path s1 = [];
  st_bufs : tc_bufcnt s1 = 0%nat;
  st_results : resoparray s1 = resoparray s;
  st_slot : slot ∉ X;
  st_rep : Slots.represents ({[ slot ]} ∪ X) sent (sess_slot_tbl s1);
  st_cwd : tc_cwd s1 = tc_cwd s;
  st_net : net s1 = net s
}.

Lemma alloc_ready {W} X sent (s : fsal W) :
  ready X sent s ->
  exists (slot : nat) hi t,
    Slots.alloc_session_slot (sess_slot_tbl s) = Some (Z.of_nat slot, u32 (1 + Z.of_nat (sent slot)), hi, t)
    /\ (slot ∉ X) /\ Slots.represents ({[ slot ]} ∪ X) sent t.
Proof.
  intros [_ _ _ Hrep (k & Hk & Hx) Ht].
  destruct (Slots.alloc_session_slot (sess_slot_tbl s)) as [[[[slot seq] hi] t]|] eqn:E.
  - assert (0 <= slot) as Hpos.
    { unfold Slots.alloc_session_slot in E. destruct (Bitset.bs_ffs_spec _ (Slots.rep_wf _ _ _ Hrep)) as
        [[Hf _] | (j & Hf & _)]; rewrite Hf in E; [done|]. case_match; simplify_eq. lia. }
    rewrite <- (Z2Nat.id slot Hpos) in E.
    destruct (Slots.represents_alloc _ _ _ _ _ _ _ Hrep E) as (H1 & _ & _ & _ & -> & _ & H2).
    eexists (Z.to_nat slot), _, _. rewrite Z2Nat.id by done. split_and!; [done | done | done].
  - destruct Hx. apply (proj1 (Slots.alloc_None_iff _ _ _ Hrep) E); [done|]. lia.
Qed.

Lemma vreset_started {W} X sent (s : fsal W) :
  ready X sent s -> exists slot s1, vreset_compound s = done (tt, s1) /\ started X sent slot s s1.
Proof.
  intros Hr. destruct (alloc_ready X sent s Hr) as (slot & hi & t & E & Hx & Hrep).
  exists slot. eexists. split.
  - unfold vreset_compound, tc_cleanup_compound, puts, gets. rewrite (bind_done _ _ _ _ _ eq_refl).
    rewrite (bind_done _ _ _ _ _ eq_refl). cbn [slot_allocated with_saved_path with_bufcnt with_ops].
    rewrite (r_slot _ _ _ Hr). rewrite (bind_done _ _ _ tt _ eq_refl).
    unfold add_sequence. cbn [sess_slot_tbl with_saved_path with_bufcnt with_ops]. rewrite E. reflexivity.
  - destruct Hr as [Ha _ _ _ _ _]. split; cbn; try done.
    + split; cbn; [by rewrite length_insert | unfold MAX_NUM_OPS_PER_COMPOUND; lia].
    + exists hi. unfold ops. cbn. by destruct (argoparray s).
Qed.

Section calls.
Context {F : Type} (srv : server F) {dirs : F -> fhandle -> Prop} `{!Tree srv dirs} `{!Limits srv}.
Notation state := (fsal F).

Lemma exec_cases l c :
  (exists c', ends srv l c = inr c' /\ (exec srv l c).2 = c'
     /\ Forall (fun r => status r = NFS4_OK) (exec srv l c).1 /\ List.length (exec srv l c).1 = List.length l)
  \/ (exists e rs r, ends srv l c = inl e /\ (exec srv l c).1 = rs ++ [r]
     /\ Forall (fun r => status r = NFS4_OK) rs /\ status r = e /\ is_error e
     /\ (List.length (rs ++ [r]) <= List.length l)%nat).
Proof.
  revert c. induction l as [|o l IH]; intros c; [left; by exists c|]. cbn [ends exec].
  destruct (step srv o c) as [e | [r c1]] eqn:E.
  - right. exists e, [], (mk_resop (argop o) e RNone). split_and!; try done; [by eapply step_error | cbn; lia].
  - destruct (IH c1) as [(c' & H1 & H2 & H3 & H4) | (e & rs & r' & H1 & H2 & H3 & H4 & H5 & H6)];
      destruct (exec srv l c1) as [rs' c2]; cbn [fst snd] in *.
    + left. exists c'. split_and!; [done | done | by constructor | cbn; lia].
    + right. exists e, (mk_resop (argop o) NFS4_OK r :: rs), r'. rewrite H2.
      split_and!; [done | done | by constructor | done | done | cbn [app List.length]; lia].
Qed.

Lemma compound_status_error l c :
  exists err, nfsstat4_to_errno (compound_status (exec srv l c).1) = Ok err
    /\ (forall c', ends srv l c = inr c' -> err = 0).
Proof.
  destruct (exec_cases l c) as [(c' & H1 & H2 & H3 & H4) | (e & rs & r & H1 & -> & H3 & H4 & (_ & n & H5) & H6)].
  - exists 0. split; [|done]. unfold compound_status. destruct (last _) as [r|] eqn:E; [|done].
    apply last_Some in E as (rs & E). rewrite E in H3. apply Forall_app in H3 as [_ H3].
    inversion_clear H3 as [|? ? Hr _]. by rewrite Hr.
  - exists n. unfold compound_status. rewrite last_snoc, H4, H1. by split.
Qed.

(** The thread after a call. *)
Record called (l : list nfs_argop4) (s s3 : state) : Prop := {
  c_results : exists junk, results s3 = (exec srv l (mk_conf (net s) None None)).1 ++ junk
    /\ forall c', ends srv l (mk_conf (net s) None None) = inr c' -> junk = [];
  c_net : net s3 = files (exec srv l (mk_conf (net s) None None)).2;
  c_cwd : tc_cwd s3 = tc_cwd s
}.

Definition one_more (slot : nat) (sent : nat -> nat) : nat -> nat :=
  fun k => if decide (slot = k) then S (sent k) else sent k.

Lemma results_prefix (rs : list nfs_resop4) n old :
  (List.length rs <= n <= MAX_NUM_OPS_PER_COMPOUND)%nat ->
  exists junk, take n (take MAX_NUM_OPS_PER_COMPOUND (rs ++ drop (List.length rs) old)) = rs ++ junk
    /\ (List.length rs = n -> junk = []).
Proof.
  intros H. rewrite take_take, Nat.min_l by lia. exists (take (n - List.length rs) (drop (List.length rs) old)).
  split; [by rewrite take_app_ge by lia|]. intros <-. by rewrite Nat.sub_diag.
Qed.

Lemma send_spec s rs c :
  exec srv (ops s) (mk_conf (net s) None None) = (rs, c) ->
  send (deliver srv) s = done ((0, compound_status rs),
    with_results (take MAX_NUM_OPS_PER_COMPOUND (rs ++ drop (List.length rs) (resoparray s))) (files c) s).
Proof. intros E. unfold send, deliver. by rewrite E. Qed.

Lemma update_sent X sent slot hi seq r (s : state) :
  Slots.represents ({[ slot ]} ∪ X) sent (sess_slot_tbl s) -> slot ∉ X ->
  argoparray s !! 0%nat = Some (OP_SEQUENCE (Z.of_nat slot) seq hi) -> resoparray s !! 0%nat = Some r ->
  status r = NFS4_OK -> resok r = RSequence (Z.of_nat slot) (highest_slotid srv) (target_slotid srv) ->
  exists t, tc_update_sequence true s = done (tt, with_slots false t s)
    /\ Slots.represents X (one_more slot sent) t /\ Slots.target_highest_slotid t = target_slotid srv.
Proof.
  intros Hrep Hx Ea Er Hst Hok. unfold tc_update_sequence. rewrite Ea, Er, Hst, Hok, Nat2Z.id. cbn [andb Z.eqb].
  pose proof (Slots.rep_range _ _ _ Hrep) as Hlt. pose proof (limit_highest srv) as Hl.
  destruct (Slots.free_ok _ _ _ slot (highest_slotid srv) (target_slotid srv) true Hrep) as (t & sg & E).
  { set_solver. }
  { unfold Slots.SESSION_SLOT_TABLE_CAPACITY in Hl. lia. }
  { intros _ k Hk. assert (k ∈ {[ slot ]} ∪ X) as Hin by set_solver. apply Hlt in Hin. lia. }
  rewrite E. exists t. split; [done|].
  destruct (Slots.represents_free _ _ _ _ _ _ _ _ _ Hrep (Hlt slot ltac:(set_solver)) E) as (_ & _ & Hrep').
  replace (({[ slot ]} ∪ X) ∖ {[ slot ]}) with X in Hrep' by set_solver. split; [done|].
  unfold Slots.free_session_slot in E. inv_outcome E. inv_outcome E. by simplify_eq.
Qed.

Lemma call_spec X sent slot s s1 s2 new :
  ready X sent s -> started X sent slot s s1 -> kept s1 s2 -> wf s2 -> ops s2 = ops s1 ++ new ->
  exists err s3, fs_nfsv4_call (deliver srv) s2 = done ((0, err), s3)
    /\ nfsstat4_to_errno (compound_status (exec srv (ops s2) (mk_conf (net s) None None)).1) = Ok err
    /\ called (ops s2) s s3 /\ ready X (one_more slot sent) s3.
Proof.
  intros Hr [Hwf1 (hi & Ho1) _ _ Hres Hx Hrep Hcwd Hnet] [K1 K2 K3 K4 K5] Hwf Ho.
  rewrite Ho1 in Ho. cbn [app] in Ho. rewrite Hres in K1. rewrite Hcwd in K3. rewrite Hnet in K5.
  assert (0 < opcnt s2)%nat as Hn.
  { destruct (opcnt s2) eqn:E; [|lia]. unfold ops in Ho. by rewrite E in Ho. }
  assert (argoparray s2 !! 0%nat = Some (OP_SEQUENCE (Z.of_nat slot) (u32 (1 + Z.of_nat (sent slot))) hi)) as Ea.
  { apply (f_equal (fun l => l !! 0%nat)) in Ho. unfold ops in Ho. by rewrite lookup_take_lt in Ho. }
  assert (List.length (ops s2) = opcnt s2) as Hlen.
  { unfold ops. rewrite length_take. destruct Hwf. lia. }
  destruct (compound_status_error (ops s2) (mk_conf (net s) None None)) as (err & Eerr & _).
  unfold fs_nfsv4_call, gets. rewrite (bind_done _ _ _ (opcnt s2) s2) by done.
  rewrite (proj2 (Nat.eqb_neq _ _)) by lia.
  destruct (exec srv (ops s2) (mk_conf (net s) None None)) as [rs c'] eqn:Eex.
  pose proof (exec_cases (ops s2) (mk_conf (net s) None None)) as Hcases. rewrite Eex in Hcases. cbn [fst snd] in *.
  rewrite <- K5 in Eex. rewrite (bind_done _ _ _ _ _ (send_spec _ _ _ Eex)). rewrite K5 in Eex. cbn [Z.eqb].
  rewrite Eerr. cbn [run]. rewrite (bind_done _ _ _ _ _ eq_refl).
  set (s3 := with_results _ _ s2).
  assert (exists r rs', rs = r :: rs' /\ status r = NFS4_OK
    /\ resok r = RSequence (Z.of_nat slot) (highest_slotid srv) (target_slotid srv)) as (r & rs' & Ers & Hst & Hok).
  { rewrite Ho in Eex. cbn [exec step] in Eex. destruct (exec srv new _) as [rs' ?]. simplify_eq. eauto. }
  destruct (update_sent X sent slot hi (u32 (1 + Z.of_nat (sent slot))) r s3) as (t & Eu & Ht & Htt); try done.
  { cbn. by rewrite K4. }
  { cbn. by rewrite Ers. }
  rewrite (bind_done _ _ _ _ _ Eu). exists err. eexists. split_and!; [done | done | |].
  - assert (List.length rs <= List.length (ops s2))%nat as Hle.
    { destruct Hcases as [(? & _ & _ & _ & ->) | (e & rs0 & r0 & _ & -> & _ & _ & _ & H)]; [done | exact H]. }
    destruct (results_prefix rs (opcnt s2) (resoparray s2)) as (junk & Hj & Hj0); [destruct Hwf; lia|].
    split; cbn; rewrite ?Eex; [|done | done]. exists junk. split; [exact Hj|]. intros c'' Hc. apply Hj0.
    destruct Hcases as [(? & _ & _ & _ & ->) | (? & _ & _ & H & _)]; [done | congruence].
  - destruct Hr as [_ R2 _ _ R5 _]. split; cbn; [apply Hwf | | done | done | done |].
    + rewrite length_take, length_app, length_drop, K1, R2. apply Nat.min_l; lia.
    + rewrite Htt. apply (limit_target srv).
Qed.

(** *** Results *)

Section results.
Context {X : Type} (f : nfs_resop4 -> nat -> X -> M state (nat * X)) (fail : nat -> X -> M state X).

(** [process] on what the client sees. *)
Fixpoint process_visible (tcres : vres) (l : list (Z + nfs_resop4)) (i : nat) (x : X) : M state (vres * X) :=
  match l with
  | [] => mret (tcres, x)
  | inl e :: _ => x ← fail i x; n ← run (nfsstat4_to_errno e); mret (vfailure (Z.of_nat i) n, x)
  | inr r :: l => '(i, x) ← f r i x; process_visible tcres l i x
  end.

Hypothesis f_moves : forall r i x, is_move (resop r) = true -> f r i x = mret (i, x).

(** Every operation but the placeholder has a result with a status. *)
Definition answered (r : nfs_resop4) : Prop := get_nfs4_op_status r = status r.

Lemma argop_answered o st k : o <> OP_NONE -> answered (mk_resop (argop o) st k).
Proof. by destruct o. Qed.

Lemma exec_answered l c :
  Forall (fun o => o <> OP_NONE) l -> Forall answered (exec srv l c).1.
Proof.
  intros Hl. revert c. induction Hl as [|o l Ho _ IH]; intros c; [constructor|]. cbn [exec].
  destruct (step srv o c) as [e | [r c1]].
  - constructor; [by apply argop_answered | constructor].
  - specialize (IH c1). destruct (exec srv l c1). constructor; [by apply argop_answered | done].
Qed.

Lemma process_is_visible tcres rs : forall i x s,
  Forall answered rs -> process f fail tcres rs i x s = process_visible tcres (visible rs) i x s.
Proof.
  induction rs as [|r rs IH]; intros i x s H; [done|]. inversion_clear H as [|? ? Hr Hrs].
  cbn [process]. rewrite Hr. unfold visible. cbn [omap list_omap]. fold (visible rs).
  destruct (Z.eqb_spec (status r) NFS4_OK) as [E|E]; cbn [negb]; [|done].
  destruct (is_move (resop r)) eqn:Em.
  - rewrite f_moves by done. rewrite (bind_done _ _ _ _ _ eq_refl). by apply IH.
  - cbn [process_visible]. unfold mbind, M_bind, fbind.
    destruct (f r i x s) as [[[[i' x'] s']|]| |]; [|done..]. by apply IH.
Qed.

(** What follows a failure is not looked at. *)
Lemma process_stops tcres rs r junk : forall i x s,
  answered r -> status r <> NFS4_OK ->
  process f fail tcres (rs ++ r :: junk) i x s = process f fail tcres (rs ++ [r]) i x s.
Proof.
  induction rs as [|r' rs IH]; intros i x s Ha Hr; cbn [app process].
  - by rewrite Ha, (proj2 (Z.eqb_neq _ _) Hr).
  - destruct (negb _); [done|]. unfold mbind, M_bind, fbind.
    destruct (f r' i x s) as [[[[i' x'] s']|]| |]; [|done..]. by apply IH.
Qed.

Lemma process_called tcres l s s3 i x :
  called l s s3 -> Forall (fun o => o <> OP_NONE) l ->
  process f fail tcres (results s3) i x s3
  = process_visible tcres (visible (exec srv l (mk_conf (net s) None None)).1) i x s3.
Proof.
  intros [(junk & -> & Hj) _ _] Hl. pose proof (exec_answered l (mk_conf (net s) None None) Hl) as Ha.
  rewrite <- process_is_visible by done.
  destruct (exec_cases l (mk_conf (net s) None None)) as
    [(c' & H1 & _) | (e & rs & r & H1 & E & _ & <- & [He _] & _)].
  - by rewrite (Hj _ H1), app_nil_r.
  - rewrite E in *. apply Forall_app in Ha as [_ Ha]. inversion_clear Ha.
    rewrite <- app_assoc. by apply process_stops.
Qed.

Lemma process_visible_fails t t' l e : forall i x s,
  inl e ∈ l -> process_visible t l i x s = process_visible t' l i x s.
Proof.
  induction l as [|[e'|r] l IH]; intros i x s H; [by apply not_elem_of_nil in H | done |].
  apply elem_of_cons in H as [H|H]; [done|]. cbn [process_visible]. unfold mbind, M_bind, fbind.
  destruct (f r i x s) as [[[[i' x'] s']|]| |]; [|done..]. by apply IH.
Qed.

Lemma visible_error l c e : ends srv l c = inl e -> inl e ∈ visible (exec srv l c).1.
Proof.
  destruct (exec_cases l c) as [(c' & H1 & _) | (e' & rs & r & H1 & -> & _ & H2 & [H3 _] & _)]; [by rewrite H1|].
  rewrite H1. intros [= <-]. rewrite visible_app. apply elem_of_app. right. unfold visible. cbn.
  rewrite H2, (proj2 (Z.eqb_neq _ _) H3). left.
Qed.

(** A call of an operation on an array: the client sees what it would see if each element
    was looked up from the root. *)
Section arrays.
Context {A : Type} (add : A -> M state bool) (dir : A -> text) (own : A -> list nfs_argop4) (P : A -> Prop).
Hypothesis dir_ok : forall a, P a -> PathSpec.is_abs (dir a) = true /\ (Buf.NUL ∉ dir a).
Hypothesis add_adds : forall a s, P a -> wf s -> roomy s -> path_ok (tc_saved_path s) ->
  exists new n q, reaches (ops s) (tc_saved_path s) (dir a) new q
    /\ places true (eq false) (add a) s (new ++ own a) n q /\ (n <= 3 * List.length (own a))%nat.
Hypothesis own_keeps : forall a g h c', P a ->
  find srv g (root srv) (PathSpec.norm true (dir a)) = inr h ->
  ends srv (own a) (mk_conf g (Some h) (Some h)) = inr c' ->
  sfh c' = Some h /\ dirs g h /\ dirs (files c') h
  /\ forall names, find srv g (root srv) names = inr h -> find srv (files c') (root srv) names = inr h.
Hypothesis own_real : forall a, P a -> Forall (fun o => o <> OP_NONE) (own a).

Definition array_call (l : list A) (x : X) : M state (vres * X) :=
  _ ← vreset_compound;
  count ← fill_with add l;
  call_and_process (deliver srv) f fail count x.

Lemma staged_real before saved l new :
  staged dir own before saved l new -> Forall P l -> Forall (fun o => o <> OP_NONE) new.
Proof.
  induction 1 as [|before saved a l new q rest Hr _ IH]; intros HP; [constructor|].
  inversion_clear HP. rewrite !Forall_app. split_and!; [|by apply own_real | by apply IH].
  eapply Forall_impl; [exact (reaches_moves _ _ _ _ _ Hr)|]. by intros o Ho ->.
Qed.

Lemma array_call_spec Y sent s l x :
  ready Y sent s -> Forall P l ->
  exists n slot s', array_call l x s
      = process_visible (mk_vres (Z.of_nat n) 0)
          (visible (exec srv (plain dir own (take n l)) (mk_conf (net s) None None)).1) 0 x s'
    /\ (n <= List.length l)%nat
    /\ (forall k, (k <= List.length l)%nat ->
         (List.length (plain dir own (take k l)) < MAX_NUM_OPS_PER_COMPOUND)%nat -> (k <= n)%nat)
    /\ net s' = files (exec srv (plain dir own (take n l)) (mk_conf (net s) None None)).2
    /\ tc_cwd s' = tc_cwd s /\ (slot ∉ Y) /\ ready Y (one_more slot sent) s'.
Proof.
  intros Hr HP. destruct (vreset_started Y sent s Hr) as (slot & s1 & E1 & Hst).
  unfold array_call. rewrite (bind_done _ _ _ _ _ E1). destruct (st_ops _ _ _ _ _ Hst) as (hi & Eo).
  destruct (fill_staged add dir own P dir_ok add_adds l s1 0 HP) as
    (n & new & s2 & E2 & Hwf & Hk & Hn & Ho & Hsg & Hfit);
    [apply Hst | unfold roomy; rewrite (st_bufs _ _ _ _ _ Hst); lia | left; apply Hst|].
  unfold fill_with. erewrite bind_done by (erewrite bind_done by exact E2; reflexivity). cbn [Nat.add].
  destruct (call_spec Y sent slot s s1 s2 new Hr Hst Hk Hwf Ho) as (err & s3 & E3 & Eerr & Hc & Hr3).
  unfold call_and_process, gets. rewrite (bind_done _ _ _ _ _ E3). cbn beta iota. cbn [Z.eqb negb].
  rewrite (bind_done _ _ _ (results s3) s3) by done.
  rewrite (st_path _ _ _ _ _ Hst) in Hsg. rewrite Eo in *. cbn [app] in Ho.
  assert (Forall P (take n l)) as HPn by (by apply Forall_take).
  rewrite (process_called _ _ _ _ _ _ Hc);
    [|rewrite Ho; constructor; [done | by eapply staged_real]].
  destruct (staged_visible srv dir own P dir_ok own_keeps _ _ _ _ (mk_conf (net s) None None)
    (mk_conf (net s) None None) Hsg HPn) as [V1 F1]; [done | by left |].
  assert (visible (exec srv (ops s2) (mk_conf (net s) None None)).1
          = visible (exec srv (plain dir own (take n l)) (mk_conf (net s) None None)).1
    /\ files (exec srv (ops s2) (mk_conf (net s) None None)).2
        = files (exec srv (plain dir own (take n l)) (mk_conf (net s) None None)).2) as [V2 F2].
  { rewrite Ho, <- V1, <- F1. cbn [exec step]. by destruct (exec srv new _). }
  exists n, slot, s3. split_and!; [|done | | by rewrite (c_net _ _ _ Hc) | apply Hc | apply Hst | done].
  - rewrite V2. destruct (ends srv (ops s2) (mk_conf (net s) None None)) as [e|c'] eqn:E.
    + apply (process_visible_fails _ _ _ e). rewrite <- V2. by apply visible_error.
    + destruct (compound_status_error (ops s2) (mk_conf (net s) None None)) as (err' & Eerr' & H0).
      rewrite Eerr in Eerr'. injection Eerr' as ->. by rewrite (H0 _ E).
  - intros k Hkl Hl. apply (Hfit k Hkl). rewrite length_plain in Hl. pose proof (wf_array _ (st_wf _ _ _ _ _ Hst)) as Hw.
    apply (f_equal List.length) in Eo. unfold ops in Eo. rewrite length_take in Eo. cbn in Eo.
    pose proof (wf_opcnt _ (st_wf _ _ _ _ _ Hst)). lia.
Qed.

End arrays.

End results.

End calls.

(** ** Files given by paths *)

(** An absolute path, of fewer than 2^30 characters. *)
Definition abs_path (p : text) : Prop := PathSpec.is_abs p = true /\ (Buf.NUL ∉ p) /\ int_path p.

(** ... whose last component is a name, or the root. *)
Definition names_file (p : text) : Prop :=
  abs_path p
  /\ (PathSpec.proper (dir_base p).2 \/ (dir_base p).2 = [] /\ PathSpec.norm true (dir_base p).1 = []).

Lemma abs_dir p : abs_path p -> abs_path (dir_base p).1.
Proof.
  intros (Ha & Hn & Hl). pose proof (dir_base_length p Hn Ha). destruct (parent_base_spec p Hn Ha) as (H1 & H2 & _).
  unfold abs_path, int_path in *. split_and!; [done | done | lia].
Qed.

Section path_elements.
Context {W : Type} (fd_entry : nat -> option Fds.tc_kfd).
Notation state := (fsal W).

(** A step that goes to the directory of a path, then [k] for the base name. *)
Lemma to_path_adds p (k : text -> M state bool) own m s :
  abs_path p -> wf s -> roomy s -> path_ok (tc_saved_path s) ->
  (forall s1, wf s1 -> (tc_bufcnt s1 + 1 < MAX_BUFS_PER_COMPOUND)%nat ->
     places true (eq false) (k (dir_base p).2) s1 own m (tc_saved_path s1)) ->
  exists new q, reaches (ops s) (tc_saved_path s) (dir_base p).1 new q
    /\ places true (eq false)
         ('(r, name) ← tc_set_cfh_to_path true p true true; if r : bool then k name else mret false)
         s (new ++ own) (1 + m) q.
Proof.
  intros Hp Hwf Hroom Hsp Hk. destruct (abs_dir p Hp) as (Hd & Hdn & Hdl). destruct Hp as (Ha & Hn & _).
  destruct (tc_set_cfh_to_path_adds p true (dir_base p).1 (dir_base p).2 s Hwf Hsp Ha) as (new & q & Hr & Hadd);
    [by destruct (dir_base p) | done | done | done |].
  exists new, q. split; [done|].
  refine (places_bind (true, (dir_base p).2) (fun r => r.1 = false) true (eq false) _ _ s new 1 q own m q _ _ _).
  - exact Hadd.
  - intros s1 Hb. cbn beta iota. rewrite <- (b_path _ _ _ _ _ Hb). apply Hk; [apply Hb|].
    pose proof (roomy_bufs s Hwf Hroom). destruct Hb as [_ _ _ Hbu _ _]. lia.
  - intros [r name] s1 Hr1. cbn in Hr1. subst r. by exists false.
Qed.

(** The same for a file given by a path. *)
Lemma by_path_step tcf p (k : text -> M state bool) :
  type tcf = VFILE_PATH -> path tcf = Some p ->
  forall s, ('(r, name) ← tc_set_current_fh true fd_entry tcf true; if r : bool then k name else mret false) s
    = ('(r, name) ← tc_set_cfh_to_path true p true true; if r : bool then k name else mret false) s.
Proof. intros Ht Hp s. unfold tc_set_current_fh. by rewrite Ht, Hp. Qed.

Lemma auto_str_spec (name : text) (s : state) :
  wf s -> (tc_bufcnt s + 1 < MAX_BUFS_PER_COMPOUND)%nat -> Buf.NUL ∉ name ->
  exists s1, tc_new_auto_str true name s = done (name, s1) /\ built s [] 1 (tc_saved_path s) s1.
Proof.
  intros Hwf Hb Hn. unfold tc_new_auto_str, tc_alloca, gets, puts.
  eexists. split.
  - erewrite bind_done.
    2: { rewrite (bind_done _ _ _ (tc_bufcnt s) s) by done. rewrite (proj2 (Nat.eqb_neq _ _)) by lia. reflexivity. }
    rewrite (bind_done _ _ _ tt _ eq_refl). by rewrite until_NUL_id.
  - destruct Hwf. split; cbn; [done | by rewrite app_nil_r | lia | lia | done | by split].
Qed.

End path_elements.

(** ** A server with a fixed tree *)

(** File handles are absolute paths; the directories and the other files are listed, and the
    other operations only have results. *)
Definition fh_of (names : list text) : fhandle :=
  let p := PathSpec.SLASH :: PathSpec.join names in Fds.mk_fh (Some p) (List.length p).
Definition names_of (h : fhandle) : list text := PathSpec.norm true (default [] (Fds.nfs_fh4_val h)).

Definition toy (dirs regular : list text) (perform : nfs_argop4 -> Z + resok4) : server unit :=
  let is_dir h := bool_decide (default [] (Fds.nfs_fh4_val h) ∈ dirs) in
  let exists_ h := is_dir h || bool_decide (default [] (Fds.nfs_fh4_val h) ∈ regular) in
  mk_server (fh_of [])
    (fun _ d n =>
       if negb (is_dir d) then inl NFS4ERR_NOTDIR
       else let h := fh_of (names_of d ++ [n]) in if exists_ h then inr h else inl NFS4ERR_NOENT)
    (fun _ d =>
       if negb (is_dir d) then inl NFS4ERR_NOTDIR
       else match names_of d with [] => inl NFS4ERR_NOENT | l => inr (fh_of (removelast l)) end)
    (fun _ h bm => mk_fattr bm (default [] (Fds.nfs_fh4_val h)))
    (fun _ o d s =>
       match perform o with
       | inl e => inl e
       | inr r => inr (r, match o with OP_OPEN _ _ _ n => fh_of (names_of d ++ [n]) | _ => d end, tt)
       end) 127 127.

End Exec.
