(* ===== verification/CompoundSpecs.v ===== *)
(** What the operations on arrays of [nfs4/handle.c] do on a server that is a tree of files:
    one reference for each, that looks every element up from the root. Module [Arrays]. *)

From S2P Require Import Prelude CommonTypes PathSpec PathUtils SessionSlots FdTable TcApi Nfs4Impl DataCache NfsCache Compounds CompoundExec.
Import Api Nfs Cpd Exec.
Local Open Scope Z_scope.

Module Arrays.

Notation text := (list ascii).
Notation fhandle := Fds.nfs_fh4.

(** Operations in the current directory, and on the current file. *)
Definition in_dir (o : nfs_argop4) : bool :=
  match o with OP_OPEN _ _ _ _ | OP_CREATE _ _ _ | OP_REMOVE _ => true | _ => false end.
Definition on_file (o : nfs_argop4) : bool :=
  match o with OP_SETATTR _ | OP_READLINK _ => true | _ => false end.

(** Operations in a directory succeed only there. They, and those on files, leave directories
    where they are; a removal may take away a directory, but not the one that it is done in. *)
Class Acts {F} (srv : server F) (dirs : F -> fhandle -> Prop) := {
  act_dir f o d s r h f' :
    in_dir o = true -> s_perform srv f o d s = inr (r, h, f') -> dirs f d;
  act_keeps f o d s r h f' k names :
    in_dir o || on_file o = true -> s_perform srv f o d s = inr (r, h, f') ->
    (argop o = NFS4_OP_REMOVE -> k = d) ->
    find srv f (root srv) names = inr k -> dirs f k ->
    find srv f' (root srv) names = inr k /\ dirs f' k
}.

Section arrays.
Context {F : Type} (srv : server F) {dirs : F -> fhandle -> Prop} `{!Tree srv dirs} `{!Limits srv}
  `{!Acts srv dirs}.
Context (fd_entry : nat -> option Fds.tc_kfd).
Notation state := (fsal F).

(** Where the path of a file leads. *)
Definition find_path (f : F) (p : text) : Z + fhandle := find srv f (root srv) (PathSpec.norm true p).

Lemma set_cfh_name p leaf (s s' : state) r n :
  tc_set_cfh_to_path true p leaf true s = done ((r, n), s') -> n = (if leaf : bool then dir_base p else (p, [])).2.
Proof.
  unfold tc_set_cfh_to_path. destruct (if leaf then dir_base p else (p, [])) as [d name].
  intros (r' & s1 & _ & E)%bind_inv. by injection E.
Qed.

Lemma norm_leaf p :
  names_file p ->
  PathSpec.norm true p = PathSpec.norm true (dir_base p).1 ++ match (dir_base p).2 with [] => [] | n => [n] end
  /\ lookup_op (dir_base p).2 = map OP_LOOKUP match (dir_base p).2 with [] => [] | n => [n] end.
Proof.
  intros ((Ha & Hn & _) & Hl). destruct (parent_base_spec p Hn Ha) as (_ & _ & Hbn & _ & E).
  destruct Hl as [Hp | [Hb Hd]].
  - rewrite (PathSpec.walk_proper _ _ Hp) in E. pose proof (lookup_ops_names [(dir_base p).2]) as Hl.
    cbn [map concat] in Hl. rewrite app_nil_r in Hl.
    destruct (dir_base p).2 eqn:En; [by destruct Hp|]. split; [done|]. apply Hl; by constructor.
  - rewrite Hb, PathSpec.walk_nil in *. by rewrite app_nil_r.
Qed.

(** Operations after a lookup of the last component. *)
Lemma leaf_ends p f s :
  names_file p ->
  match find_path f (dir_base p).1 with
  | inl e => find_path f p = inl e
  | inr d => ends srv (lookup_op (dir_base p).2) (mk_conf f (Some d) s)
             = match find_path f p with inl e => inl e | inr h => inr (mk_conf f (Some h) s) end
  end.
Proof.
  intros Hp. destruct (norm_leaf p Hp) as [E1 E2]. unfold find_path. rewrite E1, E2, find_app.
  destruct (find _ _ _ _); [done|]. apply ends_lookups.
Qed.

Lemma leaf_dir p f d h :
  names_file p -> find_path f (dir_base p).1 = inr d -> find_path f p = inr h -> dirs f d.
Proof.
  intros Hp Hd Hf. destruct (norm_leaf p Hp) as [E1 _]. unfold find_path in *. rewrite E1, find_app, Hd in Hf.
  destruct Hp as (_ & [Hl | [Hb Hn]]).
  - destruct (dir_base p).2; [by destruct Hl|]. cbn in Hf. destruct (s_lookup srv f d _) eqn:E; [done|].
    by eapply lookup_dir.
  - rewrite Hn in Hd. injection Hd as <-. apply (root_dir srv f).
Qed.

Lemma leaf_adds (name : text) (rest : list nfs_argop4) (k : M state bool) (s : state) :
  wf s -> (forall s1 : state, wf s1 -> places true (eq false) k s1 rest 0 (tc_saved_path s1)) ->
  places true (eq false) (and_then (tc_prepare_lookups [name]) k) s (lookup_op name ++ rest) 0 (tc_saved_path s).
Proof.
  intros Hwf Hk. refine (adds_and _ _ s (lookup_op name) 0 _ rest 0 _ _ _).
  - pose proof (tc_prepare_lookups_adds [name] s Hwf) as H. cbn [map concat] in H. by rewrite app_nil_r in H.
  - intros s1 Hb. rewrite <- (b_path _ _ _ _ _ Hb). apply Hk, Hb.
Qed.

Lemma prepare2_adds o1 o2 (s : state) :
  wf s -> places true (eq false) (and_then (prepare o1) (prepare o2)) s [o1; o2] 0 (tc_saved_path s).
Proof.
  intros Hwf. refine (adds_and _ _ s [o1] 0 _ [o2] 0 _ (prepare_adds o1 s Hwf) _).
  intros s1 Hb. rewrite <- (b_path _ _ _ _ _ Hb). apply prepare_adds, Hb.
Qed.

(** C10: going to the directory of an absolute path, or to the path itself, is correct
    whatever way [tc_set_cfh_to_path] takes. When the operations before it succeed and the
    saved path leads to the saved directory, it either adds operations after which the
    current and the saved directory are the one that the path leads to from the root, or
    that fail with the error of that lookup, and the saved path leads there; or it reports
    that they do not fit. It never takes more operations than going from the root. *)
Theorem tc_set_cfh_to_path_correct (s : state) c0 c p leaf :
  wf s -> ends srv (ops s) c0 = inr c ->
  path_ok (tc_saved_path s) -> saved_ok srv (dirs := dirs) (files c) (tc_saved_path s) (sfh c) ->
  abs_path p ->
  let '(d, name) := if leaf : bool then dir_base p else (p, []) in
  exists r s', tc_set_cfh_to_path true p leaf true s = done ((r, name), s') /\
    if r : bool then
      (exists new, ops s' = ops s ++ new /\ (List.length new <= List.length (PathSpec.norm true d) + 2)%nat)
      /\ ends srv (ops s') c0
         = match find_path (files c) d with
           | inl e => inl e
           | inr h => inr (mk_conf (files c) (Some h) (Some h))
           end
      /\ path_ok (tc_saved_path s')
      /\ forall h, find_path (files c) d = inr h -> dirs (files c) h ->
           saved_ok srv (dirs := dirs) (files c) (tc_saved_path s') (Some h)
    else (MAX_NUM_OPS_PER_COMPOUND < opcnt s + List.length (PathSpec.norm true d) + 2)%nat
      /\ take (opcnt s) (argoparray s') = ops s.
Proof.
  intros Hwf Hc Hsp Hs Hp. destruct (if leaf then dir_base p else (p, [])) as [d name] eqn:Ed.
  assert (abs_path d) as (Ha & Hd & Hl).
  { destruct leaf; [|by injection Ed as <- _]. pose proof (abs_dir p Hp) as H. by rewrite Ed in H. }
  destruct (tc_set_cfh_to_path_adds p leaf d name s Hwf Hsp (proj1 Hp) Ed Ha Hd Hl) as (new & q & Hr & [H1 H2]).
  pose proof (reaches_length _ _ _ _ _ Hr Ha Hd) as Hlen.
  destruct (decide (opcnt s + List.length new <= MAX_NUM_OPS_PER_COMPOUND)%nat) as [Hf|Hf].
  - destruct (H1 Hf) as (s' & E & Hb). exists true, s'. split; [done|].
    destruct (reaches_ends srv _ _ _ _ _ _ _ Hc Hs Ha Hd Hr) as [He Hq]. destruct Hb as [_ Ho _ _ Hb _].
    rewrite Ho, Hb, ends_app, Hc, He. split_and!; [by exists new | done | by eapply reaches_ok | exact Hq].
  - destruct H2 as ([r n] & s' & E & Hr1 & Hsh); [lia|]. cbn in Hr1. subst r.
    exists false, s'. pose proof (set_cfh_name p leaf s s' false n) as Hn. rewrite E, Ed in Hn.
    rewrite (Hn eq_refl) in E. split_and!; [done | lia | apply Hsh].
Qed.

(** *** Elements that are looked up *)

Section looked_up.
Context {A : Type} (path_of : A -> text) (rest : A -> list nfs_argop4).

Definition dir_of (a : A) : text := (dir_base (path_of a)).1.
Definition looked_up (a : A) : list nfs_argop4 := lookup_op (dir_base (path_of a)).2 ++ rest a.

(** The results of the elements, one after the other. *)
Fixpoint seen (f : F) (l : list A) : list (Z + nfs_resop4) :=
  match l with
  | [] => []
  | a :: l =>
      match find_path f (path_of a), find_path f (dir_of a) with
      | inr h, inr d =>
          let '(rs, c) := exec srv (rest a) (mk_conf f (Some h) (Some d)) in
          visible rs ++
          match ends srv (rest a) (mk_conf f (Some h) (Some d)) with inl _ => [] | inr _ => seen (files c) l end
      | inl e, _ => [inl e]
      | _, inl e => [inl e]
      end
  end.

Lemma looked_up_visible l : forall c,
  Forall (fun a => names_file (path_of a)) l ->
  visible (exec srv (plain dir_of looked_up l) c).1 = seen (files c) l.
Proof.
  induction l as [|a l IH]; intros c Hl; [done|]. inversion_clear Hl as [|? ? Ha Hls].
  unfold plain, looked_up. cbn [map concat seen]. fold (plain dir_of looked_up l).
  rewrite <- !app_assoc, (app_assoc (plain_go _)), exec_app.
  destruct (exec_moves srv (plain_go (dir_of a) ++ lookup_op (dir_base (path_of a)).2) c) as [V _].
  { apply Forall_app. split; [apply plain_go_moves | apply lookup_op_moves]. }
  rewrite ends_app, plain_go_ends in *. unfold there in *.
  pose proof (leaf_ends (path_of a) (files c)) as Hleaf. unfold find_path, dir_of in *.
  destruct (find srv (files c) (root srv) (PathSpec.norm true (dir_base (path_of a)).1)) as [e|d].
  { rewrite V. by rewrite (Hleaf None Ha). }
  rewrite (Hleaf _ Ha) in *. destruct (find srv (files c) (root srv) (PathSpec.norm true (path_of a))) as [e|h].
  { by rewrite V. }
  cbn [fst]. rewrite visible_app, V. cbn [app]. rewrite exec_app.
  destruct (exec_cases srv (rest a) (mk_conf (files c) (Some h) (Some d))) as [(c' & E & E2 & _) | (e & rs & r & E & _)];
    rewrite E; destruct (exec srv (rest a) _) as [rs' c2]; cbn [fst snd] in *.
  - subst c2. rewrite visible_app. by rewrite IH.
  - by rewrite app_nil_r.
Qed.

End looked_up.

(** Operations that change nothing on the server. *)
Definition is_quiet (o : nfs_argop4) : bool :=
  is_move (argop o) || match o with OP_GETFH | OP_GETATTR _ => true | _ => false end.

Lemma quiet_files l c : Forall (fun o => is_quiet o = true) l -> files (exec srv l c).2 = files c.
Proof.
  intros Hl. revert c. induction Hl as [|o l Ho _ IH]; intros c; [done|]. cbn [exec].
  destruct (step srv o c) as [e | [r c1]] eqn:E; [done|]. specialize (IH c1).
  destruct (exec srv l c1). cbn [snd] in *. rewrite IH.
  apply orb_true_iff in Ho as [Ho|Ho]; [by eapply move_files|].
  destruct o; try discriminate Ho; cbn in E; unfold on_cfh in E; case_match; by simplify_eq.
Qed.

Lemma moves_quiet l : Forall (fun o => is_move (argop o) = true) l -> Forall (fun o => is_quiet o = true) l.
Proof. intros H. eapply Forall_impl; [exact H|]. intros o Ho. unfold is_quiet. by rewrite Ho. Qed.

Lemma update_middle {A} (pre : list A) a l g (b : A) (s : state) :
  g a s = done (b, s) -> update (pre ++ a :: l) (List.length pre) g s = done (pre ++ b :: l, s).
Proof.
  intros E. unfold update. rewrite list_lookup_middle by done. cbn [need].
  rewrite (bind_done _ _ _ _ _ eq_refl), (bind_done _ _ _ _ _ E).
  by rewrite insert_app_r_alt, Nat.sub_diag by lia.
Qed.

Lemma lookup_op_length c : (List.length (lookup_op c) <= 1)%nat.
Proof. unfold lookup_op. repeat case_match; cbn; lia. Qed.

Lemma looked_up_length {A} (path_of : A -> text) rest a :
  (List.length (looked_up path_of rest a) <= 1 + List.length (rest a))%nat.
Proof. unfold looked_up. rewrite length_app. pose proof (lookup_op_length (dir_base (path_of a)).2). lia. Qed.

Lemma looked_up_quiet {A} (path_of : A -> text) rest l :
  (forall a, Forall (fun o => is_quiet o = true) (rest a)) ->
  Forall (fun o => is_quiet o = true) (plain (dir_of path_of) (looked_up path_of rest) l).
Proof.
  intros Hr. unfold plain, looked_up. induction l as [|a l IH]; [constructor|]. cbn [map concat].
  rewrite !Forall_app. split_and!; [apply moves_quiet, plain_go_moves | apply moves_quiet, lookup_op_moves | apply Hr | exact IH].
Qed.

(** The error number of a status. *)
Definition errno (e : Z) : Z := match nfsstat4_to_errno e with Ok n => n | _ => 0 end.

Lemma find_error f names d e : find srv f d names = inl e -> is_error e.
Proof.
  revert d. induction names as [|n names IH]; intros d; [done|]. cbn [find].
  destruct (s_lookup srv f d n) eqn:E; [|apply IH]. intros [= ->]. by eapply lookup_error.
Qed.

Lemma errno_spec e : is_error e -> nfsstat4_to_errno e = Ok (errno e).
Proof. intros (_ & n & E). unfold errno. by rewrite E. Qed.

(** *** Attributes *)

Section getattr.
Context (decode : fattr4 -> option attrlist) (view : F -> fhandle -> bitmap4 -> attrlist).
(** The attributes of the server can be decoded. *)
Hypothesis decodes : forall f h bm, decode (s_getattr srv f h bm) = Some (view f h bm).

Definition attr_path (a : vattrs) : text := default [] (path (attr_file a)).
Definition get_ops (a : vattrs) : list nfs_argop4 := [OP_GETFH; OP_GETATTR (tc_attr_masks_to_bitmap (masks a))].

(** An element once its file was found. *)
Definition got (f : F) (a : vattrs) (h : fhandle) : vattrs :=
  store_attrs (view f h (tc_attr_masks_to_bitmap (masks a)))
    (mk_attrs (vfile_set_handle true h (attr_file a)) (masks a) (vals a)).

(** Each file is looked up from the root, up to the first that is not found. *)
Fixpoint lgetattrs_ref (f : F) (l : list vattrs) (i : nat) : vres * list vattrs :=
  match l with
  | [] => (mk_vres (Z.of_nat i) 0, [])
  | a :: l =>
      match find_path f (attr_path a) with
      | inl e => (vfailure (Z.of_nat i) (errno e), a :: l)
      | inr h => let '(r, l) := lgetattrs_ref f l (S i) in (r, got f a h :: l)
      end
  end.

Definition attr_ok (a : vattrs) : Prop := type (attr_file a) = VFILE_PATH /\ is_Some (path (attr_file a)) /\ names_file (attr_path a).

Lemma add_lgetattr_adds a (s : state) :
  attr_ok a -> wf s -> roomy s -> path_ok (tc_saved_path s) ->
  exists new n q, reaches (ops s) (tc_saved_path s) (dir_of attr_path a) new q
    /\ places true (eq false) (add_lgetattr true fd_entry a) s (new ++ looked_up attr_path get_ops a) n q
    /\ (n <= 3 * List.length (looked_up attr_path get_ops a))%nat.
Proof.
  intros (Ht & [p Hp] & Hn) Hwf Hroom Hsp. unfold dir_of, looked_up, attr_path in *. rewrite Hp in *.
  cbn [default] in *.
  destruct (to_path_adds p (fun name => and_then (tc_prepare_lookups [name])
    (and_then tc_prepare_getfh (tc_prepare_getattr (tc_attr_masks_to_bitmap (masks a)))))
    (lookup_op (dir_base p).2 ++ get_ops a) 0 s (proj1 Hn) Hwf Hroom Hsp) as (new & q & Hr & Hadd).
  { intros s1 Hwf1 _. apply leaf_adds; [done|]. intros s2 Hwf2. by apply prepare2_adds. }
  exists new, 1%nat, q. split_and!; [done | | rewrite length_app; cbn; lia].
  by apply (places_ext _ _ _ _ _ _ _ _ (by_path_step fd_entry _ _ _ Ht Hp)).
Qed.

Definition got_fh (h : fhandle) : nfs_resop4 := mk_resop NFS4_OP_GETFH NFS4_OK (RGetfh h).
Definition got_attr (v : fattr4) : nfs_resop4 := mk_resop NFS4_OP_GETATTR NFS4_OK (RGetattr v).

Lemma get_ops_exec a f d h :
  exec srv (get_ops a) (mk_conf f (Some h) (Some d))
  = ([got_fh h; got_attr (s_getattr srv f h (tc_attr_masks_to_bitmap (masks a)))], mk_conf f (Some h) (Some d)).
Proof. done. Qed.

Lemma get_ops_ends a f d h :
  ends srv (get_ops a) (mk_conf f (Some h) (Some d)) = inr (mk_conf f (Some h) (Some d)).
Proof. done. Qed.

Lemma looked_up_keeps a f h c' :
  attr_ok a -> find srv f (root srv) (PathSpec.norm true (dir_of attr_path a)) = inr h ->
  ends srv (looked_up attr_path get_ops a) (mk_conf f (Some h) (Some h)) = inr c' ->
  sfh c' = Some h /\ dirs f h /\ dirs (files c') h
  /\ forall names, find srv f (root srv) names = inr h -> find srv (files c') (root srv) names = inr h.
Proof.
  intros (_ & _ & Hn) Hf. unfold looked_up. rewrite ends_app.
  pose proof (leaf_ends (attr_path a) f (Some h) Hn) as Hl. unfold find_path, dir_of in *. rewrite Hf in Hl.
  rewrite Hl. destruct (find srv f (root srv) (PathSpec.norm true (attr_path a))) as [|k] eqn:E; [done|].
  rewrite get_ops_ends. intros [= <-]. cbn.
  pose proof (leaf_dir (attr_path a) f h k Hn Hf E). auto.
Qed.

Lemma lgetattr_moves r i x :
  is_move (resop r) = true -> @lgetattr_result F true decode r i x = mret (i, x).
Proof.
  unfold is_move, lgetattr_result. intros H%bool_decide_eq_true.
  repeat (apply elem_of_cons in H as [-> | H]; [done|]). by apply not_elem_of_nil in H.
Qed.

Lemma lgetattr_fh h i x (s : state) :
  lgetattr_result true decode (got_fh h) i x s = (attrs ← update x i (set_handle true h); mret (i, attrs)) s.
Proof. done. Qed.

Lemma lgetattr_attr v i x (s : state) :
  lgetattr_result true decode (got_attr v) i x s
  = (attrs ← update x i (fattr4_to_vattrs decode v); mret (S i, attrs)) s.
Proof. done. Qed.

(** Taking the results apart gives the reference. *)
Lemma lgetattr_process f l : forall pre post (s : state),
  Forall attr_ok l ->
  process_visible (lgetattr_result true decode) no_change (mk_vres (Z.of_nat (List.length pre + List.length l)) 0)
    (seen attr_path get_ops f l) (List.length pre) (pre ++ l ++ post) s
  = done (((lgetattrs_ref f l (List.length pre)).1, pre ++ (lgetattrs_ref f l (List.length pre)).2 ++ post), s).
Proof.
  induction l as [|a l IH]; intros pre post s Hl.
  { cbn. by rewrite Nat.add_0_r. }
  inversion_clear Hl as [|? ? (Ht & Hp & Hn) Hls]. cbn [seen lgetattrs_ref].
  pose proof (leaf_ends (attr_path a) f None Hn) as Hleaf. unfold dir_of.
  destruct (find_path f (attr_path a)) as [e|h] eqn:Ef.
  { cbn [process_visible]. unfold no_change. rewrite (bind_done _ _ _ _ _ eq_refl).
    rewrite (errno_spec e) by (by eapply find_error). cbn [run]. by rewrite (bind_done _ _ _ _ _ eq_refl). }
  destruct (find_path f (dir_base (attr_path a)).1) as [|d]; [done|].
  rewrite get_ops_exec, get_ops_ends. cbn [files app].
  change (visible [got_fh h; got_attr ?v]) with [@inr Z _ (got_fh h); inr (got_attr v)].
  cbn [app process_visible].
  set (b := mk_attrs (vfile_set_handle true h (attr_file a)) (masks a) (vals a)).
  rewrite (bind_done _ _ _ (List.length pre, pre ++ b :: l ++ post) s).
  2: { rewrite lgetattr_fh. by rewrite (bind_done _ _ _ _ _ (update_middle pre a (l ++ post) (set_handle true h) b s eq_refl)). }
  cbn beta iota.
  rewrite (bind_done _ _ _ (S (List.length pre), pre ++ got f a h :: l ++ post) s).
  2: { rewrite lgetattr_attr, (bind_done _ _ _ (pre ++ got f a h :: l ++ post) s); [done|].
       apply update_middle. unfold fattr4_to_vattrs. by rewrite decodes. }
  cbn beta iota. specialize (IH (pre ++ [got f a h]) post s Hls).
  rewrite length_app, <- !app_assoc in IH. cbn [app List.length] in IH. rewrite Nat.add_1_r in IH.
  cbn [List.length Nat.add] in IH |- *. rewrite Nat.add_succ_r.
  destruct (lgetattrs_ref f l (S (List.length pre))). exact IH.
Qed.

(** C11: [tc_nfs4_lgetattrsv] of files given by absolute paths gets the attributes and the
    handles of the files that looking each path up from the root finds, in order up to the
    first that is not found, whose index and error it returns; it does so for the first [n]
    elements, where [n] is at least the number of elements whose operations fit into one
    compound when every path is looked up from the root (so [n] is positive unless the
    directory of the first has more than 250 components in its path). It changes nothing on
    the server and gives its session slot back with the next sequence id. The directories
    that the compound saves and goes on from make no difference. Paths have fewer than 2^30
    characters and end in a name, or are the root. *)
Theorem lgetattrsv_correct X sent (s : state) attrs :
  ready X sent s -> attrs <> [] -> Forall attr_ok attrs ->
  exists n slot s',
    tc_nfs4_lgetattrsv true fd_entry decode (deliver srv) attrs s
      = done (((lgetattrs_ref (net s) (take n attrs) 0).1,
               (lgetattrs_ref (net s) (take n attrs) 0).2 ++ drop n attrs), s')
    /\ (n <= List.length attrs)%nat
    /\ (forall k, (k <= List.length attrs)%nat ->
         (List.length (plain (dir_of attr_path) (looked_up attr_path get_ops) (take k attrs)) < MAX_NUM_OPS_PER_COMPOUND)%nat ->
         (k <= n)%nat)
    /\ (forall a, head attrs = Some a ->
         (List.length (PathSpec.norm true (dir_of attr_path a)) + 6 <= MAX_NUM_OPS_PER_COMPOUND)%nat -> (0 < n)%nat)
    /\ net s' = net s /\ tc_cwd s' = tc_cwd s /\ (slot ∉ X) /\ ready X (one_more slot sent) s'.
Proof.
  intros Hr Hne Hok.
  destruct (array_call_spec srv (lgetattr_result true decode) no_change lgetattr_moves (add_lgetattr true fd_entry)
    (dir_of attr_path) (looked_up attr_path get_ops) attr_ok) with (Y := X) (sent := sent) (s := s) (l := attrs) (x := attrs)
    as (n & slot & s' & E & Hn & Hfit & Hnet & Hcwd & Hslot & Hr'); try done.
  - intros a (_ & _ & Ha & _). by destruct (abs_dir _ Ha) as (? & ? & _).
  - apply add_lgetattr_adds.
  - apply looked_up_keeps.
  - intros a _. unfold looked_up. apply Forall_app. split; [|by repeat constructor].
    unfold lookup_op. repeat case_match; repeat constructor; done.
  - exists n, slot, s'. split_and!; try done.
    + unfold tc_nfs4_lgetattrsv. rewrite (bind_done _ _ _ tt s) by (by destruct attrs).
      refine (eq_trans _ (eq_trans E _)); [reflexivity|].
      rewrite looked_up_visible by (apply Forall_take; eapply Forall_impl; [exact Hok|]; by intros a (_ & _ & ?)).
      pose proof (lgetattr_process (net s) (take n attrs) [] (drop n attrs) s' (Forall_take _ _ _ Hok)) as Hp.
      cbn [app List.length Nat.add] in Hp. rewrite take_drop, length_take, Nat.min_l in Hp by done. exact Hp.
    + intros a Ha Hl. destruct attrs as [|a' l]; [done|]. injection Ha as ->. apply (Hfit 1%nat); [cbn; lia|].
      rewrite length_plain. unfold root_size. cbn [take]. rewrite take_0. cbn [map sum_list sum_list_with id].
      pose proof (looked_up_length attr_path get_ops a). cbn [get_ops List.length] in *. lia.
    + rewrite Hnet. apply (quiet_files _ (mk_conf (net s) None None)). apply looked_up_quiet.
      intros a. by repeat constructor.
Qed.

End getattr.

(** *** Elements that are made or removed in their directories *)

Section in_directories.
Context {A : Type} (dir : A -> text) (op : A -> nfs_argop4) (rest : A -> list nfs_argop4) (P : A -> Prop).
Hypothesis op_in_dir : forall a, in_dir (op a) = true.
Hypothesis rest_quiet : forall a, Forall (fun o => is_quiet o = true /\ argop o <> NFS4_OP_SAVEFH) (rest a).

(** The operation of an element in its directory. *)
Definition do_op (f : F) (a : A) : Z + (resok4 * fhandle * F) :=
  match find_path f (dir a) with
  | inl e => inl e
  | inr d => s_perform srv f (op a) d (Some d)
  end.

Lemma quiet_ends l c c' :
  Forall (fun o => is_quiet o = true /\ argop o <> NFS4_OP_SAVEFH) l -> ends srv l c = inr c' ->
  files c' = files c /\ sfh c' = sfh c.
Proof.
  intros Hl. revert c. induction Hl as [|o l [Ho Hs] _ IH]; intros c; [by intros [= ->]|]. cbn [ends].
  destruct (step srv o c) as [|[r c1]] eqn:E; [done|]. intros H.
  pose proof (quiet_files [o] c (proj2 (Forall_singleton _ _) Ho)) as Hf. cbn [exec] in Hf. rewrite E in Hf.
  destruct (IH c1 H) as [-> ->]. split; [done|]. by apply (step_sfh srv _ _ _ _ E).
Qed.

Lemma in_dir_step o c d :
  in_dir o = true -> cfh c = Some d ->
  step srv o c = match s_perform srv (files c) o d (sfh c) with
                 | inl e => inl e
                 | inr (r, h, f) => inr (r, mk_conf f (Some (if NFS4_CHANGE_CFH (argop o) then h else d)) (sfh c))
                 end.
Proof. intros Ho Hc. destruct o; try discriminate Ho; cbn; unfold on_cfh; by rewrite Hc. Qed.

Lemma in_dir_keeps a f h c' :
  find srv f (root srv) (PathSpec.norm true (dir a)) = inr h ->
  ends srv (op a :: rest a) (mk_conf f (Some h) (Some h)) = inr c' ->
  sfh c' = Some h /\ dirs f h /\ dirs (files c') h
  /\ forall names, find srv f (root srv) names = inr h -> find srv (files c') (root srv) names = inr h.
Proof.
  intros Hf. cbn [ends]. rewrite (in_dir_step _ _ h (op_in_dir a)) by done. cbn [files sfh].
  destruct (s_perform srv f (op a) h (Some h)) as [|[[r k] f']] eqn:E; [done|]. intros H.
  destruct (quiet_ends _ _ _ (rest_quiet a) H) as [-> ->]. cbn.
  assert (dirs f h) as Hd by (by eapply act_dir).
  assert (forall names, find srv f (root srv) names = inr h -> find srv f' (root srv) names = inr h /\ dirs f' h) as Hk.
  { intros names Hn. eapply act_keeps; [by rewrite op_in_dir | exact E | done | done | done]. }
  split_and!; [done | done | by eapply Hk | intros; by eapply Hk].
Qed.

(** The results of elements of one operation each. *)
Fixpoint seen_ops (f : F) (l : list A) : list (Z + nfs_resop4) * F :=
  match l with
  | [] => ([], f)
  | a :: l =>
      match do_op f a with
      | inl e => ([inl e], f)
      | inr (r, _, f) => let '(rs, f) := seen_ops f l in (inr (mk_resop (argop (op a)) NFS4_OK r) :: rs, f)
      end
  end.

Lemma plain_ops l : forall c,
  visible (exec srv (plain dir (fun a => [op a]) l) c).1 = (seen_ops (files c) l).1
  /\ files (exec srv (plain dir (fun a => [op a]) l) c).2 = (seen_ops (files c) l).2.
Proof.
  induction l as [|a l IH]; intros c; [done|].
  unfold plain. cbn [map concat seen_ops]. fold (plain dir (fun a => [op a]) l).
  rewrite <- app_assoc, exec_app, plain_go_ends.
  destruct (exec_moves srv (plain_go (dir a)) c (plain_go_moves _)) as [V Fs].
  rewrite plain_go_ends in V. unfold there, do_op, find_path in *.
  destruct (find srv (files c) (root srv) (PathSpec.norm true (dir a))) as [e|d] eqn:Ef; [done|].
  cbn [fst snd app exec]. rewrite visible_app, V. cbn [app].
  rewrite (in_dir_step _ _ d (op_in_dir a)) by done. cbn [files sfh].
  destruct (s_perform srv (files c) (op a) d (Some d)) as [e | [[r k] f']] eqn:E.
  - cbn. by rewrite (proj2 (Z.eqb_neq e _) (proj1 (perform_error srv _ _ _ _ _ E))).
  - match goal with |- context [exec srv (plain _ _ l) ?c1] => destruct (IH c1) as [IH1 IH2];
      destruct (exec srv (plain _ _ l) c1) end.
    cbn [fst snd files] in *. destruct (seen_ops f' l). cbn [fst snd] in *. rewrite <- IH1, IH2.
    split; [|done]. unfold visible. cbn [omap list_omap status resop].
    assert (is_move (argop (op a)) = false) as ->; [|done].
    pose proof (op_in_dir a) as Ho. by destruct (op a).
Qed.

Lemma do_op_error f a e : do_op f a = inl e -> is_error e.
Proof.
  unfold do_op, find_path. destruct (find _ _ _ _) eqn:E; [intros [= <-]; by eapply find_error|].
  intros H. by eapply (perform_error srv).
Qed.

End in_directories.

(** *** Removal *)

Definition file_path (f : vfile) : text := default [] (path f).
Definition file_dir (f : vfile) : text := (dir_base (file_path f)).1.
Definition remove_op (f : vfile) : nfs_argop4 := OP_REMOVE (dir_base (file_path f)).2.
Definition file_ok (f : vfile) : Prop := type f = VFILE_PATH /\ is_Some (path f) /\ abs_path (file_path f).

(** The files are removed one after the other, up to the first failure. *)
Fixpoint remove_ref (f : F) (l : list vfile) (i : nat) : vres * F :=
  match l with
  | [] => (mk_vres (Z.of_nat i) 0, f)
  | a :: l =>
      match do_op file_dir remove_op f a with
      | inl e => (vfailure (Z.of_nat i) (errno e), f)
      | inr (_, _, f) => remove_ref f l (S i)
      end
  end.

Lemma add_remove_adds a (s : state) :
  file_ok a -> wf s -> roomy s -> path_ok (tc_saved_path s) ->
  exists new n q, reaches (ops s) (tc_saved_path s) (file_dir a) new q
    /\ places true (eq false) (add_remove true fd_entry a) s (new ++ [remove_op a]) n q
    /\ (n <= 3 * List.length [remove_op a])%nat.
Proof.
  intros (Ht & [p Hp] & Hn) Hwf Hroom Hsp. unfold file_dir, remove_op, file_path in *. rewrite Hp in *.
  cbn [default] in *. destruct (parent_base_spec p (proj1 (proj2 Hn)) (proj1 Hn)) as (_ & _ & Hbn & _).
  destruct (to_path_adds p (fun name => name ← tc_new_auto_str true name; tc_prepare_remove name)
    [OP_REMOVE (dir_base p).2] 1 s Hn Hwf Hroom Hsp) as (new & q & Hr & Hadd).
  { intros s1 Hwf1 Hb. destruct (auto_str_spec (dir_base p).2 s1 Hwf1 Hb Hbn) as (s2 & E & Hb2).
    refine (places_run _ _ _ _ s1 _ s2 1 _ _ 0 _ E Hb2 _).
    rewrite <- (b_path _ _ _ _ _ Hb2). apply prepare_adds, Hb2. }
  exists new, 2%nat, q. split_and!; [done | | cbn; lia]. unfold add_remove. rewrite Ht.
  by apply (places_ext _ _ _ _ _ _ _ _ (by_path_step fd_entry _ _ _ Ht Hp)).
Qed.

Lemma skip_null_spec n pre a l (s : state) :
  type a <> VFILE_NULL -> skip_null (S n) (pre ++ a :: l) (List.length pre) s = done (List.length pre, s).
Proof. intros Ha. cbn [skip_null]. by rewrite list_lookup_middle, bool_decide_false. Qed.

Lemma remove_process f l : forall pre post (s : state),
  Forall file_ok l ->
  process_visible (remove_result (pre ++ l ++ post)) no_change
    (mk_vres (Z.of_nat (List.length pre + List.length l)) 0)
    (seen_ops file_dir remove_op f l).1 (List.length pre) tt s
  = done (((remove_ref f l (List.length pre)).1, tt), s).
Proof.
  revert f. induction l as [|a l IH]; intros f pre post s Hl.
  { cbn. by rewrite Nat.add_0_r. }
  inversion_clear Hl as [|? ? (Ht & _) Hls]. cbn [seen_ops remove_ref].
  destruct (do_op file_dir remove_op f a) as [e | [[r k] f']] eqn:E.
  { cbn [fst process_visible]. unfold no_change. rewrite (bind_done _ _ _ _ _ eq_refl).
    by rewrite (errno_spec e) by (by eapply do_op_error). }
  specialize (IH f' (pre ++ [a]) post s Hls). rewrite length_app, <- app_assoc in IH. cbn [app List.length] in IH.
  rewrite Nat.add_1_r in IH. destruct (seen_ops file_dir remove_op f' l) as [rs f'']. cbn [fst process_visible] in *.
  rewrite (bind_done _ _ _ (S (List.length pre), tt) s).
  - cbn [List.length]. rewrite Nat.add_succ_r. exact IH.
  - cbn [app]. unfold remove_result.
    change (resop (mk_resop (argop (remove_op a)) NFS4_OK r) =? NFS4_OP_REMOVE) with true. cbn iota. rewrite (bind_done _ _ _ _ _ (skip_null_spec _ pre a (l ++ post) s ltac:(by rewrite Ht))). done.
Qed.

Lemma remove_files f l : forall i, (seen_ops file_dir remove_op f l).2 = (remove_ref f l i).2.
Proof.
  revert f. induction l as [|a l IH]; intros f i; [done|]. cbn [seen_ops remove_ref].
  destruct (do_op file_dir remove_op f a) as [|[[r k] f']]; [done|]. rewrite <- IH. by destruct (seen_ops _ _ f' l).
Qed.

Lemma remove_moves fs r i x : is_move (resop r) = true -> @remove_result F fs r i x = mret (i, x).
Proof.
  unfold is_move, remove_result. intros H%bool_decide_eq_true.
  repeat (apply elem_of_cons in H as [-> | H]; [done|]). by apply not_elem_of_nil in H.
Qed.

(** C12: [tc_nfs4_removev] of files given by absolute paths removes them in order, each by its
    name in the directory that its path leads to from the root at that time, up to the first
    failure, whose index and error it returns; it does so for at least as many as fit into a
    compound when every directory is looked up from the root. The files after a failure, and
    those that do not fit, are not touched. Paths have fewer than 2^30 characters. *)
Theorem removev_correct X sent (s : state) fs :
  ready X sent s -> Forall file_ok fs ->
  exists n slot s',
    tc_nfs4_removev true fd_entry (deliver srv) fs s = done ((remove_ref (net s) (take n fs) 0).1, s')
    /\ (n <= List.length fs)%nat
    /\ (forall k, (k <= List.length fs)%nat ->
         (List.length (plain file_dir (fun a => [remove_op a]) (take k fs)) < MAX_NUM_OPS_PER_COMPOUND)%nat -> (k <= n)%nat)
    /\ (forall a, head fs = Some a ->
         (List.length (PathSpec.norm true (file_dir a)) + 4 <= MAX_NUM_OPS_PER_COMPOUND)%nat -> (0 < n)%nat)
    /\ net s' = (remove_ref (net s) (take n fs) 0).2
    /\ tc_cwd s' = tc_cwd s /\ (slot ∉ X) /\ ready X (one_more slot sent) s'.
Proof.
  intros Hr Hok.
  destruct (array_call_spec srv (remove_result fs) no_change (remove_moves fs) (add_remove true fd_entry)
    file_dir (fun a => [remove_op a]) file_ok) with (Y := X) (sent := sent) (s := s) (l := fs) (x := tt)
    as (n & slot & s' & E & Hn & Hfit & Hnet & Hcwd & Hslot & Hr'); try done.
  - intros a (_ & _ & Ha). by destruct (abs_dir _ Ha) as (? & ? & _).
  - apply add_remove_adds.
  - intros a g h c' _. by apply (in_dir_keeps file_dir remove_op (fun _ => [])).
  - intros a _. by repeat constructor.
  - destruct (plain_ops file_dir remove_op (fun _ => eq_refl) (take n fs) (mk_conf (net s) None None)) as [V Fs].
    exists n, slot, s'. split_and!; try done.
    + unfold tc_nfs4_removev.
      pose proof (remove_process (net s) (take n fs) [] (drop n fs) s' (Forall_take _ _ _ Hok)) as Hp.
      cbn [app List.length Nat.add] in Hp. rewrite take_drop, length_take, Nat.min_l in Hp by done.
      rewrite V in E. cbn [files] in E. rewrite Hp in E.
      apply bind_inv in E as ([] & s1 & E1 & E). apply bind_inv in E as (m & s2 & E2 & E3).
      by rewrite (bind_done _ _ _ _ _ E1), (bind_done _ _ _ _ _ E2), (bind_done _ _ _ _ _ E3).
    + intros a Ha Hl. destruct fs as [|a' l]; [done|]. injection Ha as ->. apply (Hfit 1%nat); [cbn; lia|].
      rewrite length_plain. unfold root_size. cbn [take]. rewrite take_0. cbn [map sum_list sum_list_with id List.length]. lia.
    + rewrite Hnet, Fs. apply remove_files.
Qed.

End arrays.

(** ** A small server

    The root, a directory in it, and a file in the directory that may be removed: the
    files are whether it is still there. *)

#[export] Instance nfs_fh4_eq_dec : EqDecision fhandle.
Proof. solve_decision. Defined.

Definition handle (s : string) : fhandle := Fds.mk_fh (Some (str s)) (String.length s).
Definition h_root : fhandle := handle "root".
Definition h_dir : fhandle := handle "dir".
Definition h_file : fhandle := handle "file".

Definition small_dirs (_ : bool) (h : fhandle) : Prop := h = h_root \/ h = h_dir.

Definition small : server bool := mk_server h_root
  (fun there d n =>
     if bool_decide (d = h_root) then
       if bool_decide (n = str "d") then inr h_dir else inl NFS4ERR_NOENT
     else if bool_decide (d = h_dir) then
       if bool_decide (n = str "f") && there then inr h_file else inl NFS4ERR_NOENT
     else inl NFS4ERR_NOTDIR)
  (fun _ d =>
     if bool_decide (d = h_dir) then inr h_root
     else if bool_decide (d = h_root) then inl NFS4ERR_NOENT else inl NFS4ERR_NOTDIR)
  (fun _ h bm => mk_fattr bm (default [] (Fds.nfs_fh4_val h)))
  (fun there o d s =>
     match o with
     | OP_REMOVE n =>
         if bool_decide (d = h_dir) && bool_decide (n = str "f") && there then inr (RNone, d, false)
         else inl NFS4ERR_NOENT
     | _ => inl NFS4ERR_NOENT
     end) 127 127.

#[export] Instance small_tree : Tree small small_dirs.
Proof.
  split.
  - intros f. by left.
  - intros f d n h. cbn. repeat case_bool_decide; subst; cbn; unfold small_dirs; intros; try done; auto.
  - intros f d n h. cbn. unfold small_dirs.
    repeat case_bool_decide; subst; cbn; intros ? [Hd | Hd]; simplify_eq; try done; by destruct f; simplify_eq.
  - intros f d n e. cbn. repeat case_bool_decide; cbn; destruct f; intros [= <-]; (split; [done | by eexists]).
  - intros f d e. cbn. repeat case_bool_decide; cbn; intros [= <-]; (split; [done | by eexists]).
  - intros f o d s e. cbn. destruct o; try (intros [= <-]; split; [done | by eexists]).
    repeat case_bool_decide; cbn; destruct f; intros [= <-]; (split; [done | by eexists]).
Qed.

#[export] Instance small_limits : Limits small.
Proof. split; vm_compute; repeat split; discriminate. Qed.

(** Directories are found whether or not the file is there. *)
Lemma small_find f f' names : forall d k,
  find small f d names = inr k -> small_dirs f k -> find small f' d names = inr k.
Proof.
  induction names as [|n names IH]; intros d k; [done|]. cbn [find].
  destruct (s_lookup small f d n) as [|h] eqn:E; [done|]. intros Hf Hk.
  assert (h = h_file \/ s_lookup small f' d n = inr h) as [-> | ->].
  - revert E. cbn. repeat case_bool_decide; cbn; destruct f; intros; simplify_eq; auto.
  - destruct names as [|n' names]; cbn in Hf; [|done]. injection Hf as <-. by destruct Hk.
  - by apply IH.
Qed.

#[export] Instance small_acts : Acts small small_dirs.
Proof.
  split.
  - intros f o d s r h f' _. cbn. destruct o; try done. repeat case_bool_decide; cbn; try done. by right.
  - intros f o d s r h f' k names _ _ _ Hf Hk. split; [by eapply small_find | exact Hk].
Qed.

(** A thread before its first call. *)
Definition new_thread {W} (w : W) : fsal W :=
  mk_fsal (replicate MAX_NUM_OPS_PER_COMPOUND OP_NONE) (replicate MAX_NUM_OPS_PER_COMPOUND resop0)
    0 false [] 0 0 None Slots.initial_sst w.

Lemma ready_new {W} (w : W) : ready ∅ (fun _ => 0%nat) (new_thread w).
Proof.
  split; try done.
  - by apply Slots.represents_new.
  - exists 0%nat. split; [unfold Slots.SESSION_SLOT_TABLE_CAPACITY; lia | set_solver].
Qed.

Definition no_fds : nat -> option Fds.tc_kfd := fun _ => None.
Definition vals0 : avals := mk_vals 0 0 0 0 0 0 0 0 time0 time0 time0.
Definition ask (s : string) : vattrs := mk_attrs (vfile_from_path (str s)) VMASK_INIT_NONE vals0.

Lemma tc_set_cfh_to_path_correct_witness :
  exists r s', tc_set_cfh_to_path true (str "/d/f") true true (new_thread true) = done ((r, str "f"), s')
    /\ (r = true -> ends small (ops s') (mk_conf true None None) = inr (mk_conf true (Some h_dir) (Some h_dir))).
Proof.
  destruct (tc_set_cfh_to_path_correct small (new_thread true) (mk_conf true None None) (mk_conf true None None)
    (str "/d/f") true) as (r & s' & E & H).
  - by split; [done | unfold MAX_NUM_OPS_PER_COMPOUND; cbn; lia].
  - reflexivity.
  - by left.
  - by left.
  - split_and!; [done | by apply (bool_decide_unpack (_ ∉ _)) | done].
  - exists r, s'. split; [exact E|]. intros ->. apply H.
Defined.

Lemma lgetattrsv_correct_witness :
  exists n slot s',
    tc_nfs4_lgetattrsv true no_fds (fun _ => Some attrlist0) (deliver small) [ask "/d/f"; ask "/x"] (new_thread true)
      = done (((lgetattrs_ref small (fun _ _ _ => attrlist0) true (take n [ask "/d/f"; ask "/x"]) 0).1,
               (lgetattrs_ref small (fun _ _ _ => attrlist0) true (take n [ask "/d/f"; ask "/x"]) 0).2
                 ++ drop n [ask "/d/f"; ask "/x"]), s')
    /\ n = 2%nat /\ ready ∅ (one_more slot (fun _ => 0%nat)) s'.
Proof.
  destruct (lgetattrsv_correct small no_fds (fun _ => Some attrlist0) (fun _ _ _ => attrlist0) (fun _ _ _ => eq_refl)
    ∅ (fun _ => 0%nat) (new_thread true) [ask "/d/f"; ask "/x"]) as (n & slot & s' & E & Hle & Hn & _ & _ & _ & _ & Hr).
  - apply ready_new.
  - discriminate.
  - repeat constructor; try (by eexists); try done; try (by apply (bool_decide_unpack (_ ∉ _)));
      left; repeat split; try discriminate; repeat constructor; discriminate.
  - exists n, slot, s'. split; [exact E|]. split; [|exact Hr].
    apply Nat.le_antisymm; [exact Hle|]. apply Hn; [done|]. apply Nat.ltb_lt. vm_compute. reflexivity.
Defined.

Lemma removev_correct_witness :
  exists n slot s',
    tc_nfs4_removev true no_fds (deliver small) [vfile_from_path (str "/d/f"); vfile_from_path (str "/x")] (new_thread true)
      = done ((remove_ref small true (take n [vfile_from_path (str "/d/f"); vfile_from_path (str "/x")]) 0).1, s')
    /\ n = 2%nat /\ ready ∅ (one_more slot (fun _ => 0%nat)) s'.
Proof.
  destruct (removev_correct small no_fds ∅ (fun _ => 0%nat) (new_thread true)
    [vfile_from_path (str "/d/f"); vfile_from_path (str "/x")]) as (n & slot & s' & E & Hle & Hn & _ & _ & _ & _ & Hr).
  - apply ready_new.
  - repeat constructor; try (by eexists); try done; by apply (bool_decide_unpack (_ ∉ _)).
  - exists n, slot, s'. split; [exact E|]. split; [|exact Hr].
    apply Nat.le_antisymm; [exact Hle|]. apply Hn; [done|]. apply Nat.ltb_lt. vm_compute. reflexivity.
Defined.

(** ** Concrete runs *)

(** Directories three deep with two files. *)
Definition deep : server unit :=
  toy [str "/"; str "/a"; str "/a/b"; str "/a/b/c"] [str "/a/b/c/f"; str "/a/b/c/g"; str "/a/h"; str "/x"] (fun _ => inr RNone).

(** A computation that returns, and the result and state that it returns with. *)
Definition returns {W A} (o : outcome (option (A * fsal W))) (P : A -> fsal W -> Prop) : Prop :=
  match o with Ok (Some (a, s)) => P a s | _ => False end.

(** What is left of the first lookup is used for the second, and only for a path that is
    shorter from there. *)
Lemma compressed_example :
  returns (tc_nfs4_lgetattrsv true no_fds (fun _ => Some attrlist0) (deliver deep)
      [ask "/a/b/c/f"; ask "/a/b/c/g"; ask "/x"] (new_thread tt))
    (fun r s' => vokay r.1 = true /\ map argop (ops s') =
         [NFS4_OP_SEQUENCE;
          NFS4_OP_PUTROOTFH; NFS4_OP_LOOKUP; NFS4_OP_LOOKUP; NFS4_OP_LOOKUP; NFS4_OP_SAVEFH;
          NFS4_OP_LOOKUP; NFS4_OP_GETFH; NFS4_OP_GETATTR;
          NFS4_OP_RESTOREFH; NFS4_OP_LOOKUP; NFS4_OP_GETFH; NFS4_OP_GETATTR;
          NFS4_OP_PUTROOTFH; NFS4_OP_SAVEFH; NFS4_OP_LOOKUP; NFS4_OP_GETFH; NFS4_OP_GETATTR]).
Proof. vm_compute. auto. Qed.

(** [tc_nfs4_hardlinkv] fails where it should not: it saves the file that is to be linked,
    not its directory, and then goes from there to the directory of the new name, so that
    the parent of a file is looked up. The file, and the directory of the new name, are
    there; where the paths are short, the way is from the root and the link is made. *)
Theorem hardlinkv_saved_file :
  returns (tc_nfs4_hardlinkv true (deliver deep) [str "/a/b/c/f"] [str "/a/b/c/n"] (new_thread tt))
    (fun r s' => r = vfailure 0 NFS4ERR_NOTDIR /\ existsb (fun o => argop o =? NFS4_OP_LOOKUPP) (ops s') = true)
  /\ find_path deep tt (str "/a/b/c/f") = inr (fh_of [str "a"; str "b"; str "c"; str "f"])
  /\ find_path deep tt (str "/a/b/c") = inr (fh_of [str "a"; str "b"; str "c"])
  /\ returns (tc_nfs4_hardlinkv true (deliver deep) [str "/x"] [str "/y"] (new_thread tt)) (fun r _ => r = mk_vres 1 0).
Proof. vm_compute. auto. Qed.

Definition enc (_ : attrlist) (bm : bitmap4) : option fattr4 := Some (mk_fattr bm []).
Definition dec (_ : fattr4) : option attrlist := Some attrlist0.

(** A compound can be filled past its end: [tc_prepare_setattr] alone does not ask for
    room, so that after 42 files in a directory and one in the root the operation goes to
    the place after the last of the array. With one file less all is well. *)
Theorem lsetattrsv_overruns :
  tc_nfs4_lsetattrsv true no_fds enc dec (deliver deep) (replicate 42 (ask "/a/h") ++ [ask "/x"]) (new_thread tt) = Abort
  /\ returns (tc_nfs4_lsetattrsv true no_fds enc dec (deliver deep) (replicate 42 (ask "/a/h")) (new_thread tt))
       (fun r _ => r.1 = mk_vres 42 0).
Proof. vm_compute. auto. Qed.

(** After a change of directory that fails the slot keeps its sequence id, although the
    server executed the compound under this id: the next compound is sent with the same slot
    and sequence id. After one that succeeds the sequence id is the next one. *)
Theorem chdir_failure_keeps_sequence :
  returns (tc_nfs4_chdir true (deliver deep) (str "/nowhere") (new_thread tt))
    (fun r s' => r = - NFS4ERR_NOENT /\ status <$> resoparray s' !! 0%nat = Some NFS4_OK
       /\ returns (vreset_compound s') (fun _ s'' => argoparray s'' !! 0%nat = argoparray s' !! 0%nat))
  /\ returns (tc_nfs4_chdir true (deliver deep) (str "/a") (new_thread tt))
    (fun r s' => r = 0 /\ Slots.get_slot_sequence (sess_slot_tbl s') 0 = Ok 2).
Proof. vm_compute. auto. Qed.

(** Operations with the results of a file of five bytes; [CLOSE] fails or not. *)
Definition reading (close : Z) : server unit :=
  toy [str "/"] [str "/x"; str "/y"] (fun o =>
    match o with
    | OP_OPEN _ _ _ _ => inr (ROpen (Fds.mk_stateid 0 []) 0)
    | OP_READ _ _ _ _ => inr (RRead 5 true)
    | OP_CLOSE _ _ => if close =? NFS4_OK then inr RNone else inl close
    | _ => inr RNone
    end).

Definition read5 (f : vfile) : viovec := mk_iov f 0 5 0 VECTOR_READ_OP false false false false false false.

(** A descriptor for another file. *)
Definition y_fds (n : nat) : option Fds.tc_kfd :=
  if (n =? 0)%nat then Some (Fds.mk_kfd Fds.Unlocked 0 (fh_of [str "y"]) (Fds.mk_stateid 7 [Buf.NUL]) 0 0 0) else None.
Definition y_file : vfile := mk_vfile VFILE_DESCRIPTOR 0 (UFdData (mk_fd_data 0 0)).

(** When the close at the end fails, the failure is marked in the vector after the last one. *)
Lemma readv_close_failure :
  tc_nfs4_readv true no_fds 0 0 0 enc dec (deliver (reading 5)) [read5 (vfile_from_path (str "/x"))] [ask "/x"]
    (new_thread tt) = Abort
  /\ returns (tc_nfs4_readv true no_fds 0 0 0 enc dec (deliver (reading 0)) [read5 (vfile_from_path (str "/x"))]
       [ask "/x"] (new_thread tt)) (fun r _ => r.1.1 = mk_vres 1 0).
Proof. vm_compute. auto. Qed.

(** Reads of [/x] have one byte and reads of [/y] two. *)
Definition two_files : server unit :=
  let t := reading NFS4_OK in
  mk_server (root t) (s_lookup t) (s_lookupp t) (s_getattr t)
    (fun f o d s =>
       match o with
       | OP_READ _ _ _ _ => inr (RRead (if bool_decide (d = fh_of [str "y"]) then 2 else 1) true, d, f)
       | _ => s_perform t f o d s
       end) 127 127.

(** A read of a file given by path returns the bytes of another file, when it comes after
    a read of the same path and one of a descriptor: the path counts as opened, but the
    current file is that of the descriptor. Without the descriptor in between, the bytes are
    those of the file. *)
Theorem readv_wrong_file :
  returns (tc_nfs4_readv true y_fds 0 0 0 enc dec (deliver two_files)
      [read5 (vfile_from_path (str "/x")); read5 y_file; read5 (vfile_from_path (str "/x"))]
      [ask "/x"; ask "/y"; ask "/x"] (new_thread tt))
    (fun r _ => r.1.1 = mk_vres 3 0 /\ map length r.1.2 = [1; 2; 2])
  /\ returns (tc_nfs4_readv true y_fds 0 0 0 enc dec (deliver two_files)
      [read5 (vfile_from_path (str "/x")); read5 (vfile_from_path (str "/x"))]
      [ask "/x"; ask "/x"] (new_thread tt))
    (fun r _ => r.1.1 = mk_vres 2 0 /\ map length r.1.2 = [1; 1]).
Proof. vm_compute. auto. Qed.

End Arrays.
