(* ===== verification/Base64.v ===== *)
(** The base64 codec of [support/bsd-base64.c].

    Bytes ([u_char]) are [Z]; the characters of a string are those before its
    terminator.  [b64_ntop] returns what it stored in the target, [b64_pton] updates
    the target in place.  The reference encoding is by bits. *)

From S2P Require Import Prelude.
Local Open Scope Z_scope.

Module B64.

Definition Base64 : list ascii :=
  String.list_ascii_of_string "ABCDEFGHIJKLMNOPQRSTUVWXYZabcdefghijklmnopqrstuvwxyz0123456789+/".
Definition Pad64 : ascii := "="%char.
Definition NUL : ascii := Ascii.zero.

(** [Base64[i]], which reads past the array for an index that is too large. *)
Definition base64_at (i : Z) : outcome ascii :=
  match Base64 !! Z.to_nat i with Some c => Ok c | None => Abort end.

(** ** Encoding *)

Definition out0 (a : Z) : Z := u8 (Z.shiftr a 2).
Definition out1 (a b : Z) : Z := u8 (Z.shiftl (Z.land a 3) 4 + Z.shiftr b 4).
Definition out2 (b c : Z) : Z := u8 (Z.shiftl (Z.land b 15) 2 + Z.shiftr c 6).
Definition out3 (c : Z) : Z := u8 (Z.land c 63).

(** What was stored so far is [out]; the result is the return value and the stored
    characters. *)
Definition finish (targsize : Z) (out : list ascii) : outcome (Z * list ascii) :=
  if targsize <=? zlen out then Ok (-1, out) else Ok (s32 (zlen out), out ++ [NUL]).

Definition no_room (targsize : Z) (out : list ascii) : bool := targsize <? u64 (zlen out + 4).

(** The last one or two bytes: [b] is [None] when there is one byte. *)
Definition ntop_tail (targsize : Z) (a : Z) (b : option Z) (out : list ascii)
  : outcome (Z * list ascii) :=
  let b' := default 0 b in
  assert! out0 a <? 64 ;; assert! out1 a b' <? 64 ;; assert! out2 b' 0 <? 64 ;;
  if no_room targsize out then Ok (-1, out)
  else
    let! c0 := base64_at (out0 a) in
    let! c1 := base64_at (out1 a b') in
    let! c2 := match b with None => Ok Pad64 | Some _ => base64_at (out2 b' 0) end in
    finish targsize (out ++ [c0; c1; c2; Pad64]).

Fixpoint ntop_loop (targsize : Z) (src : list Z) (out : list ascii) : outcome (Z * list ascii) :=
  match src with
  | a :: b :: c :: rest =>
      assert! out0 a <? 64 ;; assert! out1 a b <? 64 ;; assert! out2 b c <? 64 ;;
      assert! out3 c <? 64 ;;
      if no_room targsize out then Ok (-1, out)
      else
        let! c0 := base64_at (out0 a) in
        let! c1 := base64_at (out1 a b) in
        let! c2 := base64_at (out2 b c) in
        let! c3 := base64_at (out3 c) in
        ntop_loop targsize rest (out ++ [c0; c1; c2; c3])
  | [a] => ntop_tail targsize a None out
  | [a; b] => ntop_tail targsize a (Some b) out
  | [] => finish targsize out
  end.

Definition b64_ntop (src : list Z) (targsize : Z) : outcome (Z * list ascii) :=
  ntop_loop targsize src [].

(** ** Decoding *)

Definition isspace (c : ascii) : bool :=
  let n := Z.of_nat (nat_of_ascii c) in (n =? 32) || (9 <=? n) && (n <=? 13).

(** [strchr(s, c) - s]. *)
Fixpoint strchr (s : list ascii) (c : ascii) : option Z :=
  match s with
  | [] => None
  | x :: s => if bool_decide (x = c) then Some 0 else option_map Z.succ (strchr s c)
  end.

(** The target array, [None] for a null pointer; an access out of range is [Abort]. *)
Definition store (t : list Z) (i v : Z) : outcome (list Z) :=
  if (0 <=? i) && (i <? zlen t) then Ok (<[ Z.to_nat i := u8 v ]> t) else Abort.
Definition fetch (t : list Z) (i : Z) : outcome Z :=
  match t !! Z.to_nat i with Some v => if 0 <=? i then Ok v else Abort | None => Abort end.

(** [target[i] |= v]. *)
Definition or_into (t : list Z) (i v : Z) : outcome (list Z) :=
  let! w := fetch t i in store t i (Z.lor w v).

(** [tarindex++] on an [int]. *)
Definition incr (i : Z) : outcome Z := if i + 1 <? 2 ^ 31 then Ok (i + 1) else Abort.

Inductive scan :=
  | Return (r : Z) (t : option (list Z))
  | Stopped (pad : bool) (rest : list ascii) (state : nat) (tarindex : Z) (t : option (list Z)).

(** One step of the automaton on the value [pos] of a character: the new state, index
    and target, or nothing when the target is too small. *)
Definition step (targsize pos : Z) (state : nat) (i : Z) (t : option (list Z))
  : outcome (option (nat * Z * option (list Z))) :=
  match state with
  | 0%nat =>
      match t with
      | None => done (1%nat, i, t)
      | Some m =>
          if targsize <=? i then Ok None
          else let! m := store m i (Z.shiftl pos 2) in done (1%nat, i, Some m)
      end
  | 1%nat | 2%nat =>
      let last := bool_decide (state = 2%nat) in
      match t with
      | None => let! i := incr i in done (S state, i, t)
      | Some m =>
          if targsize <=? i + 1 then Ok None
          else
            let! m := or_into m i (Z.shiftr pos (if last then 2 else 4)) in
            let! m := store m (i + 1)
                        (if last then Z.shiftl (Z.land pos 3) 6 else Z.shiftl (Z.land pos 15) 4) in
            let! i := incr i in
            done (S state, i, Some m)
      end
  | _ =>
      match t with
      | None => let! i := incr i in done (0%nat, i, t)
      | Some m =>
          if targsize <=? i then Ok None
          else let! m := or_into m i pos in let! i := incr i in done (0%nat, i, Some m)
      end
  end.

Fixpoint pton_loop (targsize : Z) (src : list ascii) (state : nat) (i : Z) (t : option (list Z))
  : outcome scan :=
  match src with
  | [] => Ok (Stopped false [] state i t)
  | ch :: src =>
      if isspace ch then pton_loop targsize src state i t
      else if bool_decide (ch = Pad64) then Ok (Stopped true src state i t)
      else
        match strchr Base64 ch with
        | None => Ok (Return (-1) t)
        | Some pos =>
            let! r := step targsize pos state i t in
            match r with
            | None => Ok (Return (-1) t)
            | Some (state, i, t) => pton_loop targsize src state i t
            end
        end
  end.

Fixpoint skip_space (src : list ascii) : list ascii :=
  match src with
  | [] => []
  | ch :: rest => if isspace ch then skip_space rest else src
  end.

(** Nothing but white space, and no bits left over. *)
Definition trailing (rest : list ascii) (i : Z) (t : option (list Z)) : outcome (Z * option (list Z)) :=
  match skip_space rest with
  | _ :: _ => Ok (-1, t)
  | [] =>
      match t with
      | None => Ok (i, t)
      | Some m => let! v := fetch m i in Ok (if negb (v =? 0) then -1 else i, t)
      end
  end.

(** What follows the loop. *)
Definition ended (r : scan) : outcome (Z * option (list Z)) :=
  match r with
  | Return r t => Ok (r, t)
  | Stopped true rest state i t =>
      match state with
      | 0%nat | 1%nat => Ok (-1, t)
      | 2%nat =>
          match skip_space rest with
          | [] => Ok (-1, t)
          | ch :: rest => if bool_decide (ch = Pad64) then trailing rest i t else Ok (-1, t)
          end
      | _ => trailing rest i t
      end
  | Stopped false _ state i t => Ok (if negb (state =? 0)%nat then -1 else i, t)
  end.

Definition b64_pton (src : list ascii) (t : option (list Z)) (targsize : Z)
  : outcome (Z * option (list Z)) :=
  let! r := pton_loop targsize src 0 0 t in ended r.

(** ** The encoding by bits *)

Definition bits (w : nat) (x : Z) : list bool :=
  map (fun i => Z.testbit x (Z.of_nat i)) (rev (seq 0 w)).

(** Groups of six bits, the last one filled up with zeros. *)
Fixpoint sixes (bs : list bool) : list (list bool) :=
  match bs with
  | [] => []
  | x1 :: x2 :: x3 :: x4 :: x5 :: x6 :: bs => [x1; x2; x3; x4; x5; x6] :: sixes bs
  | _ => [take 6 (bs ++ replicate 6 false)]
  end.

Definition number (bs : list bool) : Z := foldl (fun n b => 2 * n + Z.b2z b) 0 bs.

Definition digit (i : Z) : ascii := default NUL (Base64 !! Z.to_nat i).

Definition digits_of (src : list Z) : list ascii :=
  map (fun six => digit (number six)) (sixes (flat_map (bits 8) src)).

Definition encode (src : list Z) : list ascii :=
  digits_of src ++ replicate ((4 - length (digits_of src) mod 4) mod 4) Pad64.

(** ** Bytes and digits, case by case *)

Definition byte (x : Z) : Prop := 0 <= x < 256.
Definition sextet (x : Z) : Prop := 0 <= x < 64.

Definition all2 (n m : nat) (f : Z -> Z -> bool) : bool :=
  forallb (fun x => forallb (f (Z.of_nat x)) (map Z.of_nat (seq 0 m))) (seq 0 n).

Lemma all2_sound n m f : all2 n m f = true ->
  forall x y, 0 <= x < Z.of_nat n -> 0 <= y < Z.of_nat m -> f x y = true.
Proof.
  unfold all2. rewrite forallb_forall. intros Hall x y Hx Hy.
  specialize (Hall (Z.to_nat x)). rewrite in_seq, Z2Nat.id in Hall by lia.
  rewrite forallb_forall in Hall by lia. apply Hall; [lia|].
  apply in_map_iff. exists (Z.to_nat y). rewrite in_seq. lia.
Qed.

(** [sweep2 n m] proves an equation on [x] below [n] and [y] below [m] by cases, and
    [sweep1 n] one on [x] below [n]. *)
Ltac sweep2 n m :=
  match goal with
  | |- forall x y : Z, _ -> _ -> @?P x y = @?Q x y =>
      let H := fresh in
      assert (all2 n m (fun x y => P x y =? Q x y) = true) as H by (vm_compute; reflexivity);
      intros x y Hx Hy; apply Z.eqb_eq; unfold byte, sextet in *;
      refine (all2_sound n m _ H x y _ _); lia
  end.
Ltac sweep1 n :=
  match goal with
  | |- forall x : Z, _ -> @?P x = @?Q x =>
      let H := fresh in
      assert (all2 n 1 (fun x _ => P x =? Q x) = true) as H by (vm_compute; reflexivity);
      intros x Hx; apply Z.eqb_eq; unfold byte, sextet in *;
      refine (all2_sound n 1 _ H x 0 _ _); lia
  end.

Definition bit8 (x : Z) (i : Z) : bool := Z.testbit x i.

Lemma bits_8 x : bits 8 x = [bit8 x 7; bit8 x 6; bit8 x 5; bit8 x 4; bit8 x 3; bit8 x 2; bit8 x 1; bit8 x 0].
Proof. done. Qed.

Lemma out0_bits : forall a, byte a ->
  number [bit8 a 7; bit8 a 6; bit8 a 5; bit8 a 4; bit8 a 3; bit8 a 2] = out0 a.
Proof. sweep1 256%nat. Qed.
Lemma out1_bits : forall a b, byte a -> byte b ->
  number [bit8 a 1; bit8 a 0; bit8 b 7; bit8 b 6; bit8 b 5; bit8 b 4] = out1 a b.
Proof. sweep2 256%nat 256%nat. Qed.
Lemma out2_bits : forall b c, byte b -> byte c ->
  number [bit8 b 3; bit8 b 2; bit8 b 1; bit8 b 0; bit8 c 7; bit8 c 6] = out2 b c.
Proof. sweep2 256%nat 256%nat. Qed.
Lemma out3_bits : forall c, byte c ->
  number [bit8 c 5; bit8 c 4; bit8 c 3; bit8 c 2; bit8 c 1; bit8 c 0] = out3 c.
Proof. sweep1 256%nat. Qed.
Lemma out1_pad : forall a, byte a ->
  number [bit8 a 1; bit8 a 0; false; false; false; false] = out1 a 0.
Proof. sweep1 256%nat. Qed.
Lemma out2_pad : forall b, byte b ->
  number [bit8 b 3; bit8 b 2; bit8 b 1; bit8 b 0; false; false] = out2 b 0.
Proof. sweep1 256%nat. Qed.

(** The values the encoder looks up. *)
Definition outs_small (x y : Z) : bool :=
  forallb (fun v => (0 <=? v) && (v <? 64)) [out0 x; out1 x y; out2 x y; out3 x].

Lemma outs_small_all : all2 256 256 outs_small = true.
Proof. vm_compute. reflexivity. Qed.

Lemma out_range a b : byte a -> byte b ->
  sextet (out0 a) /\ sextet (out1 a b) /\ sextet (out2 a b) /\ sextet (out3 a).
Proof.
  intros Ha Hb. pose proof (all2_sound _ _ _ outs_small_all a b ltac:(done) ltac:(done)) as H.
  unfold outs_small in H. cbn [forallb] in H. unfold sextet. reflect_bools. lia.
Qed.

(** ** The alphabet *)

Lemma base64_at_digit i : sextet i -> base64_at i = Ok (digit i).
Proof.
  intros Hi. unfold base64_at, digit.
  destruct (lookup_lt_is_Some_2 Base64 (Z.to_nat i)) as [c ->]; [|done].
  change (length Base64) with 64%nat. unfold sextet in Hi. lia.
Qed.

Definition digit_ok (i : Z) : bool :=
  negb (isspace (digit i)) && negb (bool_decide (digit i = Pad64))
  && bool_decide (strchr Base64 (digit i) = Some i).

Lemma digits_ok : all2 64 1 (fun i _ => digit_ok i) = true.
Proof. vm_compute. reflexivity. Qed.

Lemma digit_spec i : sextet i ->
  isspace (digit i) = false /\ digit i <> Pad64 /\ strchr Base64 (digit i) = Some i.
Proof.
  intros Hi. pose proof (all2_sound _ _ _ digits_ok i 0 ltac:(done) ltac:(lia)) as H.
  unfold digit_ok in H. reflect_bools.
  split_and!; [done | by eapply bool_decide_eq_false_1 | by eapply bool_decide_eq_true_1].
Qed.

Lemma strchr_lookup s c k : strchr s c = Some k -> 0 <= k /\ s !! Z.to_nat k = Some c.
Proof.
  revert k. induction s as [|x s IH]; intros k; cbn [strchr]; [done|].
  destruct (bool_decide_reflect (x = c)) as [->|Hne]; [by intros [= <-]|].
  destruct (strchr s c) as [j|]; [|done]. cbn. intros [= <-].
  destruct (IH j eq_refl) as [Hj Hl]. split; [lia|].
  by rewrite Z2Nat.inj_succ by lia.
Qed.

Lemma strchr_digit c k : strchr Base64 c = Some k -> sextet k /\ c = digit k.
Proof.
  intros [Hk Hl]%strchr_lookup. pose proof (lookup_lt_Some _ _ _ Hl) as Hlt.
  change (length Base64) with 64%nat in Hlt. split; [split; lia|]. unfold digit. by rewrite Hl.
Qed.

(** ** The encoder *)

Definition quad (a b c : Z) : list ascii := [digit (out0 a); digit (out1 a b); digit (out2 b c); digit (out3 c)].

Lemma digits_of_3 a b c rest : byte a -> byte b -> byte c ->
  digits_of (a :: b :: c :: rest) = quad a b c ++ digits_of rest.
Proof.
  intros Ha Hb Hc. unfold digits_of. cbn [flat_map]. rewrite !bits_8. cbn [app sixes map].
  by rewrite out0_bits, out1_bits, out2_bits, out3_bits.
Qed.

Lemma encode_3 a b c rest : byte a -> byte b -> byte c ->
  encode (a :: b :: c :: rest) = quad a b c ++ encode rest.
Proof.
  intros Ha Hb Hc. unfold encode. rewrite digits_of_3 by done. rewrite <- app_assoc. f_equal. f_equal. f_equal.
  rewrite length_app. cbn [length quad].
  by rewrite <- (Nat.Div0.add_mod_idemp_l 4).
Qed.

Lemma encode_1 a : byte a -> encode [a] = [digit (out0 a); digit (out1 a 0); Pad64; Pad64].
Proof.
  intros Ha. unfold encode, digits_of. cbn [flat_map]. rewrite bits_8. cbn [app sixes map replicate take].
  by rewrite out0_bits, out1_pad.
Qed.

Lemma encode_2 a b : byte a -> byte b ->
  encode [a; b] = [digit (out0 a); digit (out1 a b); digit (out2 b 0); Pad64].
Proof.
  intros Ha Hb. unfold encode, digits_of. cbn [flat_map]. rewrite !bits_8. cbn [app sixes map replicate take].
  by rewrite out0_bits, out1_bits, out2_pad.
Qed.

Lemma triples_ind {A} (P : list A -> Prop) :
  P [] -> (forall a, P [a]) -> (forall a b, P [a; b]) ->
  (forall a b c l, P l -> P (a :: b :: c :: l)) -> forall l, P l.
Proof.
  intros H0 H1 H2 H3. fix IH 1. intros [|a [|b [|c l]]]; [done | apply H1 | apply H2 |].
  apply H3, IH.
Qed.

(** What [b64_ntop] may return when [text] is the encoding. *)
Definition encoded (targsize : Z) (text : list ascii) (r : outcome (Z * list ascii)) : Prop :=
  (zlen text < targsize /\ r = Ok (zlen text, text ++ [NUL]))
  \/ (targsize <= zlen text /\ exists o, r = Ok (-1, o) /\ o `prefix_of` text /\ zlen o <= targsize).

Lemma finish_spec targsize out : zlen out < 2 ^ 31 -> zlen out <= targsize ->
  encoded targsize out (finish targsize out).
Proof.
  intros Hb Ho. unfold finish. destruct (targsize <=? zlen out) eqn:E; reflect_bools.
  - right. split; [done|]. exists out. done.
  - left. rewrite s32_small; [done|]. unfold zlen in *. lia.
Qed.

(** Four characters that do not fit. *)
Lemma room_spec targsize out c0 c1 c2 c3 more r :
  zlen out + 4 < 2 ^ 64 -> zlen out <= targsize ->
  (zlen out + 4 <= targsize -> encoded targsize (out ++ [c0; c1; c2; c3] ++ more) r) ->
  encoded targsize (out ++ [c0; c1; c2; c3] ++ more) (if no_room targsize out then Ok (-1, out) else r).
Proof.
  intros Hb Ho Hr. unfold no_room. rewrite u64_small by (unfold zlen in *; lia).
  destruct (targsize <? zlen out + 4) eqn:E; reflect_bools; [|by apply Hr].
  right. split; [unfold zlen in *; rewrite !length_app; cbn [length]; lia|].
  exists out. split; [done|]. split; [by eexists | done].
Qed.

Lemma pass_assert {B} v (k : outcome B) : sextet v -> (assert! v <? 64 ;; k) = k.
Proof. intros [_ Hv]. by rewrite (proj2 (Z.ltb_lt _ _) Hv). Qed.

Lemma ntop_tail_spec targsize a b out :
  byte a -> byte (default 0 b) -> zlen out + 4 < 2 ^ 31 -> zlen out <= targsize ->
  encoded targsize (out ++ encode (a :: option_list b)) (ntop_tail targsize a b out).
Proof.
  intros Ha Hb Hs Ho. unfold ntop_tail.
  destruct (out_range a (default 0 b) Ha Hb) as (H0 & H1 & _).
  destruct (out_range (default 0 b) 0 Hb ltac:(done)) as (_ & _ & H2 & _).
  rewrite !pass_assert by done. rewrite !base64_at_digit by done. cbn [obind].
  assert (exists c2, match b with None => Ok Pad64 | Some _ => Ok (digit (out2 (default 0 b) 0)) end = Ok c2
    /\ encode (a :: option_list b) = [digit (out0 a); digit (out1 a (default 0 b)); c2; Pad64] ++ [])
    as (c2 & -> & ->).
  { destruct b as [b|]; cbn [default option_list]; eexists; (split; [reflexivity|]).
    - change (option_list (Some b)) with [b]. by rewrite encode_2.
    - change (option_list (@None Z)) with (@nil Z). by rewrite encode_1. }
  apply room_spec; [lia | done |]. intros Hroom. rewrite app_nil_r. cbn [obind].
  apply finish_spec; unfold zlen in *; rewrite length_app; cbn [length]; lia.
Qed.

Lemma ntop_loop_spec targsize src out :
  Forall byte src -> zlen out + zlen (encode src) < 2 ^ 31 -> zlen out <= targsize ->
  encoded targsize (out ++ encode src) (ntop_loop targsize src out).
Proof.
  revert out. induction src as [|a|a b|a b c src IH] using triples_ind; intros out Hby Hs Ho.
  - change (encode []) with (@nil ascii). rewrite app_nil_r. apply finish_spec; [|done].
    unfold zlen in *. lia.
  - rewrite encode_1 in Hs by (by inversion Hby). inversion Hby; subst.
    apply (ntop_tail_spec targsize a None); [done | done | unfold zlen in *; cbn [length] in Hs; lia | done].
  - inversion Hby as [|? ? Ha Hby1]; subst. inversion Hby1; subst. rewrite encode_2 in Hs by done.
    apply (ntop_tail_spec targsize a (Some b)); [done | done | unfold zlen in *; cbn [length] in Hs; lia | done].
  - inversion Hby as [|? ? Ha Hby1]; subst. inversion Hby1 as [|? ? Hb Hby2]; subst.
    inversion Hby2 as [|? ? Hc Hby3]; subst. rewrite encode_3 in * by done. cbn [ntop_loop].
    destruct (out_range a b Ha Hb) as (H0 & H1 & _). destruct (out_range b c Hb Hc) as (_ & _ & H2 & _).
    destruct (out_range c a Hc Ha) as (_ & _ & _ & H3).
    rewrite !pass_assert by done. rewrite !base64_at_digit by done. cbn [obind].
    unfold zlen in Hs. rewrite length_app in Hs. cbn [length quad] in Hs.
    apply room_spec; [unfold zlen in *; lia | done |]. intros Hroom. rewrite app_assoc.
    apply IH; [done | |]; unfold zlen in *; rewrite length_app; cbn [length]; lia.
Qed.

(** ** The decoder *)

Definition dec0 (q0 q1 : Z) : Z := u8 (Z.lor (u8 (Z.shiftl q0 2)) (Z.shiftr q1 4)).
Definition mid1 (q1 : Z) : Z := u8 (Z.shiftl (Z.land q1 15) 4).
Definition dec1 (q1 q2 : Z) : Z := u8 (Z.lor (mid1 q1) (Z.shiftr q2 2)).
Definition mid2 (q2 : Z) : Z := u8 (Z.shiftl (Z.land q2 3) 6).
Definition dec2 (q2 q3 : Z) : Z := u8 (Z.lor (mid2 q2) q3).

Lemma u8_byte x : byte (u8 x).
Proof. apply (Z.mod_pos_bound x 256). lia. Qed.

(** Decoding what was encoded. *)
Lemma dec0_out : forall a b, byte a -> byte b -> dec0 (out0 a) (out1 a b) = a.
Proof. sweep2 256%nat 256%nat. Qed.
Lemma mid1_out : forall a b, byte a -> byte b -> mid1 (out1 a b) = Z.land b 240.
Proof. sweep2 256%nat 256%nat. Qed.
Lemma mid1_dec1 : forall b c, byte b -> byte c -> u8 (Z.lor (Z.land b 240) (Z.shiftr (out2 b c) 2)) = b.
Proof. sweep2 256%nat 256%nat. Qed.
Lemma mid2_out : forall b c, byte b -> byte c -> mid2 (out2 b c) = Z.land c 192.
Proof. sweep2 256%nat 256%nat. Qed.
Lemma mid2_dec2 : forall c, byte c -> u8 (Z.lor (Z.land c 192) (out3 c)) = c.
Proof. sweep1 256%nat. Qed.

Lemma dec1_out a b c : byte a -> byte b -> byte c -> dec1 (out1 a b) (out2 b c) = b.
Proof. intros. unfold dec1. rewrite mid1_out by done. by apply mid1_dec1. Qed.
Lemma dec2_out b c : byte b -> byte c -> dec2 (out2 b c) (out3 c) = c.
Proof. intros. unfold dec2. rewrite mid2_out by done. by apply mid2_dec2. Qed.

(** Encoding what was decoded. *)
Lemma out0_dec : forall q0 q1, sextet q0 -> sextet q1 -> out0 (dec0 q0 q1) = q0.
Proof. sweep2 64%nat 64%nat. Qed.
Lemma dec0_low : forall q0 q1, sextet q0 -> sextet q1 -> Z.land (dec0 q0 q1) 3 = Z.shiftr q1 4.
Proof. sweep2 64%nat 64%nat. Qed.
Lemma dec1_high : forall q1 q2, sextet q1 -> sextet q2 -> Z.shiftr (dec1 q1 q2) 4 = Z.land q1 15.
Proof. sweep2 64%nat 64%nat. Qed.
Lemma join1 : forall q, sextet q -> u8 (Z.shiftl (Z.shiftr q 4) 4 + Z.land q 15) = q.
Proof. sweep1 64%nat. Qed.
Lemma dec1_low : forall q1 q2, sextet q1 -> sextet q2 -> Z.land (dec1 q1 q2) 15 = Z.shiftr q2 2.
Proof. sweep2 64%nat 64%nat. Qed.
Lemma dec2_high : forall q2 q3, sextet q2 -> sextet q3 -> Z.shiftr (dec2 q2 q3) 6 = Z.land q2 3.
Proof. sweep2 64%nat 64%nat. Qed.
Lemma join2 : forall q, sextet q -> u8 (Z.shiftl (Z.shiftr q 2) 2 + Z.land q 3) = q.
Proof. sweep1 64%nat. Qed.
Lemma out3_dec : forall q2 q3, sextet q2 -> sextet q3 -> out3 (dec2 q2 q3) = q3.
Proof. sweep2 64%nat 64%nat. Qed.

Lemma out1_dec q0 q1 q2 : sextet q0 -> sextet q1 -> sextet q2 -> out1 (dec0 q0 q1) (dec1 q1 q2) = q1.
Proof. intros. unfold out1. rewrite dec0_low, dec1_high by done. by apply join1. Qed.
Lemma out2_dec q1 q2 q3 : sextet q1 -> sextet q2 -> sextet q3 -> out2 (dec1 q1 q2) (dec2 q2 q3) = q2.
Proof. intros. unfold out2. rewrite dec1_low, dec2_high by done. by apply join2. Qed.

(** No bits are left over. *)
Lemma mid1_0 : forall q, sextet q -> mid1 q = 16 * Z.land q 15.
Proof. sweep1 64%nat. Qed.
Lemma mid2_0 : forall q, sextet q -> mid2 q = 64 * Z.land q 3.
Proof. sweep1 64%nat. Qed.

Lemma out1_last q0 q1 : sextet q0 -> sextet q1 -> mid1 q1 = 0 -> out1 (dec0 q0 q1) 0 = q1.
Proof.
  intros H0 H1 Hm. rewrite mid1_0 in Hm by done. unfold out1. rewrite dec0_low by done.
  rewrite <- (join1 q1) at 2 by done. by replace (Z.land q1 15) with 0 by lia.
Qed.
Lemma out2_last q1 q2 : sextet q1 -> sextet q2 -> mid2 q2 = 0 -> out2 (dec1 q1 q2) 0 = q2.
Proof.
  intros H0 H1 Hm. rewrite mid2_0 in Hm by done. unfold out2. rewrite dec1_low by done.
  rewrite <- (join2 q2) at 2 by done. by replace (Z.land q2 3) with 0 by lia.
Qed.

(** *** The target *)

Ltac size := unfold zlen in *; rewrite ?length_app in *; cbn [length] in *; lia.

Lemma store_at (l r : list Z) x i v : i = zlen l -> store (l ++ x :: r) i v = Ok (l ++ u8 v :: r).
Proof.
  intros ->. unfold store, zlen. rewrite length_app. cbn [length].
  rewrite (proj2 (Z.leb_le _ _)), (proj2 (Z.ltb_lt _ _)) by lia. cbn [andb]. rewrite Nat2Z.id.
  by rewrite insert_app_r_alt, Nat.sub_diag by lia.
Qed.

Lemma fetch_at (l r : list Z) x i : i = zlen l -> fetch (l ++ x :: r) i = Ok x.
Proof.
  intros ->. unfold fetch, zlen. rewrite Nat2Z.id, list_lookup_middle by done.
  by rewrite (proj2 (Z.leb_le _ _)) by lia.
Qed.

Lemma or_into_at (l r : list Z) x i v : i = zlen l ->
  or_into (l ++ x :: r) i v = Ok (l ++ u8 (Z.lor x v) :: r).
Proof. intros Hi. unfold or_into. rewrite fetch_at by done. cbn [obind]. by apply store_at. Qed.

Lemma incr_ok i : i + 1 < 2 ^ 31 -> incr i = Ok (i + 1).
Proof. intros Hi. unfold incr. by rewrite (proj2 (Z.ltb_lt _ _) Hi). Qed.

(** *** One character *)

Definition run (targsize : Z) (src : list ascii) (state : nat) (i : Z) (t : option (list Z))
  : outcome (Z * option (list Z)) := let! r := pton_loop targsize src state i t in ended r.

Section target.
(** The target, with [l] already decoded. *)
Context (targsize : Z) (Hsize : targsize < 2 ^ 31).

Lemma run_digit q src state i t : sextet q ->
  run targsize (digit q :: src) state i t =
  let! r := step targsize q state i t in
  match r with None => Ok (-1, t) | Some (state, i, t) => run targsize src state i t end.
Proof.
  intros Hq. destruct (digit_spec q Hq) as (Hs & Hp & Hc). unfold run. cbn [pton_loop].
  rewrite Hs, bool_decide_false, Hc by done.
  by destruct (step targsize q state i t) as [[[[]]|]| |].
Qed.

Lemma run_0 q l x r src : sextet q -> targsize = zlen (l ++ x :: r) ->
  run targsize (digit q :: src) 0 (zlen l) (Some (l ++ x :: r)) =
  run targsize src 1 (zlen l) (Some (l ++ u8 (Z.shiftl q 2) :: r)).
Proof.
  intros Hq HT. rewrite run_digit by done.
  cbn [step]. rewrite (proj2 (Z.leb_gt _ _)) by size. by rewrite store_at.
Qed.

Lemma run_1 q l x y r src : sextet q -> targsize = zlen (l ++ x :: y :: r) ->
  run targsize (digit q :: src) 1 (zlen l) (Some (l ++ x :: y :: r)) =
  run targsize src 2 (zlen l + 1) (Some (l ++ u8 (Z.lor x (Z.shiftr q 4)) :: mid1 q :: r)).
Proof.
  intros Hq HT. rewrite run_digit by done.
  cbn [step]. rewrite (proj2 (Z.leb_gt _ _)) by size.
  rewrite (bool_decide_eq_false_2 (1 = 2)%nat) by done. rewrite or_into_at by done. cbn [obind].
  rewrite (cons_middle _ l (y :: r)), app_assoc, store_at by size.
  cbn [obind]. rewrite incr_ok by size. cbn [obind done]. by rewrite <- app_assoc.
Qed.

Lemma run_2 q l x y r src : sextet q -> targsize = zlen (l ++ x :: y :: r) ->
  run targsize (digit q :: src) 2 (zlen l) (Some (l ++ x :: y :: r)) =
  run targsize src 3 (zlen l + 1) (Some (l ++ u8 (Z.lor x (Z.shiftr q 2)) :: mid2 q :: r)).
Proof.
  intros Hq HT. rewrite run_digit by done.
  cbn [step]. rewrite (proj2 (Z.leb_gt _ _)) by size.
  rewrite (bool_decide_eq_true_2 (2 = 2)%nat) by done. rewrite or_into_at by done. cbn [obind].
  rewrite (cons_middle _ l (y :: r)), app_assoc, store_at by size.
  cbn [obind]. rewrite incr_ok by size. cbn [obind done]. by rewrite <- app_assoc.
Qed.

Lemma run_3 q l x r src : sextet q -> targsize = zlen (l ++ x :: r) ->
  run targsize (digit q :: src) 3 (zlen l) (Some (l ++ x :: r)) =
  run targsize src 0 (zlen l + 1) (Some (l ++ u8 (Z.lor x q) :: r)).
Proof.
  intros Hq HT. rewrite run_digit by done.
  cbn [step]. rewrite (proj2 (Z.leb_gt _ _)) by size.
  rewrite or_into_at by done. cbn [obind]. by rewrite incr_ok by size.
Qed.

(** The target is too small. *)
Lemma run_full q l r src state : sextet q -> targsize = zlen (l ++ r) ->
  (length r <= match state with 1 | 2 => 1 | _ => 0 end)%nat -> (state <= 3)%nat ->
  run targsize (digit q :: src) state (zlen l) (Some (l ++ r)) = Ok (-1, Some (l ++ r)).
Proof.
  intros Hq HT Hr Hs. rewrite run_digit by done. unfold zlen in HT. rewrite length_app in HT.
  destruct state as [|[|[|[|]]]]; [..|lia]; cbn [step];
    by rewrite (proj2 (Z.leb_le _ _)) by size.
Qed.

Lemma run_pad src state i t : run targsize (Pad64 :: src) state i t = ended (Stopped true src state i t).
Proof. reflexivity. Qed.

(** Two and three characters before the padding. *)
Lemma run_duo q0 q1 l x y r src :
  sextet q0 -> sextet q1 -> targsize = zlen (l ++ x :: y :: r) ->
  run targsize (digit q0 :: digit q1 :: src) 0 (zlen l) (Some (l ++ x :: y :: r)) =
  run targsize src 2 (zlen (l ++ [dec0 q0 q1])) (Some ((l ++ [dec0 q0 q1]) ++ mid1 q1 :: r)).
Proof.
  intros H0 H1 HT.
  rewrite run_0 by (done || size).
  rewrite run_1 by (done || size).
  f_equal; [size | by rewrite <- app_assoc].
Qed.

Lemma run_trio q0 q1 q2 l x y z r src :
  sextet q0 -> sextet q1 -> sextet q2 -> targsize = zlen (l ++ x :: y :: z :: r) ->
  run targsize (digit q0 :: digit q1 :: digit q2 :: src) 0 (zlen l) (Some (l ++ x :: y :: z :: r)) =
  run targsize src 3 (zlen (l ++ [dec0 q0 q1; dec1 q1 q2]))
    (Some ((l ++ [dec0 q0 q1; dec1 q1 q2]) ++ mid2 q2 :: r)).
Proof.
  intros H0 H1 H2 HT. rewrite run_duo by done.
  rewrite run_2 by (done || size). fold (dec1 q1 q2).
  f_equal; [size | by rewrite <- !app_assoc].
Qed.

(** Three bytes. *)
Lemma run_quad q0 q1 q2 q3 l x y z r src :
  sextet q0 -> sextet q1 -> sextet q2 -> sextet q3 -> targsize = zlen (l ++ x :: y :: z :: r) ->
  run targsize (digit q0 :: digit q1 :: digit q2 :: digit q3 :: src) 0 (zlen l) (Some (l ++ x :: y :: z :: r)) =
  run targsize src 0 (zlen (l ++ [dec0 q0 q1; dec1 q1 q2; dec2 q2 q3]))
    (Some ((l ++ [dec0 q0 q1; dec1 q1 q2; dec2 q2 q3]) ++ r)).
Proof.
  intros H0 H1 H2 H3 HT. rewrite run_trio by done.
  rewrite run_3 by (done || size). fold (dec2 q2 q3).
  f_equal; [size | by rewrite <- !app_assoc].
Qed.

(** The end, with [v] the byte after the last one. *)
Lemma trailing_at l v r : trailing [] (zlen l) (Some (l ++ v :: r)) =
  Ok (if negb (v =? 0) then -1 else zlen l, Some (l ++ v :: r)).
Proof. unfold trailing. cbn [skip_space]. by rewrite fetch_at. Qed.

(** The byte after the last one is written to unless the bytes come in threes. *)
Definition spare (src : list Z) : Z := if zlen src mod 3 =? 0 then 0 else 1.

Lemma spare_3 a b c src : spare (a :: b :: c :: src) = spare src.
Proof.
  unfold spare, zlen. cbn [length]. replace (Z.of_nat (S (S (S (length src))))) with (Z.of_nat (length src) + 1 * 3) by lia.
  by rewrite Z.mod_add by lia.
Qed.

Lemma run_encode src l r :
  Forall byte src -> targsize = zlen (l ++ r) -> zlen src + spare src <= zlen r ->
  exists tail, run targsize (encode src) 0 (zlen l) (Some (l ++ r))
                 = Ok (zlen l + zlen src, Some (l ++ src ++ tail))
               /\ drop 1 tail = drop (S (length src)) r /\ length (src ++ tail) = length r.
Proof.
  revert l r. induction src as [|a|a b|a b c src IH] using triples_ind; intros l r Hby HT Hr.
  - exists r. split; [|done]. change (encode []) with (@nil ascii). cbn. by rewrite Z.add_0_r.
  - change (spare [a]) with 1 in Hr. apply Forall_cons in Hby as [Ha _].
    destruct r as [|x [|y r]]; [size | size |]. destruct (out_range a 0) as (H0 & H1 & _); [done..|].
    rewrite encode_1, run_duo by done. rewrite run_pad. cbn [ended skip_space].
    change (isspace Pad64) with false. cbn iota. rewrite bool_decide_true by done.
    rewrite trailing_at, dec0_out, mid1_out by done. change (Z.land 0 240) with 0. cbn [Z.eqb negb].
    exists (0 :: r). split; [|done]. rewrite <- app_assoc. do 2 f_equal. size.
  - change (spare [a; b]) with 1 in Hr. rewrite !Forall_cons in Hby. destruct Hby as (Ha & Hb & _).
    destruct r as [|x [|y [|z r]]]; [size | size | size |].
    destruct (out_range a b) as (H0 & H1 & _); [done..|].
    destruct (out_range b 0) as (_ & _ & H2 & _); [done..|].
    rewrite encode_2, run_trio by done. rewrite run_pad. cbn [ended].
    rewrite trailing_at, dec0_out, dec1_out, mid2_out by done. change (Z.land 0 192) with 0. cbn [Z.eqb negb].
    exists (0 :: r). split; [|done]. rewrite <- app_assoc. do 2 f_equal. size.
  - rewrite spare_3 in Hr. rewrite !Forall_cons in Hby. destruct Hby as (Ha & Hb & Hc & Hby3).
    assert (0 <= spare src) by (unfold spare; by destruct (_ =? _)).
    destruct r as [|x [|y [|z r]]]; [size | size | size |].
    destruct (out_range a b) as (H0 & H1 & _); [done..|].
    destruct (out_range b c) as (_ & _ & H2 & _); [done..|].
    destruct (out_range c a) as (_ & _ & _ & H3); [done..|].
    rewrite encode_3 by done. cbn [app quad]. rewrite run_quad by done.
    rewrite dec0_out, dec1_out, dec2_out by done.
    destruct (IH (l ++ [a; b; c]) r Hby3) as (tail & -> & Hd & Hlen); [size | size |].
    exists tail. split; [rewrite <- app_assoc; do 2 f_equal; size|]. split; [done|].
    cbn [app length]. by rewrite Hlen.
Qed.

(** *** White space *)

Definition strip (src : list ascii) : list ascii := filter (fun c => isspace c = false) src.

Lemma strip_skip src :
  match skip_space src with
  | [] => strip src = []
  | c :: rest => strip src = c :: strip rest /\ isspace c = false
  end.
Proof.
  induction src as [|c src IH]; [done|]. cbn [skip_space]. unfold strip in *. rewrite filter_cons.
  destruct (isspace c) eqn:E; [by rewrite decide_False | by rewrite decide_True].
Qed.

Lemma skip_strip src :
  skip_space (strip src) = match skip_space src with [] => [] | c :: rest => c :: strip rest end.
Proof.
  pose proof (strip_skip src) as H. destruct (skip_space src) as [|c rest]; [by rewrite H|].
  destruct H as [-> E]. cbn [skip_space]. by rewrite E.
Qed.

Lemma trailing_strip src i t : trailing (strip src) i t = trailing src i t.
Proof. unfold trailing. rewrite skip_strip. by destruct (skip_space src). Qed.

Lemma ended_strip pad src state i t :
  ended (Stopped pad (strip src) state i t) = ended (Stopped pad src state i t).
Proof.
  cbn [ended]. destruct pad; [|done]. destruct state as [|[|[|]]]; [done | done | | apply trailing_strip].
  rewrite skip_strip. destruct (skip_space src); [done|]. by rewrite trailing_strip.
Qed.

Lemma run_strip src state i t : run targsize (strip src) state i t = run targsize src state i t.
Proof.
  revert state i t. induction src as [|c src IH]; intros state i t; [done|].
  unfold strip, run in *. rewrite filter_cons. cbn [pton_loop].
  destruct (isspace c) eqn:E; [by rewrite decide_False|]. rewrite decide_True by done. cbn [pton_loop].
  rewrite E. destruct (bool_decide _); [apply ended_strip|]. destruct (strchr Base64 c); [|done].
  destruct (step _ _ _ _ _) as [[[[]]|]| |]; cbn [obind]; [apply IH | done..].
Qed.

(** *** What is accepted *)

(** The result for a target of [n] bytes with [l] already decoded, on [src]. *)
Definition decoded (n : nat) (l : list Z) (src : list ascii) (res : outcome (Z * option (list Z))) : Prop :=
  exists k t, res = Ok (k, Some t) /\ length t = n /\
  (k = -1 \/ exists bs r, k = zlen l + zlen bs /\ t = l ++ bs ++ r /\ Forall byte bs /\ encode bs = src).

Lemma decoded_fail n l src t : length t = n -> decoded n l src (Ok (-1, Some t)).
Proof. intros Ht. exists (-1), t. split; [done|]. split; [done|]. by left. Qed.

Lemma decoded_ok n l src bs r : length (l ++ bs ++ r) = n -> Forall byte bs -> encode bs = src ->
  decoded n l src (Ok (zlen (l ++ bs), Some (l ++ bs ++ r))).
Proof.
  intros Hn Hb He. eexists _, _. split; [done|]. split; [done|]. right. exists bs, r.
  split; [size | done].
Qed.

Lemma char_cases c : isspace c = false ->
  c = Pad64 \/ (forall src state i t, run targsize (c :: src) state i t = Ok (-1, t))
  \/ exists q, sextet q /\ c = digit q.
Proof.
  intros Hs. destruct (decide (c = Pad64)) as [->|Hp]; [by left|right].
  destruct (strchr Base64 c) as [q|] eqn:E; [right; exists q; by apply strchr_digit|left].
  intros. unfold run. cbn [pton_loop]. by rewrite Hs, bool_decide_false, E.
Qed.

Notation text := (Forall (fun c => isspace c = false)).

(** The padding must be the end. *)
Lemma trailing_decoded n l bs v r src all :
  length ((l ++ bs) ++ v :: r) = n -> Forall byte bs -> text src ->
  (v = 0 -> src = [] -> encode bs = all) ->
  decoded n l all (trailing src (zlen (l ++ bs)) (Some ((l ++ bs) ++ v :: r))).
Proof.
  intros Hn Hb Hs He. destruct src as [|c src].
  - rewrite trailing_at. destruct (v =? 0) eqn:E; reflect_bools; cbn [negb]; [|by apply decoded_fail].
    rewrite <- app_assoc in *. apply decoded_ok; [done | done | by apply He].
  - apply Forall_cons in Hs as [Hc _]. unfold trailing. cbn [skip_space]. rewrite Hc. by apply decoded_fail.
Qed.

(** Decoding from the start of a group of four. *)
Definition groups (n : nat) (src : list ascii) : Prop :=
  forall l r, targsize = zlen (l ++ r) -> n = length (l ++ r) ->
  decoded n l src (run targsize src 0 (zlen l) (Some (l ++ r))).

Lemma third q0 q1 q2 n l x y z r src :
  sextet q0 -> sextet q1 -> sextet q2 -> text src ->
  (forall src', (length src' < length src)%nat -> text src' -> groups n src') ->
  targsize = zlen (l ++ x :: y :: z :: r) -> n = length (l ++ x :: y :: z :: r) ->
  decoded n l (digit q0 :: digit q1 :: digit q2 :: src)
    (run targsize src 3 (zlen (l ++ [dec0 q0 q1; dec1 q1 q2]))
       (Some ((l ++ [dec0 q0 q1; dec1 q1 q2]) ++ mid2 q2 :: r))).
Proof.
  intros H0 H1 H2 Hs IH HT Hn. set (bs := [dec0 q0 q1; dec1 q1 q2]).
  assert (Forall byte bs) as Hbs by (repeat constructor; apply u8_byte).
  assert (length ((l ++ bs) ++ mid2 q2 :: r) = n) as Hlen by (subst bs; size).
  destruct src as [|c src]; [by apply decoded_fail|]. apply Forall_cons in Hs as [Hc Hs].
  destruct (char_cases c Hc) as [->|[Hbad|(q3 & H3 & ->)]].
  - rewrite run_pad. cbn [ended]. apply trailing_decoded; [done | done | done |]. intros Hv ->.
    subst bs. rewrite encode_2 by apply u8_byte. by rewrite out0_dec, out1_dec, out2_last.
  - rewrite Hbad. by apply decoded_fail.
  - rewrite run_3 by (done || subst bs; size). fold (dec2 q2 q3).
    set (d2 := dec2 q2 q3).
    destruct (IH src ltac:(cbn; lia) Hs ((l ++ bs) ++ [d2]) r) as (k & t & E & Ht & Hk); [subst bs; size | subst bs; size |].
    replace (zlen ((l ++ bs) ++ [d2])) with (zlen (l ++ bs) + 1) in E by size.
    rewrite <- (app_assoc (l ++ bs)) in E. cbn [app] in E.
    exists k, t. split; [exact E|]. split; [done|]. destruct Hk as [->|(more & r' & -> & -> & Hm & He)]; [by left|].
    right. exists (bs ++ d2 :: more), r'. split; [size|].
    split; [by rewrite <- !app_assoc|]. split; [apply Forall_app; split; [done | by constructor; [apply u8_byte|]]|].
    subst bs d2. cbn [app]. rewrite encode_3, He by apply u8_byte.
    unfold quad. by rewrite out0_dec, out1_dec, out2_dec, out3_dec.
Qed.

Lemma second q0 q1 n l x y r src :
  sextet q0 -> sextet q1 -> text src ->
  (forall src', (length src' < length src)%nat -> text src' -> groups n src') ->
  targsize = zlen (l ++ x :: y :: r) -> n = length (l ++ x :: y :: r) ->
  decoded n l (digit q0 :: digit q1 :: src)
    (run targsize src 2 (zlen (l ++ [dec0 q0 q1])) (Some ((l ++ [dec0 q0 q1]) ++ mid1 q1 :: r))).
Proof.
  intros H0 H1 Hs IH HT Hn. set (bs := [dec0 q0 q1]).
  assert (Forall byte bs) as Hbs by (repeat constructor; apply u8_byte).
  assert (length ((l ++ bs) ++ mid1 q1 :: r) = n) as Hlen by (subst bs; size).
  destruct src as [|c src]; [by apply decoded_fail|]. apply Forall_cons in Hs as [Hc Hs].
  destruct (char_cases c Hc) as [->|[Hbad|(q2 & H2 & ->)]].
  - rewrite run_pad. cbn [ended]. destruct src as [|c src]; [by apply decoded_fail|].
    apply Forall_cons in Hs as [Hc2 Hs]. cbn [skip_space]. rewrite Hc2.
    destruct (bool_decide_reflect (c = Pad64)) as [->|Hne]; [|by apply decoded_fail].
    apply trailing_decoded; [done | done | done |]. intros Hv ->.
    subst bs. rewrite encode_1 by apply u8_byte. by rewrite out0_dec, out1_last.
  - rewrite Hbad. by apply decoded_fail.
  - destruct r as [|z r].
    { rewrite run_full; [by apply decoded_fail | done | subst bs; size | cbn; lia | lia]. }
    rewrite run_2 by (done || subst bs; size). fold (dec1 q1 q2). subst bs.
    replace (zlen (l ++ [dec0 q0 q1]) + 1) with (zlen (l ++ [dec0 q0 q1; dec1 q1 q2])) by size.
    rewrite (cons_middle _ (l ++ _)), app_assoc, <- (app_assoc l). cbn [app].
    apply (third q0 q1 q2 n l x y z r src); try done. intros src' Hl. apply IH. cbn [length]. lia.
Qed.

Lemma groups_all n src : text src -> groups n src.
Proof.
  remember (length src) as m eqn:Em. revert src Em. induction (lt_wf m) as [m _ IH].
  intros src -> Hs l r HT Hn. destruct src as [|c src].
  { exists (zlen l), (l ++ r). split; [done|]. split; [done|]. right. exists [], r.
    split; [size|]. split; [done|]. split; [by constructor | done]. }
  apply Forall_cons in Hs as [Hc Hs]. destruct (char_cases c Hc) as [->|[Hbad|(q0 & H0 & ->)]].
  { rewrite run_pad. by apply decoded_fail. }
  { rewrite Hbad. by apply decoded_fail. }
  destruct r as [|x r]; [rewrite run_full; [by apply decoded_fail | done | done | cbn; lia | lia]|].
  destruct src as [|c src]; [rewrite run_0 by done; by apply decoded_fail; size|].
  apply Forall_cons in Hs as [Hc1 Hs]. destruct (char_cases c Hc1) as [->|[Hbad|(q1 & H1 & ->)]].
  { rewrite run_0, run_pad by done. by apply decoded_fail; size. }
  { rewrite run_0, Hbad by done. by apply decoded_fail; size. }
  destruct r as [|y r].
  { rewrite run_0 by done. rewrite run_full; [by apply decoded_fail; size | done | size | cbn; lia | lia]. }
  rewrite run_duo by done. apply (second q0 q1 n l x y r src); try done.
  intros src' Hl Hs'. by apply (IH (length src')); [cbn [length]; lia|..].
Qed.

End target.

Lemma encode_length src : Forall byte src -> zlen (encode src) = 4 * ((zlen src + 2) / 3).
Proof.
  induction src as [|a|a b|a b c src IH] using triples_ind; intros Hby; [done | | |];
    rewrite !Forall_cons in Hby.
  - rewrite encode_1 by apply Hby. reflexivity.
  - rewrite encode_2 by apply Hby. reflexivity.
  - destruct Hby as (Ha & Hb & Hc & Hby). rewrite encode_3 by done.
    unfold zlen in *. rewrite length_app, Nat2Z.inj_add, IH by done.
    cbn [length quad]. replace (Z.of_nat (S (S (S (length src)))) + 2) with (Z.of_nat (length src) + 2 + 1 * 3) by lia.
    rewrite Z.div_add by lia. lia.
Qed.

(** ** Theorems *)

(** [b64_ntop] computes the base64 encoding: for a target larger than the encoding it
    returns the length, four characters for every three bytes begun, and stores the
    encoding and a terminator; for a smaller one it returns -1 and has stored a prefix of
    the encoding that fits. No assertion fails. *)
Theorem b64_ntop_encodes src targsize :
  Forall byte src -> 4 * ((zlen src + 2) / 3) < 2 ^ 31 -> 0 <= targsize ->
  zlen (encode src) = 4 * ((zlen src + 2) / 3) /\ encoded targsize (encode src) (b64_ntop src targsize).
Proof.
  intros Hby Hs Ht. pose proof (encode_length src Hby) as Hl. split; [done|].
  apply (ntop_loop_spec targsize src []); [done | rewrite Hl; done | done].
Qed.

Lemma b64_ntop_encodes_witness :
  encoded 9 (encode [77; 97; 110; 33]) (b64_ntop [77; 97; 110; 33] 9)
  /\ encode [77; 97; 110; 33] = String.list_ascii_of_string "TWFuIQ==".
Proof.
  split; [|vm_compute; reflexivity]. apply (b64_ntop_encodes [77; 97; 110; 33] 9).
  - repeat constructor; done.
  - vm_compute. reflexivity.
  - lia.
Defined.

(** C18: decoding what was encoded gives the bytes back, when the target has a spare byte
    unless the bytes come in threes; only that spare byte is touched beyond them. *)
Theorem b64_roundtrip src targsize target :
  Forall byte src -> 4 * ((zlen src + 2) / 3) < targsize < 2 ^ 31 ->
  zlen src + spare src <= zlen target < 2 ^ 31 ->
  exists coded tail,
    b64_ntop src targsize = Ok (zlen coded, coded ++ [NUL])
    /\ b64_pton coded (Some target) (zlen target) = Ok (zlen src, Some (src ++ tail))
    /\ length (src ++ tail) = length target /\ drop 1 tail = drop (S (length src)) target.
Proof.
  intros Hby Ht Htg. pose proof (encode_length src Hby) as Hl.
  destruct (ntop_loop_spec targsize src []) as [[_ E]|[Hbig _]]; [done | rewrite Hl; change (zlen []) with 0; lia
    | change (zlen []) with 0; unfold zlen in *; lia | | cbn [app] in Hbig; lia].
  destruct (run_encode (zlen target) ltac:(lia) src [] target Hby) as (tail & Hrun & Hd & Hlen); [done | lia |].
  exists (encode src), tail. split; [exact E|]. by split.
Qed.

Lemma b64_roundtrip_witness :
  exists coded tail,
    b64_ntop [1; 2; 255; 0; 128] 9 = Ok (8, coded)
    /\ b64_pton (take 8 coded) (Some [9; 9; 9; 9; 9; 9; 9]) 7 = Ok (5, Some ([1; 2; 255; 0; 128] ++ tail)).
Proof.
  destruct (b64_roundtrip [1; 2; 255; 0; 128] 9 [9; 9; 9; 9; 9; 9; 9]) as (coded & tail & E1 & E2 & _).
  - repeat constructor; done.
  - split; vm_compute; reflexivity.
  - split; [vm_compute; discriminate | vm_compute; reflexivity].
  - assert (zlen coded = 8) as Hl.
    { vm_compute b64_ntop in E1. injection E1. intros _ Hz. by rewrite <- Hz. }
    rewrite Hl in E1. exists (coded ++ [NUL]), tail. split; [exact E1|].
    rewrite take_app_le by size. rewrite take_ge by size. exact E2.
Defined.

(** C19: [b64_pton] never leaves the target, and accepts only canonical encodings: when
    it returns a length, the input without its white space is the encoding of the bytes
    stored, so that no two inputs that differ in more than white space decode to the same
    bytes. *)
Theorem b64_pton_canonical src target :
  zlen target < 2 ^ 31 ->
  exists n t, b64_pton src (Some target) (zlen target) = Ok (n, Some t) /\ length t = length target
  /\ (n = -1 \/ exists bytes rest,
         n = zlen bytes /\ t = bytes ++ rest /\ Forall byte bytes /\ encode bytes = strip src).
Proof.
  intros Ht. unfold b64_pton. fold (run (zlen target) src 0 0 (Some target)).
  rewrite <- (run_strip (zlen target) src).
  destruct (groups_all (zlen target) Ht (length target) (strip src)) with (l := @nil Z) (r := target)
    as (n & t & E & Hl & Hn); [| done | done |].
  { apply list.Forall_forall. intros c Hc. by apply list_elem_of_filter in Hc as [? _]. }
  exists n, t. split; [exact E|]. split; [done|]. destruct Hn as [->|(bs & r & -> & -> & Hb & He)]; [by left|].
  right. by exists bs, r.
Qed.

Lemma b64_pton_canonical_witness :
  exists t, b64_pton (String.list_ascii_of_string "TW Fu IQ= =") (Some [0; 0; 0; 0; 0]) 5 = Ok (4, Some t)
  /\ encode (take 4 t) = String.list_ascii_of_string "TWFuIQ==".
Proof.
  destruct (b64_pton_canonical (String.list_ascii_of_string "TW Fu IQ= =") [0; 0; 0; 0; 0]) as (n & t & E & _ & Hn).
  - vm_compute. reflexivity.
  - change (zlen [0; 0; 0; 0; 0]) with 5 in E. assert (n = 4) as ->.
    { vm_compute b64_pton in E. by injection E. }
    exists t. split; [exact E|]. destruct Hn as [Hn|(bs & rest & Hlen & -> & _ & He)]; [done|].
    rewrite take_app_le by size. rewrite take_ge by size. rewrite He. vm_compute. reflexivity.
Defined.

End B64.
