(* ===== verification/Counters.v ===== *)
(** The call counters of [support/tc_helper.c] and [include/tc_helper.h]. Module [Counters].
    Every function of the library has a static counter; the first call puts it into a linked
    list. [tc_register_counter] tests and sets the flag of the counter before it takes
    [tc_counter_lock]: the calls of one thread are modelled by a function, those of several
    threads by the steps between which other threads can run. *)

From S2P Require Import Prelude.
Local Open Scope Z_scope.

Module Counters.

(** ** The counters *)

(** The functions with a counter; [vec_write] and [vec_read_write] have two counters of the
    same name. *)
Inductive func :=
  | f_open | f_close | f_seek | f_read | f_write | f_read_write | f_lgetattrs | f_lsetattrs
  | f_listdir | f_rename | f_remove | f_mkdir | f_lcopy | f_hardlink | f_symlink | f_readlink.

#[export] Instance func_eq_dec : EqDecision func.
Proof. solve_decision. Defined.

(** A pointer to a counter is the function that it is the counter of. *)
Record tc_func_counter := mk_counter {
  calls : Z; failures : Z; micro_ops : Z; time_ns : Z;
  next : option func;
  registered : bool
}.

Definition counter0 : tc_func_counter := mk_counter 0 0 0 0 None false.

(** The static counters, and [tc_all_counters]. *)
Record counters := mk_counters {
  counter_of : func -> tc_func_counter;
  tc_all_counters : option func
}.

Definition no_counters : counters := mk_counters (fun _ => counter0) None.

Definition update_counter (f : func) (g : tc_func_counter -> tc_func_counter) (l : counters) : counters :=
  mk_counters (fun h => if bool_decide (h = f) then g (counter_of l h) else counter_of l h) (tc_all_counters l).

(** [__sync_fetch_and_add] on the fields. *)
Definition add_call (c : tc_func_counter) : tc_func_counter :=
  mk_counter (u32 (calls c + 1)) (failures c) (micro_ops c) (time_ns c) (next c) (registered c).
Definition add_failure (c : tc_func_counter) : tc_func_counter :=
  mk_counter (calls c) (u32 (failures c + 1)) (micro_ops c) (time_ns c) (next c) (registered c).
Definition add_success (ops ns : Z) (c : tc_func_counter) : tc_func_counter :=
  mk_counter (calls c) (failures c) (u64 (micro_ops c + ops)) (u64 (time_ns c + ns)) (next c) (registered c).

(** [tfc->registered = true] and [tfc->next = n] *)
Definition set_registered (c : tc_func_counter) : tc_func_counter :=
  mk_counter (calls c) (failures c) (micro_ops c) (time_ns c) (next c) true.
Definition set_next (n : option func) (c : tc_func_counter) : tc_func_counter :=
  mk_counter (calls c) (failures c) (micro_ops c) (time_ns c) n (registered c).

(** [tc_all_counters = tfc] *)
Definition set_head (f : func) (l : counters) : counters := mk_counters (counter_of l) (Some f).

(** A call that no other thread interferes with: the lock is free. *)
Definition tc_register_counter (tfc : func) (l : counters) : counters :=
  if registered (counter_of l tfc) then l
  else
    let l := update_counter tfc set_registered l in
    let l := update_counter tfc (set_next (tc_all_counters l)) l in
    set_head tfc l.

(** The loop of [tc_iterate_counters]. *)
Fixpoint iterate_from {A} (fuel : nat) (tfc_reader : func -> tc_func_counter -> A -> bool * A) (l : counters)
    (tfc : option func) (arg : A) : outcome (option A) :=
  match tfc with
  | None => done arg
  | Some f =>
      match fuel with
      | O => Ok None
      | S fuel =>
          let '(go, arg) := tfc_reader f (counter_of l f) arg in
          if go then iterate_from fuel tfc_reader l (next (counter_of l f)) arg else done arg
      end
  end.

Definition tc_iterate_counters {A} (fuel : nat) (tfc_reader : func -> tc_func_counter -> A -> bool * A) (arg : A)
    (l : counters) : outcome (option A) :=
  iterate_from fuel tfc_reader l (tc_all_counters l) arg.

(** ** Several threads *)

(** What a thread in [tc_register_counter] does next. *)
Inductive reg_pc := R_test | R_flag | R_lock | R_next | R_head | R_unlock | R_done.

Record thread := mk_thread { pc : reg_pc; tfc : func }.

Record rstate := mk_rs {
  cs : counters;
  tc_counter_lock : option nat;
  threads : list thread
}.

(** One step of thread [i]; none when there is no such thread, it is done, or it waits for
    the lock. *)
Definition reg_step (i : nat) (s : rstate) : option rstate :=
  match threads s !! i with
  | None => None
  | Some t =>
      let go p l lk := Some (mk_rs l lk (<[i := mk_thread p (tfc t)]> (threads s))) in
      match pc t with
      | R_test => go (if registered (counter_of (cs s) (tfc t)) then R_done else R_flag) (cs s) (tc_counter_lock s)
      | R_flag => go R_lock (update_counter (tfc t) set_registered (cs s)) (tc_counter_lock s)
      | R_lock => match tc_counter_lock s with None => go R_next (cs s) (Some i) | Some _ => None end
      | R_next => go R_head (update_counter (tfc t) (set_next (tc_all_counters (cs s))) (cs s)) (tc_counter_lock s)
      | R_head => go R_unlock (set_head (tfc t) (cs s)) (tc_counter_lock s)
      | R_unlock => go R_done (cs s) None
      | R_done => None
      end
  end.

(** The steps in the order of a schedule. *)
Fixpoint reg_run (sched : list nat) (s : rstate) : option rstate :=
  match sched with
  | [] => Some s
  | i :: sched => match reg_step i s with Some s => reg_run sched s | None => None end
  end.

(** ** The list *)

(** The list from [h] on. *)
Fixpoint linked (l : counters) (h : option func) (fs : list func) : Prop :=
  match fs with
  | [] => h = None
  | f :: fs => h = Some f /\ linked l (next (counter_of l f)) fs
  end.

(** The list has every counter that is registered, once. *)
Record list_ok (l : counters) (fs : list func) : Prop := {
  lo_linked : linked l (tc_all_counters l) fs;
  lo_nodup : NoDup fs;
  lo_registered : forall f, registered (counter_of l f) = true <-> f ∈ fs
}.

Lemma counter_update f g h l :
  counter_of (update_counter f g l) h = if bool_decide (h = f) then g (counter_of l h) else counter_of l h.
Proof. done. Qed.

Lemma linked_ext l l' h fs :
  (forall f, f ∈ fs -> next (counter_of l' f) = next (counter_of l f)) -> linked l h fs -> linked l' h fs.
Proof.
  revert h. induction fs as [|f fs IH]; intros h Hn; [done|]. cbn [linked]. intros [-> Hl]. split; [done|].
  rewrite Hn by (by left). apply IH; [|done]. intros g Hg. apply Hn. by right.
Qed.

(** Updates of the other fields. *)
Lemma list_ok_update l fs f g :
  (forall c, next (g c) = next c /\ registered (g c) = registered c) -> list_ok l fs -> list_ok (update_counter f g l) fs.
Proof.
  intros Hg [H1 H2 H3]. split; [|done|].
  - cbn. eapply linked_ext; [|exact H1]. intros h _. cbn. case_bool_decide; [apply Hg | done].
  - intros h. rewrite <- H3. cbn. case_bool_decide; [by rewrite (proj2 (Hg _)) | done].
Qed.

Lemma register_list_ok l fs f :
  list_ok l fs -> list_ok (tc_register_counter f l) (if registered (counter_of l f) then fs else f :: fs).
Proof.
  intros [H1 H2 H3]. unfold tc_register_counter. destruct (registered (counter_of l f)) eqn:E; [by split|].
  assert (f ∉ fs) as Hf by (rewrite <- H3; congruence).
  split.
  - cbn. split; [done|]. rewrite bool_decide_eq_true_2 by done. cbn. eapply linked_ext; [|exact H1].
    intros g Hg. cbn. case_bool_decide; [by subst | done].
  - by constructor.
  - intros g. cbn. rewrite elem_of_cons, <- H3. case_bool_decide; cbn; naive_solver.
Qed.

(** The loop over the list visits every counter on it. *)
Lemma iterate_all l h fs fuel (acc : list func) :
  linked l h fs -> (List.length fs <= fuel)%nat ->
  iterate_from fuel (fun f _ acc => (true, acc ++ [f])) l h acc = done (acc ++ fs).
Proof.
  revert h fuel acc. induction fs as [|f fs IH]; intros h fuel acc; cbn [linked].
  - intros -> _. rewrite app_nil_r. by destruct fuel.
  - intros [-> Hl] Hf. destruct fuel as [|fuel]; [cbn in Hf; lia|]. cbn. rewrite IH by (done || (cbn in Hf; lia)).
    by rewrite <- app_assoc.
Qed.

(** ** Registration by several threads *)

(** What holds of thread [i] when the list is [fs]. *)
Definition thread_ok (s : rstate) (fs : list func) (i : nat) (t : thread) : Prop :=
  let c := counter_of (cs s) (tfc t) in
  match pc t with
  | R_test => registered c = true -> tfc t ∈ fs
  | R_flag => tfc t ∉ fs
  | R_lock => (tfc t ∉ fs) /\ registered c = true
  | R_next => (tfc t ∉ fs) /\ registered c = true /\ tc_counter_lock s = Some i
  | R_head => (tfc t ∉ fs) /\ registered c = true /\ tc_counter_lock s = Some i /\ next c = tc_all_counters (cs s)
  | R_unlock => tfc t ∈ fs /\ tc_counter_lock s = Some i
  | R_done => tfc t ∈ fs
  end.

(** The threads register the counters of [gs]; the list was [fs0]. *)
Record reg_inv (gs fs0 : list func) (s : rstate) (fs : list func) : Prop := {
  ri_linked : linked (cs s) (tc_all_counters (cs s)) fs;
  ri_nodup : NoDup fs;
  ri_flag : forall f, f ∈ fs -> registered (counter_of (cs s) f) = true;
  ri_old : exists new, fs = new ++ fs0 /\ Forall (fun f => f ∈ gs) new;
  ri_other : forall f, (f ∉ gs) -> registered (counter_of (cs s) f) = true -> f ∈ fs;
  ri_funcs : tfc <$> threads s = gs;
  ri_threads : forall i t, threads s !! i = Some t -> thread_ok s fs i t;
  ri_lock : forall i, tc_counter_lock s = Some i ->
    exists t, threads s !! i = Some t /\ pc t ∈ [R_next; R_head; R_unlock]
}.

(** A step of another thread with another counter. *)
Lemma thread_ok_other s s' fs fs' ft j t :
  (forall f, f <> ft -> counter_of (cs s') f = counter_of (cs s) f) -> (fs' = fs \/ fs' = ft :: fs) -> tfc t <> ft ->
  (tc_counter_lock s = Some j -> tc_counter_lock s' = Some j /\ tc_all_counters (cs s') = tc_all_counters (cs s)) ->
  thread_ok s fs j t -> thread_ok s' fs' j t.
Proof.
  intros Hc Hfs Hne Hl. unfold thread_ok. rewrite Hc by done.
  assert (tfc t ∈ fs' <-> tfc t ∈ fs) as Hin by (destruct Hfs as [->| ->]; [done | rewrite elem_of_cons; naive_solver]).
  destruct (pc t); rewrite Hin; try done.
  - intros (H1 & H2 & H3). by destruct (Hl H3).
  - intros (H1 & H2 & H3 & H4). destruct (Hl H3) as [-> ->]. done.
  - intros (H1 & H3). by destruct (Hl H3).
Qed.

(** The functions of two threads differ. *)
Lemma threads_differ (ts : list thread) i j t t' :
  NoDup (tfc <$> ts) -> ts !! i = Some t -> ts !! j = Some t' -> i <> j -> tfc t' <> tfc t.
Proof.
  intros Hn Hi Hj Hij E. apply Hij. apply (NoDup_lookup (tfc <$> ts) i j (tfc t) Hn); rewrite list_lookup_fmap.
  - by rewrite Hi.
  - by rewrite Hj, <- E.
Qed.

(** The invariant after a step of thread [i], from what the step changes. *)
Lemma reg_inv_step gs fs0 s fs i t p l lk fs' :
  NoDup gs -> reg_inv gs fs0 s fs -> threads s !! i = Some t ->
  let s' := mk_rs l lk (<[i := mk_thread p (tfc t)]> (threads s)) in
  (forall f, f <> tfc t -> counter_of l f = counter_of (cs s) f) ->
  (registered (counter_of (cs s) (tfc t)) = true -> registered (counter_of l (tfc t)) = true) ->
  (fs' = fs \/ fs' = tfc t :: fs /\ (tfc t ∉ fs) /\ registered (counter_of (cs s) (tfc t)) = true) ->
  linked l (tc_all_counters l) fs' ->
  (forall j, j <> i -> tc_counter_lock s = Some j -> lk = Some j /\ tc_all_counters l = tc_all_counters (cs s)) ->
  (lk = tc_counter_lock s \/ lk = None \/ lk = Some i) ->
  (lk = Some i -> p ∈ [R_next; R_head; R_unlock]) ->
  thread_ok s' fs' i (mk_thread p (tfc t)) -> reg_inv gs fs0 s' fs'.
Proof.
  intros Hn [H1 H2 H3 (new & H4 & H4') H5 H6 H7 H8] Ht s' Hc Hr Hfs Hlk Hlock Hl2 Hl3 Hok.
  assert (tfc t ∈ gs) as Hg.
  { rewrite <- H6. apply list_elem_of_fmap. exists t. split; [done|]. by eapply list_elem_of_lookup_2. }
  assert (forall f, f ∈ fs' <-> f ∈ fs \/ f = tfc t /\ fs' <> fs) as Hin.
  { intros f. destruct Hfs as [->|(-> & _ & _)]; [naive_solver|]. rewrite elem_of_cons. split; [|naive_solver].
    intros [->|?]; [|by left]. right. split; [done|]. intros E. apply (f_equal List.length) in E. cbn in E. lia. }
  split; cbn [cs threads tc_counter_lock].
  - done.
  - destruct Hfs as [->|(-> & ? & _)]; [done | by constructor].
  - intros f Hf. destruct (decide (f = tfc t)) as [->|Hne].
    + destruct Hfs as [->|(-> & _ & ?)]; [apply Hr; by apply H3 | by apply Hr].
    + rewrite Hc by done. apply H3. apply Hin in Hf as [?|[? _]]; done.
  - destruct Hfs as [->|(-> & _ & _)]; [by exists new|]. exists (tfc t :: new). subst fs. split; [done | by constructor].
  - intros f Hf Hreg. assert (f <> tfc t) by (by intros ->). rewrite Hc in Hreg by done. apply Hin. left. by apply H5.
  - rewrite <- H6. unfold s'. cbn [threads]. apply list_eq. intros j. rewrite !list_lookup_fmap.
    destruct (decide (j = i)) as [->|Hij]; [|by rewrite list_lookup_insert_ne].
    rewrite list_lookup_insert_eq by (by eapply lookup_lt_Some). by rewrite Ht.
  - intros j t' Hj. unfold s' in Hj. cbn [threads] in Hj. destruct (decide (j = i)) as [->|Hij].
    + rewrite list_lookup_insert_eq in Hj by (by eapply lookup_lt_Some). by injection Hj as <-.
    + rewrite list_lookup_insert_ne in Hj by done.
      apply (thread_ok_other s s' fs fs' (tfc t)); [done | naive_solver | | | by apply H7].
      * eapply (threads_differ (threads s) i j); [by rewrite H6 | done..].
      * intros El. by apply Hlock.
  - intros j Hj. unfold s' in *. cbn [threads tc_counter_lock] in *. destruct (decide (j = i)) as [->|Hij].
    + exists (mk_thread p (tfc t)). rewrite list_lookup_insert_eq by (by eapply lookup_lt_Some). split; [done|].
      by apply Hl3.
    + rewrite list_lookup_insert_ne by done. apply H8. destruct Hl2 as [->|[->| ->]]; [done | done | congruence].
Qed.

Lemma linked_fresh l f n fs h : (f ∉ fs) -> linked l h fs -> linked (update_counter f (set_next n) l) h fs.
Proof.
  intros Hf. apply linked_ext. intros g Hg. cbn. case_bool_decide; [by subst | done].
Qed.

Lemma reg_step_inv gs fs0 s fs i s' :
  NoDup gs -> reg_inv gs fs0 s fs -> reg_step i s = Some s' -> exists fs', reg_inv gs fs0 s' fs'.
Proof.
  intros Hn Hi E. unfold reg_step in E. destruct (threads s !! i) as [t|] eqn:Ht; [|done].
  pose proof (ri_threads _ _ _ _ Hi i t Ht) as Hok. unfold thread_ok in Hok.
  pose proof (ri_linked _ _ _ _ Hi) as Hlk.
  assert (forall g f, f <> tfc t -> counter_of (update_counter (tfc t) g (cs s)) f = counter_of (cs s) f) as Hupd.
  { intros g f Hf. cbn. by rewrite bool_decide_eq_false_2. }
  assert (forall g, counter_of (update_counter (tfc t) g (cs s)) (tfc t) = g (counter_of (cs s) (tfc t))) as Hown.
  { intros g. cbn. by rewrite bool_decide_eq_true_2. }
  assert (tc_counter_lock s = Some i -> pc t ∈ [R_next; R_head; R_unlock]) as Hmine.
  { intros El. destruct (ri_lock _ _ _ _ Hi i El) as (t' & Ht' & Hp). by rewrite Ht in Ht'; injection Ht' as <-. }
  destruct (pc t); try (assert (tc_counter_lock s <> Some i) as Hno by (intros El; by apply Hmine in El as Hp; set_solver)).
  - injection E as <-. exists fs.
    apply (reg_inv_step gs fs0 s fs i t _ _ _ _ Hn Hi Ht); [done | done | by left | done | done | by left | done|].
    unfold thread_ok. cbn [pc tfc cs]. destruct (registered _) eqn:Er; [by apply Hok|].
    intros Hf. by rewrite (ri_flag _ _ _ _ Hi) in Er.
  - injection E as <-. exists fs.
    apply (reg_inv_step gs fs0 s fs i t _ _ _ _ Hn Hi Ht); [by apply Hupd | by rewrite Hown | by left | | done | by left | done|].
    + eapply linked_ext; [|exact Hlk]. intros f _. cbn. by case_bool_decide.
    + unfold thread_ok. cbn [pc tfc cs]. by rewrite Hown.
  - destruct (tc_counter_lock s) eqn:El; [done|]. injection E as <-. exists fs.
    apply (reg_inv_step gs fs0 s fs i t _ _ _ _ Hn Hi Ht);
      [done | done | by left | done | by rewrite El | by right; right | by intros _; left | by destruct Hok].
  - injection E as <-. destruct Hok as (Hf & Hreg & Hl). exists fs.
    apply (reg_inv_step gs fs0 s fs i t _ _ _ _ Hn Hi Ht);
      [by apply Hupd | by rewrite Hown | by left | by apply linked_fresh | | by left | by intros _; right; left |].
    + intros j Hj. rewrite Hl. by intros [= ->].
    + unfold thread_ok. cbn [pc tfc cs tc_counter_lock]. by rewrite Hown.
  - injection E as <-. destruct Hok as (Hf & Hreg & Hl & Hnx). exists (tfc t :: fs).
    apply (reg_inv_step gs fs0 s fs i t _ _ _ _ Hn Hi Ht);
      [done | done | by right | | | by left | by intros _; right; right; left |].
    + cbn [linked]. split; [done|]. cbn. rewrite Hnx. by eapply linked_ext; [|exact Hlk].
    + intros j Hj. rewrite Hl. by intros [= ->].
    + split; [left | done].
  - injection E as <-. destruct Hok as (Hf & Hl). exists fs.
    apply (reg_inv_step gs fs0 s fs i t _ _ _ _ Hn Hi Ht);
      [done | done | by left | done | | by right; left | done | done].
    intros j Hj. rewrite Hl. by intros [= ->].
  - done.
Qed.

Lemma reg_run_inv gs fs0 sched s fs s' :
  NoDup gs -> reg_inv gs fs0 s fs -> reg_run sched s = Some s' -> exists fs', reg_inv gs fs0 s' fs'.
Proof.
  intros Hn. revert s fs. induction sched as [|i sched IH]; intros s fs Hi; cbn [reg_run].
  - intros [= <-]. by exists fs.
  - destruct (reg_step i s) as [s1|] eqn:E; [|done]. destruct (reg_step_inv _ _ _ _ _ _ Hn Hi E) as [fs1 Hi1]. by apply (IH s1 fs1).
Qed.

(** As long as a thread is not done, some thread can go on. *)
Lemma reg_progress gs fs0 s fs i t :
  reg_inv gs fs0 s fs -> threads s !! i = Some t -> pc t <> R_done -> exists j s', reg_step j s = Some s'.
Proof.
  intros Hi Ht Hp. destruct (tc_counter_lock s) as [j|] eqn:El.
  - destruct (ri_lock _ _ _ _ Hi j El) as (t' & Ht' & Hp'). exists j. unfold reg_step. rewrite Ht'.
    destruct (pc t'); try (eexists; reflexivity); exfalso; set_solver.
  - exists i. unfold reg_step. rewrite Ht, El. destruct (pc t); try (eexists; reflexivity); done.
Qed.

(** The threads at the start. *)
Definition reg_start (l : counters) (gs : list func) : rstate := mk_rs l None (mk_thread R_test <$> gs).

Lemma reg_start_inv l fs gs : list_ok l fs -> reg_inv gs fs (reg_start l gs) fs.
Proof.
  intros [H1 H2 H3]. split; cbn [cs threads tc_counter_lock reg_start]; try done.
  - intros f. by rewrite H3.
  - by exists [].
  - intros f _. by rewrite H3.
  - rewrite <- list_fmap_compose. by apply list_fmap_id.
  - intros i t Hi. apply list_lookup_fmap_Some in Hi as (f & -> & _). unfold thread_ok. cbn. by rewrite H3.
Qed.

(** ** Theorems *)

(** C24: Threads that register different counters, in whatever order their steps are taken: at every moment
    the list is finite, has every counter once, keeps the counters it had and gains only those of the
    threads; the counter of a thread that is done is on it; unless all are done some thread can go on; and
    when all are done exactly the counters with the flag are on the list, so that the loop of
    [tc_iterate_counters] visits each of them once and ends. *)
Theorem register_concurrent l fs gs sched s :
  list_ok l fs -> NoDup gs -> reg_run sched (reg_start l gs) = Some s ->
  exists new,
    linked (cs s) (tc_all_counters (cs s)) (new ++ fs) /\ NoDup (new ++ fs) /\ Forall (fun f => f ∈ gs) new
  /\ (forall i t, threads s !! i = Some t -> pc t = R_done -> tfc t ∈ new ++ fs)
  /\ ((exists t, t ∈ threads s /\ pc t <> R_done) -> exists i s', reg_step i s = Some s')
  /\ (Forall (fun t => pc t = R_done) (threads s) -> list_ok (cs s) (new ++ fs)
      /\ forall fuel, (List.length (new ++ fs) <= fuel)%nat ->
           tc_iterate_counters fuel (fun f _ acc => (true, acc ++ [f])) [] (cs s) = done (new ++ fs)).
Proof.
  intros Hl Hn E. destruct (reg_run_inv gs fs sched _ fs s Hn (reg_start_inv l fs gs Hl) E) as [fs' Hi].
  destruct (ri_old _ _ _ _ Hi) as (new & -> & Hnew). exists new.
  split_and!; [apply Hi | apply Hi | done | | |].
  - intros i t Ht Hp. pose proof (ri_threads _ _ _ _ Hi i t Ht) as Hok. unfold thread_ok in Hok. by rewrite Hp in Hok.
  - intros (t & Hin & Hp). apply list_elem_of_lookup in Hin as [i Ht]. by eapply reg_progress.
  - intros Hall. split; [|intros fuel Hfu; apply (iterate_all _ _ (new ++ fs) fuel []); [apply Hi | done]].
    split; [apply Hi | apply Hi |]. intros f. split; [|apply Hi]. intros Hf.
    destruct (decide (f ∈ gs)) as [Hg|Hg]; [|by apply (ri_other _ _ _ _ Hi)].
    rewrite <- (ri_funcs _ _ _ _ Hi) in Hg. apply list_elem_of_fmap in Hg as (t & -> & Ht).
    rewrite Forall_forall in Hall. specialize (Hall t Ht). apply list_elem_of_lookup in Ht as [i Ht].
    pose proof (ri_threads _ _ _ _ Hi i t Ht) as Hok. unfold thread_ok in Hok. by rewrite Hall in Hok.
Qed.

Lemma no_counters_ok : list_ok no_counters [].
Proof. split; [done | constructor |]. intros f. cbn. split; [done | by intros ?%elem_of_nil]. Qed.

Lemma three_differ : NoDup [f_read; f_write; f_mkdir].
Proof. apply (bool_decide_unpack _). vm_compute. exact I. Qed.

Definition all_done (s : rstate) : bool :=
  forallb (fun t => match pc t with R_done => true | _ => false end) (threads s).

Lemma all_done_Forall s : all_done s = true -> Forall (fun t => pc t = R_done) (threads s).
Proof.
  unfold all_done. rewrite forallb_forall, Forall_forall. intros H t Ht%list_elem_of_In. specialize (H t Ht).
  by destruct (pc t).
Qed.

(** Three threads whose steps alternate. *)
Lemma register_concurrent_witness :
  exists s new, reg_run [0; 1; 2; 0; 1; 2; 1; 1; 1; 1; 0; 0; 0; 0; 2; 2; 2; 2]%nat
      (reg_start no_counters [f_read; f_write; f_mkdir]) = Some s
  /\ linked (cs s) (tc_all_counters (cs s)) new /\ NoDup new
  /\ tc_iterate_counters (List.length new) (fun f _ acc => (true, acc ++ [f])) [] (cs s) = done new.
Proof.
  assert (match reg_run [0; 1; 2; 0; 1; 2; 1; 1; 1; 1; 0; 0; 0; 0; 2; 2; 2; 2]%nat
      (reg_start no_counters [f_read; f_write; f_mkdir]) with Some s => all_done s | None => false end = true) as Hall
    by (vm_compute; reflexivity).
  destruct (reg_run [0; 1; 2; 0; 1; 2; 1; 1; 1; 1; 0; 0; 0; 0; 2; 2; 2; 2]%nat
    (reg_start no_counters [f_read; f_write; f_mkdir])) as [s|] eqn:E; [|discriminate Hall].
  destruct (fun Hl Hn => register_concurrent no_counters [] [f_read; f_write; f_mkdir] _ s Hl Hn E)
    as (new & Hl & Hn & _ & _ & _ & Hd).
  - exact no_counters_ok.
  - exact three_differ.
  - exists s, new. rewrite app_nil_r in *. split; [reflexivity|]. split; [exact Hl|]. split; [exact Hn|].
    apply Hd; [apply all_done_Forall; exact Hall | apply le_n].
Defined.

(** The steps of a thread that runs alone are the function. *)
Lemma register_alone l f :
  exists sched s, reg_run sched (reg_start l [f]) = Some s /\ all_done s = true /\ cs s = tc_register_counter f l.
Proof.
  unfold tc_register_counter. destruct (registered (counter_of l f)) eqn:E.
  - exists [0%nat]. eexists. cbn. rewrite E. split_and!; reflexivity.
  - exists [0; 0; 0; 0; 0; 0]%nat. eexists. cbn. rewrite E. split_and!; reflexivity.
Qed.

(** Two threads that register the same counter for the first time can both find that it is not registered:
    the counter is then its own successor, what the list had is lost, and the loop of
    [tc_iterate_counters] never ends. *)
Theorem register_race l f :
  registered (counter_of l f) = false ->
  exists s, reg_run [0; 1; 0; 0; 0; 0; 0; 1; 1; 1; 1; 1]%nat (reg_start l [f; f]) = Some s
  /\ tc_all_counters (cs s) = Some f /\ next (counter_of (cs s) f) = Some f
  /\ forall fuel, tc_iterate_counters fuel (fun _ _ n => (true, n)) tt (cs s) = Ok None.
Proof.
  intros Hf. eexists. split.
  { cbn. rewrite Hf. cbn. reflexivity. }
  assert (forall (fuel : nat) l, next (counter_of l f) = Some f ->
    iterate_from fuel (fun _ _ n => (true, n)) l (Some f) tt = Ok None) as Hloop.
  { induction fuel as [|fuel IH]; intros l' Hl; [done|]. cbn. rewrite Hl. by apply IH. }
  split_and!; [done | |].
  - cbn. by rewrite !bool_decide_eq_true_2.
  - intros fuel. apply Hloop. cbn. by rewrite !bool_decide_eq_true_2.
Qed.

End Counters.
