(* ===== verification/TcImpl.v ===== *)
(** The entry points of the library, [tc/tc_impl.cpp]: every operation counts its calls
    and passes them to the NFSv4 layer or to the POSIX layer, and the operations that
    follow symbolic links resolve them first. Module [Tc]. The POSIX layer, and the NFSv4
    layer where a theorem does not depend on it, are a record of operations. *)

From S2P Require Import Prelude CommonTypes PathSpec PathUtils FdTable TcApi Nfs4Impl DataCache NfsCache Counters.
Import Api Nfs Counters.
Local Open Scope Z_scope.

Module Tc.

Notation text := (list ascii).

(** ** The layers below *)

(** What both layers offer. Arrays that a call changes are returned; the transaction flag,
    which no layer looks at, is left out. *)
Record backend (S : Type) := mk_backend {
  openv : list text -> list Z -> option (list Z) -> M S (option (list vfile));
  closev : list vfile -> M S (vres * list vfile);
  fseek : vfile -> Z -> Z -> M S Z;
  readv : list viovec -> M S (vres * list viovec);
  writev : list viovec -> M S (vres * list viovec);
  read_writev : list viovec -> M S (vres * list viovec);
  lgetattrsv : list vattrs -> M S (vres * list vattrs);
  lsetattrsv : list vattrs -> M S (vres * list vattrs);
  listdirv : forall U : Type, list text -> vattrs_masks -> Z -> bool ->
    (vattrs -> text -> U -> bool * U) -> U -> M S (vres * U);
  renamev : list vfile_pair -> M S (vres * list vfile_pair);
  removev : list vfile -> M S (vres * list vfile);
  mkdirv : list vattrs -> M S (vres * list vattrs);
  lcopyv : list vextent_pair -> M S vres;
  hardlinkv : list text -> list text -> M S vres;
  symlinkv : list text -> list text -> M S vres;
  readlinkv : list text -> list text -> M S (vres * list text);
  chdir : text -> M S Z;
  getcwd : M S text
}.
Arguments openv {S}. Arguments closev {S}. Arguments fseek {S}. Arguments readv {S}.
Arguments writev {S}. Arguments read_writev {S}. Arguments lgetattrsv {S}. Arguments lsetattrsv {S}.
Arguments listdirv {S} _ {U}. Arguments renamev {S}. Arguments removev {S}. Arguments mkdirv {S}.
Arguments lcopyv {S}. Arguments hardlinkv {S}. Arguments symlinkv {S}. Arguments readlinkv {S}.
Arguments chdir {S}. Arguments getcwd {S}.

(** ** The state *)

(** The state of the library: the layer in use, the counters, the number of times the clock was read, and the state of the layers below. *)
Record tcstate (S : Type) := mk_tc {
  TC_IMPL_IS_NFS4 : bool;
  tc_counters : counters;
  ticks : nat;
  lower : S
}.
Arguments mk_tc {S}. Arguments TC_IMPL_IS_NFS4 {S}. Arguments tc_counters {S}.
Arguments ticks {S}. Arguments lower {S}.

Definition TC_OKAY : vres := mk_vres (-1) 0.

Definition PATH_MAX : nat := 4096.

Definition S_IFMT : Z := 61440.
Definition S_ISLNK (m : Z) : bool := Z.land m S_IFMT =? 40960.
Definition S_ISDIR (m : Z) : bool := Z.land m S_IFMT =? 16384.

(** An array read at an index; outside the array is undefined. *)
Definition item {S A} (l : list A) (i : Z) : M S A :=
  if i <? 0 then stop else need (l !! Z.to_nat i).

(** ** Strings in memory *)

(** The string at an address. *)
Definition c_string (m : text) (p : Buf.ptr) : text := Buf.bytes m (Buf.toslice m p).

(** [PATH_MAX] characters of new memory. *)
Definition new_area (junk : text) : text := resize PATH_MAX Buf.NUL junk.

(** [tc_path_join] of two strings into [n] characters of new memory: the string it then
    holds. *)
Definition join_into (n : nat) (junk p1 p2 : text) : outcome text :=
  let m := p1 ++ [Buf.NUL] ++ p2 ++ [Buf.NUL] ++ resize n Buf.NUL junk in
  let buf := (List.length p1 + List.length p2 + 2)%nat in
  let! (_, m) := Paths.tc_path_join m (Buf.PMem 0) (Buf.PMem (List.length p1 + 1)) buf n in
  Ok (c_string m (Buf.PMem buf)).

Definition join_strings (junk p1 p2 : text) : outcome text := join_into PATH_MAX junk p1 p2.

(** [tc_path_dirname] of a copy of the string, which is cut there. *)
Definition dirname_string (p : text) : text :=
  let m := p ++ [Buf.NUL] in
  Buf.bytes m (Paths.tc_path_dirname_s m (Buf.toslice m (Buf.PMem 0))).

(** A pointer to a string, which may be indeterminate. *)
Inductive cptr := Indeterminate | Null | Str (t : text).

(** [if (p)]; testing an indeterminate pointer is undefined. *)
Definition non_null {S} (p : cptr) : M S (option text) :=
  match p with Indeterminate => stop | Null => mret None | Str t => mret (Some t) end.

(** [src_path] is null for a file that is not given by a path. *)
Record syminfo := mk_sym { src_path : option text; target_path : cptr }.

(** [syms[i].target_path = p] *)
Definition set_target (syms : list syminfo) (i : nat) (p : cptr) : list syminfo :=
  alter (fun y => mk_sym (src_path y) p) i syms.

(** The files with a path, with their indices. *)
Fixpoint with_path (i : nat) (syms : list syminfo) : list (nat * text) :=
  match syms with
  | [] => []
  | y :: syms =>
      match src_path y with
      | Some p => (i, p) :: with_path (Datatypes.S i) syms
      | None => with_path (Datatypes.S i) syms
      end
  end.

Definition mode_mask : vattrs_masks :=
  mk_masks true false false false false false false false false false false.

(** The symbolic links among [attrs]: their indices and paths. *)
Fixpoint links_of (i : nat) (attrs : list vattrs) : list (nat * option text) :=
  match attrs with
  | [] => []
  | a :: attrs =>
      if S_ISLNK (mode (vals a)) then (i, path (attr_file a)) :: links_of (Datatypes.S i) attrs
      else links_of (Datatypes.S i) attrs
  end.

(** [file.path = p] *)
Definition set_path (f : vfile) (p : option text) : vfile :=
  mk_vfile (type f) (fd f) (match p with Some t => UPath t | None => UNull end).

(** The mode and the masks of an attribute record replaced. *)
Definition with_mode (a : vattrs) (mk : vattrs_masks) (m : Z) : vattrs :=
  let v := vals a in
  mk_attrs (attr_file a) mk
    (mk_vals m (size v) (nlink v) (fileid v) (blocks v) (uid v) (gid v) (rdev v)
       (atime v) (mtime v) (ctime v)).

(** [masks.has_mode = true] *)
Definition want_mode (a : vattrs) : vattrs :=
  let k := masks a in
  mk_attrs (attr_file a)
    (mk_masks true (has_size k) (has_nlink k) (has_fileid k) (has_blocks k) (has_uid k)
       (has_gid k) (has_rdev k) (has_atime k) (has_mtime k) (has_ctime k)) (vals a).

(** The old mode and masks of the records that do not ask for a mode. *)
Definition restore_mode (old a : vattrs) : vattrs :=
  if has_mode (masks old) then a else with_mode a (masks old) (mode (vals old)).

(** [struct _vattrs_array]; its [size] is the length of [attrs]. *)
Record vattrs_array := mk_array { array : list vattrs; capacity : Z }.

(** What [contents] points to after [sca_listdir]: nothing, the entries, or memory that
    was freed. *)
Inductive listing := NoEntries | Entries (l : list vattrs) | Freed.

Section tc.
Context {S : Type} (nfs posix : backend S).
(** The nanoseconds that the clock shows when it is read for the n-th time. *)
Context (clock : nat -> Z).
(** Whether the allocations that are not checked succeed, and what new memory holds. *)
Context (alloc : bool) (junk_text : text) (junk_attrs : vattrs) (junk_iov : viovec).
(** The address of the i-th buffer of a call, and whether an array of some capacity can be
    enlarged. *)
Context (buffer : nat -> Z) (grows : Z -> bool).
(** The ids of the caller, and the rounds of the loops. *)
Context (euid egid : Z) (fuel : nat).
Notation state := (tcstate S).

Definition lift {A} (c : M S A) : M state A := fun s =>
  let? (a, x) := c (lower s) in
  done (a, mk_tc (TC_IMPL_IS_NFS4 s) (tc_counters s) (ticks s) x).

Definition is_nfs4 : M state bool := fun s => done (TC_IMPL_IS_NFS4 s, s).

Definition on_counters (g : counters -> counters) : M state unit := fun s =>
  done (tt, mk_tc (TC_IMPL_IS_NFS4 s) (g (tc_counters s)) (ticks s) (lower s)).

Definition read_clock : M state Z := fun s =>
  done (clock (ticks s), mk_tc (TC_IMPL_IS_NFS4 s) (tc_counters s) (Datatypes.S (ticks s)) (lower s)).

Definition TC_DECLARE_COUNTER (f : func) : M state unit := on_counters (tc_register_counter f).

(** Returns the start time. *)
Definition TC_START_COUNTER (f : func) : M state Z :=
  t ← read_clock; _ ← on_counters (update_counter f add_call); mret t.

Definition TC_STOP_COUNTER (f : func) (start ops : Z) (succeed : bool) : M state unit :=
  t ← read_clock;
  on_counters (update_counter f (if succeed then add_success ops (t - start) else add_failure)).

(** The layer in use. *)
Definition dispatch {A} (c : backend S -> M S A) : M state A :=
  b ← is_nfs4; lift (c (if b : bool then nfs else posix)).

(** A call of the layer between [TC_START_COUNTER] and [TC_STOP_COUNTER]. *)
Definition counted {A} (f : func) (count : nat) (succeed : A -> bool) (c : backend S -> M S A)
  : M state A :=
  _ ← TC_DECLARE_COUNTER f;
  t ← TC_START_COUNTER f;
  a ← dispatch c;
  _ ← TC_STOP_COUNTER f t (Z.of_nat count) (succeed a);
  mret a.

Definition okay {A} (x : vres * A) : bool := vokay x.1.

(** ** Files *)

Definition vec_open (paths : list text) (flags : list Z) (modes : option (list Z))
  : M state (option (list vfile)) :=
  counted f_open (List.length paths) (fun r => match r with Some _ => true | None => false end)
    (fun l => openv l paths flags modes).

Definition vec_open_simple (paths : list text) (flags md : Z) : M state (option (list vfile)) :=
  let count := List.length paths in
  _ ← check (alloc || (count =? 0)%nat);
  vec_open paths (replicate count flags) (Some (replicate count md)).

Definition vec_close (tcfs : list vfile) : M state (vres * list vfile) :=
  counted f_close (List.length tcfs) okay (fun l => closev l tcfs).

Definition sca_fseek (tcf : vfile) (off whence : Z) : M state Z :=
  counted f_seek 1 (fun r => negb (r =? -1)) (fun l => fseek l tcf off whence).

(** The directory descriptor is ignored. *)
Definition sca_open_by_path (dirfd : Z) (pathname : text) (flags md : Z)
  : M state (option (list vfile)) :=
  vec_open [pathname] [flags] (Some [md]).

Definition sca_close (tcf : vfile) : M state (Z * list vfile) :=
  '(r, tcfs) ← vec_close [tcf]; mret (err_no r, tcfs).

(** The index of the first vector that creates a file. *)
Fixpoint first_creation (i : Z) (iovs : list viovec) : option Z :=
  match iovs with
  | [] => None
  | v :: iovs => if is_creation v then Some i else first_creation (i + 1) iovs
  end.

Definition vec_read (reads : list viovec) : M state (vres * list viovec) :=
  let count := Z.of_nat (List.length reads) in
  _ ← TC_DECLARE_COUNTER f_read;
  t ← TC_START_COUNTER f_read;
  match first_creation 0 reads with
  | Some i => _ ← TC_STOP_COUNTER f_read t count false; mret (vfailure i EINVAL, reads)
  | None =>
      x ← dispatch (fun l => readv l reads);
      _ ← TC_STOP_COUNTER f_read t count (okay x);
      mret x
  end.

Definition vec_write (writes : list viovec) : M state (vres * list viovec) :=
  counted f_write (List.length writes) okay (fun l => writev l writes).

(** The POSIX layer only writes. *)
Definition vec_read_write (generic : list viovec) : M state (vres * list viovec) :=
  _ ← TC_DECLARE_COUNTER f_read_write;
  t ← TC_START_COUNTER f_read_write;
  b ← is_nfs4;
  x ← lift (if b : bool then read_writev nfs generic else writev posix generic);
  _ ← TC_STOP_COUNTER f_read_write t (Z.of_nat (List.length generic)) (okay x);
  mret x.

Definition vec_lgetattrs (attrs : list vattrs) : M state (vres * list vattrs) :=
  counted f_lgetattrs (List.length attrs) okay (fun l => lgetattrsv l attrs).

Definition vec_lsetattrs (attrs : list vattrs) : M state (vres * list vattrs) :=
  counted f_lsetattrs (List.length attrs) okay (fun l => lsetattrsv l attrs).

Definition vec_rename (pairs : list vfile_pair) : M state (vres * list vfile_pair) :=
  counted f_rename (List.length pairs) okay (fun l => renamev l pairs).

Definition vec_remove (files : list vfile) : M state (vres * list vfile) :=
  counted f_remove (List.length files) okay (fun l => removev l files).

Definition sca_unlink (p : text) : M state Z :=
  '(r, _) ← vec_remove [vfile_from_path p]; mret (err_no r).

Definition vec_unlink (paths : list text) : M state vres :=
  _ ← check (alloc || (List.length paths =? 0)%nat);
  '(r, _) ← vec_remove (map vfile_from_path paths); mret r.

Definition vec_mkdir (dirs : list vattrs) : M state (vres * list vattrs) :=
  _ ← TC_DECLARE_COUNTER f_mkdir;
  t ← TC_START_COUNTER f_mkdir;
  _ ← check (forallb (fun a => has_mode (masks a)) dirs);
  x ← dispatch (fun l => mkdirv l dirs);
  _ ← TC_STOP_COUNTER f_mkdir t (Z.of_nat (List.length dirs)) (okay x);
  mret x.

Definition vec_lcopy (pairs : list vextent_pair) : M state vres :=
  counted f_lcopy (List.length pairs) vokay (fun l => lcopyv l pairs).

Definition vec_hardlink (oldpaths newpaths : list text) : M state vres :=
  counted f_hardlink (List.length oldpaths) vokay (fun l => hardlinkv l oldpaths newpaths).

Definition vec_symlink (oldpaths newpaths : list text) : M state vres :=
  counted f_symlink (List.length oldpaths) vokay (fun l => symlinkv l oldpaths newpaths).

Definition vec_readlink (paths bufs : list text) : M state (vres * list text) :=
  counted f_readlink (List.length paths) okay (fun l => readlinkv l paths bufs).

Definition sca_chdir (p : text) : M state Z := dispatch (fun l => chdir l p).

Definition sca_getcwd : M state text := dispatch (fun l => getcwd l).

(** ** Following symbolic links *)

(** The target of the link [src] whose text is [link]. *)
Definition link_target (src link : text) : M state text :=
  if starts_with_slash src && negb (starts_with_slash link)
  then run (join_strings junk_text (dirname_string src) link)
  else mret link.

(** Returns whether there is a symbolic link among the files, the array with the targets,
    and the result. *)
Definition resolve_symlinks (syms : list syminfo) : M state (bool * list syminfo * vres) :=
  let files := with_path 0 syms in
  let attrs_original_indices := map fst files in
  let attrs := map (fun x => mk_attrs (vfile_from_path x.2) mode_mask (vals junk_attrs)) files in
  match attrs with
  | [] => mret (false, syms, TC_OKAY)
  | _ =>
      '(err, attrs) ← vec_lgetattrs attrs;
      if negb (vokay err) then
        i ← item attrs_original_indices (index err);
        mret (false, syms, vfailure (Z.of_nat i) (err_no err))
      else
        _ ← check alloc;
        let links := links_of 0 attrs in
        let paths_original_indices :=
          map fst links ++ replicate (List.length attrs - List.length links) 0%nat in
        let syms := foldl (fun syms x => if S_ISLNK (mode (vals x.2)) then syms
                                         else set_target syms x.1 Null)
                      syms (zip attrs_original_indices attrs) in
        match links with
        | [] => mret (false, syms, err)
        | _ =>
            paths ← each need (map snd links);
            '(err, bufs) ← vec_readlink paths (replicate (List.length links) junk_text);
            if negb (vokay err) then
              i ← item attrs_original_indices (index err);
              j ← item paths_original_indices (Z.of_nat i);
              mret (false, syms, vfailure (Z.of_nat j) (err_no err))
            else
              targets ← each (fun x : nat * text =>
                i ← item attrs_original_indices (Z.of_nat x.1);
                y ← need (syms !! i);
                src ← need (src_path y);
                t ← link_target src x.2;
                mret (i, t)) (zip (map fst links) bufs);
              mret (true, foldl (fun syms x => set_target syms x.1 (Str x.2)) syms targets, err)
        end
  end.

Definition free_syminfo (syms : list syminfo) : M state unit :=
  _ ← each (fun y => non_null (target_path y)) syms; mret tt.

(** The loops over [syminfo[i].target_path] before and after the call of the layer. *)
Definition with_targets {A} (set : A -> option text -> A) (l : list A) (syms : list syminfo)
  : M state (list A) :=
  each (fun x : A * syminfo =>
    t ← non_null (target_path x.2);
    mret match t with Some t => set x.1 (Some t) | None => x.1 end) (zip l syms).

Definition with_sources {A} (set : A -> option text -> A) (l : list A) (syms : list syminfo)
  : M state (list A) :=
  each (fun x : A * syminfo =>
    t ← non_null (target_path x.2);
    mret match t with Some _ => set x.1 (src_path x.2) | None => x.1 end) (zip l syms).

Definition set_attr_path (a : vattrs) (p : option text) : vattrs :=
  Nfs4.with_attr_file a (set_path (attr_file a) p).

Definition vec_setattrs (attrs : list vattrs) : M state (vres * list vattrs) :=
  let syms := map (fun a =>
    mk_sym (if bool_decide (type (attr_file a) = VFILE_PATH) then path (attr_file a) else None)
      Indeterminate) attrs in
  '(had_link, syms, res) ← resolve_symlinks syms;
  if negb (vokay res) then mret (res, attrs)
  else if negb had_link then vec_lsetattrs attrs
  else
    attrs ← with_targets set_attr_path attrs syms;
    '(res, attrs) ← vec_lsetattrs attrs;
    attrs ← with_sources set_attr_path attrs syms;
    _ ← free_syminfo syms;
    mret (res, attrs).

(** The paths of the pairs are never null. *)
Definition set_src_path (x : vextent_pair) (p : option text) : vextent_pair :=
  mk_extent (default [] p) (dst_path x) (src_offset x) (dst_offset x) (ext_length x).

(** Returns the result and the caller's array. *)
Definition tc_pair (fn : list vextent_pair -> M state vres) (pairs : list vextent_pair)
  : M state (vres * list vextent_pair) :=
  let syms := map (fun x => mk_sym (Some (Api.src_path x)) Indeterminate) pairs in
  '(had_link, syms, res) ← resolve_symlinks syms;
  if negb (vokay res) then mret (res, pairs)
  else if negb had_link then r ← fn pairs; mret (r, pairs)
  else
    targets ← with_targets set_src_path pairs syms;
    res ← fn targets;
    pairs ← with_sources set_src_path targets syms;
    _ ← free_syminfo syms;
    mret (res, pairs).

Definition vec_copy (pairs : list vextent_pair) : M state (vres * list vextent_pair) :=
  tc_pair vec_lcopy pairs.

(** ** Attributes through symbolic links *)

(** [attrs[original_indices[i]].file = files[i]] *)
Definition put_files (attrs : list vattrs) (idx : list nat) (files : list vfile) : list vattrs :=
  foldl (fun attrs x => alter (fun a => Nfs4.with_attr_file a x.2) x.1 attrs) attrs (zip idx files).

Definition vec_getattrs (attrs : list vattrs) : M state (vres * list vattrs) :=
  '(res, got) ← vec_lgetattrs (map want_mode attrs);
  let links := links_of 0 got in
  _ ← check (forallb (fun a => implb (S_ISLNK (mode (vals a)))
                                     (bool_decide (type (attr_file a) = VFILE_PATH))) got);
  let original_indices := map fst links in
  let link_count := List.length links in
  let attrs := zip_with restore_mode attrs got in
  if negb (vokay res) || (link_count =? 0)%nat then mret (res, attrs)
  else
    _ ← check alloc;
    paths ← each need (map snd links);
    '(res, bufs) ← vec_readlink paths (replicate link_count junk_text);
    if negb (vokay res) then
      i ← item original_indices (index res);
      mret (vfailure (Z.of_nat i) (err_no res), attrs)
    else
      original_files ← each (fun i => a ← need (attrs !! i); mret (attr_file a)) original_indices;
      let attrs := put_files attrs original_indices (map vfile_from_path bufs) in
      '(res, first) ← vec_lgetattrs (take link_count attrs);
      let attrs := first ++ drop link_count attrs in
      res ← (if negb (vokay res) then
               i ← item original_indices (index res); mret (vfailure (Z.of_nat i) (err_no res))
             else mret res);
      mret (res, put_files attrs original_indices original_files).

Definition sca_readlink (p buf : text) : M state (Z * text) :=
  '(r, bufs) ← vec_readlink [p] [buf]; b ← need (head bufs); mret (err_no r, b).

(** The memory of [sca_stat_impl]: the path, the string [".."], and the two buffers. *)
Definition stat_mem (p : text) : text :=
  p ++ [Buf.NUL] ++ [PathSpec.DOT; PathSpec.DOT; Buf.NUL] ++ new_area junk_text ++ new_area junk_text.
Definition dots_at (p : text) : nat := (List.length p + 1)%nat.
Definition linkbuf_at (p : text) : nat := (List.length p + 4)%nat.
Definition target_at (p : text) : nat := (linkbuf_at p + PATH_MAX)%nat.

(** The loop, for a file given by [p0], with [p] the address of the current path. Returns
    the error and the attributes. *)
Fixpoint stat_loop (fuel : nat) (p0 m : text) (p : nat) (tca : vattrs) : M state (Z * vattrs) :=
  if negb (S_ISLNK (mode (vals tca))) then mret (0, tca)
  else
    match fuel with
    | O => fun _ => Ok None
    | Datatypes.S fuel =>
        '(ret, link) ← sca_readlink (c_string m (Buf.PMem p)) (c_string m (Buf.PMem (linkbuf_at p0)));
        if negb (ret =? 0) then mret (ret, tca)
        else
          let m := Buf.memmove m (linkbuf_at p0) (take PATH_MAX (link ++ [Buf.NUL])) in
          '(_, m) ← run (Paths.tc_path_joinall_impl m (target_at p0) PATH_MAX
                           [Buf.PMem p; Buf.PMem (dots_at p0); Buf.PMem (linkbuf_at p0)]);
          let tca := set_attr_path tca (Some (c_string m (Buf.PMem (target_at p0)))) in
          '(r, l) ← vec_lgetattrs [tca];
          tca ← need (head l);
          if negb (vokay r) then mret (err_no r, tca)
          else stat_loop fuel p0 m (target_at p0) tca
    end.

(** [buf] is the caller's buffer, which is set when 0 is returned. *)
Definition sca_stat_impl (tcf : vfile) (buf : avals) (readlink : bool) : M state (Z * avals) :=
  '(r, l) ← vec_lgetattrs [mk_attrs tcf VMASK_INIT_ALL (vals zero_attrs)];
  tca ← need (head l);
  if negb (vokay r) then mret (err_no r, buf)
  else if negb readlink || negb (S_ISLNK (mode (vals tca))) then mret (0, vattrs2stat tca buf)
  else
    _ ← check (bool_decide (type tcf = VFILE_PATH));
    p ← need (path (attr_file tca));
    '(ret, tca) ← stat_loop fuel p (stat_mem p) 0 tca;
    mret (ret, if ret =? 0 then vattrs2stat tca buf else buf).

Definition sca_stat (p : text) (buf : avals) : M state (Z * avals) :=
  sca_stat_impl (vfile_from_path p) buf true.
Definition sca_fstat (tcf : vfile) (buf : avals) : M state (Z * avals) :=
  sca_stat_impl tcf buf false.
Definition sca_lstat (p : text) (buf : avals) : M state (Z * avals) :=
  sca_stat_impl (vfile_from_path p) buf false.

(** ** Copying through the client *)

Definition to_write (x : vextent_pair * viovec) : viovec :=
  let v := x.2 in
  mk_iov (vfile_from_path (dst_path x.1)) (offset v) (Api.length v) (data v) (iov_type v)
    true false false false false (is_last_of_multiparts v).

(** The error messages name an element of the array. *)
Definition vec_ldup (pairs : list vextent_pair) : M state vres :=
  _ ← check alloc;
  let iovs := imap (fun i x => viov2path junk_iov (Api.src_path x) (src_offset x) (ext_length x)
                                 (buffer i)) pairs in
  '(tcres, iovs) ← vec_read iovs;
  if negb (vokay tcres) then _ ← item pairs (index tcres); mret tcres
  else
    '(tcres, iovs) ← vec_write (map to_write (zip pairs iovs));
    if negb (vokay tcres) then _ ← item pairs (Z.of_nat (List.length pairs)); mret tcres
    else mret tcres.

Definition vec_dup (pairs : list vextent_pair) : M state (vres * list vextent_pair) :=
  tc_pair vec_ldup pairs.

(** ** Listing *)

Definition vec_listdir {U} (dirs : list text) (mk : vattrs_masks) (max_entries : Z) (recursive : bool)
    (cb : vattrs -> text -> U -> bool * U) (cbarg : U) : M state (vres * U) :=
  _ ← TC_DECLARE_COUNTER f_listdir;
  match dirs with
  | [] => mret (TC_OKAY, cbarg)
  | _ =>
      t ← TC_START_COUNTER f_listdir;
      x ← dispatch (fun l => listdirv l dirs mk max_entries recursive cb cbarg);
      _ ← TC_STOP_COUNTER f_listdir t (Z.of_nat (List.length dirs)) (okay x);
      mret x
  end.

(** The callback; its state is undefined once it copies a null path. *)
Definition fill_dir_entries (entry : vattrs) (dir : text) (x : outcome vattrs_array)
  : bool * outcome vattrs_array :=
  match x with
  | Ok parray =>
      let full := capacity parray <=? zlen (array parray) in
      if full && negb (grows (capacity parray)) then (false, x)
      else
        let c := if full then u64 (capacity parray * 2) else capacity parray in
        match path (attr_file entry) with
        | None => (true, Abort)
        | Some p =>
            let e := Nfs4.with_attr_file entry
                       (set_path (attr_file entry) (if alloc then Some p else None)) in
            (true, Ok (mk_array (array parray ++ [e]) c))
        end
  | _ => (true, x)
  end.

(** Returns the result and, unless the first allocation fails, [contents] and [count]. The
    array is freed when listing fails, and freed once more when it is empty. *)
Definition sca_listdir (dir : text) (mk : vattrs_masks) (max_count : Z) (recursive calloc_ok : bool)
  : M state (vres * option (listing * Z)) :=
  _ ← check (0 <=? max_count);
  if negb calloc_ok then mret (vfailure 0 ENOMEM, None)
  else
    '(tcres, x) ← vec_listdir [dir] mk max_count recursive fill_dir_entries
                    (Ok (mk_array [] (if max_count =? 0 then 8 else max_count)));
    a ← run x;
    let count := zlen (array a) in
    _ ← check (vokay tcres || negb (count =? 0));
    mret (tcres, Some (if count =? 0 then NoEntries
                       else if vokay tcres then Entries (array a) else Freed, count)).

(** ** Making the directories of a path *)

(** The buffer for the path, after the string [dir]. *)
Definition path_buf (dir : text) : Buf.buf_t :=
  Buf.BUF_INITIALIZER (List.length dir + 1) (PATH_MAX + 1).
Definition ensure_mem (dir : text) : text :=
  dir ++ [Buf.NUL] ++ resize (PATH_MAX + 1) Buf.NUL junk_text.

(** [asstr], whose result is then dereferenced. *)
Definition buf_text (m : text) (b : Buf.buf_t) : outcome (text * text * Buf.buf_t) :=
  let! (p, m, b) := Buf.asstr m b in
  match p with Buf.PNull => Abort | _ => Ok (c_string m p, m, b) end.

(** The loop, with the variables [attrs] and [tcres]. *)
Fixpoint posix_ensure_dir (m : text) (b : Buf.buf_t) (comps : list Buf.slice_t) (md : Z)
    (a : vattrs) (tcres : vres) : M state vres :=
  match comps with
  | [] => mret tcres
  | c :: comps =>
      '(_, m, b) ← run (Paths.tc_path_append m b c);
      '(p, m, b) ← run (buf_text m b);
      '(tcres, l) ← lift (lgetattrsv posix [Nfs4.with_attr_file a (vfile_from_path p)]);
      a ← need (head l);
      if vokay tcres then posix_ensure_dir m b comps md a tcres
      else if negb (err_no tcres =? ENOENT) then mret tcres
      else
        let p := c_string m (Buf.PMem (Buf.bdata b)) in
        '(tcres, l) ← lift (mkdirv posix [vset_up_creation a p md euid egid]);
        a ← need (head l);
        if negb (vokay tcres) then mret tcres else posix_ensure_dir m b comps md a tcres
  end.

(** The loop of [nfs4_ensure_dir] from component [i] on: the directories to make; the
    components before [missing] exist. *)
Fixpoint absent_dirs (missing i : Z) (m : text) (b : Buf.buf_t) (comps : list Buf.slice_t)
    (dirs : list vattrs) (md : Z) : outcome (list vattrs) :=
  match comps with
  | [] => Ok []
  | c :: comps =>
      if i <? missing then
        let! (_, m, b) := Paths.tc_path_append m b c in absent_dirs missing (i + 1) m b comps dirs md
      else
        let a := default zero_attrs (head dirs) in
        if i =? missing then
          let! (_, m, b) := Paths.tc_path_append m b c in
          let! (p, m, b) := buf_text m b in
          let! rest := absent_dirs missing (i + 1) m b comps (tail dirs) md in
          Ok (vset_up_creation a p md euid egid :: rest)
        else
          let a := vset_up_creation a (Buf.bytes m c) md euid egid in
          let! rest := absent_dirs missing (i + 1) m b comps (tail dirs) md in
          Ok (Nfs4.with_attr_file a (mk_vfile VFILE_CURRENT (fd (attr_file a)) (u (attr_file a))) :: rest)
  end.

Definition nfs4_ensure_dir (m : text) (b : Buf.buf_t) (comps : list Buf.slice_t) (md : Z)
  : M state vres :=
  _ ← check alloc;
  let dirs := imap (fun i c =>
    mk_attrs (if (i =? 0)%nat then vfile_from_path (Buf.bytes m c)
              else vfile_from_cfh (Some (Buf.bytes m c))) mode_mask (vals zero_attrs)) comps in
  '(tcres, dirs) ← vec_getattrs dirs;
  if vokay tcres || negb (err_no tcres =? ENOENT) then mret tcres
  else
    l ← run (absent_dirs (index tcres) 0 m b comps dirs md);
    match l with
    | [] => mret tcres
    | _ => '(tcres, _) ← vec_mkdir l; mret tcres
    end.

(** [leaf] tells whether the caller wants the last component, which is returned. *)
Definition sca_ensure_dir (dir : text) (md : Z) (leaf : bool) : M state (vres * option text) :=
  let m := ensure_mem dir in
  '(n, comps) ← run (Paths.tc_path_tokenize m (Buf.PMem 0) true alloc);
  if n <? 0 then mret (vfailure 0 (- n), None)
  else
    let comps := default [] comps in
    let '(comps, leaf) :=
      if leaf then (removelast comps, Buf.bytes m <$> last comps) else (comps, None) in
    match comps with
    | [] => mret (TC_OKAY, leaf)
    | _ =>
        b ← is_nfs4;
        r ← (if b : bool then nfs4_ensure_dir m (path_buf dir) comps md
             else posix_ensure_dir m (path_buf dir) comps md junk_attrs TC_OKAY);
        mret (r, leaf)
    end.

End tc.

Lemma PATH_MAX_same : Paths.TC_PATH_MAX = PATH_MAX.
Proof. done. Qed.

Lemma PATH_MAX_large : (8 < PATH_MAX)%nat.
Proof. by apply Nat.ltb_lt. Qed.

#[local] Opaque PATH_MAX.

(** ** The NFSv4 layer with its caches *)

Section nfs_layer.
Context {CM CD W : Type} `{Cache.Poco CM nat} `{Cache.Poco CD Cache.DataBlock} `{Memory W}.
Context (block_size now : Z) (junk_stat : avals) (junk_time : nat -> Z).
Context (export : option (Nfs4.obj_ops W)) (detects : bool) (malloc_ok : nat -> bool).
Context (fuel : nat) (junk : Z) (junk_res : vres) (junk_attrs : vattrs) (alloc : bool) (euid egid : Z).

Definition nfs_backend : backend (cstate CM CD W) := {|
  openv := nfs_openv now junk_stat junk_time export detects fuel euid egid;
  closev := nfs_closev export detects fuel;
  fseek := nfs_fseek detects;
  readv := nfs_readv block_size now junk_stat junk_time export detects malloc_ok fuel junk alloc;
  writev := nfs_writev block_size now junk_stat junk_time export detects malloc_ok fuel junk alloc;
  read_writev := nfs_read_writev export detects malloc_ok fuel junk alloc;
  lgetattrsv := nfs_lgetattrsv now junk_stat junk_time export detects malloc_ok fuel alloc;
  lsetattrsv := nfs_lsetattrsv now export detects malloc_ok fuel alloc;
  listdirv := fun U dirs mk max_entries recursive cb =>
    nfs_listdirv now junk_stat junk_time export dirs mk max_entries recursive cb junk_attrs;
  renamev := nfs_renamev export fuel alloc junk_res;
  removev := nfs_removev export fuel alloc;
  mkdirv := nfs_mkdirv export detects malloc_ok fuel alloc junk_res;
  lcopyv := nfs_lcopyv export fuel;
  hardlinkv := nfs_hardlinkv export fuel junk_res;
  symlinkv := nfs_symlinkv export fuel junk_res;
  readlinkv := nfs_readlinkv export fuel junk_res;
  chdir := nfs_chdir export;
  getcwd := nfs_getcwd export
|}.

End nfs_layer.

(** ** Strings *)

Definition plain (p : text) : Prop := Buf.NUL ∉ p.

(** Short enough for the buffers of paths. *)
Definition short (n : nat) : Prop := (n + 1 < PATH_MAX)%nat.

Lemma length_new_area junk : List.length (new_area junk) = PATH_MAX.
Proof. apply length_resize. Qed.

Lemma join_into_spec n junk p1 p2 :
  plain p1 -> plain p2 -> p1 <> [] -> short (List.length p1 + List.length p2) ->
  (List.length p1 + List.length p2 + 1 < n)%nat -> Buf.int_sized n ->
  join_into n junk p1 p2 = Ok (PathSpec.normal_form (Paths.append_text p1 p2)).
Proof.
  intros H1 H2 Hne Hs Hn Hi. unfold short in Hs. unfold join_into.
  set (m := p1 ++ _). set (buf := (_ + 2)%nat).
  pose proof (Paths.append_text_length p1 p2) as Hl.
  assert (List.length (Paths.append_text p1 p2) <= List.length p1 + List.length p2 + 1)%nat as Hlt
    by (destruct p2; cbn [List.length] in *; repeat case_match; lia).
  assert (List.length m = buf + n)%nat as Hm.
  { unfold m, buf. rewrite !length_app, length_resize. cbn [List.length]. lia. }
  destruct (Paths.join_stores m 0 p1 (List.length p1 + 1) p2 buf n) as (m' & -> & Hc & _).
  - repeat constructor; eexists; (split_and!; [done | | left; unfold buf; lia]).
    + by apply (Paths.cstr_middle [] p1).
    + replace m with ((p1 ++ [Buf.NUL]) ++ p2 ++ Buf.NUL :: resize n Buf.NUL junk)
        by (unfold m; by rewrite <- app_assoc).
      replace (List.length p1 + 1)%nat with (List.length (p1 ++ [Buf.NUL])) by (by rewrite length_app).
      by apply Paths.cstr_middle.
  - lia.
  - done.
  - rewrite PATH_MAX_same. lia.
  - rewrite PATH_MAX_same. lia.
  - destruct p1; [done|]. by destruct p2.
  - lia.
  - lia.
  - rewrite PATH_MAX_same. lia.
  - cbn [obind]. unfold c_string. by rewrite (Paths.cstr_text m' buf _ Hc).
Qed.

Lemma join_strings_spec junk p1 p2 :
  plain p1 -> plain p2 -> p1 <> [] -> short (List.length p1 + List.length p2) ->
  join_strings junk p1 p2 = Ok (PathSpec.normal_form (Paths.append_text p1 p2)).
Proof. intros H1 H2 Hne Hs. apply join_into_spec; try done. Qed.

(** The directory of an absolute path: the path is a name in it, or the root. *)
Lemma dirname_spec p :
  plain p -> starts_with_slash p = true ->
  starts_with_slash (dirname_string p) = true /\ plain (dirname_string p)
  /\ (List.length (dirname_string p) <= List.length p)%nat
  /\ exists base, PathSpec.SLASH ∉ base
     /\ forall cwd, PathSpec.resolve cwd p = PathSpec.walk (PathSpec.resolve cwd (dirname_string p)) base.
Proof.
  intros Hp Hs. pose proof (Paths.dir_base_abs p Hp Hs) as H. cbv zeta in H.
  unfold dirname_string, Paths.tc_path_dirname_s.
  destruct (Paths.tc_path_dir_base_s _ _) as [[ok dir] base]. destruct H as (H1 & H2 & H3 & _ & H5 & H6).
  split_and!; [exact H1 | done | done | by eexists].
Qed.

(** What the code takes as the target of the link [src] with text [link]. *)
Definition target_of (src link : text) : text :=
  if starts_with_slash src && negb (starts_with_slash link)
  then PathSpec.normal_form (Paths.append_text (dirname_string src) link) else link.

Lemma starts_is_abs p : starts_with_slash p = PathSpec.is_abs p.
Proof. by destruct p. Qed.

(** It leads where the link leads from the directory of the link. *)
Lemma target_of_leads src link :
  plain src -> PathSpec.is_abs src = true ->
  PathSpec.resolve [] (target_of src link)
  = PathSpec.resolve (PathSpec.resolve [] (dirname_string src)) link.
Proof.
  intros Hp Ha. unfold target_of. rewrite (starts_is_abs src), (starts_is_abs link), Ha. simpl.
  rewrite <- starts_is_abs in Ha. destruct (dirname_spec src Hp Ha) as (Hd & _ & _ & _).
  destruct (PathSpec.is_abs link) eqn:E; simpl; [unfold PathSpec.resolve; by rewrite E|].
  assert (dirname_string src <> []) by (intros Hn; by rewrite Hn in Hd).
  rewrite PathSpec.resolve_normal_form, Paths.resolve_append_text by done.
  unfold PathSpec.resolve. by rewrite E.
Qed.

(** ** Arrays of links *)

Lemma with_path_elem k syms i p :
  (i, p) ∈ with_path k syms <-> exists j y, i = (k + j)%nat /\ syms !! j = Some y /\ src_path y = Some p.
Proof.
  revert k. induction syms as [|y syms IH]; intros k; cbn [with_path].
  - split; [by intros ?%elem_of_nil | by intros (j & y & _ & ? & _)].
  - transitivity ((i = k /\ src_path y = Some p) \/ (i, p) ∈ with_path (S k) syms).
    { destruct (src_path y) as [q|]; [rewrite elem_of_cons|]; naive_solver. }
    rewrite IH. split.
    + intros [[-> Hp]|(j & z & -> & Hj & Hz)]; [exists 0%nat, y | exists (S j), z];
        (split; [lia | done]).
    + intros ([|j] & z & -> & Hj & Hz); simpl in Hj; [left | right].
      * simplify_eq. split; [lia | done].
      * exists j, z. split; [lia | done].
Qed.

Lemma with_path_length k syms : (List.length (with_path k syms) <= List.length syms)%nat.
Proof.
  revert k. induction syms as [|y syms IH]; intros k; cbn [with_path List.length]; [done|].
  specialize (IH (S k)). destruct (src_path y); cbn [List.length]; lia.
Qed.

(** Assignments [syms[i].target_path = p] one after the other. *)
Definition assign (syms : list syminfo) (l : list (nat * cptr)) : list syminfo :=
  foldl (fun syms x => set_target syms x.1 x.2) syms l.

Lemma assign_src syms l j :
  (src_path <$> assign syms l !! j) = (src_path <$> syms !! j).
Proof.
  revert syms. induction l as [|[i c] l IH]; intros syms; [done|]. cbn [assign foldl].
  fold (assign (set_target syms i c) l). rewrite IH. unfold set_target. cbn [fst snd].
  destruct (decide (i = j)) as [->|Hij].
  - rewrite list_lookup_alter_eq. by destruct (syms !! j).
  - by rewrite list_lookup_alter_ne.
Qed.

Lemma assign_snoc syms l i c : assign syms (l ++ [(i, c)]) = set_target (assign syms l) i c.
Proof. unfold assign. by rewrite foldl_app. Qed.

Lemma assign_other syms l j : j ∉ map fst l -> assign syms l !! j = syms !! j.
Proof.
  induction l as [|[i c] l IH] using rev_ind; [done|]. rewrite map_app, not_elem_of_app.
  intros [Hl Hi%not_elem_of_cons]. rewrite assign_snoc. unfold set_target.
  rewrite list_lookup_alter_ne; [by apply IH | by destruct Hi as [Hi _]; intros ->].
Qed.

Lemma assign_last syms l j y c :
  syms !! j = Some y -> (j, c) ∈ l -> (forall c', (j, c') ∈ l -> c' = c) ->
  assign syms l !! j = Some (mk_sym (src_path y) c).
Proof.
  intros Hy. induction l as [|[i d] l IH] using rev_ind; [by intros ?%elem_of_nil|].
  intros Hin Hu. rewrite assign_snoc. unfold set_target. destruct (decide (i = j)) as [->|Hij].
  - assert (d = c) as -> by (apply Hu; set_solver).
    rewrite list_lookup_alter_eq. pose proof (assign_src syms l j) as Hs. rewrite Hy in Hs.
    destruct (assign syms l !! j) as [z|]; [|done]. simpl in *. by injection Hs as ->.
  - rewrite list_lookup_alter_ne by done. apply IH; [set_solver|]. intros c' Hc. apply Hu. set_solver.
Qed.

(** The elements of a list that satisfy a test, with their positions. *)
Fixpoint positions {A} (f : A -> bool) (k : nat) (l : list A) : list (nat * A) :=
  match l with
  | [] => []
  | x :: l => if f x then (k, x) :: positions f (S k) l else positions f (S k) l
  end.

Lemma positions_elem {A} (f : A -> bool) k l n x :
  (n, x) ∈ positions f k l -> (k <= n)%nat /\ l !! (n - k)%nat = Some x /\ f x = true.
Proof.
  revert k. induction l as [|y l IH]; intros k; cbn [positions]; [by intros ?%elem_of_nil|].
  destruct (f y) eqn:E; [intros [[= -> ->]|H]%elem_of_cons | intros H].
  - by rewrite Nat.sub_diag.
  - apply IH in H as (Hk & Hl & Hx). replace (n - k)%nat with (S (n - S k)) by lia. split; [lia | done].
  - apply IH in H as (Hk & Hl & Hx). replace (n - k)%nat with (S (n - S k)) by lia. split; [lia | done].
Qed.

Lemma positions_snd {A} (f : A -> bool) k l : map snd (positions f k l) = List.filter f l.
Proof. revert k. induction l as [|y l IH]; intros k; [done|]. simpl. destruct (f y); simpl; by rewrite IH. Qed.

Lemma links_of_positions k attrs :
  links_of k attrs
  = map (fun x => (x.1, path (attr_file x.2))) (positions (fun a => S_ISLNK (mode (vals a))) k attrs).
Proof. revert k. induction attrs as [|a attrs IH]; intros k; [done|]. simpl. rewrite IH. by destruct (S_ISLNK _). Qed.

Lemma positions_map {A B} (g : A -> B) f k l :
  positions f k (map g l) = map (fun x => (x.1, g x.2)) (positions (fun x => f (g x)) k l).
Proof. revert k. induction l as [|a l IH]; intros k; [done|]. simpl. rewrite IH. by destruct (f (g a)). Qed.

(** ** What the layer in use promises *)

Section follow.
(** The attributes of the files, and the texts of the symbolic links. *)
Context (srv : text -> avals) (link : text -> text).

(** The layer [l], in states that satisfy [inv], answers for fewer than [bound] files at a
    time. *)
Class LinkServer {S} (l : backend S) (inv : S -> Prop) (bound : nat) : Prop := {
  lgetattrs_answers : forall attrs s, inv s -> attrs <> [] -> Forall is_path attrs ->
    (List.length attrs < bound)%nat ->
    exists r s', lgetattrsv l attrs s = done (r, map (answer srv) attrs, s')
    /\ vokay r = true /\ inv s';
  readlink_answers : forall paths bufs s, inv s -> paths <> [] ->
    List.length bufs = List.length paths -> (List.length paths < bound)%nat ->
    exists r s', readlinkv l paths bufs s = done (r, map link paths, s')
    /\ vokay r = true /\ inv s'
}.

Context {S : Type} (nfs posix : backend S) (clock : nat -> Z) (junk_text : text) (junk_attrs : vattrs).
Context (b : bool) (inv : S -> Prop) (bound : nat).
Context `{!LinkServer (if b then nfs else posix) inv bound}.
Notation state := (tcstate S).

Definition good (s : state) : Prop := TC_IMPL_IS_NFS4 s = b /\ inv (lower s).

Lemma counted_spec {A} f n ok (c : backend S -> M S A) (s : state) a x :
  TC_IMPL_IS_NFS4 s = b -> c (if b then nfs else posix) (lower s) = done (a, x) ->
  exists s', counted nfs posix clock f n ok c s = done (a, s')
  /\ TC_IMPL_IS_NFS4 s' = b /\ lower s' = x.
Proof.
  intros Hb Hc. unfold counted, TC_DECLARE_COUNTER, TC_START_COUNTER, TC_STOP_COUNTER, dispatch,
    on_counters, read_clock, is_nfs4, lift, mbind, M_bind, mret, M_ret, fbind, done.
  cbn [obind lower TC_IMPL_IS_NFS4]. rewrite Hb, Hc. unfold done. cbn [obind].
  by eexists.
Qed.

Lemma vec_lgetattrs_spec attrs (s : state) :
  good s -> attrs <> [] -> Forall is_path attrs -> (List.length attrs < bound)%nat ->
  exists r s', vec_lgetattrs nfs posix clock attrs s = done (r, map (answer srv) attrs, s')
  /\ vokay r = true /\ good s'.
Proof.
  intros [Hb Hi] Hn Hp Hl. destruct (lgetattrs_answers attrs (lower s)) as (r & x & E & Hr & Hx); [done..|].
  destruct (counted_spec f_lgetattrs (List.length attrs) okay (fun l => lgetattrsv l attrs) s _ x Hb E)
    as (s' & E' & Hb' & Hx'). exists r, s'. split_and!; [done..|]. split; [done | by rewrite Hx'].
Qed.

Lemma vec_readlink_spec paths bufs (s : state) :
  good s -> paths <> [] -> List.length bufs = List.length paths -> (List.length paths < bound)%nat ->
  exists r s', vec_readlink nfs posix clock paths bufs s = done (r, map link paths, s')
  /\ vokay r = true /\ good s'.
Proof.
  intros [Hb Hi] Hn Hp Hl. destruct (readlink_answers paths bufs (lower s)) as (r & x & E & Hr & Hx); [done..|].
  destruct (counted_spec f_readlink (List.length paths) okay (fun l => readlinkv l paths bufs) s _ x Hb E)
    as (s' & E' & Hb' & Hx'). exists r, s'. split_and!; [done..|]. split; [done | by rewrite Hx'].
Qed.

(** ** Resolving *)

Lemma each_pure {A B} (f : A -> M state B) (g : A -> B) l (s : state) :
  (forall x, x ∈ l -> f x s = done (g x, s)) -> each f l s = done (map g l, s).
Proof.
  induction l as [|x l IH]; intros Hf; [done|]. cbn [each].
  rewrite (bind_done _ _ _ _ _ (Hf x ltac:(by left))).
  rewrite (bind_done _ _ _ _ _ (IH ltac:(intros; apply Hf; by right))). done.
Qed.

Lemma each_map {A B C} (f : B -> M state C) (h : A -> B) (g : A -> C) l (s : state) :
  (forall x, x ∈ l -> f (h x) s = done (g x, s)) -> each f (map h l) s = done (map g l, s).
Proof.
  induction l as [|x l IH]; intros Hf; [done|]. cbn [map each].
  rewrite (bind_done _ _ _ _ _ (Hf x ltac:(by left))).
  rewrite (bind_done _ _ _ _ _ (IH ltac:(intros; apply Hf; by right))). done.
Qed.

Lemma item_nat {A} (l : list A) n a (s : state) : l !! n = Some a -> item l (Z.of_nat n) s = done (a, s).
Proof.
  intros Hl. unfold item. rewrite (proj2 (Z.ltb_ge _ _)) by lia. by rewrite Nat2Z.id, Hl.
Qed.

Lemma zip_maps {A B C} (f : A -> B) (g : A -> C) l :
  zip (map f l) (map g l) = map (fun x => (f x, g x)) l.
Proof. induction l as [|x l IH]; [done|]. simpl. by rewrite IH. Qed.

Lemma assign_strs {A} syms (f : A -> nat) (g : A -> text) l :
  foldl (fun syms x => set_target syms x.1 (Str x.2)) syms (map (fun x => (f x, g x)) l)
  = assign syms (map (fun x => (f x, Str (g x))) l).
Proof. revert syms. induction l as [|x l IH]; intros syms; [done|]. apply IH. Qed.

Definition is_link (p : text) : bool := S_ISLNK (mode (srv p)).

(** The links that fit the buffers. *)
Definition fits (p : text) : Prop :=
  plain p /\ (is_link p = true -> plain (link p) /\ short (List.length p + List.length (link p))).

Lemma link_target_spec p (s : state) : fits p -> is_link p = true ->
  link_target junk_text p (link p) s = done (target_of p (link p), s).
Proof.
  intros [Hp Hl] Hi. specialize (Hl Hi) as [Hpl Hs]. unfold link_target, target_of.
  destruct (starts_with_slash p) eqn:Ea; [|done].
  destruct (starts_with_slash (link p)) eqn:El; [done|]. simpl.
  destruct (dirname_spec p Hp Ea) as (Hd & Hpd & Hld & _).
  unfold run. rewrite join_strings_spec; [done | done | done | by intros Hn; rewrite Hn in Hd |].
  unfold short in *. lia.
Qed.

Definition resolved (y : syminfo) : syminfo :=
  match src_path y with
  | Some p => mk_sym (Some p) (if is_link p then Str (target_of p (link p)) else Null)
  | None => y
  end.

(** The attributes asked for, and those of a symbolic link. *)
Definition asked (x : nat * text) : vattrs := mk_attrs (vfile_from_path x.2) mode_mask (vals junk_attrs).

Lemma answer_asked x : mode (vals (answer srv (asked x))) = mode (srv x.2)
  /\ path (attr_file (answer srv (asked x))) = Some x.2.
Proof. done. Qed.

(** What the loops of [resolve_symlinks] assign, for the files [l]. *)
Definition nulls (l : list (nat * text)) : list (nat * cptr) :=
  map (fun x => (x.1, Null)) (List.filter (fun x => negb (is_link x.2)) l).
Definition strs (l : list (nat * text)) : list (nat * cptr) :=
  map (fun x => (x.1, Str (target_of x.2 (link x.2)))) (List.filter (fun x => is_link x.2) l).

Lemma assign_all syms :
  assign (assign syms (nulls (with_path 0 syms))) (strs (with_path 0 syms)) = map resolved syms.
Proof.
  assert (forall l1 l2, assign (assign syms l1) l2 = assign syms (l1 ++ l2)) as ->
    by (intros; unfold assign; by rewrite foldl_app).
  set (l := nulls _ ++ strs _).
  assert (forall j c, (j, c) ∈ l <-> exists y p, syms !! j = Some y /\ src_path y = Some p
            /\ c = if is_link p then Str (target_of p (link p)) else Null) as Hl.
  { intros j c. unfold l, nulls, strs. rewrite elem_of_app, !list_elem_of_In, !in_map_iff.
    setoid_rewrite filter_In. setoid_rewrite <- list_elem_of_In. split.
    - intros [([i p] & [= <- <-] & Hin & Hp)|([i p] & [= <- <-] & Hin & Hp)];
        apply with_path_elem in Hin as (j & y & -> & Hy & Hs); exists y, p; simpl in *.
      + apply negb_true_iff in Hp. by rewrite Hp.
      + by rewrite Hp.
    - intros (y & p & Hy & Hs & ->).
      assert ((j, p) ∈ with_path 0 syms) by (apply with_path_elem; by exists j, y).
      destruct (is_link p) eqn:E; [right | left]; exists (j, p); simpl; rewrite E; done. }
  apply list_eq. intros j. rewrite list_lookup_fmap. destruct (syms !! j) as [y|] eqn:Hy.
  - destruct (src_path y) as [p|] eqn:Hp.
    + rewrite (assign_last syms l j y (if is_link p then Str (target_of p (link p)) else Null)); [|done|..].
      * simpl. unfold resolved. by rewrite Hp.
      * apply Hl. by exists y, p.
      * intros c (y' & p' & ? & ? & ->)%Hl. by simplify_eq.
    + rewrite assign_other; [simpl; unfold resolved; by rewrite Hp, Hy|].
      rewrite list_elem_of_In, in_map_iff. setoid_rewrite <- list_elem_of_In.
      intros ([i c] & <- & (y' & p' & ? & ? & ?)%Hl). simpl in *. by simplify_eq.
  - rewrite assign_other; [by rewrite Hy|]. rewrite list_elem_of_In, in_map_iff. setoid_rewrite <- list_elem_of_In.
    intros ([i c] & <- & (y' & p' & ? & ? & ?)%Hl). simpl in *. by simplify_eq.
Qed.

Definition any_link (syms : list syminfo) : bool :=
  existsb (fun y => match src_path y with Some p => is_link p | None => false end) syms.

Lemma any_link_files k syms :
  List.filter (fun x => is_link x.2) (with_path k syms) = [] <-> any_link syms = false.
Proof.
  revert k. induction syms as [|y syms IH]; intros k; [done|]. cbn [with_path any_link existsb].
  destruct (src_path y) as [p|]; [|apply IH]. cbn [List.filter snd].
  destruct (is_link p); [done | apply IH].
Qed.

Lemma match_cons {A T} (l : list A) (x y : T) :
  l <> [] -> match l with [] => x | _ :: _ => y end = y.
Proof. by destruct l. Qed.

(** The first loop over the attributes. *)
Lemma clear_loop syms l :
  foldl (fun syms x => if S_ISLNK (mode (vals x.2)) then syms else set_target syms x.1 Null) syms
    (zip (map fst l) (map (fun x => answer srv (asked x)) l)) = assign syms (nulls l).
Proof.
  revert syms. induction l as [|x l IH]; intros syms; [done|].
  cbn [map zip zip_with foldl fst snd].
  assert (S_ISLNK (mode (vals (answer srv (asked x)))) = is_link x.2) as -> by done.
  unfold nulls. cbn [List.filter]. destruct (is_link x.2); cbn [negb]; rewrite IH; done.
Qed.

Lemma resolve_symlinks_spec syms (s : state) :
  good s -> (List.length syms < bound)%nat ->
  (forall y p, y ∈ syms -> src_path y = Some p -> fits p) ->
  exists r s', resolve_symlinks nfs posix clock true junk_text junk_attrs syms s
    = done (any_link syms, map resolved syms, r, s') /\ vokay r = true /\ good s'.
Proof.
  intros Hs Hb Hf. unfold resolve_symlinks. set (files := with_path 0 syms).
  assert (forall x, x ∈ files -> fits x.2) as Hfit.
  { intros [i p] (j & y & _ & Hy & Hp)%with_path_elem. eapply Hf; [by eapply list_elem_of_lookup_2 | done]. }
  assert (List.length files < bound)%nat as Hlen by (pose proof (with_path_length 0 syms); unfold files; lia).
  pose proof (any_link_files 0 syms) as Hany. fold files in Hany.
  pose proof (assign_all syms) as Hall. fold files in Hall.
  assert (map (fun x => mk_attrs (vfile_from_path x.2) mode_mask (vals junk_attrs)) files
          = map asked files) as -> by done.
  destruct (decide (files = [])) as [E0|E0].
  { rewrite E0 in *. exists TC_OKAY, s. split_and!; [|done..]. by rewrite (proj1 Hany eq_refl), <- Hall. }
  rewrite match_cons by (by destruct files).
  destruct (vec_lgetattrs_spec (map asked files) s) as (r & s1 & E1 & Hr & Hs1);
    [done | by destruct files | | by rewrite length_map |].
  { apply Forall_map, Forall_true. intros x. split; [done | by eexists]. }
  rewrite (bind_done _ _ _ _ _ E1). cbv beta iota. rewrite Hr. cbn [negb].
  rewrite (bind_done _ _ _ tt s1) by done.
  rewrite map_map, clear_loop, links_of_positions, positions_map, map_map, map_map.
  set (pos := positions _ 0 files). change (positions (fun x => is_link x.2) 0 files) in (value of pos).
  pose proof (positions_snd (fun x : nat * text => is_link x.2) 0 files) as Hsnd. fold pos in Hsnd. cbn [fst snd].
  assert (map (fun x : nat * (nat * text) => (x.1, path (attr_file (answer srv (asked x.2))))) pos
          = map (fun x => (x.1, Some x.2.2)) pos) as -> by done.
  destruct (decide (pos = [])) as [Ep|Ep].
  { rewrite Ep in *. cbn [map] in *. exists r, s1. split_and!; [|done..].
    rewrite (proj1 Hany (eq_sym Hsnd)), <- Hall. unfold strs. by rewrite <- Hsnd. }
  rewrite match_cons by (by destruct pos).
  rewrite map_map. cbn [snd].
  erewrite bind_done; [|apply each_map; intros x _; reflexivity].
  destruct (vec_readlink_spec (map (fun x => x.2.2) pos) (replicate (List.length (map (fun x => (x.1, Some x.2.2)) pos)) junk_text) s1)
    as (r2 & s2 & E2 & Hr2 & Hs2); [done | by destruct pos | by rewrite length_replicate, !length_map | |].
  { rewrite length_map, <- (length_map snd), Hsnd. pose proof (List.filter_length_le (fun x : nat * text => is_link x.2) files). lia. }
  rewrite (bind_done _ _ _ _ _ E2). cbv beta iota. rewrite Hr2. cbn [negb].
  rewrite map_map, zip_maps.
  erewrite bind_done.
  2: { apply (each_map _ _ (fun x => (x.2.1, target_of x.2.2 (link x.2.2)))). intros [n [i p]] Hx.
       apply positions_elem in Hx as (_ & Hx & Hlk). rewrite Nat.sub_0_r in Hx. cbn [fst snd] in *.
       assert ((i, p) ∈ files) as Hin by (by eapply list_elem_of_lookup_2).
       pose proof (Hfit _ Hin) as Hfp. apply with_path_elem in Hin as (j & y & -> & Hy & Hp). simpl in *.
       rewrite (bind_done _ _ _ j s2) by (apply item_nat; by rewrite list_lookup_fmap, Hx).
       pose proof (assign_src syms (nulls files) j) as Hsrc. rewrite Hy in Hsrc.
       destruct (assign syms (nulls files) !! j) as [z|]; [|done]. simpl in Hsrc. injection Hsrc as Hsrc.
       erewrite bind_done; [|reflexivity]. rewrite Hsrc, Hp. erewrite bind_done; [|reflexivity].
       rewrite (bind_done _ _ _ _ _ (link_target_spec p s2 Hfp Hlk)). done. }
  exists r2, s2. split_and!; [|done..].
  assert (any_link syms = true) as ->.
  { destruct (any_link syms); [done|]. rewrite (proj2 Hany eq_refl) in Hsnd. by destruct pos. }
  rewrite <- Hall. unfold strs. rewrite <- Hsnd, map_map, assign_strs. done.
Qed.

(** The path to use for [p]. *)
Definition real_path (p : text) : text := if is_link p then target_of p (link p) else p.

Definition followed (x : vextent_pair) : vextent_pair := set_src_path x (Some (real_path (Api.src_path x))).

Definition pair_sym (x : vextent_pair) : syminfo := mk_sym (Some (Api.src_path x)) Indeterminate.

Definition chosen (p : text) : cptr := if is_link p then Str (target_of p (link p)) else Null.

Lemma free_pure syms (s : state) :
  (forall y, y ∈ syms -> target_path y <> Indeterminate) -> free_syminfo syms s = done (tt, s).
Proof.
  intros H. unfold free_syminfo. erewrite bind_done; [reflexivity|].
  apply (each_pure _ (fun y => match target_path y with Str t => Some t | _ => None end)).
  intros y Hy. specialize (H y Hy). by destruct (target_path y).
Qed.

(** The two loops over the targets, for sources that are all given. *)
Section loops.
Context {A : Type} (src : A -> text) (set : A -> option text -> A) (l : list A).
Hypothesis set_same : forall x, x ∈ l -> set x (Some (src x)) = x.
Notation syms := (map (fun x => mk_sym (Some (src x)) (chosen (src x))) l).
Notation used := (map (fun x => set x (Some (real_path (src x)))) l).

Lemma with_targets_spec (s : state) : with_targets set l syms s = done (used, s).
Proof.
  unfold with_targets. rewrite <- (map_id l) at 1. rewrite zip_maps. apply each_map.
  intros x Hx. unfold real_path, chosen. cbn [fst snd target_path].
  destruct (is_link (src x)); [done|]. by rewrite set_same.
Qed.

(** After a call that may have changed the elements but not their sources. *)
Lemma with_sources_spec (f : A -> A) (s : state) :
  (forall x, x ∈ l -> is_link (src x) = false -> f (set x (Some (src x))) = f x) ->
  (forall x p, x ∈ l -> set (f (set x p)) (Some (src x)) = f x) ->
  with_sources set (map f used) syms s = done (map f l, s).
Proof.
  intros Hf1 Hf2. unfold with_sources. rewrite map_map, zip_maps. apply each_map.
  intros x Hx. unfold real_path, chosen. cbn [fst snd target_path Tc.src_path].
  destruct (is_link (src x)) eqn:E; cbn; unfold mbind, M_bind; cbn.
  - by rewrite Hf2.
  - by rewrite Hf1.
Qed.

Lemma free_chosen (s : state) : free_syminfo syms s = done (tt, s).
Proof.
  apply free_pure. intros y (x & -> & _)%list_elem_of_fmap. cbn. unfold chosen. by destruct (is_link _).
Qed.

Lemma used_same : existsb (fun x => is_link (src x)) l = false -> used = l.
Proof.
  intros H. rewrite <- (map_id l) at 2. apply map_ext_in. intros x Hx.
  unfold real_path. destruct (is_link (src x)) eqn:E; [|apply set_same, list_elem_of_In; done].
  assert (existsb (fun x => is_link (src x)) l = true) by (apply existsb_exists; eauto). congruence.
Qed.

End loops.

Lemma tc_pair_spec fn pairs (s : state) :
  good s -> (List.length pairs < bound)%nat -> Forall (fun x => fits (Api.src_path x)) pairs ->
  exists s1, good s1 /\
    tc_pair nfs posix clock true junk_text junk_attrs fn pairs s
    = (r ← fn (map followed pairs); mret (r, pairs)) s1.
Proof.
  intros Hs Hl Hf. unfold tc_pair. set (syms := map _ pairs).
  assert (forall x : vextent_pair, set_src_path x (Some (Api.src_path x)) = x) as Hsame by (by intros []).
  destruct (resolve_symlinks_spec syms s) as (r & s1 & E & Hr & Hs1).
  { done. } { unfold syms. by rewrite length_map. }
  { intros y p (x & -> & Hx)%list_elem_of_fmap Hp. rewrite Forall_forall in Hf.
    injection Hp as <-. by apply Hf. }
  exists s1. split; [done|]. rewrite (bind_done _ _ _ _ _ E). cbv beta iota. rewrite Hr. cbn [negb].
  assert (map resolved syms = map (fun x => mk_sym (Some (Api.src_path x)) (chosen (Api.src_path x))) pairs) as ->.
  { unfold syms. by rewrite map_map. }
  assert (any_link syms = existsb (fun x => is_link (Api.src_path x)) pairs) as ->.
  { unfold syms, any_link. clear. induction pairs as [|x l IH]; [done|]. simpl. by rewrite IH. }
  destruct (existsb _ pairs) eqn:Ea; cbn [negb].
  - rewrite (bind_done _ _ _ _ _ (with_targets_spec Api.src_path set_src_path pairs ltac:(intros; apply Hsame) s1)).
    unfold mbind, M_bind, fbind. fold followed.
    change (map (fun x => set_src_path x (Some (real_path (Api.src_path x)))) pairs) with (map followed pairs).
    destruct (fn (map followed pairs) s1) as [[[r' s2]|]| |]; [|done..]. cbn [obind].
    rewrite <- (map_id (map followed pairs)).
    rewrite (with_sources_spec Api.src_path set_src_path pairs (fun x => x)).
    + unfold done. cbn [obind]. rewrite free_chosen. unfold done. cbn [obind]. by rewrite map_id.
    + intros x _ _. apply Hsame.
    + intros x q _. by destruct x.
  - pose proof (used_same Api.src_path set_src_path pairs ltac:(intros; apply Hsame) Ea) as Hu.
    change (map followed pairs = pairs) in Hu. by rewrite Hu.
Qed.

(** Setting attributes. *)
Definition set_sym (a : vattrs) : syminfo :=
  mk_sym (if bool_decide (type (attr_file a) = VFILE_PATH) then path (attr_file a) else None) Indeterminate.

Definition followed_attr (a : vattrs) : vattrs := set_attr_path a (Some (real_path (attr_name a))).

Lemma set_sym_path a : is_path a -> set_sym a = mk_sym (Some (attr_name a)) Indeterminate.
Proof.
  intros [Ht [p Hp]]. unfold set_sym, attr_name. by rewrite bool_decide_eq_true_2, Hp by done.
Qed.

Lemma set_attr_same a : is_path a -> set_attr_path a (Some (attr_name a)) = a.
Proof.
  destruct a as [[t d x] mk v]. intros [_ [p Hp]]. unfold attr_name, set_attr_path, set_path in *.
  cbn in *. by destruct x; simplify_eq.
Qed.

Lemma vec_setattrs_spec attrs (s : state) :
  good s -> (List.length attrs < bound)%nat -> Forall is_path attrs -> Forall (fun a => fits (attr_name a)) attrs ->
  exists s1, good s1 /\ forall r s2,
    vec_lsetattrs nfs posix clock (map followed_attr attrs) s1 = done (r, map followed_attr attrs, s2) ->
    vec_setattrs nfs posix clock true junk_text junk_attrs attrs s = done (r, attrs, s2).
Proof.
  intros Hs Hl Hp Hf. unfold vec_setattrs. fold set_sym.
  assert (map set_sym attrs = map (fun a => mk_sym (Some (attr_name a)) Indeterminate) attrs) as Hsym.
  { apply map_ext_in. intros a Ha%list_elem_of_In. rewrite Forall_forall in Hp. by apply set_sym_path, Hp. }
  change (map (fun a => mk_sym _ Indeterminate) attrs) with (map set_sym attrs). rewrite Hsym. clear Hsym.
  set (syms := map (fun a => mk_sym (Some (attr_name a)) Indeterminate) attrs).
  destruct (resolve_symlinks_spec syms s) as (r & s1 & E & Hr & Hs1).
  { done. } { unfold syms. by rewrite length_map. }
  { intros y p (x & -> & Hx)%list_elem_of_fmap Hq. rewrite Forall_forall in Hf.
    injection Hq as <-. by apply Hf. }
  exists s1. split; [done|]. intros r' s2 E2.
  rewrite (bind_done _ _ _ _ _ E). cbv beta iota. rewrite Hr. cbn [negb].
  assert (map resolved syms = map (fun x => mk_sym (Some (attr_name x)) (chosen (attr_name x))) attrs) as ->.
  { unfold syms. by rewrite map_map. }
  assert (any_link syms = existsb (fun x => is_link (attr_name x)) attrs) as ->.
  { unfold syms, any_link. clear. induction attrs as [|x l IH]; [done|]. simpl. by rewrite IH. }
  assert (forall a, a ∈ attrs -> set_attr_path a (Some (attr_name a)) = a) as Hsame.
  { intros a Ha. rewrite Forall_forall in Hp. by apply set_attr_same, Hp. }
  destruct (existsb _ attrs) eqn:Ea; cbn [negb].
  - rewrite (bind_done _ _ _ _ _ (with_targets_spec attr_name set_attr_path attrs Hsame s1)).
    change (map (fun x => set_attr_path x (Some (real_path (attr_name x)))) attrs) with (map followed_attr attrs).
    rewrite (bind_done _ _ _ _ _ E2). cbv beta iota.
    erewrite bind_done.
    2: { rewrite <- (map_id (map followed_attr attrs)).
         apply (with_sources_spec attr_name set_attr_path attrs (fun x => x)).
         - intros x Hx _. by apply Hsame.
         - intros x q Hx. rewrite <- (Hsame x Hx) at 3. by destruct x as [[] ? ?]. }
    rewrite (bind_done _ _ _ _ _ (free_chosen attr_name attrs s2)). by rewrite map_id.
  - pose proof (used_same attr_name set_attr_path attrs Hsame Ea) as Hu.
    change (map followed_attr attrs = attrs) in Hu. rewrite Hu in E2. exact E2.
Qed.

Lemma each_stops {A B} (f : A -> M state B) l (s : state) :
  (forall x, x ∈ l -> f x s = Abort \/ exists c, f x s = done (c, s)) ->
  (exists x, x ∈ l /\ f x s = Abort) -> each f l s = Abort.
Proof.
  induction l as [|x l IH]; intros Hf (y & Hy & Ey); [by apply elem_of_nil in Hy|]. cbn [each].
  destruct (Hf x ltac:(by left)) as [E|[c E]].
  - unfold mbind, M_bind, fbind. by rewrite E.
  - rewrite (bind_done _ _ _ _ _ E). unfold mbind, M_bind, fbind. rewrite IH; [done | |].
    + intros z Hz. apply Hf. by right.
    + exists y. split; [|done]. apply elem_of_cons in Hy as [->|Hy]; [by rewrite E in Ey | done].
Qed.

(** A symbolic link together with a file that has no path. *)
Lemma vec_setattrs_undefined attrs (s : state) :
  good s -> (List.length attrs < bound)%nat ->
  (forall a, a ∈ attrs -> is_path a -> fits (attr_name a)) ->
  (exists a, a ∈ attrs /\ is_path a /\ is_link (attr_name a) = true) ->
  (exists a, a ∈ attrs /\ type (attr_file a) <> VFILE_PATH) ->
  vec_setattrs nfs posix clock true junk_text junk_attrs attrs s = Abort.
Proof.
  intros Hs Hl Hf (a & Ha & Hpa & Hla) (a' & Ha' & Ht). unfold vec_setattrs.
  change (map (fun a => mk_sym _ Indeterminate) attrs) with (map set_sym attrs).
  destruct (resolve_symlinks_spec (map set_sym attrs) s) as (r & s1 & E & Hr & Hs1).
  { done. } { by rewrite length_map. }
  { intros y p (x & -> & Hx)%list_elem_of_fmap Hq. unfold set_sym in Hq. cbn in Hq.
    case_bool_decide as Ety; [|done].
    replace p with (attr_name x) by (unfold attr_name; by rewrite Hq).
    apply Hf; [done|]. split; [done | by eexists]. }
  rewrite (bind_done _ _ _ _ _ E). cbv beta iota. rewrite Hr. cbn [negb].
  assert (any_link (map set_sym attrs) = true) as ->.
  { apply existsb_exists. exists (set_sym a). split; [by apply in_map, list_elem_of_In|].
    rewrite set_sym_path by done. exact Hla. }
  cbn [negb]. unfold mbind at 1, M_bind at 1, fbind. unfold with_targets. rewrite each_stops; [done | |].
  - intros [x y] _. cbn [fst snd]. destruct (target_path y) eqn:Ey; cbn.
    + left. reflexivity.
    + right. eexists. reflexivity.
    + right. eexists. reflexivity.
  - exists (a', resolved (set_sym a')). split.
    + rewrite map_map. rewrite <- (map_id attrs) at 1. rewrite zip_maps.
      apply list_elem_of_fmap. by exists a'.
    + unfold set_sym, resolved. cbn. rewrite bool_decide_eq_false_2 by done. reflexivity.
Qed.

(** ** Getting attributes *)

Lemma put_files_positions {A} (f : A -> bool) (h : A -> vfile) pre l0 l :
  List.length l0 = List.length l ->
  put_files (pre ++ l) (map fst (positions f (List.length pre) l0))
    (map (fun x => h x.2) (positions f (List.length pre) l0))
  = pre ++ zip_with (fun x a => if f x then Nfs4.with_attr_file a (h x) else a) l0 l.
Proof.
  revert pre l. induction l0 as [|x l0 IH]; intros pre [|a l] Hlen; try done.
  injection Hlen as Hlen. cbn [positions zip_with].
  specialize (IH (pre ++ [if f x then Nfs4.with_attr_file a (h x) else a]) l Hlen).
  rewrite length_app, Nat.add_1_r, <- !app_assoc in IH. cbn [app] in IH.
  destruct (f x); [|exact IH]. rewrite <- IH. unfold put_files. cbn [map zip zip_with foldl fst snd].
  f_equal. by rewrite alter_app_r_alt, Nat.sub_diag by lia.
Qed.

Lemma zip_with_map_r {A B C} (f : A -> B -> C) g l : zip_with f l (map g l) = map (fun x => f x (g x)) l.
Proof. induction l as [|x l IH]; [done|]. simpl. by rewrite IH. Qed.

Lemma restore_answer a : restore_mode a (answer srv (want_mode a)) = answer srv a.
Proof. by destruct a as [f [[] ? ? ? ? ? ? ? ? ? ?] []]. Qed.

Lemma select_twice mk x y v : select mk x (select mk y v) = select mk x v.
Proof.
  unfold select. cbn. f_equal; match goal with |- context [if ?c then _ else _] => by destruct c end.
Qed.

Lemma answer_twice a : answer srv (answer srv a) = answer srv a.
Proof. unfold answer at 1. cbn. by rewrite select_twice. Qed.

(** The attributes [a] asks for, those of the file [q]. *)
Definition answer_as (q : text) (a : vattrs) : vattrs :=
  mk_attrs (attr_file a) (masks a) (select (masks a) (srv q) (vals a)).

Lemma answer_again q a :
  Nfs4.with_attr_file (answer srv (Nfs4.with_attr_file (answer srv a) (vfile_from_path q))) (attr_file a)
  = answer_as q a.
Proof.
  unfold Nfs4.with_attr_file, answer, answer_as. cbn. by rewrite select_twice.
Qed.

Definition attr_link (a : vattrs) : bool := is_link (attr_name a).

(** The file whose attributes are meant by [a]. *)
Definition meant (a : vattrs) : vattrs :=
  if attr_link a then answer_as (link (attr_name a)) a else answer srv a.

(** The files are put back after the second call. *)
Lemma files_back n attrs :
  let sent x := if attr_link x then Nfs4.with_attr_file (answer srv x) (vfile_from_path (link (attr_name x)))
                else answer srv x in
  zip_with (fun x a => if attr_link x then Nfs4.with_attr_file a (attr_file x) else a) attrs
    (map (fun x => answer srv (sent x)) (take n attrs) ++ map sent (drop n attrs))
  = map meant (take n attrs) ++ map (answer srv) (drop n attrs).
Proof.
  intros sent. rewrite <- (take_drop n attrs) at 1.
  rewrite zip_with_app by (by rewrite length_map). rewrite !zip_with_map_r.
  f_equal; apply map_ext; intros a; unfold sent, meant; destruct (attr_link a); try done.
  - apply answer_again.
  - apply answer_twice.
Qed.

Lemma vec_getattrs_spec attrs (s : state) :
  good s -> (List.length attrs < bound)%nat -> attrs <> [] -> Forall is_path attrs ->
  let n := List.length (List.filter attr_link attrs) in
  exists r s', vec_getattrs nfs posix clock true junk_text attrs s
    = done (r, map meant (take n attrs) ++ map (answer srv) (drop n attrs), s')
  /\ vokay r = true /\ good s'.
Proof.
  intros Hs Hb Hne Hp n. unfold vec_getattrs.
  destruct (vec_lgetattrs_spec (map want_mode attrs) s) as (r & s1 & E1 & Hr & Hs1);
    [done | by destruct attrs | by apply Forall_map | by rewrite length_map |].
  rewrite (bind_done _ _ _ _ _ E1). cbv beta iota. rewrite map_map.
  rewrite links_of_positions, positions_map, !map_map.
  change (fun x : vattrs => S_ISLNK (mode (vals (answer srv (want_mode x))))) with attr_link.
  set (pos := positions attr_link 0 attrs). cbn [fst snd].
  pose proof (positions_snd attr_link 0 attrs) as Hsnd. fold pos in Hsnd.
  assert (List.length pos = n) as Hn by (unfold n; by rewrite <- Hsnd, length_map).
  assert (forall x, x ∈ pos -> attrs !! x.1 = Some x.2) as Hpos.
  { intros [i a] (_ & Ha & _)%positions_elem. by rewrite Nat.sub_0_r in Ha. }
  assert (Forall (fun x => path (attr_file x.2) = Some (attr_name x.2)) pos) as Hnames.
  { apply Forall_forall. intros x Hx%Hpos%list_elem_of_lookup_2. rewrite Forall_forall in Hp.
    destruct (Hp _ Hx) as [_ [q Hq]]. unfold attr_name. by rewrite Hq. }
  rewrite zip_with_map_r, (map_ext _ _ restore_answer), !length_map, Hn, Hr.
  erewrite bind_done; [|unfold check; rewrite (proj2 (forallb_forall _ _)); [reflexivity|]].
  2: { intros a (x & <- & Hx%list_elem_of_In)%in_map_iff. rewrite Forall_forall in Hp.
       destruct (Hp x Hx) as [Ht _]. cbn. rewrite bool_decide_eq_true_2 by done. by destruct (S_ISLNK _). }
  destruct (n =? 0)%nat eqn:En; cbn [negb orb].
  { exists r, s1. split_and!; [|done..]. apply Nat.eqb_eq in En. by rewrite En, drop_0. }
  apply Nat.eqb_neq in En.
  rewrite (bind_done _ _ _ tt s1) by done.
  erewrite bind_done.
  2: { apply (each_map _ _ (fun x => attr_name x.2)). intros x Hx. rewrite Forall_forall in Hnames.
       cbn. by rewrite Hnames. }
  destruct (vec_readlink_spec (map (fun x => attr_name x.2) pos) (replicate n junk_text) s1)
    as (r2 & s2 & E2 & Hr2 & Hs2); [done | by destruct pos | by rewrite length_replicate, length_map | |].
  { rewrite length_map, Hn. unfold n. pose proof (List.filter_length_le attr_link attrs). lia. }
  rewrite (bind_done _ _ _ _ _ E2). cbv beta iota. rewrite Hr2. cbn [negb].
  erewrite bind_done.
  2: { apply (each_map _ _ (fun x => attr_file x.2)). intros x Hx. rewrite list_lookup_fmap, Hpos by done. done. }
  rewrite !map_map.
  assert (forall h l, List.length attrs = List.length l ->
    put_files l (map (fun x => x.1) pos) (map (fun x => h x.2) pos)
    = zip_with (fun x a => if attr_link x then Nfs4.with_attr_file a (h x) else a) attrs l) as Hput.
  { intros h l Hlen. by apply (put_files_positions attr_link h [] attrs l). }
  rewrite (Hput (fun a => vfile_from_path (link (attr_name a)))) by (by rewrite length_map).
  rewrite zip_with_map_r. set (sent := fun x => if attr_link x then _ else _).
  rewrite firstn_map, skipn_map.
  assert (n <= List.length attrs)%nat as Hle by apply List.filter_length_le.
  destruct (vec_lgetattrs_spec (map sent (take n attrs)) s2) as (r3 & s3 & E3 & Hr3 & Hs3).
  { done. } { destruct attrs, n; done. }
  { apply Forall_map, Forall_take. eapply Forall_impl; [exact Hp|]. intros a Ha. unfold sent.
    destruct (attr_link a); [split; [done | by eexists] | exact Ha]. }
  { rewrite length_map, length_take. lia. }
  rewrite (bind_done _ _ _ _ _ E3). cbv beta iota. rewrite Hr3. cbn [negb].
  rewrite (bind_done _ _ _ r3 s3) by done.
  exists r3, s3. split_and!; [|done..].
  rewrite Hput by (rewrite length_app, !length_map, length_take, length_drop; lia).
  rewrite map_map, files_back by done. done.
Qed.

(** ** Following links one after the other *)

Definition dots : text := [PathSpec.DOT; PathSpec.DOT].

(** The path [sca_stat] goes to from the link [p]. *)
Definition next (p : text) : text := PathSpec.normal_form (foldl Paths.append_text p [dots; link p]).

(** The texts fit the buffers. *)
Definition room (p : text) : Prop :=
  p <> [] /\ plain p /\ plain (link p) /\ (List.length p + List.length (link p) + 4 < PATH_MAX)%nat.

(** It is the parent of [p] and the text of the link after it. *)
Lemma next_leads cwd p : p <> [] ->
  PathSpec.resolve cwd (next p)
  = PathSpec.walks (removelast (PathSpec.resolve cwd p)) (PathSpec.split_slash (link p)).
Proof.
  intros Hp. unfold next. rewrite PathSpec.resolve_normal_form. cbn [foldl].
  rewrite Paths.resolve_append_text by (by destruct p).
  by rewrite Paths.resolve_append_text by done.
Qed.

(** The memory of the loop: the current path is the string [cur] at [p]. *)
Record stat_ok (p0 m : text) (p : nat) (cur : text) : Prop := {
  so_len : List.length m = (target_at p0 + PATH_MAX)%nat;
  so_where : (p = 0 /\ cur = p0)%nat \/ p = target_at p0;
  so_cur : Paths.cstr m p cur;
  so_dots : Paths.cstr m (dots_at p0) dots
}.

Lemma stat_mem_ok p0 : plain p0 -> stat_ok p0 (stat_mem junk_text p0) 0 p0.
Proof.
  intros Hp. split.
  - unfold stat_mem, target_at, linkbuf_at. rewrite !length_app, length_new_area. cbn [List.length]. lia.
  - by left.
  - by apply (Paths.cstr_middle [] p0).
  - unfold stat_mem. generalize (new_area junk_text). intros l.
    replace (p0 ++ _) with ((p0 ++ [Buf.NUL]) ++ dots ++ Buf.NUL :: l ++ l) by (by rewrite <- app_assoc).
    replace (dots_at p0) with (List.length (p0 ++ [Buf.NUL])) by (by rewrite length_app).
    apply Paths.cstr_middle. by apply (bool_decide_unpack _).
Qed.

(** A string copied into memory. *)
Lemma memmove_cstr m a w :
  (a + List.length w < List.length m)%nat -> plain w ->
  Paths.cstr (Buf.memmove m a (w ++ [Buf.NUL])) a w
  /\ forall x, (x < a \/ a + List.length w < x)%nat -> Buf.memmove m a (w ++ [Buf.NUL]) !! x = m !! x.
Proof.
  intros Hl Hp.
  assert (a + List.length (w ++ [Buf.NUL]) <= List.length m)%nat as Hl' by (rewrite length_app; simpl; lia).
  split.
  - split; [|done]. intros i c Hi. rewrite Buf.lookup_memmove by done.
    pose proof (lookup_lt_Some _ _ _ Hi). rewrite decide_True by lia. by rewrite <- Hi; f_equal; lia.
  - intros x Hx. rewrite Buf.lookup_memmove by done. rewrite length_app. simpl. by rewrite decide_False by lia.
Qed.

(** One round: the join, in place from the second round on. *)
Lemma stat_join p0 m p cur :
  room cur -> (List.length p0 < PATH_MAX)%nat -> stat_ok p0 m p cur ->
  let m1 := Buf.memmove m (linkbuf_at p0) (take PATH_MAX (link cur ++ [Buf.NUL])) in
  exists n m2, Paths.tc_path_joinall_impl m1 (target_at p0) PATH_MAX
      [Buf.PMem p; Buf.PMem (dots_at p0); Buf.PMem (linkbuf_at p0)] = Ok (n, m2)
  /\ stat_ok p0 m2 (target_at p0) (next cur).
Proof.
  intros (Hne & Hpc & Hpl & Hlen) Hp0 [Hm Hw Hc Hd] m1. pose proof PATH_MAX_large as Hlarge.
  assert (take PATH_MAX (link cur ++ [Buf.NUL]) = link cur ++ [Buf.NUL]) as Et
    by (apply take_ge; rewrite length_app; simpl; lia).
  unfold m1. rewrite Et. clear m1.
  assert (dots_at p0 + 3 = linkbuf_at p0)%nat as Ha1 by (unfold dots_at, linkbuf_at; lia).
  assert (linkbuf_at p0 + PATH_MAX = target_at p0)%nat as Ha2 by done.
  assert (List.length p0 < dots_at p0)%nat as Ha3 by (unfold dots_at; lia).
  destruct (memmove_cstr m (linkbuf_at p0) (link cur)) as [Hl Hf]; [lia | done |].
  set (m1 := Buf.memmove m _ _) in *.
  assert (List.length m1 = List.length m) as Hm1 by apply Buf.length_memmove.
  assert (Paths.cstr m1 (dots_at p0) dots) as Hd1.
  { eapply Paths.cstr_frame; [exact Hd|]. intros i Hi. cbn in Hi. apply Hf. lia. }
  assert (Paths.cstr m1 p cur) as Hc1.
  { eapply Paths.cstr_frame; [exact Hc|]. intros i Hi. apply Hf. destruct Hw as [[-> ->]| ->]; lia. }
  set (t := foldl Paths.append_text cur [dots; link cur]).
  assert (List.length t < PATH_MAX)%nat as Ht.
  { unfold t. cbn [foldl]. rewrite !Paths.append_text_length. cbn [dots List.length].
    repeat case_match; cbn [List.length] in *; lia. }
  assert (Paths.args m1 [Buf.PMem (dots_at p0); Buf.PMem (linkbuf_at p0)] [dots; link cur] (target_at p0) PATH_MAX)
    as Hargs.
  { repeat constructor; eexists; (split_and!; [done | done | left; cbn; lia]). }
  assert (exists m2, Paths.tc_path_joinall_impl m1 (target_at p0) PATH_MAX
      [Buf.PMem p; Buf.PMem (dots_at p0); Buf.PMem (linkbuf_at p0)]
      = Ok (Z.of_nat (List.length (PathSpec.normal_form t)), m2) /\
    Paths.cstr m2 (target_at p0) (PathSpec.normal_form t) /\ List.length m2 = List.length m1 /\
    (forall x, (x < target_at p0 \/ target_at p0 + PATH_MAX <= x)%nat -> m2 !! x = m1 !! x))
    as (m2 & E & Hc2 & Hl2 & Hf2).
  { destruct Hw as [[-> ->]| ->].
    - assert (foldl Paths.append_text [] [p0; dots; link p0] = t) as <- by (destruct p0; [done | done]).
      apply Paths.joinall_spec; [|lia | done | done | lia | by rewrite PATH_MAX_same].
      constructor; [|done]. eexists. split_and!; [done | done | left; lia].
    - apply Paths.joinall_inplace; [done | done | lia | done | lia | done | lia | by rewrite PATH_MAX_same]. }
  exists (Z.of_nat (List.length (PathSpec.normal_form t))), m2. split; [exact E|]. split; [lia | by right | done |].
  eapply Paths.cstr_frame; [exact Hd1|]. intros i Hi. cbn in Hi. apply Hf2. lia.
Qed.

(** [n] links lead from [p] to the file [q]. *)
Inductive chain : nat -> text -> text -> Prop :=
  | chain_end q : is_link q = false -> chain 0 q q
  | chain_link n p q : is_link p = true -> room p -> chain n (next p) q -> chain (Datatypes.S n) p q.

Lemma chain_cases n p q : chain n p q ->
  match n with
  | O => p = q /\ is_link p = false
  | Datatypes.S n => is_link p = true /\ room p /\ chain n (next p) q
  end.
Proof. by destruct 1. Qed.

(** A round of the loop on a link. *)
Lemma stat_round fuel p0 m p cur tca (s : state) :
  good s -> (1 < bound)%nat -> room cur -> is_link cur = true -> (List.length p0 < PATH_MAX)%nat ->
  stat_ok p0 m p cur -> mode (vals tca) = mode (srv cur) -> masks tca = VMASK_INIT_ALL ->
  type (attr_file tca) = VFILE_PATH ->
  exists m' tca' s', good s' /\ stat_ok p0 m' (target_at p0) (next cur)
  /\ vals tca' = srv (next cur) /\ masks tca' = VMASK_INIT_ALL /\ type (attr_file tca') = VFILE_PATH
  /\ stat_loop nfs posix clock (Datatypes.S fuel) p0 m p tca s
      = stat_loop nfs posix clock fuel p0 m' (target_at p0) tca' s'.
Proof.
  intros Hs Hb Hroom Hlk Hp0 Hok Hmode Hmk Hty. cbn [stat_loop]. rewrite Hmode.
  change (S_ISLNK (mode (srv cur))) with (is_link cur). rewrite Hlk. cbn [negb].
  destruct (stat_join p0 m p cur Hroom Hp0 Hok) as (n & m2 & Ej & Hok2).
  assert (c_string m (Buf.PMem p) = cur) as -> by (apply Paths.cstr_text, Hok).
  destruct (vec_readlink_spec [cur] [c_string m (Buf.PMem (linkbuf_at p0))] s) as (r & s1 & E1 & Hr & Hs1);
    [done.. |].
  assert (sca_readlink nfs posix clock cur (c_string m (Buf.PMem (linkbuf_at p0))) s = done (0, link cur, s1)) as E1'.
  { unfold sca_readlink. rewrite (bind_done _ _ _ _ _ E1). cbv beta iota. cbn [map head].
    apply Z.eqb_eq in Hr. rewrite (bind_done _ _ _ (link cur) s1) by done. by rewrite Hr. }
  rewrite (bind_done _ _ _ _ _ E1'). cbv beta iota. cbn [Z.eqb negb].
  erewrite bind_done; [|unfold run; rewrite Ej; reflexivity]. cbv beta iota.
  assert (c_string m2 (Buf.PMem (target_at p0)) = next cur) as -> by (apply Paths.cstr_text, Hok2).
  set (tca1 := set_attr_path tca (Some (next cur))).
  destruct (vec_lgetattrs_spec [tca1] s1) as (r2 & s2 & E2 & Hr2 & Hs2); [done | done | | done |].
  { constructor; [|done]. split; [done | by eexists]. }
  rewrite (bind_done _ _ _ _ _ E2). cbv beta iota. cbn [map head].
  rewrite (bind_done _ _ _ (answer srv tca1) s2) by done. rewrite Hr2. cbn [negb].
  exists m2, (answer srv tca1), s2. split_and!; try done.
  unfold answer. change (masks tca1) with (masks tca). rewrite Hmk. cbn [vals]. by rewrite select_all.
Qed.

Lemma stat_chain n fuel p0 m p cur q tca (s : state) :
  chain n cur q -> (n <= fuel)%nat -> good s -> (1 < bound)%nat -> (List.length p0 < PATH_MAX)%nat ->
  stat_ok p0 m p cur -> vals tca = srv cur -> masks tca = VMASK_INIT_ALL -> type (attr_file tca) = VFILE_PATH ->
  exists tca' s', stat_loop nfs posix clock fuel p0 m p tca s = done (0, tca', s')
  /\ vals tca' = srv q /\ masks tca' = VMASK_INIT_ALL /\ good s'.
Proof.
  revert fuel m p cur tca s.
  induction n as [|n IH]; intros fuel m p cur tca s Hc Hf Hs Hb Hp0 Hok Hv Hmk Hty;
    apply chain_cases in Hc; cbv beta iota in Hc.
  - destruct Hc as [-> Hlk]. exists tca, s. split_and!; [|done..].
    unfold is_link in Hlk. destruct fuel; cbn [stat_loop]; rewrite Hv, Hlk; done.
  - destruct Hc as (Hlk & Hroom & Hc). destruct fuel as [|fuel]; [lia|].
    destruct (stat_round fuel p0 m p cur tca s) as (m' & tca' & s' & Hs' & Hok' & Hv' & Hmk' & Hty' & ->);
      try done; [by rewrite Hv|].
    apply (IH fuel m' (target_at p0) (next cur)); try done. lia.
Qed.

Lemma stat_loops fuel p0 m p cur tca (s : state) :
  (forall k, is_link (Nat.iter k next cur) = true /\ room (Nat.iter k next cur)) ->
  good s -> (1 < bound)%nat -> (List.length p0 < PATH_MAX)%nat ->
  stat_ok p0 m p cur -> vals tca = srv cur -> masks tca = VMASK_INIT_ALL -> type (attr_file tca) = VFILE_PATH ->
  stat_loop nfs posix clock fuel p0 m p tca s = Ok None.
Proof.
  revert m p cur tca s.
  induction fuel as [|fuel IH]; intros m p cur tca s Hall Hs Hb Hp0 Hok Hv Hmk Hty;
    destruct (Hall 0%nat) as [Hlk Hroom]; cbn in Hlk, Hroom.
  - unfold is_link in Hlk. cbn [stat_loop]. by rewrite Hv, Hlk.
  - destruct (stat_round fuel p0 m p cur tca s) as (m' & tca' & s' & Hs' & Hok' & Hv' & Hmk' & Hty' & ->);
      try done; [by rewrite Hv|].
    apply (IH m' (target_at p0) (next cur)); try done.
    intros k. specialize (Hall (Datatypes.S k)). by rewrite Nat.iter_succ_r in Hall.
Qed.

(** The first call of [sca_stat_impl], and the loop it starts. *)
Lemma stat_start fuel p buf (s : state) :
  good s -> (1 < bound)%nat -> plain p ->
  exists s1 tca, good s1 /\ vals tca = srv p /\ masks tca = VMASK_INIT_ALL /\ type (attr_file tca) = VFILE_PATH
  /\ sca_stat nfs posix clock junk_text fuel p buf s
      = if is_link p
        then ('(ret, tca) ← stat_loop nfs posix clock fuel p (stat_mem junk_text p) 0 tca;
              mret (ret, if ret =? 0 then vattrs2stat tca buf else buf)) s1
        else done (0, srv p, s1).
Proof.
  intros Hs Hb Hp. unfold sca_stat, sca_stat_impl.
  set (a := mk_attrs (vfile_from_path p) VMASK_INIT_ALL (vals zero_attrs)).
  destruct (vec_lgetattrs_spec [a] s) as (r & s1 & E & Hr & Hs1); [done | done | | done |].
  { constructor; [|done]. split; [done | by eexists]. }
  assert (vals (answer srv a) = srv p) as Hv by (unfold answer; cbn; by rewrite select_all).
  exists s1, (answer srv a). split_and!; try done.
  rewrite (bind_done _ _ _ _ _ E). cbv beta iota. cbn [map head].
  rewrite (bind_done _ _ _ (answer srv a) s1) by done. rewrite Hr, Hv. cbn [negb orb].
  change (S_ISLNK (mode (srv p))) with (is_link p). destruct (is_link p); cbn [negb].
  - rewrite (bind_done _ _ _ tt s1) by done. by rewrite (bind_done _ _ _ p s1) by done.
  - unfold vattrs2stat. rewrite Hv. cbn. by rewrite select_all.
Qed.

End follow.

(** ** The promise of the NFSv4 layer *)

Section nfs_links.
Context (srv : text -> avals) (link : text -> text).

(** The server reads a non-empty prefix of the links asked for. *)
Class LinkTexts {W} (o : Nfs4.obj_ops W) : Prop :=
  texts : forall ps bufs w, ps <> [] -> List.length bufs = List.length ps ->
    exists n w', (0 < n <= List.length ps)%nat
    /\ Nfs4.vec_readlink o ps bufs w = (mk_vres (Z.of_nat n) 0, map link (take n ps) ++ drop n bufs, w').

Lemma drive_texts {W} (o : Nfs4.obj_ops W) `{!LinkTexts o} ps bufs : List.length bufs = List.length ps ->
  forall fuel f r0 w, (List.length ps - f < fuel)%nat -> (f <= List.length ps)%nat ->
  (f < List.length ps)%nat \/ vokay r0 = true ->
  exists r w', Nfs4.drive fuel (fun finished n (x : list text * W) =>
      let '(bufs, w) := x in
      let '(r, bufs', w) := Nfs4.vec_readlink o (Nfs4.slice_of finished n ps) (Nfs4.slice_of finished n bufs) w in
      (r, (Nfs4.put_slice finished n bufs bufs', w))) (List.length ps) f r0
      (map link (take f ps) ++ drop f bufs, w)
    = done (r, (map link ps, w')) /\ vokay r = true.
Proof.
  intros Hlen. induction fuel as [|fuel IH]; intros f r0 w Hf Hle Hr0; [lia|]. cbn [Nfs4.drive].
  destruct (f <? List.length ps)%nat eqn:E.
  - apply Nat.ltb_lt in E. unfold Nfs4.slice_of, Nfs4.put_slice.
    assert (List.length (map link (take f ps)) = f) as Hlt by (rewrite length_map, length_take; lia).
    rewrite !take_ge by (rewrite ?length_drop, ?length_app, ?Hlt, ?length_drop; lia).
    rewrite drop_app_length' by done.
    destruct (texts (drop f ps) (drop f bufs) w) as (n & w' & Hn & ->).
    { intros H%(f_equal List.length). rewrite length_drop in H. cbn in H. lia. }
    { rewrite !length_drop. lia. }
    rewrite length_drop in Hn. cbn [vokay err_no Z.eqb index].
    rewrite Nat2Z.id. destruct (IH (f + n)%nat (mk_vres (Z.of_nat n) 0) w') as (r & w'' & Er & Hr); [lia | lia | by right |].
    exists r, w''. split; [|done]. rewrite <- Er. f_equal. f_equal.
    rewrite take_app_length' by done.
    rewrite (drop_ge (map link (take f ps) ++ drop f bufs)) by (rewrite length_app, Hlt, length_drop; lia).
    rewrite app_nil_r, drop_drop, app_assoc, <- map_app, <- take_plus. done.
  - apply Nat.ltb_ge in E. exists r0, w. split; [|destruct Hr0; [lia | done]].
    rewrite take_ge, drop_ge by lia. by rewrite app_nil_r.
Qed.

Context {CM CD W : Type} `{Cache.PocoLaws CM nat} `{Cache.Poco CD Cache.DataBlock} `{Memory W}.
Context (block_size now : Z) (junk_stat : avals) (junk_time : nat -> Z).
Context (o : Nfs4.obj_ops W) (detects : bool) (malloc_ok : nat -> bool).
Context (fuel : nat) (junk : Z) (junk_res : vres) (junk_attrs : vattrs) (euid egid : Z).
Context `{!AttrServer srv o} `{!LinkTexts o}.

(** The layer with its metadata cache, over a server that answers, answers for fewer files
    than its loops have rounds, as long as the cache is coherent. *)
#[export] Instance nfs_link_server :
  LinkServer srv link
    (nfs_backend block_size now junk_stat junk_time (Some o) detects malloc_ok fuel junk junk_res
       junk_attrs true euid egid)
    (coherent_md srv now : cstate CM CD W -> Prop) fuel.
Proof.
  split.
  - intros attrs s Hs _ Hp Hl. by apply lgetattrsv_spec.
  - intros paths bufs s Hs Hne Hl Hb. cbn [readlinkv nfs_backend].
    unfold nfs_readlinkv, pass, below, Nfs4.nfs4_readlinkv. cbn [Nfs4.with_export].
    destruct paths as [|p0 paths0] eqn:Ep; [done|]. rewrite <- Ep in *.
    assert (exists r w', Nfs4.drive fuel (fun finished n (x : list text * W) =>
      let '(bufs, w) := x in
      let '(r, bufs', w) := Nfs4.vec_readlink o (Nfs4.slice_of finished n paths) (Nfs4.slice_of finished n bufs) w in
      (r, (Nfs4.put_slice finished n bufs bufs', w))) (List.length paths) 0 junk_res (bufs, world s)
      = done (r, (map link paths, w')) /\ vokay r = true) as (r & w' & E & Hr).
    { apply (drive_texts o paths bufs Hl fuel 0 junk_res); [lia | lia |]. left. subst. cbn. lia. }
    rewrite E. unfold fbind, done. cbn [obind].
    eexists r, _. split_and!; [reflexivity | done |]. exact Hs.
Qed.

End nfs_links.

(** ** The counters *)

Section counters.
Context {S : Type} (nfs posix : backend S) (clock : nat -> Z).
Notation state := (tcstate S).

(** The fields are in range, and failures are calls, unless the number of calls has wrapped
    around; [n] is twice the number of calls of all functions. *)
Definition counter_ok (n : nat) (c : tc_func_counter) : Prop :=
  0 <= calls c < 2 ^ 32 /\ 0 <= failures c < 2 ^ 32 /\ 0 <= micro_ops c < 2 ^ 64
  /\ 0 <= time_ns c < 2 ^ 64
  /\ (Z.of_nat n < 2 ^ 32 -> failures c <= calls c <= Z.of_nat n).

(** The list has the registered counters, and every counter is in range. *)
Definition counters_ok (s : state) : Prop :=
  (exists fs, list_ok (tc_counters s) fs) /\ forall f, counter_ok (ticks s) (counter_of (tc_counters s) f).

Lemma register_counter f l g : counter_of (tc_register_counter f l) g = counter_of l g
  \/ calls (counter_of (tc_register_counter f l) g) = calls (counter_of l g)
     /\ failures (counter_of (tc_register_counter f l) g) = failures (counter_of l g)
     /\ micro_ops (counter_of (tc_register_counter f l) g) = micro_ops (counter_of l g)
     /\ time_ns (counter_of (tc_register_counter f l) g) = time_ns (counter_of l g).
Proof.
  unfold tc_register_counter. destruct (registered _); [by left|]. right. cbn. by case_bool_decide.
Qed.

Lemma counter_later n c : counter_ok n c -> counter_ok (n + 2) c.
Proof. unfold counter_ok. lia. Qed.

(** A call that starts and ends. *)
Lemma call_ok n c (ok : bool) ops ns :
  counter_ok n c -> counter_ok (n + 2) ((if ok then add_success ops ns else add_failure) (add_call c)).
Proof.
  intros (Hc & Hf & Hm & Ht & Hle). unfold counter_ok.
  pose proof (u32_range (calls c + 1)). pose proof (u32_range (failures c + 1)).
  destruct ok; cbn [add_success add_failure add_call calls failures micro_ops time_ns].
  - pose proof (u64_range (micro_ops c + ops)). pose proof (u64_range (time_ns c + ns)).
    split_and!; try lia. intros Hn. rewrite u32_small by lia. lia.
  - split_and!; try lia. intros Hn. rewrite !u32_small by lia. lia.
Qed.

(** A computation that leaves the counters alone. *)
Definition frames {A} (c : M state A) : Prop := forall s a s', c s = done (a, s') ->
  tc_counters s' = tc_counters s /\ ticks s' = ticks s.

Lemma frames_ret {A} (a : A) : frames (mret a).
Proof. intros s a' s' E. unfold mret, M_ret, done in E. by simplify_eq. Qed.

Lemma frames_bind {A B} (c : M state A) (k : A -> M state B) :
  frames c -> (forall a, frames (k a)) -> frames (c ≫= k).
Proof.
  intros Hc Hk s b s' E. apply bind_inv in E as (a & s1 & E1 & E2).
  destruct (Hc _ _ _ E1), (Hk _ _ _ _ E2). split; congruence.
Qed.

Lemma frames_lift {A} (c : M S A) : frames (lift c).
Proof.
  intros s a s' E. unfold lift, fbind, done in E. destruct (c (lower s)) as [[[a' x]|]| |]; try done.
  cbn in E. by simplify_eq.
Qed.

Lemma frames_check c : frames (check c).
Proof. intros s a s' E. unfold check, done in E. destruct c; [|done]. cbn in E. by simplify_eq. Qed.

Lemma frames_dispatch {A} (c : backend S -> M S A) : frames (dispatch nfs posix c).
Proof.
  apply frames_bind; [|intros; apply frames_lift].
  intros s a s' E. unfold is_nfs4, done in E. by simplify_eq.
Qed.

(** The calls between start and stop. *)
Definition bracket {A} (f : func) (count : Z) (succeed : A -> bool) (body : M state A) : M state A :=
  t ← TC_START_COUNTER clock f;
  a ← body;
  _ ← TC_STOP_COUNTER clock f t count (succeed a);
  mret a.

Lemma keeps_bracket {A} f count (succeed : A -> bool) body :
  frames body -> keeps counters_ok (bracket f count succeed body).
Proof.
  intros Hb s [[fs Hn] Hc] a s' E. unfold bracket in E.
  apply bind_inv in E as (t & s1 & E1 & E). apply bind_inv in E as (a1 & s2 & E2 & E).
  apply bind_inv in E as (u & s3 & E3 & E).
  unfold TC_START_COUNTER, TC_STOP_COUNTER, read_clock, on_counters, mbind, M_bind, mret, M_ret, fbind, done in *.
  cbn -[update_counter] in *. simplify_eq. destruct (Hb _ _ _ E2) as [Hl Ht].
  cbn -[update_counter] in Hl, Ht. unfold counters_ok. cbn -[update_counter]. rewrite Hl, Ht. split.
  - exists fs. apply list_ok_update; [by destruct (succeed a)|]. by apply list_ok_update.
  - intros g. replace (Datatypes.S (Datatypes.S (ticks s))) with (ticks s + 2)%nat by lia. specialize (Hc g).
    rewrite !counter_update. case_bool_decide; [by apply call_ok | by apply counter_later].
Qed.

Lemma keeps_declare f : keeps counters_ok (TC_DECLARE_COUNTER (S := S) f).
Proof.
  intros s [[fs Hn] Hc] a s' E. unfold TC_DECLARE_COUNTER, on_counters, done in E. simplify_eq.
  unfold counters_ok. cbn -[tc_register_counter]. split; [eexists; by apply register_list_ok|]. intros g. specialize (Hc g).
  destruct (register_counter f (tc_counters s) g) as [->|(E1 & E2 & E3 & E4)]; [done|].
  unfold counter_ok in *. by rewrite E1, E2, E3, E4.
Qed.

Lemma keeps_frames {A} (c : M state A) : frames c -> keeps counters_ok c.
Proof. intros Hf s [Hn Hc] a s' E. destruct (Hf _ _ _ E) as [Hl Ht]. unfold counters_ok. by rewrite Hl, Ht. Qed.

Lemma keeps_counted {A} f n (ok : A -> bool) c : keeps counters_ok (counted nfs posix clock f n ok c).
Proof.
  apply keeps_bind; [apply keeps_declare | intros _].
  apply (keeps_bracket f (Z.of_nat n) ok), frames_dispatch.
Qed.

Lemma keeps_run {A} (x : outcome A) : keeps counters_ok (run x).
Proof. intros s Hs a s' E. unfold run, done in E. destruct x; try done. cbn in E. by simplify_eq. Qed.

Lemma keeps_nfs4 : keeps counters_ok (is_nfs4 (S := S)).
Proof. intros s Hs a s' E. unfold is_nfs4, done in E. by simplify_eq. Qed.

Lemma keeps_item {A} (l : list A) i : keeps counters_ok (item l i).
Proof. unfold item. keeps. Qed.

Lemma keeps_non_null p : keeps counters_ok (non_null (S := state) p).
Proof. destruct p; cbn; keeps. Qed.

Lemma keeps_lift {A} (c : M S A) : keeps counters_ok (lift c).
Proof. apply keeps_frames, frames_lift. Qed.

#[local] Hint Resolve keeps_declare keeps_counted keeps_run keeps_nfs4 keeps_item keeps_non_null keeps_lift : keeps.
Lemma keeps_vec_read reads : keeps counters_ok (vec_read nfs posix clock reads).
Proof.
  unfold vec_read. apply keeps_bind; [apply keeps_declare | intros _].
  destruct (first_creation 0 reads) as [i|].
  - intros s Hs a s' E.
    apply (keeps_bracket f_read (Z.of_nat (List.length reads)) okay (mret (vfailure i EINVAL, reads))
             (frames_ret _) s Hs a s').
    rewrite <- E. reflexivity.
  - apply (keeps_bracket f_read (Z.of_nat (List.length reads)) okay (dispatch nfs posix (fun l => readv l reads))).
    apply frames_dispatch.
Qed.

Lemma keeps_vec_read_write l : keeps counters_ok (vec_read_write nfs posix clock l).
Proof.
  unfold vec_read_write. apply keeps_bind; [apply keeps_declare | intros _].
  intros s Hs a s' E.
  refine (keeps_bracket f_read_write (Z.of_nat (List.length l)) okay
            (b ← is_nfs4; lift (if b : bool then read_writev nfs l else writev posix l)) _ s Hs a s' _).
  - apply frames_bind; [|intros; apply frames_lift].
    intros s1 a1 s1' E1. unfold is_nfs4, done in E1. by simplify_eq.
  - rewrite <- E. unfold bracket, mbind, M_bind, fbind, is_nfs4, TC_START_COUNTER, read_clock, done. reflexivity.
Qed.

Lemma keeps_vec_mkdir l : keeps counters_ok (vec_mkdir nfs posix clock l).
Proof.
  unfold vec_mkdir. apply keeps_bind; [apply keeps_declare | intros _].
  intros s Hs a s' E. destruct (forallb _ l).
  - apply (keeps_bracket f_mkdir (Z.of_nat (List.length l)) okay (dispatch nfs posix (fun b => mkdirv b l))
             (frames_dispatch _) s Hs a s').
    rewrite <- E. reflexivity.
  - apply bind_inv in E as (t & s1 & _ & E). discriminate.
Qed.

Lemma keeps_vec_listdir {U} dirs mk n r cb (c : U) : keeps counters_ok (vec_listdir nfs posix clock dirs mk n r cb c).
Proof.
  unfold vec_listdir. apply keeps_bind; [apply keeps_declare | intros _].
  destruct dirs as [|d dirs]; [apply keeps_ret|].
  apply (keeps_bracket f_listdir (Z.of_nat (List.length (d :: dirs))) okay
           (dispatch nfs posix (fun l => listdirv l (d :: dirs) mk n r cb c))), frames_dispatch.
Qed.

#[local] Hint Resolve keeps_vec_read keeps_vec_read_write keeps_vec_mkdir keeps_vec_listdir : keeps.

Context (alloc : bool) (junk_text : text) (junk_attrs : vattrs) (junk_iov : viovec).
Context (buffer : nat -> Z) (grows : Z -> bool) (euid egid : Z) (fuel : nat).

Ltac tc :=
  repeat match goal with
  | |- keeps _ (vec_lgetattrs _ _ _ _) => apply keeps_counted
  | |- keeps _ (vec_lsetattrs _ _ _ _) => apply keeps_counted
  | |- keeps _ (vec_readlink _ _ _ _ _) => apply keeps_counted
  | |- keeps _ (vec_remove _ _ _ _) => apply keeps_counted
  | |- keeps _ (vec_write _ _ _ _) => apply keeps_counted
  | |- keeps _ (vec_lcopy _ _ _ _) => apply keeps_counted
  | |- keeps _ (vec_open _ _ _ _ _ _) => apply keeps_counted
  | |- keeps _ (vec_close _ _ _ _) => apply keeps_counted
  | |- _ => progress keeps
  end.

Lemma keeps_link_target src l : keeps counters_ok (link_target (S := S) junk_text src l).
Proof. unfold link_target. tc. Qed.
#[local] Hint Resolve keeps_link_target : keeps.

Lemma keeps_resolve syms : keeps counters_ok (resolve_symlinks nfs posix clock alloc junk_text junk_attrs syms).
Proof. unfold resolve_symlinks. tc. Qed.
#[local] Hint Resolve keeps_resolve : keeps.

Lemma keeps_vec_setattrs l : keeps counters_ok (vec_setattrs nfs posix clock alloc junk_text junk_attrs l).
Proof. unfold vec_setattrs, with_targets, with_sources, free_syminfo. tc. Qed.

Lemma keeps_tc_pair fn l : (forall l, keeps counters_ok (fn l)) ->
  keeps counters_ok (tc_pair nfs posix clock alloc junk_text junk_attrs fn l).
Proof. intros Hfn. unfold tc_pair, with_targets, with_sources, free_syminfo. tc; apply Hfn. Qed.

Lemma keeps_vec_getattrs l : keeps counters_ok (vec_getattrs nfs posix clock alloc junk_text l).
Proof. unfold vec_getattrs. tc. Qed.
#[local] Hint Resolve keeps_vec_getattrs : keeps.

Lemma keeps_stat_loop n p0 m p a : keeps counters_ok (stat_loop nfs posix clock n p0 m p a).
Proof.
  revert m p a. induction n as [|n IH]; intros m p a; cbn [stat_loop]; unfold sca_readlink;
    (destruct (negb _); [apply keeps_ret|]).
  - intros s _ a' s' E. discriminate.
  - tc.
Qed.
#[local] Hint Resolve keeps_stat_loop : keeps.

Lemma keeps_sca_stat_impl f b r : keeps counters_ok (sca_stat_impl nfs posix clock junk_text fuel f b r).
Proof. unfold sca_stat_impl. tc. Qed.

Lemma keeps_vec_ldup l : keeps counters_ok (vec_ldup nfs posix clock alloc junk_iov buffer l).
Proof. unfold vec_ldup. tc. Qed.

Lemma keeps_sca_listdir d mk n r c :
  keeps counters_ok (sca_listdir nfs posix clock alloc grows d mk n r c).
Proof. unfold sca_listdir. tc. Qed.

Lemma keeps_posix_ensure_dir m b comps md a r :
  keeps counters_ok (posix_ensure_dir posix euid egid m b comps md a r).
Proof. revert m b a r. induction comps as [|c comps IH]; intros m b a r; cbn [posix_ensure_dir]; tc. Qed.

Lemma keeps_nfs4_ensure_dir m b comps md :
  keeps counters_ok (nfs4_ensure_dir nfs posix clock alloc junk_text euid egid m b comps md).
Proof. unfold nfs4_ensure_dir. tc. Qed.
#[local] Hint Resolve keeps_posix_ensure_dir keeps_nfs4_ensure_dir : keeps.

Lemma keeps_sca_ensure_dir dir md leaf :
  keeps counters_ok (sca_ensure_dir nfs posix clock alloc junk_text junk_attrs euid egid dir md leaf).
Proof. unfold sca_ensure_dir. tc. Qed.

(** One call of the library, whatever it returns. *)
Definition ends_in {A} (c : M state A) (s s' : state) : Prop := exists a, c s = done (a, s').

Inductive api_step (s s' : state) : Prop :=
  | st_open p f m : ends_in (vec_open nfs posix clock p f m) s s' -> api_step s s'
  | st_open_simple p f m : ends_in (vec_open_simple nfs posix clock alloc p f m) s s' -> api_step s s'
  | st_open_by_path d p f m : ends_in (sca_open_by_path nfs posix clock d p f m) s s' -> api_step s s'
  | st_close l : ends_in (vec_close nfs posix clock l) s s' -> api_step s s'
  | st_sca_close f : ends_in (sca_close nfs posix clock f) s s' -> api_step s s'
  | st_seek f x w : ends_in (sca_fseek nfs posix clock f x w) s s' -> api_step s s'
  | st_read l : ends_in (vec_read nfs posix clock l) s s' -> api_step s s'
  | st_write l : ends_in (vec_write nfs posix clock l) s s' -> api_step s s'
  | st_read_write l : ends_in (vec_read_write nfs posix clock l) s s' -> api_step s s'
  | st_getattrs l : ends_in (vec_getattrs nfs posix clock alloc junk_text l) s s' -> api_step s s'
  | st_lgetattrs l : ends_in (vec_lgetattrs nfs posix clock l) s s' -> api_step s s'
  | st_stat f x r : ends_in (sca_stat_impl nfs posix clock junk_text fuel f x r) s s' -> api_step s s'
  | st_setattrs l : ends_in (vec_setattrs nfs posix clock alloc junk_text junk_attrs l) s s' -> api_step s s'
  | st_lsetattrs l : ends_in (vec_lsetattrs nfs posix clock l) s s' -> api_step s s'
  | st_sca_listdir d mk n r c :
      ends_in (sca_listdir nfs posix clock alloc grows d mk n r c) s s' -> api_step s s'
  | st_listdir U dirs mk n r cb (c : U) :
      ends_in (vec_listdir nfs posix clock dirs mk n r cb c) s s' -> api_step s s'
  | st_rename l : ends_in (vec_rename nfs posix clock l) s s' -> api_step s s'
  | st_remove l : ends_in (vec_remove nfs posix clock l) s s' -> api_step s s'
  | st_unlink l : ends_in (vec_unlink nfs posix clock alloc l) s s' -> api_step s s'
  | st_sca_unlink p : ends_in (sca_unlink nfs posix clock p) s s' -> api_step s s'
  | st_mkdir l : ends_in (vec_mkdir nfs posix clock l) s s' -> api_step s s'
  | st_ensure_dir d m leaf :
      ends_in (sca_ensure_dir nfs posix clock alloc junk_text junk_attrs euid egid d m leaf) s s' -> api_step s s'
  | st_lcopy l : ends_in (vec_lcopy nfs posix clock l) s s' -> api_step s s'
  | st_copy l : ends_in (vec_copy nfs posix clock alloc junk_text junk_attrs l) s s' -> api_step s s'
  | st_ldup l : ends_in (vec_ldup nfs posix clock alloc junk_iov buffer l) s s' -> api_step s s'
  | st_dup l :
      ends_in (vec_dup nfs posix clock alloc junk_text junk_attrs junk_iov buffer l) s s' -> api_step s s'
  | st_hardlink l l' : ends_in (vec_hardlink nfs posix clock l l') s s' -> api_step s s'
  | st_symlink l l' : ends_in (vec_symlink nfs posix clock l l') s s' -> api_step s s'
  | st_readlink l l' : ends_in (vec_readlink nfs posix clock l l') s s' -> api_step s s'
  | st_chdir p : ends_in (sca_chdir nfs posix p) s s' -> api_step s s'
  | st_getcwd : ends_in (sca_getcwd nfs posix) s s' -> api_step s s'.

(** The states of the library after its start. *)
Inductive reached : state -> Prop :=
  | reached_start s : tc_counters s = no_counters -> reached s
  | reached_step s s' : reached s -> api_step s s' -> reached s'.

Lemma ends_in_ok {A} (c : M state A) s s' : keeps counters_ok c -> ends_in c s s' -> counters_ok s -> counters_ok s'.
Proof. intros Hk [a E] Hs. by eapply Hk. Qed.

Lemma api_step_ok s s' : api_step s s' -> counters_ok s -> counters_ok s'.
Proof.
  destruct 1 as [p f m H|p f m H|d p f m H|l H|f H|f x w H|l H|l H|l H|l H|l H|f x r H|l H|l H|d mk n r c H
    |U dirs mk n r cb c H|l H|l H|l H|p H|l H|d m leaf H|l H|l H|l H|l H|l l' H|l l' H|l l' H|p H|H];
    revert H; apply ends_in_ok.
  - apply keeps_counted.
  - unfold vec_open_simple. tc.
  - apply keeps_counted.
  - apply keeps_counted.
  - unfold sca_close. tc.
  - apply keeps_counted.
  - apply keeps_vec_read.
  - apply keeps_counted.
  - apply keeps_vec_read_write.
  - apply keeps_vec_getattrs.
  - apply keeps_counted.
  - apply keeps_sca_stat_impl.
  - apply keeps_vec_setattrs.
  - apply keeps_counted.
  - apply keeps_sca_listdir.
  - apply keeps_vec_listdir.
  - apply keeps_counted.
  - apply keeps_counted.
  - unfold vec_unlink. tc.
  - unfold sca_unlink. tc.
  - apply keeps_vec_mkdir.
  - apply keeps_sca_ensure_dir.
  - apply keeps_counted.
  - apply keeps_tc_pair. intros. apply keeps_counted.
  - apply keeps_vec_ldup.
  - apply keeps_tc_pair. intros. apply keeps_vec_ldup.
  - apply keeps_counted.
  - apply keeps_counted.
  - apply keeps_counted.
  - apply keeps_frames, frames_dispatch.
  - apply keeps_frames, frames_dispatch.
Qed.

End counters.

(** ** A small server *)

#[local] Existing Instances Cache.roomy Cache.roomy_laws.

Definition str (x : String.string) : text := Cache.bytes x.

(** The file ["/d/l"] is a link to ["../e/f"], ["/l"] is a link to itself, and the other
    files are regular. *)
Definition link_files (p : text) : avals :=
  mk_vals (if bool_decide (p = str "/d/l" \/ p = str "/l") then 41471 else 33188) (zlen p) 1 0 0 0 0 0
    (mk_time 0 0) (mk_time 0 0) (mk_time 0 0).

Definition link_texts (p : text) : text := if bool_decide (p = str "/d/l") then str "../e/f" else str "l".

Definition link_ops : Nfs4.obj_ops unit := {|
  Nfs4.vec_read := None; Nfs4.vec_write := None; Nfs4.vec_read_write := None; Nfs4.vec_open := None;
  Nfs4.vec_close _ _ _ w := (mk_vres 1 0, w);
  Nfs4.vec_lgetattrs l w := (mk_vres 1 0, map (answer link_files) (take 1 l) ++ drop 1 l, w);
  Nfs4.vec_lsetattrs := Nfs4.keep; Nfs4.vec_mkdir := Nfs4.keep; Nfs4.vec_rename := Nfs4.one;
  Nfs4.vec_remove := Nfs4.one; Nfs4.vec_lcopy := Nfs4.one; Nfs4.vec_hardlink := Nfs4.one2;
  Nfs4.vec_symlink := Nfs4.one2;
  Nfs4.vec_readlink l bufs w := (mk_vres 1 0, map link_texts (take 1 l) ++ drop 1 bufs, w);
  Nfs4.vec_listdir _ _ _ _ w := (mk_vres 0 0, [], w);
  Nfs4.sca_chdir _ w := (0, w); Nfs4.sca_getcwd _ := []; Nfs4.fullpath := []
|}.

#[export] Instance link_ops_attrs : AttrServer link_files link_ops.
Proof. intros [|a l] w Hl _; [done|]. exists 1%nat, w. split; [simpl; lia | reflexivity]. Qed.

#[export] Instance link_ops_texts : LinkTexts link_texts link_ops.
Proof. intros [|p ps] bufs w Hl _; [done|]. exists 1%nat, w. split; [simpl; lia | reflexivity]. Qed.

Definition link_layer : backend (cstate (gmap text nat) (gmap text Cache.DataBlock) unit) :=
  nfs_backend 16 10 (vals zero_attrs) (fun _ => 10) (Some link_ops) true (fun _ => true) 9 0
    (mk_vres 0 0) zero_attrs true 0 0.

Definition link_state : tcstate (cstate (gmap text nat) (gmap text Cache.DataBlock) unit) :=
  mk_tc true no_counters 0 no_caches.

Definition server_ok := LinkServer link_files link_texts link_layer (coherent_md link_files 10) 9.

Lemma link_layer_ok : server_ok.
Proof. apply nfs_link_server; apply _. Qed.

Lemma link_state_ok : coherent_md link_files 10 (lower link_state).
Proof.
  split; [by apply reachable_ok, reach_init|]. intros p i de Hi. cbn in Hi. by rewrite lookup_empty in Hi.
Qed.

(** ** Theorems *)

(** Copying through symbolic links, for extents whose sources are given by paths that fit the
    buffers: the copy is called once, with every source that is a link replaced by its target, and the
    caller's array comes back as it was. The target of a link with an absolute path leads where the text
    of the link leads from the directory of the link. *)
Theorem tc_pair_follows srv link {S} (nfs posix : backend S) clock junk_text junk_attrs b inv bound
    `{!LinkServer srv link (if b : bool then nfs else posix) inv bound} fn pairs (s : tcstate S) :
  good b inv s -> (List.length pairs < bound)%nat -> Forall (fun x => fits srv link (Api.src_path x)) pairs ->
  (exists s1, good b inv s1 /\
    tc_pair nfs posix clock true junk_text junk_attrs fn pairs s
    = (r ← fn (map (followed srv link) pairs); mret (r, pairs)) s1)
  /\ forall x, x ∈ pairs -> is_link srv (Api.src_path x) = true -> PathSpec.is_abs (Api.src_path x) = true ->
     PathSpec.resolve [] (Api.src_path (followed srv link x))
     = PathSpec.resolve (PathSpec.resolve [] (dirname_string (Api.src_path x))) (link (Api.src_path x)).
Proof.
  intros Hs Hl Hf. split; [by eapply tc_pair_spec|]. intros x Hx Hlk Habs. rewrite Forall_forall in Hf.
  unfold followed, real_path. rewrite Hlk. cbn. apply target_of_leads; [|done]. by apply Hf.
Qed.

Definition one_pair : list vextent_pair := [mk_extent (str "/d/l") (str "/x") 0 0 5; mk_extent (str "/f") (str "/y") 0 0 5].

Lemma plain_dec p : forallb (fun c => negb (bool_decide (c = Buf.NUL))) p = true -> plain p.
Proof.
  rewrite forallb_forall. intros H Hin%list_elem_of_In. specialize (H _ Hin).
  by rewrite bool_decide_eq_true_2 in H.
Qed.

Definition plainb (p : text) : bool := forallb (fun c => negb (bool_decide (c = Buf.NUL))) p.

Lemma fits_small srv link p :
  plainb p && plainb (link p) && (List.length p + List.length (link p) + 1 <? PATH_MAX)%nat = true ->
  fits srv link p.
Proof.
  intros [[Hp%plain_dec Hl%plain_dec]%andb_true_iff Hs%Nat.ltb_lt]%andb_true_iff. by repeat split.
Qed.

Lemma room_small link p :
  p <> [] -> plainb p && plainb (link p) && (List.length p + List.length (link p) + 4 <? PATH_MAX)%nat = true ->
  room link p.
Proof.
  intros Hne [[Hp%plain_dec Hl%plain_dec]%andb_true_iff Hs%Nat.ltb_lt]%andb_true_iff. by repeat split.
Qed.

Lemma tc_pair_follows_witness :
  exists s1, vec_copy link_layer link_layer (fun _ => 0) true [] zero_attrs one_pair link_state
    = (r ← vec_lcopy link_layer link_layer (fun _ => 0)
           [mk_extent (str "/e/f") (str "/x") 0 0 5; mk_extent (str "/f") (str "/y") 0 0 5];
       mret (r, one_pair)) s1.
Proof.
  pose proof link_layer_ok as Hok. unfold server_ok in Hok.
  destruct (tc_pair_follows link_files link_texts link_layer link_layer (fun _ => 0) [] zero_attrs true
    (coherent_md link_files 10) 9 (vec_lcopy link_layer link_layer (fun _ => 0)) one_pair link_state)
    as [(s1 & _ & E) _].
  - split; [reflexivity | exact link_state_ok].
  - simpl. lia.
  - constructor; [|constructor; [|constructor]]; apply fits_small; vm_compute; reflexivity.
  - exists s1. exact E.
Defined.



(** [vec_getattrs] of files given by paths, n of which are symbolic links, reports success. Of the first
    n files, the links have the attributes of the files they lead to and the others their own; but a link
    that comes after the first n files has the attributes of the link itself. *)
Theorem vec_getattrs_links srv link {S} (nfs posix : backend S) clock junk_text b inv bound
    `{!LinkServer srv link (if b : bool then nfs else posix) inv bound} attrs (s : tcstate S) :
  good b inv s -> (List.length attrs < bound)%nat -> attrs <> [] -> Forall is_path attrs ->
  let n := List.length (List.filter (attr_link srv) attrs) in
  exists r s', vec_getattrs nfs posix clock true junk_text attrs s
    = done (r, map (meant srv link) (take n attrs) ++ map (answer srv) (drop n attrs), s')
  /\ vokay r = true /\ good b inv s'.
Proof. intros. by eapply vec_getattrs_spec. Qed.

Lemma vec_getattrs_links_witness :
  exists r s', vec_getattrs link_layer link_layer (fun _ => 0) true [] [attrs_of (str "/f"); attrs_of (str "/d/l")] link_state
    = done (r, [answer link_files (attrs_of (str "/f")); answer link_files (attrs_of (str "/d/l"))], s')
  /\ vokay r = true.
Proof.
  pose proof link_layer_ok as Hok. unfold server_ok in Hok.
  destruct (vec_getattrs_links link_files link_texts link_layer link_layer (fun _ => 0) [] true
    (coherent_md link_files 10) 9 [attrs_of (str "/f"); attrs_of (str "/d/l")] link_state) as (r & s' & E & Hr & _).
  - split; [reflexivity | exact link_state_ok].
  - simpl. lia.
  - discriminate.
  - repeat constructor; by eexists.
  - exists r, s'. split; [exact E | exact Hr].
Defined.

(** [vec_setattrs] of files that are all given by paths sets the attributes of the targets of the links
    and gives the array back. With a symbolic link and a file that has no path in the same array, it reads a
    pointer that was never set. *)
Theorem vec_setattrs_links srv link {S} (nfs posix : backend S) clock junk_text junk_attrs b inv bound
    `{!LinkServer srv link (if b : bool then nfs else posix) inv bound} attrs (s : tcstate S) :
  good b inv s -> (List.length attrs < bound)%nat ->
  (forall a, a ∈ attrs -> is_path a -> fits srv link (attr_name a)) ->
  (Forall is_path attrs -> exists s1, good b inv s1 /\ forall r s2,
     vec_lsetattrs nfs posix clock (map (followed_attr srv link) attrs) s1
       = done (r, map (followed_attr srv link) attrs, s2) ->
     vec_setattrs nfs posix clock true junk_text junk_attrs attrs s = done (r, attrs, s2))
  /\ ((exists a, a ∈ attrs /\ is_path a /\ is_link srv (attr_name a) = true) ->
      (exists a, a ∈ attrs /\ type (attr_file a) <> VFILE_PATH) ->
      vec_setattrs nfs posix clock true junk_text junk_attrs attrs s = Abort).
Proof.
  intros Hs Hl Hf. split.
  - intros Hp. eapply vec_setattrs_spec; [done.. |]. apply Forall_forall. intros a Ha.
    rewrite Forall_forall in Hp. by apply Hf, Hp.
  - intros H1 H2. by eapply vec_setattrs_undefined.
Qed.

Definition mixed_attrs : list vattrs :=
  [attrs_of (str "/d/l"); mk_attrs (vfile_from_fd 3) VMASK_INIT_ALL (vals zero_attrs)].

Lemma vec_setattrs_links_witness :
  vec_setattrs link_layer link_layer (fun _ => 0) true [] zero_attrs mixed_attrs link_state = Abort.
Proof.
  pose proof link_layer_ok as Hok. unfold server_ok in Hok.
  apply (vec_setattrs_links link_files link_texts link_layer link_layer (fun _ => 0) [] zero_attrs true
    (coherent_md link_files 10) 9 mixed_attrs link_state).
  - split; [reflexivity | exact link_state_ok].
  - simpl. lia.
  - intros a [->|[->|Ha%elem_of_nil]%elem_of_cons]%elem_of_cons [Hty _]; [|done|done].
    apply fits_small. vm_compute. reflexivity.
  - exists (attrs_of (str "/d/l")). split_and!; [by left | split; [done | by eexists] | vm_compute; reflexivity].
  - exists (mk_attrs (vfile_from_fd 3) VMASK_INIT_ALL (vals zero_attrs)). split; [right; by left | done].
Defined.


(** The state after asking for the attributes of ["/f"], and then for those of what ["/d/l"] leads to. *)
Definition after_lgetattrs := final_state (vec_lgetattrs link_layer link_layer (fun _ => 0) [attrs_of (str "/f")]) link_state.
Definition after_getattrs :=
  final_state (vec_getattrs link_layer link_layer (fun _ => 0) true [] [attrs_of (str "/d/l")]) after_lgetattrs.

Lemma ends_in_final {S A} (c : M (tcstate S) A) s : returns c s = true -> ends_in c s (final_state c s).
Proof. unfold returns, ends_in, final_state. destruct (c s) as [[[a s']|]| |]; [by eexists | done..]. Qed.


Lemma bind_ext {S A B} (c : M S A) (k1 k2 : A -> M S B) s :
  (forall a s, k1 a s = k2 a s) -> (c ≫= k1) s = (c ≫= k2) s.
Proof. intros H. unfold mbind, M_bind, fbind. destruct (c s) as [[[a s']|]| |]; [apply H | done..]. Qed.

(** The destination offset of an extent plays no role in [vec_ldup]. *)
Theorem vec_ldup_ignores_dst_offset {S} (nfs posix : backend S) clock alloc junk_iov buffer
    (f : vextent_pair -> Z) pairs (s : tcstate S) :
  vec_ldup nfs posix clock alloc junk_iov buffer
    (map (fun x => mk_extent (Api.src_path x) (dst_path x) (src_offset x) (f x) (ext_length x)) pairs) s
  = vec_ldup nfs posix clock alloc junk_iov buffer pairs s.
Proof.
  unfold vec_ldup. set (g := fun x : vextent_pair => _).
  assert (imap (fun i x => viov2path junk_iov (Api.src_path x) (src_offset x) (ext_length x) (buffer i)) (map g pairs)
          = imap (fun i x => viov2path junk_iov (Api.src_path x) (src_offset x) (ext_length x) (buffer i)) pairs) as ->.
  { apply list_eq. intros i. rewrite !list_lookup_imap, list_lookup_fmap. by destruct (pairs !! i). }
  assert (forall i (s : tcstate S) A (k : M (tcstate S) A),
    (item (map g pairs) i ≫= fun _ => k) s = (item pairs i ≫= fun _ => k) s) as Hitem.
  { intros i s0 A k. unfold item. destruct (i <? 0); [done|]. rewrite list_lookup_fmap.
    by destruct (pairs !! Z.to_nat i). }
  apply bind_ext. intros _ s1. apply bind_ext. intros [r iovs] s2.
  destruct (negb (vokay r)); [apply Hitem|].
  assert (map to_write (zip (map g pairs) iovs) = map to_write (zip pairs iovs)) as ->.
  { revert iovs. clear. induction pairs as [|x l IH]; intros [|v iovs]; try done. cbn. by rewrite IH. }
  apply bind_ext. intros [r' iovs'] s3. rewrite length_map. destruct (negb (vokay r')); [apply Hitem | done].
Qed.

(** A failed write makes [vec_ldup] read past the array, for its message. *)
Theorem vec_ldup_write_failure {S} (nfs posix : backend S) clock junk_iov buffer pairs (s s1 s2 : tcstate S) r r' iovs iovs' :
  vec_read nfs posix clock
    (imap (fun i x => viov2path junk_iov (Api.src_path x) (src_offset x) (ext_length x) (buffer i)) pairs) s
    = done (r, iovs, s1) -> vokay r = true ->
  vec_write nfs posix clock (map to_write (zip pairs iovs)) s1 = done (r', iovs', s2) -> vokay r' = false ->
  vec_ldup nfs posix clock true junk_iov buffer pairs s = Abort.
Proof.
  intros E1 Hr E2 Hr'. unfold vec_ldup. rewrite (bind_done _ _ _ tt s) by done.
  rewrite (bind_done _ _ _ _ _ E1). cbv beta iota. rewrite Hr. cbn [negb].
  rewrite (bind_done _ _ _ _ _ E2). cbv beta iota. rewrite Hr'. cbn [negb].
  unfold item, mbind, M_bind. rewrite (proj2 (Z.ltb_ge _ _)) by lia.
  by rewrite Nat2Z.id, lookup_ge_None_2 by lia.
Qed.

(** A directory that cannot be listed makes [sca_listdir] free its array twice. *)
Theorem sca_listdir_double_free {S} (nfs posix : backend S) clock alloc grows dir mk n recursive (s s' : tcstate S) r :
  0 <= n ->
  vec_listdir nfs posix clock [dir] mk n recursive (fill_dir_entries alloc grows)
    (Ok (mk_array [] (if n =? 0 then 8 else n))) s
    = done (r, Ok (mk_array [] (if n =? 0 then 8 else n)), s') -> vokay r = false ->
  sca_listdir nfs posix clock alloc grows dir mk n recursive true s = Abort.
Proof.
  intros Hn E Hr. unfold sca_listdir.
  rewrite (bind_done _ _ _ tt s) by (unfold check; by rewrite (proj2 (Z.leb_le _ _))). cbn [negb].
  rewrite (bind_done _ _ _ _ _ E). cbv beta iota.
  erewrite bind_done; [|unfold run; cbn [obind]; reflexivity]. cbn [array]. by rewrite Hr.
Qed.

End Tc.
