(* ===== verification/PosixImpl.v ===== *)
(** The POSIX layer, [posix/tc_impl_posix.c], with the copying of files through a pipe,
    [posix/splice_copy.c]. Module [Psx]. The layer executes the elements of an array one by
    one with calls of the operating system, which are the record [sys]. *)

From S2P Require Import Prelude CommonTypes PathSpec PathUtils TcApi Nfs4Impl DataCache NfsCache TcImpl.
Import Api Nfs.
Local Open Scope Z_scope.

Module Psx.

Notation text := (list ascii).

(** ** The operating system *)

(** A call changes the state of the system and returns a value, or -1 with an error
    number. *)
Definition call (K A : Type) : Type := K -> (A + Z) * K.

(** The system calls of the layer. Buffers are addresses; [lutimes] and [futimes] take
    seconds and microseconds; [readdir] returns no name at the end. *)
Record sys (K : Type) := mk_sys {
  open : text -> Z -> Z -> call K Z;
  close : Z -> call K unit;
  lseek : Z -> Z -> Z -> call K Z;
  read : Z -> Z -> Z -> call K Z;
  pread : Z -> Z -> Z -> Z -> call K Z;
  write : Z -> Z -> Z -> call K Z;
  pwrite : Z -> Z -> Z -> Z -> call K Z;
  lstat : text -> call K avals;
  fstat : Z -> call K avals;
  chmod : text -> Z -> call K unit;
  fchmod : Z -> Z -> call K unit;
  truncate : text -> Z -> call K unit;
  ftruncate : Z -> Z -> call K unit;
  lchown : text -> Z -> Z -> call K unit;
  fchown : Z -> Z -> Z -> call K unit;
  lutimes : text -> (Z * Z) * (Z * Z) -> call K unit;
  futimes : Z -> (Z * Z) * (Z * Z) -> call K unit;
  rename : text -> text -> call K unit;
  remove : text -> call K unit;
  rmdir : text -> call K unit;
  mkdir : text -> Z -> call K unit;
  link : text -> text -> call K unit;
  symlink : text -> text -> call K unit;
  readlink : text -> Z -> call K text;
  opendir : text -> call K Z;
  readdir : Z -> K -> option text * K;
  closedir : Z -> K -> K;
  sys_chdir : text -> call K unit;
  get_current_dir_name : K -> option text;
  pipe : call K (Z * Z);
  splice : Z -> option Z -> Z -> option Z -> Z -> call K Z
}.
Arguments open {K}. Arguments close {K}. Arguments lseek {K}. Arguments read {K}. Arguments pread {K}.
Arguments write {K}. Arguments pwrite {K}. Arguments lstat {K}. Arguments fstat {K}. Arguments chmod {K}.
Arguments fchmod {K}. Arguments truncate {K}. Arguments ftruncate {K}. Arguments lchown {K}.
Arguments fchown {K}. Arguments lutimes {K}. Arguments futimes {K}. Arguments rename {K}.
Arguments remove {K}. Arguments rmdir {K}. Arguments mkdir {K}. Arguments link {K}. Arguments symlink {K}.
Arguments readlink {K}. Arguments opendir {K}. Arguments readdir {K}. Arguments closedir {K}.
Arguments sys_chdir {K}. Arguments get_current_dir_name {K}. Arguments pipe {K}. Arguments splice {K}.

(** The state of the layer: the system and [errno], which only a failed call sets. *)
Record pstate (K : Type) := mk_ps { kern : K; errno : Z }.
Arguments mk_ps {K}. Arguments kern {K}. Arguments errno {K}.

Definition O_RDONLY : Z := 0.
Definition O_WRONLY : Z := 1.
Definition O_CREAT : Z := 64.
Definition O_APPEND : Z := 1024.
Definition O_DIRECT : Z := 16384.
Definition O_SYNC : Z := 1052672.
Definition SEEK_CUR : Z := 1.
Definition SEEK_END : Z := 2.
Definition INT_MIN : Z := - 2 ^ 31.

(** Conversion to [off_t]. *)
Definition s64 (x : Z) : Z := let y := u64 x in if y <? 2 ^ 63 then y else y - 2 ^ 64.

(** A path that [fd] cannot be, [assert(path != NULL)]. *)
Definition path_of {S} (f : vfile) : M S text := need (path f).

Definition is_path (f : vfile) : bool := bool_decide (type f = VFILE_PATH).
Definition is_fd (f : vfile) : bool := bool_decide (type f = VFILE_DESCRIPTOR).

(** An entry of the queue of directories; who owns its path is left out. *)
Record tc_posix_dir_to_list := mk_dle { dle_path : text; origin_index : Z }.

(** A buffer with its size. *)
Record buffer := mk_buffer { content : text; bufsize : Z }.

(** [buf[0 .. len bytes - 1] = bytes] *)
Definition store_bytes (bytes buf : text) : text := bytes ++ drop (List.length bytes) buf.

Section posix.
Context {K : Type} (os : sys K).
(** Whether allocations succeed, and what memory that is not initialised holds. *)
Context (alloc : bool) (junk_stat : avals) (junk_text : text).
Notation state := (pstate K).

(** A system call: no value when it fails, which sets [errno]. *)
Definition sysc {A} (c : call K A) : M state (option A) := fun s =>
  match c (kern s) with
  | (inl a, k) => done (Some a, mk_ps k (errno s))
  | (inr e, k) => done (None, mk_ps k e)
  end.

Definition get_errno : M state Z := fun s => done (errno s, s).

(** The error of the last failed call, as the result of an element. *)
Definition fails : M state (option Z) := e ← get_errno; mret (Some e).

(** [if (call < 0) ... errno] *)
Definition checked {A} (c : call K A) : M state (option Z) :=
  r ← sysc c; match r with Some _ => mret None | None => fails end.

(** The elements in order, up to the first one with an error; [ok] is the result of an
    array without one. The state [b] of the loop goes from element to element. *)
Fixpoint until_failure {A B} (ok : vres) (f : A -> B -> M state (option Z * A * B)) (i : Z) (l : list A) (b : B)
  : M state (vres * list A) :=
  match l with
  | [] => mret (ok, [])
  | a :: l =>
      '(e, a, b) ← f a b;
      match e with
      | Some err => mret (vfailure i err, a :: l)
      | None => '(r, l) ← until_failure ok f (i + 1) l b; mret (r, a :: l)
      end
  end.

(** A loop without such a state, in which the elements change, or stay. *)
Definition each_elem {A} (ok : vres) (f : A -> M state (option Z * A)) (l : list A) : M state (vres * list A) :=
  until_failure ok (fun a _ => '(e, a) ← f a; mret (e, a, tt)) 0 l tt.

Definition each_call {A} (ok : vres) (f : A -> M state (option Z)) (l : list A) : M state vres :=
  '(r, _) ← each_elem ok (fun a => e ← f a; mret (e, a)) l; mret r.

(** [{ .index = -1, .err_no = 0 }] and [{ .err_no = 0 }] *)
Definition no_index : vres := mk_vres (-1) 0.
Definition index_zero : vres := mk_vres 0 0.

(** ** Opening and closing *)

Fixpoint open_each (paths : list text) (flags : list Z) (modes : option (list Z)) : M state (list vfile) :=
  match paths with
  | [] => mret []
  | p :: paths =>
      fl ← need (head flags);
      md ← match modes with Some ms => need (head ms) | None => mret 420 end;
      r ← sysc (open os p fl md);
      fd ← match r with Some fd => mret fd | None => e ← get_errno; mret (- e) end;
      fs ← open_each paths (tail flags) (option_map (@tail Z) modes);
      mret (mk_vfile VFILE_DESCRIPTOR fd UNull :: fs)
  end.

Definition posix_openv (paths : list text) (flags : list Z) (modes : option (list Z))
  : M state (option (list vfile)) :=
  if alloc then fs ← open_each paths flags modes; mret (Some fs) else mret None.

Definition posix_open (p : text) (flags mode : Z) : M state (option (list vfile)) :=
  posix_openv [p] [flags] (Some [mode]).

(** No array is left when it is freed. *)
Definition posix_closev (tcfs : list vfile) : M state (vres * option (list vfile)) :=
  '(r, tcfs) ← each_elem index_zero (fun f =>
     _ ← check (is_fd f);
     r ← sysc (close os (fd f));
     match r with
     | None => e ← fails; mret (e, f)
     | Some _ => mret (None, mk_vfile (type f) INT_MIN (u f))
     end) tcfs;
  mret (r, if vokay r then None else Some tcfs).

(** [free] of an array that may have been freed. *)
Definition free_array {A} (o : option A) : M state unit :=
  match o with Some _ => mret tt | None => stop end.

Definition posix_close (tcf : vfile) : M state Z :=
  '(r, tcfs) ← posix_closev [tcf];
  if vokay r then _ ← free_array tcfs; mret 0 else mret (- err_no r).

Definition posix_fseek (tcf : vfile) (off whence : Z) : M state Z :=
  _ ← check (is_fd tcf);
  r ← sysc (lseek os (fd tcf) off whence);
  mret (default (-1) r).

(** ** Reading and writing *)

(** The descriptor of a vector; one of another type leaves the variable as it is. *)
Definition file_fd (f : vfile) (flags mode : Z) (last : option Z) : M state (option Z) :=
  if is_path f then
    p ← path_of f; r ← sysc (open os p flags mode); mret (Some (default (-1) r))
  else mret (if is_fd f then Some (fd f) else last).

(** [if (iov->file.type == VFILE_PATH) close(fd)] *)
Definition close_path (f : vfile) (fd : Z) : M state (option unit) :=
  if is_path f then sysc (close os fd) else mret (Some tt).

(** The end of an element: [close] when it was opened here. *)
Definition close_opened (f : vfile) (fd : Z) : M state (option Z) :=
  r ← close_path f fd; match r with Some _ => mret None | None => fails end.

Definition read_elem (iov : viovec) (last : option Z) : M state (option Z * viovec * option Z) :=
  let f := file iov in
  ofd ← file_fd f (if is_direct_io iov then Z.lor O_RDONLY O_DIRECT else O_RDONLY) 0 last;
  fd ← need ofd;
  if fd <? 0 then e ← fails; mret (e, iov, ofd) else
  amount ← sysc (if offset iov =? TC_OFFSET_CUR then read os fd (data iov) (length iov)
                 else pread os fd (data iov) (length iov) (s64 (offset iov)));
  match amount with
  | None => _ ← close_path f fd; e ← fails; mret (e, iov, ofd)
  | Some amount_read =>
      let iov := set_length iov (u64 amount_read) in
      st ← sysc (fstat os fd);
      match st with
      | None => e ← fails; mret (e, iov, ofd)
      | Some st =>
          eof ← if offset iov =? TC_OFFSET_CUR then
                  r ← sysc (lseek os fd 0 SEEK_CUR); mret (default (-1) r =? size st)
                else mret (u64 (offset iov + length iov) =? u64 (size st));
          e ← close_opened f fd;
          mret (e, set_eof iov eof, ofd)
      end
  end.

(** The variable [fd] is not initialised. *)
Definition posix_readv (arg : list viovec) : M state (vres * list viovec) :=
  until_failure no_index read_elem 0 arg None.

Definition write_flags (iov : viovec) : Z :=
  let flags := O_WRONLY in
  let flags := if is_creation iov then Z.lor flags O_CREAT else flags in
  let flags := if offset iov =? TC_OFFSET_END then Z.lor flags O_APPEND else flags in
  if is_write_stable iov then Z.lor flags O_SYNC else flags.

(** Where [pwrite] writes: the end of a file that was not opened here. *)
Definition write_offset (iov : viovec) (fd : Z) : M state Z :=
  if offset iov =? TC_OFFSET_END then
    if is_path (file iov) then mret 0
    else r ← sysc (lseek os fd 0 SEEK_END); mret (default (-1) r)
  else mret (s64 (offset iov)).

(** The variables [fd] and [written] go from element to element. *)
Definition write_elem (iov : viovec) (vars : option Z * Z) : M state (option Z * viovec * (option Z * Z)) :=
  let f := file iov in
  let '(last, written) := vars in
  ofd ← file_fd f (write_flags iov) 420 last;
  fd ← need ofd;
  if fd <? 0 then e ← fails; mret (e, iov, (ofd, written)) else
  off ← write_offset iov fd;
  written ← if 0 <? length iov then
              sysc (if u64 off =? TC_OFFSET_CUR then write os fd (data iov) (length iov)
                    else pwrite os fd (data iov) (length iov) off)
            else mret (Some written);
  match written with
  | None => _ ← close_path f fd; e ← fails; mret (e, iov, (ofd, -1))
  | Some written =>
      e ← close_opened f fd;
      mret (e, set_length iov (u64 written), (ofd, written))
  end.

Definition posix_writev (arg : list viovec) : M state (vres * list viovec) :=
  until_failure no_index write_elem 0 arg (None, 0).

(** ** Attributes *)

(** The call on the path of a file given by path, or on the descriptor. *)
Definition by_type {A} (f : vfile) (on_path : text -> call K A) (on_fd : Z -> call K A) : M state (option A) :=
  if is_path f then p ← path_of f; sysc (on_path p) else sysc (on_fd (fd f)).

Definition posix_lgetattrsv (attrs : list vattrs) : M state (vres * list vattrs) :=
  each_elem no_index (fun a =>
    r ← by_type (attr_file a) (lstat os) (fstat os);
    match r with
    | None => e ← fails; mret (e, a)
    | Some st => mret (None, vstat2attrs st a)
    end) attrs.

(** [TIMESPEC_TO_TIMEVAL(tv, ts)] and [TIMEVAL_TO_TIMESPEC(tv, ts)] of the C library, which
    assign to [tv] and to [ts]. *)
Definition TIMESPEC_TO_TIMEVAL (ts : timespec) : Z * Z := (tv_sec ts, tv_nsec ts `quot` 1000).
Definition TIMEVAL_TO_TIMESPEC (tv : Z * Z) : timespec := mk_time tv.1 (tv.2 * 1000).

(** [attrs->mtime = t] *)
Definition store_mtime (a : vattrs) (t : timespec) : vattrs :=
  let 'mk_attrs f mk (mk_vals a b c d e g h i j _ l) := a in
  mk_attrs f mk (mk_vals a b c d e g h i j t l).

(** A step of [helper_set_attrs]: whether it goes on. *)
Definition set_step (wanted : bool) (c : M state (option unit)) : M state bool :=
  if wanted then r ← c; mret (match r with Some _ => true | None => false end) else mret true.

(** The result is negative, and the attributes of the caller. *)
Definition helper_set_attrs (a : vattrs) : M state (bool * vattrs) :=
  let mk := masks a in
  let v := vals a in
  let f := attr_file a in
  if has_nlink mk then mret (true, a)
  else if has_rdev mk then mret (true, a)
  else if has_mode mk && Tc.S_ISLNK (mode v) then mret (true, a)
  else
  ok ← set_step (has_mode mk) (by_type f (fun p => chmod os p (mode v)) (fun d => fchmod os d (mode v)));
  if negb ok then mret (true, a) else
  ok ← set_step (has_size mk)
         (by_type f (fun p => truncate os p (s64 (size v))) (fun d => ftruncate os d (s64 (size v))));
  if negb ok then mret (true, a) else
  ok ← set_step (has_uid mk || has_gid mk)
         (by_type f (fun p => lchown os p (uid v) (gid v)) (fun d => fchown os d (uid v) (gid v)));
  if negb ok then mret (true, a) else
  if has_atime mk || has_mtime mk then
    r ← by_type f (lstat os) (fstat os);
    let s := default junk_stat r in
    let times0 := if has_atime mk then TIMESPEC_TO_TIMEVAL (atime v) else (tv_sec (atime s), 0) in
    let times1 := (tv_sec (mtime s), 0) in
    let a := if has_mtime mk then store_mtime a (TIMEVAL_TO_TIMESPEC times1) else a in
    r ← by_type f (fun p => lutimes os p (times0, times1)) (fun d => futimes os d (times0, times1));
    mret (match r with Some _ => false | None => true end, a)
  else mret (false, a).

Definition posix_lsetattrsv (attrs : list vattrs) : M state (vres * list vattrs) :=
  each_elem no_index (fun a =>
    '(failed, a) ← helper_set_attrs a;
    if failed : bool then e ← fails; mret (e, a) else mret (None, a)) attrs.

(** ** Names *)

Definition posix_renamev (pairs : list vfile_pair) : M state vres :=
  each_call no_index (fun x =>
    _ ← check (is_path (src_file x) && is_path (dst_file x));
    p ← path_of (src_file x); q ← path_of (dst_file x);
    checked (rename os p q)) pairs.

Definition posix_removev (files : list vfile) : M state vres :=
  each_call no_index (fun f => p ← path_of f; checked (remove os p)) files.

Definition posix_remove_dirv (dirs : list vfile) : M state vres :=
  each_call no_index (fun f => p ← path_of f; checked (rmdir os p)) dirs.

Definition posix_mkdirv (dirs : list vattrs) : M state vres :=
  each_call no_index (fun a => p ← path_of (attr_file a); checked (mkdir os p (mode (vals a)))) dirs.

Definition posix_hardlinkv (oldpaths newpaths : list text) : M state vres :=
  each_call index_zero (fun x => checked (link os x.1 x.2)) (zip oldpaths newpaths).

Definition posix_symlinkv (oldpaths newpaths : list text) : M state vres :=
  each_call index_zero (fun x => checked (symlink os x.1 x.2)) (zip oldpaths newpaths).

(** The buffer holds no terminator when the text fills it. *)
Definition posix_readlinkv (paths : list text) (bufs : list buffer) : M state (vres * list buffer) :=
  '(r, l) ← each_elem index_zero (fun x : text * buffer =>
     let b := x.2 in
     r ← sysc (readlink os x.1 (bufsize b));
     match r with
     | None => e ← fails; mret (e, x)
     | Some t =>
         let sz := zlen t in
         let t := if sz <? bufsize b then t ++ [Buf.NUL] else t in
         mret (None, (x.1, mk_buffer (store_bytes t (content b)) sz))
     end) (zip paths bufs);
  mret (r, map snd l).

(** ** Listing *)

(** [None] when there is no memory. *)
Definition enqueue_dir_to_list (q : list tc_posix_dir_to_list) (p : text) (index : Z)
  : option (list tc_posix_dir_to_list) :=
  if alloc then Some (q ++ [mk_dle p index]) else None.

(** [strncmp(name, s, strlen(name))] is zero. *)
Definition is_prefix (name s : text) : bool := bool_decide (name `prefix_of` s).
Definition skipped (name : text) : bool :=
  is_prefix name ["."%char] || is_prefix name ["."%char; "."%char].

Definition next_entry (h : Z) : M state (option text) := fun s =>
  let '(n, k) := readdir os h (kern s) in done (n, mk_ps k (errno s)).
Definition end_listing (h : Z) : M state unit := fun s => done (tt, mk_ps (closedir os h (kern s)) (errno s)).

Section listdir.
Context {U : Type} (mk : vattrs_masks) (recursive : bool) (cb : vattrs -> text -> U -> bool * U).
(** What the loop over the entries changes: the queue, the limit and the argument of the
    callback. *)
Notation vars := (list tc_posix_dir_to_list * Z * U)%type.

(** The loop over the entries of one directory. *)
Fixpoint list_entries (fuel : nat) (dir : text) (h : Z) (i : Z) (x : vars) : M state (Z * vars) :=
  let '(q, limit, c) := x in
  match fuel with
  | O => fun _ => Ok None
  | Datatypes.S fuel =>
      name ← next_entry h;
      match name with
      | None => mret (0, x)
      | Some name =>
          if negb ((limit =? -1) || (0 <? limit)) then mret (0, x)
          else if skipped name then list_entries fuel dir h i x
          else
          _ ← check alloc;
          path ← run (Tc.join_into (List.length name + List.length dir + 2) junk_text dir name);
          r ← sysc (lstat os path);
          match r with
          | None => e ← get_errno; mret (- e, x)
          | Some st =>
              let attr := vstat2attrs st (mk_attrs (vfile_from_path path) mk junk_stat) in
              let '(go, c) := cb attr path c in
              if negb go then mret (0, (q, limit, c))
              else
              let next q := list_entries fuel dir h i (q, if limit =? -1 then limit else limit - 1, c) in
              if recursive && Tc.S_ISDIR (mode st) then
                match enqueue_dir_to_list q path i with
                | None => mret (- ENOMEM, (q, limit, c))
                | Some q => next q
                end
              else next q
          end
      end
  end.

Definition posix_listdir (fuel : nat) (dir : text) (i : Z) (x : vars) : M state (Z * vars) :=
  h ← sysc (opendir os dir);
  match h with
  | None => e ← get_errno; mret (- e, x)
  | Some h =>
      r ← list_entries fuel dir h i x;
      _ ← end_listing h;
      mret r
  end.

(** The loop over the queue. *)
Fixpoint list_queue (fuel : nat) (ret : Z) (tcres : vres) (x : vars) : M state (vres * U) :=
  let '(q, limit, c) := x in
  match q with
  | [] => mret (tcres, c)
  | dle :: _ =>
      match fuel with
      | O => fun _ => Ok None
      | Datatypes.S fuel' =>
          '(ret, tcres, (q, limit, c)) ←
            (if (ret =? 0) && ((limit =? -1) || (0 <? limit)) then
               '(ret, x) ← posix_listdir fuel (dle_path dle) (origin_index dle) x;
               mret (ret, if ret <? 0 then vfailure (origin_index dle) ret else tcres, x)
             else mret (ret, tcres, x));
          list_queue fuel' ret tcres (tail q, limit, c)
      end
  end.

(** A directory for which there is no memory is left out. *)
Fixpoint enqueue_all (q : list tc_posix_dir_to_list) (i : Z) (dirs : list text) : list tc_posix_dir_to_list :=
  match dirs with
  | [] => q
  | d :: dirs => enqueue_all (default q (enqueue_dir_to_list q d i)) (i + 1) dirs
  end.

Definition posix_listdirv (fuel : nat) (dirs : list text) (max_entries : Z) (c : U) : M state (vres * U) :=
  let max_entries := if max_entries =? 0 then -1 else max_entries in
  list_queue fuel 0 index_zero (enqueue_all [] 0 dirs, max_entries, c).

End listdir.

(** ** Copying *)

Definition min (a b : Z) : Z := if a <? b then a else b.

Fixpoint splice_loop (fuel : nat) (srcfd src_offset dstfd dst_offset count copied rd wr : Z) : M state Z :=
  if negb (copied <? count) then mret copied
  else
  match fuel with
  | O => fun _ => Ok None
  | Datatypes.S fuel =>
      n1 ← sysc (splice os srcfd (Some (s64 src_offset)) wr None (min (64 * 1024) (count - copied)));
      match n1 with
      | None => e ← get_errno; mret (- e)
      | Some n1 =>
          n2 ← sysc (splice os rd None dstfd (Some (s64 dst_offset)) n1);
          match n2 with
          | None => e ← get_errno; mret (- e)
          | Some n2 =>
              splice_loop fuel srcfd (u64 (src_offset + n2)) dstfd (u64 (dst_offset + n2)) count
                (copied + n2) rd wr
          end
      end
  end.

Definition splice_fcopy (fuel : nat) (srcfd src_offset dstfd dst_offset count : Z) : M state Z :=
  r ← sysc (pipe os);
  match r with
  | None => e ← get_errno; mret (- e)
  | Some (rd, wr) =>
      copied ← splice_loop fuel srcfd src_offset dstfd dst_offset count 0 rd wr;
      _ ← sysc (close os rd);
      _ ← sysc (close os wr);
      mret copied
  end.

Definition UINT64_MAX : Z := 2 ^ 64 - 1.

(** [-errno] after a [close]. *)
Definition close_and_fail (fd : Z) : M state Z := _ ← sysc (close os fd); e ← get_errno; mret (- e).

Definition splice_copy_file (fuel : nat) (src : text) (off count : Z) (dst : text) : M state Z :=
  r ← sysc (open os src O_RDONLY 0);
  match r with
  | None => e ← get_errno; mret (- e)
  | Some srcfd =>
      st ← if count =? UINT64_MAX then sysc (fstat os srcfd) else mret (Some junk_stat);
      match st with
      | None => close_and_fail srcfd
      | Some st =>
          let count := if count =? UINT64_MAX then u64 (size st - off) else count in
          r ← sysc (open os dst (Z.lor O_WRONLY O_CREAT) 420);
          match r with
          | None => close_and_fail srcfd
          | Some dstfd =>
              copied ← splice_fcopy fuel srcfd off dstfd 0 count;
              _ ← sysc (close os dstfd);
              _ ← sysc (close os srcfd);
              mret copied
          end
      end
  end.

(** The number of bytes is an [int]. *)
Definition splice_copy (fuel : nat) (src : text) (src_offset : Z) (dst : text) (dst_offset count : Z) : M state Z :=
  r ← sysc (open os src O_RDONLY 0);
  match r with
  | None => e ← get_errno; mret (- e)
  | Some srcfd =>
      r ← sysc (open os dst (Z.lor O_WRONLY O_CREAT) 493);
      match r with
      | None => close_and_fail srcfd
      | Some dstfd =>
          st ← if count =? UINT64_MAX then sysc (fstat os srcfd) else mret (Some junk_stat);
          match st with
          | None => close_and_fail srcfd
          | Some st =>
              let count := if count =? UINT64_MAX then u64 (size st - src_offset) else count in
              copied ← splice_fcopy fuel srcfd src_offset dstfd dst_offset count;
              _ ← sysc (close os dstfd);
              _ ← sysc (close os srcfd);
              mret (s32 copied)
          end
      end
  end.

Definition posix_lcopyv (fuel : nat) (pairs : list vextent_pair) : M state (vres * list vextent_pair) :=
  each_elem index_zero (fun x =>
    ret ← splice_copy fuel (src_path x) (src_offset x) (dst_path x) (dst_offset x) (ext_length x);
    mret (if ret <? 0 then (Some (- ret), x)
          else (None, mk_extent (src_path x) (dst_path x) (src_offset x) (dst_offset x) ret))) pairs.

(** ** The working directory *)

Definition posix_chdir (p : text) : M state Z :=
  r ← sysc (sys_chdir os p);
  match r with Some _ => mret 0 | None => e ← get_errno; mret (- e) end.

Definition posix_getcwd : M state (option text) := fun s => done (get_current_dir_name os (kern s), s).

(** ** The layer as the entry points see it *)

(** The string of a buffer; one without a terminator is read past its end. *)
Definition buffer_string (b : buffer) : M state text :=
  match list_find (eq Buf.NUL) (content b) with Some (n, _) => mret (take n (content b)) | None => stop end.

(** A buffer of [PATH_MAX] characters, as the entry points allocate them. *)
Definition path_buffer (old : text) : buffer := mk_buffer (Tc.new_area old) (Z.of_nat Tc.PATH_MAX).

Definition posix_backend (fuel : nat) : Tc.backend state := {|
  Tc.openv := posix_openv;
  Tc.closev l := '(r, l') ← posix_closev l; mret (r, default [] l');
  Tc.fseek := posix_fseek;
  Tc.readv := posix_readv;
  Tc.writev := posix_writev;
  Tc.read_writev := posix_writev;
  Tc.lgetattrsv := posix_lgetattrsv;
  Tc.lsetattrsv := posix_lsetattrsv;
  Tc.listdirv U dirs mk max_entries recursive cb c := posix_listdirv mk recursive cb fuel dirs max_entries c;
  Tc.renamev l := r ← posix_renamev l; mret (r, l);
  Tc.removev l := r ← posix_removev l; mret (r, l);
  Tc.mkdirv l := r ← posix_mkdirv l; mret (r, l);
  Tc.lcopyv l := '(r, _) ← posix_lcopyv fuel l; mret r;
  Tc.hardlinkv := posix_hardlinkv;
  Tc.symlinkv := posix_symlinkv;
  Tc.readlinkv paths bufs :=
    '(r, l) ← posix_readlinkv paths (map path_buffer bufs);
    l ← each buffer_string l;
    mret (r, l);
  Tc.chdir := posix_chdir;
  Tc.getcwd := o ← posix_getcwd; need o
|}.

End posix.

End Psx.
