(* ===== verification/PosixSpecs.v ===== *)
(** The POSIX layer over a system that keeps what its manual promises. Module [PosixRuns].
    Classes state the promises: files that are read and written through descriptors
    ([FileKernel]), copies through a pipe ([PipeKernel]) and directories ([DirKernel]). *)

From S2P Require Import Prelude CommonTypes PathSpec PathUtils TcApi Nfs4Impl DataCache NfsCache TcImpl PosixImpl.
Import Api Nfs Psx.
Local Open Scope Z_scope.

Module PosixRuns.

Lemma sysc_ok {K A} (c : call K A) s a k : c (kern s) = (inl a, k) -> sysc c s = done (Some a, mk_ps k (errno s)).
Proof. intros E. unfold sysc. by rewrite E. Qed.

Lemma sysc_error {K A} (c : call K A) s e k : c (kern s) = (inr e, k) -> sysc c s = done (None, mk_ps k e).
Proof. intros E. unfold sysc. by rewrite E. Qed.

Lemma s64_small x : 0 <= x < 2 ^ 63 -> s64 x = x.
Proof. intros H. unfold s64. rewrite u64_small by lia. by rewrite (proj2 (Z.ltb_lt _ _)) by lia. Qed.

(** ** Files *)

(** [bs] at the offset [o] of the content [c]; a hole is filled with zeros. *)
Definition put (o : nat) (bs c : text) : text :=
  take o c ++ replicate (o - List.length c) Ascii.zero ++ bs ++ drop (o + List.length bs) c.

Definition bytes_at (m : Z -> ascii) (a : Z) (n : nat) : text := map (fun i => m (a + Z.of_nat i)) (seq 0 n).

(** The bytes that a read of [iov] finds in the content [c]. *)
Definition found (iov : viovec) (c : text) : text := take (Z.to_nat (length iov)) (drop (Z.to_nat (offset iov)) c).

Lemma put_length o bs c : List.length (put o bs c) = Nat.max (List.length c) (o + List.length bs).
Proof. unfold put. rewrite !length_app, length_take, length_replicate, length_drop. lia. Qed.

(** What was put is read back. *)
Lemma take_drop_put o bs c : take (List.length bs) (drop o (put o bs c)) = bs.
Proof.
  unfold put. rewrite app_assoc, drop_app_length'.
  - by rewrite take_app_length.
  - rewrite length_app, length_take, length_replicate. lia.
Qed.

(** Two puts, one after the other. *)
Lemma put_put o bs bs' c : put (o + List.length bs) bs' (put o bs c) = put o (bs ++ bs') c.
Proof.
  set (l := take o c ++ replicate (o - List.length c) Ascii.zero).
  assert (List.length l = o) as Hl by (unfold l; rewrite length_app, length_take, length_replicate; lia).
  assert (forall b, put o b c = (l ++ b) ++ drop (o + List.length b) c) as Hp by (intros; unfold put, l; by rewrite <- !app_assoc).
  rewrite (Hp bs), (Hp (bs ++ bs')).
  unfold put at 1. rewrite take_app_length' by (rewrite length_app; lia).
  replace (_ - _)%nat with 0%nat by (rewrite !length_app; lia). cbn [replicate app].
  rewrite drop_app_ge by (rewrite length_app; lia). rewrite drop_drop.
  rewrite <- !app_assoc. do 4 f_equal. rewrite !length_app. lia.
Qed.

Lemma length_bytes_at m a n : List.length (bytes_at m a n) = n.
Proof. unfold bytes_at. by rewrite length_map, length_seq. Qed.

Lemma lookup_bytes_at m a n i : (i < n)%nat -> bytes_at m a n !! i = Some (m (a + Z.of_nat i)).
Proof. intros Hi. unfold bytes_at. rewrite list_lookup_fmap, lookup_seq_lt by done. done. Qed.

Lemma bytes_at_ext m m' a n :
  (forall x, a <= x < a + Z.of_nat n -> m x = m' x) -> bytes_at m a n = bytes_at m' a n.
Proof.
  intros H. apply map_ext_in. intros i [_ Hi]%in_seq. apply H. lia.
Qed.

(** A descriptor: a file with its path and the flags it was opened with, or an end of a
    pipe. *)
Inductive desc := File (p : text) (fl : Z) | PipeRead (i : Z) | PipeWrite (i : Z).

Section files.
Context {K : Type} (os : sys K).
(** What is observed of the system: the content of the regular files, the descriptors and
    the memory of the process. *)
Context (content : K -> gmap text text) (opened : K -> gmap Z desc) (mem : K -> Z -> ascii).

Definition access (fl : Z) : Z := Z.land fl 3.
(** Only the access mode, [O_CREAT] and [O_SYNC] are set. *)
Definition plain_flags (fl : Z) : Prop := Z.ldiff fl (Z.lor 3 (Z.lor O_CREAT O_SYNC)) = 0.

(** Error numbers. *)
Definition is_errno (e : Z) : Prop := 0 < e < 4096.

(** Regular files. Every call can fail. [open] takes an unused descriptor; [pread] and [pwrite] transfer as
    much as was asked for or less, [pread] nothing only at the end of the file; [fstat] tells the size;
    [close] gives the descriptor back even when it reports an error. *)
Class FileKernel : Prop := {
  open_file : forall k p fl md c, content k !! p = Some c -> plain_flags fl ->
    let '(r, k') := open os p fl md k in
    content k' = content k /\ mem k' = mem k /\
    match r with
    | inl fd => 0 <= fd /\ opened k !! fd = None /\ opened k' = <[fd := File p fl]> (opened k)
    | inr e => is_errno e /\ opened k' = opened k
    end;
  pread_file : forall k fd p fl c a len off, opened k !! fd = Some (File p fl) -> access fl <> O_WRONLY ->
    content k !! p = Some c -> 0 <= len < 2 ^ 63 -> 0 <= off < 2 ^ 63 ->
    let bs := take (Z.to_nat len) (drop (Z.to_nat off) c) in
    let '(r, k') := pread os fd a len off k in
    opened k' = opened k /\ content k' = content k /\
    (forall x, ~ a <= x < a + len -> mem k' x = mem k x) /\
    match r with
    | inl n => 0 <= n <= zlen bs /\ (n = 0 -> bs = []) /\ bytes_at (mem k') a (Z.to_nat n) = take (Z.to_nat n) bs
    | inr e => is_errno e
    end;
  pwrite_file : forall k fd p fl c a len off, opened k !! fd = Some (File p fl) -> access fl <> O_RDONLY ->
    content k !! p = Some c -> 0 < len < 2 ^ 63 -> 0 <= off < 2 ^ 63 ->
    let '(r, k') := pwrite os fd a len off k in
    opened k' = opened k /\ mem k' = mem k /\
    match r with
    | inl n => 0 <= n <= len /\
        content k' = (if n =? 0 then content k
                      else <[p := put (Z.to_nat off) (bytes_at (mem k) a (Z.to_nat n)) c]> (content k))
    | inr e => is_errno e /\ content k' = content k
    end;
  fstat_file : forall k fd p fl c, opened k !! fd = Some (File p fl) -> content k !! p = Some c ->
    let '(r, k') := fstat os fd k in
    opened k' = opened k /\ content k' = content k /\ mem k' = mem k /\
    match r with inl st => size st = zlen c | inr e => is_errno e end;
  close_file : forall k fd x, opened k !! fd = Some x ->
    let '(r, k') := close os fd k in
    opened k' = delete fd (opened k) /\ content k' = content k /\ mem k' = mem k /\
    match r with inl _ => True | inr e => is_errno e end
}.

(** A vector that reads or writes at an offset of a file given by path. *)
Record io_ok (ct : gmap text text) (iov : viovec) : Prop := {
  io_path : type (file iov) = VFILE_PATH;
  io_file : exists p, path (file iov) = Some p /\ is_Some (ct !! p);
  io_offset : 0 <= offset iov < 2 ^ 63;
  io_length : 0 <= length iov < 2 ^ 63
}.

Definition name_of (iov : viovec) : text := default [] (path (file iov)).

(** Addresses of the buffer of a vector. *)
Definition in_buffer (iov : viovec) (x : Z) : Prop := data iov <= x < data iov + length iov.

Definition apart (a b : viovec) : Prop := forall x, ~ (in_buffer a x /\ in_buffer b x).

(** The element after a read of [n] bytes, at least one unless the file has none there: [n] bytes of the
    file are in the buffer, and the flag tells whether they reach the end of the file. *)
Definition read_as (ct : gmap text text) (m : Z -> ascii) (iov iov' : viovec) : Prop :=
  let c := default [] (ct !! name_of iov) in
  let bs := found iov c in
  exists n, 0 <= n <= zlen bs /\ (n = 0 -> bs = [])
  /\ iov' = set_eof (set_length iov n) (offset iov + n =? zlen c)
  /\ bytes_at m (data iov) (Z.to_nat n) = take (Z.to_nat n) bs.

(** An element of which [n] bytes were written. *)
Definition shortened (iov iov' : viovec) : Prop := exists n, 0 <= n <= length iov /\ iov' = set_length iov n.

(** The files after a write; a write of nothing does not change the file. *)
Definition after_write (m : Z -> ascii) (iov : viovec) (ct : gmap text text) : gmap text text :=
  if length iov =? 0 then ct
  else alter (put (Z.to_nat (offset iov)) (bytes_at m (data iov) (Z.to_nat (length iov)))) (name_of iov) ct.

(** The outcome of writing an array from element [i] on: each element is written in part or whole, up to
    the first error; the element with the error was written or not. *)
Inductive wrote (m : Z -> ascii) : Z -> gmap text text -> list viovec -> vres -> list viovec -> gmap text text -> Prop :=
  | wrote_nil i ct : wrote m i ct [] no_index [] ct
  | wrote_cons i ct v v' l r l' ct' :
      shortened v v' -> wrote m (i + 1) (after_write m v' ct) l r l' ct' -> wrote m i ct (v :: l) r (v' :: l') ct'
  | wrote_fails i ct v v' l e ct' :
      is_errno e -> (v' = v /\ ct' = ct \/ shortened v v' /\ ct' = after_write m v' ct) ->
      wrote m i ct (v :: l) (vfailure i e) (v' :: l) ct'.

(** The outcome of reading an array, with the memory afterwards. *)
Inductive was_read (ct : gmap text text) (m : Z -> ascii) : Z -> list viovec -> vres -> list viovec -> Prop :=
  | was_read_nil i : was_read ct m i [] no_index []
  | was_read_cons i v v' l r l' :
      read_as ct m v v' -> was_read ct m (i + 1) l r l' -> was_read ct m i (v :: l) r (v' :: l')
  | was_read_fails i v v' l e :
      is_errno e -> file v' = file v /\ offset v' = offset v /\ data v' = data v ->
      was_read ct m i (v :: l) (vfailure i e) (v' :: l).

(** The descriptors of an element that was not closed. *)
Definition leaked (o : gmap Z desc) (iov : viovec) (o' : gmap Z desc) : Prop :=
  exists fd, o !! fd = None /\ o' = <[fd := File (name_of iov) O_RDONLY]> o.

Context `{!FileKernel}.
Implicit Types s : pstate K.

(** A system call and what follows. *)
Lemma sysc_bind {A B} (c : call K A) (f : option A -> M (pstate K) B) s :
  (r ← sysc c; f r) s = match c (kern s) with
                        | (inl a, k) => f (Some a) (mk_ps k (errno s))
                        | (inr e, k) => f None (mk_ps k e)
                        end.
Proof. unfold mbind, M_bind, fbind, sysc. by destruct (c (kern s)) as [[a|e] k]. Qed.

Lemma found_length iov c : zlen (found iov c) <= Z.max 0 (length iov).
Proof. unfold found, zlen. rewrite length_take, length_drop. lia. Qed.

Lemma plain_read : plain_flags O_RDONLY. Proof. reflexivity. Qed.

Lemma plain_write iov : offset iov < 2 ^ 63 -> plain_flags (write_flags iov) /\ access (write_flags iov) <> O_RDONLY.
Proof.
  intros Ho. unfold write_flags. rewrite (proj2 (Z.eqb_neq (offset iov) TC_OFFSET_END)).
  2: { unfold TC_OFFSET_END, SIZE_MAX. lia. }
  destruct (is_creation iov), (is_write_stable iov); split; (reflexivity || discriminate).
Qed.
Lemma file_fd_path iov s p fl md last :
  type (file iov) = VFILE_PATH -> path (file iov) = Some p ->
  file_fd os (file iov) fl md last s = match open os p fl md (kern s) with
                                       | (inl fd, k) => done (Some fd, mk_ps k (errno s))
                                       | (inr e, k) => done (Some (-1), mk_ps k e)
                                       end.
Proof.
  intros Ht Hp. unfold file_fd, Psx.is_path, path_of. rewrite Ht, Hp, bool_decide_eq_true_2 by done.
  erewrite bind_done; [|reflexivity]. rewrite sysc_bind. by destruct (open os p fl md (kern s)) as [[fd|e] k].
Qed.

Lemma close_path_bind {B} iov s fd (f : option unit -> M (pstate K) B) :
  type (file iov) = VFILE_PATH ->
  (r ← close_path os (file iov) fd; f r) s = match close os fd (kern s) with
                                             | (inl a, k) => f (Some a) (mk_ps k (errno s))
                                             | (inr e, k) => f None (mk_ps k e)
                                             end.
Proof. intros Ht. unfold close_path, Psx.is_path. rewrite Ht, bool_decide_eq_true_2 by done. apply sysc_bind. Qed.

Lemma close_opened_bind {B} iov s fd (f : option Z -> M (pstate K) B) :
  type (file iov) = VFILE_PATH ->
  (e ← close_opened os (file iov) fd; f e) s = match close os fd (kern s) with
                                               | (inl _, k) => f None (mk_ps k (errno s))
                                               | (inr e, k) => f (Some e) (mk_ps k e)
                                               end.
Proof.
  intros Ht. unfold mbind at 1, M_bind at 1, fbind. unfold close_opened. rewrite close_path_bind by done.
  by destruct (close os fd (kern s)) as [[[]|e] k].
Qed.

Lemma opened_closed (m : gmap Z desc) fd x : m !! fd = None -> delete fd (<[fd := x]> m) = m.
Proof. apply delete_insert_id. Qed.

Lemma write_elem_spec iov s vars :
  io_ok (content (kern s)) iov -> 0 < length iov ->
  exists r iov' vars' k' e, write_elem os iov vars s = done (r, iov', vars', mk_ps k' e)
  /\ opened k' = opened (kern s) /\ mem k' = mem (kern s)
  /\ match r with
     | None => shortened iov iov' /\ content k' = after_write (mem (kern s)) iov' (content (kern s)) /\ vars'.2 = length iov'
     | Some err => is_errno err /\
         (iov' = iov /\ content k' = content (kern s)
          \/ shortened iov iov' /\ content k' = after_write (mem (kern s)) iov' (content (kern s)))
     end.
Proof.
  intros [Ht (p & Hp & c & Hc) Ho Hl] Hpos. assert (name_of iov = p) as Hn by (unfold name_of; by rewrite Hp).
  destruct (plain_write iov) as [Hpl Hac]; [lia|]. destruct vars as [last w]. unfold write_elem.
  pose proof (file_fd_path iov s p (write_flags iov) 420 last Ht Hp) as Efd.
  pose proof (open_file (kern s) p (write_flags iov) 420 c Hc Hpl) as Hopen.
  destruct (open os p (write_flags iov) 420 (kern s)) as [[fd|e] k1].
  2: { destruct Hopen as (Hc1 & Hm1 & He & Ho1). rewrite (bind_done _ _ _ _ _ Efd).
       exists (Some e), iov, (Some (-1), w), k1, e. split_and!; [done | done | done | done | by left]. }
  destruct Hopen as (Hc1 & Hm1 & Hfd & Hu & Ho1). rewrite (bind_done _ _ _ _ _ Efd).
  erewrite bind_done; [|reflexivity]. rewrite (proj2 (Z.ltb_ge fd 0)) by lia. unfold write_offset.
  rewrite (proj2 (Z.eqb_neq (offset iov) TC_OFFSET_END)) by (unfold TC_OFFSET_END, SIZE_MAX; lia).
  rewrite s64_small by lia. erewrite bind_done; [|reflexivity].
  rewrite (proj2 (Z.ltb_lt 0 (length iov))) by lia. rewrite u64_small by lia.
  rewrite (proj2 (Z.eqb_neq (offset iov) TC_OFFSET_CUR)) by (unfold TC_OFFSET_CUR, SIZE_MAX; lia).
  rewrite sysc_bind. cbn [kern errno].
  pose proof (pwrite_file k1 fd p (write_flags iov) c (data iov) (length iov) (offset iov)) as Hw.
  destruct (pwrite os fd (data iov) (length iov) (offset iov) k1) as [r k2].
  destruct Hw as (Ho2 & Hm2 & Hw); [by rewrite Ho1, lookup_insert_eq | done | by rewrite Hc1 | lia | done |].
  pose proof (close_file k2 fd (File p (write_flags iov))) as Hcl.
  destruct r as [n|e].
  - destruct Hw as [Hn' Hc2]. rewrite close_opened_bind by done. cbn [kern errno].
    destruct (close os fd k2) as [rc k3]. destruct Hcl as (Ho3 & Hc3 & Hm3 & He); [by rewrite Ho2, Ho1, lookup_insert_eq|].
    assert (opened k3 = opened (kern s)) as Hop by (by rewrite Ho3, Ho2, Ho1, opened_closed).
    assert (shortened iov (set_length iov (u64 n))) as Hsh by (exists n; rewrite u64_small by lia; split; [lia | done]).
    assert (content k3 = after_write (mem (kern s)) (set_length iov (u64 n)) (content (kern s))) as Hco.
    { rewrite Hc3, Hc2, Hc1, Hm1. unfold after_write. rewrite u64_small by lia. cbn [set_length length offset data].
      destruct (n =? 0); [done|]. change (name_of (set_length iov n)) with (name_of iov). rewrite Hn. apply map_eq. intros q.
      destruct (decide (q = p)) as [->|Hq]; [by rewrite lookup_insert_eq, lookup_alter_eq, Hc |
        by rewrite lookup_insert_ne, lookup_alter_ne by done]. }
    destruct rc as [[]|e].
    + exists None. do 4 eexists. split_and!; [reflexivity | done | congruence | done | done |].
      cbn. symmetry. apply u64_small. lia.
    + exists (Some e). do 4 eexists. split_and!; [reflexivity | done | congruence | done | by right].
  - destruct Hw as [He Hc2]. rewrite close_path_bind by done. cbn [kern errno].
    destruct (close os fd k2) as [rc k3]. destruct Hcl as (Ho3 & Hc3 & Hm3 & He'); [by rewrite Ho2, Ho1, lookup_insert_eq|].
    assert (opened k3 = opened (kern s)) as Hop by (by rewrite Ho3, Ho2, Ho1, opened_closed).
    destruct rc as [[]|e']; eexists (Some _), iov, _, k3, _; split_and!;
      try reflexivity; try done; try congruence; left; (split; [done | congruence]).
Qed.


Lemma write_elem_empty iov s last w :
  io_ok (content (kern s)) iov -> length iov = 0 ->
  exists r iov' vars' k' e, write_elem os iov (last, w) s = done (r, iov', vars', mk_ps k' e)
  /\ match r with None => iov' = set_length iov (u64 w) | Some err => is_errno err end.
Proof.
  intros [Ht (p & Hp & c & Hc) Ho Hl] Hz. destruct (plain_write iov) as [Hpl _]; [lia|]. unfold write_elem.
  pose proof (file_fd_path iov s p (write_flags iov) 420 last Ht Hp) as Efd.
  pose proof (open_file (kern s) p (write_flags iov) 420 c Hc Hpl) as Hopen.
  destruct (open os p (write_flags iov) 420 (kern s)) as [[fd|e] k1]; rewrite (bind_done _ _ _ _ _ Efd).
  2: { destruct Hopen as (_ & _ & He & _). by exists (Some e), iov, (Some (-1), w), k1, e. }
  destruct Hopen as (_ & _ & Hfd & _ & Ho1).
  erewrite bind_done; [|reflexivity]. rewrite (proj2 (Z.ltb_ge fd 0)) by lia. unfold write_offset.
  rewrite (proj2 (Z.eqb_neq (offset iov) TC_OFFSET_END)) by (unfold TC_OFFSET_END, SIZE_MAX; lia).
  erewrite bind_done; [|reflexivity]. rewrite Hz. cbn [Z.ltb Z.compare]. erewrite bind_done; [|reflexivity].
  cbv beta iota. rewrite close_opened_bind by done. cbn [kern errno].
  pose proof (close_file k1 fd (File p (write_flags iov))) as Hcl. destruct (close os fd k1) as [[[]|e] k2];
    (destruct Hcl as (_ & _ & _ & He); [by rewrite Ho1, lookup_insert_eq|]).
  - exists None. do 4 eexists. by split.
  - exists (Some e). do 4 eexists. by split.
Qed.

Lemma io_ok_after_write m iov w ct : io_ok ct iov -> io_ok (after_write m w ct) iov.
Proof.
  intros [Ht (p & Hp & Hc) Ho Hl]. split; try done. exists p. split; [done|].
  unfold after_write. destruct (_ =? _); [done|]. by apply lookup_alter_is_Some.
Qed.

(** What an array of writes keeps: the elements can still be read, and no file becomes too large. *)
Lemma wrote_keeps m i ct ws r ws' ct' iov : wrote m i ct ws r ws' ct' -> io_ok ct iov -> io_ok ct' iov.
Proof.
  induction 1 as [|? ? ? ? ? ? ? ? ? ? IH|? ? ? ? ? ? ? ? [[_ ->]|[_ ->]]]; intros H'; [done | |done|].
  - by apply IH, io_ok_after_write.
  - by apply io_ok_after_write.
Qed.

(** The files that vectors name are smaller than the largest offset. *)
Definition small_files (ct : gmap text text) : Prop := map_Forall (fun _ c => zlen c < 2 ^ 63) ct.

Lemma small_after_write m v v' ct :
  shortened v v' -> 0 <= offset v -> offset v + length v < 2 ^ 63 -> small_files ct -> small_files (after_write m v' ct).
Proof.
  intros (n & Hn & ->) Ho Hl Hs. unfold after_write. destruct (_ =? _); [done|]. intros q c Hq.
  apply lookup_alter_Some in Hq as [(_ & c0 & Hc0 & ->)|[_ Hq]]; [|by eapply Hs].
  specialize (Hs _ _ Hc0). cbn in Hs. unfold zlen in *. rewrite put_length, length_bytes_at. cbn [set_length length offset]. lia.
Qed.

Lemma wrote_small m i ct ws r ws' ct' :
  wrote m i ct ws r ws' ct' -> Forall (fun iov => 0 <= offset iov /\ offset iov + length iov < 2 ^ 63) ws ->
  small_files ct -> small_files ct'.
Proof.
  induction 1 as [|? ? ? ? ? ? ? ? Hs ? IH|? ? ? ? ? ? ? ? [[_ ->]|[Hs ->]]]; intros Hall H'; [done | |done|];
    apply Forall_cons in Hall as [[Ho Hl] Hall].
  - apply IH; [done|]. by eapply small_after_write.
  - by eapply small_after_write.
Qed.

Lemma posix_writev_spec arg s vars i :
  Forall (fun iov => io_ok (content (kern s)) iov /\ 0 < length iov) arg ->
  exists r arg' k' e, until_failure no_index (write_elem os) i arg vars s = done (r, arg', mk_ps k' e)
  /\ opened k' = opened (kern s) /\ mem k' = mem (kern s)
  /\ wrote (mem (kern s)) i (content (kern s)) arg r arg' (content k').
Proof.
  revert s vars i. induction arg as [|iov arg IH]; intros s vars i Hall.
  - exists no_index, [], (kern s), (errno s). split_and!; [by destruct s | done | done | constructor].
  - apply Forall_cons in Hall as [[Hio Hl] Hall].
    destruct (write_elem_spec iov s vars Hio Hl) as (r & iov' & vars' & k1 & e & E1 & Ho1 & Hm1 & Hr).
    cbn [until_failure]. rewrite (bind_done _ _ _ _ _ E1). cbv beta iota. destruct r as [err|].
    + destruct Hr as [He Hr]. exists (vfailure i err), (iov' :: arg), k1, e. split_and!; [done | done | done|].
      by constructor.
    + destruct Hr as (Hsh & Hc1 & _).
      destruct (IH (mk_ps k1 e) vars' (i + 1)) as (r & arg' & k2 & e2 & E2 & Ho2 & Hm2 & Hw); cbn [kern errno] in *.
      { eapply Forall_impl; [exact Hall|]. cbn. intros v [Hv Hv']. split; [|done]. rewrite Hc1. by apply io_ok_after_write. }
      rewrite (bind_done _ _ _ _ _ E2). exists r, (iov' :: arg'), k2, e2. split_and!; [done | congruence | congruence|].
      rewrite Hm1, Hc1 in Hw. by econstructor.
Qed.

Lemma read_elem_spec iov s last :
  io_ok (content (kern s)) iov -> is_direct_io iov = false -> small_files (content (kern s)) ->
  exists r iov' fd k' e, read_elem os iov last s = done (r, iov', fd, mk_ps k' e)
  /\ content k' = content (kern s) /\ (forall x, ~ in_buffer iov x -> mem k' x = mem (kern s) x)
  /\ match r with
     | None => read_as (content (kern s)) (mem k') iov iov' /\ opened k' = opened (kern s)
     | Some err => is_errno err /\ (file iov' = file iov /\ offset iov' = offset iov /\ data iov' = data iov)
         /\ (opened k' = opened (kern s) \/ leaked (opened (kern s)) iov (opened k'))
     end.
Proof.
  intros [Ht (p & Hp & c & Hc) Ho Hl] Hd Hsz. assert (name_of iov = p) as Hn by (unfold name_of; by rewrite Hp).
  specialize (Hsz p c Hc). cbn in Hsz. unfold read_elem. rewrite Hd.
  pose proof (file_fd_path iov s p O_RDONLY 0 last Ht Hp) as Efd.
  pose proof (open_file (kern s) p O_RDONLY 0 c Hc plain_read) as Hopen.
  destruct (open os p O_RDONLY 0 (kern s)) as [[fd|e] k1]; rewrite (bind_done _ _ _ _ _ Efd).
  2: { destruct Hopen as (Hc1 & Hm1 & He & Ho1). exists (Some e), iov, (Some (-1)), k1, e.
       split_and!; [done | done | by intros; rewrite Hm1 | done | done | done | done | by left]. }
  destruct Hopen as (Hc1 & Hm1 & Hfd & Hu & Ho1).
  erewrite bind_done; [|reflexivity]. rewrite (proj2 (Z.ltb_ge fd 0)) by lia.
  assert ((offset iov =? TC_OFFSET_CUR) = false) as Hcur.
  { apply Z.eqb_neq. unfold TC_OFFSET_CUR, SIZE_MAX. lia. }
  rewrite Hcur, s64_small by lia. rewrite sysc_bind. cbn [kern errno].
  pose proof (pread_file k1 fd p O_RDONLY c (data iov) (length iov) (offset iov)) as Hr.
  destruct (pread os fd (data iov) (length iov) (offset iov) k1) as [r k2].
  destruct Hr as (Ho2 & Hc2 & Hm2 & Hr); [by rewrite Ho1, lookup_insert_eq | done | by rewrite Hc1 | done | done |].
  assert (forall x, ~ in_buffer iov x -> mem k2 x = mem (kern s) x) as Hmem.
  { intros x Hx. rewrite Hm2 by done. by rewrite Hm1. }
  assert (forall k, opened k = opened k2 -> delete fd (opened k) = opened (kern s)) as Hdel.
  { intros k ->. by rewrite Ho2, Ho1, opened_closed. }
  destruct r as [n|e].
  2: { rewrite close_path_bind by done. cbn [kern errno].
       pose proof (close_file k2 fd (File p O_RDONLY)) as Hcl. destruct (close os fd k2) as [rc k3].
       destruct Hcl as (Ho3 & Hc3 & Hm3 & He'); [by rewrite Ho2, Ho1, lookup_insert_eq|]. rewrite (Hdel k2) in Ho3 by done.
       destruct rc as [[]|e']; eexists (Some _), iov, _, k3, _; split_and!; try reflexivity; try done;
         try congruence; try (intros x Hx; rewrite Hm3; by apply Hmem); by left. }
  destruct Hr as (Hn' & Hz & Hb). fold (found iov c) in Hn', Hz, Hb. pose proof (found_length iov c).
  rewrite (u64_small n) by lia. rewrite sysc_bind. cbn [kern errno].
  pose proof (fstat_file k2 fd p O_RDONLY c) as Hst. destruct (fstat os fd k2) as [rs k3].
  destruct Hst as (Ho3 & Hc3 & Hm3 & Hst); [by rewrite Ho2, Ho1, lookup_insert_eq | by rewrite Hc2, Hc1 |].
  destruct rs as [st|e].
  2: { eexists (Some _), _, _, k3, _. split_and!; try reflexivity; try done; try congruence.
       - intros x Hx. rewrite Hm3. by apply Hmem.
       - right. exists fd. split; [done|]. rewrite Hn. congruence. }
  cbn [offset set_length length file]. rewrite Hcur. erewrite bind_done; [|reflexivity].
  rewrite close_opened_bind by done. cbn [kern errno].
  pose proof (close_file k3 fd (File p O_RDONLY)) as Hcl. destruct (close os fd k3) as [rc k4].
  destruct Hcl as (Ho4 & Hc4 & Hm4 & He'); [by rewrite Ho3, Ho2, Ho1, lookup_insert_eq|]. rewrite (Hdel k3) in Ho4 by done.
  rewrite Hst, !u64_small by (unfold zlen in *; lia).
  destruct rc as [[]|e']; [exists None | exists (Some e')]; do 3 eexists; eexists; (split_and!; [reflexivity | congruence | |..]);
    try done; try (intros x Hx; rewrite Hm4, Hm3; by apply Hmem); [|by left].
  unfold read_as. rewrite Hn, Hc. cbn [default from_option id]. exists n. split; [lia|]. split_and!; [done | done|].
  by rewrite Hm4, Hm3.
Qed.

(** No two buffers overlap. *)
Definition buffers_apart (l : list viovec) : Prop := ForallOrdPairs apart l.

Lemma read_as_ext ct m m' iov iov' :
  (forall x, in_buffer iov x -> m x = m' x) -> read_as ct m iov iov' -> read_as ct m' iov iov'.
Proof.
  intros Hm (n & Hn & Hz & -> & Hb). exists n. split; [done|]. split_and!; [done | done|]. rewrite <- Hb.
  apply bytes_at_ext. intros x Hx. symmetry. apply Hm. unfold in_buffer.
  pose proof (found_length iov (default [] (ct !! name_of iov))). lia.
Qed.

Lemma was_read_ext ct m m' i l r l' :
  Forall (fun iov => forall x, in_buffer iov x -> m x = m' x) l -> was_read ct m i l r l' -> was_read ct m' i l r l'.
Proof.
  intros Hall Hr. induction Hr as [|? ? ? ? ? ? Ha _ IH|]; [constructor | |by constructor].
  apply Forall_cons in Hall as [Hx Hall]. constructor; [by eapply read_as_ext | by apply IH].
Qed.

(** Descriptors after a read: as before, or with one that was not closed after an error. *)
Definition descs_after (l : list viovec) (r : vres) (o o' : gmap Z desc) : Prop :=
  o' = o \/ vokay r = false /\ exists iov, iov ∈ l /\ leaked o iov o'.

Lemma posix_readv_spec arg s last i :
  Forall (fun iov => io_ok (content (kern s)) iov /\ is_direct_io iov = false) arg ->
  small_files (content (kern s)) -> buffers_apart arg ->
  exists r arg' k' e, until_failure no_index (read_elem os) i arg last s = done (r, arg', mk_ps k' e)
  /\ content k' = content (kern s) /\ descs_after arg r (opened (kern s)) (opened k')
  /\ was_read (content (kern s)) (mem k') i arg r arg'
  /\ (forall x, Forall (fun iov => ~ in_buffer iov x) arg -> mem k' x = mem (kern s) x).
Proof.
  intros Hall Hsz Ha. revert s last i Hall Hsz. induction Ha as [|iov arg Hfa Hap IH]; intros s last i Hall Hsz.
  - exists no_index, [], (kern s), (errno s). split_and!; [by destruct s | done | by left | constructor | done].
  - apply Forall_cons in Hall as [[Hio Hd] Hall].
    destruct (read_elem_spec iov s last Hio Hd Hsz) as (r & iov' & fd & k1 & e & E1 & Hc1 & Hm1 & Hr).
    cbn [until_failure]. rewrite (bind_done _ _ _ _ _ E1). cbv beta iota. destruct r as [err|].
    + destruct Hr as (He & Hsame & Hop). exists (vfailure i err), (iov' :: arg), k1, e. split_and!; [done | done | | |].
      * destruct Hop as [Hop|Hop]; [by left | right]. split; [|exists iov; split; [left | done]].
        unfold vokay, vfailure. cbn [err_no]. apply Z.eqb_neq. unfold is_errno in He. lia.
      * by constructor.
      * intros x [Hx _]%Forall_cons. by apply Hm1.
    + destruct Hr as [Hra Ho1].
      destruct (IH (mk_ps k1 e) fd (i + 1)) as (r & arg' & k2 & e2 & E2 & Hc2 & Ho2 & Hr2 & Hm2); cbn [kern errno] in *;
        [by rewrite Hc1 | by rewrite Hc1|]. rewrite Hc1 in *. rewrite Ho1 in Ho2.
      rewrite (bind_done _ _ _ _ _ E2). exists r, (iov' :: arg'), k2, e2. split_and!; [done | done | | |].
      * destruct Ho2 as [Ho2|(Hv & v & Hin & Hlk)]; [by left | right]. split; [done|]. exists v. split; [by right | done].
      * constructor; [|done]. eapply read_as_ext; [|exact Hra]. intros x Hx. symmetry. apply Hm2.
        eapply Forall_impl; [exact Hfa|]. cbn. intros b Hb Hbx. by apply (Hb x).
      * intros x [Hx Hxs]%Forall_cons. rewrite Hm2 by done. by apply Hm1.
Qed.

(** An array that was written or read without an error. *)
Lemma wrote_ok m i ct ws r ws' ct' :
  wrote m i ct ws r ws' ct' -> vokay r = true ->
  Forall2 shortened ws ws' /\ ct' = foldl (fun ct iov => after_write m iov ct) ct ws'.
Proof.
  induction 1 as [|? ? ? ? ? ? ? ? Hs _ IH|? ? ? ? ? ? ? He _]; intros Hok; [by split | |].
  - destruct (IH Hok) as [H1 ->]. split; [by constructor | done].
  - exfalso. revert Hok. unfold vokay, vfailure. cbn [err_no]. unfold is_errno in He. rewrite Z.eqb_eq. lia.
Qed.

Lemma was_read_ok ct m i rs r rs' : was_read ct m i rs r rs' -> vokay r = true -> Forall2 (read_as ct m) rs rs'.
Proof.
  induction 1 as [|? ? ? ? ? ? Hs _ IH|? ? ? ? ? He _]; intros Hok; [done | constructor; auto |].
  exfalso. revert Hok. unfold vokay, vfailure. cbn [err_no]. unfold is_errno in He. rewrite Z.eqb_eq. lia.
Qed.

End files.

(** ** Copies *)

Section pipes.
Context {K : Type} (os : sys K).
Context (content : K -> gmap text text) (opened : K -> gmap Z desc) (mem : K -> Z -> ascii).
(** The bytes in the pipes. *)
Context (piped : K -> Z -> text).

(** Every call can fail. [splice] moves up to as many bytes as it was asked for: from a file to the end of a
    pipe, none only at the end of the file, and from the front of a pipe that has them to a file, at least
    one when one was asked for. Only calls that return are modelled; [splice] to a full pipe would block. *)
Class PipeKernel : Prop := {
  pipe_new : forall k,
    let '(r, k') := pipe os k in
    content k' = content k /\
    match r with
    | inl (rd, wr) => opened k !! rd = None /\ opened k !! wr = None /\ rd <> wr /\
        exists i, opened k' = <[wr := PipeWrite i]> (<[rd := PipeRead i]> (opened k)) /\ piped k' i = []
    | inr e => is_errno e /\ opened k' = opened k
    end;
  splice_in : forall k fd p fl c wr i off len, opened k !! fd = Some (File p fl) -> access fl <> O_WRONLY ->
    content k !! p = Some c -> opened k !! wr = Some (PipeWrite i) -> 0 <= off < 2 ^ 63 -> 0 < len ->
    let bs := take (Z.to_nat len) (drop (Z.to_nat off) c) in
    let '(r, k') := splice os fd (Some off) wr None len k in
    opened k' = opened k /\ content k' = content k /\
    match r with
    | inl n => 0 <= n <= zlen bs /\ (n = 0 -> bs = []) /\ piped k' i = piped k i ++ take (Z.to_nat n) bs
    | inr e => is_errno e
    end;
  splice_out : forall k fd p fl c rd i off len, opened k !! fd = Some (File p fl) -> access fl <> O_RDONLY ->
    content k !! p = Some c -> opened k !! rd = Some (PipeRead i) -> 0 <= off < 2 ^ 63 ->
    0 <= len <= zlen (piped k i) ->
    let '(r, k') := splice os rd None fd (Some off) len k in
    opened k' = opened k /\
    match r with
    | inl n => 0 <= n <= len /\ (n = 0 -> len = 0) /\ piped k' i = drop (Z.to_nat n) (piped k i) /\
        content k' = (if n =? 0 then content k
                      else <[p := put (Z.to_nat off) (take (Z.to_nat n) (piped k i)) c]> (content k))
    | inr e => is_errno e /\ exists c', content k' = <[p := c']> (content k)
    end
}.

Context `{!FileKernel os content opened mem} `{!PipeKernel}.
Implicit Types s : pstate K.

(** The descriptors of a copy. *)
Record copying (k : K) (srcfd dstfd rd wr i : Z) (p q : text) (c d : text) : Prop := {
  cp_src : exists fl, opened k !! srcfd = Some (File p fl) /\ access fl <> O_WRONLY;
  cp_dst : exists fl, opened k !! dstfd = Some (File q fl) /\ access fl <> O_RDONLY;
  cp_rd : opened k !! rd = Some (PipeRead i);
  cp_wr : opened k !! wr = Some (PipeWrite i);
  cp_from : content k !! p = Some c;
  cp_to : content k !! q = Some d;
  cp_other : p <> q
}.

(** The content of the destination after the bytes [bs]. *)
Definition copied_to (ct : gmap text text) (q : text) (dof : Z) (bs d : text) : gmap text text :=
  match bs with [] => ct | _ => <[q := put (Z.to_nat dof) bs d]> ct end.

(** A round of the loop: how many bytes went into the pipe and how many came out. *)
Definition round_ok (r : Z * Z) : Prop := 0 < r.2 <= r.1 /\ r.1 <= 64 * 1024.

(** What goes through the pipe: the source is read again from the first byte that did not come out. *)
Fixpoint stream (c : text) (so : Z) (rounds : list (Z * Z)) : text :=
  match rounds with
  | [] => []
  | (n1, n2) :: rounds => take (Z.to_nat n1) (drop (Z.to_nat so) c) ++ stream c (so + n2) rounds
  end.

Definition moved (rounds : list (Z * Z)) : Z := foldr (fun r n => r.2 + n) 0 rounds.

Lemma stream_nonempty c so rounds n :
  Forall round_ok rounds -> moved rounds = n -> 0 < n -> so + n <= zlen c -> 0 <= so ->
  take (Z.to_nat n) (stream c so rounds) <> [].
Proof.
  intros Hok Hm Hn Hfit Hso. destruct rounds as [|[n1 n2] rounds]; [unfold moved in Hm; cbn in Hm; lia|].
  apply Forall_cons in Hok as [[Hr _] _]. cbn [fst snd] in Hr. cbn [stream]. intros E. apply (f_equal List.length) in E.
  rewrite length_take, length_app, length_take, length_drop in E. unfold zlen in *. cbn in E. lia.
Qed.

Lemma moved_pos rounds : Forall (fun r => 0 <= r.2) rounds -> 0 <= moved rounds.
Proof. induction 1 as [|r rounds Hr _ IH]; [done|]. unfold moved in *. cbn [foldr]. lia. Qed.

(** When all comes out of the pipe that goes in, the stream is the content of the source. *)
Lemma stream_full c so rounds :
  Forall (fun r => r.1 = r.2 /\ 0 <= r.2) rounds -> 0 <= so ->
  stream c so rounds = take (Z.to_nat (moved rounds)) (drop (Z.to_nat so) c).
Proof.
  intros Hall. revert so. induction Hall as [|[n1 n2] rounds [E Hn] Hall IH]; intros so Hso; [done|].
  cbn [fst snd] in *. subst n1. cbn [stream moved foldr snd]. rewrite IH by lia. fold (moved rounds).
  assert (0 <= moved rounds) by (apply moved_pos; eapply Forall_impl; [exact Hall|]; by intros ? [_ ?]).
  rewrite (Z2Nat.inj_add n2), take_plus, drop_drop by lia. do 3 f_equal. lia.
Qed.

Lemma copied_to_app ct q dof w rest d :
  w <> [] -> 0 <= dof -> copied_to (<[q := put (Z.to_nat dof) w d]> ct) q (dof + zlen w) rest (put (Z.to_nat dof) w d)
    = copied_to ct q dof (w ++ rest) d.
Proof.
  intros Hw Hd. destruct w as [|b w'] eqn:Ew; [done|]. rewrite <- Ew. destruct rest as [|x rest']; cbn [copied_to].
  - by rewrite app_nil_r, Ew.
  - rewrite insert_insert_eq, Ew. cbn [app copied_to]. rewrite app_comm_cons, <- Ew. f_equal.
    replace (Z.to_nat (dof + zlen w)) with (Z.to_nat dof + List.length w)%nat by (unfold zlen; lia). apply put_put.
Qed.

Lemma copied_to_take (ct : gmap text text) q dof (n : Z) bs d :
  0 <= n <= zlen bs ->
  (if n =? 0 then ct else <[q := put (Z.to_nat dof) (take (Z.to_nat n) bs) d]> ct) = copied_to ct q dof (take (Z.to_nat n) bs) d.
Proof.
  intros Hn. destruct (Z.eqb_spec n 0) as [->|Hz]; [done|].
  destruct (take (Z.to_nat n) bs) eqn:E; [|done]. apply (f_equal List.length) in E.
  rewrite length_take in E. unfold zlen in *. cbn in E. lia.
Qed.

Lemma min_eq a b : Psx.min a b = Z.min a b.
Proof. unfold Psx.min. destruct (Z.ltb_spec a b); lia. Qed.

(** One round of the loop, and what follows. *)
Lemma splice_round (f : Z -> M (pstate K) Z) k e srcfd dstfd rd wr i p q c d so dof len :
  copying k srcfd dstfd rd wr i p q c d -> 0 <= so < 2 ^ 63 -> 0 <= dof < 2 ^ 63 -> 0 < len ->
  let bs := take (Z.to_nat len) (drop (Z.to_nat so) c) in
  let round := (n1 ← sysc (splice os srcfd (Some so) wr None len);
     match n1 with
     | None => e ← get_errno; mret (- e)
     | Some n1 =>
         n2 ← sysc (splice os rd None dstfd (Some dof) n1);
         match n2 with None => e ← get_errno; mret (- e) | Some n2 => f n2 end
     end) (mk_ps k e) in
  (exists err d' k' e', round = done (- err, mk_ps k' e') /\ is_errno err /\ opened k' = opened k
     /\ content k' = <[q := d']> (content k))
  \/ exists n1 n2 k', round = f n2 (mk_ps k' e) /\ 0 <= n2 <= n1 /\ n1 <= zlen bs /\ (n1 = 0 -> bs = []) /\ (n2 = 0 -> n1 = 0)
     /\ opened k' = opened k /\ piped k' i = drop (Z.to_nat n2) (piped k i ++ take (Z.to_nat n1) bs)
     /\ content k' = copied_to (content k) q dof (take (Z.to_nat n2) (piped k i ++ take (Z.to_nat n1) bs)) d.
Proof.
  intros [(fl & Hs & Hfl) (fl' & Hd & Hfl') Hr Hw Hf Hq Hpq] Hso Hdo Hl bs round. subst round.
  rewrite sysc_bind. cbn [kern errno].
  pose proof (splice_in k srcfd p fl c wr i so len Hs Hfl Hf Hw Hso Hl) as Hin. cbv zeta in Hin. fold bs in Hin.
  destruct (splice os srcfd (Some so) wr None len k) as [[n1|err] k1].
  2: { destruct Hin as (Ho1 & Hc1 & He). left. exists err, d, k1, err. split_and!; [done | done | done |].
       by rewrite Hc1, insert_id. }
  destruct Hin as (Ho1 & Hc1 & Hn1 & Hz1 & Hp1). rewrite sysc_bind. cbn [kern errno].
  assert (zlen (piped k1 i) = zlen (piped k i) + n1) as Hlen.
  { rewrite Hp1. unfold zlen in *. rewrite length_app, length_take. lia. }
  pose proof (splice_out k1 dstfd q fl' d rd i dof n1) as Hout.
  destruct (splice os rd None dstfd (Some dof) n1 k1) as [[n2|err] k2];
    (destruct Hout as (Ho2 & Hout);
      [by rewrite Ho1 | done | by rewrite Hc1 | by rewrite Ho1 | done | unfold zlen in *; lia |]).
  - destruct Hout as (Hn2 & Hz2 & Hp2 & Hc2). right. exists n1, n2, k2.
    split_and!; [done | lia | lia | lia | done | lia | congruence | by rewrite Hp2, Hp1 |].
    rewrite Hc2, Hc1, Hp1. apply copied_to_take. rewrite <- Hp1. unfold zlen in *. lia.
  - destruct Hout as (He & c' & Hc2). left. exists err, c', k2, err. split_and!; [done | done | congruence | congruence].
Qed.

Lemma copying_after k k' srcfd dstfd rd wr i p q c d d' :
  copying k srcfd dstfd rd wr i p q c d -> opened k' = opened k -> content k' !! q = Some d' ->
  (forall x, x <> q -> content k' !! x = content k !! x) -> copying k' srcfd dstfd rd wr i p q c d'.
Proof.
  intros [Hs Hd Hr Hw Hf Hq Hpq] Ho Hq' Hx. split; rewrite ?Ho; try done. by rewrite Hx.
Qed.

Lemma copied_to_lookup ct q dof bs d x :
  ct !! q = Some d ->
  (exists d', copied_to ct q dof bs d !! q = Some d') /\ (x <> q -> copied_to ct q dof bs d !! x = ct !! x).
Proof.
  intros Hq. unfold copied_to. destruct bs as [|b bs]; [by eauto|]. split; [rewrite lookup_insert_eq; by eauto|].
  intros Hx. by rewrite lookup_insert_ne.
Qed.

(** The state after a round is again one of a copy. *)
Lemma round_copying k k' srcfd dstfd rd wr i p q c d dof bs :
  copying k srcfd dstfd rd wr i p q c d -> opened k' = opened k -> content k' = copied_to (content k) q dof bs d ->
  exists d', copying k' srcfd dstfd rd wr i p q c d' /\ content k' !! q = Some d'.
Proof.
  intros Hc Ho Hk. pose proof (cp_to _ _ _ _ _ _ _ _ _ _ Hc) as Hq.
  destruct (proj1 (copied_to_lookup (content k) q dof bs d q Hq)) as [d' Hd']. exists d'. rewrite Hk. split; [|done].
  eapply copying_after; [done | done | by rewrite Hk |]. intros x Hx. rewrite Hk.
  by apply (copied_to_lookup (content k) q dof bs d x Hq).
Qed.

(** The loop copies a piece that the file has, with one round per byte at most. *)
Lemma splice_loop_copies fuel k e srcfd dstfd rd wr i p q c d so dof count copied :
  copying k srcfd dstfd rd wr i p q c d ->
  0 <= so -> 0 <= dof -> copied <= count -> so + (count - copied) <= zlen c -> zlen c < 2 ^ 63 ->
  dof + (count - copied) < 2 ^ 63 -> count - copied <= Z.of_nat fuel ->
  exists r k' e', splice_loop os fuel srcfd so dstfd dof count copied rd wr (mk_ps k e) = done (r, mk_ps k' e')
  /\ opened k' = opened k
  /\ ((exists err d', is_errno err /\ r = - err /\ content k' = <[q := d']> (content k))
      \/ r = count /\ exists rounds, Forall round_ok rounds /\ moved rounds = count - copied
         /\ content k' = copied_to (content k) q dof
              (take (Z.to_nat (count - copied)) (piped k i ++ stream c so rounds)) d).
Proof.
  revert k d so dof copied. induction fuel as [|fuel IH]; intros k d so dof copied Hc Hso Hdo Hle Hfit Hlen Hd Hf.
  { exists count, k, e. replace copied with count by lia. cbn [splice_loop]. rewrite Z.ltb_irrefl.
    split_and!; [done | done|]. right. split; [done|]. exists []. by rewrite Z.sub_diag. }
  cbn [splice_loop]. destruct (Z.ltb_spec copied count) as [Hlt|Hge].
  2: { exists count, k, e. replace copied with count by lia. split_and!; [done | done|].
       right. split; [done|]. exists []. by rewrite Z.sub_diag. }
  cbn [negb]. rewrite min_eq. set (len := Z.min (64 * 1024) (count - copied)). rewrite !s64_small by lia.
  destruct (splice_round (fun n2 => splice_loop os fuel srcfd (u64 (so + n2)) dstfd (u64 (dof + n2)) count (copied + n2) rd wr)
    k e srcfd dstfd rd wr i p q c d so dof len) as [(err & d' & k' & e' & E & He & Ho & Hk) | (n1 & n2 & k1 & E & Hn2 & Hn1 & Hz1 & Hz2 & Ho & Hp & Hk)];
    [done | lia | lia | lia | |]; cbv zeta in E; rewrite E; clear E.
  { exists (- err), k', e'. split_and!; [done | done|]. left. eauto. }
  set (bs := take (Z.to_nat len) (drop (Z.to_nat so) c)) in *.
  assert (zlen bs = len) as Hbs by (unfold bs, zlen; rewrite length_take, length_drop; unfold zlen in *; lia).
  assert (0 < n1) by (destruct (decide (n1 = 0)) as [E|]; [|lia]; specialize (Hz1 E); rewrite Hz1 in Hbs; unfold zlen in Hbs; cbn in Hbs; lia).
  assert (0 < n2) by lia. rewrite !u64_small by lia.
  destruct (round_copying _ _ _ _ _ _ _ _ _ _ _ _ _ Hc Ho Hk) as (d1 & Hc1 & Hd1).
  set (w1 := take (Z.to_nat n2) (piped k i ++ take (Z.to_nat n1) bs)) in *.
  assert (zlen w1 = n2) as Hw1.
  { unfold w1, zlen. rewrite length_take, length_app, length_take. unfold zlen in *. lia. }
  assert (w1 <> []) as Hne by (intros Ew; rewrite Ew in Hw1; unfold zlen in Hw1; cbn in Hw1; lia).
  assert (content k1 = <[q := put (Z.to_nat dof) w1 d]> (content k)) as Hk' by (rewrite Hk; by destruct w1).
  rewrite Hk', lookup_insert_eq in Hd1. injection Hd1 as <-.
  destruct (IH k1 _ (so + n2) (dof + n2) (copied + n2) Hc1) as (r & k' & e' & E & Ho' & Hr); [lia..|].
  rewrite E. exists r, k', e'. split_and!; [done | congruence|].
  destruct Hr as [(err & d' & He & -> & Hk2) | (-> & rounds & Hok & Hm & Hk2)].
  { left. exists err, d'. split_and!; [done | done|]. by rewrite Hk2, Hk', insert_insert_eq. }
  right. split; [done|]. exists ((n1, n2) :: rounds). split_and!.
  - constructor; [|done]. split; cbn; lia.
  - unfold moved in *. cbn. lia.
  - rewrite Hk2, Hk', <- Hw1, copied_to_app by done. f_equal. rewrite Hp, Hw1. cbn [stream]. fold bs.
    replace (take (Z.to_nat n1) (drop (Z.to_nat so) c)) with (take (Z.to_nat n1) bs)
      by (unfold bs; rewrite take_take; f_equal; lia).
    rewrite app_assoc. set (l := piped k i ++ take (Z.to_nat n1) bs) in *.
    replace (Z.to_nat (count - copied)) with (Z.to_nat n2 + Z.to_nat (count - (copied + n2)))%nat by lia.
    rewrite take_plus, (take_app_le l), (drop_app_le l); [done|..]; unfold l; rewrite length_app, length_take; unfold zlen in *; lia.
Qed.

(** A piece that goes past the end of the file is never copied: the loop goes on, or fails. *)
Lemma splice_loop_diverges fuel k e srcfd dstfd rd wr i p q c d so dof count copied :
  copying k srcfd dstfd rd wr i p q c d ->
  0 <= so < 2 ^ 63 -> 0 <= dof -> copied < count -> zlen c < so + (count - copied) -> zlen c < 2 ^ 63 ->
  dof + Z.max 0 (zlen c - so) < 2 ^ 63 ->
  splice_loop os fuel srcfd so dstfd dof count copied rd wr (mk_ps k e) = Ok None
  \/ exists err k' e', splice_loop os fuel srcfd so dstfd dof count copied rd wr (mk_ps k e) = done (- err, mk_ps k' e')
     /\ is_errno err /\ opened k' = opened k.
Proof.
  revert k d so dof copied. induction fuel as [|fuel IH]; intros k d so dof copied Hc Hso Hdo Hlt Hout Hlen Hd.
  { left. cbn [splice_loop]. by rewrite (proj2 (Z.ltb_lt _ _) Hlt). }
  cbn [splice_loop]. rewrite (proj2 (Z.ltb_lt _ _) Hlt). cbn [negb]. rewrite min_eq.
  set (len := Z.min (64 * 1024) (count - copied)). rewrite !s64_small by lia.
  destruct (splice_round (fun n2 => splice_loop os fuel srcfd (u64 (so + n2)) dstfd (u64 (dof + n2)) count (copied + n2) rd wr)
    k e srcfd dstfd rd wr i p q c d so dof len) as [(err & d' & k' & e' & E & He & Ho & Hk) | (n1 & n2 & k1 & E & Hn2 & Hn1 & Hz1 & Hz2 & Ho & Hp & Hk)];
    [done | lia | lia | lia | |]; cbv zeta in E; rewrite E; clear E.
  { right. exists err, k', e'. split_and!; [done | done | done]. }
  assert (zlen (take (Z.to_nat len) (drop (Z.to_nat so) c)) = Z.max 0 (Z.min len (zlen c - so))) as Hbs
    by (unfold zlen; rewrite length_take, length_drop; unfold zlen in *; lia).
  rewrite !u64_small by lia.
  destruct (round_copying _ _ _ _ _ _ _ _ _ _ _ _ _ Hc Ho Hk) as (d1 & Hc1 & _).
  destruct (IH k1 d1 (so + n2) (dof + n2) (copied + n2) Hc1) as [E|(err & k' & e' & E & He & Ho')]; [lia..| |].
  - by left.
  - right. exists err, k', e'. split_and!; [done | done | congruence].
Qed.

(** A descriptor is closed, whatever [close] reports. *)
Lemma close_bind {B} k e fd x (f : M (pstate K) B) :
  opened k !! fd = Some x ->
  exists k' e', (_ ← sysc (close os fd); f) (mk_ps k e) = f (mk_ps k' e') /\ (e' = e \/ is_errno e')
  /\ opened k' = delete fd (opened k) /\ content k' = content k.
Proof.
  intros Hx. rewrite sysc_bind. cbn [kern errno].
  pose proof (close_file os content opened mem k fd x Hx) as Hcl. destruct (close os fd k) as [[[]|err] k'].
  - exists k', e. destruct Hcl as (Ho & Hc & _ & _). split_and!; [done | by left | done | done].
  - exists k', err. destruct Hcl as (Ho & Hc & _ & He). split_and!; [done | by right | done | done].
Qed.

(** The pipe of a copy: it is new, and gone afterwards. *)
Lemma splice_fcopy_opens fuel k e p q fl fl' c d srcfd dstfd so dof n :
  opened k !! srcfd = Some (File p fl) -> access fl <> O_WRONLY ->
  opened k !! dstfd = Some (File q fl') -> access fl' <> O_RDONLY ->
  content k !! p = Some c -> content k !! q = Some d -> p <> q ->
  (exists err k', splice_fcopy os fuel srcfd so dstfd dof n (mk_ps k e) = done (- err, mk_ps k' err)
     /\ is_errno err /\ opened k' = opened k /\ content k' = content k)
  \/ exists rd wr i k1, copying k1 srcfd dstfd rd wr i p q c d /\ content k1 = content k /\ piped k1 i = []
     /\ (forall r k2 e2, splice_loop os fuel srcfd so dstfd dof n 0 rd wr (mk_ps k1 e) = done (r, mk_ps k2 e2) ->
           opened k2 = opened k1 ->
           exists k3 e3, splice_fcopy os fuel srcfd so dstfd dof n (mk_ps k e) = done (r, mk_ps k3 e3)
           /\ opened k3 = opened k /\ content k3 = content k2)
     /\ (splice_loop os fuel srcfd so dstfd dof n 0 rd wr (mk_ps k1 e) = Ok None ->
         splice_fcopy os fuel srcfd so dstfd dof n (mk_ps k e) = Ok None).
Proof.
  intros Hs Hfl Hd Hfl' Hp Hq Hpq. unfold splice_fcopy. rewrite sysc_bind. cbn [kern errno].
  pose proof (pipe_new k) as Hpipe. destruct (pipe os k) as [[[rd wr]|err] k1].
  2: { left. destruct Hpipe as (Hc & He & Ho). by exists err, k1. }
  right. destruct Hpipe as (Hc & Hrd & Hwr & Hne & i & Ho & Hpi).
  assert (srcfd <> rd /\ srcfd <> wr /\ dstfd <> rd /\ dstfd <> wr) as (H1 & H2 & H3 & H4) by (split_and!; congruence).
  exists rd, wr, i, k1. split_and!; [| done | done | |].
  - split; rewrite ?Ho, ?Hc; try done.
    + exists fl. by rewrite !lookup_insert_ne.
    + exists fl'. by rewrite !lookup_insert_ne.
    + by rewrite lookup_insert_ne, lookup_insert_eq.
    + by rewrite lookup_insert_eq.
  - intros r k2 e2 E Ho2. rewrite (bind_done _ _ _ _ _ E).
    destruct (close_bind k2 e2 rd (PipeRead i) (_ ← sysc (close os wr); mret r)) as (k3 & e3 & -> & _ & Ho3 & Hc3);
      [by rewrite Ho2, Ho, lookup_insert_ne, lookup_insert_eq|].
    assert (opened k3 = <[wr := PipeWrite i]> (opened k)) as Ho3'.
    { rewrite Ho3, Ho2, Ho, delete_insert_ne by done. by rewrite opened_closed. }
    destruct (close_bind k3 e3 wr (PipeWrite i) (mret r)) as (k4 & e4 & -> & _ & Ho4 & Hc4);
      [by rewrite Ho3', lookup_insert_eq|].
    exists k4, e4. split_and!; [done | by rewrite Ho4, Ho3', opened_closed | congruence].
  - intros E. by apply bind_none.
Qed.

(** The number of bytes that are asked for. *)
Definition asked (c : text) (so count : Z) : Z := if count =? UINT64_MAX then u64 (zlen c - so) else count.

Lemma s32_errno e : is_errno e -> s32 (- e) = - e.
Proof.
  unfold is_errno, s32, u32. intros He. rewrite (Z.mod_eq (- e)) by lia.
  replace (- e / 2 ^ 32) with (-1) by (apply (Z.div_unique_pos _ _ _ (2 ^ 32 - e)); lia).
  rewrite (proj2 (Z.ltb_ge _ _)) by lia. lia.
Qed.

(** An error of one of the calls around the loop, or what the loop does. *)
Lemma splice_copy_opens junk_stat fuel p q c d s so dof count :
  content (kern s) !! p = Some c -> content (kern s) !! q = Some d -> p <> q ->
  let n := asked c so count in
  (exists err k' e, splice_copy os junk_stat fuel p so q dof count s = done (- err, mk_ps k' e)
     /\ is_errno err /\ content k' = content (kern s))
  \/ exists srcfd dstfd rd wr i k1 e1, copying k1 srcfd dstfd rd wr i p q c d /\ content k1 = content (kern s) /\ piped k1 i = []
     /\ (forall r k2 e2, splice_loop os fuel srcfd so dstfd dof n 0 rd wr (mk_ps k1 e1) = done (r, mk_ps k2 e2) ->
           opened k2 = opened k1 ->
           exists k3 e3, splice_copy os junk_stat fuel p so q dof count s = done (s32 r, mk_ps k3 e3)
           /\ opened k3 = opened (kern s) /\ content k3 = content k2)
     /\ (splice_loop os fuel srcfd so dstfd dof n 0 rd wr (mk_ps k1 e1) = Ok None ->
         splice_copy os junk_stat fuel p so q dof count s = Ok None).
Proof.
  intros Hp Hq Hpq n. destruct s as [k e]. cbn [kern errno] in *. unfold splice_copy. rewrite sysc_bind. cbn [kern errno].
  pose proof (open_file os content opened mem k p O_RDONLY 0 c Hp plain_read) as Hop.
  destruct (open os p O_RDONLY 0 k) as [[srcfd|err] k1].
  2: { left. destruct Hop as (Hc & _ & He & _). by exists err, k1, err. }
  destruct Hop as (Hc1 & _ & _ & Hu1 & Ho1). rewrite sysc_bind. cbn [kern errno].
  pose proof (open_file os content opened mem k1 q (Z.lor O_WRONLY O_CREAT) 493 d) as Hop.
  destruct (open os q (Z.lor O_WRONLY O_CREAT) 493 k1) as [[dstfd|err] k2];
    (destruct Hop as (Hc2 & _ & Hop); [by rewrite Hc1 | reflexivity|]).
  2: { left. unfold close_and_fail. destruct Hop as (He & Ho2).
       destruct (close_bind k2 err srcfd (File p O_RDONLY) (e ← get_errno; mret (- e))) as (k3 & e3 & -> & He3 & _ & Hc3);
         [by rewrite Ho2, Ho1, lookup_insert_eq|].
       exists e3, k3, e3. split_and!; [done | by destruct He3 as [-> | ?] | congruence]. }
  destruct Hop as (_ & Hu2 & Ho2).
  assert (srcfd <> dstfd) as Hne by (intros ->; by rewrite Ho1, lookup_insert_eq in Hu2).
  assert (opened k2 !! srcfd = Some (File p O_RDONLY)) as Hsrc by (by rewrite Ho2, lookup_insert_ne, Ho1, lookup_insert_eq).
  (* the size of the source *)
  assert ((exists err k2', (if count =? UINT64_MAX then sysc (fstat os srcfd) else mret (Some junk_stat)) (mk_ps k2 e)
      = done (None, mk_ps k2' err) /\ is_errno err /\ opened k2' = opened k2 /\ content k2' = content k2)
    \/ exists st k2', (if count =? UINT64_MAX then sysc (fstat os srcfd) else mret (Some junk_stat)) (mk_ps k2 e)
      = done (Some st, mk_ps k2' e) /\ opened k2' = opened k2 /\ content k2' = content k2
      /\ (if count =? UINT64_MAX then u64 (size st - so) else count) = n) as Hst.
  { unfold n, asked. destruct (count =? UINT64_MAX); [|right; by exists junk_stat, k2].
    pose proof (fstat_file os content opened mem k2 srcfd p O_RDONLY c) as Hst.
    destruct (fstat os srcfd k2) as [[st|err] k2'] eqn:Est;
      (destruct Hst as (Ho & Hc & _ & Hst); [done | by rewrite Hc2, Hc1|]).
    - right. exists st, k2'. rewrite Hst. split_and!; [by apply sysc_ok | done..].
    - left. exists err, k2'. split_and!; [by apply sysc_error | done..]. }
  destruct Hst as [(err & k2' & Est & He & Ho2' & Hc2') | (st & k2' & Est & Ho2' & Hc2' & Hn)]; rewrite (bind_done _ _ _ _ _ Est).
  { left. unfold close_and_fail.
    destruct (close_bind k2' err srcfd (File p O_RDONLY) (e ← get_errno; mret (- e))) as (k3 & e3 & -> & He3 & _ & Hc3);
      [by rewrite Ho2'|].
    exists e3, k3, e3. split_and!; [done | by destruct He3 as [-> | ?] | congruence]. }
  cbv beta iota. rewrite Hn. clear Est Hn.
  assert (forall r k4 e4, opened k4 = opened k2' -> exists k5 e5,
    (_ ← sysc (close os dstfd); _ ← sysc (close os srcfd); mret (s32 r)) (mk_ps k4 e4) = done (s32 r, mk_ps k5 e5)
    /\ opened k5 = opened k /\ content k5 = content k4) as Hclose.
  { intros r k4 e4 Ho4.
    destruct (close_bind k4 e4 dstfd (File q (Z.lor O_WRONLY O_CREAT)) (_ ← sysc (close os srcfd); mret (s32 r)))
      as (k6 & e6 & -> & _ & Ho6 & Hc6); [by rewrite Ho4, Ho2', Ho2, lookup_insert_eq|].
    assert (opened k6 = <[srcfd := File p O_RDONLY]> (opened k)) as Ho6'
      by (by rewrite Ho6, Ho4, Ho2', Ho2, opened_closed, Ho1).
    destruct (close_bind k6 e6 srcfd (File p O_RDONLY) (mret (s32 r))) as (k7 & e7 & -> & _ & Ho7 & Hc7);
      [by rewrite Ho6', lookup_insert_eq|].
    exists k7, e7. split_and!; [done | by rewrite Ho7, Ho6', opened_closed | congruence]. }
  destruct (splice_fcopy_opens fuel k2' e p q O_RDONLY (Z.lor O_WRONLY O_CREAT) c d srcfd dstfd so dof n)
    as [(err & k3 & E & He & Ho3 & Hc3) | (rd & wr & i & k3 & Hcp & Hc3 & Hpi & Hret & Hnone)];
    [by rewrite Ho2' | done | by rewrite Ho2', Ho2, lookup_insert_eq | done | by rewrite Hc2', Hc2, Hc1
    | by rewrite Hc2', Hc2, Hc1 | done | |].
  - left. rewrite (bind_done _ _ _ _ _ E). destruct (Hclose (- err) k3 err Ho3) as (k5 & e5 & -> & _ & Hc5).
    rewrite s32_errno by done. exists err, k5, e5. split_and!; [done | done | congruence].
  - right. exists srcfd, dstfd, rd, wr, i, k3, e. split_and!; [done | congruence | done | |].
    + intros r k4 e4 El Ho4. destruct (Hret r k4 e4 El Ho4) as (k5 & e5 & E & Ho5 & Hc5). rewrite (bind_done _ _ _ _ _ E).
      destruct (Hclose r k5 e5 Ho5) as (k6 & e6 & -> & Ho6 & Hc6). exists k6, e6. split_and!; [done | done | congruence].
    + intros El. by apply bind_none, Hnone.
Qed.

End pipes.

(** ** A small system *)

(** Files and directories by path (no content for a directory), descriptors, memory, pipes
    and the rest of the directories that are being listed. *)
Record box := mk_box {
  bx_nodes : gmap text (option text);
  bx_fds : gmap Z desc;
  bx_mem : Z -> ascii;
  bx_pipes : Z -> text;
  bx_streams : gmap Z (list text)
}.

Definition set_nodes (k : box) n : box := mk_box n (bx_fds k) (bx_mem k) (bx_pipes k) (bx_streams k).
Definition set_fds (k : box) f : box := mk_box (bx_nodes k) f (bx_mem k) (bx_pipes k) (bx_streams k).
Definition set_mem (k : box) m : box := mk_box (bx_nodes k) (bx_fds k) m (bx_pipes k) (bx_streams k).
Definition set_pipe (k : box) (i : Z) (t : text) : box :=
  mk_box (bx_nodes k) (bx_fds k) (bx_mem k) (fun j => if j =? i then t else bx_pipes k j) (bx_streams k).
Definition set_streams (k : box) l : box := mk_box (bx_nodes k) (bx_fds k) (bx_mem k) (bx_pipes k) l.

Definition box_files (k : box) : gmap text text := omap (fun n => n) (bx_nodes k).

(** A number that is not used. *)
Definition unused {A} (m : gmap Z A) : Z := Z.of_nat (fresh (set_map Z.to_nat (dom m) : gset nat)).

Definition ENOSYS : Z := 38.
Definition EBADF : Z := 9.
Definition ENOTEMPTY : Z := 39.
Definition refuse {A} : call box A := fun k => (inr ENOSYS, k).

Definition box_open (p : text) (fl md : Z) : call box Z := fun k =>
  match box_files k !! p with
  | Some _ => let fd := unused (bx_fds k) in (inl fd, set_fds k (<[fd := File p fl]> (bx_fds k)))
  | None => (inr ENOENT, k)
  end.

Definition box_close (fd : Z) : call box unit := fun k =>
  match bx_fds k !! fd with
  | Some _ => (inl tt, set_fds k (delete fd (bx_fds k)))
  | None => (inr EBADF, k)
  end.

(** The content of the file of a descriptor. *)
Definition box_content (k : box) (fd : Z) : option (text * text) :=
  match bx_fds k !! fd with
  | Some (File p _) => c ← box_files k !! p; Some (p, c)
  | _ => None
  end.

Definition piece (off len : Z) (c : text) : text := take (Z.to_nat len) (drop (Z.to_nat off) c).

Definition box_pread (fd a len off : Z) : call box Z := fun k =>
  match box_content k fd with
  | Some (_, c) =>
      let bs := piece off len c in
      (inl (zlen bs),
       set_mem k (fun x => if (a <=? x) && (x <? a + zlen bs) then default Ascii.zero (bs !! Z.to_nat (x - a))
                           else bx_mem k x))
  | None => (inr EBADF, k)
  end.

Definition box_pwrite (fd a len off : Z) : call box Z := fun k =>
  match box_content k fd with
  | Some (p, c) =>
      (inl len, set_nodes k (<[p := Some (put (Z.to_nat off) (bytes_at (bx_mem k) a (Z.to_nat len)) c)]> (bx_nodes k)))
  | None => (inr EBADF, k)
  end.

Definition box_stat (node : option text) : avals :=
  mk_vals (match node with None => 16877 | Some _ => 33188 end) (match node with None => 0 | Some c => zlen c end)
    1 0 0 0 0 0 (mk_time 0 0) (mk_time 0 0) (mk_time 0 0).

Definition box_lstat (p : text) : call box avals := fun k =>
  match bx_nodes k !! p with Some n => (inl (box_stat n), k) | None => (inr ENOENT, k) end.

Definition box_fstat (fd : Z) : call box avals := fun k =>
  match box_content k fd with Some (_, c) => (inl (box_stat (Some c)), k) | None => (inr EBADF, k) end.

Definition box_pipe : call box (Z * Z) := fun k =>
  let rd := unused (bx_fds k) in
  let m := <[rd := PipeRead rd]> (bx_fds k) in
  let wr := unused m in
  (inl (rd, wr), set_pipe (set_fds k (<[wr := PipeWrite rd]> m)) rd []).

(** [splice] moves at most [most_in] bytes into a pipe, and [most_out] bytes of what the pipe has out of it. *)
Definition box_splice (most_in : Z) (most_out : text -> Z) (fdin : Z) (offin : option Z) (fdout : Z) (offout : option Z) (len : Z) : call box Z := fun k =>
  match bx_fds k !! fdin, bx_fds k !! fdout, offin, offout with
  | Some (File _ _), Some (PipeWrite i), Some off, None =>
      match box_content k fdin with
      | Some (_, c) =>
          let bs := piece off (Z.min len most_in) c in (inl (zlen bs), set_pipe k i (bx_pipes k i ++ bs))
      | None => (inr EBADF, k)
      end
  | Some (PipeRead i), Some (File _ _), None, Some off =>
      match box_content k fdout with
      | Some (p, c) =>
          let t := bx_pipes k i in
          let bs := take (Z.to_nat (Z.min len (most_out t))) t in
          (inl (zlen bs),
           match bs with
           | [] => k
           | _ => set_pipe (set_nodes k (<[p := Some (put (Z.to_nat off) bs c)]> (bx_nodes k))) i (drop (List.length bs) t)
           end)
      | None => (inr EBADF, k)
      end
  | _, _, _, _ => (inr EINVAL, k)
  end.

(** The files that have a path: whether they are directories. *)
Definition nameable (p : text) : Prop := PathSpec.canonical p /\ Tc.plain p /\ Tc.short (List.length p).

#[export] Instance nameable_dec p : Decision (nameable p).
Proof. unfold nameable, PathSpec.canonical, Tc.plain, Tc.short. apply _. Defined.

Definition box_tree (k : box) : gmap text bool :=
  filter (fun x => nameable x.1) ((fun n => match n with None => true | Some _ => false end) <$> bx_nodes k).

Definition base_name (q : text) : text := default [] (last (PathSpec.split_slash q)).

Definition is_entry (d q : text) : Prop := base_name q <> [] /\ PathSpec.child d (base_name q) = q.

(** The names in a directory. *)
Definition box_names (k : box) (d : text) : list text :=
  base_name <$> filter (is_entry d) (map_to_list (box_tree k)).*1.

Definition box_opendir (d : text) : call box Z := fun k =>
  match bx_nodes k !! d with
  | Some None =>
      let h := unused (bx_streams k) in
      (inl h, set_streams k (<[h := ["."%char] :: ["."%char; "."%char] :: box_names k d]> (bx_streams k)))
  | _ => (inr ENOENT, k)
  end.

Definition box_readdir (h : Z) (k : box) : option text * box :=
  match bx_streams k !! h with
  | Some (n :: l) => (Some n, set_streams k (<[h := l]> (bx_streams k)))
  | _ => (None, k)
  end.

Definition box_closedir (h : Z) (k : box) : box := set_streams k (delete h (bx_streams k)).

Definition box_remove (p : text) : call box unit := fun k =>
  match bx_nodes k !! p with
  | None => (inr ENOENT, k)
  | Some _ => match box_names k p with
              | [] => (inl tt, set_nodes k (delete p (bx_nodes k)))
              | _ => (inr ENOTEMPTY, k)
              end
  end.

Definition box_sys (most_in : Z) (most_out : text -> Z) : sys box := {|
  open := box_open; close := box_close; lseek _ _ _ := refuse; read _ _ _ := refuse; pread := box_pread;
  write _ _ _ := refuse; pwrite := box_pwrite; lstat := box_lstat; fstat := box_fstat;
  chmod _ _ := refuse; fchmod _ _ := refuse; truncate _ _ := refuse; ftruncate _ _ := refuse;
  lchown _ _ _ := refuse; fchown _ _ _ := refuse; lutimes _ _ := refuse; futimes _ _ := refuse;
  rename _ _ := refuse; remove := box_remove; rmdir _ := refuse; mkdir _ _ := refuse;
  link _ _ := refuse; symlink _ _ := refuse; readlink _ _ := refuse; opendir := box_opendir;
  readdir := box_readdir; closedir := box_closedir; sys_chdir _ := refuse; get_current_dir_name _ := None;
  pipe := box_pipe; splice := box_splice most_in most_out
|}.

(** All that is asked for is moved. *)
Definition box_os : sys box := box_sys (2 ^ 63) zlen.

Lemma unused_None {A} (m : gmap Z A) : m !! unused m = None.
Proof.
  apply not_elem_of_dom. intros Hd. unfold unused in Hd.
  apply (is_fresh (set_map Z.to_nat (dom m) : gset nat)). apply elem_of_map. eexists. split; [|exact Hd].
  by rewrite Nat2Z.id.
Qed.

Lemma box_content_file k fd p fl c :
  bx_fds k !! fd = Some (File p fl) -> box_files k !! p = Some c -> box_content k fd = Some (p, c).
Proof. intros Hf Hc. unfold box_content. by rewrite Hf, Hc. Qed.

Lemma box_files_insert k p c : box_files (set_nodes k (<[p := Some c]> (bx_nodes k))) = <[p := c]> (box_files k).
Proof. unfold box_files. cbn. by apply omap_insert_Some. Qed.

#[export] Instance box_file_kernel most_in most_out : FileKernel (box_sys most_in most_out) box_files bx_fds bx_mem.
Proof.
  split.
  - intros k p fl md c Hc _. cbn. unfold box_open. rewrite Hc. split_and!; try done; [unfold unused; lia | apply unused_None].
  - intros k fd p fl c a len off Ho _ Hc Hl _ bs. cbn. unfold box_pread. rewrite (box_content_file k fd p fl c Ho Hc).
    unfold piece. fold bs. assert (zlen bs <= len) as Hb by (unfold bs, zlen; rewrite length_take; lia).
    split_and!; try done; cbn; [|unfold zlen; lia | |].
    + intros x Hx. destruct (Z.leb_spec a x), (Z.ltb_spec x (a + zlen bs)); cbn; try done. lia.
    + unfold zlen. intros Hz. apply length_zero_iff_nil. lia.
    + unfold zlen. rewrite Nat2Z.id, firstn_all. apply list_eq. intros i.
      destruct (decide (i < List.length bs)%nat) as [Hi|Hi].
      * rewrite lookup_bytes_at by done. rewrite (proj2 (Z.leb_le _ _)), (proj2 (Z.ltb_lt _ _)) by (unfold zlen; lia).
        cbn. replace (Z.to_nat (a + Z.of_nat i - a)) with i by lia.
        destruct (lookup_lt_is_Some_2 bs i Hi) as [x ->]. done.
      * rewrite !lookup_ge_None_2 by (rewrite ?length_bytes_at; lia). done.
  - intros k fd p fl c a len off Ho _ Hc Hl _. cbn. unfold box_pwrite. rewrite (box_content_file k fd p fl c Ho Hc).
    split_and!; try done; try lia. rewrite (proj2 (Z.eqb_neq len 0)) by lia. apply box_files_insert.
  - intros k fd p fl c Ho Hc. cbn. unfold box_fstat. by rewrite (box_content_file k fd p fl c Ho Hc).
  - intros k fd x Hx. cbn. unfold box_close. by rewrite Hx.
Qed.

Lemma take_length_take {A} n (l : list A) : take (List.length (take n l)) l = take n l.
Proof.
  rewrite length_take. destruct (decide (n <= List.length l)%nat); [by rewrite Nat.min_l|].
  by rewrite Nat.min_r, !take_ge by lia.
Qed.

Lemma box_pipe_kernel most_in most_out :
  0 < most_in -> (forall t, 0 < zlen t -> 0 < most_out t) ->
  PipeKernel (box_sys most_in most_out) box_files bx_fds bx_pipes.
Proof.
  intros Hin Hout. split.
  - intros k. set (rd := unused (bx_fds k)). set (wr := unused (<[rd := PipeRead rd]> (bx_fds k))).
    assert (<[rd := PipeRead rd]> (bx_fds k) !! wr = None) as Hw by apply unused_None.
    apply lookup_insert_None in Hw as [Hw Hne]. cbn. fold rd. fold wr.
    split_and!; [done | apply unused_None | done | done|]. exists rd. split; [done|]. by rewrite Z.eqb_refl.
  - intros k fd p fl c wr i off len Ho _ Hc Hw _ Hl bs. cbn. unfold box_splice. rewrite Ho, Hw.
    rewrite (box_content_file k fd p fl c Ho Hc). set (bs' := piece _ _ _).
    assert (bs' = take (Z.to_nat (Z.min len most_in)) bs) as Ebs.
    { unfold bs', bs, piece. rewrite take_take. f_equal. lia. }
    assert (0 <= zlen bs' <= zlen bs /\ (zlen bs' = 0 -> bs = [])) as [Hb1 Hb2].
    { rewrite Ebs. unfold zlen. rewrite length_take. split; [lia|]. intros Hz. apply length_zero_iff_nil. lia. }
    split; [done|]. split; [done|]. split; [exact Hb1|]. split; [exact Hb2|]. cbn. rewrite Z.eqb_refl, Ebs. f_equal. unfold zlen. rewrite Nat2Z.id.
    symmetry. apply take_length_take.
  - intros k fd p fl c rd i off len Ho _ Hc Hr _ Hl. cbn. unfold box_splice. rewrite Hr, Ho.
    rewrite (box_content_file k fd p fl c Ho Hc). set (t := bx_pipes k i) in *. set (m := Z.min len (most_out t)).
    assert (0 < len -> 0 < most_out t) as Hm by (intros; apply Hout; lia).
    assert (zlen (take (Z.to_nat m) t) = Z.max 0 m) as Hz.
    { unfold zlen. rewrite length_take. unfold zlen in Hl. unfold m. lia. }
    assert (0 <= zlen (take (Z.to_nat m) t) <= len /\ (zlen (take (Z.to_nat m) t) = 0 -> len = 0)) as [Hb1 Hb2].
    { rewrite Hz. unfold m. lia. }
    destruct (take (Z.to_nat m) t) as [|x bs] eqn:Et.
    + split; [done|]. split; [exact Hb1|]. split; [exact Hb2|]. by split.
    + split; [done|]. split; [exact Hb1|]. split; [exact Hb2|]. split; cbn [bx_pipes set_pipe]; [rewrite Z.eqb_refl; f_equal; unfold zlen; by rewrite Nat2Z.id|].
      rewrite (proj2 (Z.eqb_neq _ 0)) by (unfold zlen; cbn; lia). unfold zlen. rewrite Nat2Z.id, <- Et, take_length_take.
      apply box_files_insert.
Qed.

#[export] Instance box_os_pipes : PipeKernel box_os box_files bx_fds bx_pipes.
Proof. apply box_pipe_kernel; [done | auto]. Qed.

(** ** Theorems *)

(** The files after an array of writes, one after the other. *)
Definition after_writes (m : Z -> ascii) (ws : list viovec) (ct : gmap text text) : gmap text text :=
  foldl (fun ct iov => after_write m iov ct) ct ws.

(** C20: [posix_writev] of non-empty vectors and then [posix_readv], with files that exist given by path,
    plain offsets (the ranges end below 2^63), no direct I/O, read buffers that do not overlap and files
    shorter than 2^63, over a system whose calls can fail and can transfer less than was asked for. Both
    return. Of each element of the write up to the first error the reported number of bytes was written, at
    most what was asked for, one element after the other, and the elements after the error are untouched;
    without an error all were. Of each element of the read up to the first error the reported number of
    bytes of the file is in the buffer, at least one unless the file has none there, and the end-of-file
    flag tells whether they reach the end of the file. Every descriptor is closed, except possibly one after
    an error of the read, and no memory outside the buffers of the read changes. *)
Theorem posix_write_then_read {K} (os : sys K) content opened mem `{!FileKernel os content opened mem}
    (ws rs : list viovec) (s : pstate K) :
  Forall (fun iov => io_ok (content (kern s)) iov /\ 0 < length iov /\ offset iov + length iov < 2 ^ 63) ws ->
  Forall (fun iov => io_ok (content (kern s)) iov /\ is_direct_io iov = false) rs ->
  buffers_apart rs -> small_files (content (kern s)) ->
  exists rw ws' rr rs' k' e,
    (w ← posix_writev os ws; r ← posix_readv os rs; mret (w, r)) s = done ((rw, ws'), (rr, rs'), mk_ps k' e)
  /\ wrote (mem (kern s)) 0 (content (kern s)) ws rw ws' (content k')
  /\ (vokay rw = true ->
      Forall2 shortened ws ws' /\ content k' = after_writes (mem (kern s)) ws' (content (kern s)))
  /\ was_read (content k') (mem k') 0 rs rr rs'
  /\ (vokay rr = true -> Forall2 (read_as (content k') (mem k')) rs rs')
  /\ descs_after rs rr (opened (kern s)) (opened k')
  /\ (forall x, Forall (fun iov => ~ in_buffer iov x) rs -> mem k' x = mem (kern s) x).
Proof.
  intros Hw Hr Ha Hs.
  destruct (posix_writev_spec os content opened mem ws s (None, 0) 0) as (rw & ws' & k1 & e1 & E1 & Ho1 & Hm1 & Hw1).
  { eapply Forall_impl; [exact Hw|]. cbn. tauto. }
  assert (small_files (content k1)) as Hs1.
  { eapply wrote_small; [exact Hw1 | | done]. eapply Forall_impl; [exact Hw|]. cbn. intros v ([] & _ & ?). lia. }
  destruct (posix_readv_spec os content opened mem rs (mk_ps k1 e1) None 0) as (rr & rs' & k2 & e2 & E2 & Hc2 & Ho2 & Hr2 & Hm2);
    [|done | done|]; cbn [kern errno] in *.
  { eapply Forall_impl; [exact Hr|]. cbn. intros v [Hv Hd]. split; [|done]. by eapply wrote_keeps. }
  exists rw, ws', rr, rs', k2, e2. rewrite Hc2. split_and!.
  - unfold posix_writev, posix_readv. by rewrite (bind_done _ _ _ _ _ E1), (bind_done _ _ _ _ _ E2).
  - done.
  - by apply (wrote_ok (mem (kern s)) 0).
  - done.
  - by apply (was_read_ok _ _ 0).
  - by rewrite Ho1 in Ho2.
  - intros x Hx. rewrite Hm2 by done. by rewrite Hm1.
Qed.

Definition tx (x : String.string) : text := Cache.bytes x.

Definition path_iov (p : text) (off len addr : Z) : viovec :=
  mk_iov (vfile_from_path p) off len addr 0 false false false false false false.

(** Two files, and ["hello"] at address 100. *)
Definition desk : box :=
  mk_box (list_to_map [(tx "/", None); (tx "/a", Some (tx "abcdef")); (tx "/b", Some (tx "xyz"))]) ∅
    (fun x => default Ascii.zero (if x <? 100 then None else tx "hello" !! Z.to_nat (x - 100))) (fun _ => []) ∅.

Lemma posix_write_then_read_witness :
  exists rw ws' rr rs' k' e,
    (w ← posix_writev box_os [path_iov (tx "/b") 1 5 100]; r ← posix_readv box_os [path_iov (tx "/b") 0 10 200];
     mret (w, r)) (mk_ps desk 0) = done ((rw, ws'), (rr, rs'), mk_ps k' e)
  /\ wrote (bx_mem desk) 0 (box_files desk) [path_iov (tx "/b") 1 5 100] rw ws' (box_files k')
  /\ was_read (box_files k') (bx_mem k') 0 [path_iov (tx "/b") 0 10 200] rr rs' /\ bx_mem k' 100 = "h"%char.
Proof.
  destruct (posix_write_then_read box_os box_files bx_fds bx_mem [path_iov (tx "/b") 1 5 100]
    [path_iov (tx "/b") 0 10 200] (mk_ps desk 0)) as (rw & ws' & rr & rs' & k' & e & E & Hw & _ & Hr & _ & _ & Hm).
  - repeat constructor; cbn; try lia. eexists. split; [reflexivity|]. by eexists.
  - repeat constructor; cbn; try lia. eexists. split; [reflexivity|]. by eexists.
  - repeat constructor.
  - unfold small_files. apply (bool_decide_unpack _). vm_compute. exact I.
  - exists rw, ws', rr, rs', k', e. split; [exact E|]. split; [exact Hw|]. split; [exact Hr|].
    rewrite Hm; [reflexivity|]. repeat constructor. unfold in_buffer. cbn. lia.
Defined.

(** The same run, computed: six bytes are read, up to the end of the file. *)
Lemma posix_write_then_read_run :
  match (w ← posix_writev box_os [path_iov (tx "/b") 1 5 100]; r ← posix_readv box_os [path_iov (tx "/b") 0 10 200];
         mret (w, r)) (mk_ps desk 0) with
  | Ok (Some ((rw, ws', (rr, rs')), s')) =>
      vokay rw = true /\ vokay rr = true /\ map length ws' = [5] /\ map length rs' = [6] /\ map is_eof rs' = [true]
      /\ bytes_at (bx_mem (kern s')) 200 6 = tx "xhello"
  | _ => False
  end.
Proof. vm_compute. repeat split. Qed.



(** The first copy, computed. *)
Lemma splice_copy_run :
  match splice_copy box_os (box_stat None) 3 (tx "/a") 2 (tx "/b") 1 3 (mk_ps desk 0) with
  | Ok (Some (r, s')) => r = 3 /\ box_files (kern s') !! tx "/b" = Some (tx "xcde")
  | _ => False
  end.
Proof. vm_compute. by split. Qed.

(** A system that keeps its promises but moves two bytes into a pipe at a time, and one out of a pipe with
    two: the copy of ["abc"] succeeds and leaves ["abb"]. *)
Definition slow_os : sys box := box_sys 2 (fun t => if zlen t =? 2 then 1 else zlen t).

Lemma splice_short_corrupts :
  PipeKernel slow_os box_files bx_fds bx_pipes
  /\ match splice_copy slow_os (box_stat None) 3 (tx "/a") 0 (tx "/b") 0 3 (mk_ps desk 0) with
     | Ok (Some (r, s')) => r = 3 /\ box_files (kern s') !! tx "/b" = Some (tx "abb")
     | _ => False
     end.
Proof.
  split; [|vm_compute; by split]. apply box_pipe_kernel; [done|]. intros t Ht. by destruct (zlen t =? 2).
Qed.

Lemma by_path {K A} (p : text) (c : text -> call K A) (c' : Z -> call K A) s :
  by_type (vfile_from_path p) c c' s = sysc (c p) s.
Proof. done. Qed.

(** The masks that ask for a modification time only. *)
Definition only_mtime : vattrs_masks :=
  mk_masks false false false false false false false false false true false.

Lemma helper_mtime {K} (os : sys K) junk_stat a p st k t (s : pstate K) :
  attr_file a = vfile_from_path p ->
  masks a = only_mtime ->
  lstat os p (kern s) = (inl st, k) ->
  helper_set_attrs os junk_stat (store_mtime a t) s
  = (r ← sysc (lutimes os p ((tv_sec (atime st), 0), (tv_sec (mtime st), 0)));
     mret (match r with Some _ => false | None => true end, store_mtime a (mk_time (tv_sec (mtime st)) 0)))
      (mk_ps k (errno s)).
Proof.
  intros Hf Hm Hst. destruct a as [f mk [a0 a1 a2 a3 a4 a5 a6 a7 a8 a9 a10]]. cbn in Hf, Hm. subst f mk.
  unfold helper_set_attrs, only_mtime. cbn [masks vals attr_file store_mtime has_nlink has_rdev has_mode has_size has_uid has_gid
    has_atime has_mtime andb orb]. unfold set_step.
  do 3 (rewrite (bind_done _ _ _ true s) by done; cbn [negb]).
  erewrite bind_done; [|rewrite by_path; by apply sysc_ok]. done.
Qed.

(** Of attributes that ask only for a new modification time, the requested time has no effect: the time
    of the file is set to the one it has, and that one is stored in the array of the caller. *)
Theorem posix_mtime_ignored {K} (os : sys K) junk_stat a p st k t (s : pstate K) :
  attr_file a = vfile_from_path p ->
  masks a = only_mtime ->
  lstat os p (kern s) = (inl st, k) ->
  posix_lsetattrsv os junk_stat [store_mtime a t] s
  = (r ← sysc (lutimes os p ((tv_sec (atime st), 0), (tv_sec (mtime st), 0)));
     let a := store_mtime a (mk_time (tv_sec (mtime st)) 0) in
     match r with
     | Some _ => mret (no_index, [a])
     | None => e ← get_errno; mret (vfailure 0 e, [a])
     end) (mk_ps k (errno s)).
Proof.
  intros Hf Hm Hst. unfold posix_lsetattrsv, each_elem. cbn [until_failure].
  pose proof (helper_mtime os junk_stat a p st k t s Hf Hm Hst) as Eh.
  destruct (lutimes os p ((tv_sec (atime st), 0), (tv_sec (mtime st), 0)) k) as [[[]|e] k'] eqn:El;
    erewrite (bind_done (sysc _)) in Eh by first [apply sysc_ok; exact El | apply sysc_error; exact El];
    erewrite (bind_done (sysc _)) by first [apply sysc_ok; exact El | apply sysc_error; exact El];
    unfold mbind, M_bind, fbind; rewrite Eh; reflexivity.
Qed.

Lemma posix_mtime_ignored_witness :
  posix_lsetattrsv box_os (box_stat None)
    [store_mtime (mk_attrs (vfile_from_path (tx "/a"))
       only_mtime (box_stat None)) (mk_time 77 5)]
    (mk_ps desk 0)
  = done (vfailure 0 ENOSYS, [mk_attrs (vfile_from_path (tx "/a"))
       only_mtime (box_stat None)], mk_ps desk ENOSYS).
Proof.
  rewrite (posix_mtime_ignored box_os (box_stat None) _ (tx "/a") (box_stat (Some (tx "abcdef"))) desk (mk_time 77 5) (mk_ps desk 0));
    reflexivity.
Defined.

(** The attributes that [helper_set_attrs] refuses. *)
Definition refused (a : vattrs) : bool :=
  has_nlink (masks a) || has_rdev (masks a) || (has_mode (masks a) && Tc.S_ISLNK (mode (vals a))).

(** Attributes that cannot be set are refused with the error number of whatever call failed last: when
    none failed before, the caller sees a success, and the rest of the array is not processed. *)
Theorem posix_refused_attrs {K} (os : sys K) junk_stat a l (s : pstate K) :
  refused a = true ->
  posix_lsetattrsv os junk_stat (a :: l) s = done (vfailure 0 (errno s), a :: l, s)
  /\ (vokay (vfailure 0 (errno s)) = true <-> errno s = 0).
Proof.
  intros Hr. split; [|apply Z.eqb_eq].
  assert (helper_set_attrs os junk_stat a s = done (true, a, s)) as Eh.
  { unfold refused in Hr. unfold helper_set_attrs.
    destruct (has_nlink _); [done|]. destruct (has_rdev _); [done|]. cbn in Hr. by rewrite Hr. }
  unfold posix_lsetattrsv, each_elem. cbn [until_failure]. unfold mbind, M_bind, fbind. by rewrite Eh.
Qed.

Lemma posix_refused_attrs_witness :
  posix_lsetattrsv box_os (box_stat None)
    [mk_attrs (vfile_from_path (tx "/a")) VMASK_INIT_ALL (box_stat None)] (mk_ps desk 0)
  = done (vfailure 0 0, [mk_attrs (vfile_from_path (tx "/a")) VMASK_INIT_ALL (box_stat None)], mk_ps desk 0).
Proof. apply (posix_refused_attrs box_os). reflexivity. Defined.

Lemma until_more {K A B} ok (f : A -> B -> M (pstate K) (option Z * A * B)) i a l b (s : pstate K) r a' b' s1 :
  f a b s = done (r, a', b', s1) ->
  until_failure ok f i (a :: l) b s
  = match r with
    | Some e => done ((vfailure i e, a' :: l), s1)
    | None => ('(r, l) ← until_failure ok f (i + 1) l b'; mret (r, a' :: l)) s1
    end.
Proof. intros E. cbn [until_failure]. rewrite (bind_done _ _ _ _ _ E). by destruct r. Qed.

Lemma until_one {K A B} ok (f : A -> B -> M (pstate K) (option Z * A * B)) i a b (s : pstate K) r a' b' s' :
  f a b s = done (r, a', b', s') ->
  until_failure ok f i [a] b s = done ((match r with Some e => vfailure i e | None => ok end, [a']), s').
Proof. intros E. cbn [until_failure]. rewrite (bind_done _ _ _ _ _ E). by destruct r. Qed.

(** An empty write after another one reports the number of bytes that the other one wrote. *)
Theorem posix_writev_empty {K} (os : sys K) content opened mem `{!FileKernel os content opened mem} v z (s : pstate K) :
  io_ok (content (kern s)) v -> 0 < length v -> io_ok (content (kern s)) z -> length z = 0 ->
  exists r arg' k' e, posix_writev os [v; z] s = done (r, arg', mk_ps k' e)
  /\ (vokay r = true -> exists n, 0 <= n <= length v /\ arg' = [set_length v n; set_length z n]).
Proof.
  assert (forall i e, is_errno e -> vokay (vfailure i e) = true -> False) as Hfail.
  { unfold is_errno, vokay, vfailure. cbn. intros i e He. rewrite Z.eqb_eq. lia. }
  intros Hv Hl Hz Hz0. unfold posix_writev.
  destruct (write_elem_spec os content opened mem v s (None, 0) Hv Hl) as (r & v' & [fd w] & k1 & e1 & E1 & Ho1 & Hm1 & Hr).
  rewrite (until_more _ _ _ _ _ _ _ _ _ _ _ E1). destruct r as [err|].
  { destruct Hr as [He _]. eexists _, _, k1, e1. split; [reflexivity|]. intros Hok. by destruct (Hfail _ _ He Hok). }
  destruct Hr as ((n & Hn & ->) & Hc1 & Hw). cbn in Hw. subst w. destruct Hv as [_ _ _ Hlv].
  pose proof (io_ok_after_write (mem (kern s)) z (set_length v n) _ Hz) as Hz1. rewrite <- Hc1 in Hz1.
  destruct (write_elem_empty os content opened mem z (mk_ps k1 e1) fd n Hz1 Hz0) as (r & z' & vars & k2 & e2 & E2 & Hr).
  rewrite (bind_done _ _ _ _ _ (until_one _ _ _ _ _ _ _ _ _ _ E2)). eexists _, _, k2, e2. split; [reflexivity|].
  destruct r as [err|]; intros Hok; [by destruct (Hfail _ _ Hr Hok)|]. exists n. rewrite Hr, u64_small by lia.
  split; [lia | done].
Qed.

(** [posix_close] frees its argument a second time. *)
Theorem posix_close_double_free {K} (os : sys K) f k (s : pstate K) :
  type f = VFILE_DESCRIPTOR -> close os (fd f) (kern s) = (inl tt, k) -> posix_close os f s = Abort.
Proof.
  intros Ht Hc. unfold posix_close, posix_closev, each_elem. cbn [until_failure].
  unfold is_fd. rewrite Ht, bool_decide_eq_true_2 by done.
  unfold mbind, M_bind, fbind, check. cbn. by rewrite (sysc_ok _ _ _ _ Hc).
Qed.

(** A directory that cannot be opened is reported with the negated error number. *)
Theorem posix_listdirv_negates {K} (os : sys K) junk_stat junk_text {U} mk recursive (cb : vattrs -> text -> U -> bool * U)
    d e k n fuel c (s : pstate K) :
  opendir os d (kern s) = (inr e, k) -> 0 < e -> 0 <= n ->
  posix_listdirv os true junk_stat junk_text mk recursive cb (Datatypes.S fuel) [d] n c s
  = done (vfailure 0 (- e), c, mk_ps k e).
Proof.
  intros Ho He Hn. unfold posix_listdirv. cbn [enqueue_all enqueue_dir_to_list default from_option list_queue app].
  assert (let l := if n =? 0 then -1 else n in (l =? -1) || (0 <? l) = true) as Hl.
  { cbv zeta. destruct (Z.eqb_spec n 0) as [->|]; [done|]. rewrite (proj2 (Z.ltb_lt 0 n)) by lia. apply orb_true_r. }
  cbv zeta in Hl. rewrite Hl. cbn [andb Z.eqb].
  assert (forall x, posix_listdir os true junk_stat junk_text mk recursive cb (Datatypes.S fuel) d 0 x s
    = done (- e, x, mk_ps k e)) as El.
  { intros x. unfold posix_listdir. erewrite bind_done; [|by apply sysc_error]. done. }
  unfold id. cbn [dle_path origin_index]. erewrite bind_done.
  2: { erewrite bind_done; [|apply El]. cbv beta iota. rewrite (proj2 (Z.ltb_lt (- e) 0)) by lia. reflexivity. }
  cbv beta iota. by destruct fuel.
Qed.

End PosixRuns.
