(* ===== verification/TcLib.v ===== *)
(** The recursive operations of the library, [tc/tc_lib.cpp]: copying and removing trees of
    files. Module [Lib]. They are written against a record of the operations they call, and
    their theorems against classes that say what these promise; [tc_api] is the record of
    the operations of [tc/tc_impl.cpp]. *)

From S2P Require Import Prelude CommonTypes PathSpec PathUtils FdTable TcApi Nfs4Impl DataCache NfsCache TcImpl.
Import Api Nfs.
Local Open Scope Z_scope.

Module Lib.

Notation text := (list ascii).

(** ** The operations called *)

Record api (S : Type) := mk_api {
  vec_getattrs : list vattrs -> M S (vres * list vattrs);
  vec_lgetattrs : list vattrs -> M S (vres * list vattrs);
  vec_lsetattrs : list vattrs -> M S (vres * list vattrs);
  vec_mkdir : list vattrs -> M S (vres * list vattrs);
  vec_listdir : forall U : Type, list text -> vattrs_masks -> Z -> bool ->
    (vattrs -> text -> U -> bool * U) -> U -> M S (vres * U);
  vec_unlink : list text -> M S vres;
  vec_lcopy : list vextent_pair -> M S vres;
  vec_ldup : list vextent_pair -> M S vres;
  vec_symlink : list text -> list text -> M S vres;
  vec_readlink : list text -> list text -> M S (vres * list text)
}.
Arguments vec_getattrs {S}. Arguments vec_lgetattrs {S}. Arguments vec_lsetattrs {S}.
Arguments vec_mkdir {S}. Arguments vec_listdir {S} _ {U}. Arguments vec_unlink {S}.
Arguments vec_lcopy {S}. Arguments vec_ldup {S}. Arguments vec_symlink {S}. Arguments vec_readlink {S}.

Definition tc_api {S} (nfs posix : Tc.backend S) (clock : nat -> Z) (alloc : bool) (junk_text : text)
    (junk_iov : viovec) (buffer : nat -> Z) : api (Tc.tcstate S) := {|
  vec_getattrs := Tc.vec_getattrs nfs posix clock alloc junk_text;
  vec_lgetattrs := Tc.vec_lgetattrs nfs posix clock;
  vec_lsetattrs := Tc.vec_lsetattrs nfs posix clock;
  vec_mkdir := Tc.vec_mkdir nfs posix clock;
  vec_listdir := fun U => Tc.vec_listdir nfs posix clock;
  vec_unlink := Tc.vec_unlink nfs posix clock alloc;
  vec_lcopy := Tc.vec_lcopy nfs posix clock;
  vec_ldup := Tc.vec_ldup nfs posix clock alloc junk_iov buffer;
  vec_symlink := Tc.vec_symlink nfs posix clock;
  vec_readlink := Tc.vec_readlink nfs posix clock
|}.

(** ** The callbacks *)

(** The vectors of the callbacks; copying a null path is undefined. *)
Record rm_cb_args := mk_rm { rm_dirs : list text; rm_files : list text }.
Record cp_cb_args := mk_cp { cp_dirs : list text; cp_files : list vattrs; cp_symlinks : list text }.

Definition rm_list_callback (entry : vattrs) (dir : text) (x : outcome rm_cb_args)
  : bool * outcome rm_cb_args :=
  (true,
   let! args := x in
   match path (attr_file entry) with
   | None => Abort
   | Some p =>
       if Tc.S_ISDIR (mode (vals entry)) then Ok (mk_rm (rm_dirs args ++ [p]) (rm_files args))
       else Ok (mk_rm (rm_dirs args) (rm_files args ++ [p]))
   end).

Definition cp_list_callback (entry : vattrs) (dir : text) (x : outcome cp_cb_args)
  : bool * outcome cp_cb_args :=
  (true,
   let! args := x in
   match path (attr_file entry) with
   | None => Abort
   | Some p =>
       if Tc.S_ISDIR (mode (vals entry)) then
         Ok (mk_cp (cp_dirs args ++ [p]) (cp_files args) (cp_symlinks args))
       else if Tc.S_ISLNK (mode (vals entry)) then
         Ok (mk_cp (cp_dirs args) (cp_files args) (cp_symlinks args ++ [p]))
       else Ok (mk_cp (cp_dirs args) (cp_files args ++ [entry]) (cp_symlinks args))
   end).

(** [for (j = 0; *p != '\0' && *p == src_dir[j]; j++) ++p;] *)
Fixpoint skip_common (p src_dir : text) : text :=
  match p, src_dir with
  | c :: p', d :: src_dir' => if decide (c = d) then skip_common p' src_dir' else p
  | _, _ => p
  end.

Definition kSizeLimit : Z := 512 * 1024.

Section lib.
Context {S : Type} (a : api S).
(** Whether the unchecked allocations succeed, the contents of new memory, the
    indeterminate masks of [vec_unlink_recursive], and the rounds of the loops. *)
Context (alloc : bool) (junk_text : text) (junk_masks : vattrs_masks) (fuel : nat).

(** ** Copying *)

Definition new_cp_target_path (src_obj src_dir dst_dir : text) : M S text :=
  _ ← check alloc; run (Tc.join_strings junk_text dst_dir (skip_common src_obj src_dir)).

(** The path of an entry. *)
Definition path_of (v : vattrs) : M S text := need (path (attr_file v)).

Definition tc_cp_mkdirs (src_dir : text) (dirs : list text) (dst_dir : text) : M S vres :=
  match dirs with
  | [] => mret (mk_vres 0 0)
  | _ =>
      attrs ← each (fun d =>
        t ← new_cp_target_path d src_dir dst_dir;
        mret (Tc.with_mode (mk_attrs (vfile_from_path t) VMASK_INIT_NONE (vals zero_attrs))
                Tc.mode_mask 493)) dirs;
      '(res, attrs) ← vec_mkdir a attrs;
      _ ← (if vokay res then mret tt else _ ← Tc.item attrs (index res); mret tt);
      mret res
  end.

Definition tc_symlink_objs (srcs : list text) (src_dir dst_dir : text) : M S vres :=
  dst_paths ← each (fun p => new_cp_target_path p src_dir dst_dir) srcs;
  tcres ← vec_symlink a srcs dst_paths;
  _ ← (if vokay tcres then mret tt else _ ← Tc.item srcs (index tcres); mret tt);
  mret tcres.

Definition tc_cp_files (srcs : list vattrs) (src_dir dst_dir : text) : M S vres :=
  pairs ← each (fun v =>
    p ← path_of v;
    t ← new_cp_target_path p src_dir dst_dir;
    mret (mk_extent p t 0 0 0)) srcs;
  tcres ← vec_lcopy a pairs;
  _ ← (if vokay tcres then mret tt else _ ← Tc.item pairs (index tcres); mret tt);
  mret tcres.

(** The loop that finds how many of the small files from [i] on go in one call; the length
    added is that of the file after the one that was counted. *)
Fixpoint group (k : nat) (small_files : list vextent_pair) (i bytes n : Z) : M S Z :=
  match k with
  | O => mret n
  | Datatypes.S k =>
      if (bytes <? kSizeLimit) && (i + n <? zlen small_files) then
        if n <? 64 then
          x ← Tc.item small_files (i + (n + 1));
          group k small_files i (u64 (bytes + ext_length x)) (n + 1)
        else mret (n + 1)
      else mret n
  end.

Fixpoint dup_small (fuel : nat) (small_files : list vextent_pair) (i : Z) (tcres : vres) : M S vres :=
  if negb (i <? zlen small_files) then mret tcres
  else
    match fuel with
    | O => fun _ => Ok None
    | Datatypes.S fuel =>
        n ← group 66 small_files i 0 0;
        tcres ← vec_ldup a (take (Z.to_nat n) (drop (Z.to_nat i) small_files));
        if negb (vokay tcres) then _ ← Tc.item small_files (i + index tcres); mret tcres
        else dup_small fuel small_files (i + n) tcres
    end.

Fixpoint dup_large (fuel : nat) (src dst : text) (fsize off : Z) (tcres : vres) : M S vres :=
  if negb (off <? fsize) then mret tcres
  else
    match fuel with
    | O => fun _ => Ok None
    | Datatypes.S fuel =>
        let len := Z.min (fsize - off) kSizeLimit in
        tcres ← vec_ldup a [mk_extent src dst off off len];
        if negb (vokay tcres) then mret tcres else dup_large fuel src dst fsize (off + len) tcres
    end.

Fixpoint dup_all_large (l : list (text * text * Z)) (tcres : vres) : M S vres :=
  match l with
  | [] => mret tcres
  | (src, dst, fsize) :: l =>
      tcres ← dup_large fuel src dst fsize 0 tcres;
      if negb (vokay tcres) then mret tcres else dup_all_large l tcres
  end.

Definition size_mask : vattrs_masks :=
  mk_masks false true false false false false false false false false false.

Definition tc_dup_files (srcs : list vattrs) (src_dir dst_dir : text) : M S vres :=
  paths ← each path_of srcs;
  '(tcres, attrs) ← vec_lgetattrs a
    (map (fun p => mk_attrs (vfile_from_path p) size_mask (vals zero_attrs)) paths);
  if negb (vokay tcres) then mret tcres
  else
    dst_paths ← each (fun p => new_cp_target_path p src_dir dst_dir) paths;
    let files := zip (zip paths dst_paths) (map (fun v => size (vals v)) attrs) in
    let small_files :=
      map (fun x => mk_extent x.1.1 x.1.2 0 0 x.2) (filter (fun x => x.2 <= kSizeLimit) files) in
    tcres ← dup_small fuel small_files 0 tcres;
    dup_all_large (filter (fun x => kSizeLimit < x.2) files) tcres.

Definition tc_cp_setattrs (srcs : list vattrs) (src_dir dst_dir : text) : M S vres :=
  dsts ← each (fun v =>
    p ← path_of v;
    t ← new_cp_target_path p src_dir dst_dir;
    mret (Nfs4.with_attr_file (Tc.with_mode v Tc.mode_mask (Z.land (mode (vals v)) (Z.lnot Tc.S_IFMT)))
            (vfile_from_path t))) srcs;
  '(tcres, _) ← vec_lsetattrs a dsts;
  mret tcres.

Definition tc_cp_symlinks (links : list text) (src_dir dst_dir : text) : M S vres :=
  let count := List.length links in
  _ ← check (alloc || (count =? 0)%nat);
  '(tcres, bufs) ← vec_readlink a links (replicate count junk_text);
  if negb (vokay tcres) then _ ← Tc.item links (index tcres); mret tcres
  else
    newlinks ← each (fun p => new_cp_target_path p src_dir dst_dir) links;
    tcres ← vec_symlink a bufs newlinks;
    _ ← (if vokay tcres then mret tt else _ ← Tc.item links (index tcres); mret tt);
    mret tcres.

(** How the files of a round are copied. *)
Definition copy_files (symlink use_server_side_copy : bool) (files : list vattrs) (src_dir dst : text)
  : M S vres :=
  if symlink then paths ← each path_of files; tc_symlink_objs paths src_dir dst
  else if use_server_side_copy then tc_cp_files files src_dir dst
  else tc_dup_files files src_dir dst.

(** Listing and making the directories found in the last round. *)
Definition cp_dirs_step (src_dir dst : text) (created : nat) (x : cp_cb_args) (tcres : vres)
  : M S (vres * cp_cb_args * nat) :=
  let dirs_listing := drop created (cp_dirs x) in
  match dirs_listing with
  | [] => mret (tcres, x, created)
  | _ =>
      '(tcres, r) ← vec_listdir a dirs_listing Tc.mode_mask 0 false cp_list_callback (Ok x);
      x ← run r;
      if negb (vokay tcres) then mret (tcres, x, created)
      else
        tcres ← tc_cp_mkdirs src_dir dirs_listing dst;
        mret (tcres, x, if vokay tcres then (created + List.length dirs_listing)%nat else created)
  end.

(** The main loop. [tcres] is the result of the last round, which the loop does not look
    at. *)
Fixpoint cp_loop (k : nat) (src_dir dst : text) (symlink use_server_side_copy : bool)
    (created : nat) (x : cp_cb_args) (tcres : vres) : M S (vres * cp_cb_args) :=
  if (List.length (cp_dirs x) <=? created)%nat && (List.length (cp_files x) =? 0)%nat
  then mret (tcres, x)
  else
    match k with
    | O => fun _ => Ok None
    | Datatypes.S k =>
        '(tcres, x, created') ← cp_dirs_step src_dir dst created x (mk_vres 0 0);
        if negb (vokay tcres) then mret (tcres, x)
        else
          tcres ← copy_files symlink use_server_side_copy (cp_files x) src_dir dst;
          if negb (vokay tcres) then mret (tcres, x)
          else
            tcres ← (if symlink then mret tcres else tc_cp_setattrs (cp_files x) src_dir dst);
            cp_loop k src_dir dst symlink use_server_side_copy created'
              (mk_cp (cp_dirs x) [] (cp_symlinks x)) tcres
    end.

Definition sca_cp_recursive (src_dir dst : text) (symlink use_server_side_copy : bool) : M S vres :=
  '(tcres, x) ← cp_loop fuel src_dir dst symlink use_server_side_copy 0 (mk_cp [src_dir] [] []) (mk_vres 0 0);
  if vokay tcres && negb (List.length (cp_symlinks x) =? 0)%nat then
    if symlink then tc_symlink_objs (cp_symlinks x) src_dir dst
    else tc_cp_symlinks (cp_symlinks x) src_dir dst
  else mret tcres.

(** ** Removing *)

(** The loop that gets the attributes and drops the entries that do not exist; [inl] is an
    early return. *)
Fixpoint stat_objs (k : nat) (attrs : list vattrs) (i : nat) : M S (vres + list vattrs) :=
  if (List.length attrs <=? i)%nat then mret (inr attrs)
  else
    match k with
    | O => fun _ => Ok None
    | Datatypes.S k =>
        '(tcres, l) ← vec_getattrs a (drop i attrs);
        let attrs := take i attrs ++ l in
        if vokay tcres then mret (inr attrs)
        else if err_no tcres =? ENOENT then
          let j := Z.of_nat i + index tcres in
          _ ← Tc.item attrs j;
          let j := Z.to_nat j in
          stat_objs k (take j attrs ++ drop (Datatypes.S j) attrs) (pred j)
        else mret (inl tcres)
    end.

Definition listdir_mask : vattrs_masks :=
  mk_masks true (has_size junk_masks) true (has_fileid junk_masks) (has_blocks junk_masks)
    (has_uid junk_masks) (has_gid junk_masks) (has_rdev junk_masks) (has_atime junk_masks)
    (has_mtime junk_masks) (has_ctime junk_masks).

(** The loop that removes the files and lists the directories found; [inl] is an early
    return. *)
Fixpoint rm_loop (k : nat) (emptied : nat) (x : rm_cb_args) : M S (vres + rm_cb_args) :=
  if (List.length (rm_dirs x) <=? emptied)%nat && (List.length (rm_files x) =? 0)%nat
  then mret (inr x)
  else
    match k with
    | O => fun _ => Ok None
    | Datatypes.S k =>
        tcres ← vec_unlink a (rm_files x);
        if negb (vokay tcres) then mret (inl tcres)
        else
          let x := mk_rm (rm_dirs x) [] in
          let dirs_p := drop emptied (rm_dirs x) in
          let n := List.length dirs_p in
          _ ← check (alloc || (n =? 0)%nat);
          '(tcres, r) ← vec_listdir a dirs_p listdir_mask 0 false rm_list_callback (Ok x);
          x ← run r;
          if negb (vokay tcres) then mret (inl tcres) else rm_loop k (emptied + n) x
    end.

Definition vec_unlink_recursive (objs : list text) : M S vres :=
  r ← stat_objs (List.length objs)
        (map (fun p => mk_attrs (vfile_from_path p) Tc.mode_mask (vals zero_attrs)) objs) 0;
  match r with
  | inl tcres => mret tcres
  | inr attrs =>
      let kinds := zip objs (map (fun v => Tc.S_ISDIR (mode (vals v))) attrs) in
      r ← rm_loop fuel 0
            (mk_rm (map fst (filter (fun x => x.2 = true) kinds))
                   (map fst (filter (fun x => x.2 = false) kinds)));
      match r with
      | inl tcres => mret tcres
      | inr x =>
          match rm_dirs x with
          | [] => mret (vfailure 0 0)
          | _ =>
              tcres ← vec_unlink a (rev (rm_dirs x));
              if negb (vokay tcres) then mret tcres else mret (vfailure 0 0)
          end
      end
  end.

End lib.

(** ** Trees of files *)

(** A file system: the paths of the files, and whether they are directories. *)
Notation fs := (gmap text bool).

(** The text before the last slash, the slash for files of the root, nothing for the root. *)
Fixpoint drop_name (r : text) : text :=
  match r with [] => [] | c :: r => if decide (c = PathSpec.SLASH) then r else drop_name r end.
Definition parent_path (p : text) : option text :=
  if decide (p = [PathSpec.SLASH]) then None
  else match drop_name (rev p) with [] => Some [PathSpec.SLASH] | r => Some (rev r) end.

Section tree.
(** The directory of a path. *)
Context (parent : text -> option text).

(** The directory of a file exists. *)
Definition tree (F : fs) : Prop :=
  forall q d, is_Some (F !! q) -> parent q = Some d -> F !! d = Some true.

Inductive below (p : text) : text -> Prop :=
  | below_child q : parent q = Some p -> below p q
  | below_deep q d : parent q = Some d -> below p d -> below p q.

(** The files to remove. *)
Definition target (objs : list text) (q : text) : Prop := q ∈ objs \/ exists p, p ∈ objs /\ below p q.

(** Removing one after the other: a directory has to be empty by then. *)
Fixpoint removable (F : fs) (ps : list text) : Prop :=
  match ps with
  | [] => True
  | p :: ps => is_Some (F !! p) /\ (forall q, is_Some (F !! q) -> parent q <> Some p) /\ removable (delete p F) ps
  end.

Definition minus (F : fs) (ps : list text) : fs := foldl (fun F p => delete p F) F ps.

Lemma lookup_minus F ps q : minus F ps !! q = if bool_decide (q ∈ ps) then None else F !! q.
Proof.
  revert F. induction ps as [|p ps IH]; intros F; [done|]. cbn [minus foldl]. fold (minus (delete p F) ps).
  rewrite IH. repeat case_bool_decide; try done; set_solver || idtac.
  - destruct (decide (q = p)) as [->|Hne]; [by rewrite lookup_delete_eq | set_solver].
  - rewrite lookup_delete_ne; [done | set_solver].
Qed.

Lemma minus_sub F ps q : is_Some (minus F ps !! q) <-> is_Some (F !! q) /\ q ∉ ps.
Proof. rewrite lookup_minus. case_bool_decide; naive_solver. Qed.

Lemma tree_minus F ps : tree F -> (forall p q, p ∈ ps -> is_Some (minus F ps !! q) -> parent q <> Some p) ->
  tree (minus F ps).
Proof.
  intros Ht Hc q d Hq Hd. pose proof Hq as [Hq' _]%minus_sub. rewrite lookup_minus.
  case_bool_decide as E; [by destruct (Hc d q E Hq) | by apply (Ht q d)].
Qed.

Lemma removable_leaves F ps :
  NoDup ps -> (forall p, p ∈ ps -> is_Some (F !! p) /\ forall q, is_Some (F !! q) -> parent q <> Some p) ->
  removable F ps.
Proof.
  intros Hn. revert F. induction Hn as [|p ps Hp Hn IH]; intros F HF; [done|].
  destruct (HF p ltac:(by left)) as [Hi Hc]. split_and!; [done | done|]. apply IH. intros q Hq.
  destruct (HF q ltac:(by right)) as [Hiq Hcq]. split.
  - rewrite lookup_delete_ne by (by intros ->). done.
  - intros r Hr. apply Hcq. rewrite lookup_delete_is_Some in Hr. tauto.
Qed.

(** Directories in a list, those that contain others first. *)
Definition ordered (D : list text) : Prop :=
  forall l1 q l2 d, D = l1 ++ q :: l2 -> parent q = Some d -> d ∈ D -> d ∈ l1.

Lemma removable_rev F D :
  NoDup D -> ordered D -> (forall p, p ∈ D -> is_Some (F !! p)) ->
  (forall q d, is_Some (F !! q) -> parent q = Some d -> d ∈ D -> q ∈ D) ->
  removable F (rev D).
Proof.
  revert F. induction D as [|p D IH] using rev_ind; intros F Hn Ho Hi Hc; [done|].
  rewrite rev_app_distr. apply NoDup_app in Hn as (Hn & Hp & _). cbn [rev app removable].
  assert (p ∉ D) as HpD by (intros Hx; apply (Hp p Hx); by left).
  split_and!; [apply Hi; set_solver | |].
  - intros q Hq Hqp. pose proof (Hc q p Hq Hqp ltac:(set_solver)) as HqD.
    apply list_elem_of_split in HqD as (l1 & l2 & El).
    pose proof (Ho l1 q l2 p El Hqp ltac:(set_solver)) as Hpl.
    destruct l2 as [|z l2 _] using rev_ind.
    + apply app_inj_tail in El as [-> ->]. done.
    + rewrite app_comm_cons, app_assoc in El. apply app_inj_tail in El as [-> ->]. set_solver.
  - apply IH; [done | | |].
    + intros l1 q l2 d -> Hd Hin. eapply (Ho l1 q (l2 ++ [p])); [by rewrite <- app_assoc | done | set_solver].
    + intros q Hq. rewrite lookup_delete_ne by (by intros ->). apply Hi. set_solver.
    + intros q d [Hq1 Hq2]%lookup_delete_is_Some Hd HdD.
      pose proof (Hc q d Hq2 Hd ltac:(set_solver)) as Hin. set_solver.
Qed.

(** ** What the operations promise *)

Definition entry_name (e : vattrs * text) : text := attr_name e.1.
Definition entry_dir (e : vattrs * text) : bool := Tc.S_ISDIR (mode (vals e.1)).

(** [es] are the entries of the directories [dirs], in some order. *)
Record listing (F : fs) (dirs : list text) (es : list (vattrs * text)) : Prop := {
  li_paths : Forall (fun e => is_Some (path (attr_file e.1))) es;
  li_nodup : NoDup (map entry_name es);
  li_elem : forall q, q ∈ map entry_name es <-> is_Some (F !! q) /\ exists d, d ∈ dirs /\ parent q = Some d;
  li_kind : forall e, e ∈ es -> F !! entry_name e = Some (entry_dir e)
}.

Definition ask (p : text) : vattrs := mk_attrs (vfile_from_path p) Tc.mode_mask (vals zero_attrs).

(** In a state that satisfies [inv] with [F], the file system is [F]. *)
Class RmServer {S} (a : api S) (inv : S -> fs -> Prop) : Prop := {
  rm_getattrs : forall F s objs, inv s F -> objs <> [] -> (forall p, p ∈ objs -> is_Some (F !! p)) ->
    exists r l s', vec_getattrs a (map ask objs) s = done (r, l, s') /\ vokay r = true /\ inv s' F
    /\ map (fun v => Some (Tc.S_ISDIR (mode (vals v)))) l = map (fun p => F !! p) objs;
  rm_unlink : forall F s ps, inv s F -> removable F ps ->
    exists r s', vec_unlink a ps s = done (r, s') /\ vokay r = true /\ inv s' (minus F ps);
  rm_listdir : forall F s dirs mk U cb (c : U), inv s F -> NoDup dirs ->
    (forall d, d ∈ dirs -> F !! d = Some true) -> has_mode mk = true -> (forall e d c, (cb e d c).1 = true) ->
    exists r es s', vec_listdir a dirs mk 0 false cb c s
      = done (r, foldl (fun c e => (cb e.1 e.2 c).2) c es, s')
    /\ vokay r = true /\ inv s' F /\ listing F dirs es
}.

(** ** Removing a tree *)

Definition names (f : bool -> bool) (es : list (vattrs * text)) : list text :=
  map entry_name (List.filter (fun e => f (entry_dir e)) es).

Lemma fold_rm D Fi es :
  Forall (fun e => is_Some (path (attr_file e.1))) es ->
  foldl (fun c e => (rm_list_callback e.1 e.2 c).2) (Ok (mk_rm D Fi)) es
  = Ok (mk_rm (D ++ names (fun x => x) es) (Fi ++ names negb es)).
Proof.
  intros He. revert D Fi. induction He as [|[v d] es [p Hp] _ IH]; intros D Fi.
  - unfold names. cbn. by rewrite !app_nil_r.
  - cbn [foldl rm_list_callback fst snd obind]. cbn [fst] in Hp. rewrite Hp.
    unfold names in *. cbn [List.filter].
    assert (entry_dir (v, d) = Tc.S_ISDIR (mode (vals v))) as -> by done.
    assert (entry_name (v, d) = p) as Hn by (unfold entry_name, attr_name; cbn; by rewrite Hp).
    cbn [rm_dirs rm_files]. destruct (Tc.S_ISDIR _); cbn [negb map]; rewrite IH, Hn, <- app_assoc; done.
Qed.

Lemma names_elem f es q : q ∈ names f es <-> exists e, e ∈ es /\ f (entry_dir e) = true /\ entry_name e = q.
Proof.
  unfold names. rewrite list_elem_of_In, in_map_iff. setoid_rewrite filter_In. setoid_rewrite <- list_elem_of_In.
  naive_solver.
Qed.

Lemma names_perm es : names (fun x => x) es ++ names negb es ≡ₚ map entry_name es.
Proof.
  unfold names. induction es as [|e es IH]; [done|]. cbn [List.filter map].
  destruct (entry_dir e); cbn [negb map app]; [by rewrite IH|].
  by rewrite <- Permutation_middle, IH.
Qed.

(** The loop, with [D] the directories found, [emptied] of them listed, and [Fi] the files
    found and not yet removed. *)
Record rm_ok (F0 F : fs) (objs D : list text) (emptied : nat) (Fi : list text) : Prop := {
  ro_tree : tree F;
  ro_nodup : NoDup (D ++ Fi);
  ro_dirs : forall p, p ∈ D -> F !! p = Some true;
  ro_files : forall p, p ∈ Fi -> F !! p = Some false;
  ro_found : forall q d, is_Some (F !! q) -> parent q = Some d -> d ∈ take emptied D -> q ∈ D ++ Fi;
  ro_objs : forall p, p ∈ objs -> is_Some (F !! p) -> p ∈ D ++ Fi;
  ro_from : forall q, q ∈ D ++ Fi -> q ∈ objs \/ exists d, parent q = Some d /\ d ∈ take emptied D;
  ro_target : forall q, q ∈ D ++ Fi -> target objs q;
  ro_order : ordered D;
  ro_level : forall q d, q ∈ D ++ Fi -> parent q = Some d -> d ∉ drop emptied D;
  ro_rest : forall q, ~ target objs q -> F !! q = F0 !! q;
  ro_sub : forall q, is_Some (F !! q) -> F !! q = F0 !! q
}.

Section rm.
Context {S : Type} (a : api S) (inv : S -> fs -> Prop) `{!RmServer a inv}.
Context (junk_masks : vattrs_masks) (F0 : fs) (objs : list text).
(** No object is inside another one. *)
Hypothesis antichain : forall p q, p ∈ objs -> q ∈ objs -> ~ below p q.

Lemma target_child q d : target objs d -> parent q = Some d -> exists p, p ∈ objs /\ below p q.
Proof.
  intros [Hd|(p & Hp & Hb)] Hq; [exists d | exists p]; (split; [done|]).
  - by constructor.
  - by eapply below_deep.
Qed.

(** One round finds the entries [es] of the directories not listed so far. *)
Section round.
Context (F : fs) (D : list text) (emptied : nat) (Fi : list text) (es : list (vattrs * text)).
Hypothesis Hok : rm_ok F0 F objs D emptied Fi.
Hypothesis Hli : listing (minus F Fi) (drop emptied D) es.
Notation cd := (names (fun x => x) es).
Notation cf := (names negb es).

Lemma new_elem q : q ∈ cd \/ q ∈ cf <->
  is_Some (F !! q) /\ q ∉ Fi /\ exists d, d ∈ drop emptied D /\ parent q = Some d.
Proof. rewrite <- elem_of_app, names_perm, (li_elem _ _ _ Hli), minus_sub. tauto. Qed.

Lemma new_parent q : q ∈ cd \/ q ∈ cf -> exists d, d ∈ D /\ parent q = Some d.
Proof. intros (_ & _ & d & Hd & Hqd)%new_elem. exists d. split; [by eapply subseteq_drop | done]. Qed.

Lemma new_fresh q : q ∈ cd \/ q ∈ cf -> q ∉ D ++ Fi.
Proof. intros (_ & _ & d & Hd & Hqd)%new_elem Hin. by apply (ro_level _ _ _ _ _ _ Hok q d). Qed.

Lemma new_below q : q ∈ cd \/ q ∈ cf -> exists p, p ∈ objs /\ below p q.
Proof.
  intros (d & Hd & Hqd)%new_parent. eapply target_child; [|done].
  apply (ro_target _ _ _ _ _ _ Hok), elem_of_app. by left.
Qed.

(** An element found before has no parent among the new ones. *)
Lemma old_parent q d : q ∈ D -> parent q = Some d -> d ∉ cd.
Proof.
  intros Hq Hqd Hd. destruct (ro_from _ _ _ _ _ _ Hok q ltac:(set_solver)) as [Hob|(d' & Hd' & Hin)].
  - destruct (new_below d ltac:(by left)) as (p & Hp & Hb). eapply (antichain p q); [done..|]. by eapply below_deep.
  - simplify_eq. apply (new_fresh d); [by left|]. apply elem_of_app. left. by eapply subseteq_take.
Qed.

Lemma round_order : ordered (D ++ cd).
Proof.
  intros l1 q l2 d El Hqd Hd. apply elem_of_app in Hd.
  assert ((exists l, l1 = D ++ l) \/ exists l, D = l1 ++ q :: l) as [[l ->]|[l El1]].
  { apply app_eq_inv in El as [(k & -> & Ek)|(k & -> & Ek)].
    - destruct k as [|z k]; [left; exists []; by rewrite !app_nil_r|]. cbn in Ek. injection Ek as -> ->. right. by exists k.
    - left. by exists k. }
  - destruct Hd as [Hd|Hd]; [set_solver|].
    assert (q ∈ cd) as Hq. { rewrite <- app_assoc in El. apply app_inv_head in El. rewrite El. set_solver. }
    destruct (new_parent q ltac:(by left)) as (d' & Hd' & Hqd'). simplify_eq. set_solver.
  - destruct Hd as [Hd|Hd]; [by eapply (ro_order _ _ _ _ _ _ Hok)|].
    destruct (old_parent q d); [|done|done]. rewrite El1. set_solver.
Qed.

Lemma round_level q d : q ∈ (D ++ cd) ++ cf -> parent q = Some d -> d ∉ cd.
Proof.
  rewrite !elem_of_app. intros [[Hq|Hq]|Hq] Hqd Hd; [by apply (old_parent q d) | |];
    destruct (new_parent q ltac:(auto)) as (d' & Hd' & Hqd'); simplify_eq;
    (apply (new_fresh d); [by left | set_solver]).
Qed.

Lemma round_from q : q ∈ (D ++ cd) ++ cf -> q ∈ objs \/ exists d, parent q = Some d /\ d ∈ D.
Proof.
  rewrite !elem_of_app. intros [[Hq|Hq]|Hq].
  - destruct (ro_from _ _ _ _ _ _ Hok q ltac:(set_solver)) as [?|(d & Hd & Hin)]; [by left|].
    right. exists d. split; [done|]. by eapply subseteq_take.
  - right. destruct (new_parent q ltac:(by left)) as (d & Hd & Hqd). by exists d.
  - right. destruct (new_parent q ltac:(by right)) as (d & Hd & Hqd). by exists d.
Qed.

Lemma round_found q d : is_Some (minus F Fi !! q) -> parent q = Some d -> d ∈ D -> q ∈ (D ++ cd) ++ cf.
Proof.
  intros [Hq Hqn]%minus_sub Hqd Hd. rewrite !elem_of_app.
  rewrite <- (take_drop emptied D) in Hd. apply elem_of_app in Hd as [Hd|Hd].
  - pose proof (ro_found _ _ _ _ _ _ Hok q d Hq Hqd Hd). set_solver.
  - destruct (proj2 (new_elem q)) as [?|?]; [|auto..]. split_and!; [done..|]. by exists d.
Qed.

Lemma rm_round : rm_ok F0 (minus F Fi) objs (D ++ cd) (List.length D) cf.
Proof.
  pose proof new_fresh as Hfresh. pose proof new_below as Hbelow.
  pose proof (ro_nodup _ _ _ _ _ _ Hok) as (HnD & Hdis & _)%NoDup_app.
  split.
  - apply tree_minus; [apply Hok|]. intros p q Hp [Hq _]%minus_sub Hqp.
    pose proof (ro_tree _ _ _ _ _ _ Hok q p Hq Hqp). by rewrite (ro_files _ _ _ _ _ _ Hok p Hp) in *.
  - rewrite <- app_assoc. apply NoDup_app. split_and!; [done | |rewrite names_perm; apply Hli].
    intros q Hq Hin. apply (Hfresh q); [by apply elem_of_app in Hin | set_solver].
  - intros p [Hp|(e & He & Hf & <-)%names_elem]%elem_of_app; [|by rewrite (li_kind _ _ _ Hli e He), Hf].
    rewrite lookup_minus, bool_decide_eq_false_2 by (by apply Hdis). by apply (ro_dirs _ _ _ _ _ _ Hok).
  - intros p (e & He & Hf%negb_true_iff & <-)%names_elem. by rewrite (li_kind _ _ _ Hli e He), Hf.
  - rewrite take_app_length. intros q d. apply round_found.
  - intros p Hp [Hi Hpn]%minus_sub. pose proof (ro_objs _ _ _ _ _ _ Hok p Hp Hi). set_solver.
  - rewrite take_app_length. apply round_from.
  - intros q. rewrite !elem_of_app. intros [[Hq|Hq]|Hq]; [|right; apply Hbelow; auto..].
    apply (ro_target _ _ _ _ _ _ Hok). set_solver.
  - apply round_order.
  - rewrite drop_app_length. apply round_level.
  - intros q Hq. rewrite lookup_minus, bool_decide_eq_false_2; [by apply (ro_rest _ _ _ _ _ _ Hok)|].
    intros Hin. apply Hq, (ro_target _ _ _ _ _ _ Hok). set_solver.
  - intros q [Hq Hqn]%minus_sub. rewrite lookup_minus, bool_decide_eq_false_2 by done. by apply (ro_sub _ _ _ _ _ _ Hok).
Qed.

End round.

(** The files not found so far. *)
Definition unfound (F : fs) (D Fi : list text) : gset text := dom F ∖ list_to_set (D ++ Fi).

Lemma unfound_less F D Fi emptied es :
  rm_ok F0 F objs D emptied Fi -> listing (minus F Fi) (drop emptied D) es -> es <> [] ->
  unfound (minus F Fi) (D ++ names (fun x => x) es) (names negb es) ⊂ unfound F D Fi.
Proof.
  intros Hok Hli Hne. unfold unfound.
  assert (dom (minus F Fi) ⊆ dom F) as Hsub by (intros q; rewrite !elem_of_dom, minus_sub; tauto).
  split.
  - intros q. rewrite !elem_of_difference, !elem_of_list_to_set, !elem_of_app, !elem_of_dom, minus_sub. tauto.
  - intros Hc. destruct es as [|e es]; [done|].
    assert (entry_name e ∈ map entry_name (e :: es)) as He by (by left).
    pose proof (proj1 (li_elem _ _ _ Hli _) He) as ([Hi Hf]%minus_sub & d & Hd & Hp).
    assert (entry_name e ∉ D) as HD.
    { intros HD. apply (ro_level _ _ _ _ _ _ Hok (entry_name e) d); [set_solver | done..]. }
    assert (entry_name e ∈ dom F ∖ list_to_set (D ++ Fi)) as Hin.
    { apply elem_of_difference. split; [by apply elem_of_dom|]. rewrite elem_of_list_to_set. set_solver. }
    apply Hc in Hin. rewrite elem_of_difference, elem_of_list_to_set, <- app_assoc, names_perm in Hin.
    set_solver.
Qed.

Lemma rm_loop_spec k F D emptied Fi s :
  inv s F -> rm_ok F0 F objs D emptied Fi -> (emptied <= List.length D)%nat ->
  (base.size (unfound F D Fi) < k)%nat ->
  exists F' D' s', rm_loop a true junk_masks k emptied (mk_rm D Fi) s = done (inr (mk_rm D' []), s')
  /\ inv s' F' /\ rm_ok F0 F' objs D' (List.length D') [].
Proof.
  revert F D emptied Fi s. induction k as [|k IH]; intros F D emptied Fi s Hs Hok Hem Hk; [lia|].
  cbn [rm_loop rm_dirs rm_files].
  destruct ((List.length D <=? emptied)%nat && (List.length Fi =? 0)%nat) eqn:E.
  { apply andb_true_iff in E as [E1%Nat.leb_le E2%Nat.eqb_eq]. apply nil_length_inv in E2 as ->.
    assert (emptied = List.length D) as -> by lia. by exists F, D, s. }
  destruct (rm_unlink F s Fi) as (r1 & s1 & E1 & Hr1 & Hs1); [done| |].
  { apply removable_leaves; [by destruct Hok as [? [_ [_ ?]]%NoDup_app] |].
    intros p Hp. rewrite (ro_files _ _ _ _ _ _ Hok p Hp). split; [by eexists|]. intros q Hq Hqp.
    pose proof (ro_tree _ _ _ _ _ _ Hok q p Hq Hqp). by rewrite (ro_files _ _ _ _ _ _ Hok p Hp) in *. }
  rewrite (bind_done _ _ _ _ _ E1), Hr1. cbn [negb].
  rewrite (bind_done _ _ _ tt s1) by done.
  pose proof (ro_nodup _ _ _ _ _ _ Hok) as (HnD & Hdis & HnF)%NoDup_app.
  destruct (rm_listdir (minus F Fi) s1 (drop emptied D) (listdir_mask junk_masks) _ rm_list_callback
    (Ok (mk_rm D []))) as (r2 & es & s2 & E2 & Hr2 & Hs2 & Hli).
  { done. } { rewrite <- (take_drop emptied D) in HnD. by apply NoDup_app in HnD as (_ & _ & ?). }
  { intros d Hd. assert (d ∈ D) by (by eapply subseteq_drop). rewrite lookup_minus, bool_decide_eq_false_2 by (by apply Hdis).
    by apply (ro_dirs _ _ _ _ _ _ Hok). } { done. } { done. }
  rewrite (bind_done _ _ _ _ _ E2). cbv beta iota. rewrite fold_rm by apply Hli.
  erewrite bind_done; [|unfold run; cbn [obind]; reflexivity]. rewrite Hr2. cbn [negb app].
  pose proof (rm_round F D emptied Fi es Hok Hli) as Hok'.
  rewrite length_drop. replace (emptied + (List.length D - emptied))%nat with (List.length D) by lia.
  destruct (decide (es = [])) as [->|Hne].
  - unfold names in *. cbn [List.filter map] in *. rewrite app_nil_r in *.
    exists (minus F Fi), D, s2. split_and!; [|done..].
    destruct k; cbn [rm_loop rm_dirs rm_files List.length]; by rewrite Nat.leb_refl.
  - eapply IH; [done | done | rewrite length_app; lia |].
    eapply Nat.lt_le_trans; [|apply Nat.lt_succ_r; exact Hk]. apply subset_size.
    apply (unfound_less F D Fi emptied es); done.
Qed.

(** What is left when the loop ends. *)
Lemma rm_finish F D :
  rm_ok F0 F objs D (List.length D) [] ->
  removable F (rev D)
  /\ forall q, (target objs q -> minus F (rev D) !! q = None) /\ (~ target objs q -> minus F (rev D) !! q = F0 !! q).
Proof.
  intros [Ht Hn HD _ Hfound Hobjs _ Htar Hord _ Hrest _]. rewrite app_nil_r, take_ge in * by done.
  assert (forall q, target objs q -> is_Some (F !! q) -> q ∈ D) as Hall.
  { intros q [Hq|(p & Hp & Hb)] Hi; [by apply Hobjs|].
    induction Hb as [q Hqp|q d Hqd Hb IH].
    - apply (Hfound q p Hi Hqp), Hobjs; [done|]. rewrite (Ht q p Hi Hqp). by eexists.
    - apply (Hfound q d Hi Hqd), IH. rewrite (Ht q d Hi Hqd). by eexists. }
  split.
  - apply removable_rev; [done | done | |done]. intros p Hp. rewrite HD by done. by eexists.
  - intros q. rewrite lookup_minus. split; intros Hq.
    + case_bool_decide as E; [done|]. apply eq_None_not_Some. intros Hi. apply E. rewrite list_elem_of_In, <- in_rev, <- list_elem_of_In. by apply Hall.
    + rewrite bool_decide_eq_false_2; [by apply Hrest|]. rewrite list_elem_of_In, <- in_rev, <- list_elem_of_In.
      intros Hin. by apply Hq, Htar.
Qed.

Lemma kinds_lists (l : list bool) (ps : list text) :
  map Some l = map (fun p => F0 !! p) ps ->
  let kinds := zip ps l in
  let D := map fst (filter (fun x => x.2 = true) kinds) in
  let Fi := map fst (filter (fun x => x.2 = false) kinds) in
  D ++ Fi ≡ₚ ps /\ (forall p, p ∈ D -> F0 !! p = Some true) /\ (forall p, p ∈ Fi -> F0 !! p = Some false).
Proof.
  revert ps. induction l as [|b l IH]; intros [|p ps] Hl; try done.
  { split_and!; [done | |]; by intros ? ?%elem_of_nil. }
  cbn in Hl. injection Hl as Hb Hl. specialize (IH ps Hl) as (Hp & HD & HF). cbn [zip zip_with].
  rewrite !filter_cons. cbn [snd]. destruct b; repeat case_decide; try done; cbn [map fst app].
  - split_and!; [by rewrite Hp | | done]. intros q [->|Hq]%elem_of_cons; [done | by apply HD].
  - split_and!; [by rewrite <- Permutation_middle, Hp | done|]. intros q [->|Hq]%elem_of_cons; [done | by apply HF].
Qed.

(** The loop starts well. *)
Lemma rm_start D Fi :
  tree F0 -> NoDup objs -> (forall p, p ∈ objs -> is_Some (F0 !! p)) -> D ++ Fi ≡ₚ objs ->
  (forall p, p ∈ D -> F0 !! p = Some true) -> (forall p, p ∈ Fi -> F0 !! p = Some false) ->
  rm_ok F0 F0 objs D 0 Fi.
Proof.
  intros Ht Hn Hi Hp HD HF.
  assert (forall q, q ∈ D ++ Fi <-> q ∈ objs) as Hel by (intros q; by rewrite Hp).
  split; try done.
  - by rewrite Hp.
  - intros q d _ _ Hd. by apply elem_of_nil in Hd.
  - intros p Hp' _. by apply Hel.
  - intros q Hq. left. by apply Hel.
  - intros q Hq. left. by apply Hel.
  - intros l1 q l2 d -> Hq Hd. destruct (antichain d q); [apply Hel; set_solver | apply Hel; set_solver | by constructor].
  - intros q d Hq Hqd Hd. rewrite drop_0 in Hd.
    apply (antichain d q); [apply Hel; set_solver | by apply Hel | by constructor].
Qed.

Lemma unlink_recursive_spec fuel s :
  inv s F0 -> tree F0 -> NoDup objs -> (forall p, p ∈ objs -> is_Some (F0 !! p)) ->
  (base.size F0 < fuel)%nat ->
  exists F' s', vec_unlink_recursive a true junk_masks fuel objs s = done (vfailure 0 0, s') /\ inv s' F'
  /\ forall q, (target objs q -> F' !! q = None) /\ (~ target objs q -> F' !! q = F0 !! q).
Proof.
  intros Hs Ht Hn Hi Hf. unfold vec_unlink_recursive.
  change (map (fun p => mk_attrs (vfile_from_path p) Tc.mode_mask (vals zero_attrs)) objs) with (map ask objs).
  assert (exists l s1, stat_objs a (List.length objs) (map ask objs) 0 s = done (inr l, s1) /\ inv s1 F0
    /\ map Some (map (fun v => Tc.S_ISDIR (mode (vals v))) l) = map (fun p => F0 !! p) objs) as (l & s1 & E1 & Hs1 & Hl).
  { destruct (decide (objs = [])) as [E0|Hne]; [rewrite E0; by exists [], s|].
    destruct (rm_getattrs F0 s objs Hs Hne Hi) as (r & l & s1 & E & Hr & Hs1 & Hl).
    exists l, s1. split_and!; [|done|by rewrite map_map].
    destruct objs as [|p ps] eqn:Eo; [done|]. rewrite <- Eo in *.
    replace (List.length objs) with (Datatypes.S (List.length ps)) by (by rewrite Eo). cbn [stat_objs].
    rewrite length_map, (proj2 (Nat.leb_gt _ _)) by (rewrite Eo; cbn; lia). rewrite drop_0.
    rewrite (bind_done _ _ _ _ _ E). cbv beta iota. by rewrite Hr. }
  rewrite (bind_done _ _ _ _ _ E1). cbv beta iota.
  destruct (kinds_lists _ objs Hl) as (Hp & HD & HF).
  set (D := map fst (filter (fun x => x.2 = true) _)) in *. set (Fi := map fst (filter (fun x => x.2 = false) _)) in *.
  destruct (rm_loop_spec fuel F0 D 0 Fi s1) as (F & D' & s2 & E2 & Hs2 & Hok);
    [done | by apply rm_start | lia | |].
  { eapply Nat.le_lt_trans; [|exact Hf]. rewrite <- size_dom. apply subseteq_size. unfold unfound. set_solver. }
  rewrite (bind_done _ _ _ _ _ E2). cbv beta iota. cbn [rm_dirs].
  destruct (rm_finish F D' Hok) as [Hrem Hfin].
  destruct (rm_unlink F s2 (rev D') Hs2 Hrem) as (r3 & s3 & E3 & Hr3 & Hs3).
  destruct D' as [|d D']; [by exists F, s2|].
  exists (minus F (rev (d :: D'))), s3. rewrite (bind_done _ _ _ _ _ E3), Hr3. done.
Qed.

End rm.

End tree.

(** ** A small file system *)

Definition str (x : String.string) : text := Cache.bytes x.

Definition toy_mode (dir : bool) : Z := if dir then 16877 else 33188.

Definition toy_entry (x : text * bool) : vattrs * text :=
  (Tc.with_mode (ask x.1) VMASK_INIT_ALL (toy_mode x.2), default [] (parent_path x.1)).

Definition in_dirs (dirs : list text) (x : text * bool) : bool :=
  match parent_path x.1 with Some d => bool_decide (d ∈ dirs) | None => false end.

Definition toy_entries (F : fs) (dirs : list text) : list (vattrs * text) :=
  map toy_entry (List.filter (in_dirs dirs) (map_to_list F)).

(** The attributes up to the first file that does not exist. *)
Fixpoint toy_getattrs (i : Z) (l : list vattrs) (F : fs) : vres * list vattrs :=
  match l with
  | [] => (mk_vres i 0, [])
  | v :: l =>
      match F !! attr_name v with
      | None => (vfailure i ENOENT, v :: l)
      | Some d => let '(r, l) := toy_getattrs (i + 1) l F in (r, Tc.with_mode v (masks v) (toy_mode d) :: l)
      end
  end.

Definition has_child (F : fs) (p : text) : bool :=
  existsb (fun x => bool_decide (parent_path x.1 = Some p)) (map_to_list F).

Fixpoint toy_unlink (i : Z) (ps : list text) (F : fs) : vres * fs :=
  match ps with
  | [] => (mk_vres i 0, F)
  | p :: ps =>
      match F !! p with
      | None => (vfailure i ENOENT, F)
      | Some _ => if has_child F p then (vfailure i 39, F) else toy_unlink (i + 1) ps (delete p F)
      end
  end.

Definition toy_api : api fs := {|
  vec_getattrs l F := let '(r, l) := toy_getattrs 0 l F in done (r, l, F);
  vec_lgetattrs l F := done (mk_vres 0 0, l, F);
  vec_lsetattrs l F := done (mk_vres 0 0, l, F);
  vec_mkdir l F := done (mk_vres 0 0, l, F);
  vec_listdir U dirs mk n r cb c F :=
    if forallb (fun d => bool_decide (F !! d = Some true)) dirs
    then done (mk_vres 0 0, foldl (fun c e => (cb e.1 e.2 c).2) c (toy_entries F dirs), F)
    else done (vfailure 0 ENOENT, c, F);
  vec_unlink ps F := let '(r, F) := toy_unlink 0 ps F in done (r, F);
  vec_lcopy _ F := done (mk_vres 0 0, F);
  vec_ldup _ F := done (mk_vres 0 0, F);
  vec_symlink _ _ F := done (mk_vres 0 0, F);
  vec_readlink _ bufs F := done (mk_vres 0 0, bufs, F)
|}.

Lemma toy_getattrs_ok F objs i : (forall p, p ∈ objs -> is_Some (F !! p)) ->
  exists l, toy_getattrs i (map ask objs) F = (mk_vres (i + zlen objs) 0, l)
  /\ map (fun v => Some (Tc.S_ISDIR (mode (vals v)))) l = map (fun p => F !! p) objs.
Proof.
  revert i. induction objs as [|p objs IH]; intros i Hi.
  - exists []. cbn. split; [do 2 f_equal; unfold zlen; cbn; lia | done].
  - destruct (Hi p ltac:(by left)) as [d Hd].
    destruct (IH (i + 1)) as (l & El & Hl); [intros q Hq; apply Hi; by right|].
    cbn [map toy_getattrs]. assert (F !! attr_name (ask p) = Some d) as -> by exact Hd. rewrite El.
    eexists. split; [do 2 f_equal; unfold zlen; cbn [List.length]; lia|].
    cbn [map]. rewrite Hl, Hd. f_equal. by destruct d.
Qed.

Lemma has_child_false F p : (forall q, is_Some (F !! q) -> parent_path q <> Some p) -> has_child F p = false.
Proof.
  intros H. apply not_true_iff_false. intros (x & Hx%list_elem_of_In & Hp%bool_decide_eq_true)%existsb_exists.
  destruct x as [q d]. apply elem_of_map_to_list in Hx. apply (H q); [by eexists | done].
Qed.

Lemma toy_unlink_ok F ps i : removable parent_path F ps ->
  toy_unlink i ps F = (mk_vres (i + zlen ps) 0, minus F ps).
Proof.
  revert F i. induction ps as [|p ps IH]; intros F i Hr.
  - cbn. do 2 f_equal. unfold zlen. cbn. lia.
  - destruct Hr as ([d Hd] & Hc & Hr). cbn [toy_unlink]. rewrite Hd, has_child_false by done.
    rewrite IH by done. do 2 f_equal. unfold zlen. cbn [List.length]. lia.
Qed.

Lemma toy_entries_listing F dirs : listing parent_path F dirs (toy_entries F dirs).
Proof.
  assert (map entry_name (toy_entries F dirs) = map fst (List.filter (in_dirs dirs) (map_to_list F))) as Hn.
  { unfold toy_entries. rewrite map_map. by apply map_ext. }
  split.
  - apply Forall_map, Forall_true. intros x. by eexists.
  - rewrite Hn. assert (sublist (map fst (List.filter (in_dirs dirs) (map_to_list F))) (map fst (map_to_list F))) as Hs.
    { generalize (map_to_list F). intros l. induction l as [|x l IH]; [done|]. cbn.
      destruct (in_dirs dirs x); cbn; by constructor. }
    exact (sublist_NoDup _ _ (NoDup_fst_map_to_list F) Hs).
  - intros q. rewrite Hn, list_elem_of_In, in_map_iff. setoid_rewrite filter_In. setoid_rewrite <- list_elem_of_In.
    unfold in_dirs. split.
    + intros ([q' d] & <- & Hin%elem_of_map_to_list & Hd). cbn in *. split; [by eexists|].
      destruct (parent_path q') as [e|]; [|done]. apply bool_decide_eq_true in Hd. by exists e.
    + intros ([d Hd] & e & He & Hp). exists (q, d). cbn. rewrite Hp. split_and!; [done | by apply elem_of_map_to_list|].
      by apply bool_decide_eq_true.
  - intros e He. apply list_elem_of_fmap in He as ([q d] & -> & Hin).
    apply list_elem_of_In, filter_In in Hin as [Hin%list_elem_of_In%elem_of_map_to_list _].
    change (F !! q = Some (Tc.S_ISDIR (toy_mode d))). rewrite Hin. by destruct d.
Qed.

#[export] Instance toy_rm_server : RmServer parent_path toy_api (fun s F => s = F).
Proof.
  split.
  - intros F s objs -> _ Hi. destruct (toy_getattrs_ok F objs 0 Hi) as (l & El & Hl).
    eexists _, l, F. cbn. rewrite El. done.
  - intros F s ps -> Hr. eexists _, (minus F ps). cbn. rewrite (toy_unlink_ok F ps 0 Hr). done.
  - intros F s dirs mk U cb c -> Hn Hd _ _. exists (mk_vres 0 0), (toy_entries F dirs), F. cbn.
    rewrite (proj2 (forallb_forall _ _)); [split_and!; try done; apply toy_entries_listing|].
    intros d Hin%list_elem_of_In. by apply bool_decide_eq_true, Hd.
Qed.

(** ** Theorems *)


(** ["/d"] holds a file and a directory with a file. *)
Definition toy_fs : fs :=
  list_to_map [(str "/", true); (str "/d", true); (str "/d/f", false); (str "/d/e", true);
               (str "/d/e/g", false); (str "/h", false)].

Lemma toy_tree F :
  forallb (fun x => match parent_path x.1 with Some d => bool_decide (F !! d = Some true) | None => true end)
    (map_to_list F) = true -> tree parent_path F.
Proof.
  intros Hall q d [b Hq] Hd. rewrite forallb_forall in Hall.
  specialize (Hall (q, b)). cbn in Hall. rewrite Hd in Hall.
  by apply bool_decide_eq_true in Hall; [|apply list_elem_of_In, elem_of_map_to_list].
Qed.


(** An object that does not exist shifts the attributes: the directory after it is not removed, and the
    missing path is taken for a directory. *)
Theorem unlink_recursive_missing :
  vec_unlink_recursive toy_api true VMASK_INIT_NONE 9 [str "/x"; str "/d"] toy_fs
  = done (vfailure 0 ENOENT, toy_fs).
Proof. vm_compute. reflexivity. Qed.

(** The lengths of the files that follow the first one. *)
Definition total (l : list vextent_pair) : Z := foldr (fun x n => ext_length x + n) 0 l.

Lemma total_nonneg l : Forall (fun x => 0 <= ext_length x) l -> 0 <= total l.
Proof. induction 1 as [|x l Hx _ IH]; cbn [total foldr]; [lia|]. fold (total l). lia. Qed.

Lemma group_spec {S} k (l : list vextent_pair) i bytes n (s : S) :
  Forall (fun x => 0 <= ext_length x) l -> 0 <= i -> 0 <= n -> i + n < zlen l -> zlen l <= i + 64 -> 0 <= bytes ->
  bytes + total (drop (Z.to_nat (i + n + 1)) l) < kSizeLimit -> (Z.to_nat (zlen l - (i + n)) <= k)%nat ->
  group k l i bytes n s = Abort.
Proof.
  intros Hp Hi. revert bytes n.
  induction k as [|k IH]; intros bytes n Hn Hlt H64 Hb Hsum Hk; [lia|]. cbn [group].
  assert (0 <= total (drop (Z.to_nat (i + n + 1)) l)) as Ht.
  { by apply total_nonneg, Forall_drop. }
  rewrite (proj2 (Z.ltb_lt bytes kSizeLimit)), (proj2 (Z.ltb_lt (i + n) _)), (proj2 (Z.ltb_lt n 64)) by lia.
  cbn [andb]. unfold Tc.item at 1. rewrite (proj2 (Z.ltb_ge (i + (n + 1)) 0)) by lia.
  replace (i + (n + 1)) with (i + n + 1) by lia.
  destruct (l !! Z.to_nat (i + n + 1)) as [x|] eqn:Ex; [|done].
  pose proof (lookup_lt_Some _ _ _ Ex) as Hlx. unfold zlen in *.
  erewrite bind_done; [|reflexivity].
  rewrite (drop_S _ _ _ Ex) in Hsum.
  cbn [total foldr] in Hsum. fold (total (drop (Datatypes.S (Z.to_nat (i + n + 1))) l)) in Hsum.
  assert (0 <= ext_length x) as Hx by (by rewrite Forall_lookup in Hp; eapply Hp).
  assert (0 <= total (drop (Datatypes.S (Z.to_nat (i + n + 1))) l)) as Ht' by (by apply total_nonneg, Forall_drop).
  unfold kSizeLimit in *. rewrite u64_small by lia.
  apply IH; try lia.
  replace (Z.to_nat (i + (n + 1) + 1)) with (Datatypes.S (Z.to_nat (i + n + 1))) by lia. lia.
Qed.

(** Small files that together are smaller than the limit, at most 64 of them: the loop that groups them
    reads past the end of the vector. *)
Theorem dup_small_overreads {S} (a : api S) fuel small_files r (s : S) :
  small_files <> [] -> zlen small_files <= 64 -> Forall (fun x => 0 <= ext_length x) small_files ->
  total small_files < kSizeLimit -> dup_small a (Datatypes.S fuel) small_files 0 r s = Abort.
Proof.
  intros Hne Hl Hp Ht. cbn [dup_small].
  assert (0 < zlen small_files) as Hpos by (destruct small_files; [done | unfold zlen; cbn; lia]).
  rewrite (proj2 (Z.ltb_lt _ _) Hpos). cbn [negb]. unfold mbind, M_bind, fbind.
  rewrite group_spec; [done | done | lia | lia | lia | lia | lia | | unfold zlen in *; lia].
  destruct small_files as [|x l]; [done|]. change (total (x :: l)) with (ext_length x + total l) in Ht.
  apply Forall_cons in Hp as [Hx Hp]. change (Z.to_nat (0 + 0 + 1)) with 1%nat. cbn [drop]. rewrite drop_0. lia.
Qed.

End Lib.
