(* ===== verification/PosixTree.v ===== *)
(** Directories of the POSIX layer, and the recursive removal of [tc/tc_lib.cpp] over it.
    Module [PosixTree]. [DirKernel] states what the system promises about directories;
    listing and removing through the entry points and the POSIX layer then keep the promises
    that the recursive removal relies on. *)

From S2P Require Import Prelude CommonTypes PathSpec PathUtils TcApi Nfs4Impl DataCache NfsCache Counters TcImpl PosixImpl PosixSpecs TcLib.
Import Api Nfs Psx PosixRuns.
Local Open Scope Z_scope.

Module PosixTree.

Notation fs := (gmap text bool).
Notation parent := Lib.parent_path.

(** ** Names *)

Lemma drop_name_app (x r : text) : PathSpec.no_slash x -> Lib.drop_name (x ++ PathSpec.SLASH :: r) = r.
Proof.
  induction 1 as [|c x Hc _ IH]; cbn [app Lib.drop_name]; [by rewrite decide_True | by rewrite decide_False].
Qed.

Lemma no_slash_rev x : PathSpec.no_slash x -> PathSpec.no_slash (rev x).
Proof. unfold PathSpec.no_slash. intros H. by rewrite <- Permutation_rev. Qed.

(** The parent of a name in a directory is the directory. *)
Lemma parent_child d n : PathSpec.canonical d -> PathSpec.proper n -> parent (PathSpec.child d n) = Some d.
Proof.
  intros (ns & Hns & ->)%PathSpec.canonical_names (Hn0 & _ & _ & Hs). unfold Lib.parent_path, PathSpec.child.
  destruct (decide (PathSpec.abs_of ns = [PathSpec.SLASH])) as [E|E].
  - rewrite decide_False by (by intros [=]). cbn [rev]. rewrite drop_name_app by (by apply no_slash_rev). by rewrite E.
  - rewrite decide_False.
    2: { destruct (PathSpec.abs_of ns) as [|x [|y l]] eqn:Ea; [by destruct ns | by destruct n | done]. }
    rewrite rev_app_distr. cbn [rev]. rewrite <- app_assoc. cbn [app]. rewrite drop_name_app by (by apply no_slash_rev).
    destruct (rev (PathSpec.abs_of ns)) eqn:Er.
    + apply (f_equal (@rev ascii)) in Er. rewrite rev_involutive in Er. by destruct ns.
    + change (rev l ++ [a]) with (rev (a :: l)). by rewrite <- Er, rev_involutive.
Qed.

(** A canonical path other than the root is a name in its parent. *)
Lemma child_parent q d :
  PathSpec.canonical q -> parent q = Some d -> exists n, PathSpec.proper n /\ q = PathSpec.child d n.
Proof.
  intros (ns & Hns & ->)%PathSpec.canonical_names Hp.
  destruct ns as [|n ns _] using rev_ind; [unfold Lib.parent_path in Hp; by rewrite decide_True in Hp|].
  apply Forall_app in Hns as [Hns Hn%Forall_inv].
  rewrite <- PathSpec.child_abs_of in * by done. exists n. split; [done|].
  rewrite parent_child in Hp by (try apply PathSpec.canonical_abs_of; done). by injection Hp as ->.
Qed.

Lemma child_inj d n m : PathSpec.child d n = PathSpec.child d m -> n = m.
Proof. unfold PathSpec.child. case_decide; [by intros [=] | by intros [=]%app_inv_head]. Qed.

(** [tc_path_join] of a directory and a name in it. *)
Lemma join_child junk d n :
  PathSpec.canonical d -> PathSpec.proper n -> nameable (PathSpec.child d n) ->
  Tc.join_into (List.length n + List.length d + 2) junk d n = Ok (PathSpec.child d n).
Proof.
  intros Hd Hn (_ & Hpl & Hsh).
  assert (Tc.plain d /\ Tc.plain n /\ (List.length d + List.length n <= List.length (PathSpec.child d n))%nat) as (Hpd & Hpn & Hl).
  { unfold Tc.plain, PathSpec.child in *. case_decide as E; [subst d|].
    - split_and!; [by intros ?%list_elem_of_singleton | set_solver | cbn; lia].
    - rewrite length_app. cbn. split_and!; [set_solver | set_solver | lia]. }
  unfold Tc.short in *. destruct Hd as [Ha Hnf]. destruct (PathSpec.canonical_names d (conj Ha Hnf)) as (ns & Hns & ->).
  rewrite Tc.join_into_spec; [| done | done | by destruct ns | unfold Tc.short; lia | lia
    | unfold Buf.int_sized; unfold Tc.PATH_MAX in *; lia].
  f_equal. destruct Hn as (Hn0 & Hn'). unfold Paths.append_text.
  destruct n as [|c n]; [done|]. destruct (PathSpec.abs_of ns) as [|x l] eqn:Ea; [by destruct ns|]. rewrite <- Ea.
  rewrite PathSpec.normal_form_abs by (by rewrite Ea). rewrite PathSpec.norm_child by done.
  by rewrite PathSpec.child_abs_of.
Qed.

(** ** Directories *)

Section dirs.
Context {K : Type} (os : sys K).
(** The files that have a path, and the names that are still to be listed. *)
Context (tree : K -> fs) (streams : K -> gmap Z (list text)).

Definition dots : list text := [["."%char]; ["."%char; "."%char]].

(** There are no symbolic links; a directory can be removed when it is empty; the names in a
    directory are listed once, in any order, with or without the dots. *)
Class DirKernel : Prop := {
  tree_names : forall k p, is_Some (tree k !! p) -> nameable p;
  lstat_file : forall k p b, tree k !! p = Some b ->
    exists st k', lstat os p k = (inl st, k') /\ Tc.S_ISDIR (mode st) = b /\ Tc.S_ISLNK (mode st) = false
    /\ tree k' = tree k /\ streams k' = streams k;
  remove_file : forall k p, is_Some (tree k !! p) -> (forall q, is_Some (tree k !! q) -> parent q <> Some p) ->
    exists k', remove os p k = (inl tt, k') /\ tree k' = delete p (tree k);
  opendir_dir : forall k d, tree k !! d = Some true ->
    exists h k' ns ds l, opendir os d k = (inl h, k') /\ streams k' = <[h := ns]> (streams k) /\ tree k' = tree k
    /\ ns ≡ₚ ds ++ l /\ ds ⊆+ dots /\ NoDup l /\ Forall PathSpec.proper l
    /\ (forall n, PathSpec.proper n -> (n ∈ l <-> is_Some (tree k !! PathSpec.child d n)));
  readdir_next : forall k h ns, streams k !! h = Some ns ->
    exists k', readdir os h k = (head ns, k') /\ streams k' = <[h := tail ns]> (streams k) /\ tree k' = tree k;
  closedir_dir : forall k h, tree (closedir os h k) = tree k
}.

Context `{HK : !DirKernel} (junk_stat : avals) (junk_text : text).
Context {U : Type} (mk : vattrs_masks) (cb : vattrs -> text -> U -> bool * U).
Hypothesis mk_mode : has_mode mk = true.
Hypothesis cb_goes : forall e d c, (cb e d c).1 = true.
Notation listed := (foldl (fun c e => (cb e.1 e.2 c).2)).

Lemma skipped_proper n : PathSpec.proper n -> skipped n = false.
Proof.
  intros (H0 & H1 & H2 & _). unfold skipped, is_prefix. apply orb_false_iff.
  split; apply bool_decide_eq_false; intros [l E]; destruct n as [|c [|c' [|? ?]]]; simplify_eq/=.
Qed.

Lemma skipped_dots n : n ∈ dots -> skipped n = true.
Proof. intros [->|[->|[]%elem_of_nil]%elem_of_cons]%elem_of_cons; reflexivity. Qed.

(** The entry that is made for a name. *)
Definition entry_of (F : fs) (d n : text) (e : vattrs * text) : Prop :=
  path (attr_file e.1) = Some (PathSpec.child d n) /\ F !! PathSpec.child d n = Some (Lib.entry_dir e).

Notation names_of := (filter (fun n => skipped n = false)).

Lemma list_entries_spec fuel d h i q c k e ns :
  streams k !! h = Some ns -> (List.length ns < fuel)%nat -> PathSpec.canonical d ->
  Forall (fun n => skipped n = false -> PathSpec.proper n /\ is_Some (tree k !! PathSpec.child d n)) ns ->
  exists es k', list_entries os true junk_stat junk_text mk false cb fuel d h i (q, -1, c) (mk_ps k e)
    = done (0, (q, -1, listed c es), mk_ps k' e)
  /\ tree k' = tree k /\ Forall2 (entry_of (tree k) d) (names_of ns) es.
Proof.
  intros Hst Hf Hd Hns. revert fuel k c Hst Hf Hns.
  induction ns as [|n ns IH]; intros [|fuel] k c Hst Hf Hns; cbn [List.length] in Hf; try lia;
    destruct (readdir_next k h _ Hst) as (k1 & E1 & Hs1 & Ht1); cbn [head tail] in *; cbn [list_entries];
    (erewrite bind_done; [|unfold next_entry; cbn [kern errno]; rewrite E1; reflexivity]); cbv beta iota.
  { exists [], k1. split_and!; [done | done | constructor]. }
  rewrite Z.eqb_refl. cbn [orb negb]. apply Forall_cons in Hns as [Hn Hns].
  assert (streams k1 !! h = Some ns) as Hst1 by (by rewrite Hs1, lookup_insert_eq).
  destruct (skipped n) eqn:Esk.
  { destruct (IH fuel k1 c) as (es & k2 & E2 & Ht2 & Hes); [done | lia | by rewrite Ht1|].
    exists es, k2. split_and!; [done | congruence|]. rewrite filter_cons, decide_False by congruence. by rewrite <- Ht1. }
  destruct (Hn eq_refl) as [Hp [b Hb]].
  erewrite bind_done; [|reflexivity]. unfold run at 1. rewrite join_child; [|done|done|by eapply tree_names].
  destruct (lstat_file k1 (PathSpec.child d n) b) as (st & k2 & E3 & Hdir & _ & Ht2 & Hs2); [by rewrite Ht1|].
  erewrite bind_done; [|reflexivity]. erewrite bind_done; [|by apply sysc_ok]. cbv beta iota. cbn [kern errno].
  set (a := vstat2attrs st _). pose proof (cb_goes a (PathSpec.child d n) c) as Hgo.
  destruct (cb a (PathSpec.child d n) c) as [go c'] eqn:Ecb. cbn in Hgo. subst go. cbn [negb andb].
  destruct (IH fuel k2 c') as (es & k3 & E4 & Ht3 & Hes); [by rewrite Hs2 | lia | by rewrite Ht2, Ht1 |].
  exists ((a, PathSpec.child d n) :: es), k3. rewrite E4. cbn [foldl fst snd]. rewrite Ecb.
  split_and!; [done | congruence|]. rewrite filter_cons, decide_True by done. constructor; [|by rewrite <- Ht1, <- Ht2].
  split; [done|]. rewrite Hb. f_equal. rewrite <- Hdir. unfold Lib.entry_dir, a, vstat2attrs, select. cbn. by rewrite mk_mode.
Qed.

Lemma names_of_perm ns ds l :
  ns ≡ₚ ds ++ l -> ds ⊆+ dots -> Forall PathSpec.proper l -> names_of ns ≡ₚ l.
Proof.
  intros Hp Hds Hl. rewrite Hp, filter_app.
  rewrite (filter_none _ ds), (filter_all _ l); [done | |].
  - eapply Forall_impl; [exact Hl|]. apply skipped_proper.
  - apply Forall_forall. intros n Hn. rewrite (skipped_dots n); [done|]. by eapply elem_of_submseteq.
Qed.

(** The entries made for the names of a directory are a listing of it. *)
Lemma entries_listing F d l es :
  (forall p, is_Some (F !! p) -> nameable p) -> PathSpec.canonical d -> NoDup l -> Forall PathSpec.proper l ->
  (forall n, PathSpec.proper n -> (n ∈ l <-> is_Some (F !! PathSpec.child d n))) ->
  Forall2 (entry_of F d) l es -> Lib.listing parent F [d] es.
Proof.
  intros HF Hd Hnd Hl Hin He.
  assert (map Lib.entry_name es = map (PathSpec.child d) l) as Hn.
  { clear -He. induction He as [|n e l es [Hp _] _ IH]; [done|]. cbn [map]. f_equal; [|done].
    unfold Lib.entry_name, attr_name. by rewrite Hp. }
  assert (forall e, e ∈ es -> exists n, entry_of F d n e) as Hent.
  { intros e [j Hj]%list_elem_of_lookup_1. destruct (Forall2_lookup_r _ _ _ _ _ He Hj) as (n & _ & H). eauto. }
  split.
  - apply Forall_forall. intros e (n & Hp & _)%Hent. by eexists.
  - rewrite Hn. apply NoDup_fmap_2; [intros n m; apply child_inj | done].
  - intros q. rewrite Hn, list_elem_of_fmap. split.
    + intros (n & -> & Hnl). assert (PathSpec.proper n) as Hp by (by eapply list.Forall_forall in Hl).
      split; [by apply Hin|]. exists d. split; [by left|]. by apply parent_child.
    + intros (Hq & d' & ->%list_elem_of_singleton & Hd'). destruct (child_parent q d (proj1 (HF q Hq)) Hd') as (n & Hp & ->).
      exists n. split; [done|]. by apply Hin.
  - intros e (n & Hp & Hk)%Hent. unfold Lib.entry_name, attr_name. by rewrite Hp.
Qed.

(** Distinct names are distinct files. *)
Lemma names_bound (F : fs) d l : NoDup l -> (forall n, n ∈ l -> is_Some (F !! PathSpec.child d n)) ->
  (List.length l <= base.size F)%nat.
Proof.
  intros Hnd Hin. rewrite <- (length_map (PathSpec.child d) l), <- size_dom.
  rewrite <- (size_list_to_set (C := gset text)) by (apply NoDup_fmap_2; [intros n m; apply child_inj | done]).
  apply subseteq_size. intros q (n & -> & Hn)%elem_of_list_to_set%list_elem_of_fmap. apply elem_of_dom. by apply Hin.
Qed.

Lemma posix_listdir_spec fuel d i q c k e :
  tree k !! d = Some true -> (base.size (tree k) + 2 < fuel)%nat ->
  exists es k', posix_listdir os true junk_stat junk_text mk false cb fuel d i (q, -1, c) (mk_ps k e)
    = done (0, (q, -1, listed c es), mk_ps k' e)
  /\ tree k' = tree k /\ Lib.listing parent (tree k) [d] es.
Proof.
  intros Hd Hf. destruct (opendir_dir k d Hd) as (h & k1 & ns & ds & l & E1 & Hs1 & Ht1 & Hp & Hds & Hnd & Hpr & Hin).
  pose proof (names_of_perm ns ds l Hp Hds Hpr) as Hno.
  assert (PathSpec.canonical d) as Hcd by (eapply tree_names; by rewrite Hd).
  destruct (list_entries_spec fuel d h i q c k1 e ns) as (es & k2 & E2 & Ht2 & Hes).
  - by rewrite Hs1, lookup_insert_eq.
  - rewrite Hp, length_app. apply submseteq_length in Hds. cbn in Hds.
    pose proof (names_bound (tree k) d l Hnd) as Hb. rewrite Forall_forall in Hpr.
    assert (List.length l <= base.size (tree k))%nat by (apply Hb; intros n Hn; apply Hin; auto). lia.
  - done.
  - apply Forall_forall. intros n Hn Hsk. rewrite Ht1.
    assert (n ∈ names_of ns) as Hnn by (by apply list_elem_of_filter). rewrite Hno in Hnn.
    rewrite Forall_forall in Hpr. split; [auto|]. apply Hin; auto.
  - exists es, (closedir os h k2). split_and!.
    + unfold posix_listdir. erewrite bind_done; [|by apply sysc_ok]. cbv beta iota. cbn [kern errno].
      rewrite (bind_done _ _ _ _ _ E2). done.
    + rewrite closedir_dir. congruence.
    + rewrite Ht1 in Hes. eapply (entries_listing _ d (names_of ns)); [apply tree_names | done | | | | exact Hes].
      * by rewrite Hno.
      * by rewrite Hno.
      * intros n Hn. rewrite Hno. by apply Hin.
Qed.

Lemma listing_cons F d ds es es' : d ∉ ds ->
  Lib.listing parent F [d] es -> Lib.listing parent F ds es' -> Lib.listing parent F (d :: ds) (es ++ es').
Proof.
  intros Hd [P1 N1 E1 K1] [P2 N2 E2 K2]. split.
  - by apply Forall_app.
  - rewrite map_app. apply NoDup_app. split_and!; [done| |done]. intros q Hq1 Hq2.
    apply E1 in Hq1 as (_ & d1 & ->%list_elem_of_singleton & H1). apply E2 in Hq2 as (_ & d2 & Hd2 & H2).
    rewrite H1 in H2. injection H2 as ->. done.
  - intros q. rewrite map_app, elem_of_app, E1, E2. set_solver.
  - intros e [He|He]%elem_of_app; auto.
Qed.

(** The queue, when no directory is added to it. *)
Lemma list_queue_spec dirs i fuel k e c :
  NoDup dirs -> (forall d, d ∈ dirs -> tree k !! d = Some true) ->
  (List.length dirs + base.size (tree k) + 2 < fuel)%nat ->
  exists es k', list_queue os true junk_stat junk_text mk false cb fuel 0 index_zero
      (imap (fun j d => mk_dle d (i + Z.of_nat j)) dirs, -1, c) (mk_ps k e)
    = done (index_zero, listed c es, mk_ps k' e)
  /\ tree k' = tree k /\ Lib.listing parent (tree k) dirs es.
Proof.
  revert i fuel k c. induction dirs as [|d dirs IH]; intros i fuel k c Hnd Hin Hf.
  - exists [], k. split_and!; [by destruct fuel | done|]. split; [done | apply NoDup_nil_2 | | by intros e' ?%elem_of_nil].
    intros q. split; [by intros ?%elem_of_nil | by intros (_ & d & ?%elem_of_nil & _)].
  - destruct fuel as [|fuel]; [lia|]. apply NoDup_cons in Hnd as [Hd Hnd]. cbn [imap list_queue List.length] in *.
    destruct (posix_listdir_spec (Datatypes.S fuel) d (i + 0)
      (mk_dle d (i + 0) :: imap ((fun j d => mk_dle d (i + Z.of_nat j)) ∘ Datatypes.S) dirs) c k e)
      as (es & k1 & E1 & Ht1 & Hl1); [apply Hin; by left | lia|].
    destruct (IH (i + 1) fuel k1 (listed c es)) as (es' & k2 & E2 & Ht2 & Hl2);
      [done | intros d' Hd'; rewrite Ht1; apply Hin; by right | rewrite Ht1; lia|].
    exists (es ++ es'), k2. split_and!; [|congruence|apply listing_cons; [done|done|by rewrite <- Ht1]].
    rewrite !Z.eqb_refl. cbn [andb orb]. cbn [dle_path origin_index].
    erewrite bind_done.
    2: { change (Z.of_nat 0) with 0. erewrite bind_done; [|exact E1]. reflexivity. }
    cbv beta iota. cbn [tail Z.ltb Z.compare]. rewrite foldl_app.
    rewrite (imap_ext _ (fun j d => mk_dle d (i + 1 + Z.of_nat j))); [exact E2|].
    intros j d' _. cbn. f_equal. lia.
Qed.

Lemma enqueue_all_imap q i dirs :
  enqueue_all true q i dirs = q ++ imap (fun j d => mk_dle d (i + Z.of_nat j)) dirs.
Proof.
  revert q i. induction dirs as [|d dirs IH]; intros q i; cbn [enqueue_all imap]; [by rewrite app_nil_r|].
  rewrite IH. cbn [enqueue_dir_to_list default from_option]. unfold id. rewrite <- app_assoc. cbn [app].
  rewrite Z.add_0_r. do 2 f_equal. apply imap_ext. intros j d' _. cbn. f_equal. lia.
Qed.

Lemma posix_listdirv_spec dirs fuel k e c :
  NoDup dirs -> (forall d, d ∈ dirs -> tree k !! d = Some true) ->
  (List.length dirs + base.size (tree k) + 2 < fuel)%nat ->
  exists es k', posix_listdirv os true junk_stat junk_text mk false cb fuel dirs 0 c (mk_ps k e)
    = done (index_zero, listed c es, mk_ps k' e)
  /\ tree k' = tree k /\ Lib.listing parent (tree k) dirs es.
Proof.
  intros Hnd Hin Hf. unfold posix_listdirv. rewrite Z.eqb_refl, enqueue_all_imap. cbn [app].
  by apply list_queue_spec.
Qed.

End dirs.

(** ** The entry points over the POSIX layer *)

Section removal.
Context {K : Type} (os : sys K) (tree : K -> fs) (streams : K -> gmap Z (list text)).
Context `{HK : !DirKernel os tree streams}.
Context (nfs : Tc.backend (pstate K)) (clock : nat -> Z) (junk_stat : avals) (junk_text : text)
  (junk_iov : viovec) (buffer : nat -> Z) (fuel : nat).
Notation state := (Tc.tcstate (pstate K)).
Notation posix := (posix_backend os true junk_stat junk_text fuel).
Notation api := (Lib.tc_api nfs posix clock true junk_text junk_iov buffer).

(** The POSIX layer is in use, the files are [F], and the loops have rounds enough to list
    them. *)
Definition rm_inv (s : state) (F : fs) : Prop :=
  Tc.TC_IMPL_IS_NFS4 s = false /\ tree (kern (Tc.lower s)) = F /\ (2 * base.size F + 2 < fuel)%nat.

(** A call through the entry points that leaves the files as [F']. *)
Lemma counted_inv {A} f n ok (c : Tc.backend (pstate K) -> M (pstate K) A) (s : state) F F' a k e :
  rm_inv s F -> (base.size F' <= base.size F)%nat -> tree k = F' -> c posix (Tc.lower s) = done (a, mk_ps k e) ->
  exists s', Tc.counted nfs posix clock f n ok c s = done (a, s') /\ rm_inv s' F'.
Proof.
  intros (Hb & _ & Hf) Hsz Hk E.
  destruct (Tc.counted_spec nfs posix clock false f n ok c s a _ Hb E) as (s' & E' & Hb' & Hx).
  exists s'. split; [done|]. split_and!; [done | by rewrite Hx | lia].
Qed.

Lemma lgetattrs_spec objs i k e :
  (forall p, p ∈ objs -> is_Some (tree k !! p)) ->
  exists l k', until_failure no_index (fun a _ => '(e, a) ← (
      r ← by_type (attr_file a) (lstat os) (fstat os);
      match r with
      | None => e ← fails; mret (e, a)
      | Some st => mret (None, vstat2attrs st a)
      end); mret (e, a, tt)) i (map Lib.ask objs) tt (mk_ps k e) = done (no_index, l, mk_ps k' e)
  /\ tree k' = tree k /\ Forall (fun a => Tc.S_ISLNK (mode (vals a)) = false) l
  /\ map (fun v => Some (Tc.S_ISDIR (mode (vals v)))) l = map (fun p => tree k !! p) objs.
Proof.
  revert i k. induction objs as [|p objs IH]; intros i k Hin.
  - exists [], k. by split_and!.
  - destruct (Hin p ltac:(by left)) as [b Hb].
    destruct (lstat_file os tree streams k p b Hb) as (st & k1 & E1 & Hd & Hl & Ht1 & _).
    destruct (IH (i + 1) k1) as (l & k2 & E2 & Ht2 & Hl2 & Hm); [intros q Hq; rewrite Ht1; apply Hin; by right|].
    exists (vstat2attrs st (Lib.ask p) :: l), k2. cbn [map until_failure].
    assert (forall A (m : option avals -> M (pstate K) A),
      (by_type (attr_file (Lib.ask p)) (lstat os) (fstat os) ≫= m) (mk_ps k e) = m (Some st) (mk_ps k1 e)) as Hby.
    { intros A m. apply bind_done. cbn [Lib.ask attr_file]. rewrite by_path. by apply sysc_ok. }
    split_and!; [| congruence | by constructor | by rewrite Hb, Hm, Ht1; cbn; rewrite Hd].
    erewrite bind_done; [|erewrite bind_done; [|rewrite Hby; reflexivity]; reflexivity]. cbv beta iota.
    rewrite (bind_done _ _ _ _ _ E2). done.
Qed.

Lemma no_links i l : Forall (fun a => Tc.S_ISLNK (mode (vals a)) = false) l -> Tc.links_of i l = [].
Proof. intros H. revert i. induction H as [|a l Ha _ IH]; intros i; [done|]. cbn [Tc.links_of]. by rewrite Ha. Qed.

Lemma restore_asked objs l : List.length l = List.length objs -> zip_with Tc.restore_mode (map Lib.ask objs) l = l.
Proof.
  revert l. induction objs as [|p objs IH]; intros [|a l] Hl; try done. cbn [map zip_with]. injection Hl as Hl.
  by rewrite IH.
Qed.

Lemma removev_spec F ps i k e :
  tree k = F -> Lib.removable parent F ps ->
  exists k', until_failure no_index (fun f _ => '(e, a) ← (
      e ← (p ← path_of f; checked (remove os p)); mret (e, f)); mret (e, a, tt))
      i (map vfile_from_path ps) tt (mk_ps k e) = done (no_index, map vfile_from_path ps, mk_ps k' e)
  /\ tree k' = Lib.minus F ps.
Proof.
  revert F i k. induction ps as [|p ps IH]; intros F i k Hk Hr; [by exists k|].
  destruct Hr as (Hp & Hc & Hr). subst F.
  destruct (remove_file os tree streams k p Hp Hc) as (k1 & E1 & Ht1).
  destruct (IH _ (i + 1) k1 Ht1 Hr) as (k2 & E2 & Ht2). exists k2. split; [|done]. cbn [map until_failure].
  assert (checked (remove os p) (mk_ps k e) = done (None, mk_ps k1 e)) as Ec.
  { unfold checked. erewrite bind_done; [|by apply sysc_ok]. done. }
  assert ((p ← path_of (vfile_from_path p); checked (remove os p)) (mk_ps k e) = done (None, mk_ps k1 e)) as Ep.
  { erewrite bind_done; [exact Ec|reflexivity]. }
  erewrite bind_done; [|erewrite bind_done; [|rewrite (bind_done _ _ _ _ _ Ep); reflexivity]; reflexivity].
  cbv beta iota. rewrite (bind_done _ _ _ _ _ E2). done.
Qed.

Lemma size_minus (F : fs) ps : (base.size (Lib.minus F ps) <= base.size F)%nat.
Proof.
  rewrite <- !size_dom. apply subseteq_size. intros q Hq. apply elem_of_dom in Hq as [b Hb]. apply elem_of_dom.
  rewrite (Lib.lookup_minus parent) in Hb. case_bool_decide; [done | by eexists].
Qed.

Lemma api_getattrs F (s : state) objs :
  rm_inv s F -> objs <> [] -> (forall p, p ∈ objs -> is_Some (F !! p)) ->
  exists r l s', Lib.vec_getattrs api (map Lib.ask objs) s = done (r, l, s') /\ vokay r = true /\ rm_inv s' F
  /\ map (fun v => Some (Tc.S_ISDIR (mode (vals v)))) l = map (fun p => F !! p) objs.
Proof.
  intros Hs _ Hin. pose proof Hs as (_ & <- & _). destruct (Tc.lower s) as [k e] eqn:El. cbn [kern] in *.
  destruct (lgetattrs_spec objs 0 k e Hin) as (l & k' & E & Ht & Hl & Hm).
  edestruct (counted_inv Counters.f_lgetattrs (List.length (map Lib.ask objs)) Tc.okay
    (fun b => Tc.lgetattrsv b (map Lib.ask objs)) s (tree k) (tree k)) as (s' & E' & Hs');
    [done | done | exact Ht | rewrite El; exact E |].
  exists no_index, l, s'. split_and!; [|done|done|done].
  unfold Lib.vec_getattrs, Lib.tc_api, Tc.vec_getattrs, Tc.vec_lgetattrs.
  replace (map Tc.want_mode (map Lib.ask objs)) with (map Lib.ask objs) by (by rewrite map_map).
  rewrite (bind_done _ _ _ _ _ E'). cbv beta iota zeta. rewrite (no_links 0 l Hl).
  rewrite (proj2 (forallb_forall _ _)).
  2: { intros a Ha%list_elem_of_In. rewrite Forall_forall in Hl. by rewrite (Hl a Ha). }
  erewrite bind_done; [|reflexivity]. cbn [List.length Nat.eqb]. rewrite orb_true_r.
  rewrite restore_asked; [done|]. by rewrite <- (length_map (fun v => Some (Tc.S_ISDIR (mode (vals v)))) l), Hm, length_map.
Qed.

Lemma api_unlink F (s : state) ps :
  rm_inv s F -> Lib.removable parent F ps ->
  exists r s', Lib.vec_unlink api ps s = done (r, s') /\ vokay r = true /\ rm_inv s' (Lib.minus F ps).
Proof.
  intros Hs Hr. pose proof Hs as (_ & Hk & _). destruct (Tc.lower s) as [k e] eqn:El. cbn [kern] in *.
  destruct (removev_spec F ps 0 k e Hk Hr) as (k' & E & Ht).
  edestruct (counted_inv Counters.f_remove (List.length (map vfile_from_path ps)) Tc.okay
    (fun b => Tc.removev b (map vfile_from_path ps)) s F (Lib.minus F ps)) as (s' & E' & Hs');
    [done | apply size_minus | exact Ht | |].
  { rewrite El. cbn [Tc.removev posix_backend]. unfold posix_removev, each_call, each_elem.
    erewrite bind_done; [|rewrite (bind_done _ _ _ _ _ E); reflexivity]. reflexivity. }
  exists no_index, s'. split_and!; [|done|done]. unfold Lib.vec_unlink, Lib.tc_api, Tc.vec_unlink, Tc.vec_remove.
  erewrite bind_done; [|reflexivity]. rewrite (bind_done _ _ _ _ _ E'). done.
Qed.

Lemma api_listdir F (s : state) dirs mk U cb (c : U) :
  rm_inv s F -> NoDup dirs -> (forall d, d ∈ dirs -> F !! d = Some true) -> has_mode mk = true ->
  (forall e d c, (cb e d c).1 = true) ->
  exists r es s', Lib.vec_listdir api dirs mk 0 false cb c s
    = done (r, foldl (fun c e => (cb e.1 e.2 c).2) c es, s')
  /\ vokay r = true /\ rm_inv s' F /\ Lib.listing parent F dirs es.
Proof.
  intros Hs Hnd Hin Hmk Hcb. pose proof Hs as (Hb & Hk & Hf). destruct (Tc.lower s) as [k e] eqn:El. cbn [kern] in *.
  destruct (posix_listdirv_spec os tree streams junk_stat junk_text mk cb Hmk Hcb dirs fuel k e c)
    as (es & k' & E & Ht & Hl); [done | by rewrite Hk | |].
  { assert (List.length dirs <= base.size F)%nat; [|rewrite Hk; lia].
    rewrite <- (size_list_to_set (C := gset text) dirs Hnd), <- size_dom. apply subseteq_size.
    intros d Hd%elem_of_list_to_set. apply elem_of_dom. rewrite (Hin d Hd). by eexists. }
  rewrite Hk in *. destruct dirs as [|d dirs].
  - exists Tc.TC_OKAY, [], (Tc.mk_tc (Tc.TC_IMPL_IS_NFS4 s) (Counters.tc_register_counter Counters.f_listdir (Tc.tc_counters s)) (Tc.ticks s) (Tc.lower s)).
    split_and!; [done | done | split_and!; [done | cbn; by rewrite El | done] |].
    split; [done | apply NoDup_nil_2 | | by intros e' ?%elem_of_nil].
    intros q. split; [by intros ?%elem_of_nil | by intros (_ & d & ?%elem_of_nil & _)].
  - edestruct (counted_inv Counters.f_listdir (List.length (d :: dirs)) Tc.okay
      (fun b => Tc.listdirv b (d :: dirs) mk 0 false cb c) s F F) as (s' & E' & Hs');
      [done | done | exact Ht | rewrite El; exact E |].
    exists index_zero, es, s'. by split_and!.
Qed.

#[export] Instance posix_rm_server : Lib.RmServer parent api rm_inv.
Proof.
  split; [intros; by apply api_getattrs | intros; by apply api_unlink | intros; by apply api_listdir].
Qed.

End removal.

(** ** The small system *)

Lemma base_name_child d n : PathSpec.no_slash n -> base_name (PathSpec.child d n) = n.
Proof.
  intros Hn. unfold base_name, PathSpec.child. case_decide.
  - change (PathSpec.SLASH :: n) with ([] ++ PathSpec.SLASH :: n).
    by rewrite PathSpec.split_slash_app_slash, (PathSpec.split_slash_single n Hn), last_snoc.
  - by rewrite PathSpec.split_slash_app_slash, (PathSpec.split_slash_single n Hn), last_snoc.
Qed.

(** An entry of a directory is a name in it. *)
Lemma entry_proper d q : PathSpec.canonical q -> is_entry d q -> PathSpec.proper (base_name q).
Proof.
  intros (ns & Hns & ->)%PathSpec.canonical_names [Hb _].
  destruct ns as [|n ns _] using rev_ind; [done|]. apply Forall_app in Hns as [Hns Hn%Forall_inv].
  rewrite <- PathSpec.child_abs_of, base_name_child by (done || apply Hn). done.
Qed.

Lemma box_tree_lookup k p b :
  box_tree k !! p = Some b <->
  nameable p /\ exists n, bx_nodes k !! p = Some n /\ b = match n with None => true | Some _ => false end.
Proof.
  unfold box_tree. rewrite map_lookup_filter_Some, lookup_fmap_Some. cbn. naive_solver.
Qed.

Lemma elem_of_box_names k d n :
  n ∈ box_names k d <-> exists q, is_Some (box_tree k !! q) /\ is_entry d q /\ n = base_name q.
Proof.
  unfold box_names. rewrite list_elem_of_fmap. setoid_rewrite list_elem_of_filter. setoid_rewrite list_elem_of_fmap.
  split.
  - intros (q & -> & He & [q' b] & -> & Hin%elem_of_map_to_list). eauto 10.
  - intros (q & [b Hb] & He & ->). exists q. split_and!; [done..|]. exists (q, b). split; [done|].
    by apply elem_of_map_to_list.
Qed.

Lemma box_names_proper k d : Forall PathSpec.proper (box_names k d).
Proof.
  apply Forall_forall. intros n (q & [b Hq] & He & ->)%elem_of_box_names. apply box_tree_lookup in Hq as [Hq _].
  eapply entry_proper; [apply Hq | done].
Qed.

Lemma box_names_elem k d n :
  PathSpec.proper n -> (n ∈ box_names k d <-> is_Some (box_tree k !! PathSpec.child d n)).
Proof.
  intros Hn. rewrite elem_of_box_names. split.
  - intros (q & Hq & [_ He] & ->). by rewrite He.
  - intros Hq. exists (PathSpec.child d n). assert (base_name (PathSpec.child d n) = n) as Hb by (apply base_name_child, Hn).
    split_and!; [done| |done]. split; rewrite Hb; [apply Hn | done].
Qed.

Lemma box_names_nodup k d : NoDup (box_names k d).
Proof.
  unfold box_names. set (l := (map_to_list (box_tree k)).*1).
  assert (NoDup l) as Hl by apply NoDup_fst_map_to_list. clearbody l.
  induction Hl as [|q l Hq Hl IH]; [apply NoDup_nil_2|]. rewrite filter_cons. case_decide as He; [|done].
  cbn. apply NoDup_cons. split; [|done]. intros (q' & Hb & [He' Hq']%list_elem_of_filter)%list_elem_of_fmap.
  destruct He as [_ He], He' as [_ He']. rewrite Hb, He' in He. by subst.
Qed.

#[export] Instance box_dir_kernel : DirKernel box_os box_tree bx_streams.
Proof.
  split.
  - by intros k p [b [Hp _]%box_tree_lookup].
  - intros k p b (_ & n & Hn & ->)%box_tree_lookup. exists (box_stat n), k. cbn. unfold box_lstat. rewrite Hn.
    by destruct n.
  - intros k p [b (Hp & n & Hn & _)%box_tree_lookup] Hc. cbn. unfold box_remove. rewrite Hn.
    destruct (box_names k p) as [|m l] eqn:El.
    + eexists. split; [done|]. unfold box_tree. cbn. by rewrite fmap_delete, map_filter_delete.
    + assert (m ∈ box_names k p) as Hm by (rewrite El; by left).
      pose proof (box_names_proper k p) as Hpr. rewrite Forall_forall in Hpr. pose proof (Hpr m Hm) as Hpm.
      apply box_names_elem in Hm; [|done]. destruct (Hc _ Hm). apply parent_child; [apply Hp | done].
  - intros k d (_ & n & Hn & Hb)%box_tree_lookup. destruct n; [done|].
    exists (unused (bx_streams k)). eexists _, _, dots, (box_names k d). cbn. unfold box_opendir. rewrite Hn.
    split_and!; try done; [apply box_names_nodup | apply box_names_proper | apply box_names_elem].
  - intros k h ns Hns. cbn. unfold box_readdir. rewrite Hns. destruct ns as [|n ns].
    + exists k. cbn. by rewrite insert_id.
    + by eexists.
  - done.
Qed.

(** ** Theorems *)

(** C22: The recursive removal of [tc/tc_lib.cpp], through the entry points and the POSIX layer, over a system of
    files and directories without symbolic links, in which [lstat], [opendir], [readdir] and [remove] of paths
    that exist succeed: removing files and directories that exist, are distinct and of which none is inside
    another one, succeeds when the loops have rounds enough, and removes exactly these and everything below
    them. *)
Theorem posix_unlink_recursive {K} (os : sys K) tree streams `{!DirKernel os tree streams} nfs clock
    junk_stat junk_text junk_iov buffer junk_masks fuel objs (s : Tc.tcstate (pstate K)) :
  Tc.TC_IMPL_IS_NFS4 s = false -> let F := tree (kern (Tc.lower s)) in
  Lib.tree parent F -> NoDup objs -> (forall p, p ∈ objs -> is_Some (F !! p)) ->
  (forall p q, p ∈ objs -> q ∈ objs -> ~ Lib.below parent p q) -> (2 * base.size F + 2 < fuel)%nat ->
  exists s', Lib.vec_unlink_recursive
      (Lib.tc_api nfs (posix_backend os true junk_stat junk_text fuel) clock true junk_text junk_iov buffer)
      true junk_masks fuel objs s = done (vfailure 0 0, s')
  /\ forall q, (Lib.target parent objs q -> tree (kern (Tc.lower s')) !! q = None)
           /\ (~ Lib.target parent objs q -> tree (kern (Tc.lower s')) !! q = F !! q).
Proof.
  intros Hb F Ht Hn Hi Ha Hf.
  destruct (Lib.unlink_recursive_spec parent
    (Lib.tc_api nfs (posix_backend os true junk_stat junk_text fuel) clock true junk_text junk_iov buffer)
    (rm_inv tree fuel) junk_masks F objs Ha fuel s) as (F' & s' & E & (_ & HF' & _) & HF); try done.
  - lia.
  - exists s'. split; [exact E|]. by rewrite HF'.
Qed.

(** ["/d"] holds a file and a directory with a file. *)
Definition shelf : box :=
  mk_box (list_to_map [(tx "/", None); (tx "/d", None); (tx "/d/f", Some (tx "x")); (tx "/d/e", None);
                       (tx "/d/e/g", Some (tx "y")); (tx "/h", Some (tx "z"))])
    ∅ (fun _ => Ascii.zero) (fun _ => []) ∅.

Definition shelf_layer : Tc.backend (pstate box) := posix_backend box_os true (box_stat None) [] 20.

Definition shelf_state : Tc.tcstate (pstate box) := Tc.mk_tc false Counters.no_counters 0 (mk_ps shelf 0).

Lemma posix_unlink_recursive_witness :
  exists s', Lib.vec_unlink_recursive
      (Lib.tc_api shelf_layer shelf_layer (fun _ => 0) true [] (path_iov [] 0 0 0) (fun _ => 0))
      true VMASK_INIT_NONE 20 [tx "/d"] shelf_state = done (vfailure 0 0, s')
  /\ box_tree (kern (Tc.lower s')) !! tx "/d/e/g" = None.
Proof.
  destruct (posix_unlink_recursive box_os box_tree bx_streams shelf_layer (fun _ => 0) (box_stat None) []
    (path_iov [] 0 0 0) (fun _ => 0) VMASK_INIT_NONE 20 [tx "/d"] shelf_state) as (s' & E & HF).
  - reflexivity.
  - apply Lib.toy_tree. vm_compute. reflexivity.
  - repeat constructor. by intros ?%elem_of_nil.
  - intros p Hp%list_elem_of_singleton. subst. eexists. vm_compute. reflexivity.
  - intros p q ->%list_elem_of_singleton ->%list_elem_of_singleton Hb.
    inversion Hb as [q Hq|q d Hd Hb' Eq]; [vm_compute in Hq; discriminate|].
    assert (d = tx "/") as -> by (vm_compute in Hd |- *; congruence).
    inversion Hb' as [q' Hq|q' d' Hd' _ Eq']; [vm_compute in Hq; discriminate | vm_compute in Hd'; discriminate].
  - vm_compute. lia.
  - exists s'. split; [exact E|]. apply (HF (tx "/d/e/g")). right. exists (tx "/d"). split; [by left|].
    apply Lib.below_deep with (d := tx "/d/e"); [vm_compute; reflexivity|]. apply Lib.below_child. vm_compute. reflexivity.
Defined.

(** A callback that asks to stop ends the listing of one directory only. *)
Theorem posix_listdirv_goes_on :
  match posix_listdirv box_os true (box_stat None) [] VMASK_INIT_ALL false (fun _ _ n => (false, Datatypes.S n)) 20
    [tx "/d"; tx "/d/e"] 0 0%nat (mk_ps shelf 0) with
  | Ok (Some (r, n, _)) => r = index_zero /\ n = 2%nat
  | _ => False
  end.
Proof. vm_compute. done. Qed.

(** The callback gets the path of the entry where it expects that of the directory. *)
Theorem posix_listdirv_callback_path :
  match posix_listdirv box_os true (box_stat None) [] VMASK_INIT_ALL false (fun _ d l => (true, d :: l)) 20
    [tx "/d/e"] 0 [] (mk_ps shelf 0) with
  | Ok (Some (_, l, _)) => l = [tx "/d/e/g"]
  | _ => False
  end.
Proof. vm_compute. done. Qed.

End PosixTree.
