(* ===== verification/AvlTree.v ===== *)
(** AVL trees with parent pointers, [support/avl.c], of [include/avltree.h]. Module [Avl].
    Nodes are in a heap; the balance factor of a node is in the low bits of the word that
    holds the address of its parent. *)

From S2P Require Import Prelude.
Local Open Scope Z_scope.

Module Avl.

(** ** Nodes and trees *)

Record avltree_node := mk_node { left : Z; right : Z; parent : Z }.

(** [cmp_fn] is an argument of the operations. *)
Record avltree := mk_avl { root : Z; height : Z; first : Z; last : Z; size : Z }.

(** The memory of the nodes, by address, and the tree. *)
Record state := mk_state { heap : gmap Z avltree_node; tree : avltree }.

(** *** The word that holds the parent and the balance *)

Definition w_parent (w : Z) : Z := Z.land w (Z.lnot 7).
Definition w_balance (w : Z) : Z := Z.land w 7 - 2.
Definition w_set_parent (p w : Z) : Z := Z.lor p (Z.land w 7).
Definition w_set_balance (b w : Z) : Z := Z.lor (Z.land w (Z.lnot 7)) (b + 2).

Definition set_left (x : Z) (n : avltree_node) : avltree_node := mk_node x (right n) (parent n).
Definition set_right (x : Z) (n : avltree_node) : avltree_node := mk_node (left n) x (parent n).
Definition set_word (f : Z -> Z) (n : avltree_node) : avltree_node := mk_node (left n) (right n) (f (parent n)).

(** *** Accesses; a null pointer or one to no node is undefined *)

Definition node_at (p : Z) : M state avltree_node := fun s =>
  match heap s !! p with Some n => done (n, s) | None => Abort end.

Definition change (p : Z) (f : avltree_node -> avltree_node) : M state unit := fun s =>
  match heap s !! p with
  | Some n => done (tt, mk_state (<[p := f n]> (heap s)) (tree s))
  | None => Abort
  end.

Definition get_tree : M state avltree := fun s => done (tree s, s).
Definition on_tree (f : avltree -> avltree) : M state unit := fun s => done (tt, mk_state (heap s) (f (tree s))).

Definition set_root (x : Z) (t : avltree) : avltree := mk_avl x (height t) (first t) (last t) (size t).
Definition set_height (x : Z) (t : avltree) : avltree := mk_avl (root t) x (first t) (last t) (size t).
Definition set_first (x : Z) (t : avltree) : avltree := mk_avl (root t) (height t) x (last t) (size t).
Definition set_last (x : Z) (t : avltree) : avltree := mk_avl (root t) (height t) (first t) x (size t).
Definition set_size (x : Z) (t : avltree) : avltree := mk_avl (root t) (height t) (first t) (last t) x.

(** ** The words of a node *)

Definition is_root (p : Z) : M state bool := n ← node_at p; mret (w_parent (parent n) =? 0).
Definition INIT_NODE (p : Z) : M state unit := change p (fun _ => mk_node 0 0 2).
Definition get_balance (p : Z) : M state Z := n ← node_at p; mret (w_balance (parent n)).
Definition set_balance (b p : Z) : M state unit := change p (set_word (w_set_balance b)).
Definition inc_balance (p : Z) : M state Z :=
  _ ← change p (set_word (fun w => u64 (w + 1))); get_balance p.
Definition dec_balance (p : Z) : M state Z :=
  _ ← change p (set_word (fun w => u64 (w - 1))); get_balance p.
Definition get_parent (p : Z) : M state Z := n ← node_at p; mret (w_parent (parent n)).
Definition set_parent (par p : Z) : M state unit := change p (set_word (w_set_parent par)).

Definition get_left (p : Z) : M state Z := n ← node_at p; mret (left n).
Definition get_right (p : Z) : M state Z := n ← node_at p; mret (right n).
Definition put_left (p x : Z) : M state unit := change p (set_left x).
Definition put_right (p x : Z) : M state unit := change p (set_right x).

Section operations.
(** [cmp_fn], on the addresses of nodes, and the rounds of the loops. *)
Context (cmp_fn : Z -> Z -> Z) (fuel : nat).

(** ** Iterators *)

Fixpoint get_first (k : nat) (p : Z) : M state Z :=
  match k with
  | O => fun _ => Ok None
  | S k => l ← get_left p; if l =? 0 then mret p else get_first k l
  end.

Fixpoint get_last (k : nat) (p : Z) : M state Z :=
  match k with
  | O => fun _ => Ok None
  | S k => r ← get_right p; if r =? 0 then mret p else get_last k r
  end.

Definition avltree_first : M state Z := t ← get_tree; mret (first t).
Definition avltree_last : M state Z := t ← get_tree; mret (last t).

(** The loops that go up while [p] is the right, or the left, child. *)
Fixpoint up_right (k : nat) (p : Z) : M state Z :=
  match k with
  | O => fun _ => Ok None
  | S k =>
      par ← get_parent p;
      if par =? 0 then mret 0 else r ← get_right par; if r =? p then up_right k par else mret par
  end.

Fixpoint up_left (k : nat) (p : Z) : M state Z :=
  match k with
  | O => fun _ => Ok None
  | S k =>
      par ← get_parent p;
      if par =? 0 then mret 0 else l ← get_left par; if l =? p then up_left k par else mret par
  end.

Definition avltree_next (p : Z) : M state Z :=
  r ← get_right p; if r =? 0 then up_right fuel p else get_first fuel r.

Definition avltree_prev (p : Z) : M state Z :=
  l ← get_left p; if l =? 0 then up_left fuel p else get_last fuel l.

Definition avltree_size : M state Z := t ← get_tree; mret (size t).

(** ** Rotations *)

(** The pointer to [p] in its parent, or the root, becomes [q]. *)
Definition rotate_link (p par q : Z) : M state unit :=
  r ← is_root p;
  if r : bool then on_tree (set_root q)
  else l ← get_left par; if l =? p then put_left par q else put_right par q.

Definition rotate_left (p : Z) : M state unit :=
  q ← get_right p;
  par ← get_parent p;
  _ ← rotate_link p par q;
  _ ← set_parent par q;
  _ ← set_parent q p;
  ql ← get_left q;
  _ ← put_right p ql;
  _ ← if ql =? 0 then mret tt else set_parent p ql;
  put_left q p.

Definition rotate_right (p : Z) : M state unit :=
  q ← get_left p;
  par ← get_parent p;
  _ ← rotate_link p par q;
  _ ← set_parent par q;
  _ ← set_parent q p;
  qr ← get_right q;
  _ ← put_left p qr;
  _ ← if qr =? 0 then mret tt else set_parent p qr;
  put_right q p.

(** ** Searching *)

(** What [do_lookup] stores through its pointers. *)
Record found_at := mk_found { pparent : Z; unbalanced : Z; is_left : bool }.

Fixpoint lookup_loop (k : nat) (key node : Z) (x : found_at) : M state (Z * found_at) :=
  if node =? 0 then mret (0, x)
  else
  match k with
  | O => fun _ => Ok None
  | S k =>
      b ← get_balance node;
      let x := if b =? 0 then x else mk_found (pparent x) node (is_left x) in
      let res := cmp_fn node key in
      if res =? 0 then mret (node, x)
      else
      let x := mk_found node (unbalanced x) (0 <? res) in
      next ← (if 0 <? res then get_left node else get_right node);
      lookup_loop k key next x
  end.

Definition do_lookup (key : Z) : M state (Z * found_at) :=
  t ← get_tree;
  lookup_loop fuel key (root t) (mk_found 0 (root t) false).

Definition avltree_lookup (key : Z) : M state Z := '(p, _) ← do_lookup key; mret p.

Fixpoint inf_loop (k : nat) (key node lb : Z) : M state Z :=
  if node =? 0 then mret lb
  else
  match k with
  | O => fun _ => Ok None
  | S k =>
      _ ← get_balance node;
      let res := cmp_fn node key in
      if res =? 0 then mret node
      else
      let lb := if res <? 1 then node else lb in
      next ← (if 0 <? res then get_left node else get_right node);
      inf_loop k key next lb
  end.

Definition avltree_inf (key : Z) : M state Z :=
  t ← get_tree; lb ← avltree_first; inf_loop fuel key (root t) lb.

Fixpoint sup_loop (k : nat) (key node ub : Z) : M state Z :=
  if node =? 0 then mret ub
  else
  match k with
  | O => fun _ => Ok None
  | S k =>
      _ ← get_balance node;
      let res := cmp_fn node key in
      if res =? 0 then mret node
      else
      next ← (if 0 <? res then get_left node else get_right node);
      let ub := if negb (next =? 0) && (0 <? cmp_fn next key) then next else ub in
      sup_loop k key next ub
  end.

Definition avltree_sup (key : Z) : M state Z := t ← get_tree; sup_loop fuel key (root t) (root t).

(** ** Insertion *)

Definition set_child (child p : Z) (left : bool) : M state unit :=
  if left then put_left p child else put_right p child.

(** The loop over the ancestors of the new node. *)
Fixpoint insert_up (k : nat) (node par unb : Z) : M state unit :=
  match k with
  | O => fun _ => Ok None
  | S k =>
      l ← get_left par;
      _ ← (if l =? node then dec_balance par else inc_balance par);
      if par =? unb then mret tt else up ← get_parent par; insert_up k par up unb
  end.

(** The inner [switch] of a double rotation on the right, which insertion and removal share. *)
Definition double_right (node right : Z) : M state unit :=
  rl ← get_left right;
  b ← get_balance rl;
  _ ← (if b =? 1 then _ ← set_balance (-1) node; set_balance 0 right
       else if b =? 0 then _ ← set_balance 0 node; set_balance 0 right
       else if b =? -1 then _ ← set_balance 0 node; set_balance 1 right
       else mret tt);
  rl ← get_left right;
  _ ← set_balance 0 rl;
  rotate_right right.

Definition double_left (node left : Z) : M state unit :=
  lr ← get_right left;
  b ← get_balance lr;
  _ ← (if b =? 1 then _ ← set_balance 0 node; set_balance (-1) left
       else if b =? 0 then _ ← set_balance 0 node; set_balance 0 left
       else if b =? -1 then _ ← set_balance 1 node; set_balance 0 left
       else mret tt);
  lr ← get_right left;
  _ ← set_balance 0 lr;
  rotate_left left.

(** The [switch] at the end of an insertion. *)
Definition insert_fix (unb : Z) : M state unit :=
  b ← get_balance unb;
  if (b =? 1) || (b =? -1) then on_tree (fun t => set_height (height t + 1) t)
  else if b =? 2 then
    r ← get_right unb;
    rb ← get_balance r;
    _ ← (if rb =? 1 then _ ← set_balance 0 unb; set_balance 0 r else double_right unb r);
    rotate_left unb
  else if b =? -2 then
    l ← get_left unb;
    lb ← get_balance l;
    _ ← (if lb =? -1 then _ ← set_balance 0 unb; set_balance 0 l else double_left unb l);
    rotate_right unb
  else mret tt.

Definition incr_size (t : avltree) : avltree := set_size (u64 (size t + 1)) t.

Definition avltree_insert (node : Z) : M state Z :=
  '(key, x) ← do_lookup node;
  if negb (key =? 0) then mret key
  else
  _ ← INIT_NODE node;
  if pparent x =? 0 then
    _ ← on_tree (set_root node);
    _ ← on_tree (fun t => set_first node (set_last node t));
    _ ← on_tree (fun t => set_height (height t + 1) t);
    _ ← on_tree incr_size;
    mret 0
  else
  t ← get_tree;
  _ ← (if is_left x
       then if pparent x =? first t then on_tree (set_first node) else mret tt
       else if pparent x =? last t then on_tree (set_last node) else mret tt);
  _ ← set_parent (pparent x) node;
  _ ← set_child node (pparent x) (is_left x);
  _ ← insert_up fuel node (pparent x) (unbalanced x);
  _ ← on_tree incr_size;
  _ ← insert_fix (unbalanced x);
  mret 0.

(** ** Removal *)

(** Whether the node [p] is the left child of [par]; [par] may be null. *)
Definition left_child (par p : Z) : M state bool :=
  if par =? 0 then mret false else l ← get_left par; mret (l =? p).

(** The loop that goes up after a removal; returns whether the height of the tree changes. *)
Fixpoint remove_up (k : nat) (par : Z) (is_left : bool) : M state bool :=
  if par =? 0 then mret true
  else
  match k with
  | O => fun _ => Ok None
  | S k =>
      let node := par in
      par ← get_parent node;
      if is_left then
        is_left ← left_child par node;
        b ← inc_balance node;
        if b =? 0 then remove_up k par is_left
        else if b =? 1 then mret false
        else
        right ← get_right node;
        rb ← get_balance right;
        if rb =? 0 then
          _ ← set_balance 1 node; _ ← set_balance (-1) right; _ ← rotate_left node; mret false
        else
        _ ← (if rb =? 1 then _ ← set_balance 0 node; set_balance 0 right
             else if rb =? -1 then double_right node right
             else mret tt);
        _ ← rotate_left node;
        remove_up k par is_left
      else
        is_left ← left_child par node;
        b ← dec_balance node;
        if b =? 0 then remove_up k par is_left
        else if b =? -1 then mret false
        else
        left ← get_left node;
        lb ← get_balance left;
        if lb =? 0 then
          _ ← set_balance (-1) node; _ ← set_balance 1 left; _ ← rotate_right node; mret false
        else
        _ ← (if lb =? -1 then _ ← set_balance 0 node; set_balance 0 left
             else if lb =? 1 then double_left node left
             else mret tt);
        _ ← rotate_right node;
        remove_up k par is_left
  end.

(** The successor [next] takes the place of a node with two children: the node whose child
    was taken, that child and its side. *)
Definition replace_by_next (node next left right par : Z) : M state (Z * Z * bool) :=
  b ← get_balance node;
  _ ← set_balance b next;
  _ ← put_left next left;
  _ ← set_parent next left;
  if negb (next =? right) then
    up ← get_parent next;
    np ← get_parent node;
    _ ← set_parent np next;
    child ← get_right next;
    _ ← put_left up child;
    _ ← put_right next right;
    _ ← set_parent next right;
    mret (up, child, true)
  else
    _ ← set_parent par next;
    child ← get_right next;
    mret (next, child, false).

(** The node leaves its place: the parent of the place that has lost a level, and its side. *)
Definition remove_unlink (node par left right : Z) : M state (Z * bool) :=
  next ← (if left =? 0 then mret right else if right =? 0 then mret left else get_first fuel right);
  is_left ← (if negb (par =? 0) then
               l ← left_child par node; _ ← set_child next par l; mret l
             else _ ← on_tree (set_root next); mret false);
  '(par, child, is_left) ←
    (if negb (left =? 0) && negb (right =? 0) then
       x ← replace_by_next node next left right par;
       _ ← check (negb (x.1.1 =? 0));
       mret x
     else mret (par, next, is_left));
  _ ← (if child =? 0 then mret tt else set_parent par child);
  mret (par, is_left).

(** The first and the last node of the tree, when [node] is one of them. *)
Definition remove_ends (node : Z) : M state unit :=
  t ← get_tree;
  _ ← (if node =? first t then n ← avltree_next node; on_tree (set_first n) else mret tt);
  t ← get_tree;
  if node =? last t then n ← avltree_prev node; on_tree (set_last n) else mret tt.

Definition avltree_remove (node : Z) : M state unit :=
  par ← get_parent node;
  left ← get_left node;
  right ← get_right node;
  _ ← remove_ends node;
  '(par, is_left) ← remove_unlink node par left right;
  _ ← on_tree (fun t => set_size (u64 (size t - 1)) t);
  shrunk ← remove_up fuel par is_left;
  if shrunk : bool then on_tree (fun t => set_height (height t - 1) t) else mret tt.

(** ** Replacement *)

Definition avltree_replace (old new : Z) : M state unit :=
  par ← get_parent old;
  _ ← (if negb (par =? 0) then l ← left_child par old; set_child new par l
       else _ ← on_tree (set_root new); on_tree incr_size);
  l ← get_left old;
  _ ← (if l =? 0 then mret tt else set_parent new l);
  r ← get_right old;
  _ ← (if r =? 0 then mret tt else set_parent new r);
  t ← get_tree;
  _ ← (if first t =? old then on_tree (set_first new) else mret tt);
  _ ← (if last t =? old then on_tree (set_last new) else mret tt);
  n ← node_at old;
  change new (fun _ => n).

(** [None] is the result -1. *)
Definition avltree_init (flags : Z) : option avltree :=
  if flags =? 0 then Some (mk_avl 0 (-1) 0 0 0) else None.

End operations.

End Avl.
