(* ===== verification/AvlSpec.v ===== *)
(** What the heap of [AvlTree.v] represents: binary trees with the balance that is stored in
    each node, and trees with a hole, for the place where an operation works. Module
    [AvlSpec]. *)

From S2P Require Import Prelude AvlTree.
Import Avl.
Local Open Scope Z_scope.

Module AvlSpec.

(** ** Words *)

(** An address of a node. *)
Definition addr (p : Z) : Prop := 0 < p < 2 ^ 64 /\ p mod 8 = 0.
(** An address, or null. *)
Definition link (p : Z) : Prop := 0 <= p < 2 ^ 64 /\ p mod 8 = 0.

(** The word of a node. *)
Definition pack (par b : Z) : Z := par + (b + 2).

Lemma addr_link p : addr p -> link p.
Proof. intros [? ?]. split; [lia | done]. Qed.

Lemma link_0 : link 0. Proof. by split. Qed.

Lemma lor_low p k : p mod 8 = 0 -> 0 <= k < 8 -> Z.lor p k = p + k.
Proof.
  intros Hp Hk. rewrite <- Z.add_lor_land.
  assert (Z.land p k = 0) as ->; [|lia].
  apply Z.bits_inj'. intros n Hn. rewrite Z.land_spec, Z.bits_0. apply andb_false_iff.
  destruct (Z.lt_ge_cases n 3) as [H3|H3].
  - left. rewrite (Z.div_mod p 8), Hp, Z.add_0_r by lia.
    change 8 with (2 ^ 3). rewrite Z.mul_comm. by apply Z.mul_pow2_bits_low.
  - right. apply Z.bits_above_log2; [lia|]. destruct (decide (k = 0)) as [->|]; [cbn; lia|].
    assert (Z.log2 k < 3); [|lia]. apply Z.log2_lt_pow2; cbn; lia.
Qed.

Lemma land_high w : Z.land w (Z.lnot 7) = w - w mod 8.
Proof.
  change (Z.lnot 7) with (Z.lnot (Z.ones 3)). rewrite <- Z.ldiff_land, Z.ldiff_ones_r by lia.
  rewrite Z.shiftl_mul_pow2, Z.shiftr_div_pow2 by lia. change (2 ^ 3) with 8. pose proof (Z.div_mod w 8). lia.
Qed.

Lemma land_low w : Z.land w 7 = w mod 8.
Proof. change 7 with (Z.ones 3). by rewrite Z.land_ones by lia. Qed.

Section words.
Context (par b : Z) (Hpar : link par) (Hb : -2 <= b <= 2).

Lemma pack_mod : pack par b mod 8 = b + 2.
Proof.
  destruct Hpar as [_ Hm]. unfold pack. rewrite Z.add_mod, Hm by lia. rewrite Z.add_0_l, Z.mod_mod by lia.
  apply Z.mod_small. lia.
Qed.

Lemma w_parent_pack : w_parent (pack par b) = par.
Proof. unfold w_parent. rewrite land_high, pack_mod. unfold pack. lia. Qed.

Lemma w_balance_pack : w_balance (pack par b) = b.
Proof. unfold w_balance. rewrite land_low, pack_mod. lia. Qed.

Lemma w_set_parent_pack par' : link par' -> w_set_parent par' (pack par b) = pack par' b.
Proof. intros [_ Hm]. unfold w_set_parent. rewrite land_low, pack_mod. by apply lor_low; [|lia]. Qed.

Lemma w_set_balance_pack b' : -2 <= b' <= 2 -> w_set_balance b' (pack par b) = pack par b'.
Proof.
  intros Hb'. unfold w_set_balance. fold (w_parent (pack par b)). rewrite w_parent_pack.
  apply lor_low; [apply Hpar | lia].
Qed.

Lemma u64_pack k : -2 <= b + k <= 2 -> u64 (pack par b + k) = pack par (b + k).
Proof.
  intros Hk. destruct Hpar as [Hr Hm]. unfold pack. rewrite u64_small; [lia|].
  pose proof (Z.div_mod par 8). assert (par / 8 < 2 ^ 61); [|lia]. apply Z.div_lt_upper_bound; lia.
Qed.

End words.

(** The new node has no parent and balance zero. *)
Lemma pack_init : pack 0 0 = 2. Proof. done. Qed.

(** ** Trees *)

(** A node with its address and the balance that it stores. *)
Inductive tr := Leaf | Node (l : tr) (p b : Z) (r : tr).

#[export] Instance tr_eq_dec : EqDecision tr.
Proof. solve_decision. Defined.

Definition ptr (t : tr) : Z := match t with Leaf => 0 | Node _ p _ _ => p end.

(** The addresses in order. *)
Fixpoint elems (t : tr) : list Z :=
  match t with Leaf => [] | Node l p _ r => elems l ++ p :: elems r end.

(** The tree is in the heap, below the parent [par]. *)
Fixpoint rep (h : gmap Z avltree_node) (par : Z) (t : tr) : Prop :=
  match t with
  | Leaf => True
  | Node l p b r =>
      addr p /\ -2 <= b <= 2 /\ h !! p = Some (mk_node (ptr l) (ptr r) (pack par b)) /\ rep h p l /\ rep h p r
  end.

Lemma rep_addr h par t p : rep h par t -> p ∈ elems t -> addr p.
Proof.
  revert par. induction t as [|l IHl q b r IHr]; intros par; cbn; [by intros _ ?%elem_of_nil|].
  intros (Hq & _ & _ & Hl & Hr) [H|[->|H]%elem_of_cons]%elem_of_app; eauto.
Qed.

Lemma ptr_elem t : t <> Leaf -> ptr t ∈ elems t.
Proof. destruct t; [done|]. intros _. cbn. set_solver. Qed.

Lemma ptr_link h par t : rep h par t -> link (ptr t).
Proof. destruct t; [intros _; apply link_0|]. intros (Hp & _). by apply addr_link. Qed.

Lemma ptr_0 h par t : rep h par t -> ptr t = 0 <-> t = Leaf.
Proof. destruct t; [done|]. intros (Hp & _). cbn. unfold addr in Hp. split; [lia | done]. Qed.

(** A tree depends on its own nodes only. *)
Lemma rep_ext h h' par t : (forall p, p ∈ elems t -> h' !! p = h !! p) -> rep h par t -> rep h' par t.
Proof.
  revert par. induction t as [|l IHl q b r IHr]; intros par Heq; [done|]. cbn in *.
  intros (Hq & Hb & Hh & Hl & Hr). split_and!; [done | lia | lia | rewrite Heq; set_solver | apply IHl | apply IHr]; set_solver.
Qed.

(** ** Trees with a hole *)

(** A node whose left, or right, subtree is missing. *)
Inductive frame := FL (p b : Z) (r : tr) | FR (l : tr) (p b : Z).

Definition fptr (f : frame) : Z := match f with FL p _ _ | FR _ p _ => p end.
Definition fnodes (f : frame) : list Z :=
  match f with FL p _ r => p :: elems r | FR l p _ => p :: elems l end.
Definition fill (f : frame) (t : tr) : tr := match f with FL p b r => Node t p b r | FR l p b => Node l p b t end.

(** The nodes above a place, the nearest first. *)
Notation ctx := (list frame).

Definition plug (c : ctx) (t : tr) : tr := foldl (fun t f => fill f t) t c.
Definition cptr (c : ctx) : Z := match c with [] => 0 | f :: _ => fptr f end.
Definition cnodes (c : ctx) : list Z := concat (map fnodes c).
Fixpoint root_of (c : ctx) (x : Z) : Z := match c with [] => x | f :: c => root_of c (fptr f) end.

Definition rep_frame (h : gmap Z avltree_node) (par : Z) (f : frame) (x : Z) : Prop :=
  addr (fptr f) /\
  match f with
  | FL p b r => -2 <= b <= 2 /\ h !! p = Some (mk_node x (ptr r) (pack par b)) /\ rep h p r
  | FR l p b => -2 <= b <= 2 /\ h !! p = Some (mk_node (ptr l) x (pack par b)) /\ rep h p l
  end.

Fixpoint rep_ctx (h : gmap Z avltree_node) (c : ctx) (x : Z) : Prop :=
  match c with [] => True | f :: c => rep_frame h (cptr c) f x /\ rep_ctx h c (fptr f) end.

(** The heap holds the tree [plug c t], and [t] is the place that matters. *)
Record at_place (s : state) (c : ctx) (t : tr) : Prop := {
  at_rep : rep (heap s) (cptr c) t;
  at_ctx : rep_ctx (heap s) c (ptr t);
  at_root : root (tree s) = root_of c (ptr t);
  at_nodup : NoDup (elems t ++ cnodes c)
}.

Lemma rep_frame_ext h h' par f x :
  (forall p, p ∈ fnodes f -> h' !! p = h !! p) -> rep_frame h par f x -> rep_frame h' par f x.
Proof.
  destruct f as [p b r|l p b]; intros Heq (Ha & Hb & Hh & Hr); cbn in *;
    (split_and!; [done | lia | lia | rewrite Heq; set_solver | eapply rep_ext; [|done]; set_solver]).
Qed.

Lemma rep_ctx_ext h h' c x : (forall p, p ∈ cnodes c -> h' !! p = h !! p) -> rep_ctx h c x -> rep_ctx h' c x.
Proof.
  revert x. induction c as [|f c IH]; intros x Heq; [done|]. intros [Hf Hc]. unfold cnodes in Heq. cbn in Heq. split.
  - eapply rep_frame_ext; [|done]. intros p Hp. apply Heq. set_solver.
  - apply IH; [|done]. intros p Hp. apply Heq. set_solver.
Qed.

Lemma cptr_link h c x : rep_ctx h c x -> link (cptr c).
Proof. destruct c as [|f c]; [intros _; apply link_0|]. intros [[Ha _] _]. by apply addr_link. Qed.

Lemma cptr_0 h c x : rep_ctx h c x -> cptr c = 0 <-> c = [].
Proof. destruct c as [|f c]; [done|]. intros [[Ha _] _]. cbn. unfold addr in Ha. split; [lia | done]. Qed.

(** One level up or down. *)
Lemma elems_fill f t : elems (fill f t) ≡ₚ elems t ++ fnodes f.
Proof. destruct f as [p b r|l p b]; cbn; [done|]. rewrite Permutation_app_comm. apply Permutation_middle. Qed.

Lemma at_fill s f c t : at_place s c (fill f t) <-> at_place s (f :: c) t.
Proof.
  assert (NoDup (elems (fill f t) ++ cnodes c) <-> NoDup (elems t ++ cnodes (f :: c))) as Hnd.
  { unfold cnodes. cbn. by rewrite elems_fill, app_assoc. }
  split.
  - intros [Hr Hc Hroot Hn]. rewrite Hnd in Hn. destruct f as [p b r|l p b];
      destruct Hr as (Ha & Hb & Hh & Hl & Hr); split; try done; split_and!; done.
  - intros [Hr [Hf Hc] Hroot Hn]. rewrite <- Hnd in Hn. destruct f as [p b r|l p b];
      destruct Hf as (Ha & Hb & Hh & Hl); split; try done; split_and!; done.
Qed.

Lemma at_plug s c t : at_place s [] (plug c t) <-> at_place s c t.
Proof.
  revert t. assert (forall c' t, at_place s c' (plug c t) <-> at_place s (c ++ c') t) as H.
  { induction c as [|f c IH]; intros c' t; [done|]. cbn [plug foldl app]. fold (plug c (fill f t)).
    rewrite IH. apply at_fill. }
  intros t. rewrite H. by rewrite app_nil_r.
Qed.

Lemma plug_app c c' t : plug (c ++ c') t = plug c' (plug c t).
Proof. unfold plug. apply foldl_app. Qed.

(** ** Reading and changing a node *)

(** From [s] to [s'] only the nodes [N] and the root pointer change. *)
Definition moved (N : list Z) (s s' : state) : Prop :=
  (forall a, a ∉ N -> heap s' !! a = heap s !! a) /\ tree s' = set_root (root (tree s')) (tree s).

Lemma moved_refl N s : moved N s s.
Proof. split; [done|]. destruct s as [h []]. done. Qed.

Lemma moved_trans N s1 s2 s3 : moved N s1 s2 -> moved N s2 s3 -> moved N s1 s3.
Proof.
  intros [H1 T1] [H2 T2]. split; [intros a Ha; by rewrite H2, H1|]. rewrite T2, T1. by destruct (tree s3).
Qed.

Lemma moved_weaken N N' s s' : N ⊆ N' -> moved N s s' -> moved N' s s'.
Proof. intros HN [H T]. split; [|done]. intros a Ha. apply H. set_solver. Qed.

Lemma node_at_ok s p n : heap s !! p = Some n -> node_at p s = done (n, s).
Proof. intros E. unfold node_at. by rewrite E. Qed.

Lemma change_ok s p n f : heap s !! p = Some n -> change p f s = done (tt, mk_state (<[p := f n]> (heap s)) (tree s)).
Proof. intros E. unfold change. by rewrite E. Qed.

(** The fields of a node, as the operations read them. *)
Lemma get_left_ok s p n : heap s !! p = Some n -> get_left p s = done (left n, s).
Proof. intros E. unfold get_left. by rewrite (bind_done _ _ _ _ _ (node_at_ok s p n E)). Qed.

Lemma get_right_ok s p n : heap s !! p = Some n -> get_right p s = done (right n, s).
Proof. intros E. unfold get_right. by rewrite (bind_done _ _ _ _ _ (node_at_ok s p n E)). Qed.

Lemma get_parent_ok s p l r par b :
  heap s !! p = Some (mk_node l r (pack par b)) -> link par -> -2 <= b <= 2 -> get_parent p s = done (par, s).
Proof.
  intros E Hp Hb. unfold get_parent. rewrite (bind_done _ _ _ _ _ (node_at_ok s p _ E)). cbn. by rewrite w_parent_pack.
Qed.

Lemma get_balance_ok s p l r par b :
  heap s !! p = Some (mk_node l r (pack par b)) -> link par -> -2 <= b <= 2 -> get_balance p s = done (b, s).
Proof.
  intros E Hp Hb. unfold get_balance. rewrite (bind_done _ _ _ _ _ (node_at_ok s p _ E)). cbn. by rewrite w_balance_pack.
Qed.

Lemma is_root_ok s p l r par b :
  heap s !! p = Some (mk_node l r (pack par b)) -> link par -> -2 <= b <= 2 -> is_root p s = done (par =? 0, s).
Proof.
  intros E Hp Hb. unfold is_root. rewrite (bind_done _ _ _ _ _ (node_at_ok s p _ E)). cbn. by rewrite w_parent_pack.
Qed.

Lemma set_parent_ok s p l r par b par' :
  heap s !! p = Some (mk_node l r (pack par b)) -> link par -> -2 <= b <= 2 -> link par' ->
  set_parent par' p s = done (tt, mk_state (<[p := mk_node l r (pack par' b)]> (heap s)) (tree s)).
Proof.
  intros E Hp Hb Hp'. unfold set_parent. rewrite (change_ok s p _ _ E). unfold set_word. cbn. by rewrite w_set_parent_pack.
Qed.

Lemma set_balance_ok s p l r par b b' :
  heap s !! p = Some (mk_node l r (pack par b)) -> link par -> -2 <= b <= 2 -> -2 <= b' <= 2 ->
  set_balance b' p s = done (tt, mk_state (<[p := mk_node l r (pack par b')]> (heap s)) (tree s)).
Proof.
  intros E Hp Hb Hb'. unfold set_balance. rewrite (change_ok s p _ _ E). unfold set_word. cbn. by rewrite w_set_balance_pack.
Qed.

(** [inc_balance] and [dec_balance] are additions to the word. *)
Lemma add_balance_ok s p l r par b k :
  heap s !! p = Some (mk_node l r (pack par b)) -> link par -> -2 <= b <= 2 -> -2 <= b + k <= 2 ->
  (_ ← change p (set_word (fun w => u64 (w + k))); get_balance p) s
  = done (b + k, mk_state (<[p := mk_node l r (pack par (b + k))]> (heap s)) (tree s)).
Proof.
  intros E Hp Hb Hb'. rewrite (bind_done _ _ _ _ _ (change_ok s p _ _ E)). unfold set_word. cbn. rewrite u64_pack by done.
  eapply get_balance_ok; [apply lookup_insert_eq | done | done].
Qed.

(** The node at a place. *)
Lemma at_node s c l p b r : at_place s c (Node l p b r) ->
  addr p /\ -2 <= b <= 2 /\ link (cptr c) /\ heap s !! p = Some (mk_node (ptr l) (ptr r) (pack (cptr c) b)).
Proof. intros [(Ha & Hb & Hh & _ & _) Hc _ _]. split_and!; try done; try lia; try apply Ha. by eapply cptr_link. Qed.

(** Changing the balance of the node at a place. *)
Lemma at_balance s c l p b r b' : at_place s c (Node l p b r) -> -2 <= b' <= 2 ->
  let s' := mk_state (<[p := mk_node (ptr l) (ptr r) (pack (cptr c) b')]> (heap s)) (tree s) in
  at_place s' c (Node l p b' r) /\ moved (elems (Node l p b r) ++ cnodes c) s s'.
Proof.
  intros [(Ha & Hb & Hh & Hl & Hr) Hc Hroot Hn] Hb' s'.
  assert (p ∉ elems l /\ p ∉ elems r /\ p ∉ cnodes c) as (Hpl & Hpr & Hpc).
  { cbn in Hn. rewrite <- app_assoc in Hn. apply NoDup_app in Hn as (_ & Hd & Hn). cbn in Hn.
    apply NoDup_cons in Hn as [Hn _]. split_and!; [|set_solver..]. intros Hp. apply (Hd p Hp). set_solver. }
  split.
  - split; [|..|done]; cbn.
    + split_and!; try done; try lia; [by rewrite lookup_insert_eq | |];
        (eapply rep_ext; [|done]; intros q Hq; rewrite lookup_insert_ne by (by intros ->); done).
    + eapply rep_ctx_ext; [|done]. intros q Hq. by rewrite lookup_insert_ne by (by intros ->).
    + done.
  - split; [|by destruct s as [? []]]. intros a Hnot. cbn. rewrite lookup_insert_ne; [done|]. intros ->. set_solver.
Qed.

(** ** The pointers to a place *)

(** The pointer to the place becomes [x]. *)
Definition relink (s : state) (c : ctx) (x : Z) : state :=
  match c with
  | [] => mk_state (heap s) (set_root x (tree s))
  | FL g b r :: c => mk_state (<[g := mk_node x (ptr r) (pack (cptr c) b)]> (heap s)) (tree s)
  | FR l g b :: c => mk_state (<[g := mk_node (ptr l) x (pack (cptr c) b)]> (heap s)) (tree s)
  end.

(** The parent of a tree becomes [par]. *)
Definition reparent (s : state) (t : tr) (par : Z) : state :=
  match t with
  | Leaf => s
  | Node l p b r => mk_state (<[p := mk_node (ptr l) (ptr r) (pack par b)]> (heap s)) (tree s)
  end.

Definition is_FL (c : ctx) : bool := match c with FL _ _ _ :: _ => true | _ => false end.

Lemma cptr_elem c : c <> [] -> cptr c ∈ cnodes c.
Proof. destruct c as [|[] c]; [done|..]; intros _; unfold cnodes; cbn; by left. Qed.

Lemma relink_other s c x a : a ∉ cnodes c -> heap (relink s c x) !! a = heap s !! a.
Proof.
  intros Ha. destruct c as [|[g b r|l g b] c]; [done|..]; cbn; rewrite lookup_insert_ne; try done;
    intros ->; apply Ha; unfold cnodes; cbn; by left.
Qed.

Lemma relink_ctx s c x0 x : rep_ctx (heap s) c x0 -> NoDup (cnodes c) -> rep_ctx (heap (relink s c x)) c x.
Proof.
  destruct c as [|f c]; [done|]. intros [Hf Hc] Hn. unfold cnodes in Hn. cbn in Hn. apply NoDup_app in Hn as (Hn & Hd & _).
  assert (fptr f ∈ fnodes f) as Hin by (destruct f; by left).
  assert (forall y, rep_ctx (<[fptr f := y]> (heap s)) c (fptr f)) as Hup.
  { intros y. eapply rep_ctx_ext; [|done]. intros a Ha. rewrite lookup_insert_ne; [done|]. intros <-. by apply (Hd (fptr f)). }
  destruct f as [p b r|l p b]; destruct Hf as (Ha & Hb & Hh & Hr); cbn in Hn; apply NoDup_cons in Hn as [Hp _];
    (split; [|apply Hup]); split_and!; try done; try lia; cbn; rewrite ?lookup_insert_eq; try done;
    (eapply rep_ext; [|done]; intros a Hin'; rewrite lookup_insert_ne by (by intros ->); done).
Qed.

Lemma relink_root s c x0 x : root (tree s) = root_of c x0 -> root (tree (relink s c x)) = root_of c x.
Proof. by destruct c as [|[] c]. Qed.

Lemma relink_tree s c x : tree (relink s c x) = set_root (root (tree (relink s c x))) (tree s).
Proof. destruct s as [h []]. by destruct c as [|[] c]. Qed.

Lemma reparent_other s t par a : a ∉ elems t -> heap (reparent s t par) !! a = heap s !! a.
Proof.
  intros Ha. destruct t as [|l p b r]; [done|]. cbn in *. rewrite lookup_insert_ne; [done|]. intros ->. set_solver.
Qed.

Lemma reparent_rep s t par par' : rep (heap s) par t -> NoDup (elems t) -> rep (heap (reparent s t par')) par' t.
Proof.
  destruct t as [|l p b r]; [done|]. intros (Ha & Hb & Hh & Hl & Hr) Hn. cbn in Hn.
  apply NoDup_app in Hn as (_ & Hd & [Hp _]%NoDup_cons).
  cbn. split_and!; try done; try lia; [by rewrite lookup_insert_eq|..];
    (eapply rep_ext; [|done]; intros a Hin; rewrite lookup_insert_ne; [done|]; intros ->; set_solver).
Qed.

Lemma reparent_tree s t par : tree (reparent s t par) = tree s.
Proof. by destruct t. Qed.

(** [if (child) set_parent(par', child)] *)
Lemma set_parent_tree s t par par' : rep (heap s) par t -> link par -> link par' ->
  (if ptr t =? 0 then mret tt else set_parent par' (ptr t)) s = done (tt, reparent s t par').
Proof.
  intros Hr Hp Hp'. destruct t as [|l p b r]; [done|]. destruct Hr as ([Ha _] & Hb & Hh & _ & _). cbn [ptr].
  rewrite (proj2 (Z.eqb_neq p 0)) by lia. by apply (set_parent_ok s p (ptr l) (ptr r) par b).
Qed.

(** A node at a place is not a child of the other side. *)
Lemma at_other_side s c l p b r l' g b' c' :
  at_place s c (Node l p b r) -> c = FR l' g b' :: c' -> ptr l' <> p.
Proof.
  intros [Hr Hc _ Hn] -> E. destruct Hc as [(_ & _ & _ & Hl') _]. destruct Hr as (Ha & _).
  assert (l' <> Leaf) as Hne by (intros ->; cbn in E; unfold addr in Ha; lia).
  apply NoDup_app in Hn as (_ & Hd & _). apply (Hd p); [cbn; set_solver|].
  rewrite <- E. unfold cnodes. cbn. pose proof (ptr_elem l' Hne). set_solver.
Qed.

Lemma left_child_ok s c l p b r : at_place s c (Node l p b r) -> left_child (cptr c) p s = done (is_FL c, s).
Proof.
  intros Hat. unfold left_child. pose proof Hat as [_ Hc _ _]. destruct c as [|f c]; [done|].
  destruct Hc as [Hf _]. assert (fptr f <> 0) as Hf0 by (destruct Hf as [[Ha _] _]; lia).
  cbn [cptr]. rewrite (proj2 (Z.eqb_neq _ _) Hf0).
  destruct f as [g bg rg|lg g bg]; destruct Hf as (_ & _ & Hh & _); cbn [fptr];
    rewrite (bind_done _ _ _ _ _ (get_left_ok s g _ Hh)); cbn [left ptr is_FL].
  - by rewrite Z.eqb_refl.
  - by rewrite (proj2 (Z.eqb_neq _ _) (at_other_side s _ l p b r lg g bg c Hat eq_refl)).
Qed.

Lemma set_child_ok s c x0 x : rep_ctx (heap s) c x0 -> c <> [] -> set_child x (cptr c) (is_FL c) s = done (tt, relink s c x).
Proof.
  intros Hc Hne. destruct c as [|[g b r|l g b] c]; [done|..]; destruct Hc as [(_ & _ & Hh & _) _];
    cbn [is_FL set_child cptr fptr]; unfold put_left, put_right; by rewrite (change_ok s g _ _ Hh).
Qed.

Lemma rotate_link_ok s c l p b r q :
  at_place s c (Node l p b r) -> rotate_link p (cptr c) q s = done (tt, relink s c q).
Proof.
  intros Hat. pose proof (at_node s c l p b r Hat) as (Ha & Hb & Hlk & Hh). unfold rotate_link.
  rewrite (bind_done _ _ _ _ _ (is_root_ok s p _ _ _ _ Hh Hlk Hb)).
  pose proof Hat as [_ Hc _ _]. destruct (decide (c = [])) as [->|Hne]; [done|].
  assert (cptr c <> 0) as H0 by (intros E; apply Hne; by eapply cptr_0). rewrite (proj2 (Z.eqb_neq _ _) H0).
  destruct c as [|[g bg rg|lg g bg] c]; [done|..]; destruct Hc as [(_ & _ & Hg & _) _]; cbn [cptr fptr] in *;
    rewrite (bind_done _ _ _ _ _ (get_left_ok s g _ Hg)); cbn [left ptr].
  - rewrite Z.eqb_refl. unfold put_left. by rewrite (change_ok s g _ _ Hg).
  - rewrite (proj2 (Z.eqb_neq _ _) (at_other_side s _ l p b r lg g bg c Hat eq_refl)).
    unfold put_right. by rewrite (change_ok s g _ _ Hg).
Qed.

(** ** Heights and balance *)

Fixpoint ht (t : tr) : Z := match t with Leaf => 0 | Node l _ _ r => 1 + Z.max (ht l) (ht r) end.

(** Every node stores the difference of the heights, which is at most one. *)
Fixpoint balanced (t : tr) : Prop :=
  match t with
  | Leaf => True
  | Node l _ b r => b = ht r - ht l /\ -1 <= b <= 1 /\ balanced l /\ balanced r
  end.

Lemma ht_nonneg t : 0 <= ht t.
Proof. induction t; cbn; lia. Qed.

Definition fbal (f : frame) : Z := match f with FL _ b _ | FR _ _ b => b end.
(** The subtree beside the hole. *)
Definition fside (f : frame) : tr := match f with FL _ _ r => r | FR l _ _ => l end.
Definition ftop (f : frame) (n : Z) : Z := 1 + Z.max n (ht (fside f)).

(** The frame is balanced when a tree of height [n] is in the hole. *)
Definition fok (f : frame) (n : Z) : Prop :=
  match f with FL _ b r => b = ht r - n | FR l _ b => b = n - ht l end /\ -1 <= fbal f <= 1 /\ balanced (fside f).

Fixpoint cok (c : ctx) (n : Z) : Prop := match c with [] => True | f :: c => fok f n /\ cok c (ftop f n) end.

Lemma balanced_fill f t : balanced (fill f t) <-> balanced t /\ fok f (ht t).
Proof. destruct f; cbn; unfold fok; cbn; tauto. Qed.

Lemma ht_fill f t : ht (fill f t) = ftop f (ht t).
Proof. destruct f; unfold ftop; cbn; lia. Qed.

Lemma balanced_plug c t : balanced (plug c t) <-> balanced t /\ cok c (ht t).
Proof.
  revert t. induction c as [|f c IH]; intros t; cbn [plug foldl cok]; [tauto|]. fold (plug c (fill f t)).
  rewrite IH, balanced_fill, ht_fill. tauto.
Qed.

Lemma ht_plug_ext c t t' : ht t = ht t' -> ht (plug c t) = ht (plug c t').
Proof.
  revert t t'. induction c as [|f c IH]; intros t t' E; [done|]. cbn [plug foldl]. apply IH. by rewrite !ht_fill, E.
Qed.

(** *** What is left and right of a place *)

Fixpoint cleft (c : ctx) : list Z :=
  match c with [] => [] | FL _ _ _ :: c => cleft c | FR l p _ :: c => cleft c ++ elems l ++ [p] end.
Fixpoint cright (c : ctx) : list Z :=
  match c with [] => [] | FL p _ r :: c => p :: elems r ++ cright c | FR _ _ _ :: c => cright c end.

Lemma elems_plug c t : elems (plug c t) = cleft c ++ elems t ++ cright c.
Proof.
  revert t. induction c as [|f c IH]; intros t; cbn [plug foldl]; [by rewrite app_nil_r|]. fold (plug c (fill f t)).
  rewrite IH. destruct f as [p b r|l p b]; cbn; by rewrite <- !app_assoc.
Qed.

Lemma cnodes_perm c : cnodes c ≡ₚ cleft c ++ cright c.
Proof.
  unfold cnodes. induction c as [|[p b r|l p b] c IH]; [done|..]; cbn; rewrite IH.
  - rewrite <- Permutation_middle. apply perm_skip. rewrite !app_assoc. apply Permutation_app_tail, Permutation_app_comm.
  - rewrite <- !app_assoc. cbn. rewrite (Permutation_app_swap_app (cleft c) (elems l)), <- (Permutation_middle (cleft c)).
    apply Permutation_middle.
Qed.

(** The nodes of a place are those of the whole tree. *)
Lemma nodes_perm c t : elems t ++ cnodes c ≡ₚ elems (plug c t).
Proof. rewrite elems_plug, cnodes_perm, Permutation_app_swap_app. done. Qed.

End AvlSpec.
