(* ===== verification/AvlRotate.v ===== *)
(** Rotations of [AvlTree.v] on trees, with the double rotations that insertion and removal
    share. Module [AvlRotate]. *)

From S2P Require Import Prelude AvlTree AvlSpec.
Import Avl AvlSpec.
Local Open Scope Z_scope.

Module AvlRotate.

(** Split [NoDup] of concatenations into disjointness. *)
Ltac nodup_split :=
  repeat match goal with
  | H : NoDup (_ ++ _) |- _ => apply NoDup_app in H as (? & ? & ?)
  | H : NoDup (_ :: _) |- _ => apply NoDup_cons in H as [? ?]
  end.

(** Two neighbouring nodes [p] and [q] with the trees [l], [m] and [r] between and around
    them. *)
Record apart (l : tr) (p : Z) (m : tr) (q : Z) (r : tr) (N : list Z) : Prop := {
  ap_pq : p <> q;
  ap_m : NoDup (elems m);
  ap_N : NoDup N;
  ap_p : p ∉ elems l ++ elems m ++ elems r ++ N;
  ap_q : q ∉ elems l ++ elems m ++ elems r ++ N;
  ap_mid : forall a, a ∈ elems m -> a ∉ elems l ++ elems r ++ N;
  ap_out : forall a, a ∈ elems l ++ elems r -> a ∉ N
}.

Lemma apart_nodup l p m q r N : NoDup (elems l ++ p :: elems m ++ q :: elems r ++ N) -> apart l p m q r N.
Proof.
  intros Hn. nodup_split. split; try done; set_solver.
Qed.

(** The place after a left or a right rotation, in a state that has the changed nodes. *)
Lemma rotated s s' c l p b m q b' r t t' :
  at_place s c t -> apart l p m q r (cnodes c) -> addr p -> addr q -> -2 <= b <= 2 -> -2 <= b' <= 2 ->
  (exists pl pr, rep (heap s) pl l /\ rep (heap s) pr r /\
   (forall a, a ∈ elems l ++ elems r -> heap s' !! a = heap s !! a) /\
   ((pl = p /\ pr = q /\ t' = Node (Node l p b m) q b' r /\ rep (heap s') p m
     /\ heap s' !! p = Some (mk_node (ptr l) (ptr m) (pack q b))
     /\ heap s' !! q = Some (mk_node p (ptr r) (pack (cptr c) b')))
    \/ (pl = p /\ pr = q /\ t' = Node l p b (Node m q b' r) /\ rep (heap s') q m
     /\ heap s' !! p = Some (mk_node (ptr l) q (pack (cptr c) b))
     /\ heap s' !! q = Some (mk_node (ptr m) (ptr r) (pack p b'))))) ->
  elems t = elems t' -> rep_ctx (heap s') c (ptr t') -> root (tree s') = root_of c (ptr t') -> at_place s' c t'.
Proof.
  intros [_ _ _ Hn] Hap Ha Hq Hb Hb' (pl & pr & Hl & Hr & Heq & Hcase) He Hc Hroot.
  assert (rep (heap s') pl l) as Hl' by (eapply rep_ext; [|exact Hl]; intros a Hx; apply Heq; set_solver).
  assert (rep (heap s') pr r) as Hr' by (eapply rep_ext; [|exact Hr]; intros a Hx; apply Heq; set_solver).
  split; [|done|done|by rewrite <- He].
  destruct Hcase as [(-> & -> & -> & Hm & Hp' & Hq')|(-> & -> & -> & Hm & Hp' & Hq')]; cbn; split_and!; try done; lia.
Qed.

Lemma rotate_left_ok s c l p b m q bq r :
  at_place s c (Node l p b (Node m q bq r)) ->
  exists s', rotate_left p s = done (tt, s') /\ at_place s' c (Node (Node l p b m) q bq r)
  /\ moved (elems (Node l p b (Node m q bq r)) ++ cnodes c) s s'.
Proof.
  intros Hat. pose proof (at_node _ _ _ _ _ _ Hat) as (Ha & Hb & Hlk & Hh).
  pose proof Hat as [(_ & _ & _ & Hl & (Haq & Hbq & Hhq & Hm & Hr)) Hc Hroot Hn].
  assert (apart l p m q r (cnodes c)) as Hap.
  { apply apart_nodup. cbn in Hn. rewrite <- !app_assoc in Hn. cbn in Hn. by rewrite <- !app_assoc in Hn. }
  pose proof Hap as [Hpq Hnm Hnc Hp Hq Hmid Hout].
  set (s1 := relink s c q).
  assert (forall a, a ∉ cnodes c -> heap s1 !! a = heap s !! a) as E1 by apply relink_other.
  set (s2 := mk_state (<[q := mk_node (ptr m) (ptr r) (pack (cptr c) bq)]> (heap s1)) (tree s1)).
  set (s3 := mk_state (<[p := mk_node (ptr l) q (pack q b)]> (heap s2)) (tree s2)).
  set (s4 := mk_state (<[p := mk_node (ptr l) (ptr m) (pack q b)]> (heap s3)) (tree s3)).
  assert (forall a, a <> p -> a <> q -> heap s4 !! a = heap s1 !! a) as E4.
  { intros a Hap' Haq'. unfold s4, s3, s2. cbn. by rewrite !lookup_insert_ne. }
  assert (rep (heap s4) q m) as Hm4.
  { eapply rep_ext; [|exact Hm]. intros a Ham. rewrite E4 by set_solver. apply E1. set_solver. }
  set (s5 := reparent s4 m p).
  assert (heap s5 !! q = Some (mk_node (ptr m) (ptr r) (pack (cptr c) bq))) as E5q.
  { unfold s5. rewrite reparent_other by set_solver. unfold s4, s3, s2. cbn. do 2 rewrite lookup_insert_ne by done. by rewrite lookup_insert_eq. }
  set (s6 := mk_state (<[q := mk_node p (ptr r) (pack (cptr c) bq)]> (heap s5)) (tree s5)).
  assert (forall a, a <> p -> a <> q -> a ∉ elems m -> heap s6 !! a = heap s1 !! a) as E6.
  { intros a Hap' Haq' Ham. unfold s6. cbn. rewrite lookup_insert_ne by done. unfold s5. rewrite reparent_other by done. auto. }
  exists s6. split_and!.
  - unfold rotate_left. rewrite (bind_done _ _ _ _ _ (get_right_ok s p _ Hh)). cbn [right ptr].
    rewrite (bind_done _ _ _ _ _ (get_parent_ok s p _ _ _ _ Hh Hlk Hb)).
    rewrite (bind_done _ _ _ _ _ (rotate_link_ok s c _ _ _ _ q Hat)). fold s1.
    erewrite bind_done; [|eapply (set_parent_ok s1 q _ _ p bq); [rewrite E1 by set_solver; done | by apply addr_link | done..]]. fold s2.
    erewrite bind_done; [|eapply (set_parent_ok s2 p (ptr l) q (cptr c) b); [|done|done|by apply addr_link]].
    2: { unfold s2. cbn. rewrite lookup_insert_ne by done. rewrite E1 by set_solver. done. }
    fold s3. erewrite bind_done; [|apply (get_left_ok s3 q (mk_node (ptr m) (ptr r) (pack (cptr c) bq)))].
    2: { unfold s3, s2. cbn. by rewrite lookup_insert_ne, lookup_insert_eq. }
    cbn [left]. erewrite bind_done; [|unfold put_right; apply change_ok; unfold s3; cbn; apply lookup_insert_eq].
    cbn [set_right left parent]. fold s4. erewrite bind_done; [|by apply (set_parent_tree s4 m q p); [|apply addr_link..]].
    fold s5. unfold put_left. rewrite (change_ok s5 q _ _ E5q). done.
  - eapply (rotated s s6 c l p b m q bq r); try done.
    + exists p, q. split_and!; [done | done | |left; split_and!; try done].
      * intros a Hx. rewrite E6; [apply E1; set_solver|set_solver..].
      * eapply rep_ext; [|apply (reparent_rep s4 m q p); done]. intros a Ham. unfold s6. cbn.
        rewrite lookup_insert_ne; [done|]. set_solver.
      * unfold s6. cbn. rewrite lookup_insert_ne by done. unfold s5. rewrite reparent_other by set_solver.
        unfold s4. cbn. by rewrite lookup_insert_eq.
      * unfold s6. cbn. by rewrite lookup_insert_eq.
    + cbn. by rewrite <- app_assoc.
    + eapply rep_ctx_ext; [|apply (relink_ctx s c p q); done]. intros a Hx. apply E6; set_solver.
    + unfold s6. cbn. unfold s5. rewrite reparent_tree. cbn. by apply (relink_root s c p).
  - split.
    + intros a Hx. rewrite E6; [apply E1; set_solver|cbn in Hx; set_solver..].
    + unfold s6. cbn. unfold s5. rewrite reparent_tree. cbn. apply relink_tree.
Qed.

Lemma rotate_right_ok s c l q bq m p b r :
  at_place s c (Node (Node l q bq m) p b r) ->
  exists s', rotate_right p s = done (tt, s') /\ at_place s' c (Node l q bq (Node m p b r))
  /\ moved (elems (Node (Node l q bq m) p b r) ++ cnodes c) s s'.
Proof.
  intros Hat. pose proof (at_node _ _ _ _ _ _ Hat) as (Ha & Hb & Hlk & Hh).
  pose proof Hat as [(_ & _ & _ & (Haq & Hbq & Hhq & Hl & Hm) & Hr) Hc Hroot Hn].
  assert (apart l q m p r (cnodes c)) as Hap.
  { apply apart_nodup. cbn in Hn. rewrite <- !app_assoc in Hn. cbn in Hn. by repeat (rewrite <- app_assoc in Hn; cbn in Hn). }
  pose proof Hap as [Hpq Hnm Hnc Hq Hp Hmid Hout].
  set (s1 := relink s c q).
  assert (forall a, a ∉ cnodes c -> heap s1 !! a = heap s !! a) as E1 by apply relink_other.
  set (s2 := mk_state (<[q := mk_node (ptr l) (ptr m) (pack (cptr c) bq)]> (heap s1)) (tree s1)).
  set (s3 := mk_state (<[p := mk_node q (ptr r) (pack q b)]> (heap s2)) (tree s2)).
  set (s4 := mk_state (<[p := mk_node (ptr m) (ptr r) (pack q b)]> (heap s3)) (tree s3)).
  assert (forall a, a <> p -> a <> q -> heap s4 !! a = heap s1 !! a) as E4.
  { intros a Hap' Haq'. unfold s4, s3, s2. cbn. by rewrite !lookup_insert_ne. }
  assert (rep (heap s4) q m) as Hm4.
  { eapply rep_ext; [|exact Hm]. intros a Ham. rewrite E4 by set_solver. apply E1. set_solver. }
  set (s5 := reparent s4 m p).
  assert (heap s5 !! q = Some (mk_node (ptr l) (ptr m) (pack (cptr c) bq))) as E5q.
  { unfold s5. rewrite reparent_other by set_solver. unfold s4, s3, s2. cbn. do 2 rewrite lookup_insert_ne by done.
    by rewrite lookup_insert_eq. }
  set (s6 := mk_state (<[q := mk_node (ptr l) p (pack (cptr c) bq)]> (heap s5)) (tree s5)).
  assert (forall a, a <> p -> a <> q -> a ∉ elems m -> heap s6 !! a = heap s1 !! a) as E6.
  { intros a Hap' Haq' Ham. unfold s6. cbn. rewrite lookup_insert_ne by done. unfold s5. rewrite reparent_other by done. auto. }
  exists s6. split_and!.
  - unfold rotate_right. rewrite (bind_done _ _ _ _ _ (get_left_ok s p _ Hh)). cbn [left ptr].
    rewrite (bind_done _ _ _ _ _ (get_parent_ok s p _ _ _ _ Hh Hlk Hb)).
    rewrite (bind_done _ _ _ _ _ (rotate_link_ok s c _ _ _ _ q Hat)). fold s1.
    erewrite bind_done; [|eapply (set_parent_ok s1 q _ _ p bq); [rewrite E1 by set_solver; done | by apply addr_link | done..]]. fold s2.
    erewrite bind_done; [|eapply (set_parent_ok s2 p q (ptr r) (cptr c) b); [|done|done|by apply addr_link]].
    2: { unfold s2. cbn. rewrite lookup_insert_ne by done. rewrite E1 by set_solver. done. }
    fold s3. erewrite bind_done; [|apply (get_right_ok s3 q (mk_node (ptr l) (ptr m) (pack (cptr c) bq)))].
    2: { unfold s3, s2. cbn. by rewrite lookup_insert_ne, lookup_insert_eq. }
    cbn [right]. erewrite bind_done; [|unfold put_left; apply change_ok; unfold s3; cbn; apply lookup_insert_eq].
    cbn [set_left right parent]. fold s4. erewrite bind_done; [|by apply (set_parent_tree s4 m q p); [|apply addr_link..]].
    fold s5. unfold put_right. rewrite (change_ok s5 q _ _ E5q). done.
  - eapply (rotated s s6 c l q bq m p b r); try done.
    + exists q, p. split_and!; [done | done | |right; split_and!; try done].
      * intros a Hx. rewrite E6; [apply E1; set_solver|set_solver..].
      * eapply rep_ext; [|apply (reparent_rep s4 m q p); done]. intros a Ham. unfold s6. cbn.
        rewrite lookup_insert_ne; [done|]. set_solver.
      * unfold s6. cbn. by rewrite lookup_insert_eq.
      * unfold s6. cbn. rewrite lookup_insert_ne by done. unfold s5. rewrite reparent_other by set_solver.
        unfold s4. cbn. by rewrite lookup_insert_eq.
    + cbn. by rewrite <- app_assoc.
    + eapply rep_ctx_ext; [|apply (relink_ctx s c p q); done]. intros a Hx. apply E6; set_solver.
    + unfold s6. cbn. unfold s5. rewrite reparent_tree. cbn. by apply (relink_root s c p).
  - split.
    + intros a Hx. rewrite E6; [apply E1; set_solver|cbn in Hx; set_solver..].
    + unfold s6. cbn. unfold s5. rewrite reparent_tree. cbn. apply relink_tree.
Qed.

(** ** Sequences of changes *)

(** The state [s], reached from [s0] by changes of the nodes [N], which are those of the
    tree. *)
Definition now (s0 : state) (N : list Z) (s : state) (c : ctx) (t : tr) : Prop :=
  at_place s c t /\ elems (plug c t) = N /\ moved N s0 s.

Lemma now_fill s0 N s f c t : now s0 N s (f :: c) t <-> now s0 N s c (fill f t).
Proof. unfold now. by rewrite <- at_fill. Qed.

(** A change of the nodes at a place that keeps their order. *)
Lemma now_change s0 N s s' c t t' :
  now s0 N s c t -> at_place s' c t' -> elems t' = elems t -> moved (elems t ++ cnodes c) s s' -> now s0 N s' c t'.
Proof.
  intros (Hat & Hel & Hmv) Hat' He Hm. split_and!; [done | by rewrite elems_plug, He, <- elems_plug|].
  eapply moved_trans; [done|]. eapply moved_weaken; [|done]. intros a Ha. rewrite <- Hel, <- nodes_perm. done.
Qed.

Lemma now_balance s0 N s c l p b r b' :
  now s0 N s c (Node l p b r) -> -2 <= b' <= 2 ->
  exists s', set_balance b' p s = done (tt, s') /\ now s0 N s' c (Node l p b' r) /\ tree s' = tree s.
Proof.
  intros Hnow Hb'. pose proof Hnow as (Hat & _ & _). pose proof (at_node _ _ _ _ _ _ Hat) as (Ha & Hb & Hlk & Hh).
  destruct (at_balance _ _ _ _ _ _ b' Hat Hb') as [Hat' Hm]. eexists. split_and!.
  - by apply (set_balance_ok s p (ptr l) (ptr r) (cptr c) b).
  - by eapply now_change.
  - done.
Qed.

Lemma now_add_balance s0 N s c l p b r k :
  now s0 N s c (Node l p b r) -> -2 <= b + k <= 2 ->
  exists s', (_ ← change p (set_word (fun w => u64 (w + k))); get_balance p) s = done (b + k, s')
  /\ now s0 N s' c (Node l p (b + k) r) /\ tree s' = tree s.
Proof.
  intros Hnow Hb'. pose proof Hnow as (Hat & _ & _). pose proof (at_node _ _ _ _ _ _ Hat) as (Ha & Hb & Hlk & Hh).
  destruct (at_balance _ _ _ _ _ _ (b + k) Hat Hb') as [Hat' Hm]. eexists. split_and!.
  - by apply (add_balance_ok s p (ptr l) (ptr r) (cptr c) b).
  - by eapply now_change.
  - done.
Qed.

Lemma now_rotate_left s0 N s c l p b m q bq r :
  now s0 N s c (Node l p b (Node m q bq r)) ->
  exists s', rotate_left p s = done (tt, s') /\ now s0 N s' c (Node (Node l p b m) q bq r).
Proof.
  intros Hnow. pose proof Hnow as (Hat & _ & _). destruct (rotate_left_ok _ _ _ _ _ _ _ _ _ Hat) as (s' & E & Hat' & Hm).
  exists s'. split; [done|]. eapply now_change; [done | done | | done]. cbn. by rewrite <- app_assoc.
Qed.

Lemma now_rotate_right s0 N s c l q bq m p b r :
  now s0 N s c (Node (Node l q bq m) p b r) ->
  exists s', rotate_right p s = done (tt, s') /\ now s0 N s' c (Node l q bq (Node m p b r)).
Proof.
  intros Hnow. pose proof Hnow as (Hat & _ & _). destruct (rotate_right_ok _ _ _ _ _ _ _ _ _ Hat) as (s' & E & Hat' & Hm).
  exists s'. split; [done|]. eapply now_change; [done | done | | done]. cbn. by rewrite <- app_assoc.
Qed.

(** Reads at a place, and of the children of its node. *)
Lemma now_left s0 N s c l p b r : now s0 N s c (Node l p b r) -> get_left p s = done (ptr l, s).
Proof. intros (Hat & _ & _). destruct (at_node _ _ _ _ _ _ Hat) as (_ & _ & _ & Hh). exact (get_left_ok s p _ Hh). Qed.

Lemma now_right s0 N s c l p b r : now s0 N s c (Node l p b r) -> get_right p s = done (ptr r, s).
Proof. intros (Hat & _ & _). destruct (at_node _ _ _ _ _ _ Hat) as (_ & _ & _ & Hh). exact (get_right_ok s p _ Hh). Qed.

Lemma now_parent s0 N s c l p b r : now s0 N s c (Node l p b r) -> get_parent p s = done (cptr c, s).
Proof.
  intros (Hat & _ & _). destruct (at_node _ _ _ _ _ _ Hat) as (_ & Hb & Hl & Hh). exact (get_parent_ok s p _ _ _ _ Hh Hl Hb).
Qed.

Lemma now_get_balance s0 N s c l p b r : now s0 N s c (Node l p b r) -> get_balance p s = done (b, s).
Proof.
  intros (Hat & _ & _). destruct (at_node _ _ _ _ _ _ Hat) as (_ & Hb & Hl & Hh). exact (get_balance_ok s p _ _ _ _ Hh Hl Hb).
Qed.

(** To the right and to the left child, and back. *)
Lemma now_to_right s0 N s c l p b r : now s0 N s c (Node l p b r) <-> now s0 N s (FR l p b :: c) r.
Proof. symmetry. apply now_fill. Qed.
Lemma now_to_left s0 N s c l p b r : now s0 N s c (Node l p b r) <-> now s0 N s (FL p b r :: c) l.
Proof. symmetry. apply now_fill. Qed.

(** ** Double rotations *)

(** The balance of the two outer nodes after a double rotation, from that of the middle. *)
Definition upper (by_ : Z) : Z := if by_ =? 1 then -1 else 0.
Definition lower (by_ : Z) : Z := if by_ =? -1 then 1 else 0.

Lemma now_double_right s0 N s c l p b x y by_ z q bq r :
  now s0 N s c (Node l p b (Node (Node x y by_ z) q bq r)) -> -1 <= by_ <= 1 ->
  exists s', double_right p q s = done (tt, s')
  /\ now s0 N s' c (Node l p (upper by_) (Node x y 0 (Node z q (lower by_) r))).
Proof.
  intros Hnow Hby. unfold double_right.
  pose proof (proj1 (now_to_right _ _ _ _ _ _ _ _) Hnow) as Hq. pose proof (proj1 (now_to_left _ _ _ _ _ _ _ _) Hq) as Hy.
  rewrite (bind_done _ _ _ _ _ (now_left _ _ _ _ _ _ _ _ Hq)). cbn [ptr].
  rewrite (bind_done _ _ _ _ _ (now_get_balance _ _ _ _ _ _ _ _ Hy)).
  assert (exists s1, (_ ← set_balance (upper by_) p; set_balance (lower by_) q) s = done (tt, s1)
    /\ now s0 N s1 c (Node l p (upper by_) (Node (Node x y by_ z) q (lower by_) r))) as (s1 & E1 & Hn1).
  { destruct (now_balance _ _ _ _ _ _ _ _ (upper by_) Hnow) as (s1 & E1 & Hn1 & _); [unfold upper; case_match; lia|].
    apply now_to_right in Hn1.
    destruct (now_balance _ _ _ _ _ _ _ _ (lower by_) Hn1) as (s2 & E2 & Hn2 & _); [unfold lower; case_match; lia|].
    exists s2. rewrite (bind_done _ _ _ _ _ E1). split; [done | by apply now_to_right]. }
  erewrite bind_done.
  2: { unfold upper, lower in E1. destruct (Z.eqb_spec by_ 1) as [->|]; [exact E1|].
       destruct (Z.eqb_spec by_ 0) as [->|]; [exact E1|]. destruct (Z.eqb_spec by_ (-1)) as [->|]; [exact E1|lia]. }
  apply now_to_right in Hn1. rewrite (bind_done _ _ _ _ _ (now_left _ _ _ _ _ _ _ _ Hn1)). cbn [ptr].
  apply now_to_left in Hn1. destruct (now_balance _ _ _ _ _ _ _ _ 0 Hn1) as (s2 & E2 & Hn2 & _); [lia|].
  rewrite (bind_done _ _ _ _ _ E2). apply now_to_left in Hn2.
  destruct (now_rotate_right _ _ _ _ _ _ _ _ _ _ _ Hn2) as (s3 & E3 & Hn3). exists s3. split; [done|]. by apply now_to_right.
Qed.

Lemma now_double_left s0 N s c l q bq x y by_ z p b r :
  now s0 N s c (Node (Node l q bq (Node x y by_ z)) p b r) -> -1 <= by_ <= 1 ->
  exists s', double_left p q s = done (tt, s')
  /\ now s0 N s' c (Node (Node (Node l q (upper by_) x) y 0 z) p (lower by_) r).
Proof.
  intros Hnow Hby. unfold double_left.
  pose proof (proj1 (now_to_left _ _ _ _ _ _ _ _) Hnow) as Hq. pose proof (proj1 (now_to_right _ _ _ _ _ _ _ _) Hq) as Hy.
  rewrite (bind_done _ _ _ _ _ (now_right _ _ _ _ _ _ _ _ Hq)). cbn [ptr].
  rewrite (bind_done _ _ _ _ _ (now_get_balance _ _ _ _ _ _ _ _ Hy)).
  assert (exists s1, (_ ← set_balance (lower by_) p; set_balance (upper by_) q) s = done (tt, s1)
    /\ now s0 N s1 c (Node (Node l q (upper by_) (Node x y by_ z)) p (lower by_) r)) as (s1 & E1 & Hn1).
  { destruct (now_balance _ _ _ _ _ _ _ _ (lower by_) Hnow) as (s1 & E1 & Hn1 & _); [unfold lower; case_match; lia|].
    apply now_to_left in Hn1.
    destruct (now_balance _ _ _ _ _ _ _ _ (upper by_) Hn1) as (s2 & E2 & Hn2 & _); [unfold upper; case_match; lia|].
    exists s2. rewrite (bind_done _ _ _ _ _ E1). split; [done | by apply now_to_left]. }
  erewrite bind_done.
  2: { unfold upper, lower in E1. destruct (Z.eqb_spec by_ 1) as [->|]; [exact E1|].
       destruct (Z.eqb_spec by_ 0) as [->|]; [exact E1|]. destruct (Z.eqb_spec by_ (-1)) as [->|]; [exact E1|lia]. }
  apply now_to_left in Hn1. rewrite (bind_done _ _ _ _ _ (now_right _ _ _ _ _ _ _ _ Hn1)). cbn [ptr].
  apply now_to_right in Hn1. destruct (now_balance _ _ _ _ _ _ _ _ 0 Hn1) as (s2 & E2 & Hn2 & _); [lia|].
  rewrite (bind_done _ _ _ _ _ E2). apply now_to_right in Hn2.
  destruct (now_rotate_left _ _ _ _ _ _ _ _ _ _ _ Hn2) as (s3 & E3 & Hn3). exists s3. split; [done|]. by apply now_to_left.
Qed.

End AvlRotate.
