(* ===== verification/AvlInsert.v ===== *)
(** Searching and insertion of [support/avl.c]: [avltree_lookup] and [avltree_insert] keep
    the tree sorted and balanced. Module [AvlInsert]. *)

From stdpp Require Import sorting.
From S2P Require Import Prelude AvlTree AvlSpec AvlRotate.
Import Avl AvlSpec AvlRotate.
Local Open Scope Z_scope.

Module AvlInsert.

(** ** Sorted trees *)

(** [cmp_fn] is an order of the nodes by their keys. *)
Class Order (cmp : Z -> Z -> Z) : Prop := {
  cmp_flip : forall a b, Z.sgn (cmp a b) = - Z.sgn (cmp b a);
  cmp_trans : forall a b c, cmp a b < 0 -> cmp b c < 0 -> cmp a c < 0;
  cmp_same : forall a b c, cmp a b = 0 -> Z.sgn (cmp a c) = Z.sgn (cmp b c)
}.

Definition sorted (cmp : Z -> Z -> Z) (l : list Z) : Prop := StronglySorted (fun a b => cmp a b < 0) l.

Lemma cmp_gt cmp `{!Order cmp} a b : 0 < cmp a b <-> cmp b a < 0.
Proof. pose proof (cmp_flip a b). split; intros; lia. Qed.

Lemma sorted_app cmp l1 l2 :
  sorted cmp (l1 ++ l2) <-> sorted cmp l1 /\ sorted cmp l2 /\ forall a b, a ∈ l1 -> b ∈ l2 -> cmp a b < 0.
Proof.
  unfold sorted. induction l1 as [|x l1 IH]; cbn.
  - split; [intros H; split_and!; [constructor | done | by intros ? ? ?%elem_of_nil] | by intros (_ & H & _)].
  - split.
    + intros [H1 H2]%StronglySorted_inv. apply IH in H1 as (H1 & H3 & H4). apply Forall_app in H2 as [H5 H6].
      split_and!; [by constructor | done|]. rewrite Forall_forall in H6.
      intros a b [->|Ha]%elem_of_cons Hb; auto.
    + intros ([H1 H2]%StronglySorted_inv & H3 & H4). constructor.
      * apply IH. split_and!; [done | done|]. intros a b Ha Hb. apply H4; [by right | done].
      * apply Forall_app. split; [done|]. apply Forall_forall. intros b Hb. apply H4; [by left | done].
Qed.

Lemma sorted_cons cmp a l : sorted cmp (a :: l) <-> (forall b, b ∈ l -> cmp a b < 0) /\ sorted cmp l.
Proof.
  unfold sorted. split.
  - intros [H1 H2]%StronglySorted_inv. rewrite Forall_forall in H2. done.
  - intros [H1 H2]. constructor; [done|]. by apply Forall_forall.
Qed.

(** The way down to a place is the one that the key takes. *)
Fixpoint follows (cmp : Z -> Z -> Z) (key : Z) (c : ctx) : Prop :=
  match c with
  | [] => True
  | FL p _ _ :: c => 0 < cmp p key /\ follows cmp key c
  | FR _ p _ :: c => cmp p key < 0 /\ follows cmp key c
  end.

(** What is left of the place is smaller than the key, and what is right of it larger. *)
Lemma follows_sides cmp `{!Order cmp} key c t :
  follows cmp key c -> sorted cmp (elems (plug c t)) ->
  (forall a, a ∈ cleft c -> cmp a key < 0) /\ (forall a, a ∈ cright c -> 0 < cmp a key).
Proof.
  revert t. induction c as [|f c IH]; intros t Hf Hs; [split; by intros a ?%elem_of_nil|].
  destruct f as [p b r|l p b]; cbn in Hf; destruct Hf as [Hp Hf]; destruct (IH (fill _ t) Hf Hs) as [HL HR];
    rewrite elems_plug in Hs; cbn in Hs |- *.
  - split; [done|]. apply sorted_app in Hs as (_ & Hs & _).
    apply sorted_app in Hs as (_ & [Hpr _]%sorted_cons & _).
    intros a [->|[Ha|Ha]%elem_of_app]%elem_of_cons; [done | | auto]. apply (cmp_gt cmp). apply (cmp_gt cmp) in Hp.
    eapply cmp_trans; [done|]. apply Hpr. set_solver.
  - split; [|done]. rewrite <- app_assoc in Hs. apply sorted_app in Hs as (_ & Hs & _).
    rewrite <- app_assoc in Hs. apply sorted_app in Hs as (_ & _ & Hlp).
    intros a [Ha|[Ha| ->%list_elem_of_singleton]%elem_of_app]%elem_of_app; [auto | | done].
    eapply cmp_trans; [|done]. apply Hlp; [done | by left].
Qed.

(** ** Searching *)

(** The nearest node above a place that is not balanced, or the root. *)
Fixpoint unb (c : ctx) : Z :=
  match c with
  | [] => 0
  | [f] => fptr f
  | f :: c => if fbal f =? 0 then unb c else fptr f
  end.

Lemma unb_cons f c : unb (f :: c) = if fbal f =? 0 then match c with [] => fptr f | _ => unb c end else fptr f.
Proof. destruct c as [|g c]; cbn; by destruct (fbal f =? 0). Qed.

(** What [do_lookup] knows at a place: the node above it, the nearest unbalanced one, which
    is the root [rt] when there is none, and the side. *)
Definition known (rt : Z) (c : ctx) (x : found_at) : Prop :=
  pparent x = cptr c /\ unbalanced x = match c with [] => rt | _ => unb c end /\ is_left x = is_FL c.

Section search.
Context (cmp : Z -> Z -> Z) `{HO : !Order cmp}.

Lemma lookup_loop_spec k key s c t x :
  at_place s c t -> follows cmp key c -> known (root_of c (ptr t)) c x -> ht t <= Z.of_nat k ->
  (exists c' l p b r x', lookup_loop cmp k key (ptr t) x s = done (p, x', s)
     /\ plug c' (Node l p b r) = plug c t /\ cmp p key = 0 /\ follows cmp key c')
  \/ (exists c' x', lookup_loop cmp k key (ptr t) x s = done (0, x', s)
     /\ plug c' Leaf = plug c t /\ at_place s c' Leaf /\ follows cmp key c' /\ known (root_of c' 0) c' x').
Proof.
  revert k c x. induction t as [|l IHl p b r IHr]; intros k c x Hat Hf Hx Hk.
  - right. exists c, x. split_and!; [|done..]. by destruct k.
  - pose proof (at_node _ _ _ _ _ _ Hat) as ([Hp0 _] & Hb & Hlk & Hh). pose proof (ht_nonneg l). pose proof (ht_nonneg r).
    cbn in Hk. destruct k as [|k]; [lia|]. cbn [lookup_loop ptr]. rewrite (proj2 (Z.eqb_neq p 0)) by lia.
    rewrite (bind_done _ _ _ _ _ (get_balance_ok s p _ _ _ _ Hh Hlk Hb)). cbv zeta.
    set (x1 := if b =? 0 then x else _).
    assert (forall (f : frame), fptr f = p -> fbal f = b ->
      match f :: c with [] => root_of c p | _ => unb (f :: c) end = unbalanced x1) as Hu.
    { intros f Hfp Hfb. destruct Hx as (_ & Hx & _). cbn [ptr] in Hx. rewrite unb_cons, Hfb. unfold x1.
      destruct (b =? 0); [|done]. rewrite Hx. by destruct c. }
    destruct (Z.eqb_spec (cmp p key) 0) as [E0|E0].
    { left. exists c, l, p, b, r, x1. by split_and!. }
    cbn [is_left]. destruct (Z.ltb_spec 0 (cmp p key)) as [Hlt|Hge].
    + rewrite (bind_done _ _ _ _ _ (get_left_ok s p _ Hh)). cbn [left].
      apply (IHl k (FL p b r :: c)); [by apply (at_fill s (FL p b r)) | by split | | lia].
      split_and!; [done | | done]. cbn [unbalanced]. symmetry. by apply (Hu (FL p b r)).
    + rewrite (bind_done _ _ _ _ _ (get_right_ok s p _ Hh)). cbn [right].
      apply (IHr k (FR l p b :: c)); [by apply (at_fill s (FR l p b)) | split; [lia | done] | | lia].
      split_and!; [done | | done]. cbn [unbalanced]. symmetry. by apply (Hu (FR l p b)).
Qed.

Lemma do_lookup_spec fuel key s t :
  at_place s [] t -> ht t <= Z.of_nat fuel ->
  (exists c' l p b r x', do_lookup cmp fuel key s = done (p, x', s)
     /\ plug c' (Node l p b r) = t /\ cmp p key = 0 /\ follows cmp key c')
  \/ (exists c' x', do_lookup cmp fuel key s = done (0, x', s)
     /\ plug c' Leaf = t /\ at_place s c' Leaf /\ follows cmp key c' /\ known (root_of c' 0) c' x').
Proof.
  intros Hat Hf. unfold do_lookup. rewrite (bind_done get_tree _ s (tree s) s) by done.
  pose proof Hat as [_ _ Hr _]. cbn in Hr. rewrite Hr.
  by apply (lookup_loop_spec fuel key s [] t).
Qed.

End search.

(** ** The balances above the new node *)

(** The balance of a node after the tree in the hole has grown. *)
Definition bump (f : frame) : frame := match f with FL p b r => FL p (b - 1) r | FR l p b => FR l p (b + 1) end.

Lemma bump_fptr f : fptr (bump f) = fptr f. Proof. by destruct f. Qed.
Lemma bump_cptr c : cptr (map bump c) = cptr c. Proof. destruct c as [|f c]; [done|]. apply bump_fptr. Qed.

Lemma bump_step s0 N s f c t :
  now s0 N s (f :: c) t -> t <> Leaf -> -1 <= fbal f <= 1 ->
  exists s' b, (l ← get_left (fptr f); if l =? ptr t then dec_balance (fptr f) else inc_balance (fptr f)) s = done (b, s')
  /\ now s0 N s' (bump f :: c) t /\ tree s' = tree s.
Proof.
  intros Hnow Ht Hb. destruct t as [|l p bt r]; [done|]. destruct f as [g b rg|lg g b]; cbn [fptr fbal] in *.
  - pose proof (proj1 (now_fill _ _ _ _ _ _) Hnow) as Hg. cbn [fill] in Hg.
    rewrite (bind_done _ _ _ _ _ (now_left _ _ _ _ _ _ _ _ Hg)). cbn [ptr]. rewrite Z.eqb_refl.
    destruct (now_add_balance _ _ _ _ _ _ _ _ (-1) Hg) as (s' & E & Hn & Ht'); [lia|].
    exists s', (b + -1). split_and!; [exact E | by apply now_fill | done].
  - pose proof Hnow as (Hat & _ & _). pose proof (at_other_side _ _ _ _ _ _ _ _ _ _ Hat eq_refl) as Hne.
    pose proof (proj1 (now_fill _ _ _ _ _ _) Hnow) as Hg. cbn [fill] in Hg.
    rewrite (bind_done _ _ _ _ _ (now_left _ _ _ _ _ _ _ _ Hg)). cbn [ptr]. rewrite (proj2 (Z.eqb_neq _ _) Hne).
    destruct (now_add_balance _ _ _ _ _ _ _ _ 1 Hg) as (s' & E & Hn & Ht'); [lia|].
    exists s', (b + 1). split_and!; [exact E | by apply now_fill | done].
Qed.

(** Distinct frames have distinct nodes. *)
Lemma fptr_ne s c1 f c g t : at_place s (f :: c1 ++ g :: c) t -> fptr f <> fptr g.
Proof.
  intros [_ _ _ Hn] E. apply NoDup_app in Hn as (_ & _ & Hn). unfold cnodes in Hn. cbn in Hn.
  apply NoDup_app in Hn as (_ & Hd & _). apply (Hd (fptr f)); [destruct f; by left|].
  rewrite E, map_app, concat_app. apply elem_of_app. right. cbn. destruct g; by left.
Qed.

Lemma insert_up_spec s0 N c1 fu c2 k s t :
  now s0 N s (c1 ++ fu :: c2) t -> t <> Leaf -> Forall (fun f => fbal f = 0) c1 -> -1 <= fbal fu <= 1 ->
  (List.length c1 < k)%nat ->
  exists s', insert_up k (ptr t) (cptr (c1 ++ fu :: c2)) (fptr fu) s = done (tt, s')
  /\ now s0 N s' (map bump c1 ++ bump fu :: c2) t /\ tree s' = tree s.
Proof.
  intros Hnow Ht Hz Hb. revert k s t Hnow Ht Hz. induction c1 as [|f c1 IH]; intros k s t Hnow Ht Hz Hk;
    cbn [List.length] in Hk; (destruct k as [|k]; [lia|]); cbn [app cptr map insert_up].
  - destruct (bump_step _ _ _ _ _ _ Hnow Ht Hb) as (s1 & b & E1 & Hn1 & Ht1). exists s1. split_and!; [|done|done].
    apply bind_inv in E1 as (l & s1' & El & E1). rewrite (bind_done _ _ _ _ _ El), (bind_done _ _ _ _ _ E1).
    by rewrite Z.eqb_refl.
  - apply Forall_cons in Hz as [Hz1 Hz]. pose proof Hnow as (Hat & _ & _).
    destruct (bump_step _ _ _ _ _ _ Hnow Ht) as (s1 & b & E1 & Hn1 & Ht1); [lia|].
    pose proof (fptr_ne _ _ _ _ _ _ Hat) as Hne.
    rewrite app_comm_cons in Hn1. pose proof (proj1 (now_fill _ _ _ _ _ _) Hn1) as Hg.
    destruct (IH k s1 (fill (bump f) t)) as (s2 & E2 & Hn2 & Ht2); [done | by destruct f | done | lia |].
    exists s2. split_and!; [|by apply now_fill | congruence].
    apply bind_inv in E1 as (l & s1' & El & E1). rewrite (bind_done _ _ _ _ _ El), (bind_done _ _ _ _ _ E1).
    rewrite (proj2 (Z.eqb_neq _ _) Hne).
    erewrite bind_done; [|destruct f; apply (now_parent _ _ _ _ _ _ _ _ Hg)].
    assert (ptr (fill (bump f) t) = fptr f) as Ep by (by destruct f). rewrite Ep in E2. done.
Qed.

(** ** Restoring the balance *)

(** The tree after a single or a double rotation of a node [p] whose right, or left, subtree
    [g] is too high. *)
Definition fix_right (l : tr) (p : Z) (g : tr) : tr :=
  match g with
  | Leaf => Leaf
  | Node m q bq r =>
      if bq =? 1 then Node (Node l p 0 m) q 0 r
      else match m with
           | Leaf => Leaf
           | Node x y by_ z => Node (Node l p (upper by_) x) y 0 (Node z q (lower by_) r)
           end
  end.

Definition fix_left (g : tr) (p : Z) (r : tr) : tr :=
  match g with
  | Leaf => Leaf
  | Node l q bq m =>
      if bq =? -1 then Node l q 0 (Node m p 0 r)
      else match m with
           | Leaf => Leaf
           | Node x y by_ z => Node (Node l q (upper by_) x) y 0 (Node z p (lower by_) r)
           end
  end.

(** [g] leans to a side. *)
Definition leans (g : tr) : Prop := match g with Leaf => False | Node _ _ b _ => b <> 0 end.

Lemma fix_right_balanced l p g : balanced l -> balanced g -> ht g = ht l + 2 -> leans g ->
  balanced (fix_right l p g) /\ ht (fix_right l p g) = ht g.
Proof.
  intros Hl Hg Hh Hle. destruct g as [|m q bq r]; [done|]. cbn in Hg, Hh, Hle |- *. destruct Hg as (Eb & Hb & Hm & Hr).
  destruct (Z.eqb_spec bq 1) as [->|Hne]; [cbn; split_and!; try done; lia|].
  destruct m as [|x y by_ z]; cbn in *; [pose proof (ht_nonneg r); pose proof (ht_nonneg l); lia|].
  destruct Hm as (Eby & Hby & Hx & Hz). unfold upper, lower.
  destruct (Z.eqb_spec by_ 1), (Z.eqb_spec by_ (-1)); split_and!; try done; lia.
Qed.

Lemma fix_left_balanced g p r : balanced r -> balanced g -> ht g = ht r + 2 -> leans g ->
  balanced (fix_left g p r) /\ ht (fix_left g p r) = ht g.
Proof.
  intros Hr Hg Hh Hle. destruct g as [|l q bq m]; [done|]. cbn in Hg, Hh, Hle |- *. destruct Hg as (Eb & Hb & Hl & Hm).
  destruct (Z.eqb_spec bq (-1)) as [->|Hne]; [cbn; split_and!; try done; lia|].
  destruct m as [|x y by_ z]; cbn in *; [pose proof (ht_nonneg r); pose proof (ht_nonneg l); lia|].
  destruct Hm as (Eby & Hby & Hx & Hz). unfold upper, lower.
  destruct (Z.eqb_spec by_ 1), (Z.eqb_spec by_ (-1)); split_and!; try done; lia.
Qed.

(** The inner node of a double rotation. *)
Lemma leans_inner_right l g : balanced g -> ht g = ht l + 2 -> leans g ->
  exists m q bq r, g = Node m q bq r /\ (bq = 1 \/ bq = -1 /\ exists x y by_ z, m = Node x y by_ z /\ -1 <= by_ <= 1).
Proof.
  intros Hg Hh Hle. destruct g as [|m q bq r]; [done|]. cbn in *. destruct Hg as (Eb & Hb & Hm & Hr).
  exists m, q, bq, r. split; [done|]. destruct (decide (bq = 1)) as [->|]; [by left|]. right. split; [lia|].
  destruct m as [|x y by_ z]; cbn in *; [pose proof (ht_nonneg r); pose proof (ht_nonneg l); lia|].
  exists x, y, by_, z. destruct Hm as (_ & Hby & _). done.
Qed.

Lemma leans_inner_left g r : balanced g -> ht g = ht r + 2 -> leans g ->
  exists l q bq m, g = Node l q bq m /\ (bq = -1 \/ bq = 1 /\ exists x y by_ z, m = Node x y by_ z /\ -1 <= by_ <= 1).
Proof.
  intros Hg Hh Hle. destruct g as [|l q bq m]; [done|]. cbn in *. destruct Hg as (Eb & Hb & Hl & Hm).
  exists l, q, bq, m. split; [done|]. destruct (decide (bq = -1)) as [->|]; [by left|]. right. split; [lia|].
  destruct m as [|x y by_ z]; cbn in *; [pose proof (ht_nonneg r); pose proof (ht_nonneg l); lia|].
  exists x, y, by_, z. destruct Hm as (_ & Hby & _). done.
Qed.

(** The two branches of the code on the right child [q] of [p], with balance [bq], and the
    rotation after them. *)
Lemma now_fix_right s0 N s c l p b g : now s0 N s c (Node l p b g) ->
  balanced g -> ht g = ht l + 2 -> leans g ->
  exists m q bq r, g = Node m q bq r /\ (bq = 1 \/ bq = -1) /\
  exists s', (_ ← (if bq =? 1 then _ ← set_balance 0 p; set_balance 0 q else double_right p q); rotate_left p) s
    = done (tt, s') /\ now s0 N s' c (fix_right l p g).
Proof.
  intros Hnow Hg Hh Hle. destruct (leans_inner_right l g Hg Hh Hle) as (m & q & bq & r & -> & Hcase).
  exists m, q, bq, r. split; [done|]. split; [naive_solver|].
  destruct Hcase as [->|(-> & x & y & by_ & z & -> & Hby)]; cbn [fix_right Z.eqb].
  - destruct (now_balance _ _ _ _ _ _ _ _ 0 Hnow) as (s1 & E1 & Hn1 & _); [lia|]. apply now_to_right in Hn1.
    destruct (now_balance _ _ _ _ _ _ _ _ 0 Hn1) as (s2 & E2 & Hn2 & _); [lia|]. apply now_to_right in Hn2.
    destruct (now_rotate_left _ _ _ _ _ _ _ _ _ _ _ Hn2) as (s3 & E3 & Hn3). exists s3. split; [|done].
    erewrite bind_done; [exact E3|]. rewrite Pos.eqb_refl. by rewrite (bind_done _ _ _ _ _ E1).
  - destruct (now_double_right _ _ _ _ _ _ _ _ _ _ _ _ _ _ Hnow Hby) as (s1 & E1 & Hn1).
    destruct (now_rotate_left _ _ _ _ _ _ _ _ _ _ _ Hn1) as (s2 & E2 & Hn2). exists s2. split; [|done].
    erewrite bind_done; [exact E2|]. exact E1.
Qed.

Lemma now_fix_left s0 N s c g p b r : now s0 N s c (Node g p b r) ->
  balanced g -> ht g = ht r + 2 -> leans g ->
  exists l q bq m, g = Node l q bq m /\ (bq = 1 \/ bq = -1) /\
  exists s', (_ ← (if bq =? -1 then _ ← set_balance 0 p; set_balance 0 q else double_left p q); rotate_right p) s
    = done (tt, s') /\ now s0 N s' c (fix_left g p r).
Proof.
  intros Hnow Hg Hh Hle. destruct (leans_inner_left g r Hg Hh Hle) as (l & q & bq & m & -> & Hcase).
  exists l, q, bq, m. split; [done|]. split; [naive_solver|].
  destruct Hcase as [->|(-> & x & y & by_ & z & -> & Hby)]; cbn [fix_left Z.eqb].
  - destruct (now_balance _ _ _ _ _ _ _ _ 0 Hnow) as (s1 & E1 & Hn1 & _); [lia|]. apply now_to_left in Hn1.
    destruct (now_balance _ _ _ _ _ _ _ _ 0 Hn1) as (s2 & E2 & Hn2 & _); [lia|]. apply now_to_left in Hn2.
    destruct (now_rotate_right _ _ _ _ _ _ _ _ _ _ _ Hn2) as (s3 & E3 & Hn3). exists s3. split; [|done].
    erewrite bind_done; [exact E3|]. rewrite Pos.eqb_refl. by rewrite (bind_done _ _ _ _ _ E1).
  - destruct (now_double_left _ _ _ _ _ _ _ _ _ _ _ _ _ _ Hnow Hby) as (s1 & E1 & Hn1).
    destruct (now_rotate_right _ _ _ _ _ _ _ _ _ _ _ Hn1) as (s2 & E2 & Hn2). exists s2. split; [|done].
    erewrite bind_done; [exact E2|]. exact E1.
Qed.

(** ** The tree that has grown *)

Lemma split_unb c : c <> [] ->
  exists c1 fu c2, c = c1 ++ fu :: c2 /\ Forall (fun f => fbal f = 0) c1 /\ fptr fu = unb c /\ (fbal fu <> 0 \/ c2 = []).
Proof.
  induction c as [|f c IH]; [done|]. intros _. rewrite unb_cons. destruct (Z.eqb_spec (fbal f) 0) as [E|E].
  - destruct c as [|g c]; [exists [], f, []; by split_and!; [..|right]|].
    destruct IH as (c1 & fu & c2 & -> & Hz & Hp & Hb); [done|]. exists (f :: c1), fu, c2. split_and!; try done. by constructor.
  - exists [], f, c. split_and!; try done. by left.
Qed.

(** Nodes with balance zero above a tree that has grown: the tree grows on. *)
Lemma path_grow c t t' :
  Forall (fun f => fbal f = 0) c -> cok c (ht t) -> balanced t' -> ht t' = ht t + 1 ->
  balanced (plug (map bump c) t') /\ ht (plug (map bump c) t') = ht (plug c t) + 1
  /\ (c <> [] -> leans (plug (map bump c) t')).
Proof.
  revert t t'. induction c as [|f c IH]; intros t t' Hz Hc Ht' Hh; [done|].
  apply Forall_cons in Hz as [Hz1 Hz]. destruct Hc as [Hf Hc]. cbn [map plug foldl].
  fold (plug c (fill f t)). fold (plug (map bump c) (fill (bump f) t')).
  assert (balanced (fill (bump f) t') /\ ht (fill (bump f) t') = ht (fill f t) + 1 /\ leans (fill (bump f) t')) as (H1 & H2 & H3).
  { unfold fok in Hf. destruct f as [p b r|l p b]; cbn in *; destruct Hf as (-> & _ & Hs);
      (split_and!; [lia | lia | lia | done | done | lia | lia]). }
  destruct (IH (fill f t) (fill (bump f) t')) as (G1 & G2 & G3); [done | by rewrite ht_fill | done | done|].
  split_and!; [done | done|]. intros _. destruct c; [done | by apply G3].
Qed.

Lemma insert_fix_same s0 N s c f g h :
  now s0 N s c (fill (bump f) g) -> fok f h -> balanced g -> ht g = h + 1 -> 0 <= h -> (0 < h -> leans g) -> fbal f <> 0 ->
  exists s' t', insert_fix (fptr f) s = done (tt, s') /\ now s0 N s' c t' /\ balanced t' /\ ht t' = ftop f h.
Proof.
  intros Hnow (Hf & Hb & Hs) Hg Hh Hh0 Hle Hne. unfold ftop, insert_fix.
  destruct f as [p b r|l p b]; cbn [bump fill fptr fbal fside] in *;
    rewrite (bind_done _ _ _ _ _ (now_get_balance _ _ _ _ _ _ _ _ Hnow)).
  - pose proof (ht_nonneg r). destruct (Z.eqb_spec b 1) as [->|Hb1].
    { exists s, (Node g p 0 r). split_and!; [done | done | cbn; split_and!; try done; lia | cbn; lia]. }
    assert (b = -1) as -> by lia. change (-1 - 1) with (-2) in *. cbn [Z.eqb Pos.eqb orb].
    rewrite (bind_done _ _ _ _ _ (now_left _ _ _ _ _ _ _ _ Hnow)).
    destruct (now_fix_left _ _ _ _ _ _ _ _ Hnow) as (l & q & bq & m & -> & Hbq & s' & E & Hn'); [done | lia | apply Hle; lia|].
    destruct (fix_left_balanced (Node l q bq m) p r) as [Hbal Hht]; [done | done | lia | apply Hle; lia|].
    exists s', (fix_left (Node l q bq m) p r). split_and!; [|done|done|lia].
    cbn [ptr]. erewrite bind_done; [exact E|]. apply (now_get_balance _ _ _ _ _ _ _ _ (proj1 (now_to_left _ _ _ _ _ _ _ _) Hnow)).
  - pose proof (ht_nonneg l). destruct (Z.eqb_spec b (-1)) as [->|Hb1].
    { exists s, (Node l p 0 g). split_and!; [done | done | cbn; split_and!; try done; lia | cbn; lia]. }
    assert (b = 1) as -> by lia. change (1 + 1) with 2 in *. cbn [Z.eqb Pos.eqb orb].
    rewrite (bind_done _ _ _ _ _ (now_right _ _ _ _ _ _ _ _ Hnow)).
    destruct (now_fix_right _ _ _ _ _ _ _ _ Hnow) as (m & q & bq & r & -> & Hbq & s' & E & Hn'); [done | lia | apply Hle; lia|].
    destruct (fix_right_balanced l p (Node m q bq r)) as [Hbal Hht]; [done | done | lia | apply Hle; lia|].
    exists s', (fix_right l p (Node m q bq r)). split_and!; [|done|done|lia].
    cbn [ptr]. erewrite bind_done; [exact E|]. apply (now_get_balance _ _ _ _ _ _ _ _ (proj1 (now_to_right _ _ _ _ _ _ _ _) Hnow)).
Qed.

Lemma insert_fix_grows s0 N s c f g h :
  now s0 N s c (fill (bump f) g) -> fok f h -> balanced g -> ht g = h + 1 -> fbal f = 0 ->
  insert_fix (fptr f) s = done (tt, mk_state (heap s) (set_height (height (tree s) + 1) (tree s)))
  /\ balanced (fill (bump f) g) /\ ht (fill (bump f) g) = ftop f h + 1.
Proof.
  intros Hnow (Hf & Hb & Hs) Hg Hh Hz. unfold ftop, insert_fix.
  destruct f as [p b r|l p b]; cbn [bump fill fptr fbal fside] in *; rewrite Hz in Hf, Hnow |- *;
    rewrite (bind_done _ _ _ _ _ (now_get_balance _ _ _ _ _ _ _ _ Hnow));
    (split; [done|]); (split; [cbn; split_and!; try done; lia | cbn; lia]).
Qed.

(** ** The whole tree *)

(** The state holds the tree [t]: it is balanced and sorted, and the fields of the tree are
    right. *)
Record wf (cmp : Z -> Z -> Z) (s : state) (t : tr) : Prop := {
  wf_at : at_place s [] t;
  wf_balanced : balanced t;
  wf_sorted : sorted cmp (elems t);
  wf_first : first (tree s) = List.hd 0 (elems t);
  wf_last : last (tree s) = List.last (elems t) 0;
  wf_size : size (tree s) = u64 (zlen (elems t));
  wf_height : height (tree s) = ht t - 1
}.

(** A place does not depend on the other fields of the tree. *)
Lemma at_tree s c t T : at_place s c t -> root T = root (tree s) -> at_place (mk_state (heap s) T) c t.
Proof. intros [H1 H2 H3 H4] E. split; try done. cbn. congruence. Qed.

Lemma now_start s c t : at_place s c t -> now s (elems (plug c t)) s c t.
Proof. intros H. split_and!; [done | done | apply moved_refl]. Qed.

(** The new node is linked in at a place. *)
Lemma insert_link s c n v :
  at_place s c Leaf -> addr n -> n ∉ cnodes c -> heap s !! n = Some v -> c <> [] ->
  exists s', (_ ← set_parent (cptr c) n; set_child n (cptr c) (is_FL c)) (mk_state (<[n := mk_node 0 0 2]> (heap s)) (tree s))
    = done (tt, s') /\ at_place s' c (Node Leaf n 0 Leaf) /\ tree s' = tree s
  /\ (forall a, a ∉ n :: cnodes c -> heap s' !! a = heap s !! a).
Proof.
  intros [_ Hc Hr Hn] Ha Hnot Hv Hne. cbn [ptr elems app] in *.
  set (s1 := mk_state (<[n := mk_node 0 0 2]> (heap s)) (tree s)).
  set (s2 := mk_state (<[n := mk_node 0 0 (pack (cptr c) 0)]> (heap s1)) (tree s1)).
  assert (rep_ctx (heap s2) c 0) as Hc2.
  { eapply rep_ctx_ext; [|exact Hc]. intros a Hin. unfold s2, s1. cbn. by rewrite !lookup_insert_ne by (by intros ->). }
  exists (relink s2 c n). split_and!.
  - erewrite bind_done; [by apply (set_child_ok s2 c 0)|]. unfold s2.
    apply (set_parent_ok s1 n 0 0 0 0); [by apply lookup_insert_eq | apply link_0 | lia | by eapply cptr_link].
  - split.
    + cbn. split_and!; try done; try lia. rewrite relink_other by done. unfold s2. cbn. by rewrite lookup_insert_eq.
    + by apply (relink_ctx s2 c 0).
    + by apply (relink_root s2 c 0).
    + cbn. by constructor.
  - by destruct c as [|[] c].
  - intros a Hin. rewrite relink_other by set_solver. unfold s2, s1. cbn. rewrite !lookup_insert_ne by set_solver. done.
Qed.

(** After the new node is linked in, the balances are repaired. *)
Lemma insert_repair fuel s c n :
  at_place s c (Node Leaf n 0 Leaf) -> cok c 0 -> c <> [] -> Z.of_nat (List.length c) <= Z.of_nat fuel ->
  exists s' t', (_ ← insert_up fuel n (cptr c) (unb c); _ ← on_tree incr_size; insert_fix (unb c)) s = done (tt, s')
  /\ at_place s' [] t' /\ balanced t' /\ elems t' = cleft c ++ n :: cright c
  /\ (forall a, a ∉ elems t' -> heap s' !! a = heap s !! a)
  /\ tree s' = mk_avl (root (tree s')) (height (tree s) + (ht t' - ht (plug c Leaf))) (first (tree s)) (last (tree s))
                 (u64 (size (tree s) + 1)).
Proof.
  intros Hat Hok Hne Hf. destruct (split_unb c Hne) as (c1 & fu & c2 & -> & Hz & <- & Hbal).
  set (t0 := Node Leaf n 0 Leaf) in *.
  assert (cok c1 0 /\ cok (fu :: c2) (ht (plug c1 Leaf))) as [Hok1 [Hfu Hok2]].
  { pose proof (proj2 (balanced_plug (c1 ++ fu :: c2) Leaf) (conj I Hok)) as Hb. rewrite plug_app in Hb.
    apply balanced_plug in Hb as [Hb1 Hb2]. by apply balanced_plug in Hb1 as [_ Hb1]. }
  destruct (path_grow c1 Leaf t0) as (Hg & Hhg & Hlg); [done | done | by cbn | done|].
  set (g := plug (map bump c1) t0) in *. set (h := ht (plug c1 Leaf)) in *. pose proof (ht_nonneg (plug c1 Leaf)) as Hh0. fold h in Hh0.
  assert (-1 <= fbal fu <= 1) as Hfb by apply Hfu.
  destruct (insert_up_spec s _ c1 fu c2 fuel s t0 (now_start _ _ _ Hat)) as (s1 & E1 & Hn1 & Ht1); [done | done | done | |].
  { rewrite length_app in Hf. cbn in Hf. lia. }
  assert (plug (map bump c1 ++ bump fu :: c2) t0 = plug c2 (fill (bump fu) g)) as Epl by (by rewrite plug_app).
  set (N := elems (plug (c1 ++ fu :: c2) t0)) in *.
  assert (N = cleft (c1 ++ fu :: c2) ++ n :: cright (c1 ++ fu :: c2)) as EN by (unfold N; by rewrite elems_plug).
  set (s2 := mk_state (heap s1) (incr_size (tree s1))).
  destruct Hn1 as (Hat1 & Hel1 & [Hmv1 _]).
  assert (now s2 N s2 c2 (fill (bump fu) g)) as Hn2.
  { split_and!; [|by rewrite <- Epl | apply moved_refl]. apply at_tree; [|by unfold incr_size].
    apply at_plug. rewrite <- Epl. by apply at_plug. }
  assert (0 < h -> leans g) as Hlean.
  { intros Hpos. apply Hlg. intros ->. cbn in h. lia. }
  assert (ht (plug (c1 ++ fu :: c2) Leaf) = ht (plug c2 (fill fu (plug c1 Leaf)))) as Eht by (by rewrite plug_app).
  assert (tree s2 = mk_avl (root (tree s)) (height (tree s)) (first (tree s)) (last (tree s)) (u64 (size (tree s) + 1))) as Et2.
  { unfold s2, incr_size. cbn. by rewrite Ht1. }
  destruct (decide (fbal fu = 0)) as [Hz0|Hnz].
  - destruct Hbal as [?| ->]; [done|].
    destruct (insert_fix_grows _ _ _ _ _ _ h Hn2) as (E2 & Hb2 & Hh2); [done..|].
    eexists _, (fill (bump fu) g). split_and!.
    + rewrite (bind_done _ _ _ _ _ E1), (bind_done (on_tree incr_size) _ s1 tt s2) by done. exact E2.
    + apply at_tree; [apply Hn2 | done].
    + done.
    + rewrite <- EN. apply Hn2.
    + intros a Hin. cbn. apply Hmv1. destruct Hn2 as (_ & Hel & _). cbn in Hel. by rewrite <- Hel.
    + cbn [tree]. rewrite Et2. unfold set_height. cbn [root height first last size]. rewrite Hh2, Eht. cbn [plug foldl].
      rewrite ht_fill. fold (plug c1 Leaf). fold h. f_equal. lia.
  - destruct (insert_fix_same _ _ _ _ _ _ h Hn2) as (s3 & t' & E2 & (Hat3 & Hel3 & [Hmv3 Ht3]) & Hb3 & Hh3); [done..|].
    exists s3, (plug c2 t'). split_and!.
    + rewrite (bind_done _ _ _ _ _ E1), (bind_done (on_tree incr_size) _ s1 tt s2) by done. exact E2.
    + by apply at_plug.
    + apply balanced_plug. split; [done|]. rewrite Hh3. done.
    + by rewrite Hel3.
    + intros a Hin. rewrite Hel3 in Hin. rewrite Hmv3 by done. unfold s2. cbn. by apply Hmv1.
    + rewrite Ht3, Et2. unfold set_root. cbn [root height first last size]. f_equal. rewrite Eht.
      rewrite (ht_plug_ext c2 t' (fill fu (plug c1 Leaf))); [lia|]. by rewrite Hh3, ht_fill.
Qed.

(** The first and the last node when a node [n] comes in at a place. *)
Lemma ends_at c n : c <> [] -> NoDup (cleft c ++ cright c) ->
  let N := cleft c ++ cright c in
  let N' := cleft c ++ n :: cright c in
  if is_FL c
  then List.hd 0 N' = (if cptr c =? List.hd 0 N then n else List.hd 0 N) /\ List.last N' 0 = List.last N 0
  else List.hd 0 N' = List.hd 0 N /\ List.last N' 0 = (if cptr c =? List.last N 0 then n else List.last N 0).
Proof.
  intros Hne Hnd. destruct c as [|[p b r|l p b] c]; [done|..]; cbn [is_FL cptr fptr cleft cright] in *; cbv zeta.
  - split.
    + destruct (cleft c) as [|x L]; cbn; [by rewrite Z.eqb_refl|].
      destruct (Z.eqb_spec p x) as [->|]; [|done]. exfalso. cbn in Hnd. apply NoDup_cons in Hnd as [Hnd _]. set_solver.
    + destruct (exists_last (l := p :: elems r ++ cright c)) as (L & x & ->); [done|]. by rewrite app_comm_cons, !app_assoc, !last_last.
  - rewrite <- !app_assoc in *. cbn [app] in *. split; [by destruct (cleft c); cbn; [destruct (elems l)|]|].
    destruct (decide (cright c = [])) as [->|Hr].
    + replace (cleft c ++ elems l ++ [p; n]) with ((cleft c ++ elems l ++ [p]) ++ [n]) by (by rewrite <- !app_assoc).
      rewrite last_last, !app_assoc, last_last. by rewrite Z.eqb_refl.
    + destruct (exists_last Hr) as (L & x & E). rewrite E in *.
      replace (cleft c ++ elems l ++ p :: n :: L ++ [x]) with ((cleft c ++ elems l ++ p :: n :: L) ++ [x]) by (by rewrite <- !app_assoc).
      replace (cleft c ++ elems l ++ p :: L ++ [x]) with ((cleft c ++ elems l ++ p :: L) ++ [x]) in * by (by rewrite <- !app_assoc).
      rewrite !last_last. destruct (Z.eqb_spec p x) as [->|]; [|done]. exfalso. apply NoDup_app in Hnd as (_ & Hx & _).
      apply (Hx x); set_solver.
Qed.

Lemma wf_nodup cmp s t : wf cmp s t -> NoDup (elems t).
Proof. intros [[_ _ _ H] _ _ _ _ _ _]. cbn in H. by rewrite app_nil_r in H. Qed.

Lemma u64_succ k : u64 (u64 k + 1) = u64 (k + 1).
Proof. unfold u64. by rewrite Zplus_mod_idemp_l. Qed.

(** ** The height of a tree *)

Lemma plug_length c t : Z.of_nat (List.length c) + ht t <= ht (plug c t).
Proof.
  revert t. induction c as [|f c IH]; intros t; [cbn; lia|]. specialize (IH (fill f t)). rewrite ht_fill in IH. unfold ftop in IH.
  cbn [List.length plug foldl]. fold (plug c (fill f t)). lia.
Qed.

(** The height is at most twice the logarithm of the number of nodes. *)
Lemma ht_log t : balanced t -> 2 ^ ht t <= (zlen (elems t) + 1) ^ 2.
Proof.
  unfold zlen. induction t as [|l IHl p b r IHr]; [done|]. intros (Hb & Hr & Hl & Hr'). specialize (IHl Hl). specialize (IHr Hr').
  cbn [ht elems]. rewrite length_app. cbn [List.length]. pose proof (ht_nonneg l) as H1. pose proof (ht_nonneg r) as H2.
  set (x := Z.of_nat (List.length (elems l))) in *. set (y := Z.of_nat (List.length (elems r))) in *.
  assert (0 <= x /\ 0 <= y) as [H3 H4] by lia. rewrite Z.pow_add_r by lia.
  assert (Z.max (ht l) (ht r) = ht l /\ (ht l = ht r \/ ht l = ht r + 1)
          \/ Z.max (ht l) (ht r) = ht r /\ (ht l = ht r \/ ht r = ht l + 1)) as Hc by lia.
  pose proof (Z.pow_pos_nonneg 2 (ht l) eq_refl H1). pose proof (Z.pow_pos_nonneg 2 (ht r) eq_refl H2).
  destruct Hc as [[-> [E|E]]|[-> [E|E]]]; rewrite E in *; try rewrite Z.pow_add_r in * by lia; rewrite ?Z.pow_2_r in *; nia.
Qed.

(** Nodes are distinct words: there are fewer than 2^61 of them. *)
Lemma few_addrs h par t : rep h par t -> NoDup (elems t) -> zlen (elems t) < 2 ^ 61.
Proof.
  intros Hr Hnd. assert (forall M l, 0 < M -> NoDup l -> (forall p : Z, p ∈ l -> 0 < p < M) -> zlen l < M) as Hpig.
  { clear. intros M l HM Hnd Hl. unfold zlen. assert (length l <= length (seqZ 1 (M - 1)))%nat as Hlen.
    { apply submseteq_length, NoDup_submseteq; [done|]. intros p Hp. apply elem_of_seqZ. specialize (Hl p Hp). lia. }
    rewrite length_seqZ in Hlen. lia. }
  replace (zlen (elems t)) with (zlen (map (fun p => p `div` 8) (elems t))) by (unfold zlen; by rewrite length_map).
  assert (forall p, p ∈ elems t -> exists q, p = 8 * q /\ p `div` 8 = q /\ 0 < q < 2 ^ 61) as Hq.
  { intros p Hp. destruct (rep_addr _ _ _ _ Hr Hp) as [H1 H2]. exists (p `div` 8). pose proof (Z_div_mod_eq_full p 8). lia. }
  apply Hpig; [done| |].
  - apply NoDup_fmap_2_strong; [|done]. intros p p' Hp Hp'. destruct (Hq p Hp) as (q & ? & -> & _), (Hq p' Hp') as (q' & ? & -> & _). lia.
  - intros q (p & -> & Hp)%list_elem_of_fmap. by destruct (Hq p Hp) as (q & _ & -> & ?).
Qed.

Lemma wf_height_bound cmp s t : wf cmp s t -> ht t <= 122.
Proof.
  intros H. pose proof (wf_nodup _ _ _ H) as Hnd. destruct H as [[Hr _ _ _] Hb _ _ _ _ _]. pose proof (few_addrs _ _ _ Hr Hnd) as Hf.
  pose proof (ht_log t Hb) as Hl. assert (0 <= zlen (elems t)) by (unfold zlen; lia).
  apply (Z.pow_le_mono_r_iff 2); [done | done|]. change (2 ^ 122) with ((2 ^ 61) * (2 ^ 61)).
  etrans; [exact Hl|]. rewrite Z.pow_2_r. nia.
Qed.

Section insertion.
Context (cmp : Z -> Z -> Z) `{HO : !Order cmp}.

(** A key that a place follows comes in there, in the order. *)
Lemma sorted_insert c n : follows cmp n c -> sorted cmp (elems (plug c Leaf)) -> sorted cmp (cleft c ++ n :: cright c).
Proof.
  intros Hf Hs. destruct (follows_sides cmp n c Leaf Hf Hs) as [HL HR]. rewrite elems_plug in Hs. cbn in Hs.
  apply sorted_app in Hs as (H1 & H2 & H3). apply sorted_app. split_and!; [done | |].
  - apply sorted_cons. split; [|done]. intros b Hb. by apply (cmp_gt cmp), HR.
  - intros a b Ha [->|Hb]%elem_of_cons; auto.
Qed.

(** The insertion of a node into the empty tree. *)
Lemma insert_first fuel s n v : wf cmp s Leaf -> addr n -> heap s !! n = Some v ->
  exists s', avltree_insert cmp fuel n s = done (0, s') /\ wf cmp s' (Node Leaf n 0 Leaf)
  /\ (forall a, a <> n -> heap s' !! a = heap s !! a).
Proof.
  intros [Hat _ _ _ _ Hsz Hh] Ha Hv. pose proof Hat as [_ _ Hr _]. cbn in Hr.
  exists (mk_state (<[n := mk_node 0 0 2]> (heap s)) (mk_avl n (height (tree s) + 1) n n (u64 (size (tree s) + 1)))).
  split_and!.
  - unfold avltree_insert. erewrite (bind_done (do_lookup cmp fuel n) _ s (0, mk_found 0 0 false) s).
    2: { unfold do_lookup. rewrite (bind_done get_tree _ s (tree s) s), Hr by done. by destruct fuel. }
    cbn [negb Z.eqb pparent]. by rewrite (bind_done (INIT_NODE n) _ s _ _ (change_ok s n v _ Hv)).
  - cbn in Hsz, Hh. constructor; cbn; try done.
    + split; cbn; try done; [|by repeat constructor; set_solver]. rewrite lookup_insert_eq. split_and!; try done; lia.
    + constructor; constructor.
    + rewrite Hsz. done.
    + lia.
  - intros a Hne. cbn. by rewrite lookup_insert_ne.
Qed.

(** The insertion of a node into a tree that has nodes, below the node at the end of [c]. *)
Lemma insert_below fuel s c x n v : wf cmp s (plug c Leaf) -> addr n -> heap s !! n = Some v -> n ∉ elems (plug c Leaf) ->
  do_lookup cmp fuel n s = done (0, x, s) -> follows cmp n c -> known (root_of c 0) c x -> c <> [] ->
  Z.of_nat (List.length c) <= Z.of_nat fuel ->
  exists s' t', avltree_insert cmp fuel n s = done (0, s') /\ wf cmp s' t' /\ elems t' = cleft c ++ n :: cright c
  /\ (forall a, a ∉ elems t' -> heap s' !! a = heap s !! a).
Proof.
  intros Hwf Ha Hv Hnot E Hfo (Hx1 & Hx2 & Hx3) Hne Hf. pose proof (wf_nodup _ _ _ Hwf) as Hnd.
  destruct Hwf as [Hat Hb Hs Hfst Hlst Hsz Hh]. pose proof (sorted_insert c n Hfo Hs) as Hso.
  rewrite elems_plug in Hnd, Hnot, Hfst, Hlst, Hsz. cbn [elems app] in Hnd, Hnot, Hfst, Hlst, Hsz.
  set (N := cleft c ++ cright c) in *. set (N' := cleft c ++ n :: cright c) in *.
  assert (cnodes c ≡ₚ N) as HN by apply cnodes_perm.
  set (T := mk_avl (root (tree s)) (height (tree s)) (List.hd 0 N') (List.last N' 0) (size (tree s))).
  set (s1 := mk_state (<[n := mk_node 0 0 2]> (heap s)) (tree s)).
  assert ((t ← get_tree; if is_left x then if pparent x =? first t then on_tree (set_first n) else mret tt
           else if pparent x =? last t then on_tree (set_last n) else mret tt) s1 = done (tt, mk_state (heap s1) T)) as E1.
  { rewrite (bind_done get_tree _ s1 (tree s) s1) by done. rewrite Hx3, Hx1, Hfst, Hlst.
    pose proof (ends_at c n Hne Hnd) as He. fold N N' in He. unfold T. destruct (tree s) as [rt h f la sz] eqn:ET. cbn in Hfst, Hlst |- *.
    destruct (is_FL c), He as [-> ->]; rewrite <- Hfst, <- Hlst.
    - destruct (cptr c =? f); unfold on_tree, s1; cbn; by rewrite ?ET.
    - destruct (cptr c =? la); unfold on_tree, s1; cbn; by rewrite ?ET. }
  apply (proj1 (at_plug s c Leaf)) in Hat. destruct (insert_link (mk_state (heap s) T) c n v) as (s3 & E3 & Hat3 & Ht3 & Hm3); try done.
  { by apply at_tree. }
  { by rewrite HN. }
  apply balanced_plug in Hb as [_ Hok].
  destruct (insert_repair fuel s3 c n Hat3 Hok Hne Hf) as (s4 & t' & E4 & Hat4 & Hb4 & Hel4 & Hm4 & Ht4).
  exists s4, t'. split_and!; [| |done|].
  - unfold avltree_insert. rewrite (bind_done _ _ _ _ _ E). cbn [negb Z.eqb].
    rewrite (bind_done (INIT_NODE n) _ s tt s1) by (by apply (change_ok s n v)).
    assert (pparent x <> 0) as Hp0. { rewrite Hx1. pose proof (at_ctx _ _ _ Hat) as Hc. by rewrite (cptr_0 _ _ _ Hc). }
    rewrite (proj2 (Z.eqb_neq _ _) Hp0). rewrite Hx2. replace (match c with [] => _ | _ => unb c end) with (unb c) by (by destruct c).
    apply bind_inv in E1 as (? & ? & E0 & E1). injection E0 as <- <-. rewrite (bind_done get_tree _ s1 (tree s1) s1) by done.
    rewrite (bind_done _ _ _ _ _ E1). apply bind_inv in E3 as ([] & s2 & E2 & E3). rewrite Hx1, Hx3.
    rewrite (bind_done (set_parent (cptr c) n) _ _ tt s2) by done. rewrite (bind_done _ _ _ _ _ E3).
    apply bind_inv in E4 as ([] & s5 & E5 & E4). rewrite (bind_done _ _ _ _ _ E5).
    apply bind_inv in E4 as ([] & s6 & E6 & E4). rewrite (bind_done _ _ _ _ _ E6). by rewrite (bind_done _ _ _ _ _ E4).
  - constructor; try done; rewrite ?Hel4, 1?Ht4, 1?Ht3; cbn [first last size height T]; try done.
    + cbn [tree size T]. rewrite Hsz, u64_succ. f_equal. unfold N, N', zlen. rewrite !length_app. cbn. lia.
    + cbn [tree height T]. lia.
  - intros a Hin. rewrite Hm4 by done. rewrite Hel4 in Hin. apply Hm3. rewrite HN. unfold N, N' in *. set_solver.
Qed.

(** The insertion of a node into an AVL tree, for every order of the keys, every tree that
    is sorted and balanced, and every node that is not in it. When a node of the tree has the
    same key, that node is returned and nothing changes. Otherwise null is returned and the
    tree has the nodes it had and the new one, it is sorted and balanced, the balance factors,
    the first and the last node, the size and the height are right, and no other memory
    changes. 122 rounds of the loops are enough for any tree. *)
Theorem insert_correct fuel s t n v :
  wf cmp s t -> (122 <= fuel)%nat -> addr n -> n ∉ elems t -> heap s !! n = Some v ->
  (exists p, p ∈ elems t /\ cmp p n = 0 /\ avltree_insert cmp fuel n s = done (p, s))
  \/ ((forall p, p ∈ elems t -> cmp p n <> 0) /\
      exists s' t', avltree_insert cmp fuel n s = done (0, s') /\ wf cmp s' t' /\ elems t' ≡ₚ n :: elems t
        /\ forall a, a ∉ elems t' -> heap s' !! a = heap s !! a).
Proof.
  intros Hwf Hfuel Ha Hn Hv. pose proof (wf_height_bound _ _ _ Hwf) as Hht. pose proof (wf_at _ _ _ Hwf) as Hat.
  destruct (do_lookup_spec cmp fuel n s t Hat ltac:(lia)) as [(c & l & p & b & r & x & E & <- & Hc & _)|(c & x & E & <- & Hat' & Hfo & Hx)].
  - left. exists p. split_and!; [rewrite elems_plug; cbn; set_solver | done|]. unfold avltree_insert. rewrite (bind_done _ _ _ _ _ E).
    destruct (at_node s c l p b r) as ([Hp _] & _); [by apply at_plug|]. by rewrite (proj2 (Z.eqb_neq p 0)) by lia.
  - right. split.
    { destruct (follows_sides cmp n c Leaf Hfo (wf_sorted _ _ _ Hwf)) as [HL HR]. intros p. rewrite elems_plug. cbn.
      intros [Hp|Hp]%elem_of_app; [specialize (HL p Hp) | specialize (HR p Hp)]; lia. }
    destruct (decide (c = [])) as [->|Hne].
    + destruct (insert_first fuel s n v Hwf Ha Hv) as (s' & E' & Hwf' & Hm). exists s', (Node Leaf n 0 Leaf).
      split_and!; [done..|]. intros a Hin. apply Hm. cbn in Hin. set_solver.
    + pose proof (plug_length c Leaf) as Hlen. cbn [ht] in Hlen.
      destruct (insert_below fuel s c x n v) as (s' & t' & E' & Hwf' & Hel & Hm); try done; [lia|].
      exists s', t'. split_and!; try done. rewrite Hel, elems_plug. cbn. by rewrite Permutation_middle.
Qed.

End insertion.

End AvlInsert.
