(* ===== verification/AvlIter.v ===== *)
(** The order of the nodes of an AVL tree: the iterators of [support/avl.c] and its searches
    ([avltree_next], [avltree_prev], [avltree_lookup], [avltree_inf], [avltree_sup]). Module
    [AvlIter]. *)

From stdpp Require Import sorting.
From S2P Require Import Prelude AvlTree AvlSpec AvlRotate AvlInsert.
Local Open Scope Z_scope.

Module AvlIter.

Import Avl AvlSpec AvlRotate AvlInsert.

(** ** Down to the ends *)

Definition all_left (c : ctx) : Prop := Forall (fun f => match f with FL _ _ _ => True | FR _ _ _ => False end) c.
Definition all_right (c : ctx) : Prop := Forall (fun f => match f with FL _ _ _ => False | FR _ _ _ => True end) c.

Lemma all_left_cleft c : all_left c -> cleft c = [].
Proof. induction 1 as [|[] c]; done. Qed.

Lemma all_right_cright c : all_right c -> cright c = [].
Proof. induction 1 as [|[] c]; done. Qed.

Lemma get_first_spec k s c t : at_place s c t -> t <> Leaf -> ht t <= Z.of_nat k ->
  exists cl p b r, t = plug cl (Node Leaf p b r) /\ all_left cl /\ get_first k (ptr t) s = done (p, s).
Proof.
  revert k c. induction t as [|l IHl p b r _]; [done|]. intros k c Hat _ Hk. pose proof (ht_nonneg l). pose proof (ht_nonneg r).
  cbn in Hk. destruct k as [|k]; [lia|]. cbn [get_first ptr]. destruct (at_node _ _ _ _ _ _ Hat) as (_ & _ & _ & Hh).
  rewrite (bind_done _ _ _ _ _ (get_left_ok s p _ Hh)). cbn [left].
  destruct (decide (l = Leaf)) as [->|Hne]; [exists [], p, b, r; split_and!; [done | constructor | done]|].
  assert (at_place s (FL p b r :: c) l) as Hat' by (by apply (at_fill s (FL p b r))).
  destruct (IHl k (FL p b r :: c)) as (cl & q & bq & rq & -> & Hcl & E); [done | done | lia|].
  rewrite (proj2 (Z.eqb_neq _ _)) by (rewrite (ptr_0 _ _ _ (at_rep _ _ _ Hat')); done).
  exists (cl ++ [FL p b r]), q, bq, rq. split_and!; [by rewrite plug_app | | done]. apply Forall_app. split; [done|]. by repeat constructor.
Qed.

Lemma get_last_spec k s c t : at_place s c t -> t <> Leaf -> ht t <= Z.of_nat k ->
  exists cr l p b, t = plug cr (Node l p b Leaf) /\ all_right cr /\ get_last k (ptr t) s = done (p, s).
Proof.
  revert k c. induction t as [|l _ p b r IHr]; [done|]. intros k c Hat _ Hk. pose proof (ht_nonneg l). pose proof (ht_nonneg r).
  cbn in Hk. destruct k as [|k]; [lia|]. cbn [get_last ptr]. destruct (at_node _ _ _ _ _ _ Hat) as (_ & _ & _ & Hh).
  rewrite (bind_done _ _ _ _ _ (get_right_ok s p _ Hh)). cbn [right].
  destruct (decide (r = Leaf)) as [->|Hne]; [exists [], l, p, b; split_and!; [done | constructor | done]|].
  assert (at_place s (FR l p b :: c) r) as Hat' by (by apply (at_fill s (FR l p b))).
  destruct (IHr k (FR l p b :: c)) as (cr & lq & q & bq & -> & Hcr & E); [done | done | lia|].
  rewrite (proj2 (Z.eqb_neq _ _)) by (rewrite (ptr_0 _ _ _ (at_rep _ _ _ Hat')); done).
  exists (cr ++ [FR l p b]), lq, q, bq. split_and!; [by rewrite plug_app | | done]. apply Forall_app. split; [done|]. by repeat constructor.
Qed.

(** ** Up to the next and the previous node *)

(** A node at a place is not the right child when the place is on the left. *)
Lemma at_other_right s l p b r g b' r' c :
  at_place s (FL g b' r' :: c) (Node l p b r) -> ptr r' <> p.
Proof.
  intros [Hr Hc _ Hn] E. destruct Hc as [(_ & _ & _ & Hr') _]. destruct Hr as (Ha & _).
  assert (r' <> Leaf) as Hne by (intros ->; cbn in E; unfold addr in Ha; lia).
  apply NoDup_app in Hn as (_ & Hd & _). apply (Hd p); [cbn; set_solver|].
  rewrite <- E. unfold cnodes. cbn. pose proof (ptr_elem r' Hne). set_solver.
Qed.

Lemma up_right_spec k s c l p b r : at_place s c (Node l p b r) -> (List.length c < k)%nat ->
  up_right k p s = done (List.hd 0 (cright c), s).
Proof.
  revert k l p b r. induction c as [|f c IH]; intros k l p b r Hat Hk; (destruct k as [|k]; [lia|]); cbn [up_right];
    pose proof (at_node _ _ _ _ _ _ Hat) as (_ & Hb & Hlk & Hh); rewrite (bind_done _ _ _ _ _ (get_parent_ok s p _ _ _ _ Hh Hlk Hb)).
  { done. }
  pose proof (at_ctx _ _ _ Hat) as [Hf _]. cbn [cptr]. assert (fptr f <> 0) as Hf0 by (destruct Hf as [[Ha _] _]; lia).
  rewrite (proj2 (Z.eqb_neq _ _) Hf0). cbn in Hk.
  destruct f as [g bg rg|lg g bg]; destruct Hf as (_ & _ & Hg & _); cbn [fptr];
    rewrite (bind_done _ _ _ _ _ (get_right_ok s g _ Hg)); cbn [right ptr].
  - by rewrite (proj2 (Z.eqb_neq _ _) (at_other_right _ _ _ _ _ _ _ _ _ Hat)).
  - rewrite Z.eqb_refl. apply (at_fill s (FR lg g bg)) in Hat. cbn [fill] in Hat. rewrite (IH k _ _ _ _ Hat) by lia. done.
Qed.

Lemma up_left_spec k s c l p b r : at_place s c (Node l p b r) -> (List.length c < k)%nat ->
  up_left k p s = done (List.last (cleft c) 0, s).
Proof.
  revert k l p b r. induction c as [|f c IH]; intros k l p b r Hat Hk; (destruct k as [|k]; [lia|]); cbn [up_left];
    pose proof (at_node _ _ _ _ _ _ Hat) as (_ & Hb & Hlk & Hh); rewrite (bind_done _ _ _ _ _ (get_parent_ok s p _ _ _ _ Hh Hlk Hb)).
  { done. }
  pose proof (at_ctx _ _ _ Hat) as [Hf _]. cbn [cptr]. assert (fptr f <> 0) as Hf0 by (destruct Hf as [[Ha _] _]; lia).
  rewrite (proj2 (Z.eqb_neq _ _) Hf0). cbn in Hk.
  destruct f as [g bg rg|lg g bg]; destruct Hf as (_ & _ & Hg & _); cbn [fptr];
    rewrite (bind_done _ _ _ _ _ (get_left_ok s g _ Hg)); cbn [left ptr cleft].
  - rewrite Z.eqb_refl. apply (at_fill s (FL g bg rg)) in Hat. cbn [fill] in Hat. rewrite (IH k _ _ _ _ Hat) by lia. done.
  - rewrite (proj2 (Z.eqb_neq _ _) (at_other_side s _ l p b r lg g bg c Hat eq_refl)). by rewrite app_assoc, last_last.
Qed.

Lemma next_at fuel s c l p b r : at_place s c (Node l p b r) -> ht (plug c (Node l p b r)) <= Z.of_nat fuel ->
  avltree_next fuel p s = done (List.hd 0 (elems r ++ cright c), s).
Proof.
  intros Hat Hk. pose proof (plug_length c (Node l p b r)) as Hlen. pose proof (ht_nonneg l). pose proof (ht_nonneg r). cbn [ht] in Hlen.
  destruct (at_node _ _ _ _ _ _ Hat) as (_ & _ & _ & Hh). unfold avltree_next.
  rewrite (bind_done _ _ _ _ _ (get_right_ok s p _ Hh)). cbn [right].
  assert (at_place s (FR l p b :: c) r) as Hat' by (by apply (at_fill s (FR l p b))).
  destruct (decide (r = Leaf)) as [->|Hne].
  { cbn. eapply up_right_spec; [done | lia]. }
  rewrite (proj2 (Z.eqb_neq _ _)) by (rewrite (ptr_0 _ _ _ (at_rep _ _ _ Hat')); done).
  destruct (get_first_spec fuel s _ r Hat' Hne) as (cl & q & bq & rq & -> & Hcl & ->); [lia|].
  rewrite elems_plug, (all_left_cleft cl Hcl). done.
Qed.

Lemma prev_at fuel s c l p b r : at_place s c (Node l p b r) -> ht (plug c (Node l p b r)) <= Z.of_nat fuel ->
  avltree_prev fuel p s = done (List.last (cleft c ++ elems l) 0, s).
Proof.
  intros Hat Hk. pose proof (plug_length c (Node l p b r)) as Hlen. pose proof (ht_nonneg l). pose proof (ht_nonneg r). cbn [ht] in Hlen.
  destruct (at_node _ _ _ _ _ _ Hat) as (_ & _ & _ & Hh). unfold avltree_prev.
  rewrite (bind_done _ _ _ _ _ (get_left_ok s p _ Hh)). cbn [left].
  assert (at_place s (FL p b r :: c) l) as Hat' by (by apply (at_fill s (FL p b r))).
  destruct (decide (l = Leaf)) as [->|Hne].
  { cbn. rewrite app_nil_r. eapply up_left_spec; [done | lia]. }
  rewrite (proj2 (Z.eqb_neq _ _)) by (rewrite (ptr_0 _ _ _ (at_rep _ _ _ Hat')); done).
  destruct (get_last_spec fuel s _ l Hat' Hne) as (cr & lq & q & bq & -> & Hcr & ->); [lia|].
  rewrite elems_plug, (all_right_cright cr Hcr), app_nil_r. cbn. by rewrite !app_assoc, last_last.
Qed.

(** ** The order of the nodes *)

Lemma zip_to t p : p ∈ elems t -> exists c l b r, plug c (Node l p b r) = t.
Proof.
  induction t as [|l IHl q b r IHr]; cbn; [by intros ?%elem_of_nil|].
  intros [Hp|[->|Hp]%elem_of_cons]%elem_of_app; [|by exists [], l, b, r|].
  - destruct (IHl Hp) as (c & l' & b' & r' & <-). exists (c ++ [FL q b r]), l', b', r'. by rewrite plug_app.
  - destruct (IHr Hp) as (c & l' & b' & r' & <-). exists (c ++ [FR l q b]), l', b', r'. by rewrite plug_app.
Qed.

Lemma hd_lookup (l : list Z) : List.hd 0 l = default 0 (l !! 0%nat).
Proof. by destruct l. Qed.

Lemma last_lookup (l : list Z) : List.last l 0 = default 0 (l !! pred (length l)).
Proof.
  destruct (decide (l = [])) as [->|Hne]; [done|]. destruct (exists_last Hne) as (l' & x & ->).
  rewrite last_last, length_app. cbn. rewrite lookup_app_r by lia. by replace (pred (length l' + 1) - length l')%nat with 0%nat by lia.
Qed.

(** The [i]-th of the nodes [l], null past the end. *)
Definition nth_node (l : list Z) (i : nat) : Z := default 0 (l !! i).

(** The first of the nodes [l] that is not below the key, and [none] when all are. *)
Definition supremum (cmp : Z -> Z -> Z) (none : Z) (l : list Z) (key : Z) : Z := List.hd none (filter (fun p => 0 <= cmp p key) l).

(** The last one that is not above the key, and the first node when all are. *)
Definition infimum (cmp : Z -> Z -> Z) (l : list Z) (key : Z) : Z := List.last (filter (fun p => cmp p key <= 0) l) (List.hd 0 l).

Section order.
Context (cmp : Z -> Z -> Z) `{HO : !Order cmp}.

(** The iterators. The nodes of a tree in the order of their keys are [elems t]:
    [avltree_first] and [avltree_last] are its ends, and from the [i]-th node [avltree_next] goes
    to the next one and [avltree_prev] to the one before, and both to null at the ends. *)
Theorem avltree_iterators fuel s t i p :
  wf cmp s t -> (123 <= fuel)%nat -> elems t !! i = Some p ->
  avltree_first s = done (nth_node (elems t) 0, s)
  /\ avltree_last s = done (nth_node (elems t) (pred (length (elems t))), s)
  /\ avltree_next fuel p s = done (nth_node (elems t) (S i), s)
  /\ avltree_prev fuel p s = done (match i with O => 0 | S j => nth_node (elems t) j end, s).
Proof.
  unfold nth_node. intros Hwf Hfuel Hi. pose proof (wf_height_bound _ _ _ Hwf) as Hht. pose proof (wf_nodup _ _ _ Hwf) as Hnd.
  unfold avltree_first, avltree_last. rewrite !(bind_done get_tree _ s (tree s) s) by done. rewrite (wf_first _ _ _ Hwf), (wf_last _ _ _ Hwf).
  split; [by rewrite hd_lookup|]. split; [by rewrite last_lookup|]. pose proof (wf_at _ _ _ Hwf) as Hat.
  destruct (zip_to t p) as (c & l & b & r & <-); [by eapply list_elem_of_lookup_2|]. apply (proj1 (at_plug _ _ _)) in Hat.
  rewrite (next_at _ _ _ _ _ _ _ Hat), (prev_at _ _ _ _ _ _ _ Hat) by lia. rewrite elems_plug in *. cbn [elems] in *.
  replace (cleft c ++ (elems l ++ p :: elems r) ++ cright c) with ((cleft c ++ elems l) ++ p :: elems r ++ cright c) in *
    by (by rewrite <- !app_assoc).
  set (A := cleft c ++ elems l) in *. set (B := elems r ++ cright c) in *.
  assert (i = length A) as ->.
  { eapply NoDup_lookup; [exact Hnd | done|]. by rewrite list_lookup_middle. }
  rewrite hd_lookup, last_lookup. split; [|destruct (length A) eqn:EA; cbn].
  - rewrite lookup_app_r by lia. by replace (S (length A) - length A)%nat with 1%nat by lia.
  - destruct A; done.
  - rewrite lookup_app_l by lia. done.
Qed.

(** ** Searches *)

(** The nodes left and right of a place that the key follows. *)
Lemma sides_at key c t : follows cmp key c -> sorted cmp (elems (plug c t)) ->
  Forall (fun a => cmp a key < 0) (cleft c) /\ Forall (fun a => 0 < cmp a key) (cright c).
Proof. intros Hf Hs. rewrite !Forall_forall. by apply (follows_sides cmp key c t). Qed.

(** A node with the key: what is left of it is smaller, what is right of it larger. *)
Lemma sides_found key c l p b r : cmp p key = 0 -> sorted cmp (elems (plug c (Node l p b r))) ->
  exists A B, elems (plug c (Node l p b r)) = A ++ p :: B
  /\ Forall (fun a => cmp a key < 0) A /\ Forall (fun a => 0 < cmp a key) B.
Proof.
  intros Hp Hs. exists (cleft c ++ elems l), (elems r ++ cright c). rewrite elems_plug in *. cbn in *.
  replace (cleft c ++ (elems l ++ p :: elems r) ++ cright c) with ((cleft c ++ elems l) ++ p :: elems r ++ cright c) in *
    by (by rewrite <- !app_assoc).
  apply sorted_app in Hs as (_ & [Hpr _]%sorted_cons & Hlp). split; [done|]. rewrite !Forall_forall. split.
  - intros a Ha. specialize (Hlp a p Ha ltac:(by left)). pose proof (cmp_same p key a Hp). pose proof (cmp_flip a key). pose proof (cmp_flip a p). lia.
  - intros a Ha. specialize (Hpr a Ha). pose proof (cmp_same p key a Hp). pose proof (cmp_flip a key). lia.
Qed.

Lemma keep_all (P : Z -> Prop) `{!forall x, Decision (P x)} l : Forall P l -> filter P l = l.
Proof. induction 1 as [|x l Hx Hl IH]; [done|]. rewrite filter_cons_True by done. by rewrite IH. Qed.

Lemma keep_none (P : Z -> Prop) `{!forall x, Decision (P x)} l : Forall (fun x => ~ P x) l -> filter P l = [].
Proof. induction 1 as [|x l Hx Hl IH]; [done|]. by rewrite filter_cons_False. Qed.

(** A predicate on a list whose first part is below the key, and whose last part is above. *)
Lemma filter_le A M B key : Forall (fun a => cmp a key < 0) A -> Forall (fun a => cmp a key = 0) M -> Forall (fun a => 0 < cmp a key) B ->
  filter (fun p => cmp p key <= 0) (A ++ M ++ B) = A ++ M.
Proof.
  intros HA HM HB. rewrite !filter_app, (keep_all _ A), (keep_all _ M), (keep_none _ B), app_nil_r; [done|..];
    (eapply Forall_impl; [done|]; cbn; lia).
Qed.

Lemma filter_ge A M B key : Forall (fun a => cmp a key < 0) A -> Forall (fun a => cmp a key = 0) M -> Forall (fun a => 0 < cmp a key) B ->
  filter (fun p => 0 <= cmp p key) (A ++ M ++ B) = M ++ B.
Proof.
  intros HA HM HB. rewrite !filter_app, (keep_none _ A), (keep_all _ M), (keep_all _ B); [done|..];
    (eapply Forall_impl; [done|]; cbn; lia).
Qed.

Lemma filter_eq A M B key : Forall (fun a => cmp a key < 0) A -> Forall (fun a => cmp a key = 0) M -> Forall (fun a => 0 < cmp a key) B ->
  filter (fun p => cmp p key = 0) (A ++ M ++ B) = M.
Proof.
  intros HA HM HB. rewrite !filter_app, (keep_none _ A), (keep_all _ M), (keep_none _ B), app_nil_r; [done|..];
    (eapply Forall_impl; [done|]; cbn; lia).
Qed.

Lemma inf_loop_spec k key s c t lb : at_place s c t -> follows cmp key c -> ht t <= Z.of_nat k -> sorted cmp (elems (plug c t)) ->
  inf_loop cmp k key (ptr t) (List.last (cleft c) lb) s
  = done (List.last (filter (fun p => cmp p key <= 0) (elems (plug c t))) lb, s).
Proof.
  revert k c. induction t as [|l IHl p b r IHr]; intros k c Hat Hf Hk Hs.
  - destruct (sides_at key c Leaf Hf Hs) as [HL HR]. rewrite elems_plug. rewrite filter_le by done. rewrite app_nil_r. by destruct k.
  - pose proof (at_node _ _ _ _ _ _ Hat) as ([Hp0 _] & Hb & Hlk & Hh). pose proof (ht_nonneg l). pose proof (ht_nonneg r).
    cbn in Hk. destruct k as [|k]; [lia|]. cbn [inf_loop ptr]. rewrite (proj2 (Z.eqb_neq p 0)) by lia.
    rewrite (bind_done _ _ _ _ _ (get_balance_ok s p _ _ _ _ Hh Hlk Hb)). cbv zeta.
    destruct (Z.eqb_spec (cmp p key) 0) as [E0|E0].
    { destruct (sides_found key c l p b r E0 Hs) as (A & B & -> & HA & HB). rewrite (filter_le A [p] B) by (try done; by constructor).
      by rewrite last_last. }
    destruct (Z.ltb_spec 0 (cmp p key)) as [Hlt|Hge].
    + rewrite (proj2 (Z.ltb_ge _ 1)) by lia. rewrite (bind_done _ _ _ _ _ (get_left_ok s p _ Hh)). cbn [left].
      apply (IHl k (FL p b r :: c)); [by apply (at_fill s (FL p b r)) | by split | lia | done].
    + rewrite (proj2 (Z.ltb_lt _ 1)) by lia. rewrite (bind_done _ _ _ _ _ (get_right_ok s p _ Hh)). cbn [right].
      specialize (IHr k (FR l p b :: c)). cbn [cleft] in IHr. rewrite app_assoc, last_last in IHr.
      apply IHr; [by apply (at_fill s (FR l p b)) | split; [lia | done] | lia | done].
Qed.

(** The candidate of [avltree_sup] at a place, when [rt] is the root. *)
Definition sup_at (rt key : Z) (c : ctx) (t : tr) : Z :=
  match t with
  | Node _ p _ _ => if 0 <? cmp p key then p else List.hd rt (cright c)
  | Leaf => List.hd rt (cright c)
  end.

Lemma sup_step s c t rt key : at_place s c t ->
  (if negb (ptr t =? 0) && (0 <? cmp (ptr t) key) then ptr t else List.hd rt (cright c)) = sup_at rt key c t.
Proof.
  intros Hat. destruct t as [|l p b r]; [done|]. destruct (at_node _ _ _ _ _ _ Hat) as ([Hp0 _] & _). cbn [ptr].
  by rewrite (proj2 (Z.eqb_neq p 0)) by lia.
Qed.

Lemma sup_loop_spec k key s c t rt : at_place s c t -> follows cmp key c -> ht t <= Z.of_nat k -> sorted cmp (elems (plug c t)) ->
  sup_loop cmp k key (ptr t) (sup_at rt key c t) s
  = done (List.hd rt (filter (fun p => 0 <= cmp p key) (elems (plug c t))), s).
Proof.
  revert k c. induction t as [|l IHl p b r IHr]; intros k c Hat Hf Hk Hs.
  - destruct (sides_at key c Leaf Hf Hs) as [HL HR]. rewrite elems_plug. rewrite filter_ge by done. by destruct k.
  - pose proof (at_node _ _ _ _ _ _ Hat) as ([Hp0 _] & Hb & Hlk & Hh). pose proof (ht_nonneg l). pose proof (ht_nonneg r).
    cbn in Hk. destruct k as [|k]; [lia|]. cbn [sup_loop ptr]. rewrite (proj2 (Z.eqb_neq p 0)) by lia.
    rewrite (bind_done _ _ _ _ _ (get_balance_ok s p _ _ _ _ Hh Hlk Hb)). cbv zeta.
    destruct (Z.eqb_spec (cmp p key) 0) as [E0|E0].
    { destruct (sides_found key c l p b r E0 Hs) as (A & B & -> & HA & HB). by rewrite (filter_ge A [p] B) by (try done; by constructor). }
    cbn [sup_at]. destruct (Z.ltb_spec 0 (cmp p key)) as [Hlt|Hge].
    + assert (at_place s (FL p b r :: c) l) as Hat' by (by apply (at_fill s (FL p b r))).
      rewrite (bind_done _ _ _ _ _ (get_left_ok s p _ Hh)). cbn [left].
      pose proof (sup_step s (FL p b r :: c) l rt key Hat') as Hst. cbn [cright List.hd] in Hst. rewrite Hst. apply (IHl k (FL p b r :: c)); [done | by split | lia | done].
    + assert (at_place s (FR l p b :: c) r) as Hat' by (by apply (at_fill s (FR l p b))).
      rewrite (bind_done _ _ _ _ _ (get_right_ok s p _ Hh)). cbn [right].
      pose proof (sup_step s (FR l p b :: c) r rt key Hat') as Hst. cbn [cright] in Hst. rewrite Hst. apply (IHr k (FR l p b :: c)); [done | split; [lia | done] | lia | done].
Qed.

Lemma lookup_ok fuel s t key : wf cmp s t -> (122 <= fuel)%nat ->
  avltree_lookup cmp fuel key s = done (List.hd 0 (filter (fun p => cmp p key = 0) (elems t)), s).
Proof.
  intros Hwf Hfuel. pose proof (wf_height_bound _ _ _ Hwf) as Hht. pose proof (wf_at _ _ _ Hwf) as Hat. pose proof (wf_sorted _ _ _ Hwf) as Hs.
  unfold avltree_lookup. destruct (do_lookup_spec cmp fuel key s t Hat ltac:(lia))
    as [(c & l & p & b & r & x & E & <- & Hc & _)|(c & x & E & <- & Hat' & Hfo & Hx)]; rewrite (bind_done _ _ _ _ _ E).
  - destruct (sides_found key c l p b r Hc Hs) as (A & B & -> & HA & HB). by rewrite (filter_eq A [p] B) by (try done; by constructor).
  - destruct (sides_at key c Leaf Hfo Hs) as [HL HR]. rewrite elems_plug. by rewrite filter_eq.
Qed.

Lemma sup_ok fuel s t key : wf cmp s t -> (122 <= fuel)%nat ->
  avltree_sup cmp fuel key s = done (List.hd (root (tree s)) (filter (fun p => 0 <= cmp p key) (elems t)), s).
Proof.
  intros Hwf Hfuel. pose proof (wf_height_bound _ _ _ Hwf) as Hht. pose proof (wf_at _ _ _ Hwf) as Hat. pose proof (wf_sorted _ _ _ Hwf) as Hs.
  pose proof (at_root _ _ _ Hat) as Hr. cbn in Hr. unfold avltree_sup. rewrite !(bind_done get_tree _ s (tree s) s) by done. rewrite Hr.
  replace (ptr t) with (sup_at (ptr t) key [] t) at 2 by (destruct t as [|l p b r]; [done|]; cbn; by destruct (0 <? cmp p key)).
  apply (sup_loop_spec fuel key s [] t (ptr t)); [done | done | lia | done].
Qed.

(** C36: the searches of a sorted tree, for every key. [avltree_lookup] returns the node with the
    key, or null; [avltree_inf] the last node that is not above the key, or the first node of
    the tree when all are above; [avltree_sup] the first node that is not below the key, or the
    root, which is below the key, when all are. None of them changes the tree. *)
Theorem avltree_searches fuel s t key :
  wf cmp s t -> (122 <= fuel)%nat ->
  avltree_lookup cmp fuel key s = done (List.hd 0 (filter (fun p => cmp p key = 0) (elems t)), s)
  /\ avltree_inf cmp fuel key s = done (infimum cmp (elems t) key, s)
  /\ avltree_sup cmp fuel key s = done (supremum cmp (root (tree s)) (elems t) key, s).
Proof.
  unfold infimum, supremum. intros Hwf Hfuel. split; [by apply lookup_ok|]. split; [|by apply sup_ok].
  pose proof (wf_height_bound _ _ _ Hwf) as Hht. pose proof (wf_at _ _ _ Hwf) as Hat. pose proof (at_root _ _ _ Hat) as Hr. cbn in Hr.
  unfold avltree_inf, avltree_first. rewrite !(bind_done get_tree _ s (tree s) s) by done. rewrite Hr, <- (wf_first _ _ _ Hwf).
  apply (inf_loop_spec fuel key s [] t); [done | done | lia | apply Hwf].
Qed.

End order.

(** ** An example *)

(** Nodes with the key [a / 16]. *)
Definition by_key (a b : Z) : Z := a `div` 16 - b `div` 16.

#[export] Instance by_key_order : Order by_key.
Proof. split; unfold by_key; intros; lia. Qed.

(** Three nodes in a tree, and one beside it. *)
Definition three_tree : tr := Node (Node Leaf 16 0 Leaf) 32 0 (Node Leaf 48 0 Leaf).

Definition three : state :=
  mk_state (list_to_map [(16, mk_node 0 0 (pack 32 0)); (32, mk_node 16 48 (pack 0 0)); (48, mk_node 0 0 (pack 32 0)); (40, mk_node 0 0 0)])
    (mk_avl 32 1 16 48 3).

Lemma three_wf : wf by_key three three_tree.
Proof.
  constructor; try done.
  - split; [cbn; unfold addr; split_and!; done || lia | done | done|]. cbn. by apply (bool_decide_unpack _).
  - cbn. repeat constructor; done.
Qed.

Lemma avltree_iterators_witness :
  avltree_first three = done (16, three) /\ avltree_last three = done (48, three)
  /\ avltree_next 123 48 three = done (0, three) /\ avltree_prev 123 48 three = done (32, three).
Proof. apply (avltree_iterators by_key 123 three three_tree 2 48); [apply three_wf | lia | reflexivity]. Defined.

Lemma avltree_searches_witness :
  avltree_lookup by_key 122 40 three = done (32, three) /\ avltree_inf by_key 122 64 three = done (48, three)
  /\ avltree_sup by_key 122 64 three = done (32, three).
Proof.
  pose proof (avltree_searches by_key 122 three three_tree 40 three_wf ltac:(lia)) as (H1 & _).
  pose proof (avltree_searches by_key 122 three three_tree 64 three_wf ltac:(lia)) as (_ & H2 & H3).
  split; [exact H1|]. split; [exact H2 | exact H3].
Defined.

End AvlIter.
