(* ===== verification/AvlRemove.v ===== *)
(** Removal from an AVL tree, [avltree_remove] of [support/avl.c]: the node leaves, and the tree
    stays sorted and balanced. Module [AvlRemove]. *)

From stdpp Require Import sorting.
From S2P Require Import Prelude AvlTree AvlSpec AvlRotate AvlInsert AvlIter.
Local Open Scope Z_scope.

Module AvlRemove.

Import Avl AvlSpec AvlRotate AvlInsert AvlIter.

(** ** The way up *)

(** The height of [plug c t] when [t] has height [n]. *)
Definition ctop (c : ctx) (n : Z) : Z := foldl (fun n f => ftop f n) n c.

Lemma ht_plug c t : ht (plug c t) = ctop c (ht t).
Proof. revert t. induction c as [|f c IH]; intros t; [done|]. cbn. rewrite <- ht_fill. apply IH. Qed.

(** The right child, or the left one, is level: a single rotation, and the height stays. *)
Lemma now_level_right s0 N s c l p b m q r : now s0 N s c (Node l p b (Node m q 0 r)) ->
  exists s', (_ ← set_balance 1 p; _ ← set_balance (-1) q; rotate_left p) s = done (tt, s')
  /\ now s0 N s' c (Node (Node l p 1 m) q (-1) r).
Proof.
  intros Hnow. destruct (now_balance _ _ _ _ _ _ _ _ 1 Hnow) as (s1 & E1 & Hn1 & _); [lia|]. apply now_to_right in Hn1.
  destruct (now_balance _ _ _ _ _ _ _ _ (-1) Hn1) as (s2 & E2 & Hn2 & _); [lia|]. apply now_to_right in Hn2.
  destruct (now_rotate_left _ _ _ _ _ _ _ _ _ _ _ Hn2) as (s3 & E3 & Hn3). exists s3. split; [|done].
  by rewrite (bind_done _ _ _ _ _ E1), (bind_done _ _ _ _ _ E2).
Qed.

Lemma now_level_left s0 N s c l q m p b r : now s0 N s c (Node (Node l q 0 m) p b r) ->
  exists s', (_ ← set_balance (-1) p; _ ← set_balance 1 q; rotate_right p) s = done (tt, s')
  /\ now s0 N s' c (Node l q 1 (Node m p (-1) r)).
Proof.
  intros Hnow. destruct (now_balance _ _ _ _ _ _ _ _ (-1) Hnow) as (s1 & E1 & Hn1 & _); [lia|]. apply now_to_left in Hn1.
  destruct (now_balance _ _ _ _ _ _ _ _ 1 Hn1) as (s2 & E2 & Hn2 & _); [lia|]. apply now_to_left in Hn2.
  destruct (now_rotate_right _ _ _ _ _ _ _ _ _ _ _ Hn2) as (s3 & E3 & Hn3). exists s3. split; [|done].
  by rewrite (bind_done _ _ _ _ _ E1), (bind_done _ _ _ _ _ E2).
Qed.

(** One round of the loop below [c]: the tree at [c] is balanced again; either it has shrunk
    and the loop goes on with [c], or its height is what it was and the loop ends. *)
Definition went_up (s0 : state) (N : list Z) (k : nat) (run : outcome (option (bool * state))) (c : ctx) (n : Z) : Prop :=
  exists s1 t1, now s0 N s1 c t1 /\ balanced t1 /\
    (ht t1 = n - 1 /\ run = remove_up k (cptr c) (is_FL c) s1 \/ ht t1 = n /\ run = done (false, s1)).

Lemma remove_step_left s0 N k s p b r c t :
  now s0 N s (FL p b r :: c) t -> balanced t -> fok (FL p b r) (ht t + 1) ->
  went_up s0 N k (remove_up (S k) p true s) c (ftop (FL p b r) (ht t + 1)).
Proof.
  intros Hnow Hbt (Hf & Hb & Hs). cbn [fbal fside] in *. apply now_to_left in Hnow. unfold went_up, ftop. cbn [fside].
  pose proof (ht_nonneg t). pose proof Hnow as (Hat & _ & _). destruct (at_node _ _ _ _ _ _ Hat) as ([Hp0 _] & _).
  cbn [remove_up]. rewrite (proj2 (Z.eqb_neq p 0)) by lia. cbv zeta.
  rewrite (bind_done _ _ _ _ _ (now_parent _ _ _ _ _ _ _ _ Hnow)), (bind_done _ _ _ _ _ (left_child_ok _ _ _ _ _ _ Hat)).
  destruct (now_add_balance _ _ _ _ _ _ _ _ 1 Hnow) as (s1 & E1 & Hn1 & _); [lia|].
  rewrite (bind_done (inc_balance p) _ _ _ _ E1).
  destruct (Z.eqb_spec (b + 1) 0) as [Eb|Eb].
  { exists s1, (Node t p (b + 1) r). split_and!; [done | cbn; split_and!; try done; lia|]. left. split; [cbn; lia | done]. }
  destruct (Z.eqb_spec (b + 1) 1) as [Eb1|Eb1].
  { exists s1, (Node t p (b + 1) r). split_and!; [done | cbn; split_and!; try done; lia|]. right. split; [cbn; lia | done]. }
  rewrite (bind_done _ _ _ _ _ (now_right _ _ _ _ _ _ _ _ Hn1)).
  destruct r as [|m q bq r]; [cbn in *; lia|]. cbn [ptr].
  rewrite (bind_done _ _ _ _ _ (now_get_balance _ _ _ _ _ _ _ _ (proj1 (now_to_right _ _ _ _ _ _ _ _) Hn1))).
  destruct (Z.eqb_spec bq 0) as [->|Hbq].
  - destruct (now_level_right _ _ _ _ _ _ _ _ _ _ Hn1) as (s2 & E2 & Hn2). exists s2, (Node (Node t p 1 m) q (-1) r).
    cbn in Hs, Hf. destruct Hs as (E & _ & Hm & Hr).
    split; [done|]. split; [cbn; split_and!; try done; lia|]. right. split; [cbn; lia|].
    apply bind_inv in E2 as ([] & ? & Ea & E2). rewrite (bind_done _ _ _ _ _ Ea).
    apply bind_inv in E2 as ([] & ? & Ea' & E2). by rewrite (bind_done _ _ _ _ _ Ea'), (bind_done _ _ _ _ _ E2).
  - assert (ht (Node m q bq r) = ht t + 2) as Hh by lia.
    destruct (now_fix_right _ _ _ _ _ _ _ _ Hn1 Hs Hh Hbq) as (m' & q' & bq' & r' & [= <- <- <- <-] & Hone & s2 & E2 & Hn2).
    destruct (fix_right_balanced t p (Node m q bq r)) as [Hb' Hh']; [done..|].
    exists s2, (fix_right t p (Node m q bq r)). split_and!; [done | done|]. left. split; [lia|].
    apply bind_inv in E2 as ([] & s3 & Ea & E2). rewrite (bind_done _ _ _ tt s3); [by rewrite (bind_done _ _ _ _ _ E2)|].
    rewrite <- Ea. by destruct Hone as [-> | ->].
Qed.

Lemma remove_step_right s0 N k s l p b c t :
  now s0 N s (FR l p b :: c) t -> balanced t -> fok (FR l p b) (ht t + 1) ->
  went_up s0 N k (remove_up (S k) p false s) c (ftop (FR l p b) (ht t + 1)).
Proof.
  intros Hnow Hbt (Hf & Hb & Hs). cbn [fbal fside] in *. apply now_to_right in Hnow. unfold went_up, ftop. cbn [fside].
  pose proof (ht_nonneg t). pose proof Hnow as (Hat & _ & _). destruct (at_node _ _ _ _ _ _ Hat) as ([Hp0 _] & _).
  cbn [remove_up]. rewrite (proj2 (Z.eqb_neq p 0)) by lia. cbv zeta.
  rewrite (bind_done _ _ _ _ _ (now_parent _ _ _ _ _ _ _ _ Hnow)), (bind_done _ _ _ _ _ (left_child_ok _ _ _ _ _ _ Hat)).
  destruct (now_add_balance _ _ _ _ _ _ _ _ (-1) Hnow) as (s1 & E1 & Hn1 & _); [lia|].
  rewrite (bind_done (dec_balance p) _ _ _ _ E1).
  destruct (Z.eqb_spec (b + -1) 0) as [Eb|Eb].
  { exists s1, (Node l p (b + -1) t). split_and!; [done | cbn; split_and!; try done; lia|]. left. split; [cbn; lia | done]. }
  destruct (Z.eqb_spec (b + -1) (-1)) as [Eb1|Eb1].
  { exists s1, (Node l p (b + -1) t). split_and!; [done | cbn; split_and!; try done; lia|]. right. split; [cbn; lia | done]. }
  rewrite (bind_done _ _ _ _ _ (now_left _ _ _ _ _ _ _ _ Hn1)).
  destruct l as [|l q bq m]; [cbn in *; lia|]. cbn [ptr].
  rewrite (bind_done _ _ _ _ _ (now_get_balance _ _ _ _ _ _ _ _ (proj1 (now_to_left _ _ _ _ _ _ _ _) Hn1))).
  destruct (Z.eqb_spec bq 0) as [->|Hbq].
  - destruct (now_level_left _ _ _ _ _ _ _ _ _ _ Hn1) as (s2 & E2 & Hn2). exists s2, (Node l q 1 (Node m p (-1) t)).
    cbn in Hs, Hf. destruct Hs as (E & _ & Hm & Hr).
    split; [done|]. split; [cbn; split_and!; try done; lia|]. right. split; [cbn; lia|].
    apply bind_inv in E2 as ([] & ? & Ea & E2). rewrite (bind_done _ _ _ _ _ Ea).
    apply bind_inv in E2 as ([] & ? & Ea' & E2). by rewrite (bind_done _ _ _ _ _ Ea'), (bind_done _ _ _ _ _ E2).
  - assert (ht (Node l q bq m) = ht t + 2) as Hh by lia.
    destruct (now_fix_left _ _ _ _ _ _ _ _ Hn1 Hs Hh Hbq) as (l' & q' & bq' & m' & [= <- <- <- <-] & Hone & s2 & E2 & Hn2).
    destruct (fix_left_balanced (Node l q bq m) p t) as [Hb' Hh']; [done..|].
    exists s2, (fix_left (Node l q bq m) p t). split_and!; [done | done|]. left. split; [lia|].
    apply bind_inv in E2 as ([] & s3 & Ea & E2). rewrite (bind_done _ _ _ tt s3); [by rewrite (bind_done _ _ _ _ _ E2)|].
    rewrite <- Ea. by destruct Hone as [-> | ->].
Qed.

(** The loop: the whole tree is balanced again, and its height is what the result says. *)
Lemma remove_up_spec s0 N k c s t :
  now s0 N s c t -> balanced t -> cok c (ht t + 1) -> (List.length c <= k)%nat ->
  exists b s' t', remove_up k (cptr c) (is_FL c) s = done (b, s') /\ now s0 N s' [] t' /\ balanced t'
  /\ ht t' = ctop c (ht t + 1) - (if b then 1 else 0).
Proof.
  revert k s t. induction c as [|f c IH]; intros k s t Hnow Hbt Hok Hk.
  { exists true, s, t. split_and!; [by destruct k | done | done | cbn; lia]. }
  destruct k as [|k]; [cbn in Hk; lia|]. cbn in Hk. destruct Hok as [Hf Hok].
  assert (went_up s0 N k (remove_up (S k) (fptr f) (is_FL (f :: c)) s) c (ftop f (ht t + 1))) as (s1 & t1 & Hn1 & Hb1 & Hcase).
  { destruct f; [by apply remove_step_left | by apply remove_step_right]. }
  cbn [cptr ctop foldl]. fold (ctop c (ftop f (ht t + 1))). destruct Hcase as [[Hh ->]|[Hh ->]].
  - replace (ftop f (ht t + 1)) with (ht t1 + 1) in * by lia. apply IH; [done | done | done | lia].
  - exists false, s1, (plug c t1). split_and!; [done | | by apply balanced_plug; rewrite Hh | by rewrite ht_plug, Hh, Z.sub_0_r].
    destruct Hn1 as (H1 & H2 & H3). split_and!; [by apply at_plug | done | done].
Qed.

(** ** Taking a node out *)

Lemma at_ext s s' c t : at_place s c t -> (forall a, a ∈ elems t ++ cnodes c -> heap s' !! a = heap s !! a) ->
  root (tree s') = root (tree s) -> at_place s' c t.
Proof.
  intros [H1 H2 H3 H4] Hh Hr. split; [..|done].
  - eapply rep_ext; [|done]. intros a Ha. apply Hh. set_solver.
  - eapply rep_ctx_ext; [|done]. intros a Ha. apply Hh. set_solver.
  - congruence.
Qed.

(** A write of a node. *)
Definition put (s : state) (a : Z) (v : avltree_node) : state := mk_state (<[a := v]> (heap s)) (tree s).

(** A node at a place is made of its parts, wherever these were. *)
Definition put_at (s : state) (c : ctx) (l : tr) (y b : Z) (r : tr) : state :=
  reparent (reparent (relink (put s y (mk_node (ptr l) (ptr r) (pack (cptr c) b))) c y) l y) r y.

Lemma put_at_ok s c l y b r pl pr x :
  rep (heap s) pl l -> rep (heap s) pr r -> rep_ctx (heap s) c x -> root (tree s) = root_of c x ->
  addr y -> -2 <= b <= 2 -> NoDup (elems (Node l y b r) ++ cnodes c) ->
  at_place (put_at s c l y b r) c (Node l y b r).
Proof.
  intros Hl Hr Hc Hroot Hy Hb Hn. pose proof Hn as Hn'. cbn in Hn. rewrite <- app_assoc in Hn. cbn in Hn.
  apply NoDup_app in Hn as (Hnl & Hdl & Hn). apply NoDup_cons in Hn as [Hny Hn]. apply NoDup_app in Hn as (Hnr & Hdr & Hnc).
  unfold put_at. set (s1 := put s y _). set (s2 := relink s1 c y). set (s3 := reparent s2 l y).
  assert (forall a, a <> y -> heap s1 !! a = heap s !! a) as E1 by (intros a Ha; unfold s1; cbn; by rewrite lookup_insert_ne).
  assert (forall a, a ∉ cnodes c -> heap s2 !! a = heap s1 !! a) as E2 by (intros a Ha; by apply relink_other).
  assert (forall a, a ∉ elems l -> heap s3 !! a = heap s2 !! a) as E3 by (intros a Ha; by apply reparent_other).
  assert (forall a, a ∉ elems r -> heap (reparent s3 r y) !! a = heap s3 !! a) as E4 by (intros a Ha; by apply reparent_other).
  split; [|..|done].
  - cbn. split_and!; try done; try lia.
    + rewrite E4, E3, E2 by set_solver. unfold s1. cbn. by rewrite lookup_insert_eq.
    + eapply rep_ext; [intros a Ha; apply E4; set_solver|]. apply (reparent_rep s2 l pl y); [|done].
      eapply rep_ext; [|exact Hl]. intros a Ha. rewrite E2, E1 by set_solver. done.
    + apply (reparent_rep s3 r pr y); [|done]. eapply rep_ext; [|exact Hr]. intros a Ha. rewrite E3, E2, E1 by set_solver. done.
  - cbn [ptr]. eapply rep_ctx_ext; [intros a Ha; rewrite E4, E3 by set_solver; reflexivity|].
    apply (relink_ctx s1 c x); [|done]. eapply rep_ctx_ext; [|exact Hc]. intros a Ha. apply E1. set_solver.
  - unfold s3. rewrite !reparent_tree. by apply (relink_root s1 c x).
Qed.

(** A node with one child leaves: its child takes the place. *)
Lemma unlink_at s c l x b r u : at_place s c (Node l x b r) -> u = l \/ u = r ->
  at_place (reparent (relink s c (ptr u)) u (cptr c)) c u.
Proof.
  intros [(Ha & Hb & Hh & Hl & Hr) Hc Hroot Hn] Hu.
  assert (rep (heap s) x u) as Hru by (by destruct Hu as [-> | ->]).
  assert (NoDup (elems u ++ cnodes c)) as Hnu.
  { cbn in Hn. rewrite <- app_assoc in Hn. apply NoDup_app in Hn as (Hnl & Hd & Hn). cbn in Hn. apply NoDup_cons in Hn as [_ Hn].
    destruct Hu as [-> | ->]; [|done]. apply NoDup_app in Hn as (_ & _ & Hnc). apply NoDup_app. split_and!; [done | set_solver | done]. }
  apply NoDup_app in Hnu as Hnu'. destruct Hnu' as (Hn1 & Hd & Hn2). split; [|..|done].
  - apply (reparent_rep _ u x); [|done]. eapply rep_ext; [|exact Hru]. intros a Hin. apply relink_other. set_solver.
  - eapply rep_ctx_ext; [|apply (relink_ctx s c x); [exact Hc | done]]. intros a Hin. apply reparent_other. set_solver.
  - rewrite reparent_tree. by apply (relink_root s c x).
Qed.

(** The pointer to the node that leaves. *)
Lemma detach_ok s c l x b r next : at_place s c (Node l x b r) ->
  (if negb (cptr c =? 0) then l ← left_child (cptr c) x; _ ← set_child next (cptr c) l; mret l
   else _ ← on_tree (set_root next); mret false) s = done (is_FL c, relink s c next).
Proof.
  intros Hat. pose proof (at_ctx _ _ _ Hat) as Hc. destruct (decide (c = [])) as [->|Hne]; [done|].
  rewrite (proj2 (Z.eqb_neq _ _)) by (by rewrite (cptr_0 _ _ _ Hc)). cbn [negb].
  rewrite (bind_done _ _ _ _ _ (left_child_ok _ _ _ _ _ _ Hat)). by rewrite (bind_done _ _ _ _ _ (set_child_ok s c _ next Hc Hne)).
Qed.

(** ** Changes of different nodes commute *)

Lemma put_twice s a v w : put (put s a v) a w = put s a w.
Proof. unfold put. cbn. by rewrite insert_insert_eq. Qed.

Lemma put_swap s a a' v w : a <> a' -> put (put s a v) a' w = put (put s a' w) a v.
Proof. intros Hne. unfold put. cbn. by rewrite insert_insert_ne. Qed.

Lemma relink_put s c x a v : a <> cptr c -> relink (put s a v) c x = put (relink s c x) a v.
Proof. destruct c as [|[g b r|l g b] c]; [done|..]; cbn; intros Hne; unfold put; cbn; by rewrite insert_insert_ne. Qed.

Lemma reparent_put s t par a v : a <> ptr t -> reparent (put s a v) t par = put (reparent s t par) a v.
Proof. destruct t as [|l p b r]; [done|]. cbn. intros Hne. unfold put. cbn. by rewrite insert_insert_ne. Qed.

Lemma reparent_relink s t par c x : t = Leaf \/ ptr t <> cptr c -> reparent (relink s c x) t par = relink (reparent s t par) c x.
Proof. destruct t as [|l p b r]; [done|]. intros [?|Hne]; [done|]. symmetry. by apply relink_put. Qed.

Lemma reparent_swap s t par t' par' : t = Leaf \/ ptr t <> ptr t' -> reparent (reparent s t' par') t par = reparent (reparent s t par) t' par'.
Proof. destruct t as [|l p b r]; [done|]. intros [?|Hne]; [done|]. symmetry. by apply reparent_put. Qed.

Lemma ne_cptr a c : addr a -> a ∉ cnodes c -> a <> cptr c.
Proof. intros [Ha _] Hn ->. apply Hn, cptr_elem. intros ->. cbn in Ha. lia. Qed.

Lemma ne_ptr a t : addr a -> a ∉ elems t -> a <> ptr t.
Proof. intros [Ha _] Hn ->. apply Hn, ptr_elem. intros ->. cbn in Ha. lia. Qed.

(** ** A node with two children *)

(** The steps of [replace_by_next] that both its branches take, after the pointer to the node
    was changed. *)
Lemma replace_start {A} s x nx l rn b bn up (k : M state A) :
  get_balance x s = done (b, s) ->
  heap s !! nx = Some (mk_node 0 rn (pack up bn)) -> rep (heap s) x l -> l <> Leaf -> link x -> addr nx -> link up ->
  -2 <= b <= 2 -> -2 <= bn <= 2 -> nx ∉ elems l ->
  (b ← get_balance x; _ ← set_balance b nx; _ ← put_left nx (ptr l); _ ← set_parent nx (ptr l); k) s
  = k (reparent (put s nx (mk_node (ptr l) rn (pack up b))) l nx).
Proof.
  intros Hbal Hnx Hl Hne Hlx Hanx Hup Hb Hbn Hnot.
  rewrite (bind_done _ _ _ _ _ Hbal), (bind_done _ _ _ _ _ (set_balance_ok s nx _ _ _ _ b Hnx Hup Hbn Hb)).
  set (s1 := mk_state _ _). assert (heap s1 !! nx = Some (mk_node 0 rn (pack up b))) as E1 by (unfold s1; cbn; by rewrite lookup_insert_eq).
  rewrite (bind_done (put_left nx (ptr l)) _ _ _ _ (change_ok s1 nx _ _ E1)). set (s2 := mk_state _ _).
  assert (s2 = put s nx (mk_node (ptr l) rn (pack up b))) as <- by apply put_twice.
  assert (rep (heap s2) x l) as Hl2.
  { eapply rep_ext; [|exact Hl]. intros a Ha. unfold s2, s1. cbn. rewrite !lookup_insert_ne by (by intros ->). done. }
  pose proof (set_parent_tree s2 l x nx Hl2 Hlx (addr_link _ Hanx)) as E2.
  rewrite (proj2 (Z.eqb_neq _ _)) in E2 by (by rewrite (ptr_0 _ _ _ Hl2)). by rewrite (bind_done _ _ _ _ _ E2).
Qed.

(** The successor is the right child. *)
Lemma replace_near s c l x b nx bn rn : at_place s c (Node l x b (Node Leaf nx bn rn)) -> l <> Leaf ->
  exists s2, replace_by_next x nx (ptr l) nx (cptr c) (relink s c nx) = done ((nx, ptr rn, false), s2)
  /\ (if ptr rn =? 0 then mret tt else set_parent nx (ptr rn)) s2 = done (tt, put_at s c l nx b rn).
Proof.
  intros Hat Hne. pose proof (at_node _ _ _ _ _ _ Hat) as (Hax & Hb & Hlk & Hx).
  pose proof Hat as [(_ & _ & _ & Hl & (Hanx & Hbn & Hnx & _ & Hrn)) Hc Hroot Hn]. cbn [elems app] in Hn.
  rewrite <- !app_assoc in Hn. cbn in Hn. apply NoDup_app in Hn as (Hnl & Hdl & Hn). apply NoDup_cons in Hn as [Hnx1 Hn].
  apply NoDup_cons in Hn as [Hnx2 Hn]. apply NoDup_app in Hn as (Hnr & Hdr & Hnc).
  set (s1 := relink s c nx). assert (forall a, a ∉ cnodes c -> heap s1 !! a = heap s !! a) as E1 by (intros; by apply relink_other).
  assert (heap s1 !! nx = Some (mk_node 0 (ptr rn) (pack x bn))) as Hnx' by (rewrite E1 by set_solver; done).
  assert (rep (heap s1) x l) as Hl1 by (eapply rep_ext; [intros a Ha; apply E1; set_solver | done]).
  assert (rep (heap s1) nx rn) as Hr1 by (eapply rep_ext; [intros a Ha; apply E1; set_solver | done]).
  assert (get_balance x s1 = done (b, s1)) as Hbal by (eapply get_balance_ok; [rewrite E1 by set_solver; exact Hx | done | lia]).
  assert (nx ∉ elems l) as Hnot by (intros Hin; apply (Hdl nx Hin); set_solver).
  unfold replace_by_next. pose proof (addr_link _ Hax) as Hlx. pose proof (addr_link _ Hanx) as Hlnx.
  rewrite (replace_start s1 x nx l (ptr rn) b bn x _ Hbal Hnx' Hl1 Hne Hlx Hanx Hlx Hb Hbn Hnot).
  rewrite Z.eqb_refl. cbn [negb]. set (s2 := reparent _ l nx).
  assert (forall a, a ∉ elems l -> a <> nx -> heap s2 !! a = heap s1 !! a) as E2.
  { intros a Ha1 Ha2. unfold s2. rewrite reparent_other by done. cbn. by rewrite lookup_insert_ne. }
  assert (heap s2 !! nx = Some (mk_node (ptr l) (ptr rn) (pack x b))) as Hnx2'.
  { unfold s2. rewrite reparent_other by set_solver. cbn. by rewrite lookup_insert_eq. }
  rewrite (bind_done _ _ _ _ _ (set_parent_ok s2 nx _ _ _ _ (cptr c) Hnx2' (addr_link _ Hax) Hb Hlk)). set (s3 := mk_state _ _).
  assert (heap s3 !! nx = Some (mk_node (ptr l) (ptr rn) (pack (cptr c) b))) as Hnx3 by (unfold s3; cbn; by rewrite lookup_insert_eq).
  rewrite (bind_done _ _ _ _ _ (get_right_ok s3 nx _ Hnx3)). exists s3. split; [done|].
  rewrite (set_parent_tree s3 rn nx nx); [..| by apply addr_link | by apply addr_link].
  2: { eapply rep_ext; [|exact Hr1]. intros a Ha. unfold s3. cbn. rewrite lookup_insert_ne, E2 by set_solver. done. }
  fold (put s2 nx (mk_node (ptr l) (ptr rn) (pack (cptr c) b))) in s3. do 2 f_equal. unfold put_at, s3, s2, s1.
  assert (nx <> ptr l) by (by apply ne_ptr). assert (nx <> cptr c) by (apply ne_cptr; [done | set_solver]).
  rewrite <- reparent_put, put_twice, relink_put by done. done.
Qed.

Lemma at_app s c1 c2 t : at_place s (c1 ++ c2) t <-> at_place s c2 (plug c1 t).
Proof. rewrite <- (at_plug s (c1 ++ c2)), plug_app. apply at_plug. Qed.

Lemma reparent_ne s t par a : t = Leaf \/ ptr t <> a -> heap (reparent s t par) !! a = heap s !! a.
Proof. destruct t as [|l p b r]; [done|]. intros [?|Hne]; [done|]. cbn in *. by rewrite lookup_insert_ne. Qed.

Lemma ptr_plug f c t : ptr (plug (f :: c) t) = root_of c (fptr f).
Proof.
  revert f t. induction c as [|g c IH]; intros f t; [by destruct f|]. cbn [plug foldl root_of]. fold (plug c (fill g (fill f t))).
  specialize (IH g (fill f t)). cbn [plug foldl] in IH. fold (plug c (fill g (fill f t))) in IH. exact IH.
Qed.

Lemma plug_node f c t : plug (f :: c) t <> Leaf.
Proof. revert f t. induction c as [|g c IH]; intros f t; [by destruct f|]. apply (IH g (fill f t)). Qed.

Lemma root_of_in f c : root_of c (fptr f) ∈ cnodes (f :: c).
Proof.
  revert f. induction c as [|g c IH]; intros f; [destruct f; by left|]. cbn [root_of]. unfold cnodes. cbn [map concat].
  apply elem_of_app. right. apply IH.
Qed.

Lemma ne_tree a t : t = Leaf \/ a ∉ elems t -> t = Leaf \/ ptr t <> a.
Proof. intros [?|Hn]; [by left|]. destruct (decide (t = Leaf)) as [|Hne]; [by left|]. right. intros <-. by apply Hn, ptr_elem. Qed.

(** The nodes when the successor is further down: those of [rn], those between it and the
    node [x], those left of [x] and those above. *)
Record far_apart (cf : ctx) (l : tr) (x : Z) (c : ctx) (nx : Z) (rn : tr) : Prop := {
  far_nx : nx ∉ elems rn /\ nx ∉ cnodes cf /\ nx ∉ elems l /\ nx ∉ cnodes c;
  far_x : x ∉ elems l /\ x ∉ cnodes c /\ x <> nx;
  far_rn : forall a, a ∈ elems rn -> a ∉ cnodes cf /\ a ∉ elems l /\ a ∉ cnodes c;
  far_cf : forall a, a ∈ cnodes cf -> a <> x /\ a ∉ elems l /\ a ∉ cnodes c;
  far_l : forall a, a ∈ elems l -> a ∉ cnodes c
}.

Lemma far_nodup s cf l x b c nx bn rn : at_place s (cf ++ FR l x b :: c) (Node Leaf nx bn rn) -> far_apart cf l x c nx rn.
Proof.
  intros [_ _ _ Hn]. unfold cnodes in Hn. rewrite map_app, concat_app in Hn. cbn in Hn. fold (cnodes cf) (cnodes c) in Hn.
  apply NoDup_cons in Hn as [H1 Hn]. apply NoDup_app in Hn as (_ & H2 & Hn). apply NoDup_app in Hn as (_ & H3 & Hn).
  apply NoDup_cons in Hn as [H4 Hn]. apply NoDup_app in Hn as (_ & H5 & _).
  rewrite !not_elem_of_app, not_elem_of_cons, not_elem_of_app in H1. rewrite not_elem_of_app in H4.
  destruct H1 as (? & ? & ? & ? & ?), H4 as [? ?].
  split; [done | done | | | done]; intros a Ha; [specialize (H2 a Ha) | specialize (H3 a Ha)].
  - rewrite not_elem_of_app, not_elem_of_cons, not_elem_of_app in H2. naive_solver.
  - rewrite not_elem_of_cons, not_elem_of_app in H3. naive_solver.
Qed.

Lemma set_parent_cell s s' t par par' : rep (heap s') par t -> t <> Leaf -> heap s !! ptr t = heap s' !! ptr t ->
  link par -> link par' -> set_parent par' (ptr t) s = done (tt, reparent s t par').
Proof.
  intros Hr Hne E Hp Hp'. destruct t as [|l p b r]; [done|]. destruct Hr as (_ & Hb & Hh & _). cbn [ptr] in *.
  apply (set_parent_ok s p _ _ par b); [by rewrite E | done | lia | done].
Qed.

(** The successor is further down: [up] is the node above it. *)
Section far.
Context (s : state) (up bu : Z) (ru : tr) (cl : ctx) (l : tr) (x b : Z) (c : ctx) (nx bn : Z) (rn : tr).
Let cf := FL up bu ru :: cl.
Let C := cf ++ FR l x b :: c.
Let r' := plug cf rn.
Let U := mk_node (ptr rn) (ptr ru) (pack (cptr (cl ++ FR l x b :: c)) bu).
Let C3 := mk_node (ptr l) (ptr r') (pack (cptr c) b).
Context (Hat : at_place s C (Node Leaf nx bn rn)) (Hne : l <> Leaf).

(** The successor alone is taken out. *)
Let su := reparent (put s up U) rn up.

Lemma far_unlinked : at_place su c (Node l x b r').
Proof.
  apply (at_fill su (FR l x b)), (at_app su cf (FR l x b :: c)).
  apply (unlink_at s C Leaf nx bn rn rn Hat). by right.
Qed.

Lemma far_pr : ptr r' ∈ cnodes cf /\ ptr (plug cf (Node Leaf nx bn rn)) = ptr r'.
Proof. unfold r', cf. rewrite !ptr_plug. split; [apply root_of_in | done]. Qed.

(** The writes before the right subtree gets its parent, in the order of [put_at]. *)
Lemma far_writes (C1 C2 : avltree_node) :
  put (put (put (reparent (put (relink s c nx) nx C1) l nx) nx C2) up U) nx C3
  = reparent (relink (put (put s up U) nx C3) c nx) l nx.
Proof.
  pose proof (far_nodup _ _ _ _ _ _ _ _ _ Hat) as [(_ & Hn1 & Hn2 & Hn3) _ _ Hcf _].
  pose proof (at_node _ _ _ _ _ _ Hat) as (Hanx & _). pose proof (at_ctx _ _ _ Hat) as [[Hau _] _].
  assert (up ∈ cnodes cf) as Hin by (by left). destruct (Hcf up Hin) as (_ & Hu1 & Hu2).
  assert (nx <> up) as Hnu by (by intros ->). assert (nx <> ptr l) by (by apply ne_ptr). assert (nx <> cptr c) by (by apply ne_cptr).
  assert (up <> ptr l) by (by apply ne_ptr). assert (up <> cptr c) by (by apply ne_cptr).
  rewrite !relink_put, !reparent_put by done. by rewrite put_twice, (put_swap _ nx up), put_twice by done.
Qed.

(** A node between is as it is without the successor. *)
Lemma far_between a : a ∈ cnodes cf ->
  heap (reparent (relink (put (put s up U) nx C3) c nx) l nx) !! a = heap su !! a.
Proof.
  intros Ha. pose proof (far_nodup _ _ _ _ _ _ _ _ _ Hat) as [(_ & Hn1 & _) _ Hrn Hcf _]. destruct (Hcf a Ha) as (_ & Hl & Hc).
  rewrite reparent_other, relink_other by done. unfold su. rewrite reparent_other.
  - cbn. rewrite lookup_insert_ne by (by intros ->). done.
  - intros Hin. by destruct (Hrn a Hin).
Qed.

Lemma replace_far :
  exists s2, replace_by_next x nx (ptr l) (ptr r') (cptr c) (relink s c nx) = done ((up, ptr rn, true), s2)
  /\ (if ptr rn =? 0 then mret tt else set_parent up (ptr rn)) s2 = done (tt, put_at su c l nx b r').
Proof.
  pose proof (far_nodup _ _ _ _ _ _ _ _ _ Hat) as [(Hn0 & Hn1 & Hn2 & Hn3) (Hx1 & Hx2 & Hx3) Hrn Hcf Hlc].
  pose proof (at_node _ _ _ _ _ _ Hat) as (Hanx & Hbn & _ & Hnx). pose proof Hat as [(_ & _ & _ & _ & Hrr) [(Hau & Hbu & Hup & _) _] _ _].
  pose proof (proj1 (at_app s cf (FR l x b :: c) _) Hat) as Hat2. apply (at_fill s (FR l x b)) in Hat2. cbn [fill] in Hat2.
  pose proof (at_node _ _ _ _ _ _ Hat2) as (Hax & Hb & Hlk & Hx). pose proof Hat2 as [(_ & _ & _ & Hl & _) _ _ _].
  destruct far_pr as [Hpr Epr]. rewrite Epr in Hx.
  assert (up ∈ cnodes cf) as Hin by (by left). destruct (Hcf up Hin) as (Hux & Hu1 & Hu2).
  pose proof (addr_link _ Hax) as Hlx. pose proof (addr_link _ Hanx) as Hlnx. pose proof (addr_link _ Hau) as Hlu.
  set (s1 := relink s c nx). assert (forall a, a ∉ cnodes c -> heap s1 !! a = heap s !! a) as E1 by (intros; by apply relink_other).
  assert (heap s1 !! nx = Some (mk_node 0 (ptr rn) (pack up bn))) as Hnx' by (by rewrite E1).
  assert (rep (heap s1) x l) as Hl1 by (eapply rep_ext; [intros a Ha; apply E1; auto | done]).
  assert (get_balance x s1 = done (b, s1)) as Hbal by (eapply get_balance_ok; [rewrite E1 by done; exact Hx | done | done]).
  unfold replace_by_next. rewrite (replace_start s1 x nx l (ptr rn) b bn up _ Hbal Hnx' Hl1 Hne Hlx Hanx Hlu Hb Hbn Hn2).
  rewrite (proj2 (Z.eqb_neq _ _)) by (intros ->; done). cbn [negb].
  set (K1 := mk_node (ptr l) (ptr rn) (pack up b)). set (s2 := reparent _ l nx).
  assert (forall a, a ∉ elems l -> a <> nx -> heap s2 !! a = heap s1 !! a) as E2.
  { intros a Ha1 Ha2. unfold s2. rewrite reparent_other by done. cbn. by rewrite lookup_insert_ne. }
  assert (heap s2 !! nx = Some K1) as Hnx2 by (unfold s2; rewrite reparent_other by done; cbn; by rewrite lookup_insert_eq).
  rewrite (bind_done _ _ _ _ _ (get_parent_ok s2 nx _ _ _ _ Hnx2 Hlu Hb)).
  assert (heap s2 !! x = Some (mk_node (ptr l) (ptr r') (pack (cptr c) b))) as Hx' by (by rewrite E2, E1).
  rewrite (bind_done _ _ _ _ _ (get_parent_ok s2 x _ _ _ _ Hx' Hlk Hb)).
  rewrite (bind_done _ _ _ _ _ (set_parent_ok s2 nx _ _ _ _ (cptr c) Hnx2 Hlu Hb Hlk)). set (K2 := mk_node _ _ (pack (cptr c) b)).
  set (s3 := mk_state _ _). assert (heap s3 !! nx = Some K2) as Hnx3 by (unfold s3; cbn; by rewrite lookup_insert_eq).
  rewrite (bind_done _ _ _ _ _ (get_right_ok s3 nx _ Hnx3)). cbn [right K2].
  assert (heap s3 !! up = heap s !! up) as Hup3.
  { unfold s3. cbn. rewrite lookup_insert_ne, E2, E1 by (done || by intros ->). done. }
  rewrite Hup in Hup3. rewrite (bind_done (put_left up _) _ _ _ _ (change_ok s3 up _ _ Hup3)). set (s4 := mk_state _ _).
  assert (heap s4 !! nx = Some K2) as Hnx4 by (unfold s4; cbn; by rewrite lookup_insert_ne by (by intros ->)).
  rewrite (bind_done (put_right nx _) _ _ _ _ (change_ok s4 nx _ _ Hnx4)). set (s5 := mk_state _ _).
  assert (s5 = reparent (relink (put (put s up U) nx C3) c nx) l nx) as E5 by (exact (far_writes K1 K2)).
  rewrite E5. set (s6 := reparent (relink _ _ _) l nx). pose proof far_unlinked as [(_ & _ & _ & _ & Hr') _ _ _].
  assert (r' <> Leaf) as Hr0 by (unfold r', cf; apply plug_node).
  rewrite (bind_done _ _ _ _ _ (set_parent_cell s6 su r' x nx Hr' Hr0 (far_between _ Hpr) Hlx Hlnx)).
  eexists. split; [done|]. assert (forall a, a ∈ elems rn -> heap (reparent s6 r' nx) !! a = heap s !! a) as E6.
  { intros a Ha. destruct (Hrn a Ha) as (Ha1 & Ha2 & Ha3). rewrite reparent_ne by (right; by intros <-).
    unfold s6. rewrite reparent_other, relink_other by done. cbn. rewrite !lookup_insert_ne by (by intros ->). done. }
  assert (rep (heap (reparent s6 r' nx)) nx rn) as Hrn6 by (eapply rep_ext; [exact E6 | done]).
  rewrite (set_parent_tree _ rn nx up Hrn6 Hlnx Hlu). do 2 f_equal. unfold put_at, su, s6. fold C3.
  assert (forall a, a ∉ elems rn -> rn = Leaf \/ ptr rn <> a) as Hd by (intros; by apply ne_tree; right).
  rewrite reparent_swap by (apply Hd; intros Hi; by destruct (Hrn _ Hi)).
  rewrite (reparent_swap _ rn up l nx) by (apply Hd; intros Hi; destruct (Hrn _ Hi) as (_ & Hi' & _); by apply Hi', ptr_elem).
  rewrite reparent_relink.
  - by rewrite (reparent_put _ rn up nx C3) by (by apply ne_ptr).
  - destruct (decide (c = [])) as [->|Hc0]; [|apply Hd; intros Hi; destruct (Hrn _ Hi) as (_ & _ & Hi'); by apply Hi', cptr_elem].
    destruct (decide (rn = Leaf)) as [|Hrl]; [by left|]. right. cbn. by rewrite (ptr_0 _ _ _ Hrr).
Qed.
End far.

(** ** The place that has lost a level *)

(** From [s] and the tree [t0] without its node [x]: the place [c'] with the tree [u], where a
    level is missing. *)
Record unlinked (s : state) (t0 : tr) (N : list Z) (s' : state) (c' : ctx) (u : tr) : Prop := {
  un_at : at_place s' c' u;
  un_balanced : balanced u;
  un_cok : cok c' (ht u + 1);
  un_height : ctop c' (ht u + 1) = ht t0;
  un_elems : elems (plug c' u) = N;
  un_moved : moved N s s'
}.

Lemma remove_one fuel s c l x b r u : at_place s c (Node l x b r) -> balanced (plug c (Node l x b r)) ->
  l = Leaf /\ u = r \/ r = Leaf /\ u = l ->
  exists s', remove_unlink fuel x (cptr c) (ptr l) (ptr r) s = done ((cptr c, is_FL c), s')
  /\ unlinked s (plug c (Node l x b r)) (cleft c ++ (elems l ++ elems r) ++ cright c) s' c u.
Proof.
  intros Hat Hbal Hu. pose proof (at_node _ _ _ _ _ _ Hat) as (Hax & _ & Hlk & _). pose proof Hat as [(_ & _ & _ & Hl & Hr) _ _ _].
  assert (rep (heap s) x u /\ elems l ++ elems r = elems u) as [Hru Hel].
  { destruct Hu as [[-> ->]|[-> ->]]; [done|]. by rewrite app_nil_r. }
  exists (reparent (relink s c (ptr u)) u (cptr c)).
  assert (u = l \/ u = r) as Hu' by naive_solver. pose proof (unlink_at _ _ _ _ _ _ _ Hat Hu') as Hat'.
  apply balanced_plug in Hbal as [(Hb & Hbr & Hbl & Hbr') Hok]. pose proof (ht_nonneg u) as Hhu.
  assert (ht (Node l x b r) = ht u + 1) as Hht by (cbn; destruct Hu as [[-> ->]|[-> ->]]; cbn; lia).
  pose proof (at_nodup _ _ _ Hat') as Hnd. apply NoDup_app in Hnd as (_ & Hd & _). split.
  - unfold remove_unlink. erewrite (bind_done _ _ s (ptr u) s).
    2: { destruct Hu as [[-> ->]|[-> ->]]; [done|]. cbn. destruct (Z.eqb_spec (ptr l) 0) as [->|]; done. }
    rewrite (bind_done _ _ _ _ _ (detach_ok s c l x b r (ptr u) Hat)).
    assert (negb (ptr l =? 0) && negb (ptr r =? 0) = false) as -> by (destruct Hu as [[-> ->]|[-> ->]]; cbn; by rewrite ?andb_false_r).
    rewrite (bind_done _ _ _ (cptr c, ptr u, is_FL c) _ eq_refl).
    rewrite (bind_done _ _ _ _ _ (set_parent_tree (relink s c (ptr u)) u x (cptr c) ltac:(eapply rep_ext; [|exact Hru];
      intros a Ha; apply relink_other; auto) (addr_link _ Hax) Hlk)). done.
  - split; [done | naive_solver | by rewrite <- Hht | by rewrite ht_plug, Hht | by rewrite elems_plug, Hel |].
    split; [|rewrite reparent_tree; apply relink_tree]. intros a Ha. rewrite Hel, <- elems_plug, <- nodes_perm, not_elem_of_app in Ha.
    destruct Ha. by rewrite reparent_other, relink_other.
Qed.

Lemma put_at_other s c l y b r a : a ∉ elems (Node l y b r) ++ cnodes c -> heap (put_at s c l y b r) !! a = heap s !! a.
Proof.
  cbn. rewrite !not_elem_of_app, not_elem_of_cons. intros [(H1 & H2 & H3) H4]. unfold put_at.
  rewrite !reparent_other, relink_other by done. cbn. by rewrite lookup_insert_ne.
Qed.

Lemma put_at_tree s c l y b r : tree (put_at s c l y b r) = set_root (root (tree (put_at s c l y b r))) (tree s).
Proof. unfold put_at. rewrite !reparent_tree. exact (relink_tree (put s y _) c y). Qed.

(** The successor in the place of [x] changes no height. *)
Lemma cok_other cl l x y b c n : cok (cl ++ FR l x b :: c) n -> cok (cl ++ FR l y b :: c) n.
Proof. revert n. induction cl as [|f cl IH]; intros n; [done|]. intros [Hf Hc]. split; [done|]. by apply IH. Qed.

Lemma ctop_other cl l x y b c n : ctop (cl ++ FR l x b :: c) n = ctop (cl ++ FR l y b :: c) n.
Proof. unfold ctop. by rewrite !foldl_app. Qed.

Lemma unlinked_two s0 s cl l x b c nx bn rn :
  all_left cl -> balanced (plug c (Node l x b (plug cl (Node Leaf nx bn rn)))) ->
  at_place s c (Node l nx b (plug cl rn)) -> moved (elems (plug c (Node l nx b (plug cl rn)))) s0 s ->
  unlinked s0 (plug c (Node l x b (plug cl (Node Leaf nx bn rn))))
    (cleft c ++ (elems l ++ elems (plug cl (Node Leaf nx bn rn))) ++ cright c) s (cl ++ FR l nx b :: c) rn.
Proof.
  intros Hcl Hbal Hat Hmv.
  assert (forall t y, plug c (Node l y b (plug cl t)) = plug (cl ++ FR l y b :: c) t) as Ep by (intros; by rewrite plug_app).
  rewrite Ep in Hbal, Hmv. apply balanced_plug in Hbal as [(Hb & Hbr & _ & Hrn) Hok]. pose proof (ht_nonneg rn).
  assert (ht (Node Leaf nx bn rn) = ht rn + 1) as Hht by (cbn; lia).
  assert (elems (plug (cl ++ FR l nx b :: c) rn) = cleft c ++ (elems l ++ elems (plug cl (Node Leaf nx bn rn))) ++ cright c) as Hel.
  { rewrite <- Ep, elems_plug. cbn. rewrite !elems_plug, (all_left_cleft _ Hcl). done. }
  split; [|done| | |done|by rewrite <- Hel].
  - apply at_app, (proj1 (at_fill s (FR l nx b) c (plug cl rn))). done.
  - rewrite <- Hht. by eapply cok_other.
  - rewrite Ep, ht_plug, Hht. apply ctop_other.
Qed.

(** The successor takes the place of [x], near or far. *)
Lemma put_at_moved s0 s c l y b r N : moved N s0 s -> elems (Node l y b r) ++ cnodes c ⊆ N ->
  moved N s0 (put_at s c l y b r).
Proof.
  intros Hm Hsub. eapply moved_trans; [exact Hm|]. split; [|apply put_at_tree]. intros a Ha. apply put_at_other. set_solver.
Qed.

Lemma far_near s c l x b cl nx bn rn :
  at_place s c (Node l x b (plug cl (Node Leaf nx bn rn))) -> l <> Leaf -> all_left cl ->
  exists s2 up s', replace_by_next x nx (ptr l) (ptr (plug cl (Node Leaf nx bn rn))) (cptr c) (relink s c nx)
      = done ((up, ptr rn, is_FL (cl ++ FR l nx b :: c)), s2)
    /\ (if ptr rn =? 0 then mret tt else set_parent up (ptr rn)) s2 = done (tt, s') /\ up = cptr (cl ++ FR l nx b :: c)
    /\ at_place s' c (Node l nx b (plug cl rn)) /\ moved (elems (plug c (Node l nx b (plug cl rn)))) s s'.
Proof.
  intros Hat Hl0 Hcl. pose proof (proj1 (at_fill s (FR l x b) c _) Hat) as Hatr. apply at_app in Hatr.
  pose proof (at_node _ _ _ _ _ _ Hatr) as (Hanx & _). pose proof (at_node _ _ _ _ _ _ Hat) as (_ & Hb & _).
  destruct (far_nodup _ _ _ _ _ _ _ _ _ Hatr) as [(Hn0 & Hn1 & Hn2 & Hn3) _ Hrn Hcf Hlc].
  assert (NoDup (elems (Node l nx b (plug cl rn)) ++ cnodes c)) as Hnd.
  { pose proof (at_nodup _ _ _ Hatr) as Hnd. cbn. rewrite <- (nodes_perm cl rn).
    match goal with |- NoDup ?L => assert (Hp : (nx :: elems rn) ++ cnodes (cl ++ FR l x b :: c) ≡ₚ x :: L) end.
    { unfold cnodes. rewrite map_app, concat_app. cbn. solve_Permutation. }
    cbn [elems app] in Hnd. cbn [app] in Hp. rewrite Hp in Hnd. by apply NoDup_cons in Hnd as [_ Hnd]. }
  destruct cl as [|[up bu ru|? ? ?] cl]; [| |by apply Forall_cons in Hcl as [? _]].
  - destruct (replace_near s c l x b nx bn rn Hat Hl0) as (s2 & E1 & E2). exists s2, nx, (put_at s c l nx b rn).
    pose proof Hat as [(_ & _ & _ & Hl & (_ & _ & _ & _ & Hr)) Hc Hroot _].
    split_and!; [done | done | done | by eapply put_at_ok|]. apply put_at_moved; [apply moved_refl|].
    rewrite <- nodes_perm. done.
  - destruct (replace_far s up bu ru cl l x b c nx bn rn Hatr Hl0) as (s2 & E1 & E2). rewrite (ptr_plug _ cl rn) in E1. rewrite ptr_plug.
    pose proof (far_unlinked s up bu ru cl l x b c nx bn rn Hatr) as Hatu. destruct Hatu as [(_ & _ & _ & Hl & Hr) Hc Hroot _].
    eexists s2, up, _. split_and!; [exact E1 | exact E2 | done | by eapply put_at_ok |].
    apply put_at_moved; [|by rewrite <- nodes_perm]. split; [|rewrite !reparent_tree; cbn; by destruct (tree s)].
    intros a Ha. rewrite <- nodes_perm in Ha. cbn in Ha. rewrite <- (nodes_perm (FL up bu ru :: cl) rn) in Ha.
    rewrite !not_elem_of_app, not_elem_of_cons, !not_elem_of_app in Ha. destruct Ha as [(_ & _ & Ha1 & Ha2) _].
    rewrite reparent_other by done. cbn. rewrite lookup_insert_ne; [done|]. intros ->. apply Ha2. by left.
Qed.

Lemma remove_two fuel s c l x b r : at_place s c (Node l x b r) -> balanced (plug c (Node l x b r)) ->
  l <> Leaf -> r <> Leaf -> ht r <= Z.of_nat fuel ->
  exists s' c' u, remove_unlink fuel x (cptr c) (ptr l) (ptr r) s = done ((cptr c', is_FL c'), s')
  /\ unlinked s (plug c (Node l x b r)) (cleft c ++ (elems l ++ elems r) ++ cright c) s' c' u.
Proof.
  intros Hat Hbal Hl0 Hr0 Hf. pose proof (proj1 (at_fill s (FR l x b) c r) Hat) as Hatr.
  pose proof Hat as [(_ & _ & _ & Hl & Hr) Hc Hroot _].
  destruct (get_first_spec fuel s _ r Hatr Hr0 Hf) as (cl & nx & bn & rn & -> & Hcl & Efirst).
  destruct (far_near s c l x b cl nx bn rn Hat Hl0 Hcl) as (s2 & up & s' & E1 & E2 & -> & Hat' & Hmv).
  exists s', (cl ++ FR l nx b :: c), rn. split; [|by apply unlinked_two]. unfold remove_unlink.
  rewrite (proj2 (Z.eqb_neq (ptr l) 0)) by (by rewrite (ptr_0 _ _ _ Hl)). rewrite (proj2 (Z.eqb_neq (ptr (plug cl _)) 0)) by (by rewrite (ptr_0 _ _ _ Hr)).
  rewrite (bind_done _ _ _ _ _ Efirst), (bind_done _ _ _ _ _ (detach_ok s c l x b _ nx Hat)). cbn [negb andb].
  assert (cptr (cl ++ FR l nx b :: c) <> 0) as H0.
  { assert (cl ++ FR l nx b :: c <> []) as Hcne by (by destruct cl). pose proof (proj1 (at_fill s' (FR l nx b) c (plug cl rn)) Hat') as Ha2.
    apply at_app in Ha2. by rewrite (cptr_0 _ _ _ (at_ctx _ _ _ Ha2)). }
  erewrite bind_done; [|erewrite bind_done; [|exact E1]; cbn [fst snd]; rewrite (proj2 (Z.eqb_neq _ _) H0); reflexivity].
  cbn beta iota. by rewrite (bind_done _ _ _ _ _ E2).
Qed.

(** ** The whole removal *)

Lemma ctop_length c n : Z.of_nat (List.length c) + n <= ctop c n.
Proof.
  revert n. induction c as [|f c IH]; intros n; [cbn; lia|]. specialize (IH (ftop f n)).
  change (ctop (f :: c) n) with (ctop c (ftop f n)). assert (n + 1 <= ftop f n) by (unfold ftop; lia). cbn [List.length]. lia.
Qed.

(** The ends of a list without one of its elements. *)
Lemma hd_without (A B : list Z) x : NoDup (A ++ x :: B) ->
  List.hd 0 (A ++ B) = if x =? List.hd 0 (A ++ x :: B) then List.hd 0 B else List.hd 0 (A ++ x :: B).
Proof.
  intros Hn. destruct A as [|a A]; cbn; [by rewrite Z.eqb_refl|]. destruct (Z.eqb_spec x a) as [->|]; [|done].
  exfalso. apply NoDup_cons in Hn as [Hn _]. apply Hn, elem_of_app. right. by left.
Qed.

Lemma last_without (A B : list Z) x : NoDup (A ++ x :: B) ->
  List.last (A ++ B) 0 = if x =? List.last (A ++ x :: B) 0 then List.last A 0 else List.last (A ++ x :: B) 0.
Proof.
  intros Hn. destruct (decide (B = [])) as [->|Hne]; [by rewrite last_last, Z.eqb_refl, app_nil_r|].
  destruct (exists_last Hne) as (B' & y & ->). rewrite app_comm_cons, !app_assoc, !last_last.
  destruct (Z.eqb_spec x y) as [->|]; [|done]. exfalso. apply NoDup_app in Hn as (_ & _ & Hn). apply NoDup_cons in Hn as [Hn _].
  apply Hn, elem_of_app. right. by left.
Qed.

Lemma remove_ends_ok fuel s c l x b r : at_place s c (Node l x b r) -> ht (plug c (Node l x b r)) <= Z.of_nat fuel ->
  let A := cleft c ++ elems l in
  let B := elems r ++ cright c in
  NoDup (A ++ x :: B) -> first (tree s) = List.hd 0 (A ++ x :: B) -> last (tree s) = List.last (A ++ x :: B) 0 ->
  remove_ends fuel x s = done (tt, mk_state (heap s) (set_last (List.last (A ++ B) 0) (set_first (List.hd 0 (A ++ B)) (tree s)))).
Proof.
  intros Hat Hf A B Hn H1 H2. unfold remove_ends. rewrite (bind_done get_tree _ s (tree s) s) by done.
  set (s1 := mk_state (heap s) (set_first (List.hd 0 (A ++ B)) (tree s))).
  rewrite (bind_done _ _ s tt s1).
  2: { unfold s1. rewrite (hd_without A B x Hn), H1. destruct (x =? List.hd 0 (A ++ x :: B)).
       - by rewrite (bind_done _ _ _ _ _ (next_at _ _ _ _ _ _ _ Hat Hf)).
       - rewrite <- H1. by destruct s as [? []]. }
  assert (at_place s1 c (Node l x b r)) as Hat1 by (by apply at_tree).
  rewrite (bind_done get_tree _ s1 (tree s1) s1) by done. unfold s1 at 1. cbn [tree last set_first]. rewrite (last_without A B x Hn), H2.
  destruct (x =? List.last (A ++ x :: B) 0).
  - by rewrite (bind_done _ _ _ _ _ (prev_at _ _ _ _ _ _ _ Hat1 Hf)).
  - rewrite <- H2. unfold s1. by destruct s as [? []].
Qed.

(** The node leaves its place, whichever children it has. *)
Lemma remove_unlink_ok fuel s c l x b r : at_place s c (Node l x b r) -> balanced (plug c (Node l x b r)) ->
  ht r <= Z.of_nat fuel ->
  exists s' c' u, remove_unlink fuel x (cptr c) (ptr l) (ptr r) s = done ((cptr c', is_FL c'), s')
  /\ unlinked s (plug c (Node l x b r)) (cleft c ++ (elems l ++ elems r) ++ cright c) s' c' u.
Proof.
  intros Hat Hbal Hf. destruct (decide (l = Leaf)) as [El|Hl].
  { destruct (remove_one fuel s c l x b r r Hat Hbal) as (s' & E & Hun); [by left|]. eauto. }
  destruct (decide (r = Leaf)) as [Er|Hr]; [|by apply remove_two].
  destruct (remove_one fuel s c l x b r l Hat Hbal) as (s' & E & Hun); [by right|]. eauto.
Qed.

Lemma u64_pred k : u64 (u64 k - 1) = u64 (k - 1).
Proof. unfold u64. by rewrite Zminus_mod_idemp_l. Qed.

Lemma sorted_without cmp A B x : sorted cmp (A ++ x :: B) -> sorted cmp (A ++ B).
Proof.
  intros (H1 & [_ H2]%sorted_cons & H3)%sorted_app. apply sorted_app. split_and!; [done | done|]. intros a b Ha Hb. apply H3; [done | by right].
Qed.

Section removal.
Context (cmp : Z -> Z -> Z) `{HO : !Order cmp}.

(** The removal of a node from an AVL tree, for every tree that is sorted and balanced and
    every node of it. The function returns; the tree then has the other nodes, in their order,
    it is sorted and balanced, the balance factors, the first and the last node, the size and
    the height are right, and no other memory changes, that of the removed node included. 123
    rounds of the loops are enough for any tree. *)
Theorem remove_correct fuel s t x :
  wf cmp s t -> (123 <= fuel)%nat -> x ∈ elems t ->
  exists s' t' A B, avltree_remove fuel x s = done (tt, s') /\ elems t = A ++ x :: B
  /\ wf cmp s' t' /\ elems t' = A ++ B /\ forall a, a ∉ elems t' -> heap s' !! a = heap s !! a.
Proof.
  intros Hwf Hfuel Hx. pose proof (wf_height_bound _ _ _ Hwf) as Hht. pose proof (wf_nodup _ _ _ Hwf) as Hnd.
  destruct (zip_to t x Hx) as (c & l & b & r & <-). destruct Hwf as [Hat Hb Hs Hfst Hlst Hsz Hh].
  apply (proj1 (at_plug s c _)) in Hat. pose proof (at_node _ _ _ _ _ _ Hat) as (_ & Hbb & Hlk & Hcell).
  set (t0 := plug c (Node l x b r)) in *. set (A := cleft c ++ elems l). set (B := elems r ++ cright c).
  assert (elems t0 = A ++ x :: B) as Hel by (unfold t0, A, B; rewrite elems_plug; cbn; by rewrite <- !app_assoc).
  rewrite Hel in *.
  assert (cleft c ++ (elems l ++ elems r) ++ cright c = A ++ B) as EN by (unfold A, B; by rewrite <- !app_assoc).
  pose proof (remove_ends_ok fuel s c l x b r Hat ltac:(fold t0; lia) Hnd Hfst Hlst) as E1. fold A B in E1. set (s1 := mk_state _ _) in E1.
  assert (at_place s1 c (Node l x b r)) as Hat1 by (by apply at_tree).
  assert (ht r <= Z.of_nat fuel) as Hr. { pose proof (plug_length c (Node l x b r)) as Hpl. cbn [ht] in Hpl. fold t0 in Hpl. lia. }
  destruct (remove_unlink_ok fuel s1 c l x b r Hat1 Hb Hr) as (s2 & c' & u & E2 & [Hat2 Hbu Hok Hctop Hel2 [Hm2 Ht2]]).
  fold t0 in Hctop. rewrite EN in *. set (s3 := mk_state (heap s2) (set_size (u64 (size (tree s2) - 1)) (tree s2))).
  assert (now s3 (A ++ B) s3 c' u) as Hn3 by (split_and!; [by apply at_tree | done | apply moved_refl]).
  pose proof (ctop_length c' (ht u + 1)) as Hlen. pose proof (ht_nonneg u).
  destruct (remove_up_spec _ _ fuel _ _ _ Hn3 Hbu Hok ltac:(lia)) as (sh & s4 & t' & E4 & (Hat4 & Hel4 & [Hm4 Ht4]) & Hb4 & Hht4).
  cbn [plug foldl] in Hel4.
  assert (tree s4 = mk_avl (root (tree s4)) (height (tree s)) (List.hd 0 (A ++ B)) (List.last (A ++ B) 0) (u64 (size (tree s) - 1))) as ET.
  { rewrite Ht4. unfold s3. cbn [tree]. rewrite Ht2. done. }
  set (s5 := if sh : bool then mk_state (heap s4) (set_height (height (tree s4) - 1) (tree s4)) else s4).
  exists s5, t', A, B. split_and!; [|done| |done|].
  - unfold avltree_remove. rewrite (bind_done _ _ _ _ _ (get_parent_ok s x _ _ _ _ Hcell Hlk Hbb)).
    rewrite (bind_done _ _ _ _ _ (get_left_ok s x _ Hcell)), (bind_done _ _ _ _ _ (get_right_ok s x _ Hcell)). cbn [left right].
    rewrite (bind_done _ _ _ _ _ E1), (bind_done _ _ _ _ _ E2), (bind_done (on_tree _) _ s2 tt s3) by done.
    rewrite (bind_done _ _ _ _ _ E4). unfold s5. by destruct sh.
  - assert (at_place s5 [] t') as Hat5 by (unfold s5; destruct sh; [by apply at_tree | done]).
    constructor; [done | done | | | | |]; rewrite ?Hel4; [by eapply sorted_without | ..];
      unfold s5; destruct sh; cbn [tree set_height height first last size]; rewrite ET; cbn [height first last size]; try done.
    1, 2: rewrite Hsz, u64_pred; f_equal; unfold zlen; rewrite !length_app; cbn; lia.
    all: lia.
  - intros a Ha. rewrite Hel4 in Ha. assert (heap s5 = heap s4) as -> by (unfold s5; by destruct sh). rewrite Hm4 by done.
    unfold s3. cbn. by rewrite Hm2.
Qed.

End removal.

End AvlRemove.
