(* ===== verification/AvlRuns.v ===== *)
(** Replacement of a node, and sequences of operations on an AVL tree: from an empty tree,
    [avltree_insert] and [avltree_remove] of [support/avl.c] do what insertion and removal in a
    sorted list do. Module [AvlRuns]. *)

From stdpp Require Import sorting.
From S2P Require Import Prelude AvlTree AvlSpec AvlRotate AvlInsert AvlIter AvlRemove.
Local Open Scope Z_scope.

Module AvlRuns.

Import Avl AvlSpec AvlRotate AvlInsert AvlIter AvlRemove.

(** ** Replacement *)

(** The pointer to the node that is replaced; at the root the size grows. *)
Lemma replace_link s c l x b r y : at_place s c (Node l x b r) ->
  (if negb (cptr c =? 0) then l ← left_child (cptr c) x; set_child y (cptr c) l
   else _ ← on_tree (set_root y); on_tree incr_size) s
  = done (tt, mk_state (heap (relink s c y)) (if cptr c =? 0 then incr_size (tree (relink s c y)) else tree (relink s c y))).
Proof.
  intros Hat. pose proof (at_ctx _ _ _ Hat) as Hc. destruct (decide (c = [])) as [->|Hne]; [done|].
  rewrite (proj2 (Z.eqb_neq _ _)) by (by rewrite (cptr_0 _ _ _ Hc)). cbn [negb].
  rewrite (bind_done _ _ _ _ _ (left_child_ok _ _ _ _ _ _ Hat)). rewrite (set_child_ok s c _ y Hc Hne). by destruct (relink s c y).
Qed.

(** The root has no parent. *)
Lemma at_root_is s c l x b r : at_place s c (Node l x b r) -> (root (tree s) =? x) = (cptr c =? 0).
Proof.
  intros Hat. pose proof Hat as [_ Hc Hr Hn]. rewrite Hr. destruct c as [|f c]; [by rewrite Z.eqb_refl|].
  rewrite (proj2 (Z.eqb_neq (cptr (f :: c)) 0)) by (by rewrite (cptr_0 _ _ _ Hc)). apply Z.eqb_neq. cbn [root_of].
  intros E. apply NoDup_app in Hn as (_ & Hd & _). apply (Hd x); [cbn; set_solver|]. rewrite <- E. apply root_of_in.
Qed.

(** The fields of the tree when [y] replaces [x]. *)
Definition renamed (x y : Z) (p : Z) : Z := if p =? x then y else p.

Definition replaced (x y : Z) (rt : Z) (t : avltree) : avltree :=
  mk_avl rt (height t) (renamed x y (first t)) (renamed x y (last t)) (if root t =? x then u64 (size t + 1) else size t).

Lemma replace_run s c l x b r y v : at_place s c (Node l x b r) -> addr y ->
  y ∉ elems (plug c (Node l x b r)) -> heap s !! y = Some v ->
  avltree_replace x y s = done (tt, mk_state (heap (put_at s c l y b r)) (replaced x y (root (tree (put_at s c l y b r))) (tree s))).
Proof.
  intros Hat Hy Hnot Hv. pose proof (at_node _ _ _ _ _ _ Hat) as (Hax & Hb & Hlk & Hx).
  pose proof Hat as [(_ & _ & _ & Hl & Hr) Hc Hroot Hn]. cbn in Hn. rewrite <- app_assoc in Hn. cbn in Hn.
  apply NoDup_app in Hn as (Hnl & Hdl & Hn). apply NoDup_cons in Hn as [Hnx Hn]. apply NoDup_app in Hn as (Hnr & Hdr & _).
  rewrite not_elem_of_app in Hnx. destruct Hnx as [Hxr Hxc].
  assert (x ∉ elems l) as Hxl by (intros Hi; apply (Hdl x Hi); by left).
  rewrite <- nodes_perm in Hnot. cbn in Hnot. rewrite !not_elem_of_app, not_elem_of_cons in Hnot. destruct Hnot as [(Hyl & Hyx & Hyr) Hyc].
  unfold avltree_replace. rewrite (bind_done _ _ _ _ _ (get_parent_ok s x _ _ _ _ Hx Hlk Hb)).
  rewrite (bind_done _ _ _ _ _ (replace_link s c l x b r y Hat)). set (s1 := mk_state _ _).
  assert (forall a, a ∉ cnodes c -> heap s1 !! a = heap s !! a) as E1 by (intros; by apply relink_other).
  assert (heap s1 !! x = Some (mk_node (ptr l) (ptr r) (pack (cptr c) b))) as Hx1 by (by rewrite E1).
  rewrite (bind_done _ _ _ _ _ (get_left_ok s1 x _ Hx1)). cbn [left].
  assert (rep (heap s1) x l) as Hl1.
  { eapply rep_ext; [|exact Hl]. intros a Ha. apply E1. intros Hi. apply (Hdl a Ha). right. apply elem_of_app. by right. }
  rewrite (bind_done _ _ _ _ _ (set_parent_tree s1 l x y Hl1 (addr_link _ Hax) (addr_link _ Hy))). set (s2 := reparent s1 l y).
  assert (forall a, a ∉ elems l -> heap s2 !! a = heap s1 !! a) as E2 by (intros; by apply reparent_other).
  assert (heap s2 !! x = Some (mk_node (ptr l) (ptr r) (pack (cptr c) b))) as Hx2 by (by rewrite E2).
  rewrite (bind_done _ _ _ _ _ (get_right_ok s2 x _ Hx2)). cbn [right].
  assert (rep (heap s2) x r) as Hr2.
  { eapply rep_ext; [|exact Hr]. intros a Ha. rewrite E2, E1; [done | by apply Hdr|]. intros Hi. apply (Hdl a Hi). right. apply elem_of_app. by left. }
  rewrite (bind_done _ _ _ _ _ (set_parent_tree s2 r x y Hr2 (addr_link _ Hax) (addr_link _ Hy))). set (s3 := reparent s2 r y).
  assert (forall a, a ∉ elems r -> heap s3 !! a = heap s2 !! a) as E3 by (intros; by apply reparent_other).
  rewrite (bind_done get_tree _ s3 (tree s3) s3) by done.
  set (T := mk_avl (root (tree s3)) (height (tree s3)) (renamed x y (first (tree s3))) (renamed x y (last (tree s3))) (size (tree s3))).
  set (s4 := mk_state (heap s3) (set_first (renamed x y (first (tree s3))) (tree s3))).
  rewrite (bind_done _ _ s3 tt s4) by (unfold s4, renamed; destruct (first (tree s3) =? x); [done | by destruct s3 as [? []]]).
  rewrite (bind_done _ _ s4 tt (mk_state (heap s3) T)).
  2: { unfold T, s4. change (renamed x y (last (tree s3))) with (if last (tree s3) =? x then y else last (tree s3)). by destruct (last (tree s3) =? x). }
  rewrite (bind_done _ _ _ _ _ (node_at_ok (mk_state (heap s3) T) x _ ltac:(cbn; by rewrite E3, E2, E1))).
  rewrite (change_ok (mk_state (heap s3) T) y v) by (cbn; by rewrite E3, E2, E1). do 2 f_equal.
  pose proof (ne_cptr y c Hy Hyc). pose proof (ne_ptr y l Hy Hyl). pose proof (ne_ptr y r Hy Hyr).
  assert (tree s3 = tree s1) as Et by (unfold s3, s2; by rewrite !reparent_tree).
  unfold put_at. rewrite relink_put, !reparent_put by done. unfold put. cbn [heap tree]. f_equal.
  - f_equal. unfold s3, s2. by destruct l, r.
  - unfold T, replaced. rewrite !reparent_tree, Et. rewrite (at_root_is s c l x b r Hat). unfold s1. cbn [tree].
    rewrite relink_tree. by destruct (cptr c =? 0).
Qed.

Lemma renamed_hd (A B : list Z) x y : NoDup (A ++ x :: B) -> renamed x y (List.hd 0 (A ++ x :: B)) = List.hd 0 (A ++ y :: B).
Proof.
  intros Hn. unfold renamed. destruct A as [|a A]; cbn; [by rewrite Z.eqb_refl|]. destruct (Z.eqb_spec a x) as [->|]; [|done].
  exfalso. apply NoDup_cons in Hn as [Hn _]. apply Hn, elem_of_app. right. by left.
Qed.

Lemma renamed_last (A B : list Z) x y : NoDup (A ++ x :: B) -> renamed x y (List.last (A ++ x :: B) 0) = List.last (A ++ y :: B) 0.
Proof.
  intros Hn. unfold renamed. destruct (decide (B = [])) as [->|Hne]; [by rewrite !last_last, Z.eqb_refl|].
  destruct (exists_last Hne) as (B' & z & ->). rewrite !app_comm_cons, !app_assoc, !last_last.
  destruct (Z.eqb_spec z x) as [->|]; [|done]. exfalso. apply NoDup_app in Hn as (_ & _ & Hn). apply NoDup_cons in Hn as [Hn _].
  apply Hn, elem_of_app. right. by left.
Qed.

Section replacement.
Context (cmp : Z -> Z -> Z) `{HO : !Order cmp}.

Lemma sorted_renamed A B x y : cmp x y = 0 -> sorted cmp (A ++ x :: B) -> sorted cmp (A ++ y :: B).
Proof.
  intros Hxy (H1 & [H2 H3]%sorted_cons & H4)%sorted_app. apply sorted_app. split_and!; [done | |].
  - apply sorted_cons. split; [|done]. intros b Hb. specialize (H2 b Hb). pose proof (cmp_same x y b Hxy). lia.
  - intros a b Ha [->|Hb]%elem_of_cons; [|apply H4; [done | by right]]. specialize (H4 a x Ha ltac:(by left)).
    pose proof (cmp_same x y a Hxy). pose proof (cmp_flip a x). pose proof (cmp_flip a y). lia.
Qed.

(** [avltree_replace] of a node by another one with the same key, which takes its place in the
    order of the nodes. The tree is sorted and balanced and its first and last node and its height
    are right. The size is not: it is one more than the number of nodes when the node replaced
    is the root. *)
Theorem avltree_replace_correct s t x y v :
  wf cmp s t -> x ∈ elems t -> addr y -> y ∉ elems t -> heap s !! y = Some v -> cmp x y = 0 ->
  exists s' t' A B, avltree_replace x y s = done (tt, s') /\ elems t = A ++ x :: B /\ elems t' = A ++ y :: B
  /\ wf cmp (mk_state (heap s') (set_size (size (tree s)) (tree s'))) t'
  /\ size (tree s') = (if root (tree s) =? x then u64 (size (tree s) + 1) else size (tree s)).
Proof.
  intros Hwf Hx Hy Hnot Hv Hxy. pose proof (wf_nodup _ _ _ Hwf) as Hnd. destruct (zip_to t x Hx) as (c & l & b & r & <-).
  destruct Hwf as [Hat Hb Hs Hfst Hlst Hsz Hh]. apply (proj1 (at_plug s c _)) in Hat.
  pose proof Hat as [(_ & Hbb & _ & Hl & Hr) Hc Hroot Hnd'].
  set (A := cleft c ++ elems l). set (B := elems r ++ cright c).
  assert (forall z, elems (plug c (Node l z b r)) = A ++ z :: B) as Hel by (intros z; unfold A, B; rewrite elems_plug; cbn; by rewrite <- !app_assoc).
  set (s1 := put_at s c l y b r). assert (at_place s1 c (Node l y b r)) as Hat1.
  { eapply put_at_ok; try done; try lia. rewrite nodes_perm in *. rewrite Hel in *. apply NoDup_app in Hnd' as (N1 & N2 & [N3 N4]%NoDup_cons).
    apply NoDup_app. rewrite not_elem_of_app, not_elem_of_cons in Hnot. destruct Hnot as (M1 & M2 & M3). split_and!; [done | | by apply NoDup_cons].
    intros a Ha [->|Hi]%elem_of_cons; [done|]. apply (N2 a Ha). by right. }
  eexists _, (plug c (Node l y b r)), A, B. split_and!; [by eapply replace_run | by rewrite Hel | by rewrite Hel | | done].
  rewrite Hel in *. constructor; rewrite ?Hel; cbn.
  - apply at_tree with (T := mk_avl _ _ _ _ _); [by apply at_plug | done].
  - apply balanced_plug in Hb as [Hb Hok]. by apply balanced_plug.
  - by eapply sorted_renamed.
  - rewrite Hfst. by apply renamed_hd.
  - rewrite Hlst. by apply renamed_last.
  - rewrite Hsz. unfold zlen. by rewrite !length_app.
  - rewrite Hh. f_equal. by apply ht_plug_ext.
Qed.

End replacement.

(** ** Sequences of operations *)

Inductive op := Insert (n : Z) | Remove (n : Z).

Section runs.
Context (cmp : Z -> Z -> Z) `{HO : !Order cmp} (fuel : nat).

(** The code of an operation, with its result; a removal has none. *)
Definition run_op (o : op) : M state Z :=
  match o with Insert n => avltree_insert cmp fuel n | Remove n => _ ← avltree_remove fuel n; mret 0 end.

Fixpoint run_ops (os : list op) : M state (list Z) :=
  match os with [] => mret [] | o :: os => r ← run_op o; rs ← run_ops os; mret (r :: rs) end.

(** A sorted list of nodes, and what the operations do with it. *)
Fixpoint insert_sorted (n : Z) (N : list Z) : list Z :=
  match N with [] => [n] | a :: N' => if 0 <? cmp a n then n :: N else a :: insert_sorted n N' end.

Definition spec_op (o : op) (N : list Z) : Z * list Z :=
  match o with
  | Insert n => match filter (fun p => cmp p n = 0) N with [] => (0, insert_sorted n N) | p :: _ => (p, N) end
  | Remove n => (0, filter (fun p => p <> n) N)
  end.

Fixpoint spec_ops (os : list op) (N : list Z) : list Z * list Z :=
  match os with
  | [] => ([], N)
  | o :: os => let '(r, N) := spec_op o N in let '(rs, N) := spec_ops os N in (r :: rs, N)
  end.

(** A node that is inserted is one of the memory and not in the tree; one that is removed is
    in the tree. *)
Definition op_ok (pool : gset Z) (o : op) (N : list Z) : bool :=
  match o with
  | Insert n => bool_decide (n ∈ pool) && bool_decide (n ∉ N)
  | Remove n => bool_decide (n ∈ N)
  end.

Fixpoint ops_ok (pool : gset Z) (os : list op) (N : list Z) : bool :=
  match os with [] => true | o :: os => op_ok pool o N && ops_ok pool os (spec_op o N).2 end.

Lemma insert_sorted_perm n N : insert_sorted n N ≡ₚ n :: N.
Proof. induction N as [|a N IH]; cbn; [done|]. destruct (0 <? cmp a n); [done|]. rewrite IH. by rewrite Permutation_swap. Qed.

Lemma insert_sorted_sorted n N : sorted cmp N -> (forall p, p ∈ N -> cmp p n <> 0) -> sorted cmp (insert_sorted n N).
Proof.
  induction N as [|a N IH]; cbn; intros Hs Hn; [apply sorted_cons; split; [by intros ? ?%elem_of_nil | done]|].
  pose proof Hs as [Ha HN]%sorted_cons. specialize (Hn a ltac:(by left)) as Ha0. destruct (Z.ltb_spec 0 (cmp a n)) as [Hlt|Hge].
  - apply sorted_cons. split; [|done]. apply (cmp_gt cmp) in Hlt. intros b [->|Hb]%elem_of_cons; [done|]. eapply cmp_trans; [done | auto].
  - apply sorted_cons. split; [|apply IH; [done | intros p Hp; apply Hn; by right]].
    intros b. rewrite insert_sorted_perm. intros [->|Hb]%elem_of_cons; [lia | auto].
Qed.

(** Two sorted lists of the same nodes are equal. *)
Lemma sorted_unique N N' : sorted cmp N -> sorted cmp N' -> N ≡ₚ N' -> N = N'.
Proof.
  apply StronglySorted_unique. intros a b H1 H2. apply (cmp_gt cmp) in H1. lia.
Qed.

(** ** The operations implement those of the list *)

Lemma rep_some h par t p : rep h par t -> p ∈ elems t -> is_Some (h !! p).
Proof.
  revert par. induction t as [|l IHl q b r IHr]; cbn; [by intros ? ? ?%elem_of_nil|]. intros par (_ & _ & Hh & Hl & Hr).
  intros [Hp|[->|Hp]%elem_of_cons]%elem_of_app; eauto.
Qed.

(** The nodes [pool] are memory, and the tree [t] is made of some of them. *)
Record holds (pool : gset Z) (s : state) (t : tr) : Prop := {
  holds_wf : wf cmp s t;
  holds_in : forall p, p ∈ elems t -> p ∈ pool;
  holds_pool : forall p, p ∈ pool -> addr p /\ is_Some (heap s !! p)
}.

Lemma holds_after pool s t s' t' : holds pool s t -> wf cmp s' t' -> (forall p, p ∈ elems t' -> p ∈ pool) ->
  (forall a, a ∉ elems t' -> heap s' !! a = heap s !! a) ->
  holds pool s' t' /\ forall a, a ∉ pool -> heap s' !! a = heap s !! a.
Proof.
  intros [_ _ Hpool] Hwf Hin Hm. split; [split; [done | done|]|].
  - intros p Hp. split; [by apply Hpool|]. destruct (decide (p ∈ elems t')) as [Ht|Ht]; [|rewrite Hm by done; by apply Hpool].
    eapply rep_some; [apply (at_rep _ _ _ (wf_at _ _ _ Hwf)) | done].
  - intros a Ha. apply Hm. intros Hi. by apply Ha, Hin.
Qed.

Lemma run_op_spec pool o s t : (123 <= fuel)%nat -> holds pool s t -> op_ok pool o (elems t) ->
  exists s' t', run_op o s = done ((spec_op o (elems t)).1, s') /\ elems t' = (spec_op o (elems t)).2
  /\ holds pool s' t' /\ forall a, a ∉ pool -> heap s' !! a = heap s !! a.
Proof.
  intros Hfuel Hh Hok. pose proof Hh as [Hwf Hin Hpool]. destruct o as [n|n]; cbn [op_ok run_op spec_op] in *.
  - apply andb_True in Hok as [Hn1%bool_decide_unpack Hn2%bool_decide_unpack]. destruct (Hpool n Hn1) as [Ha [v Hv]].
    destruct (insert_correct cmp fuel s t n v Hwf ltac:(lia) Ha Hn2 Hv) as [(p & Hp & Hpn & E)|(Hnone & s' & t' & E & Hwf' & Hel & Hm)].
    + exists s, t. destruct (zip_to t p Hp) as (c & l & b & r & Et).
      pose proof (wf_sorted _ _ _ Hwf) as Hs. rewrite <- Et in Hs. destruct (sides_found cmp n c l p b r Hpn Hs) as (A & B & EAB & HA & HB).
      rewrite Et in EAB. change (A ++ p :: B) with (A ++ [p] ++ B) in EAB. rewrite EAB, (filter_eq cmp A [p] B n) by (try done; by constructor).
      by rewrite <- EAB.
    + exists s', t'. rewrite keep_none by (apply Forall_forall; done). cbn [fst snd].
      assert (elems t' = insert_sorted n (elems t)) as E'.
      { apply sorted_unique; [apply (wf_sorted _ _ _ Hwf') | apply insert_sorted_sorted; [apply (wf_sorted _ _ _ Hwf) | done]|].
        by rewrite Hel, insert_sorted_perm. }
      split; [done|]. split; [done|]. apply (holds_after pool s t); try done. intros p. rewrite Hel. intros [->|Hp]%elem_of_cons; auto.
  - apply bool_decide_unpack in Hok. destruct (remove_correct cmp fuel s t n Hwf Hfuel Hok) as (s' & t' & A & B & E & Hel & Hwf' & Hel' & Hm).
    exists s', t'. rewrite (bind_done _ _ _ _ _ E). pose proof (wf_nodup _ _ _ Hwf) as Hnd. rewrite Hel in Hnd |- *. cbn [fst snd].
    split; [done|]. split; [|apply (holds_after pool s t); try done; intros p; rewrite Hel'; intros Hp; apply Hin; rewrite Hel; set_solver].
    apply NoDup_app in Hnd as (_ & Hd & [Hn _]%NoDup_cons). rewrite filter_app, filter_cons_False by naive_solver. rewrite Hel'.
    rewrite !keep_all; [done|..]; apply Forall_forall; [intros b Hb -> | intros a Ha ->]; [done|]. apply (Hd n Ha). by left.
Qed.

Lemma run_ops_spec pool os s t : (123 <= fuel)%nat -> holds pool s t -> ops_ok pool os (elems t) ->
  exists s' t', run_ops os s = done ((spec_ops os (elems t)).1, s') /\ elems t' = (spec_ops os (elems t)).2
  /\ holds pool s' t' /\ forall a, a ∉ pool -> heap s' !! a = heap s !! a.
Proof.
  intros Hfuel. revert s t. induction os as [|o os IH]; intros s t Hh Hok; [by exists s, t|].
  cbn [ops_ok] in Hok. apply andb_True in Hok as [Ho Hos].
  destruct (run_op_spec pool o s t Hfuel Hh Ho) as (s1 & t1 & E1 & Hel1 & Hh1 & Hm1). rewrite <- Hel1 in Hos.
  destruct (IH s1 t1 Hh1 Hos) as (s2 & t2 & E2 & Hel2 & Hh2 & Hm2). exists s2, t2. cbn [run_ops spec_ops].
  rewrite (bind_done _ _ _ _ _ E1), (bind_done _ _ _ _ _ E2). destruct (spec_op o (elems t)) as [r N]. cbn in Hel1. subst N.
  destruct (spec_ops os (elems t1)) as [rs N]. split_and!; [done..|]. intros a Ha. by rewrite Hm2, Hm1.
Qed.

(** C35: AVL trees implement sorted lists. From an empty tree, any sequence of insertions of nodes
    that are not in the tree and of removals of nodes that are, whatever the order of the keys:
    every operation returns, with the result it has on a sorted list (null for a new key, the
    node that is there for one that is taken); the nodes of the tree, in its order, are those of
    the list; the tree is sorted and balanced with its fields right, so its size is the number
    of nodes and its height at most twice the logarithm of it; and no memory but that of the
    nodes changes. *)
Theorem avltree_refines_sorted_list pool os h T :
  (123 <= fuel)%nat -> (forall p, p ∈ pool -> addr p /\ is_Some (h !! p)) -> avltree_init 0 = Some T -> ops_ok pool os [] ->
  exists s' t, run_ops os (mk_state h T) = done ((spec_ops os []).1, s') /\ wf cmp s' t /\ elems t = (spec_ops os []).2
  /\ size (tree s') = zlen (elems t) /\ 2 ^ (height (tree s') + 1) <= (size (tree s') + 1) ^ 2
  /\ forall a, a ∉ pool -> heap s' !! a = h !! a.
Proof.
  intros Hfuel Hpool [= <-] Hok. set (s0 := mk_state h _).
  assert (holds pool s0 Leaf) as Hh0.
  { split; [|by intros p ?%elem_of_nil | done]. constructor; cbn; try done; [|constructor]. split; cbn; try done. constructor. }
  destruct (run_ops_spec pool os s0 Leaf Hfuel Hh0 Hok) as (s' & t & E & Hel & [Hwf _ _] & Hm).
  exists s', t. pose proof (wf_nodup _ _ _ Hwf) as Hnd. pose proof (few_addrs _ _ _ (at_rep _ _ _ (wf_at _ _ _ Hwf)) Hnd) as Hfew.
  assert (size (tree s') = zlen (elems t)) as Hsz.
  { rewrite (wf_size _ _ _ Hwf), u64_small; [done|]. unfold zlen in *. lia. }
  split_and!; [done | done | done | done | | done].
  rewrite Hsz, (wf_height _ _ _ Hwf), Z.sub_add. apply ht_log, Hwf.
Qed.

End runs.

(** ** Examples *)

Lemma avltree_replace_correct_witness :
  exists s' t' A B, avltree_replace 32 40 three = done (tt, s') /\ elems three_tree = A ++ 32 :: B /\ elems t' = A ++ 40 :: B
  /\ wf by_key (mk_state (heap s') (set_size (size (tree three)) (tree s'))) t'
  /\ size (tree s') = (if root (tree three) =? 32 then u64 (size (tree three) + 1) else size (tree three)).
Proof.
  apply (avltree_replace_correct by_key three three_tree 32 40 (mk_node 0 0 0));
    [apply three_wf | cbn; set_solver | by split | cbn; set_solver | reflexivity | reflexivity].
Defined.

(** Twelve nodes; two of them have the same key. *)
Definition nodes : list Z := [16; 32; 40; 48; 64; 80; 96; 112; 128; 144; 160; 176].
Definition memory : gmap Z avltree_node := list_to_map (map (fun a => (a, mk_node 0 0 0)) nodes).
Definition history : list op := map Insert nodes ++ map Remove [64; 16; 112] ++ [Insert 16].

Lemma avltree_refines_sorted_list_witness :
  exists s' t, run_ops by_key 123 history (mk_state memory (mk_avl 0 (-1) 0 0 0)) = done ((spec_ops by_key history []).1, s')
  /\ wf by_key s' t /\ elems t = (spec_ops by_key history []).2
  /\ size (tree s') = zlen (elems t) /\ 2 ^ (height (tree s') + 1) <= (size (tree s') + 1) ^ 2
  /\ forall a, a ∉ (list_to_set nodes : gset Z) -> heap s' !! a = memory !! a.
Proof.
  apply (avltree_refines_sorted_list by_key 123 (list_to_set nodes) history); [lia | | reflexivity | vm_compute; exact I].
  intros p Hp. apply elem_of_list_to_set in Hp. unfold nodes in Hp.
  repeat (apply elem_of_cons in Hp as [->|Hp]; [split; [by split | by eexists]|]). by apply elem_of_nil in Hp.
Defined.

End AvlRuns.
