(* ===== verification/DirentCache.v ===== *)
(** The cached entries of a directory, [cache_inode/cache_inode_avl.c] with
    [include/cache_inode_avl.h], and the functions of [cache_inode/cache_inode_readdir.c] and
    [cache_inode/cache_inode_misc.c] that add, remove, rename and release them. Module [Dirents].
    A directory has two AVL trees of entries in one memory: the active ones and the deleted ones,
    whose cookies a client may still hold. *)

From S2P Require Import Prelude AvlTree.
Local Open Scope Z_scope.

Module Dirents.

Import Avl.

(** ** Data *)

(** [struct cache_inode_key]: the bytes of the handle are a string. *)
Record cache_inode_key := mk_key { hk : Z; fsal : Z; kv : string }.

(** [cache_inode_dir_entry_t], without its node. *)
Record dirent := mk_dirent { k : Z; p : Z; ckey : cache_inode_key; flags : Z; name : string }.

Definition DIR_ENTRY_FLAG_NONE : Z := 0.
Definition DIR_ENTRY_FLAG_DELETED : Z := 1.
Definition CACHE_INODE_TRUST_CONTENT : Z := 2.
Definition CACHE_INODE_DIR_POPULATED : Z := 4.
Definition CACHE_INODE_FLAG_NEXT_ACTIVE : Z := 1.
Definition MIN_COOKIE_VAL : Z := 3.

(** The two trees. *)
Inductive side := Act | Del.

(** A cache entry: its type and flags, and for a directory the number of active children, the
    trees and the memory of the nodes and of the entries they are in, by address. *)
Record dir := mk_dir {
  is_dir : bool; dflags : Z; nbactive : Z; collisions : Z;
  tree_t : avltree; tree_c : avltree; nodes : gmap Z avltree_node; ents : gmap Z dirent }.

Definition tree_of (x : side) (d : dir) : avltree := match x with Act => tree_t d | Del => tree_c d end.

Definition set_tree (x : side) (t : avltree) (n : gmap Z avltree_node) (d : dir) : dir :=
  match x with
  | Act => mk_dir (is_dir d) (dflags d) (nbactive d) (collisions d) t (tree_c d) n (ents d)
  | Del => mk_dir (is_dir d) (dflags d) (nbactive d) (collisions d) (tree_t d) t n (ents d)
  end.

Definition set_ents (e : gmap Z dirent) (d : dir) : dir :=
  mk_dir (is_dir d) (dflags d) (nbactive d) (collisions d) (tree_t d) (tree_c d) (nodes d) e.
Definition set_nodes (n : gmap Z avltree_node) (d : dir) : dir :=
  mk_dir (is_dir d) (dflags d) (nbactive d) (collisions d) (tree_t d) (tree_c d) n (ents d).
Definition set_nbactive (n : Z) (d : dir) : dir :=
  mk_dir (is_dir d) (dflags d) n (collisions d) (tree_t d) (tree_c d) (nodes d) (ents d).
Definition set_collisions (n : Z) (d : dir) : dir :=
  mk_dir (is_dir d) (dflags d) (nbactive d) n (tree_t d) (tree_c d) (nodes d) (ents d).
Definition set_dflags (n : Z) (d : dir) : dir :=
  mk_dir (is_dir d) n (nbactive d) (collisions d) (tree_t d) (tree_c d) (nodes d) (ents d).

Definition set_k (x : Z) (e : dirent) : dirent := mk_dirent x (p e) (ckey e) (flags e) (name e).
Definition set_p (x : Z) (e : dirent) : dirent := mk_dirent (k e) x (ckey e) (flags e) (name e).
Definition set_ckey (x : cache_inode_key) (e : dirent) : dirent := mk_dirent (k e) (p e) x (flags e) (name e).
Definition set_flags (x : Z) (e : dirent) : dirent := mk_dirent (k e) (p e) (ckey e) x (name e).

(** *** Steps *)

Definition get_dir : M dir dir := fun d => done (d, d).
Definition on_dir (f : dir -> dir) : M dir unit := fun d => done (tt, f d).

(** The entry around a node; a null pointer or one to no entry is undefined. *)
Definition dirent_at (v : Z) : M dir dirent := fun d =>
  match ents d !! v with Some e => done (e, d) | None => Abort end.

Definition change_dirent (v : Z) (f : dirent -> dirent) : M dir unit :=
  e ← dirent_at v; on_dir (fun d => set_ents (<[v := f e]> (ents d)) d).

(** An operation on one of the trees. *)
Definition on_tree_of {A} (x : side) (m : M Avl.state A) : M dir A := fun d =>
  match m (mk_state (nodes d) (tree_of x d)) with
  | Ok (Some (a, s)) => done (a, set_tree x (tree s) (heap s) d)
  | Ok None => Ok None
  | Abort => Abort
  | Deadlock => Deadlock
  end.

(** [gsh_malloc] gave the address [v] for an entry; [gsh_free] takes it back. *)
Definition alloc (v : Z) (e : dirent) : M dir unit :=
  on_dir (fun d => set_nodes (<[v := mk_node 0 0 0]> (nodes d)) (set_ents (<[v := e]> (ents d)) d)).
Definition free (v : Z) : M dir unit :=
  _ ← dirent_at v; on_dir (fun d => set_nodes (delete v (nodes d)) (set_ents (delete v (ents d)) d)).

(** [memset(&v->node_hk, 0, ...)] *)
Definition clear_node (v : Z) : M dir unit :=
  _ ← dirent_at v; on_dir (fun d => set_nodes (<[v := mk_node 0 0 0]> (nodes d)) d).

(** *** Keys; the memory of a duplicate is there *)

Definition cache_inode_key_delete (x : cache_inode_key) : cache_inode_key := mk_key (hk x) (fsal x) EmptyString.
Definition cache_inode_key_dup (src : cache_inode_key) : cache_inode_key := src.

(** ** Comparison and lookup *)

Definition cookie_of (e : gmap Z dirent) (v : Z) : Z := match e !! v with Some d => k d | None => 0 end.

Definition avl_dirent_hk_cmpf (e : gmap Z dirent) (lhs rhs : Z) : Z :=
  if cookie_of e lhs <? cookie_of e rhs then -1 else if cookie_of e lhs =? cookie_of e rhs then 0 else 1.

Section dirents.
(** The rounds of the loops on trees, the address of the entry on the stack that lookups
    use as a key, [CityHash64WithSeed(name, strlen(name), 67)] and whether [_USE_9P] is set. *)
Context (fuel : nat) (stk : Z) (hash : string -> Z) (use_9p : bool).

Fixpoint inline_loop (cmp : Z -> Z -> Z) (n : nat) (key node : Z) : M Avl.state Z :=
  if node =? 0 then mret 0
  else
  match n with
  | O => fun _ => Ok None
  | S n =>
      let res := cmp node key in
      if res =? 0 then mret node
      else
      next ← (if 0 <? res then get_left node else get_right node);
      inline_loop cmp n key next
  end.

Definition avltree_inline_lookup (cmp : Z -> Z -> Z) (key : Z) : M Avl.state Z :=
  t ← get_tree; inline_loop cmp fuel key (root t).

(** The entries with a key [x] on the stack. *)
Definition with_key (x : Z) (e : gmap Z dirent) : gmap Z dirent :=
  <[stk := mk_dirent x 0 (mk_key 0 0 EmptyString) 0 EmptyString]> e.

(** ** Deleted entries *)

Definition avl_dirent_set_deleted (v : Z) : M dir unit :=
  e ← dirent_at v;
  _ ← check (Z.land (flags e) DIR_ENTRY_FLAG_DELETED =? 0);
  d ← get_dir;
  node ← on_tree_of Act (avltree_inline_lookup (avl_dirent_hk_cmpf (ents d)) v);
  _ ← check (negb (node =? 0));
  _ ← on_tree_of Act (avltree_remove fuel v);
  _ ← change_dirent v (fun e => set_flags (Z.lor (flags e) DIR_ENTRY_FLAG_DELETED) e);
  _ ← change_dirent v (fun e => set_ckey (cache_inode_key_delete (ckey e)) e);
  d ← get_dir;
  _ ← on_tree_of Del (avltree_insert (avl_dirent_hk_cmpf (ents d)) fuel v);
  mret tt.

Definition avl_dirent_clear_deleted (v : Z) : M dir unit :=
  d ← get_dir;
  node ← on_tree_of Del (avltree_inline_lookup (avl_dirent_hk_cmpf (ents d)) v);
  _ ← check (negb (node =? 0));
  _ ← on_tree_of Del (avltree_remove fuel v);
  _ ← clear_node v;
  d ← get_dir;
  node ← on_tree_of Act (avltree_insert (avl_dirent_hk_cmpf (ents d)) fuel v);
  _ ← check (node =? 0);
  change_dirent v (fun e => set_flags (Z.land (flags e) (Z.lnot DIR_ENTRY_FLAG_DELETED)) e).

(** ** Insertion *)

(** A deleted entry with the cookie leaves, or the first one when there are too many. *)
Definition purge_deleted (v : Z) : M dir unit :=
  d ← get_dir;
  node ← on_tree_of Del (avltree_inline_lookup (avl_dirent_hk_cmpf (ents d)) v);
  size ← on_tree_of Del avltree_size;
  node ← (if (node =? 0) && (65535 <? size) then on_tree_of Del avltree_first else mret node);
  if node =? 0 then mret tt else on_tree_of Del (avltree_remove fuel node).

Definition cache_inode_avl_insert_impl (v j j2 : Z) : M dir Z :=
  _ ← purge_deleted v;
  d ← get_dir;
  node ← on_tree_of Act (avltree_insert (avl_dirent_hk_cmpf (ents d)) fuel v);
  if node =? 0 then
    _ ← change_dirent v (set_p (u32 (j + j2)));
    _ ← on_dir (fun d => if collisions d <? u32 (j + j2) then set_collisions (u32 (j + j2)) d else d);
    mret 0
  else mret (-1).

(** The sign bit of a cookie is cleared for 9P. *)
Definition cookie_hash (nm : string) : Z :=
  let h := u64 (hash nm) in if use_9p then Z.land h (Z.lnot (2 ^ 63)) else h.

(** The loop of quadratic probes; [j] is an [int], so that the loop does not end by its
    condition [j < UINT64_MAX]: [j * 2] overflows first. The linear probes after it are not
    reached. *)
Fixpoint qp_loop (rounds : nat) (v j : Z) : M dir Z :=
  match rounds with
  | O => fun _ => Ok None
  | S rounds =>
      if 2 ^ 30 <=? j then stop
      else
      _ ← change_dirent v (fun e => set_k (u64 (k e + j * 2)) e);
      e ← dirent_at v;
      if k e <? MIN_COOKIE_VAL then qp_loop rounds v (j + 1)
      else
      code ← cache_inode_avl_insert_impl v j 0;
      if 0 <=? code then mret code else qp_loop rounds v (j + 1)
  end.

Definition cache_inode_avl_qp_insert (rounds : nat) (v : Z) : M dir Z :=
  e ← dirent_at v;
  _ ← change_dirent v (set_k (cookie_hash (name e)));
  qp_loop rounds v 0.

(** ** Lookups *)

Definition cache_inode_avl_lookup_k (x fl : Z) : M dir Z :=
  d ← get_dir;
  let cmp := avl_dirent_hk_cmpf (with_key x (ents d)) in
  node ← on_tree_of Act (avltree_inline_lookup cmp stk);
  if negb (node =? 0) then
    if negb (Z.land fl CACHE_INODE_FLAG_NEXT_ACTIVE =? 0) then on_tree_of Act (avltree_next fuel node) else mret node
  else
  node2 ← on_tree_of Del (avltree_inline_lookup cmp stk);
  if negb (node2 =? 0) then on_tree_of Act (avltree_sup cmp fuel stk) else mret 0.

(** The rounds [j < maxj], [n] of them left. *)
Fixpoint lookup_s_loop (n : nat) (nm : string) (x j : Z) : M dir Z :=
  match n with
  | O => mret 0
  | S n =>
      if 2 ^ 30 <=? j then stop
      else
      let x := u64 (x + j * 2) in
      d ← get_dir;
      node ← on_tree_of Act (avltree_lookup (avl_dirent_hk_cmpf (with_key x (ents d))) fuel stk);
      if node =? 0 then lookup_s_loop n nm x (j + 1)
      else
      v2 ← dirent_at node;
      if String.eqb nm (name v2) then
        _ ← check (Z.land (flags v2) DIR_ENTRY_FLAG_DELETED =? 0);
        mret node
      else lookup_s_loop n nm x (j + 1)
  end.

Definition cache_inode_avl_qp_lookup_s (nm : string) (maxj : Z) : M dir Z :=
  lookup_s_loop (Z.to_nat maxj) nm (cookie_hash nm) 0.

Definition cache_inode_avl_remove (v : Z) : M dir unit := on_tree_of Act (avltree_remove fuel v).

(** ** Release *)

(** [cache_inode_release_dirents] for one of the trees; [n] rounds. *)
Fixpoint release_loop (n : nat) (x : side) (node : Z) : M dir unit :=
  if node =? 0 then mret tt
  else
  match n with
  | O => fun _ => Ok None
  | S n =>
      next ← on_tree_of x (avltree_next fuel node);
      _ ← on_tree_of x (avltree_remove fuel node);
      e ← dirent_at node;
      _ ← (if String.eqb (kv (ckey e)) EmptyString then mret tt
           else change_dirent node (fun e => set_ckey (cache_inode_key_delete (ckey e)) e));
      _ ← free node;
      release_loop n x next
  end.

Definition release_tree (n : nat) (x : side) : M dir unit :=
  d ← get_dir;
  if negb (is_dir d) then mret tt
  else
  node ← on_tree_of x avltree_first;
  _ ← release_loop n x node;
  match x with
  | Act => on_dir (fun d => set_dflags (Z.land (dflags d) (Z.lnot CACHE_INODE_DIR_POPULATED)) (set_nbactive 0 d))
  | Del => mret tt
  end.

(** [CACHE_INODE_AVL_BOTH] *)
Definition release_both (n : nat) : M dir unit := _ ← release_tree n Act; release_tree n Del.

(** ** Status *)

Definition CACHE_INODE_SUCCESS : Z := 0.
Definition CACHE_INODE_MALLOC_ERROR : Z := 1.
Definition CACHE_INODE_NOT_A_DIRECTORY : Z := 8.
Definition CACHE_INODE_ENTRY_EXISTS : Z := 11.
Definition CACHE_INODE_NOT_FOUND : Z := 13.
Definition CACHE_INODE_FSAL_ESTALE : Z := 23.
Definition CACHE_INODE_BAD_COOKIE : Z := 33.

Definition cache_inode_invalidate_all_cached_dirent (n : nat) : M dir Z :=
  d ← get_dir;
  if negb (is_dir d) then mret CACHE_INODE_NOT_A_DIRECTORY
  else
  _ ← release_both n;
  _ ← on_dir (fun d => set_dflags (Z.lor (dflags d) CACHE_INODE_TRUST_CONTENT) d);
  mret CACHE_INODE_SUCCESS.

(** ** Adding an entry; [mem] is what [gsh_malloc] returns *)

Definition cache_inode_add_cached_dirent (rounds : nat) (mem : Z) (nm : string) (key : cache_inode_key) : M dir Z :=
  d ← get_dir;
  if negb (is_dir d) then mret CACHE_INODE_NOT_A_DIRECTORY
  else if mem =? 0 then mret CACHE_INODE_MALLOC_ERROR
  else
  _ ← alloc mem (mk_dirent 0 0 (cache_inode_key_dup key) DIR_ENTRY_FLAG_NONE nm);
  code ← cache_inode_avl_qp_insert rounds mem;
  if code <? 0 then _ ← free mem; mret CACHE_INODE_ENTRY_EXISTS
  else
  _ ← on_dir (fun d => set_nbactive (u32 (nbactive d + 1)) d);
  mret CACHE_INODE_SUCCESS.

(** ** Removing and renaming an entry *)

Inductive cache_inode_dirent_op := OP_LOOKUP | OP_REMOVE | OP_RENAME.

(** The content of a directory is complete and can be trusted. *)
Definition complete (d : dir) : bool :=
  negb (Z.land (dflags d) CACHE_INODE_TRUST_CONTENT =? 0) && negb (Z.land (dflags d) CACHE_INODE_DIR_POPULATED =? 0).

Section operate.
(** [cache_inode_get_keyed(key, CIG_KEYED_FLAG_CACHED_ONLY, &status)], which stores a status and
    returns an entry or null, and [cache_inode_invalidate] on such an entry. *)
Context (get_keyed : cache_inode_key -> Z * Z) (cache_inode_invalidate : Z -> Z).

(** The rename of [dirent] over [dirent2]. *)
Definition rename_over (v v2 : Z) : M dir Z :=
  _ ← avl_dirent_set_deleted v;
  e ← dirent_at v;
  _ ← change_dirent v2 (set_ckey (cache_inode_key_dup (ckey e)));
  e2 ← dirent_at v2;
  let '(oldentry, status) := get_keyed (ckey e2) in
  mret (if oldentry =? 0 then status else cache_inode_invalidate oldentry).

(** The rename of [dirent] to a name that is not there. *)
Definition rename_new (rounds : nat) (mem v : Z) (newname : string) : M dir Z :=
  _ ← check (negb (mem =? 0));
  e ← dirent_at v;
  _ ← alloc mem (mk_dirent 0 0 (cache_inode_key_dup (ckey e)) DIR_ENTRY_FLAG_NONE newname);
  _ ← avl_dirent_set_deleted v;
  code ← cache_inode_avl_qp_insert rounds mem;
  if code <? 0 then _ ← avl_dirent_clear_deleted v; _ ← free mem; mret CACHE_INODE_ENTRY_EXISTS
  else mret CACHE_INODE_SUCCESS.

Definition cache_inode_operate_cached_dirent (rounds : nat) (mem : Z) (nm newname : string) (op : cache_inode_dirent_op) : M dir Z :=
  d ← get_dir;
  if negb (is_dir d) then mret CACHE_INODE_NOT_A_DIRECTORY
  else if nbactive d =? 0 then mret (if complete d then CACHE_INODE_NOT_FOUND else CACHE_INODE_SUCCESS)
  else
  v ← cache_inode_avl_qp_lookup_s nm 1;
  missing ← (if v =? 0 then mret true
             else e ← dirent_at v; mret (negb (Z.land (flags e) DIR_ENTRY_FLAG_DELETED =? 0)));
  if missing : bool
  then mret (if complete d && match op with OP_REMOVE => false | _ => true end then CACHE_INODE_NOT_FOUND else CACHE_INODE_SUCCESS)
  else
  match op with
  | OP_REMOVE =>
      _ ← avl_dirent_set_deleted v;
      _ ← on_dir (fun d => set_nbactive (u32 (nbactive d - 1)) d);
      mret CACHE_INODE_SUCCESS
  | OP_RENAME =>
      v2 ← cache_inode_avl_qp_lookup_s newname 1;
      if v2 =? 0 then rename_new rounds mem v newname
      else if negb (Z.land (dflags d) CACHE_INODE_TRUST_CONTENT =? 0) then rename_over v v2
      else mret CACHE_INODE_ENTRY_EXISTS
  | OP_LOOKUP => mret CACHE_INODE_SUCCESS
  end.

Definition cache_inode_remove_cached_dirent (rounds : nat) (nm : string) : M dir Z :=
  d ← get_dir;
  if negb (is_dir d) then mret CACHE_INODE_NOT_A_DIRECTORY
  else cache_inode_operate_cached_dirent rounds 0 nm EmptyString OP_REMOVE.

Definition cache_inode_rename_cached_dirent (rounds : nat) (mem : Z) (oldname newname : string) : M dir Z :=
  d ← get_dir;
  if negb (is_dir d) then mret CACHE_INODE_NOT_A_DIRECTORY
  else cache_inode_operate_cached_dirent rounds mem oldname newname OP_RENAME.

End operate.

(** ** Reading a populated directory *)

Section readdir.
(** [cache_inode_get_keyed(key, CIG_KEYED_FLAG_NONE, &status)], which returns an entry or null and
    stores a status, and [cache_inode_getattr], which calls the callback of the client with the
    name, the cookie and [in_result] and returns a status and [in_result]; on a state of their
    own. *)
Context {K : Type} (get_keyed : cache_inode_key -> K -> (Z * Z) * K)
  (cache_inode_getattr : Z -> string -> Z -> bool -> K -> (Z * bool) * K).

Definition in_directory {A} (m : M dir A) : M (dir * K) A := fun '(d, x) =>
  match m d with
  | Ok (Some (a, d)) => done (a, (d, x))
  | Ok None => Ok None
  | Abort => Abort
  | Deadlock => Deadlock
  end.

Definition outside {A} (f : K -> A * K) : M (dir * K) A := fun '(d, x) => let '(a, x) := f x in done (a, (d, x)).

(** What the body of the loop does with an entry. *)
Inductive visited := Retry | Skip | Bail (status : Z) | Took.

Definition distrust : M (dir * K) unit :=
  in_directory (on_dir (fun d => set_dflags (Z.land (dflags d) (Z.lnot CACHE_INODE_TRUST_CONTENT)) d)).

Definition visit_once (retry_stale in_result : bool) (v : Z) : M (dir * K) (visited * bool) :=
  e ← in_directory (dirent_at v);
  '(entry, tmp_status) ← outside (get_keyed (ckey e));
  if entry =? 0 then
    if retry_stale && (tmp_status =? CACHE_INODE_FSAL_ESTALE) then mret (Retry, in_result)
    else if (tmp_status =? CACHE_INODE_NOT_FOUND) || (tmp_status =? CACHE_INODE_FSAL_ESTALE)
    then _ ← distrust; mret (Skip, in_result)
    else mret (Bail tmp_status, in_result)
  else
  '(tmp_status, in_result) ← outside (cache_inode_getattr entry (name e) (k e) in_result);
  if negb (tmp_status =? CACHE_INODE_SUCCESS) then
    if tmp_status =? CACHE_INODE_FSAL_ESTALE
    then if retry_stale then mret (Retry, in_result) else _ ← distrust; mret (Skip, in_result)
    else mret (Bail tmp_status, in_result)
  else mret (Took, in_result).

(** [retry_stale] is cleared by the first retry. *)
Definition visit (retry_stale : bool) (v : Z) : M (dir * K) (bool * visited * bool) :=
  '(r, in_result) ← visit_once retry_stale true v;
  match r with
  | Retry => '(r, in_result) ← visit_once false in_result v; mret (false, r, in_result)
  | _ => mret (retry_stale, r, in_result)
  end.

(** The loop, with [in_result] set: the status, [*nbfound] and [*eod_met]. *)
Fixpoint readdir_loop (n : nat) (retry_stale : bool) (node nbfound : Z) : M (dir * K) (Z * Z * bool) :=
  if node =? 0 then mret (CACHE_INODE_SUCCESS, nbfound, true)
  else
  match n with
  | O => fun _ => Ok None
  | S n =>
      '(retry_stale, r, in_result) ← visit retry_stale node;
      match r with
      | Bail status => mret (status, nbfound, false)
      | Took =>
          if in_result : bool then
            next ← in_directory (on_tree_of Act (avltree_next fuel node));
            readdir_loop n retry_stale next (u32 (nbfound + 1))
          else mret (CACHE_INODE_SUCCESS, u32 (nbfound + 1), false)
      | _ =>
          next ← in_directory (on_tree_of Act (avltree_next fuel node));
          if in_result : bool then readdir_loop n retry_stale next nbfound
          else mret (CACHE_INODE_SUCCESS, nbfound, false)
      end
  end.

(** [cache_inode_readdir] from the check of the cookie on; [nb0] and [eod0] are what [*nbfound] and
    [*eod_met] are before. *)
Definition readdir_populated (n : nat) (cookie nb0 : Z) (eod0 : bool) : M (dir * K) (Z * Z * bool) :=
  if 0 <? cookie then
    if cookie <? 3 then mret (CACHE_INODE_BAD_COOKIE, nb0, eod0)
    else
    v ← in_directory (cache_inode_avl_lookup_k cookie CACHE_INODE_FLAG_NEXT_ACTIVE);
    if v =? 0 then
      v ← in_directory (cache_inode_avl_lookup_k cookie 0);
      mret (if v =? 0 then (CACHE_INODE_BAD_COOKIE, nb0, eod0) else (CACHE_INODE_SUCCESS, nb0, true))
    else readdir_loop n true v 0
  else
  node ← in_directory (on_tree_of Act avltree_first);
  readdir_loop n true node 0.

End readdir.

End dirents.

Definition cache_inode_avl_init (d : dir) : dir :=
  mk_dir (is_dir d) (dflags d) (nbactive d) (collisions d) (mk_avl 0 (-1) 0 0 0) (mk_avl 0 (-1) 0 0 0) (nodes d) (ents d).

End Dirents.
