(* ===== verification/DirentTrees.v ===== *)
(** The two trees of a directory (module [Dirents] of DirentCache) in one memory: what an operation
    on one of them does to both. Module [DirentTrees]. *)

From stdpp Require Import sorting.
From S2P Require Import Prelude AvlTree AvlSpec AvlRotate AvlInsert AvlIter AvlRemove DirentCache.
Local Open Scope Z_scope.

Module DirentTrees.

Import Avl AvlSpec AvlInsert AvlIter AvlRemove Dirents.

(** ** Orders by cookies *)

#[export] Instance cmpf_order e : Order (avl_dirent_hk_cmpf e).
Proof.
  split; unfold avl_dirent_hk_cmpf; intros a b; [|intros c ..];
    repeat match goal with |- context [?x <? ?y] => destruct (Z.ltb_spec x y) | |- context [?x =? ?y] => destruct (Z.eqb_spec x y) end; cbn; lia.
Qed.

Lemma cmpf_eq e a b : avl_dirent_hk_cmpf e a b = 0 <-> cookie_of e a = cookie_of e b.
Proof. unfold avl_dirent_hk_cmpf. destruct (Z.ltb_spec (cookie_of e a) (cookie_of e b)); [lia|]. destruct (Z.eqb_spec (cookie_of e a) (cookie_of e b)); lia. Qed.

Lemma cmpf_lt e a b : avl_dirent_hk_cmpf e a b < 0 <-> cookie_of e a < cookie_of e b.
Proof. unfold avl_dirent_hk_cmpf. destruct (Z.ltb_spec (cookie_of e a) (cookie_of e b)); [lia|]. destruct (Z.eqb_spec (cookie_of e a) (cookie_of e b)); lia. Qed.

(** ** Trees that do not change *)

Lemma sorted_ext cmp cmp' l : (forall a b, a ∈ l -> b ∈ l -> cmp' a b = cmp a b) -> sorted cmp l -> sorted cmp' l.
Proof.
  induction l as [|x l IH]; intros He Hs; [constructor|]. apply sorted_cons in Hs as [H1 H2]. apply sorted_cons. split.
  - intros b Hb. rewrite He; [auto | by left | by right].
  - apply IH; [|done]. intros a b Ha Hb. apply He; by right.
Qed.

(** In a sorted list, nodes that compare as equal are the same. *)
Lemma sorted_same cmp `{!Order cmp} l a b : sorted cmp l -> a ∈ l -> b ∈ l -> cmp a b = 0 -> a = b.
Proof.
  intros Hs Ha Hb Hab. induction l as [|x l IH]; [by apply elem_of_nil in Ha|].
  apply sorted_cons in Hs as [H1 H2]. apply elem_of_cons in Ha as [->|Ha], Hb as [->|Hb]; [done | | |auto].
  - specialize (H1 b Hb). lia.
  - specialize (H1 a Ha). pose proof (cmp_flip a x). lia.
Qed.

(** The tree is the same when its nodes are, for comparisons that agree on them. *)
Lemma wf_ext cmp cmp' s s' t : wf cmp s t -> (forall a, a ∈ elems t -> heap s' !! a = heap s !! a) -> tree s' = tree s ->
  (forall a b, a ∈ elems t -> b ∈ elems t -> cmp' a b = cmp a b) -> wf cmp' s' t.
Proof.
  intros [H1 H2 H3 H4 H5 H6 H7] Hh Ht Hc. split; try (rewrite Ht; done).
  - eapply at_ext; [exact H1 | | by rewrite Ht]. intros a. cbn. rewrite app_nil_r. apply Hh.
  - done.
  - by eapply sorted_ext.
Qed.

(** ** The loop of [avltree_inline_lookup] *)

Lemma inline_loop_spec cmp `{!Order cmp} n key s c t : at_place s c t -> follows cmp key c -> ht t <= Z.of_nat n -> sorted cmp (elems (plug c t)) ->
  inline_loop cmp n key (ptr t) s = done (List.hd 0 (filter (fun p => cmp p key = 0) (elems (plug c t))), s).
Proof.
  revert n c. induction t as [|l IHl p b r IHr]; intros n c Hat Hf Hk Hs.
  - destruct (sides_at cmp key c Leaf Hf Hs) as [HL HR]. rewrite elems_plug, filter_eq by done. by destruct n.
  - pose proof (at_node _ _ _ _ _ _ Hat) as ([Hp0 _] & Hb & Hlk & Hh). pose proof (ht_nonneg l). pose proof (ht_nonneg r).
    cbn in Hk. destruct n as [|n]; [lia|]. cbn [inline_loop ptr]. rewrite (proj2 (Z.eqb_neq p 0)) by lia. cbv zeta.
    destruct (Z.eqb_spec (cmp p key) 0) as [E0|E0].
    { destruct (sides_found cmp key c l p b r E0 Hs) as (A & B & -> & HA & HB). by rewrite (filter_eq cmp A [p] B) by (try done; by constructor). }
    destruct (Z.ltb_spec 0 (cmp p key)) as [Hlt|Hge].
    + rewrite (bind_done _ _ _ _ _ (get_left_ok s p _ Hh)). cbn [left].
      apply (IHl n (FL p b r :: c)); [by apply (at_fill s (FL p b r)) | by split | lia | done].
    + rewrite (bind_done _ _ _ _ _ (get_right_ok s p _ Hh)). cbn [right].
      apply (IHr n (FR l p b :: c)); [by apply (at_fill s (FR l p b)) | split; [lia | done] | lia | done].
Qed.

Lemma inline_ok cmp `{!Order cmp} fuel s t key : wf cmp s t -> (122 <= fuel)%nat ->
  avltree_inline_lookup fuel cmp key s = done (List.hd 0 (filter (fun p => cmp p key = 0) (elems t)), s).
Proof.
  intros Hwf Hfuel. pose proof (wf_height_bound _ _ _ Hwf) as Hht. pose proof (wf_at _ _ _ Hwf) as Hat. pose proof (at_root _ _ _ Hat) as Hr. cbn in Hr.
  unfold avltree_inline_lookup. rewrite (bind_done get_tree _ s (tree s) s), Hr by done.
  apply (inline_loop_spec cmp fuel key s [] t); [done | done | lia | apply Hwf].
Qed.

(** ** Two trees in one memory *)

Definition other (x : side) : side := match x with Act => Del | Del => Act end.
Definition view (x : side) (d : dir) : Avl.state := mk_state (nodes d) (tree_of x d).
Definition sel (x : side) (F : tr * tr) : tr := match x with Act => F.1 | Del => F.2 end.
Definition upd (x : side) (t : tr) (F : tr * tr) : tr * tr := match x with Act => (t, F.2) | Del => (F.1, t) end.

Lemma sel_upd x t F : sel x (upd x t F) = t. Proof. by destruct x. Qed.
Lemma sel_upd_other x t F : sel (other x) (upd x t F) = sel (other x) F. Proof. by destruct x. Qed.

Record two (d : dir) (F : tr * tr) : Prop := {
  two_wf : forall x, wf (avl_dirent_hk_cmpf (ents d)) (view x d) (sel x F);
  two_apart : forall v, v ∈ elems (sel Act F) -> v ∉ elems (sel Del F)
}.

Lemma two_apart' d F x v : two d F -> v ∈ elems (sel x F) -> v ∉ elems (sel (other x) F).
Proof. intros [_ H]. destruct x; cbn; [apply H|]. intros H1 H2. by apply (H v). Qed.

Lemma on_tree_done {A} x (m : M Avl.state A) d a s :
  m (view x d) = done (a, s) -> on_tree_of x m d = done (a, set_tree x (tree s) (heap s) d).
Proof. intros E. unfold on_tree_of. fold (view x d). by rewrite E. Qed.

Lemma on_tree_read {A} x (m : M Avl.state A) d a : m (view x d) = done (a, view x d) -> on_tree_of x m d = done (a, d).
Proof. intros E. rewrite (on_tree_done _ _ _ _ _ E). by destruct x, d. Qed.

(** An operation on one tree that only changes the nodes of that tree. *)
Lemma two_change x d F s t : two d F -> wf (avl_dirent_hk_cmpf (ents d)) s t ->
  (forall a, a ∉ elems t -> heap s !! a = nodes d !! a) -> (forall v, v ∈ elems t -> v ∉ elems (sel (other x) F)) ->
  two (set_tree x (tree s) (heap s) d) (upd x t F).
Proof.
  intros Ht Hwf Hm Hd.
  assert (wf (avl_dirent_hk_cmpf (ents d)) (mk_state (heap s) (tree_of (other x) d)) (sel (other x) F)) as Ho.
  { eapply wf_ext; [apply (two_wf _ _ Ht (other x)) | | done | done]. intros a Ha. apply Hm. intros Hi. by apply (Hd a Hi). }
  destruct s as [h T]. cbn in *. split.
  - intros y. destruct x, y; cbn in *; done.
  - intros v H1 H2. destruct x; cbn in *; [by apply (Hd v) | by apply (Hd v)].
Qed.

Lemma nodup_split (A B A' B' : list Z) v : NoDup (A ++ v :: B) -> A ++ v :: B = A' ++ v :: B' -> B = B'.
Proof.
  revert A'. induction A as [|a A IH]; intros [|a' A'] Hn E; cbn in *; simplify_eq; [done | | |].
  - apply NoDup_cons in Hn as [Hn _]. destruct Hn. set_solver.
  - apply NoDup_cons in Hn as [Hn _]. destruct Hn. set_solver.
  - apply NoDup_cons in Hn as [_ Hn]. by eapply IH.
Qed.

Lemma two_first x d F : two d F -> on_tree_of x avltree_first d = done (List.hd 0 (elems (sel x F)), d).
Proof. intros Ht. apply on_tree_read. unfold avltree_first. rewrite (bind_done get_tree _ (view x d) (tree_of x d) (view x d)) by done. by rewrite <- (wf_first _ _ _ (two_wf _ _ Ht x)). Qed.

Lemma two_size x d F : two d F -> on_tree_of x avltree_size d = done (zlen (elems (sel x F)), d).
Proof.
  intros Ht. apply on_tree_read. pose proof (two_wf _ _ Ht x) as Hwf. unfold avltree_size.
  rewrite (bind_done get_tree _ (view x d) (tree_of x d) (view x d)) by done. do 3 f_equal.
  change (size (tree_of x d)) with (size (tree (view x d))). rewrite (wf_size _ _ _ Hwf).
  pose proof (few_addrs _ _ _ (at_rep _ _ _ (wf_at _ _ _ Hwf)) (wf_nodup _ _ _ Hwf)). rewrite u64_small; [done|]. unfold zlen in *. lia.
Qed.

Section ops.
Context (fuel : nat) (Hfuel : (123 <= fuel)%nat).

Lemma two_insert x d F v : two d F -> addr v -> is_Some (nodes d !! v) -> (forall y, v ∉ elems (sel y F)) ->
  (forall w, w ∈ elems (sel x F) -> cookie_of (ents d) w <> cookie_of (ents d) v) ->
  exists s t, on_tree_of x (avltree_insert (avl_dirent_hk_cmpf (ents d)) fuel v) d = done (0, set_tree x (tree s) (heap s) d)
  /\ two (set_tree x (tree s) (heap s) d) (upd x t F) /\ elems t ≡ₚ v :: elems (sel x F)
  /\ forall a, a ∉ elems t -> heap s !! a = nodes d !! a.
Proof.
  intros Ht Ha [n Hn] Hnot Hkey.
  destruct (insert_correct _ fuel (view x d) (sel x F) v n (two_wf _ _ Ht x) ltac:(lia) Ha (Hnot x) Hn)
    as [(p & Hp & Hpv & _)|(_ & s & t & E & Hwf & Hel & Hm)].
  { apply cmpf_eq in Hpv. by destruct (Hkey p Hp). }
  exists s, t. split; [by apply on_tree_done|]. split; [|done]. apply two_change; [done | done | done|].
  intros w. rewrite Hel. intros [->|Hw]%elem_of_cons; [apply Hnot | by eapply two_apart'].
Qed.

Lemma two_insert_taken x d F v w : two d F -> addr v -> is_Some (nodes d !! v) -> v ∉ elems (sel x F) ->
  w ∈ elems (sel x F) -> cookie_of (ents d) w = cookie_of (ents d) v ->
  on_tree_of x (avltree_insert (avl_dirent_hk_cmpf (ents d)) fuel v) d = done (w, d).
Proof.
  intros Ht Ha [n Hn] Hnot Hw Hkey. pose proof (two_wf _ _ Ht x) as Hwf.
  destruct (insert_correct _ fuel (view x d) (sel x F) v n Hwf ltac:(lia) Ha Hnot Hn)
    as [(p & Hp & Hpv & E)|(Hnone & _)]; [|by destruct (Hnone w Hw); apply cmpf_eq].
  apply on_tree_read. rewrite E. do 3 f_equal.
  apply cmpf_eq in Hpv. rewrite <- Hkey in Hpv. apply cmpf_eq in Hpv. pose proof (wf_sorted _ _ _ Hwf) as Hs.
  by apply (sorted_same _ (elems (sel x F)) p w).
Qed.

Lemma two_remove x d F v : two d F -> v ∈ elems (sel x F) ->
  exists s t A B, on_tree_of x (avltree_remove fuel v) d = done (tt, set_tree x (tree s) (heap s) d)
  /\ two (set_tree x (tree s) (heap s) d) (upd x t F) /\ elems (sel x F) = A ++ v :: B /\ elems t = A ++ B
  /\ forall a, a ∉ elems t -> heap s !! a = nodes d !! a.
Proof.
  intros Ht Hv. destruct (remove_correct _ fuel (view x d) (sel x F) v (two_wf _ _ Ht x) Hfuel Hv) as (s & t & A & B & E & Hel & Hwf & Hel' & Hm).
  exists s, t, A, B. split; [by apply on_tree_done|]. split_and!; [|done..]. apply two_change; [done | done | done|].
  intros w. rewrite Hel'. intros Hw. eapply two_apart'; [done|]. rewrite Hel. set_solver.
Qed.

Lemma two_inline x d F cmp `{!Order cmp} key : wf cmp (view x d) (sel x F) ->
  on_tree_of x (avltree_inline_lookup fuel cmp key) d = done (List.hd 0 (filter (fun p => cmp p key = 0) (elems (sel x F))), d).
Proof. intros Hwf. apply on_tree_read. apply inline_ok; [done | done | lia]. Qed.

Lemma two_lookup x d F cmp `{!Order cmp} key : wf cmp (view x d) (sel x F) ->
  on_tree_of x (avltree_lookup cmp fuel key) d = done (List.hd 0 (filter (fun p => cmp p key = 0) (elems (sel x F))), d).
Proof. intros Hwf. apply on_tree_read. apply lookup_ok; [done | done | lia]. Qed.

Lemma two_sup x d F cmp `{!Order cmp} key : wf cmp (view x d) (sel x F) ->
  on_tree_of x (avltree_sup cmp fuel key) d
  = done (List.hd (root (tree_of x d)) (filter (fun p => 0 <= cmp p key) (elems (sel x F))), d).
Proof. intros Hwf. apply on_tree_read. rewrite (sup_ok cmp fuel _ _ key Hwf) by lia. done. Qed.

Lemma two_next x d F v A B : two d F -> elems (sel x F) = A ++ v :: B ->
  on_tree_of x (avltree_next fuel v) d = done (List.hd 0 B, d).
Proof.
  intros Ht Hel. pose proof (two_wf _ _ Ht x) as Hwf. pose proof (wf_height_bound _ _ _ Hwf) as Hht. pose proof (wf_nodup _ _ _ Hwf) as Hnd.
  pose proof (wf_at _ _ _ Hwf) as Hat. destruct (zip_to (sel x F) v) as (c & l & b & r & E); [rewrite Hel; set_solver|].
  rewrite <- E in *. apply (proj1 (at_plug _ _ _)) in Hat. apply on_tree_read. rewrite (next_at _ _ _ _ _ _ _ Hat) by lia.
  rewrite elems_plug in *. cbn in *. rewrite <- app_assoc in *. cbn in *. do 3 f_equal.
  apply (nodup_split (cleft c ++ elems l) _ A B v); [by rewrite <- app_assoc | by rewrite <- app_assoc].
Qed.

End ops.

End DirentTrees.
