(* ===== verification/DirentSpec.v ===== *)
(** The cached entries of a directory (module [Dirents] of DirentCache): cookies are unique, and
    insertion, lookup by name and by cookie, deletion and release agree with each other. Module
    [DirentSpec]. *)

From stdpp Require Import sorting.
From S2P Require Import Prelude AvlTree AvlSpec AvlRotate AvlInsert AvlIter AvlRemove DirentCache DirentTrees.
Local Open Scope Z_scope.

Module DirentSpec.

Import Avl AvlSpec AvlInsert AvlIter Dirents DirentTrees.

(** ** The invariant *)

Definition active (x : side) : bool := match x with Act => true | Del => false end.

Definition live (e : dirent) : bool := Z.land (flags e) DIR_ENTRY_FLAG_DELETED =? 0.

(** The entries of the two trees [F]: those of the tree of deleted entries are marked, cookies
    are legal, and no cookie is in both trees. *)
Record dir_ok (d : dir) (F : tr * tr) : Prop := {
  ok_two : two d F;
  ok_ent : forall x v, v ∈ elems (sel x F) -> exists e, ents d !! v = Some e /\ MIN_COOKIE_VAL <= k e < 2 ^ 64 /\ live e = active x;
  ok_keys : forall v w, v ∈ elems (sel Act F) -> w ∈ elems (sel Del F) -> cookie_of (ents d) v <> cookie_of (ents d) w
}.

(** The fields that the operations on the trees leave. *)
Definition same_head (d d' : dir) : Prop := is_dir d' = is_dir d /\ dflags d' = dflags d /\ nbactive d' = nbactive d.

Lemma same_head_trans d1 d2 d3 : same_head d1 d2 -> same_head d2 d3 -> same_head d1 d3.
Proof. unfold same_head. naive_solver congruence. Qed.

Lemma set_tree_head x t n d : same_head d (set_tree x t n d). Proof. by destruct x. Qed.
Lemma set_tree_ents x t n d : ents (set_tree x t n d) = ents d. Proof. by destruct x. Qed.
Lemma set_tree_nodes x t n d : nodes (set_tree x t n d) = n. Proof. by destruct x. Qed.

(** Nodes outside the trees stay. *)
Definition kept (F : tr * tr) (d d' : dir) : Prop := forall a, (forall x, a ∉ elems (sel x F)) -> nodes d' !! a = nodes d !! a.

Lemma wf_addr cmp s t v : wf cmp s t -> v ∈ elems t -> addr v.
Proof. intros H Hv. by apply (rep_addr _ _ _ _ (at_rep _ _ _ (wf_at _ _ _ H))). Qed.

Lemma ok_addr d F x v : dir_ok d F -> v ∈ elems (sel x F) -> addr v.
Proof. intros H Hv. by apply (wf_addr _ _ _ _ (two_wf _ _ (ok_two _ _ H) x)). Qed.

Lemma addr_ne0 v : addr v -> v <> 0. Proof. unfold addr. lia. Qed.

(** The first element that satisfies a predicate, among nodes. *)
Lemma hd_filter (P : Z -> Prop) `{!forall x, Decision (P x)} l : (forall v, v ∈ l -> addr v) ->
  (List.hd 0 (filter P l) = 0 /\ forall v, v ∈ l -> ~ P v) \/ (exists v, v ∈ l /\ P v /\ v <> 0 /\ List.hd 0 (filter P l) = v).
Proof.
  intros Ha. destruct (filter P l) as [|v l'] eqn:E.
  - left. split; [done|]. intros v Hv HP. assert (v ∈ filter P l) as Hi by (by apply list_elem_of_filter). rewrite E in Hi. by apply elem_of_nil in Hi.
  - right. exists v. assert (v ∈ filter P l) as Hi by (rewrite E; by left). apply list_elem_of_filter in Hi as [HP Hv].
    split_and!; [done | done | by apply addr_ne0, Ha | done].
Qed.

(** A change of entries that keeps the cookies of the trees. *)
Lemma two_cookies d F e' : two d F -> (forall x w, w ∈ elems (sel x F) -> cookie_of e' w = cookie_of (ents d) w) -> two (set_ents e' d) F.
Proof.
  intros [H1 H2] Hc. split; [|done]. intros x. eapply wf_ext; [apply (H1 x) | done | by destruct x|].
  intros a b Ha Hb. cbn. unfold avl_dirent_hk_cmpf. by rewrite !(Hc x).
Qed.

Lemma cookie_insert_ne e v f w : v <> w -> cookie_of (<[v := f]> e) w = cookie_of e w.
Proof. intros Hne. unfold cookie_of. by rewrite lookup_insert_ne. Qed.

Lemma cookie_insert e v f : cookie_of (<[v := f]> e) v = k f.
Proof. unfold cookie_of. by rewrite lookup_insert_eq. Qed.

(** A change of an entry outside the trees. *)
Lemma ok_outside d F v e : dir_ok d F -> (forall x, v ∉ elems (sel x F)) -> dir_ok (set_ents (<[v := e]> (ents d)) d) F.
Proof.
  intros [H1 H2 H3] Hv. assert (forall x w, w ∈ elems (sel x F) -> w <> v) as Hne by (intros x w Hw ->; by apply (Hv x)).
  split.
  - apply two_cookies; [done|]. intros x w Hw. apply cookie_insert_ne. intros ->. by apply (Hne x w).
  - intros x w Hw. destruct (H2 x w Hw) as (f & Hf & Hr). exists f. split; [|done]. cbn. rewrite lookup_insert_ne; [done|]. intros ->. by apply (Hne x w).
  - intros a b Ha Hb. cbn. rewrite !cookie_insert_ne; [by apply H3 | intros ->; by apply (Hne Del b) | intros ->; by apply (Hne Act a)].
Qed.

Lemma change_dirent_ok d v e f : ents d !! v = Some e -> change_dirent v f d = done (tt, set_ents (<[v := f e]> (ents d)) d).
Proof. intros E. unfold change_dirent. by rewrite (bind_done (dirent_at v) _ d e d) by (unfold dirent_at; by rewrite E). Qed.

Lemma dirent_at_ok d v e : ents d !! v = Some e -> dirent_at v d = done (e, d).
Proof. intros E. unfold dirent_at. by rewrite E. Qed.

Lemma get_dir_ok {A} (f : dir -> M dir A) d : (x ← get_dir; f x) d = f d d.
Proof. by rewrite (bind_done get_dir _ d d d). Qed.

Lemma sublist_in (l l' : list Z) v : sublist l l' -> v ∈ l -> v ∈ l'.
Proof. intros H Hv. by eapply elem_of_submseteq, sublist_submseteq. Qed.

(** One of the trees loses entries. *)
Lemma ok_shrink x d d' F t : dir_ok d F -> two d' (upd x t F) -> ents d' = ents d -> elems t ⊆ elems (sel x F) -> dir_ok d' (upd x t F).
Proof.
  intros [H1 H2 H3] Ht He Hsub. split; [done | |].
  - intros y v Hv. rewrite He. apply H2. destruct x, y; cbn in *; auto.
  - intros v w Hv Hw. rewrite He. apply H3; destruct x; cbn in *; auto.
Qed.

Lemma ok_remove fuel x d F v : (123 <= fuel)%nat -> dir_ok d F -> v ∈ elems (sel x F) ->
  exists d' t A B, on_tree_of x (avltree_remove fuel v) d = done (tt, d') /\ dir_ok d' (upd x t F)
  /\ elems (sel x F) = A ++ v :: B /\ elems t = A ++ B /\ ents d' = ents d /\ same_head d d' /\ collisions d' = collisions d
  /\ forall a, a ∉ elems t -> nodes d' !! a = nodes d !! a.
Proof.
  intros Hf Hok Hv. destruct (two_remove fuel Hf x d F v (ok_two _ _ Hok) Hv) as (s & t & A & B & E & Ht & Hel & Hel' & Hm).
  exists (set_tree x (tree s) (heap s) d), t, A, B. split_and!; try done; try (by destruct x).
  eapply ok_shrink; [done | done | by destruct x|]. rewrite Hel, Hel'. set_solver.
Qed.

(** One of the trees gets an entry. *)
Lemma ok_grow x d d' F t v f : dir_ok d F -> two d' (upd x t F) -> elems t ≡ₚ v :: elems (sel x F) -> ents d' = <[v := f]> (ents d) ->
  (forall y, v ∉ elems (sel y F)) -> MIN_COOKIE_VAL <= k f < 2 ^ 64 -> live f = active x ->
  (forall w, w ∈ elems (sel (other x) F) -> cookie_of (ents d) w <> k f) -> dir_ok d' (upd x t F).
Proof.
  intros [H1 H2 H3] Ht Hel He Hv Hk Hl Hc.
  assert (forall y w, w ∈ elems (sel y F) -> w <> v) as Hne by (intros y w Hw ->; by apply (Hv y)).
  assert (forall y w, w ∈ elems (sel y F) -> cookie_of (<[v:=f]> (ents d)) w = cookie_of (ents d) w) as Hck.
  { intros y w Hw. apply cookie_insert_ne. intros ->. by apply (Hv y). }
  split; [done | |].
  - intros y w Hw. rewrite He. destruct (decide (w = v)) as [->|Hwv].
    + exists f. rewrite lookup_insert_eq. split_and!; [done | lia | lia|]. rewrite Hl. f_equal.
      destruct x, y; try done; exfalso; [by apply (Hv Del) | by apply (Hv Act)].
    + rewrite lookup_insert_ne by done. apply H2. destruct x, y; cbn in *; try done; rewrite Hel in Hw; set_solver.
  - intros a b Ha Hb. rewrite He. destruct x; cbn [upd sel fst snd other] in *; rewrite Hel in *.
    + rewrite (Hck Del b Hb). apply elem_of_cons in Ha as [->|Ha]; [rewrite cookie_insert; intros E; by apply (Hc b) | rewrite (Hck Act a Ha); by apply H3].
    + rewrite (Hck Act a Ha). apply elem_of_cons in Hb as [->|Hb]; [rewrite cookie_insert; by apply Hc | rewrite (Hck Del b Hb); by apply H3].
Qed.

(** An entry in memory that is in none of the trees. *)
Record loose (d : dir) (F : tr * tr) (v : Z) (e : dirent) : Prop := {
  lo_out : forall x, v ∉ elems (sel x F);
  lo_addr : addr v;
  lo_node : is_Some (nodes d !! v);
  lo_ent : ents d !! v = Some e
}.

(** ** Probes *)

(** The cookie of the [j]-th probe. *)
Definition probe (h : Z) (j : nat) : Z := u64 (h + Z.of_nat j * (Z.of_nat j + 1)).

Lemma probe_step h j : u64 (probe h j + Z.of_nat (S j) * 2) = probe h (S j).
Proof. unfold probe, u64. rewrite Zplus_mod_idemp_l. f_equal. lia. Qed.

Lemma probe_range h j : 0 <= probe h j < 2 ^ 64. Proof. apply u64_range. Qed.

(** The probes before an [int] overflows are distinct. *)
Lemma probe_inj h i j : Z.of_nat i < 2 ^ 31 -> Z.of_nat j < 2 ^ 31 -> probe h i = probe h j -> i = j.
Proof.
  unfold probe, u64. generalize (Nat2Z.is_nonneg i) (Nat2Z.is_nonneg j). intros Hi0 Hj0 Hi Hj E. apply Nat2Z.inj. revert Hi0 Hj0 Hi Hj E. generalize (Z.of_nat i) (Z.of_nat j). intros a b Ha0 Hb0 Ha Hb E.
  assert ((a * (a + 1) - b * (b + 1)) mod 2 ^ 64 = 0) as Hm.
  { replace (a * (a + 1) - b * (b + 1)) with ((h + a * (a + 1)) - (h + b * (b + 1))) by lia. rewrite Zminus_mod, E, Z.sub_diag. done. }
  apply Z.mod_divide in Hm as [q Hq]; [|done]. assert (q = 0) as -> by nia. nia.
Qed.

(** The cookies of the active entries. *)
Definition cookies (d : dir) (F : tr * tr) : list Z := map (cookie_of (ents d)) (elems (sel Act F)).

Definition free_probe (h : Z) (taken : list Z) (j : nat) : Prop := MIN_COOKIE_VAL <= probe h j /\ probe h j ∉ taken.

#[export] Instance free_probe_dec h taken j : Decision (free_probe h taken j).
Proof. apply _. Defined.

(** Among four more probes than there are entries one is free. *)
Lemma some_free h taken : zlen taken + 4 < 2 ^ 31 -> exists j, (j < length taken + 4)%nat /\ free_probe h taken j.
Proof.
  unfold zlen. intros Hlen. destruct (decide (Exists (free_probe h taken) (seq 0 (length taken + 4)))) as [Hex|Hno].
  - apply Exists_exists in Hex as (j & Hj & Hf). exists j. split; [|done]. apply elem_of_seq in Hj. lia.
  - exfalso. rewrite <- Forall_Exists_neg in Hno.
    assert (length (map (probe h) (seq 0 (length taken + 4))) <= length ([0; 1; 2]%Z ++ taken))%nat as Hle.
    { apply submseteq_length, NoDup_submseteq.
      - apply NoDup_fmap_2_strong; [|apply NoDup_seq]. intros i j Hi Hj. apply elem_of_seq in Hi, Hj. apply probe_inj; lia.
      - intros x (j & -> & Hj)%list_elem_of_fmap. rewrite Forall_forall in Hno. specialize (Hno j Hj). unfold free_probe, MIN_COOKIE_VAL in Hno.
        pose proof (probe_range h j). destruct (decide (probe h j ∈ taken)) as [Hin|Hout]; [set_solver|].
        assert (probe h j < 3) by (destruct (decide (3 <= probe h j)); [by destruct Hno | lia]).
        apply elem_of_app. left. assert (probe h j = 0 \/ probe h j = 1 \/ probe h j = 2) as [-> | [-> | ->]] by lia; set_solver. }
    rewrite length_map, length_seq, length_app in Hle. cbn in Hle. lia.
Qed.

(** [v], whose entry was [e], is active in [d'], with the cookie and the number of the probe [j];
    otherwise only deleted entries have left, and nodes outside the trees stay. *)
Record inserted (d : dir) (F : tr * tr) (v : Z) (e : dirent) (h : Z) (j : nat) (d' : dir) (F' : tr * tr) : Prop := {
  in_ok : dir_ok d' F';
  in_ents : ents d' = <[v := set_p (u32 (Z.of_nat j)) (set_k (probe h j) e)]> (ents d);
  in_head : same_head d d';
  in_act : elems (sel Act F') ≡ₚ v :: elems (sel Act F);
  in_del : sublist (elems (sel Del F')) (elems (sel Del F));
  in_nodes : forall a, a <> v -> (forall x, a ∉ elems (sel x F)) -> nodes d' !! a = nodes d !! a
}.

Lemma cookies_outside d F v e : (forall x, v ∉ elems (sel x F)) -> cookies (set_ents (<[v := e]> (ents d)) d) F = cookies d F.
Proof.
  intros Hv. unfold cookies. apply map_ext_in. intros w Hw%list_elem_of_In. apply cookie_insert_ne. intros ->. by apply (Hv Act).
Qed.

Lemma loose_set_k d F v e x : loose d F v e -> loose (set_ents (<[v := set_k x e]> (ents d)) d) F v (set_k x e).
Proof. intros [H1 H2 H3 H4]. split; [done | done | done|]. cbn. by rewrite lookup_insert_eq. Qed.

(** After a round that did not insert, in a state [d1] where only the cookie of [v] and deleted
    entries differ. *)
Lemma inserted_after d F v e h j x d1 F1 d' F' :
  ents d1 = <[v := set_k x e]> (ents d) -> same_head d d1 -> sel Act F1 = sel Act F -> sublist (elems (sel Del F1)) (elems (sel Del F)) ->
  (forall a, a <> v -> (forall y, a ∉ elems (sel y F)) -> nodes d1 !! a = nodes d !! a) ->
  inserted d1 F1 v (set_k x e) h j d' F' -> inserted d F v e h j d' F'.
Proof.
  intros He Hh Ha Hs Hn [G1 G2 G3 G4 G5 G6]. split; [done | | by eapply same_head_trans | by rewrite <- Ha | by etrans|].
  - rewrite G2, He, insert_insert_eq. done.
  - intros a Hav Hout. rewrite G6, Hn; [done | done | done | done|]. intros [].
    + rewrite Ha. exact (Hout Act).
    + intros Hi. apply (Hout Del). by eapply sublist_in.
Qed.

Section insertion.
Context (fuel : nat) (Hfuel : (123 <= fuel)%nat).

(** What [purge_deleted] leaves: no deleted entry has the cookie of [v]. *)
Lemma purge_ok d F v : dir_ok d F ->
  exists d' t, purge_deleted fuel v d = done (tt, d') /\ dir_ok d' (upd Del t F) /\ ents d' = ents d /\ same_head d d' /\ collisions d' = collisions d
  /\ sublist (elems t) (elems (sel Del F)) /\ (forall w, w ∈ elems t -> cookie_of (ents d) w <> cookie_of (ents d) v) /\ kept F d d'.
Proof.
  intros Hok. pose proof (ok_two _ _ Hok) as Ht. unfold purge_deleted. rewrite get_dir_ok.
  rewrite (bind_done _ _ _ _ _ (two_inline fuel Hfuel Del d F _ v (two_wf _ _ Ht Del))), (bind_done _ _ _ _ _ (two_size Del d F Ht)).
  assert (forall w, w ∈ elems (sel Del F) ->
    (forall u, u ∈ elems (sel Del F) -> u <> w -> cookie_of (ents d) u <> cookie_of (ents d) v) ->
    exists d' t, on_tree_of Del (avltree_remove fuel w) d = done (tt, d') /\ dir_ok d' (upd Del t F) /\ ents d' = ents d /\ same_head d d'
      /\ collisions d' = collisions d /\ sublist (elems t) (elems (sel Del F))
      /\ (forall u, u ∈ elems t -> cookie_of (ents d) u <> cookie_of (ents d) v) /\ kept F d d') as Hrem.
  { intros w Hw Hothers. destruct (ok_remove fuel Del d F w Hfuel Hok Hw) as (d' & t & A & B & E & Hok' & Hel & Hel' & He & Hh & Hco & Hm).
    pose proof (wf_nodup _ _ _ (two_wf _ _ Ht Del)) as Hnd. rewrite Hel in Hnd.
    exists d', t. split_and!; try done.
    - rewrite Hel, Hel'. apply sublist_app; [done|]. by constructor.
    - intros u Hu. rewrite Hel' in Hu. apply Hothers; [rewrite Hel; set_solver|]. intros ->.
      apply NoDup_app in Hnd as (_ & Hd & [Hn _]%NoDup_cons). apply elem_of_app in Hu as [Hu|Hu]; [|done]. apply (Hd w Hu). by left.
    - intros a Ha. apply Hm. rewrite Hel'. intros Hi. apply (Ha Del). rewrite Hel. set_solver. }
  destruct (hd_filter (fun p => avl_dirent_hk_cmpf (ents d) p v = 0) (elems (sel Del F))) as [[-> Hnone]|(w & Hw & Hc & Hw0 & ->)].
  { intros u Hu. by eapply (ok_addr d F Del). }
  - cbn [Z.eqb andb]. destruct (Z.ltb_spec 65535 (zlen (elems (sel Del F)))) as [Hbig|Hsmall].
    + rewrite (bind_done _ _ _ _ _ (two_first Del d F Ht)). destruct (elems (sel Del F)) as [|w l] eqn:El; [done|]. cbn [List.hd].
      assert (w <> 0) as Hw0 by (apply addr_ne0, (ok_addr d F Del w Hok); rewrite El; by left). rewrite (proj2 (Z.eqb_neq w 0) Hw0).
      apply Hrem; [by left|]. intros u Hu _ Hc. apply (Hnone u Hu). by apply cmpf_eq.
    + exists d, (sel Del F). assert (upd Del (sel Del F) F = F) as -> by (by destruct F). split_and!; try done.
      intros u Hu Hc. apply (Hnone u Hu). by apply cmpf_eq.
  - rewrite (proj2 (Z.eqb_neq w 0) Hw0). cbn [andb]. rewrite (bind_done (mret w) _ d w d) by done. rewrite (proj2 (Z.eqb_neq w 0) Hw0).
    apply Hrem; [done|]. intros u Hu Hne Hcu. apply cmpf_eq in Hc. apply Hne.
    apply (sorted_same _ _ u w (wf_sorted _ _ _ (two_wf _ _ Ht Del))); [done | done|]. apply cmpf_eq. congruence.
Qed.

Lemma impl_taken d F v e j w : dir_ok d F -> loose d F v e -> w ∈ elems (sel Act F) -> cookie_of (ents d) w = k e ->
  exists d' t, cache_inode_avl_insert_impl fuel v j 0 d = done (-1, d') /\ dir_ok d' (upd Del t F) /\ ents d' = ents d /\ same_head d d'
  /\ collisions d' = collisions d /\ sublist (elems t) (elems (sel Del F)) /\ kept F d d'.
Proof.
  intros Hok [Ho Ha Hn He] Hw Hc. destruct (purge_ok d F v Hok) as (d1 & t & E1 & Hok1 & He1 & Hh1 & Hc1 & Hs1 & _ & Hk1).
  exists d1, t. split_and!; try done. unfold cache_inode_avl_insert_impl. rewrite (bind_done _ _ _ _ _ E1), get_dir_ok.
  assert (cookie_of (ents d) v = k e) as Hcv by (unfold cookie_of; by rewrite He).
  rewrite (bind_done _ _ _ _ _ (two_insert_taken fuel Hfuel Act d1 _ v w (ok_two _ _ Hok1) Ha ltac:(by rewrite Hk1) (Ho Act) Hw ltac:(by rewrite He1, Hcv))).
  by rewrite (proj2 (Z.eqb_neq w 0)) by (apply addr_ne0, (ok_addr d F Act w Hok Hw)).
Qed.

Lemma impl_free d F v e j : dir_ok d F -> loose d F v e -> live e = true -> MIN_COOKIE_VAL <= k e < 2 ^ 64 ->
  (forall w, w ∈ elems (sel Act F) -> cookie_of (ents d) w <> k e) ->
  exists d' F', cache_inode_avl_insert_impl fuel v j 0 d = done (0, d') /\ dir_ok d' F' /\ ents d' = <[v := set_p (u32 (j + 0)) e]> (ents d)
  /\ same_head d d' /\ elems (sel Act F') ≡ₚ v :: elems (sel Act F) /\ sublist (elems (sel Del F')) (elems (sel Del F))
  /\ (forall a, a <> v -> (forall x, a ∉ elems (sel x F)) -> nodes d' !! a = nodes d !! a).
Proof.
  intros Hok [Ho Ha Hn He] Hl Hk Hfree. destruct (purge_ok d F v Hok) as (d1 & t & E1 & Hok1 & He1 & Hh1 & Hc1 & Hs1 & Hdel & Hk1).
  assert (cookie_of (ents d) v = k e) as Hcv by (unfold cookie_of; by rewrite He).
  assert (forall y, v ∉ elems (sel y (upd Del t F))) as Ho1.
  { intros []; cbn; [exact (Ho Act)|]. intros Hi. apply (Ho Del). by eapply sublist_in. }
  destruct (two_insert fuel Hfuel Act d1 _ v (ok_two _ _ Hok1) Ha ltac:(by rewrite Hk1) Ho1) as (s & ta & E2 & Ht2 & Hel2 & Hm2).
  { intros w Hw. rewrite He1, Hcv. by apply Hfree. }
  set (d2 := set_tree Act (tree s) (heap s) d1) in *. assert (ents d2 = ents d) as He2 by (unfold d2; by rewrite set_tree_ents).
  set (f := set_p (u32 (j + 0)) e). set (d3 := set_ents (<[v := f]> (ents d2)) d2).
  set (d4 := if collisions d3 <? u32 (j + 0) then set_collisions (u32 (j + 0)) d3 else d3).
  assert (two d3 (upd Act ta (upd Del t F))) as Ht3.
  { apply two_cookies; [done|]. intros y w _. unfold cookie_of. destruct (decide (v = w)) as [<-|Hne]; [|by rewrite lookup_insert_ne].
    rewrite lookup_insert_eq, He2, He. done. }
  exists d4, (upd Act ta (upd Del t F)).
  assert (dir_ok d3 (upd Act ta (upd Del t F))) as Hok3.
  { eapply (ok_grow Act d1); [done | done | done | change (ents d3) with (<[v:=f]> (ents d2)); by rewrite He2, He1 | done | done | done|].
    intros w Hw. rewrite He1. cbn. rewrite <- Hcv. by apply Hdel. }
  split_and!.
  - unfold cache_inode_avl_insert_impl. rewrite (bind_done _ _ _ _ _ E1), get_dir_ok, (bind_done _ _ _ _ _ E2). cbn [Z.eqb].
    rewrite (bind_done _ _ d2 tt d3) by (by apply (change_dirent_ok d2 v e); rewrite He2).
    rewrite (bind_done _ _ d3 tt d4) by done. done.
  - unfold d4. destruct (_ <? _); [|done]. destruct Hok3 as [[G1 G2] G3 G4]. split; [split; [|done]|done|done]. intros y. specialize (G1 y). by destruct y.
  - assert (ents d4 = <[v := f]> (ents d2)) as -> by (unfold d4; by destruct (_ <? _)). by rewrite He2.
  - unfold d4. destruct (_ <? _); exact Hh1.
  - done.
  - done.
  - intros a Hav Ha'. assert (nodes d4 = nodes d2) as -> by (unfold d4; by destruct (_ <? _)). unfold d2. rewrite set_tree_nodes, Hm2; [by apply Hk1|].
    rewrite Hel2. cbn. rewrite not_elem_of_cons. split; [done | apply (Ha' Act)].
Qed.

(** ** The insertion of an entry *)

Lemma qp_loop_spec h rounds j d F v e :
  dir_ok d F -> loose d F v e -> live e = true -> u64 (k e + Z.of_nat j * 2) = probe h j ->
  (exists i, (j <= i < j + rounds)%nat /\ free_probe h (cookies d F) i) -> Z.of_nat (j + rounds) <= 2 ^ 30 ->
  exists i d' F', qp_loop fuel rounds v (Z.of_nat j) d = done (0, d') /\ (j <= i)%nat /\ free_probe h (cookies d F) i
  /\ (forall m, (j <= m < i)%nat -> ~ free_probe h (cookies d F) m) /\ inserted d F v e h i d' F'.
Proof.
  revert j d F e. induction rounds as [|rounds IH]; intros j d F e Hok Hlo Hl Hk (i & Hi & Hfree) Hb; [lia|].
  cbn [qp_loop]. rewrite (proj2 (Z.leb_gt (2 ^ 30) (Z.of_nat j))) by lia.
  set (d1 := set_ents (<[v := set_k (probe h j) e]> (ents d)) d).
  rewrite (bind_done _ _ d tt d1) by (rewrite (change_dirent_ok d v e _ (lo_ent _ _ _ _ Hlo)), Hk; done).
  pose proof (loose_set_k _ _ _ _ (probe h j) Hlo) as Hlo1. fold d1 in Hlo1. pose proof (lo_out _ _ _ _ Hlo) as Hout.
  pose proof (ok_outside d F v (set_k (probe h j) e) Hok Hout) as Hok1. fold d1 in Hok1.
  pose proof (cookies_outside d F v (set_k (probe h j) e) Hout) as Hck. fold d1 in Hck.
  rewrite (bind_done _ _ _ _ _ (dirent_at_ok d1 v _ (lo_ent _ _ _ _ Hlo1))). cbn [k set_k].
  (* the next rounds, when this one did not insert *)
  assert (forall d2 t, ~ free_probe h (cookies d F) j -> dir_ok d2 (upd Del t F) -> ents d2 = ents d1 -> same_head d d2 ->
    sublist (elems t) (elems (sel Del F)) -> (forall a, (forall x, a ∉ elems (sel x F)) -> nodes d2 !! a = nodes d !! a) ->
    exists i d' F', qp_loop fuel rounds v (Z.of_nat j + 1) d2 = done (0, d') /\ (j <= i)%nat /\ free_probe h (cookies d F) i
    /\ (forall m, (j <= m < i)%nat -> ~ free_probe h (cookies d F) m) /\ inserted d F v e h i d' F') as Hnext.
  { intros d2 t Hnf Hok2 He2 Hh2 Hs2 Hn2. assert (cookies d2 (upd Del t F) = cookies d F) as Hck2.
    { rewrite <- Hck. unfold cookies. by rewrite He2. }
    assert (loose d2 (upd Del t F) v (set_k (probe h j) e)) as Hlo2.
    { destruct Hlo as [L1 L2 L3 L4]. split; [|done|by rewrite Hn2|by rewrite He2; apply Hlo1]. intros []; cbn; [exact (L1 Act)|].
      intros Hin. apply (L1 Del). by eapply sublist_in. }
    destruct (IH (S j) d2 (upd Del t F) (set_k (probe h j) e) Hok2 Hlo2 Hl) as (i' & d' & F' & E & Hle & Hf' & Hfirst & Hins).
    - cbn [k set_k]. apply probe_step.
    - rewrite Hck2. exists i. split; [|done]. assert (i <> j) by (by intros ->). lia.
    - lia.
    - rewrite Hck2 in *. exists i', d', F'. replace (Z.of_nat j + 1) with (Z.of_nat (S j)) by lia. split_and!; [done | lia | done | |].
      + intros m Hm. destruct (decide (m = j)) as [->|]; [done|]. apply Hfirst. lia.
      + by apply (inserted_after d F v e h i' (probe h j) d2 (upd Del t F)); [..|intros a _ Ha; apply Hn2|]. }
  destruct (Z.ltb_spec (probe h j) MIN_COOKIE_VAL) as [Hsmall|Hbig].
  { apply (Hnext d1 (sel Del F)); try done; [intros [? _]; lia|]. by destruct F. }
  destruct (decide (probe h j ∈ cookies d F)) as [Htaken|Hnot].
  - apply list_elem_of_fmap in Htaken as (w & Hw1 & Hw2). assert (cookie_of (ents d1) w = probe h j) as Hcw.
    { rewrite Hw1. unfold d1. cbn. apply cookie_insert_ne. intros ->. by apply (Hout Act). }
    destruct (impl_taken d1 F v _ (Z.of_nat j) w Hok1 Hlo1 Hw2 Hcw) as (d2 & t & E2 & Hok2 & He2 & Hh2 & _ & Hs2 & Hk2).
    rewrite (bind_done _ _ _ _ _ E2). cbn [Z.leb Z.compare]. apply (Hnext d2 t); try done.
    intros [_ Hn]. apply Hn. rewrite Hw1. apply list_elem_of_fmap. eauto.
  - destruct (impl_free d1 F v _ (Z.of_nat j) Hok1 Hlo1 Hl) as (d2 & F2 & E2 & Hok2 & He2 & Hh2 & Hel2 & Hs2 & Hn2).
    { cbn. pose proof (probe_range h j). lia. }
    { intros w Hw Hc. apply Hnot. cbn [k set_k] in Hc. rewrite <- Hc. unfold d1. cbn. rewrite cookie_insert_ne by (intros ->; by apply (Hout Act)).
      apply list_elem_of_fmap. eauto. }
    rewrite (bind_done _ _ _ _ _ E2). cbn [Z.leb Z.compare]. exists j, d2, F2. split_and!; [done | lia | done | lia|].
    split; [done | | done | done | done | done]. rewrite He2. unfold d1. cbn. by rewrite insert_insert_eq, Z.add_0_r.
Qed.

Lemma qp_insert_ok hash use_9p rounds d F v e :
  dir_ok d F -> loose d F v e -> live e = true -> zlen (elems (sel Act F)) + 4 <= Z.of_nat rounds <= 2 ^ 30 ->
  let h := cookie_hash hash use_9p (name e) in
  exists j d' F', cache_inode_avl_qp_insert fuel hash use_9p rounds v d = done (0, d') /\ free_probe h (cookies d F) j
  /\ (forall m, (m < j)%nat -> ~ free_probe h (cookies d F) m) /\ inserted d F v e h j d' F'.
Proof.
  intros Hok Hlo Hl Hr h. unfold cache_inode_avl_qp_insert.
  rewrite (bind_done _ _ _ _ _ (dirent_at_ok d v e (lo_ent _ _ _ _ Hlo))), (bind_done _ _ _ _ _ (change_dirent_ok d v e _ (lo_ent _ _ _ _ Hlo))).
  fold h. set (d1 := set_ents _ d). pose proof (loose_set_k _ _ _ _ h Hlo) as Hlo1. pose proof (lo_out _ _ _ _ Hlo) as Hout.
  pose proof (ok_outside d F v (set_k h e) Hok Hout) as Hok1. pose proof (cookies_outside d F v (set_k h e) Hout) as Hck. fold d1 in Hlo1, Hok1, Hck.
  assert (zlen (cookies d F) = zlen (elems (sel Act F))) as Hlen by (unfold zlen, cookies; by rewrite length_map).
  destruct (some_free h (cookies d F) ltac:(lia)) as (i & Hi & Hfree). unfold zlen in *.
  destruct (qp_loop_spec h rounds 0 d1 F v _ Hok1 Hlo1 Hl) as (j & d' & F' & E & _ & Hf & Hfirst & Hins).
  - cbn [k set_k]. unfold probe. f_equal; lia.
  - rewrite Hck. exists i. split; [lia | done].
  - lia.
  - rewrite Hck in *. exists j, d', F'. split_and!; [done | done | intros m Hm; apply Hfirst; lia|].
    by apply (inserted_after d F v e h j h d1 F).
Qed.

End insertion.

(** ** Lookups *)

Lemma active_unique d F v w : dir_ok d F -> v ∈ elems (sel Act F) -> w ∈ elems (sel Act F) ->
  cookie_of (ents d) v = cookie_of (ents d) w -> v = w.
Proof.
  intros Hok Hv Hw E. eapply (sorted_same (avl_dirent_hk_cmpf (ents d))); [apply (wf_sorted _ _ _ (two_wf _ _ (ok_two _ _ Hok) Act)) | done | done|].
  by apply cmpf_eq.
Qed.

Section lookups.
Context (fuel : nat) (stk : Z) (hash : string -> Z) (use_9p : bool) (Hfuel : (123 <= fuel)%nat).

(** The key on the stack is not an entry of the directory. *)
Lemma wf_key d F x y : dir_ok d F -> ents d !! stk = None ->
  wf (avl_dirent_hk_cmpf (with_key stk x (ents d))) (view y d) (sel y F).
Proof.
  intros Hok Hs. eapply wf_ext; [apply (two_wf _ _ (ok_two _ _ Hok) y) | done | done|].
  assert (forall a, a ∈ elems (sel y F) -> a <> stk) as Hne.
  { intros a Ha ->. destruct (ok_ent _ _ Hok y stk Ha) as (e & He & _). congruence. }
  intros a b Ha Hb. unfold avl_dirent_hk_cmpf, with_key. by rewrite !cookie_insert_ne by (symmetry; auto).
Qed.

Lemma cmp_key d F x y w : dir_ok d F -> ents d !! stk = None -> w ∈ elems (sel y F) ->
  cookie_of (with_key stk x (ents d)) w = cookie_of (ents d) w /\ cookie_of (with_key stk x (ents d)) stk = x.
Proof.
  intros Hok Hs Hw. unfold with_key. split; [|by rewrite cookie_insert]. apply cookie_insert_ne. intros ->.
  destruct (ok_ent _ _ Hok y w Hw) as (e & He & _). congruence.
Qed.

(** The node with a cookie. *)
Lemma find_cookie d F x y : dir_ok d F -> ents d !! stk = None ->
  let r := List.hd 0 (filter (fun p => avl_dirent_hk_cmpf (with_key stk x (ents d)) p stk = 0) (elems (sel y F))) in
  (r = 0 /\ forall w, w ∈ elems (sel y F) -> cookie_of (ents d) w <> x)
  \/ (r ∈ elems (sel y F) /\ cookie_of (ents d) r = x /\ r <> 0).
Proof.
  intros Hok Hs r. subst r.
  destruct (hd_filter (fun p => avl_dirent_hk_cmpf (with_key stk x (ents d)) p stk = 0) (elems (sel y F))) as [[-> Hn]|(w & Hw & Hc & Hw0 & ->)].
  { intros v Hv. by eapply (ok_addr d F y). }
  - left. split; [done|]. intros w Hw Hc. apply (Hn w Hw). apply cmpf_eq. destruct (cmp_key d F x y w Hok Hs Hw) as [-> ->]. done.
  - right. split_and!; [done | | done]. apply cmpf_eq in Hc. destruct (cmp_key d F x y w Hok Hs Hw) as [E1 E2]. congruence.
Qed.

(** The name of an entry, and the active entry that a probe for a name finds. *)
Definition named (d : dir) (w : Z) (nm : string) : Prop := exists e, ents d !! w = Some e /\ name e = nm.

Definition hit (d : dir) (F : tr * tr) (h : Z) (nm : string) (j : nat) (w : Z) : Prop :=
  w ∈ elems (sel Act F) /\ cookie_of (ents d) w = probe h j /\ named d w nm.

Lemma lookup_s_loop_spec h nm n j x d F : dir_ok d F -> ents d !! stk = None -> u64 (x + Z.of_nat j * 2) = probe h j -> Z.of_nat (j + n) <= 2 ^ 30 ->
  (exists i w, (j <= i < j + n)%nat /\ hit d F h nm i w /\ lookup_s_loop fuel stk n nm x (Z.of_nat j) d = done (w, d))
  \/ ((forall i w, (j <= i < j + n)%nat -> ~ hit d F h nm i w) /\ lookup_s_loop fuel stk n nm x (Z.of_nat j) d = done (0, d)).
Proof.
  intros Hok Hs. revert j x. induction n as [|n IH]; intros j x Hx Hb; [right; split; [lia | done]|].
  cbn [lookup_s_loop]. rewrite (proj2 (Z.leb_gt (2 ^ 30) (Z.of_nat j))) by lia. rewrite Hx, get_dir_ok.
  rewrite (bind_done _ _ _ _ _ (two_lookup fuel Hfuel Act d F _ stk (wf_key d F (probe h j) Act Hok Hs))).
  assert ((forall w, ~ hit d F h nm j w) ->
    (exists i w, (j <= i < j + S n)%nat /\ hit d F h nm i w /\ lookup_s_loop fuel stk n nm (probe h j) (Z.of_nat j + 1) d = done (w, d))
    \/ ((forall i w, (j <= i < j + S n)%nat -> ~ hit d F h nm i w) /\ lookup_s_loop fuel stk n nm (probe h j) (Z.of_nat j + 1) d = done (0, d))) as Hnext.
  { intros Hmiss. replace (Z.of_nat j + 1) with (Z.of_nat (S j)) by lia.
    destruct (IH (S j) (probe h j)) as [(i & w & Hi & Hh & E)|[Hn E]]; [apply probe_step | lia | |].
    - left. exists i, w. split_and!; [lia | lia | done | done].
    - right. split; [|done]. intros i w Hi. destruct (decide (i = j)) as [->|]; [apply Hmiss | apply Hn; lia]. }
  destruct (find_cookie d F (probe h j) Act Hok Hs) as [[-> Hn]|(Hw & Hc & Hw0)].
  { cbn [Z.eqb]. apply Hnext. intros w (Hw & Hc & _). by apply (Hn w). }
  set (w := List.hd 0 _) in *. rewrite (proj2 (Z.eqb_neq w 0) Hw0). destruct (ok_ent _ _ Hok Act w Hw) as (e & He & _ & Hlive).
  rewrite (bind_done _ _ _ _ _ (dirent_at_ok d w e He)). destruct (String.eqb_spec nm (name e)) as [Hnm|Hnm].
  - left. exists j, w. split_and!; [lia | lia | |]; [split_and!; [done | done | by exists e]|].
    unfold live in Hlive. rewrite Hlive. done.
  - apply Hnext. intros u (Hu & Hcu & f & Hf & Hnf). assert (u = w) as -> by (eapply active_unique; [done | done | done | congruence]). congruence.
Qed.

End lookups.

End DirentSpec.
