(* ===== verification/DirentOps.v ===== *)
(** Operations on the cached entries of a directory (module [Dirents] of DirentCache): insertion and
    lookup by name, deletion, rename, release and the listing of a directory. Module [DirentOps]. *)

From stdpp Require Import sorting.
From S2P Require Import Prelude AvlTree AvlSpec AvlRotate AvlInsert AvlIter AvlRemove AvlRuns DirentCache DirentTrees DirentSpec.
Local Open Scope Z_scope.

Module DirentOps.

Import Avl AvlSpec AvlInsert AvlIter AvlRuns Dirents DirentTrees DirentSpec.

(** ** An entry that was inserted is found *)

Section names.
Context (fuel : nat) (stk : Z) (hash : string -> Z) (use_9p : bool) (Hfuel : (123 <= fuel)%nat).

Lemma lookup_s_ok nm maxj d F : dir_ok d F -> ents d !! stk = None -> 0 <= maxj <= 2 ^ 30 ->
  let h := cookie_hash hash use_9p nm in
  (exists i w, Z.of_nat i < maxj /\ hit d F h nm i w /\ cache_inode_avl_qp_lookup_s fuel stk hash use_9p nm maxj d = done (w, d))
  \/ ((forall i w, Z.of_nat i < maxj -> ~ hit d F h nm i w) /\ cache_inode_avl_qp_lookup_s fuel stk hash use_9p nm maxj d = done (0, d)).
Proof.
  intros Hok Hs Hm h. unfold cache_inode_avl_qp_lookup_s. fold h.
  destruct (lookup_s_loop_spec fuel stk Hfuel h nm (Z.to_nat maxj) 0 h d F Hok Hs) as [(i & w & Hi & Hh & E)|[Hn E]].
  - unfold probe. f_equal; lia.
  - lia.
  - left. exists i, w. split_and!; [lia | done | done].
  - right. split; [|done]. intros i w Hi. apply Hn. lia.
Qed.

(** After an insertion the name is found by enough rounds. *)
Lemma found_after d F v e j d' F' maxj :
  let h := cookie_hash hash use_9p (name e) in
  inserted d F v e h j d' F' -> zlen (elems (sel Act F)) + 4 < 2 ^ 31 -> (forall m, (m < j)%nat -> ~ free_probe h (cookies d F) m) ->
  ents d' !! stk = None -> (forall w, w ∈ elems (sel Act F) -> ~ named d w (name e)) -> 0 <= maxj <= 2 ^ 30 ->
  cache_inode_avl_qp_lookup_s fuel stk hash use_9p (name e) maxj d' = done (if Z.of_nat j <? maxj then v else 0, d').
Proof.
  intros h [G1 G2 G3 G4 G5 G6] Hr Hfirst Hs Hnm Hm. assert (Z.of_nat j < 2 ^ 31) as Hj.
  { assert (zlen (cookies d F) = zlen (elems (sel Act F))) as Hlen by (unfold zlen, cookies; by rewrite length_map).
    destruct (some_free h (cookies d F) ltac:(lia)) as (i & Hi & Hf). unfold zlen in *. destruct (decide (i < j)%nat) as [Hlt|]; [by destruct (Hfirst i Hlt) | lia]. }
  assert (forall i w, Z.of_nat i < maxj -> hit d' F' h (name e) i w -> i = j /\ w = v) as Honly.
  { intros i w Hi (Hw & Hc & f & Hf & Hnf). rewrite G4 in Hw. rewrite G2 in Hc, Hf. destruct (decide (w = v)) as [->|Hne].
    - rewrite cookie_insert in Hc. cbn in Hc. split; [|done]. apply (probe_inj h); [lia | done | done].
    - apply elem_of_cons in Hw as [?|Hw]; [done|]. rewrite lookup_insert_ne in Hf by done. destruct (Hnm w Hw). by exists f. }
  assert (hit d' F' h (name e) j v) as Hhit.
  { split_and!; [rewrite G4; by left | by rewrite G2, cookie_insert|]. eexists. split; [by rewrite G2, lookup_insert_eq | done]. }
  destruct (lookup_s_ok (name e) maxj d' F' G1 Hs Hm) as [(i & w & Hi & Hh & ->)|[Hn ->]].
  - fold h in Hh. destruct (Honly i w Hi Hh) as [-> ->]. by rewrite (proj2 (Z.ltb_lt _ _) Hi).
  - destruct (Z.ltb_spec (Z.of_nat j) maxj) as [Hlt|]; [|done]. by destruct (Hn j v Hlt).
Qed.

(** What a lookup with [maxj] rounds finds of an entry [v] that is at the probe [j]. *)
Definition found_within (maxj : Z) (j : nat) (v : Z) : Z := if Z.of_nat j <? maxj then v else 0.

(** C37: an entry that is inserted in a cached directory gets a cookie that no active entry has, the
    first legal one of the quadratic probes from the hash of its name, whatever the hash; the
    insertion returns. Its name is then found by a lookup with more rounds than the insertion
    needed probes, and not by one with fewer, when no other active entry has the name. No other
    active entry changes, and no cookie is both active and deleted. *)
Theorem dirent_insert_lookup rounds d F v e :
  dir_ok d F -> loose d F v e -> live e = true -> zlen (elems (sel Act F)) + 4 <= Z.of_nat rounds <= 2 ^ 30 ->
  ents d !! stk = None -> v <> stk -> (forall w, w ∈ elems (sel Act F) -> ~ named d w (name e)) ->
  let h := cookie_hash hash use_9p (name e) in
  exists j d' F', cache_inode_avl_qp_insert fuel hash use_9p rounds v d = done (0, d')
  /\ free_probe h (cookies d F) j /\ (forall m, (m < j)%nat -> ~ free_probe h (cookies d F) m)
  /\ inserted d F v e h j d' F'
  /\ forall maxj, 0 <= maxj <= 2 ^ 30 ->
     cache_inode_avl_qp_lookup_s fuel stk hash use_9p (name e) maxj d' = done (found_within maxj j v, d').
Proof.
  intros Hok Hlo Hl Hr Hs Hvs Hnm h.
  destruct (qp_insert_ok fuel Hfuel hash use_9p rounds d F v e Hok Hlo Hl Hr) as (j & d' & F' & E & Hfree & Hfirst & Hins). fold h in Hfree, Hfirst, Hins.
  exists j, d', F'. split_and!; try done. intros maxj Hm. pose proof (in_ents _ _ _ _ _ _ _ _ Hins) as He'.
  eapply found_after; [exact Hins | lia | done | by rewrite He', lookup_insert_ne | done | done].
Qed.

End names.

(** ** Deleted entries *)

Lemma hd_found (P : Z -> Prop) `{!forall x, Decision (P x)} l v : (forall w, w ∈ l -> addr w) -> v ∈ l -> P v -> List.hd 0 (filter P l) <> 0.
Proof. intros Ha Hv HP. destruct (hd_filter P l Ha) as [[_ Hn]|(w & _ & _ & Hw & ->)]; [by destruct (Hn v) | done]. Qed.

(** The entry [e] when it is deleted. *)
Definition dead (e : dirent) : dirent := set_ckey (cache_inode_key_delete (ckey e)) (set_flags (Z.lor (flags e) DIR_ENTRY_FLAG_DELETED) e).

Lemma live_dead e : live (dead e) = false.
Proof.
  unfold live, dead. cbn [flags set_ckey set_flags]. apply Z.eqb_neq. intros E. apply (f_equal (fun x => Z.testbit x 0)) in E.
  rewrite Z.land_spec, Z.lor_spec in E. cbn in E. by rewrite orb_true_r in E.
Qed.

(** [v], whose entry was [e], has moved from the active entries to the deleted ones. *)
Record deleted (d : dir) (F : tr * tr) (v : Z) (e : dirent) (d' : dir) (F' : tr * tr) (A B : list Z) : Prop := {
  de_ok : dir_ok d' F';
  de_act : elems (sel Act F) = A ++ v :: B;
  de_act' : elems (sel Act F') = A ++ B;
  de_del : elems (sel Del F') ≡ₚ v :: elems (sel Del F);
  de_ents : ents d' = <[v := dead e]> (ents d);
  de_head : same_head d d' /\ collisions d' = collisions d;
  de_nodes : kept F d d'
}.

Section deletion.
Context (fuel : nat) (Hfuel : (123 <= fuel)%nat).

Lemma set_deleted_ok d F v e : dir_ok d F -> v ∈ elems (sel Act F) -> ents d !! v = Some e ->
  exists d' F' A B, avl_dirent_set_deleted fuel v d = done (tt, d') /\ deleted d F v e d' F' A B.
Proof.
  intros Hok Hv He. pose proof (ok_two _ _ Hok) as Ht. destruct (ok_ent _ _ Hok Act v Hv) as (e' & He' & Hk & Hlive). simplify_eq.
  pose proof (ok_addr d F Act v Hok Hv) as Ha.
  destruct (ok_remove fuel Act d F v Hfuel Hok Hv) as (d1 & ta & A & B & E1 & Hok1 & Hel & Hel1 & He1 & Hh1 & Hc1 & Hm1).
  pose proof (wf_nodup _ _ _ (two_wf _ _ Ht Act)) as Hnd. rewrite Hel in Hnd.
  assert (v ∉ A ++ B) as Hnew. { apply NoDup_app in Hnd as (_ & Hd & [Hn _]%NoDup_cons). intros [Hi|Hi]%elem_of_app; [|done]. apply (Hd v Hi). by left. }
  assert (forall y, v ∉ elems (sel y (upd Act ta F))) as Hout1.
  { intros []; cbn; [by rewrite Hel1|]. exact (two_apart' d F Act v Ht Hv). }
  set (e2 := set_flags (Z.lor (flags e) DIR_ENTRY_FLAG_DELETED) e).
  set (d2 := set_ents (<[v := e2]> (ents d1)) d1). set (d3 := set_ents (<[v := dead e]> (ents d2)) d2).
  assert (d3 = set_ents (<[v := dead e]> (ents d1)) d1) as E3 by (unfold d3, d2, set_ents; cbn; by rewrite insert_insert_eq).
  pose proof (ok_outside d1 _ v (dead e) Hok1 Hout1) as Hok3. rewrite <- E3 in Hok3.
  assert (ents d3 = <[v := dead e]> (ents d)) as He3 by (rewrite E3; cbn; by rewrite He1).
  assert (nodes d3 = nodes d1) as Hn3 by (by rewrite E3).
  assert (is_Some (nodes d !! v)) as Hns.
  { pose proof (wf_at _ _ _ (two_wf _ _ Ht Act)) as Hat. apply (rep_some _ _ _ v (at_rep _ _ _ Hat)). by rewrite Hel; set_solver. }
  destruct (two_insert fuel Hfuel Del d3 _ v (ok_two _ _ Hok3) Ha) as (s & tc & E4 & Ht4 & Hel4 & Hm4).
  { rewrite Hn3, Hm1; [done|]. by rewrite Hel1. }
  { done. }
  { intros w Hw. rewrite He3, cookie_insert. cbn [k dead set_ckey set_flags]. cbn [sel upd snd] in Hw.
    rewrite cookie_insert_ne by (intros ->; by apply (two_apart' d F Act w Ht Hv)).
    intros Hc. apply (ok_keys _ _ Hok v w Hv Hw). unfold cookie_of at 1. by rewrite He. }
  set (d4 := set_tree Del (tree s) (heap s) d3) in *.
  exists d4, (upd Del tc (upd Act ta F)), A, B. split.
  - unfold avl_dirent_set_deleted. rewrite (bind_done _ _ _ _ _ (dirent_at_ok d v e He)).
    unfold live in Hlive. rewrite Hlive. rewrite (bind_done (check true) _ d tt d) by done. rewrite get_dir_ok.
    rewrite (bind_done _ _ _ _ _ (two_inline fuel Hfuel Act d F _ v (two_wf _ _ Ht Act))).
    rewrite (proj2 (Z.eqb_neq (List.hd 0 _) 0)).
    2: { apply (hd_found _ _ v); [intros w Hw; by eapply (ok_addr d F Act) | done | by apply cmpf_eq]. }
    rewrite (bind_done (check _) _ d tt d), (bind_done _ _ _ _ _ E1) by done.
    rewrite (bind_done _ _ d1 tt d2) by (apply (change_dirent_ok d1 v e); by rewrite He1).
    rewrite (bind_done _ _ d2 tt d3) by (apply (change_dirent_ok d2 v e2); unfold d2; cbn; by rewrite lookup_insert_eq).
    rewrite get_dir_ok. by rewrite (bind_done _ _ _ _ _ E4).
  - assert (same_head d d3 /\ collisions d3 = collisions d) as [Hh3 Hc3] by (rewrite E3; done).
    split; [|done|done|done| | |].
    + eapply (ok_grow Del d1); [done | exact Ht4 | done | unfold d4; rewrite set_tree_ents, He3, He1; done | done | done | apply live_dead|].
      intros w Hw. rewrite He1. cbn [sel other upd fst] in Hw. cbn [k dead set_ckey set_flags]. intros Hc. apply Hnew. rewrite Hel1 in Hw.
      replace v with w; [done|]. apply (active_unique d F); [done | rewrite Hel; set_solver | done|]. rewrite Hc. unfold cookie_of. by rewrite He.
    + unfold d4. by rewrite set_tree_ents.
    + unfold d4. done.
    + intros a Hout. unfold d4. rewrite set_tree_nodes, Hm4, Hn3, Hm1; [done | |].
      * rewrite Hel1. intros Hi. apply (Hout Act). rewrite Hel. set_solver.
      * rewrite Hel4. intros [->|Hi]%elem_of_cons; [by apply (Hout Act) | by apply (Hout Del)].
Qed.

End deletion.

(** ** Lookups by cookie *)

Lemma filter_iff_in (P Q : Z -> Prop) `{!forall x, Decision (P x), !forall x, Decision (Q x)} (l : list Z) :
  (forall x, x ∈ l -> P x <-> Q x) -> filter P l = filter Q l.
Proof.
  induction l as [|x l IH]; intros Hiff; [done|]. assert (P x <-> Q x) as Hx by (apply Hiff; by left).
  rewrite !filter_cons, IH by (intros y Hy; apply Hiff; by right). destruct (decide (P x)), (decide (Q x)); naive_solver.
Qed.

(** The active entries whose cookie is above [x], in their order. *)
Definition after (d : dir) (F : tr * tr) (x : Z) : list Z := filter (fun w => x < cookie_of (ents d) w) (elems (sel Act F)).

Lemma act_sorted d F A w B : dir_ok d F -> elems (sel Act F) = A ++ w :: B ->
  (forall a, a ∈ A -> cookie_of (ents d) a < cookie_of (ents d) w) /\ (forall b, b ∈ B -> cookie_of (ents d) w < cookie_of (ents d) b).
Proof.
  intros Hok Hel. pose proof (wf_sorted _ _ _ (two_wf _ _ (ok_two _ _ Hok) Act)) as Hs. rewrite Hel in Hs.
  apply sorted_app in Hs as (_ & [Hs _]%sorted_cons & Hs'). split.
  - intros a Ha. apply cmpf_lt. apply Hs'; [done | by left].
  - intros b Hb. apply cmpf_lt. by apply Hs.
Qed.

Lemma after_active d F A w B : dir_ok d F -> elems (sel Act F) = A ++ w :: B -> after d F (cookie_of (ents d) w) = B.
Proof.
  intros Hok Hel. destruct (act_sorted d F A w B Hok Hel) as [HA HB]. unfold after. rewrite Hel, filter_app, filter_cons_False by lia.
  rewrite keep_none, keep_all; [done|..]; apply Forall_forall; [done|]. intros a Ha. specialize (HA a Ha). lia.
Qed.

Section cookies.
Context (fuel : nat) (stk : Z) (Hfuel : (123 <= fuel)%nat).

Lemma lookup_k_active d F A w B fl : dir_ok d F -> ents d !! stk = None -> elems (sel Act F) = A ++ w :: B ->
  cache_inode_avl_lookup_k fuel stk (cookie_of (ents d) w) fl d
  = done (if Z.land fl CACHE_INODE_FLAG_NEXT_ACTIVE =? 0 then w else List.hd 0 B, d).
Proof.
  intros Hok Hs Hel. assert (w ∈ elems (sel Act F)) as Hw by (rewrite Hel; set_solver). unfold cache_inode_avl_lookup_k. rewrite get_dir_ok. cbv zeta.
  rewrite (bind_done _ _ _ _ _ (two_inline fuel Hfuel Act d F _ stk (wf_key stk d F _ Act Hok Hs))).
  destruct (find_cookie stk d F (cookie_of (ents d) w) Act Hok Hs) as [[_ Hn]|(Hr & Hc & Hr0)]; [by destruct (Hn w Hw)|].
  set (r := List.hd 0 (filter _ _)) in *. assert (r = w) as E by (by apply (active_unique d F)). rewrite E in *.
  rewrite (proj2 (Z.eqb_neq w 0) Hr0). cbn [negb]. destruct (Z.land fl _ =? 0); [done|]. cbn [negb].
  by apply (two_next fuel Hfuel Act d F w A B (ok_two _ _ Hok)).
Qed.

Lemma lookup_k_other d F x fl : dir_ok d F -> ents d !! stk = None -> x ∉ cookies d F ->
  cache_inode_avl_lookup_k fuel stk x fl d
  = done (if decide (x ∈ map (cookie_of (ents d)) (elems (sel Del F))) then List.hd (root (tree_t d)) (after d F x) else 0, d).
Proof.
  intros Hok Hs Hx. assert (forall w, w ∈ elems (sel Act F) -> cookie_of (ents d) w <> x) as Hact.
  { intros w Hw E. apply Hx. apply list_elem_of_fmap. by exists w. }
  unfold cache_inode_avl_lookup_k. rewrite get_dir_ok. cbv zeta.
  rewrite (bind_done _ _ _ _ _ (two_inline fuel Hfuel Act d F _ stk (wf_key stk d F x Act Hok Hs))).
  destruct (find_cookie stk d F x Act Hok Hs) as [[-> _]|(Hr & Hc & _)]; [|by destruct (Hact _ Hr)]. cbn [Z.eqb negb].
  rewrite (bind_done _ _ _ _ _ (two_inline fuel Hfuel Del d F _ stk (wf_key stk d F x Del Hok Hs))).
  destruct (find_cookie stk d F x Del Hok Hs) as [[-> Hn]|(Hr & Hc & Hr0)].
  - cbn [Z.eqb negb]. rewrite decide_False; [done|]. intros (w & -> & Hw)%list_elem_of_fmap. by destruct (Hn w Hw).
  - rewrite (proj2 (Z.eqb_neq _ 0) Hr0). cbn [negb]. rewrite decide_True.
    2: { apply list_elem_of_fmap. eexists. split; [symmetry; exact Hc | done]. }
    rewrite (two_sup fuel Hfuel Act d F _ stk (wf_key stk d F x Act Hok Hs)). do 4 f_equal. unfold after.
    apply filter_iff_in. intros w Hw. destruct (cmp_key stk d F x Act w Hok Hs Hw) as [E1 E2]. pose proof (cmpf_lt (with_key stk x (ents d)) w stk) as Hlt.
    rewrite E1, E2 in Hlt. specialize (Hact w Hw). lia.
Qed.

End cookies.

(** ** Adding, removing and renaming by name *)

(** The number of active entries is counted. *)
Definition counted (d : dir) (F : tr * tr) : Prop := nbactive d = zlen (elems (sel Act F)).

Lemma ok_head d d' F : dir_ok d F -> nodes d' = nodes d -> ents d' = ents d -> tree_t d' = tree_t d -> tree_c d' = tree_c d -> dir_ok d' F.
Proof.
  intros [[G1 G2] G3 G4] E1 E2 E3 E4. split; [split; [|done]| |]; [|by rewrite E2|by rewrite E2].
  intros y. specialize (G1 y). unfold view in *. rewrite E1, E2. destruct y; cbn in *; by rewrite ?E3, ?E4.
Qed.

Section by_name.
Context (fuel : nat) (stk : Z) (hash : string -> Z) (use_9p : bool) (Hfuel : (123 <= fuel)%nat).
Context (get_keyed : cache_inode_key -> Z * Z) (invalidate : Z -> Z).

Local Abbreviation operate := (cache_inode_operate_cached_dirent fuel stk hash use_9p get_keyed invalidate).
Local Abbreviation lookup_s := (cache_inode_avl_qp_lookup_s fuel stk hash use_9p).
Local Abbreviation h_of := (cookie_hash hash use_9p).

(** A name is found by its first probe. *)
Lemma lookup_first d F nm w : dir_ok d F -> ents d !! stk = None -> hit d F (h_of nm) nm 0 w -> lookup_s nm 1 d = done (w, d).
Proof.
  intros Hok Hs Hh. destruct (lookup_s_ok fuel stk hash use_9p Hfuel nm 1 d F Hok Hs ltac:(lia)) as [(i & u & Hi & Hu & ->)|[Hn _]].
  - assert (i = 0%nat) as -> by lia. destruct Hh as (Hw & Hc & _), Hu as (Hw' & Hc' & _). by rewrite (active_unique d F u w) by congruence.
  - by destruct (Hn 0%nat w).
Qed.

(** The part of [cache_inode_operate_cached_dirent] that all operations share. *)
Lemma operate_found d F rounds mem nm newname op w : dir_ok d F -> ents d !! stk = None -> is_dir d = true -> nbactive d <> 0 ->
  hit d F (h_of nm) nm 0 w ->
  operate rounds mem nm newname op d =
  match op with
  | OP_REMOVE => (_ ← avl_dirent_set_deleted fuel w; _ ← on_dir (fun d => set_nbactive (u32 (nbactive d - 1)) d); mret CACHE_INODE_SUCCESS) d
  | OP_RENAME =>
      (v2 ← lookup_s newname 1;
       if v2 =? 0 then rename_new fuel hash use_9p rounds mem w newname
       else if negb (Z.land (dflags d) CACHE_INODE_TRUST_CONTENT =? 0) then rename_over fuel get_keyed invalidate w v2
       else mret CACHE_INODE_ENTRY_EXISTS) d
  | OP_LOOKUP => done (CACHE_INODE_SUCCESS, d)
  end.
Proof.
  intros Hok Hs Hd Hnb Hh. unfold cache_inode_operate_cached_dirent. rewrite get_dir_ok, Hd. cbn [negb].
  rewrite (proj2 (Z.eqb_neq _ _) Hnb), (bind_done _ _ _ _ _ (lookup_first d F nm w Hok Hs Hh)).
  destruct Hh as (Hw & _). pose proof (ok_addr d F Act w Hok Hw) as Ha. destruct (ok_ent _ _ Hok Act w Hw) as (e & He & _ & Hl).
  erewrite (bind_done _ _ d false d).
  2: { rewrite (proj2 (Z.eqb_neq w 0)) by (by apply addr_ne0). rewrite (bind_done _ _ _ _ _ (dirent_at_ok d w e He)).
       unfold live in Hl. rewrite Hl. done. }
  by destruct op.
Qed.

Lemma remove_ok d F rounds nm w e : dir_ok d F -> ents d !! stk = None -> is_dir d = true -> nbactive d <> 0 ->
  hit d F (h_of nm) nm 0 w -> ents d !! w = Some e ->
  exists d' F' A B, cache_inode_remove_cached_dirent fuel stk hash use_9p get_keyed invalidate rounds nm d
    = done (CACHE_INODE_SUCCESS, set_nbactive (u32 (nbactive d - 1)) d') /\ deleted d F w e d' F' A B.
Proof.
  intros Hok Hs Hd Hnb Hh He. destruct (set_deleted_ok fuel Hfuel d F w e Hok (proj1 Hh) He) as (d' & F' & A & B & E & Hdel).
  exists d', F', A, B. split; [|done]. unfold cache_inode_remove_cached_dirent. rewrite get_dir_ok, Hd. cbn [negb].
  rewrite (operate_found d F rounds 0 nm EmptyString OP_REMOVE w Hok Hs Hd Hnb Hh). rewrite (bind_done _ _ _ _ _ E).
  destruct (de_head _ _ _ _ _ _ _ _ Hdel) as [(_ & _ & Hn) _]. rewrite (bind_done (on_dir _) _ d' tt (set_nbactive (u32 (nbactive d' - 1)) d')) by done.
  by rewrite Hn.
Qed.

(** C38: the removal by its name of a cached entry that is found at the first probe for the name, the only one that
    the removal makes, and that is the only active entry of that name: the entry leaves the
    active entries and keeps its cookie among the deleted ones; the number of active entries is
    one less; the name is not found any more; and a client that has the cookie of the removed
    entry resumes with the entries after it, when there are any. *)
Theorem dirent_remove_resume d F rounds nm w e :
  dir_ok d F -> counted d F -> ents d !! stk = None -> is_dir d = true -> nbactive d < 2 ^ 32 -> hit d F (h_of nm) nm 0 w -> ents d !! w = Some e ->
  (forall u, u ∈ elems (sel Act F) -> u <> w -> ~ named d u nm) ->
  exists d' F' A B, cache_inode_remove_cached_dirent fuel stk hash use_9p get_keyed invalidate rounds nm d = done (CACHE_INODE_SUCCESS, d')
  /\ dir_ok d' F' /\ counted d' F' /\ elems (sel Act F) = A ++ w :: B /\ elems (sel Act F') = A ++ B /\ w ∈ elems (sel Del F')
  /\ lookup_s nm 1 d' = done (0, d')
  /\ (B <> [] -> cache_inode_avl_lookup_k fuel stk (k e) CACHE_INODE_FLAG_NEXT_ACTIVE d' = done (List.hd 0 B, d')).
Proof.
  intros Hok Hcnt Hs Hd Hsm Hh He Honly. assert (nbactive d <> 0) as Hnb.
  { rewrite Hcnt. destruct Hh as (Hw & _). unfold zlen. destruct (elems (sel Act F)); [by apply elem_of_nil in Hw | done]. }
  destruct (remove_ok d F rounds nm w e Hok Hs Hd Hnb Hh He) as (d1 & F' & A & B & E & Hdel). destruct Hdel as [G1 G2 G3 G4 G5 G6 G7].
  set (d' := set_nbactive (u32 (nbactive d - 1)) d1). assert (dir_ok d' F') as Hok' by (by apply (ok_head d1)).
  assert (ents d' = <[w := dead e]> (ents d)) as He' by exact G5.
  assert (w <> stk) as Hws by (intros ->; congruence). assert (ents d' !! stk = None) as Hs' by (by rewrite He', lookup_insert_ne).
  pose proof (wf_nodup _ _ _ (two_wf _ _ (ok_two _ _ Hok) Act)) as Hnd. rewrite G2 in Hnd.
  assert (w ∉ A ++ B) as Hnew. { apply NoDup_app in Hnd as (_ & Hdj & [Hn _]%NoDup_cons). intros [Hi|Hi]%elem_of_app; [|done]. apply (Hdj w Hi). by left. }
  exists d', F', A, B. split_and!; try done.
  - unfold counted, zlen in *. cbn [nbactive d' set_nbactive]. rewrite Hcnt, G3, G2, !length_app in *. cbn [length] in *. rewrite u32_small; lia.
  - rewrite G4. by left.
  - destruct (lookup_s_ok fuel stk hash use_9p Hfuel nm 1 d' F' Hok' Hs' ltac:(lia)) as [(i & u & Hi & (Hu & Hcu & f & Hf & Hnf) & _)|[_ ->]]; [|done].
    exfalso. rewrite G3 in Hu. assert (u <> w) as Huw by (by intros ->). rewrite He', lookup_insert_ne in Hf by done.
    apply (Honly u); [rewrite G2; set_solver | done | by exists f].
  - intros HB. assert (cookie_of (ents d') w = k e) as Hcw by (by rewrite He', cookie_insert).
    assert (forall u, u ∈ A ++ B -> cookie_of (ents d') u = cookie_of (ents d) u) as Hck.
    { intros u Hu. rewrite He'. apply cookie_insert_ne. by intros ->. }
    assert (cookie_of (ents d) w = k e) as Hcw0 by (unfold cookie_of; by rewrite He).
    destruct (act_sorted d F A w B Hok G2) as [HA HB'].
    rewrite (lookup_k_other fuel stk Hfuel d' F' (k e)); [|done|done|].
    + rewrite decide_True by (rewrite <- Hcw; apply list_elem_of_fmap; exists w; split; [done | rewrite G4; by left]).
      unfold after. rewrite G3, filter_app, keep_none, keep_all; [by destruct B|..]; apply Forall_forall; intros u Hu;
        rewrite Hck by set_solver; [apply HB' in Hu | apply HA in Hu]; lia.
    + intros (u & Hku & Hu)%list_elem_of_fmap. rewrite G3 in Hu. rewrite (Hck u Hu) in Hku. apply elem_of_app in Hu as [Hu|Hu]; [apply HA in Hu | apply HB' in Hu]; lia.
Qed.

(** A key without its bytes. *)
Definition bare (x : cache_inode_key) : cache_inode_key := mk_key (hk x) (fsal x) EmptyString.

(** The rename of a cached entry over another one, in a directory whose content is trusted.
    The entry of the old name is deleted, and with it its key, before the key is copied to the
    entry of the new name: that entry is left with a key of no bytes, and its own is lost; and
    the number of active entries stays, although there is one less. *)
Theorem rename_over_loses_key d F rounds mem nm newname v v2 e e2 :
  dir_ok d F -> ents d !! stk = None -> is_dir d = true -> nbactive d <> 0 -> Z.land (dflags d) CACHE_INODE_TRUST_CONTENT <> 0 ->
  hit d F (h_of nm) nm 0 v -> hit d F (h_of newname) newname 0 v2 -> v <> v2 -> ents d !! v = Some e -> ents d !! v2 = Some e2 ->
  exists st d' F' A B, cache_inode_rename_cached_dirent fuel stk hash use_9p get_keyed invalidate rounds mem nm newname d = done (st, d')
  /\ dir_ok d' F' /\ elems (sel Act F) = A ++ v :: B /\ elems (sel Act F') = A ++ B /\ nbactive d' = nbactive d
  /\ ents d' !! v2 = Some (set_ckey (bare (ckey e)) e2).
Proof.
  intros Hok Hs Hd Hnb Htr Hh Hh2 Hne He He2.
  destruct (set_deleted_ok fuel Hfuel d F v e Hok (proj1 Hh) He) as (d1 & F' & A & B & E & [G1 G2 G3 G4 G5 [(G6 & G7 & G8) _] G9]).
  set (f2 := set_ckey (bare (ckey e)) e2). set (d2 := set_ents (<[v2 := f2]> (ents d1)) d1).
  assert (ents d1 !! v2 = Some e2) as He2' by (by rewrite G5, lookup_insert_ne).
  assert (ents d1 !! v = Some (dead e)) as Hev by (by rewrite G5, lookup_insert_eq).
  assert (k f2 = k e2 /\ live f2 = live e2) as [Hk2 Hl2] by done.
  assert (forall w, cookie_of (ents d2) w = cookie_of (ents d1) w) as Hck.
  { intros w. unfold d2. cbn. unfold cookie_of. destruct (decide (v2 = w)) as [<-|]; [by rewrite lookup_insert_eq, He2' | by rewrite lookup_insert_ne]. }
  destruct (get_keyed (ckey f2)) as [oldentry st] eqn:Eg.
  exists (if oldentry =? 0 then st else invalidate oldentry), d2, F', A, B. split_and!.
  - unfold cache_inode_rename_cached_dirent. rewrite get_dir_ok, Hd. cbn [negb].
    rewrite (operate_found d F rounds mem nm newname OP_RENAME v Hok Hs Hd Hnb Hh), (bind_done _ _ _ _ _ (lookup_first d F newname v2 Hok Hs Hh2)).
    rewrite (proj2 (Z.eqb_neq v2 0)) by (apply addr_ne0; by apply (ok_addr d F Act v2 Hok), Hh2). rewrite (proj2 (Z.eqb_neq _ _) Htr). cbn [negb].
    unfold rename_over. rewrite (bind_done _ _ _ _ _ E), (bind_done _ _ _ _ _ (dirent_at_ok d1 v _ Hev)).
    rewrite (bind_done _ _ d1 tt d2) by (by apply (change_dirent_ok d1 v2 e2)).
    rewrite (bind_done _ _ _ _ _ (dirent_at_ok d2 v2 f2 ltac:(unfold d2; cbn; by rewrite lookup_insert_eq))). by rewrite Eg.
  - destruct G1 as [T1 T2 T3]. split.
    + apply two_cookies; [done|]. intros x w _. apply Hck.
    + intros x w Hw. destruct (T2 x w Hw) as (f & Hf & Hr). unfold d2. cbn. destruct (decide (v2 = w)) as [<-|Hvw].
      * exists f2. rewrite lookup_insert_eq. split; [done|]. rewrite Hk2, Hl2. congruence.
      * exists f. by rewrite lookup_insert_ne.
    + intros a b Ha Hb. rewrite !Hck. by apply T3.
  - done.
  - done.
  - exact G8.
  - unfold d2. cbn. by rewrite lookup_insert_eq.
Qed.

(** An entry comes into memory at an address that no entry has. *)
Lemma ok_alloc d F v e : dir_ok d F -> (forall x, v ∉ elems (sel x F)) -> addr v ->
  exists d', alloc v e d = done (tt, d') /\ dir_ok d' F /\ loose d' F v e /\ ents d' = <[v := e]> (ents d) /\ same_head d d'.
Proof.
  intros Hok Hout Ha. eexists. split; [done|]. split_and!; try done.
  - pose proof (ok_outside d F v e Hok Hout) as [[T1 T2] T3 T4]. split; [|done|done]. split; [|done]. intros x. specialize (T1 x).
    eapply wf_ext; [exact T1 | | by destruct x | done]. intros a Hi. destruct x; cbn; rewrite lookup_insert_ne; try done; intros ->;
      [by apply (Hout Act) | by apply (Hout Del)].
  - split; [done | done | |]; cbn; rewrite lookup_insert_eq; done.
Qed.

(** The rename of a cached entry to a name that is not there. A new entry has the new name and
    the key of the old one, and is found by a lookup with more rounds than its insertion needed
    probes; the old entry is deleted; no other entry changes, and the number of active entries
    is still right. *)
Theorem rename_to_new d F rounds mem nm newname v e :
  dir_ok d F -> counted d F -> ents d !! stk = None -> is_dir d = true -> zlen (elems (sel Act F)) + 4 <= Z.of_nat rounds <= 2 ^ 30 ->
  addr mem -> mem <> stk -> (forall x, mem ∉ elems (sel x F)) ->
  hit d F (h_of nm) nm 0 v -> ents d !! v = Some e -> (forall w, w ∈ elems (sel Act F) -> ~ named d w newname) ->
  exists j d' F' A B, cache_inode_rename_cached_dirent fuel stk hash use_9p get_keyed invalidate rounds mem nm newname d = done (CACHE_INODE_SUCCESS, d')
  /\ dir_ok d' F' /\ counted d' F' /\ elems (sel Act F) = A ++ v :: B /\ elems (sel Act F') ≡ₚ mem :: A ++ B
  /\ ents d' = <[mem := mk_dirent (probe (h_of newname) j) (u32 (Z.of_nat j)) (ckey e) DIR_ENTRY_FLAG_NONE newname]>
                 (<[v := dead e]> (ents d))
  /\ forall maxj, Z.of_nat j < maxj <= 2 ^ 30 -> lookup_s newname maxj d' = done (mem, d').
Proof.
  intros Hok Hcnt Hs Hd Hr Ha Hms Hout Hh He Hnone. assert (nbactive d <> 0) as Hnb.
  { rewrite Hcnt. destruct Hh as (Hw & _). unfold zlen. destruct (elems (sel Act F)); [by apply elem_of_nil in Hw | done]. }
  set (em := mk_dirent 0 0 (ckey e) DIR_ENTRY_FLAG_NONE newname).
  destruct (ok_alloc d F mem em Hok Hout Ha) as (d1 & E1 & Hok1 & Hlo1 & He1 & Hh1). pose proof (proj1 Hh) as Hv.
  assert (v <> mem) as Hvm by (intros ->; by apply (Hout Act)).
  destruct (set_deleted_ok fuel Hfuel d1 F v e Hok1 Hv) as (d2 & F2 & A & B & E2 & [G1 G2 G3 G4 G5 [G6 _] G9]); [by rewrite He1, lookup_insert_ne|].
  assert (loose d2 F2 mem em) as Hlo2.
  { destruct Hlo1 as [L1 L2 L3 L4]. split; [|done|by rewrite G9|by rewrite G5, lookup_insert_ne].
    intros []; [rewrite G3 | rewrite G4]; intros Hi; [apply (Hout Act); rewrite G2; set_solver|]. apply elem_of_cons in Hi as [->|Hi]; [done|]. by apply (Hout Del). }
  assert (zlen (elems (sel Act F2)) + 4 <= Z.of_nat rounds <= 2 ^ 30) as Hr2.
  { unfold zlen in *. rewrite G2, G3, !length_app in *. cbn [length] in *. lia. }
  destruct (qp_insert_ok fuel Hfuel hash use_9p rounds d2 F2 mem em G1 Hlo2 eq_refl Hr2) as (j & d3 & F3 & E3 & Hfree & Hfirst & [T1 T2 T3 T4 T5 T6]).
  assert (ents d3 = <[mem := mk_dirent (probe (h_of newname) j) (u32 (Z.of_nat j)) (ckey e) DIR_ENTRY_FLAG_NONE newname]> (<[v := dead e]> (ents d))) as He3.
  { rewrite T2, G5, He1. rewrite (insert_insert_ne _ v mem) by done. by rewrite insert_insert_eq. }
  assert (v <> stk) as Hvs by (intros ->; congruence).
  exists j, d3, F3, A, B. split_and!; try done.
  - unfold cache_inode_rename_cached_dirent. rewrite get_dir_ok, Hd. cbn [negb].
    rewrite (operate_found d F rounds mem nm newname OP_RENAME v Hok Hs Hd Hnb Hh).
    destruct (lookup_s_ok fuel stk hash use_9p Hfuel newname 1 d F Hok Hs ltac:(lia)) as [(i & u & _ & (Hu & _ & Hnu) & _)|[_ E0]]; [by destruct (Hnone u Hu)|].
    rewrite (bind_done _ _ _ _ _ E0). cbn [Z.eqb]. unfold rename_new. rewrite (proj2 (Z.eqb_neq mem 0)) by (by apply addr_ne0).
    rewrite (bind_done (check _) _ d tt d), (bind_done _ _ _ _ _ (dirent_at_ok d v e He)), (bind_done _ _ _ _ _ E1) by done.
    by rewrite (bind_done _ _ _ _ _ E2), (bind_done _ _ _ _ _ E3).
  - destruct T3 as (_ & _ & T3), G6 as (_ & _ & G6), Hh1 as (_ & _ & Hh1). unfold counted, zlen in *. rewrite T3, G6, Hh1, Hcnt, T4, G2, G3, !length_app.
    cbn [length]. rewrite !length_app. lia.
  - by rewrite T4, G3.
  - intros maxj Hm. change newname with (name em). erewrite (found_after fuel stk hash use_9p Hfuel d2 F2 mem em j d3 F3 maxj); try done; try lia.
    + by rewrite (proj2 (Z.ltb_lt _ _)) by lia.
    + by rewrite He3, !lookup_insert_ne.
    + intros w Hw (f & Hf & Hnf). rewrite G3 in Hw. pose proof (wf_nodup _ _ _ (two_wf _ _ (ok_two _ _ Hok) Act)) as Hnd. rewrite G2 in Hnd.
      assert (w <> v) as Hwv. { intros ->. apply NoDup_app in Hnd as (_ & Hdj & [Hn _]%NoDup_cons). apply elem_of_app in Hw as [Hw|Hw]; [|done]. apply (Hdj v Hw). by left. }
      assert (w ∈ elems (sel Act F)) as Hw' by (rewrite G2; set_solver). rewrite G5, He1, !lookup_insert_ne in Hf; [|intros ->; by apply (Hout Act)|done].
      apply (Hnone w Hw'). by exists f.
Qed.

End by_name.

(** ** Release *)

(** An entry outside the trees leaves the memory. *)
Lemma ok_free d F v : dir_ok d F -> (forall x, v ∉ elems (sel x F)) -> dir_ok (set_nodes (delete v (nodes d)) (set_ents (delete v (ents d)) d)) F.
Proof.
  intros [T1 T2 T3] Hout. assert (forall x w, w ∈ elems (sel x F) -> v <> w) as Hne by (intros x w Hw ->; by apply (Hout x)).
  assert (forall x w, w ∈ elems (sel x F) -> cookie_of (delete v (ents d)) w = cookie_of (ents d) w) as Hck.
  { intros x w Hw. unfold cookie_of. by rewrite lookup_delete_ne by (by eapply Hne). }
  split.
  - pose proof (two_cookies d F (delete v (ents d)) T1 Hck) as [S1 S2]. split; [|done]. intros x. specialize (S1 x).
    eapply wf_ext; [exact S1 | | by destruct x | done]. intros a Ha. cbn. by rewrite lookup_delete_ne by (by eapply Hne).
  - intros x w Hw. cbn. rewrite lookup_delete_ne by (by eapply Hne). by apply T2.
  - intros a b Ha Hb. cbn. rewrite (Hck Act a Ha), (Hck Del b Hb). by apply T3.
Qed.

Section release.
Context (fuel : nat) (Hfuel : (123 <= fuel)%nat).

(** The memory of the entries [L] is given back, and no other. *)
Definition given_back (L : list Z) (d d' : dir) : Prop :=
  (forall a, a ∈ L -> ents d' !! a = None /\ nodes d' !! a = None) /\ (forall a, a ∉ L -> ents d' !! a = ents d !! a).

Lemma release_step x d F v L : dir_ok d F -> elems (sel x F) = v :: L ->
  exists d' t e d2, on_tree_of x (avltree_next fuel v) d = done (List.hd 0 L, d) /\ on_tree_of x (avltree_remove fuel v) d = done (tt, d')
  /\ dirent_at v d' = done (e, d')
  /\ (_ ← (if String.eqb (kv (ckey e)) EmptyString then mret tt else change_dirent v (fun e => set_ckey (cache_inode_key_delete (ckey e)) e)); free v) d' = done (tt, d2)
  /\ dir_ok d2 (upd x t F) /\ elems t = L /\ given_back [v] d d2 /\ same_head d d2
  /\ (forall a, nodes d !! a = None -> a ∉ elems (sel x F) -> nodes d2 !! a = None).
Proof.
  intros Hok Hel. assert (v ∈ elems (sel x F)) as Hv by (rewrite Hel; by left).
  destruct (ok_remove fuel x d F v Hfuel Hok Hv) as (d' & t & A & B & E & Hok' & Hel1 & Hel2 & He & Hh & Hc & Hm).
  pose proof (wf_nodup _ _ _ (two_wf _ _ (ok_two _ _ Hok) x)) as Hnd. rewrite Hel in Hnd. apply NoDup_cons in Hnd as [Hvl Hnd].
  assert (A = [] /\ B = L) as [-> ->].
  { rewrite Hel in Hel1. destruct A as [|a A]; simplify_eq/=; [done|]. destruct Hvl. set_solver. }
  assert (elems t = L) as HtL by done. clear Hel2.
  destruct (ok_ent _ _ Hok x v Hv) as (e & Hev & _).
  assert (forall y, v ∉ elems (sel y (upd x t F))) as Hout.
  { intros y. pose proof (two_apart' d F x v (ok_two _ _ Hok) Hv) as Hap. destruct x, y; cbn in *; by rewrite ?HtL. }
  set (d1 := if String.eqb (kv (ckey e)) EmptyString then d' else set_ents (<[v := set_ckey (cache_inode_key_delete (ckey e)) e]> (ents d')) d').
  assert (dir_ok d1 (upd x t F)) as Hok1 by (unfold d1; destruct (String.eqb _ _); [done | by apply ok_outside]).
  assert (is_Some (ents d1 !! v)) as [e1 He1] by (unfold d1; destruct (String.eqb _ _); cbn; [by rewrite He, Hev | by rewrite lookup_insert_eq]).
  set (d2 := set_nodes (delete v (nodes d1)) (set_ents (delete v (ents d1)) d1)).
  exists d', t, e, d2. split_and!.
  - by apply (two_next fuel Hfuel x d F v [] L (ok_two _ _ Hok)).
  - done.
  - apply dirent_at_ok. by rewrite He.
  - rewrite (bind_done _ _ d' tt d1).
    + unfold free. by rewrite (bind_done _ _ _ _ _ (dirent_at_ok d1 v e1 He1)).
    + unfold d1. destruct (String.eqb _ _); [done|]. apply (change_dirent_ok d' v e (fun e => set_ckey (cache_inode_key_delete (ckey e)) e)). by rewrite He.
  - by apply ok_free.
  - done.
  - split; [intros a ->%list_elem_of_singleton; cbn; by rewrite !lookup_delete_eq|]. intros a Ha. assert (v <> a) as Hva by (intros ->; apply Ha; by left).
    cbn. rewrite lookup_delete_ne by done. unfold d1. destruct (String.eqb _ _); cbn; [by rewrite He | by rewrite lookup_insert_ne, He].
  - unfold d2, d1. destruct (String.eqb _ _); exact Hh.
  - intros a Ha Hax. assert (nodes d1 = nodes d') as Hn1 by (unfold d1; by destruct (String.eqb _ _)). unfold d2. cbn. rewrite Hn1.
    rewrite Hel in Hax. rewrite lookup_delete_ne by set_solver. rewrite Hm; [done|]. rewrite HtL. set_solver.
Qed.

Lemma elems_nil t : elems t = [] -> t = Leaf.
Proof. destruct t as [|l p b r]; [done|]. cbn. intros E. by destruct (elems l). Qed.

Lemma upd_same x F : upd x (sel x F) F = F. Proof. by destruct x, F. Qed.

Lemma upd_upd x t t' F : upd x t (upd x t' F) = upd x t F. Proof. by destruct x. Qed.

Lemma release_loop_spec n x d F L : dir_ok d F -> elems (sel x F) = L -> (length L <= n)%nat ->
  exists d', release_loop fuel n x (List.hd 0 L) d = done (tt, d') /\ dir_ok d' (upd x Leaf F) /\ given_back L d d' /\ same_head d d'
  /\ (forall a, nodes d !! a = None -> a ∉ L -> nodes d' !! a = None).
Proof.
  revert n d F. induction L as [|v L IH]; intros n d F Hok Hel Hn.
  { exists d. pose proof (elems_nil _ Hel) as El. rewrite <- El, upd_same. split_and!; try done; [by destruct n|]. split; [by intros a ?%elem_of_nil | done]. }
  destruct n as [|n]; [cbn in Hn; lia|].
  pose proof (wf_nodup _ _ _ (two_wf _ _ (ok_two _ _ Hok) x)) as Hnd. rewrite Hel in Hnd. apply NoDup_cons in Hnd as [Hvl _].
  destruct (release_step x d F v L Hok Hel) as (d1 & t & e & d2 & E1 & E2 & E3 & E4 & Hok2 & Ht & Hg & Hh & Hn2).
  destruct (IH n d2 (upd x t F) Hok2) as (d3 & E5 & Hok3 & Hg3 & Hh3 & Hn3); [by rewrite sel_upd | cbn in Hn; lia|].
  rewrite upd_upd in Hok3. exists d3. split_and!; [|done| |by eapply same_head_trans|].
  - cbn [release_loop List.hd]. rewrite (proj2 (Z.eqb_neq v 0)) by (apply addr_ne0, (ok_addr d F x v Hok); rewrite Hel; by left).
    rewrite (bind_done _ _ _ _ _ E1), (bind_done _ _ _ _ _ E2), (bind_done _ _ _ _ _ E3).
    apply bind_inv in E4 as ([] & d4 & Ea & E4). by rewrite (bind_done _ _ _ _ _ Ea), (bind_done _ _ _ _ _ E4).
  - destruct Hg as [Hg1 Hg2], Hg3 as [Hg3 Hg4]. split.
    + intros a [->|Ha]%elem_of_cons; [|by apply Hg3]. destruct (Hg1 v) as [H1 H2]; [by left|]. by rewrite Hg4, (Hn3 v H2 Hvl).
    + intros a [Hav Hal]%not_elem_of_cons. rewrite Hg4, Hg2; [done | by rewrite list_elem_of_singleton | done].
  - intros a Ha [Hav Hal]%not_elem_of_cons. apply Hn3; [|done]. apply Hn2; [done|]. rewrite Hel. by apply not_elem_of_cons.
Qed.

Lemma release_tree_spec n x d F : dir_ok d F -> is_dir d = true -> (length (elems (sel x F)) <= n)%nat ->
  exists d', release_tree fuel n x d = done (tt, d') /\ dir_ok d' (upd x Leaf F) /\ given_back (elems (sel x F)) d d' /\ is_dir d' = true
  /\ (forall a, nodes d !! a = None -> a ∉ elems (sel x F) -> nodes d' !! a = None)
  /\ match x with
     | Act => nbactive d' = 0 /\ Z.land (dflags d') CACHE_INODE_DIR_POPULATED = 0
     | Del => nbactive d' = nbactive d /\ dflags d' = dflags d
     end.
Proof.
  intros Hok Hd Hn. destruct (release_loop_spec n x d F _ Hok eq_refl Hn) as (d1 & E & Hok1 & Hg & (Hh1 & Hh2 & Hh3) & Hk).
  unfold release_tree. rewrite get_dir_ok, Hd. cbn [negb]. rewrite (bind_done _ _ _ _ _ (two_first x d F (ok_two _ _ Hok))), (bind_done _ _ _ _ _ E).
  destruct x.
  - eexists. split; [done|]. split; [by apply (ok_head d1)|]. split_and!; try done; [by rewrite <- Hd|].
    cbn. rewrite <- Z.land_assoc. change (Z.land (Z.lnot CACHE_INODE_DIR_POPULATED) CACHE_INODE_DIR_POPULATED) with 0. apply Z.land_0_r.
  - exists d1. split_and!; try done. by rewrite <- Hd.
Qed.

(** The release of the entries of a cached directory. Every entry of both trees is given back,
    none twice, and no other memory; the trees are empty, no entry is active, and the directory
    counts as trusted but not as populated. *)
Theorem invalidate_all_empties n d F : dir_ok d F -> is_dir d = true ->
  (length (elems (sel Act F)) <= n)%nat -> (length (elems (sel Del F)) <= n)%nat ->
  exists d', cache_inode_invalidate_all_cached_dirent fuel n d = done (CACHE_INODE_SUCCESS, d') /\ dir_ok d' (Leaf, Leaf) /\ counted d' (Leaf, Leaf)
  /\ given_back (elems (sel Act F) ++ elems (sel Del F)) d d' /\ complete d' = false /\ Z.land (dflags d') CACHE_INODE_TRUST_CONTENT <> 0.
Proof.
  intros Hok Hd Hn1 Hn2. destruct (release_tree_spec n Act d F Hok Hd Hn1) as (d1 & E1 & Hok1 & [Hg1 Hg1'] & Hd1 & Hk1 & Hnb & Hpop).
  destruct (release_tree_spec n Del d1 _ Hok1 Hd1 Hn2) as (d2 & E2 & Hok2 & [Hg2 Hg2'] & Hd2 & Hk2 & Hnb2 & Hfl2).
  set (d3 := set_dflags (Z.lor (dflags d2) CACHE_INODE_TRUST_CONTENT) d2). exists d3.
  assert (dir_ok d3 (Leaf, Leaf)) as Hok3 by (apply (ok_head d2); try done; by destruct F). split_and!; [|done | | | |].
  - unfold cache_inode_invalidate_all_cached_dirent. rewrite get_dir_ok, Hd. cbn [negb].
    rewrite (bind_done _ _ d tt d2) by (unfold release_both; by rewrite (bind_done _ _ _ _ _ E1)). done.
  - unfold counted. cbn. by rewrite Hnb2.
  - assert (ents d3 = ents d2 /\ nodes d3 = nodes d2) as [He Hnn] by done. unfold given_back. rewrite He, Hnn. cbn [sel upd snd] in Hg2, Hg2', Hk2.
    split; intros a; [intros [Ha|Ha]%elem_of_app | intros [Ha1 Ha2]%not_elem_of_app].
    + destruct (Hg1 a Ha) as [G1 G2]. pose proof (two_apart' d F Act a (ok_two _ _ Hok) Ha) as Hap. by rewrite Hg2', Hk2.
    + by apply Hg2.
    + by rewrite Hg2', Hg1'.
  - unfold complete. apply andb_false_intro2. cbn. rewrite Hfl2, Z.land_lor_distr_l, Hpop. done.
  - cbn. rewrite Z.land_lor_distr_l. intros Hz%Z.lor_eq_0_iff. by destruct Hz as [_ Hz].
Qed.

End release.

(** ** An example *)

(** Three active entries, one deleted one whose cookie is above theirs, and an entry beside the
    trees; the hashes of "a" and "d" collide. *)
Definition ex_hash (nm : string) : Z := if String.eqb nm "b" then 20 else if String.eqb nm "c" then 30 else 10.

Definition ex_key (bytes : string) : cache_inode_key := mk_key 7 1 bytes.

Definition ex_dir : dir :=
  mk_dir true 6 3 0 (mk_avl 32 1 16 48 3) (mk_avl 64 0 64 64 1)
    (list_to_map [(16, mk_node 0 0 (pack 32 0)); (32, mk_node 16 48 (pack 0 0)); (48, mk_node 0 0 (pack 32 0));
                  (64, mk_node 0 0 (pack 0 0)); (80, mk_node 0 0 0)])
    (list_to_map [(16, mk_dirent 10 0 (ex_key "fa") 0 "a"); (32, mk_dirent 20 0 (ex_key "fb") 0 "b");
                  (48, mk_dirent 30 0 (ex_key "fc") 0 "c"); (64, mk_dirent 40 0 (ex_key "") 1 "e");
                  (80, mk_dirent 0 0 (ex_key "fd") 0 "d")]).

Definition ex_trees : tr * tr := (three_tree, Node Leaf 64 0 Leaf).

Lemma ex_ok : dir_ok ex_dir ex_trees.
Proof.
  split; [split|..].
  - intros []; (constructor; try done; [split; [cbn; unfold addr; split_and!; done || lia | done | done|]; cbn; by apply (bool_decide_unpack _) | repeat constructor; done]).
  - intros v Hv. cbn in Hv |- *. set_solver.
  - intros [] v Hv; cbn in Hv; repeat (apply elem_of_cons in Hv as [->|Hv]; [eexists; split; [reflexivity | split; [unfold MIN_COOKIE_VAL; cbn; lia | reflexivity]]|]);
      by apply elem_of_nil in Hv.
  - intros v w Hv Hw. cbn in Hv, Hw. apply list_elem_of_singleton in Hw as ->.
    repeat (apply elem_of_cons in Hv as [->|Hv]; [done|]). by apply elem_of_nil in Hv.
Qed.

(** Each of the active entries of the example. *)
Ltac each_active H := cbn in H; repeat (apply elem_of_cons in H as [->|H]); [..|by apply elem_of_nil in H].

Lemma dirent_insert_lookup_witness :
  exists j d' F', cache_inode_avl_qp_insert 123 ex_hash false 7 80 ex_dir = done (0, d')
  /\ free_probe 10 (cookies ex_dir ex_trees) j /\ (forall m, (m < j)%nat -> ~ free_probe 10 (cookies ex_dir ex_trees) m)
  /\ inserted ex_dir ex_trees 80 (mk_dirent 0 0 (ex_key "fd") 0 "d") 10 j d' F'
  /\ forall maxj, 0 <= maxj <= 2 ^ 30 ->
     cache_inode_avl_qp_lookup_s 123 8 ex_hash false "d" maxj d' = done (found_within maxj j 80, d').
Proof.
  apply (dirent_insert_lookup 123 8 ex_hash false ltac:(lia) 7 ex_dir ex_trees 80 (mk_dirent 0 0 (ex_key "fd") 0 "d"));
    [apply ex_ok | split; [intros []; cbn; set_solver | by split | by eexists | reflexivity] | reflexivity | unfold zlen; cbn; lia | reflexivity | lia |].
  intros w Hw (e & He & Hn). each_active Hw; cbn in He; injection He as <-; cbn in Hn; discriminate Hn.
Defined.

Lemma dirent_remove_resume_witness :
  exists d' F' A B, cache_inode_remove_cached_dirent 123 8 ex_hash false (fun _ => (0, 13)) (fun _ => 0) 7 "b" ex_dir = done (CACHE_INODE_SUCCESS, d')
  /\ dir_ok d' F' /\ counted d' F' /\ elems (sel Act ex_trees) = A ++ 32 :: B /\ elems (sel Act F') = A ++ B /\ 32 ∈ elems (sel Del F')
  /\ cache_inode_avl_qp_lookup_s 123 8 ex_hash false "b" 1 d' = done (0, d')
  /\ (B <> [] -> cache_inode_avl_lookup_k 123 8 20 CACHE_INODE_FLAG_NEXT_ACTIVE d' = done (List.hd 0 B, d')).
Proof.
  apply (dirent_remove_resume 123 8 ex_hash false ltac:(lia) (fun _ => (0, 13)) (fun _ => 0) ex_dir ex_trees 7 "b" 32 (mk_dirent 20 0 (ex_key "fb") 0 "b"));
    [apply ex_ok | reflexivity | reflexivity | reflexivity | cbn; lia | | reflexivity |].
  - split_and!; [cbn; set_solver | reflexivity | by eexists].
  - intros u Hu Hne (e & He & Hn). each_active Hu; cbn in He; injection He as <-; cbn in Hn; first [discriminate Hn | by destruct Hne].
Defined.

Lemma rename_over_loses_key_witness :
  exists st d' F' A B, cache_inode_rename_cached_dirent 123 8 ex_hash false (fun _ => (0, 13)) (fun _ => 0) 7 96 "b" "c" ex_dir = done (st, d')
  /\ dir_ok d' F' /\ elems (sel Act ex_trees) = A ++ 32 :: B /\ elems (sel Act F') = A ++ B /\ nbactive d' = nbactive ex_dir
  /\ ents d' !! 48 = Some (set_ckey (bare (ex_key "fb")) (mk_dirent 30 0 (ex_key "fc") 0 "c")).
Proof.
  apply (rename_over_loses_key 123 8 ex_hash false ltac:(lia) (fun _ => (0, 13)) (fun _ => 0) ex_dir ex_trees 7 96 "b" "c" 32 48
    (mk_dirent 20 0 (ex_key "fb") 0 "b") (mk_dirent 30 0 (ex_key "fc") 0 "c"));
    [apply ex_ok | reflexivity | reflexivity | done | done | | | lia | reflexivity | reflexivity];
    (split_and!; [cbn; set_solver | reflexivity | by eexists]).
Defined.

Lemma rename_to_new_witness :
  exists j d' F' A B, cache_inode_rename_cached_dirent 123 8 ex_hash false (fun _ => (0, 13)) (fun _ => 0) 7 96 "b" "d" ex_dir = done (CACHE_INODE_SUCCESS, d')
  /\ dir_ok d' F' /\ counted d' F' /\ elems (sel Act ex_trees) = A ++ 32 :: B /\ elems (sel Act F') ≡ₚ 96 :: A ++ B
  /\ ents d' = <[96 := mk_dirent (probe 10 j) (u32 (Z.of_nat j)) (ex_key "fb") DIR_ENTRY_FLAG_NONE "d"]>
                 (<[32 := dead (mk_dirent 20 0 (ex_key "fb") 0 "b")]> (ents ex_dir))
  /\ forall maxj, Z.of_nat j < maxj <= 2 ^ 30 -> cache_inode_avl_qp_lookup_s 123 8 ex_hash false "d" maxj d' = done (96, d').
Proof.
  apply (rename_to_new 123 8 ex_hash false ltac:(lia) (fun _ => (0, 13)) (fun _ => 0) ex_dir ex_trees 7 96 "b" "d" 32 (mk_dirent 20 0 (ex_key "fb") 0 "b"));
    [apply ex_ok | reflexivity | reflexivity | reflexivity | unfold zlen; cbn; lia | by split | lia | intros []; cbn; set_solver | | reflexivity |].
  - split_and!; [cbn; set_solver | reflexivity | by eexists].
  - intros w Hw (e & He & Hn). each_active Hw; cbn in He; injection He as <-; cbn in Hn; discriminate Hn.
Defined.

Lemma invalidate_all_empties_witness :
  exists d', cache_inode_invalidate_all_cached_dirent 123 3 ex_dir = done (CACHE_INODE_SUCCESS, d') /\ dir_ok d' (Leaf, Leaf) /\ counted d' (Leaf, Leaf)
  /\ given_back (elems (sel Act ex_trees) ++ elems (sel Del ex_trees)) ex_dir d' /\ complete d' = false /\ Z.land (dflags d') CACHE_INODE_TRUST_CONTENT <> 0.
Proof. apply (invalidate_all_empties 123 ltac:(lia) 3 ex_dir ex_trees); [apply ex_ok | reflexivity | cbn; lia | cbn; lia]. Defined.

End DirentOps.
