(* ===== verification/DirentList.v ===== *)
(** The listing of a cached directory (module [Dirents] of DirentCache): [cache_inode_readdir] from
    the check of the cookie on gives the callback the active entries in the order of their
    cookies, and a client that reads in pages gets each of them once. Module [DirentList]. *)

From stdpp Require Import sorting.
From S2P Require Import Prelude AvlTree AvlSpec AvlRotate AvlInsert AvlIter AvlRemove AvlRuns DirentCache DirentTrees DirentSpec DirentOps.
Local Open Scope Z_scope.

Module DirentList.

Import Avl AvlSpec AvlInsert AvlIter AvlRuns Dirents DirentTrees DirentSpec DirentOps.

(** ** What the callback is given *)

(** The name and the cookie of a node. *)
Definition shown (d : dir) (v : Z) : string * Z :=
  (match ents d !! v with Some e => name e | None => EmptyString end, cookie_of (ents d) v).

Section feed.
Context {K : Type} (cb : string -> Z -> K -> bool * K).

(** A list of entries given to a callback until it refuses one: the number of calls, whether
    the list was finished, and the state of the callback. *)
Fixpoint feed (L : list (string * Z)) (nb : Z) (x : K) : Z * bool * K :=
  match L with
  | [] => (nb, true, x)
  | (nm, ck) :: L => let '(more, x) := cb nm ck x in if more then feed L (u32 (nb + 1)) x else (u32 (nb + 1), false, x)
  end.

End feed.

Lemma in_directory_done {K A} (m : M dir A) d (x : K) a d' : m d = done (a, d') -> in_directory m (d, x) = done (a, (d', x)).
Proof. intros E. unfold in_directory. by rewrite E. Qed.

Section list.
Context (fuel : nat) (stk : Z) (Hfuel : (123 <= fuel)%nat).
Context {K : Type} (get_keyed : cache_inode_key -> K -> (Z * Z) * K) (getattr : Z -> string -> Z -> bool -> K -> (Z * bool) * K)
  (cb : string -> Z -> K -> bool * K).

(** Every entry is in the cache and its attributes can be read; the callback gets them. *)
Context (Hget : forall key x, exists entry st, get_keyed key x = ((entry, st), x) /\ entry <> 0)
  (Hattr : forall entry nm ck x, getattr entry nm ck true x = ((CACHE_INODE_SUCCESS, (cb nm ck x).1), (cb nm ck x).2)).

Lemma visit_ok d x v e : ents d !! v = Some e ->
  visit get_keyed getattr true v (d, x) = done ((true, Took, (cb (name e) (k e) x).1), (d, (cb (name e) (k e) x).2)).
Proof.
  intros He. unfold visit, visit_once. destruct (Hget (ckey e) x) as (entry & st & Hg & Hne). erewrite bind_done.
  2: { rewrite (bind_done _ _ _ _ _ (in_directory_done _ d x _ _ (dirent_at_ok d v e He))).
       rewrite (bind_done (outside (get_keyed (ckey e))) _ (d, x) (entry, st) (d, x)) by (unfold outside; by rewrite Hg).
       rewrite (proj2 (Z.eqb_neq entry 0) Hne).
       erewrite bind_done; [|unfold outside; rewrite Hattr; reflexivity]. reflexivity. }
  done.
Qed.

Lemma readdir_loop_spec d F A L n nb x : dir_ok d F -> elems (sel Act F) = A ++ L -> (length L <= n)%nat ->
  readdir_loop fuel get_keyed getattr n true (List.hd 0 L) nb (d, x)
  = let '(nb', eod, x') := feed cb (map (shown d) L) nb x in done ((CACHE_INODE_SUCCESS, nb', eod), (d, x')).
Proof.
  intros Hok. revert A n nb x. induction L as [|v L IH]; intros A n nb x Hel Hn; [by destruct n|].
  destruct n as [|n]; [cbn in Hn; lia|]. assert (v ∈ elems (sel Act F)) as Hv by (rewrite Hel; set_solver).
  destruct (ok_ent _ _ Hok Act v Hv) as (e & He & _). cbn [readdir_loop List.hd].
  rewrite (proj2 (Z.eqb_neq v 0)) by (apply addr_ne0; by eapply (ok_addr d F Act)).
  rewrite (bind_done _ _ _ _ _ (visit_ok d x v e He)). cbn [map feed]. unfold shown at 1, cookie_of. rewrite He.
  destruct (cb (name e) (k e) x) as [[] x'] eqn:Ecb; [|done]. cbn [fst snd].
  rewrite (bind_done _ _ _ _ _ (in_directory_done _ d x' _ _ (two_next fuel Hfuel Act d F v A L (ok_two _ _ Hok) Hel))).
  apply (IH (A ++ [v])); [by rewrite Hel, <- app_assoc | cbn in Hn; lia].
Qed.

(** A request that starts after the cookie [x], or at the start for 0. *)
Lemma readdir_from d F n nb0 eod0 x : dir_ok d F -> (length (elems (sel Act F)) <= n)%nat ->
  readdir_populated fuel stk get_keyed getattr n 0 nb0 eod0 (d, x)
  = let '(nb', eod, x') := feed cb (map (shown d) (elems (sel Act F))) 0 x in done ((CACHE_INODE_SUCCESS, nb', eod), (d, x')).
Proof.
  intros Hok Hn. unfold readdir_populated. cbn [Z.ltb Z.compare].
  rewrite (bind_done _ _ _ _ _ (in_directory_done _ d x _ _ (two_first Act d F (ok_two _ _ Hok)))).
  by apply (readdir_loop_spec d F []).
Qed.

Lemma after_suffix d F c : dir_ok d F -> exists A, elems (sel Act F) = A ++ after d F c.
Proof.
  intros Hok. pose proof (wf_sorted _ _ _ (two_wf _ _ (ok_two _ _ Hok) Act)) as Hs. unfold after.
  induction (elems (sel Act F)) as [|v l IH]; [by exists []|]. apply sorted_cons in Hs as [H1 H2].
  destruct (decide (c < cookie_of (ents d) v)) as [Hc|Hc].
  - exists []. cbn [app]. rewrite keep_all; [done|]. constructor; [done|]. apply Forall_forall. intros w Hw. specialize (H1 w Hw).
    apply cmpf_lt in H1. lia.
  - rewrite filter_cons_False by done. destruct (IH H2) as [A HA]. exists (v :: A). cbn. by rewrite <- HA.
Qed.

(** The cookies of the deleted entries. *)
Definition gone (d : dir) (F : tr * tr) : list Z := map (cookie_of (ents d)) (elems (sel Del F)).

Lemma readdir_after d F c n nb0 eod0 x : dir_ok d F -> ents d !! stk = None -> (length (elems (sel Act F)) <= n)%nat -> MIN_COOKIE_VAL <= c ->
  c ∈ cookies d F \/ c ∈ gone d F -> after d F c <> [] ->
  readdir_populated fuel stk get_keyed getattr n c nb0 eod0 (d, x)
  = let '(nb', eod, x') := feed cb (map (shown d) (after d F c)) 0 x in done ((CACHE_INODE_SUCCESS, nb', eod), (d, x')).
Proof.
  intros Hok Hs Hn Hc Hin Hne. unfold MIN_COOKIE_VAL in Hc. unfold readdir_populated.
  rewrite (proj2 (Z.ltb_lt 0 c)), (proj2 (Z.ltb_ge c 3)) by lia. destruct (after_suffix d F c Hok) as [A HA].
  assert (cache_inode_avl_lookup_k fuel stk c CACHE_INODE_FLAG_NEXT_ACTIVE d = done (List.hd 0 (after d F c), d)) as E.
  { destruct (decide (c ∈ cookies d F)) as [Ha|Hna].
    - apply list_elem_of_fmap in Ha as (w & -> & Hw). apply list_elem_of_split in Hw as (A' & B' & Hel).
      rewrite (lookup_k_active fuel stk Hfuel d F A' w B' _ Hok Hs Hel). by rewrite (after_active d F A' w B' Hok Hel).
    - rewrite (lookup_k_other fuel stk Hfuel d F c _ Hok Hs Hna). rewrite decide_True by (by destruct Hin). by destruct (after d F c). }
  rewrite (bind_done _ _ _ _ _ (in_directory_done _ d x _ _ E)).
  rewrite (proj2 (Z.eqb_neq (List.hd 0 (after d F c)) 0)).
  - apply (readdir_loop_spec d F A); [done | done|]. rewrite HA, length_app in Hn. lia.
  - apply addr_ne0, (ok_addr d F Act); [done|]. rewrite HA. destruct (after d F c); [done|]. set_solver.
Qed.

(** The last active entry was the last one sent. *)
Lemma readdir_end d F c n nb0 eod0 x : dir_ok d F -> ents d !! stk = None -> MIN_COOKIE_VAL <= c -> c ∈ cookies d F -> after d F c = [] ->
  readdir_populated fuel stk get_keyed getattr n c nb0 eod0 (d, x) = done ((CACHE_INODE_SUCCESS, nb0, true), (d, x)).
Proof.
  intros Hok Hs Hc Hin He. unfold MIN_COOKIE_VAL in Hc. unfold readdir_populated.
  rewrite (proj2 (Z.ltb_lt 0 c)), (proj2 (Z.ltb_ge c 3)) by lia.
  apply list_elem_of_fmap in Hin as (w & -> & Hw). pose proof (ok_addr d F Act w Hok Hw) as Ha.
  apply list_elem_of_split in Hw as (A & B & Hel). rewrite (after_active d F A w B Hok Hel) in He. subst B.
  assert (cache_inode_avl_lookup_k fuel stk (cookie_of (ents d) w) CACHE_INODE_FLAG_NEXT_ACTIVE d = done (0, d)) as E1
    by exact (lookup_k_active fuel stk Hfuel d F A w [] _ Hok Hs Hel).
  assert (cache_inode_avl_lookup_k fuel stk (cookie_of (ents d) w) 0 d = done (w, d)) as E2
    by exact (lookup_k_active fuel stk Hfuel d F A w [] 0 Hok Hs Hel).
  rewrite (bind_done _ _ _ _ _ (in_directory_done _ d x _ _ E1)). cbn [Z.eqb]. rewrite (bind_done _ _ _ _ _ (in_directory_done _ d x _ _ E2)).
  by rewrite (proj2 (Z.eqb_neq w 0)) by (by apply addr_ne0).
Qed.

(** A cookie of no entry. *)
Lemma readdir_bad d F c n nb0 eod0 x : dir_ok d F -> ents d !! stk = None -> MIN_COOKIE_VAL <= c -> c ∉ cookies d F -> c ∉ gone d F ->
  readdir_populated fuel stk get_keyed getattr n c nb0 eod0 (d, x) = done ((CACHE_INODE_BAD_COOKIE, nb0, eod0), (d, x)).
Proof.
  intros Hok Hs Hc H1 H2. unfold MIN_COOKIE_VAL in Hc. unfold readdir_populated.
  rewrite (proj2 (Z.ltb_lt 0 c)), (proj2 (Z.ltb_ge c 3)) by lia.
  pose proof (fun fl => lookup_k_other fuel stk Hfuel d F c fl Hok Hs H1) as E. setoid_rewrite (decide_False (P := c ∈ _)) in E; [|done].
  rewrite (bind_done _ _ _ _ _ (in_directory_done _ d x _ _ (E _))). cbn [Z.eqb].
  by rewrite (bind_done _ _ _ _ _ (in_directory_done _ d x _ _ (E _))).
Qed.

(** C40: a request with the cookie of a deleted entry that is above those of all active entries,
    as when a client has read a directory and the last entry is removed before it asks for more.
    The listing is not at its end: it starts again at the entry that is the root of the tree,
    and every entry it gives has a cookie below the one of the request. *)
Theorem readdir_restarts d F c n nb0 eod0 x :
  dir_ok d F -> ents d !! stk = None -> (length (elems (sel Act F)) <= n)%nat -> c ∈ gone d F -> elems (sel Act F) <> [] ->
  (forall w, w ∈ elems (sel Act F) -> cookie_of (ents d) w < c) ->
  exists A B, elems (sel Act F) = A ++ root (tree_t d) :: B
  /\ readdir_populated fuel stk get_keyed getattr n c nb0 eod0 (d, x)
     = let '(nb', eod, x') := feed cb (map (shown d) (root (tree_t d) :: B)) 0 x in done ((CACHE_INODE_SUCCESS, nb', eod), (d, x')).
Proof.
  intros Hok Hs Hn Hc Hne Hlow. pose proof (wf_at _ _ _ (two_wf _ _ (ok_two _ _ Hok) Act)) as Hat. pose proof (at_root _ _ _ Hat) as Hr.
  change (root (tree_t d) = ptr (sel Act F)) in Hr.
  assert (root (tree_t d) ∈ elems (sel Act F)) as Hin by (rewrite Hr; apply ptr_elem; intros E; by rewrite E in Hne).
  pose proof (ok_addr d F Act _ Hok Hin) as Ha.
  destruct (proj1 (list_elem_of_fmap _ _ _) Hc) as (w & Ew & Hw). destruct (ok_ent _ _ Hok Del w Hw) as (e & He & Hk & _).
  assert (MIN_COOKIE_VAL <= c) as Hc3 by (rewrite Ew; unfold cookie_of; rewrite He; lia). unfold MIN_COOKIE_VAL in Hc3.
  destruct (list_elem_of_split _ _ Hin) as (A & B & Hel). exists A, B. split; [done|]. unfold readdir_populated.
  rewrite (proj2 (Z.ltb_lt 0 c)), (proj2 (Z.ltb_ge c 3)) by lia.
  assert (cache_inode_avl_lookup_k fuel stk c CACHE_INODE_FLAG_NEXT_ACTIVE d = done (root (tree_t d), d)) as E.
  { rewrite (lookup_k_other fuel stk Hfuel d F c _ Hok Hs).
    - rewrite decide_True by done. unfold after. rewrite keep_none; [done|]. apply Forall_forall. intros v Hv. specialize (Hlow v Hv). lia.
    - intros (v & Ev & Hv)%list_elem_of_fmap. specialize (Hlow v Hv). lia. }
  rewrite (bind_done _ _ _ _ _ (in_directory_done _ d x _ _ E)), (proj2 (Z.eqb_neq _ 0)) by (by apply addr_ne0).
  change (root (tree_t d)) with (List.hd 0 (root (tree_t d) :: B)). apply (readdir_loop_spec d F A); [done | done|].
  rewrite Hel, length_app in Hn. cbn [length] in *. lia.
Qed.

End list.

(** ** A client that reads in pages *)

(** The callback of a client with room for so many entries. *)
Definition page_cb (nm : string) (ck : Z) (x : list (string * Z) * nat) : bool * (list (string * Z) * nat) :=
  match x with (got, S room) => (true, (got ++ [(nm, ck)], room)) | (got, O) => (false, (got, O)) end.

(** Every entry can be read. *)
Definition page_get (key : cache_inode_key) (x : list (string * Z) * nat) : (Z * Z) * (list (string * Z) * nat) := ((1, 0), x).
Definition page_getattr (entry : Z) (nm : string) (ck : Z) (in_result : bool) (x : list (string * Z) * nat) : (Z * bool) * (list (string * Z) * nat) :=
  let '(b, x) := page_cb nm ck x in ((CACHE_INODE_SUCCESS, b), x).

Section pages.
Context (fuel n : nat) (stk : Z) (Hfuel : (123 <= fuel)%nat) (room : nat).

(** Requests until the end of the directory, each from the last cookie that was received. *)
Fixpoint read_pages (pages : nat) (cookie : Z) (got : list (string * Z)) (d : dir) : outcome (option (list (string * Z))) :=
  match pages with
  | O => Ok None
  | S pages =>
      let? r := readdir_populated fuel stk page_get page_getattr n cookie 0 false (d, (got, room)) in
      let '(status, _, eod, (d, (got, _))) := r in
      assert! status =? CACHE_INODE_SUCCESS ;;
      if eod : bool then done got else read_pages pages (List.last got (EmptyString, 0)).2 got d
  end.

Lemma feed_page L nb got m : exists nb',
  feed page_cb L nb (got, m) = if (length L <=? m)%nat then (nb', true, (got ++ L, (m - length L)%nat)) else (nb', false, (got ++ take m L, O)).
Proof.
  revert nb got m. induction L as [|[nm ck] L IH]; intros nb got m; cbn [feed length take].
  - exists nb. by rewrite app_nil_r, Nat.sub_0_r.
  - destruct m as [|m]; cbn [page_cb]; [exists (u32 (nb + 1)); by rewrite app_nil_r|].
    destruct (IH (u32 (nb + 1)) (got ++ [(nm, ck)]) m) as [nb' ->]. exists nb'. cbn [Nat.leb length Nat.sub]. by rewrite <- !app_assoc.
Qed.

Lemma page_get_ok key x : exists entry st, page_get key x = ((entry, st), x) /\ entry <> 0.
Proof. by exists 1, 0. Qed.

Lemma page_getattr_ok entry nm ck x : page_getattr entry nm ck true x = ((CACHE_INODE_SUCCESS, (page_cb nm ck x).1), (page_cb nm ck x).2).
Proof. unfold page_getattr. by destruct (page_cb nm ck x). Qed.

(** One request, after the entries [A] were received and when [L] are left. *)
Definition paged (d : dir) (A L : list Z) (r : outcome (option (Z * Z * bool * (dir * (list (string * Z) * nat))))) : Prop :=
  exists nb eod got m, r = done ((CACHE_INODE_SUCCESS, nb, eod), (d, (got, m)))
  /\ if eod : bool then got = map (shown d) (A ++ L) else got = map (shown d) (A ++ take room L) /\ (room < length L)%nat.

Lemma paged_feed d A L :
  paged d A L (let '(nb, eod, x) := feed page_cb (map (shown d) L) 0 (map (shown d) A, room) in done ((CACHE_INODE_SUCCESS, nb, eod), (d, x))).
Proof.
  destruct (feed_page (map (shown d) L) 0 (map (shown d) A) room) as [nb ->]. rewrite length_map. unfold paged. rewrite !map_app.
  destruct (Nat.leb_spec (length L) room) as [Hle|Hgt]; [by eexists nb, true, _, _|].
  eexists nb, false, _, _. split; [done|]. split; [|done]. by rewrite firstn_map.
Qed.

Lemma one_page d F A L : dir_ok d F -> ents d !! stk = None -> (length (elems (sel Act F)) <= n)%nat -> elems (sel Act F) = A ++ L ->
  paged d A L (readdir_populated fuel stk page_get page_getattr n (List.last (map (shown d) A) (EmptyString, 0)).2 0 false (d, (map (shown d) A, room))).
Proof.
  intros Hok Hs Hn Hel. destruct (decide (A = [])) as [->|HA].
  { cbn [app] in Hel. cbn [map List.last snd].
    rewrite (readdir_from fuel stk Hfuel page_get page_getattr page_cb page_get_ok page_getattr_ok d F n 0 false _ Hok Hn), Hel. apply paged_feed. }
  destruct (exists_last HA) as (A' & w & EA).
  assert ((List.last (map (shown d) A) (EmptyString, 0)).2 = cookie_of (ents d) w) as -> by (rewrite EA, map_app; cbn [map]; by rewrite last_last).
  rewrite EA, <- app_assoc in Hel. cbn [app] in Hel. pose proof (after_active d F A' w L Hok Hel) as Haf.
  assert (w ∈ elems (sel Act F)) as Hw by (rewrite Hel; set_solver). destruct (ok_ent _ _ Hok Act w Hw) as (e & He & Hk & _).
  assert (MIN_COOKIE_VAL <= cookie_of (ents d) w) as Hc by (unfold cookie_of; rewrite He; lia).
  assert (cookie_of (ents d) w ∈ cookies d F) as Hin by (apply list_elem_of_fmap; by exists w).
  destruct (decide (L = [])) as [->|HL].
  - rewrite (readdir_end fuel stk Hfuel page_get page_getattr d F _ n 0 false _ Hok Hs Hc Hin Haf). eexists 0, true, _, _. by rewrite app_nil_r.
  - rewrite (readdir_after fuel stk Hfuel page_get page_getattr page_cb page_get_ok page_getattr_ok d F _ n 0 false _ Hok Hs Hn Hc (or_introl Hin))
      by (by rewrite Haf). rewrite Haf. apply paged_feed.
Qed.

Lemma read_pages_spec pages d F A L : dir_ok d F -> ents d !! stk = None -> (length (elems (sel Act F)) <= n)%nat -> (1 <= room)%nat ->
  elems (sel Act F) = A ++ L -> (length L < pages)%nat ->
  read_pages pages (List.last (map (shown d) A) (EmptyString, 0)).2 (map (shown d) A) d = done (map (shown d) (elems (sel Act F))).
Proof.
  intros Hok Hs Hn Hroom. revert A L. induction pages as [|pages IH]; intros A L Hel Hp; [lia|]. cbn [read_pages].
  destruct (one_page d F A L Hok Hs Hn Hel) as (nb & eod & got & m & -> & Hgot). cbn. destruct eod.
  - cbn in Hel. by rewrite Hgot, Hel.
  - destruct Hgot as [-> Hlt]. apply (IH (A ++ take room L) (drop room L)).
    + by rewrite <- app_assoc, take_drop.
    + rewrite length_drop. lia.
Qed.

(** C39: a client that lists a cached directory in pages of any size, each request from the cookie
    of the last entry it has, gets every active entry exactly once, in the order of the cookies,
    and the requests end. *)
Theorem readdir_pages_complete d F : dir_ok d F -> ents d !! stk = None -> (length (elems (sel Act F)) <= n)%nat -> (1 <= room)%nat ->
  read_pages (S (length (elems (sel Act F)))) 0 [] d = done (map (shown d) (elems (sel Act F))).
Proof. intros Hok Hs Hn Hr. apply (read_pages_spec _ d F [] (elems (sel Act F))); [done..|lia]. Qed.

End pages.

(** ** Examples *)

Lemma readdir_pages_complete_witness : read_pages 123 3 8 2 4 0 [] ex_dir = done (map (shown ex_dir) [16; 32; 48]).
Proof. apply (readdir_pages_complete 123 3 8 ltac:(lia) 2 ex_dir ex_trees); [apply ex_ok | reflexivity | cbn; lia | lia]. Defined.

Lemma readdir_restarts_witness :
  exists A B, elems (sel Act ex_trees) = A ++ root (tree_t ex_dir) :: B
  /\ readdir_populated 123 8 page_get page_getattr 3 40 0 false (ex_dir, ([], 5%nat))
     = let '(nb', eod, x') := feed page_cb (map (shown ex_dir) (root (tree_t ex_dir) :: B)) 0 ([], 5%nat) in done ((CACHE_INODE_SUCCESS, nb', eod), (ex_dir, x')).
Proof.
  apply (readdir_restarts 123 8 ltac:(lia) page_get page_getattr page_cb page_get_ok page_getattr_ok ex_dir ex_trees 40 3 0 false ([], 5%nat));
    [apply ex_ok | reflexivity | cbn; lia | by left | done |].
  intros w Hw. each_active Hw; reflexivity.
Defined.

End DirentList.
