(* ===== verification/StateTypes.v ===== *)
(** The types of the state layer of the server, [include/sal_data.h], with the conversions of
    [SAL/state_misc.c]: statuses, descriptions of locks and their last bytes, and the owners of locks with
    their comparison. Module [Sal]. *)

From S2P Require Import Prelude.
Local Open Scope Z_scope.

Module Sal.

(** ** Statuses *)

Inductive state_status_t :=
  | STATE_SUCCESS | STATE_MALLOC_ERROR | STATE_POOL_MUTEX_INIT_ERROR | STATE_GET_NEW_LRU_ENTRY
  | STATE_INIT_ENTRY_FAILED | STATE_FSAL_ERROR | STATE_LRU_ERROR | STATE_HASH_SET_ERROR
  | STATE_NOT_A_DIRECTORY | STATE_INCONSISTENT_ENTRY | STATE_BAD_TYPE | STATE_ENTRY_EXISTS
  | STATE_DIR_NOT_EMPTY | STATE_NOT_FOUND | STATE_INVALID_ARGUMENT | STATE_INSERT_ERROR
  | STATE_HASH_TABLE_ERROR | STATE_FSAL_EACCESS | STATE_IS_A_DIRECTORY | STATE_FSAL_EPERM
  | STATE_NO_SPACE_LEFT | STATE_READ_ONLY_FS | STATE_IO_ERROR | STATE_FSAL_ESTALE | STATE_FSAL_ERR_SEC
  | STATE_STATE_CONFLICT | STATE_QUOTA_EXCEEDED | STATE_DEAD_ENTRY | STATE_ASYNC_POST_ERROR
  | STATE_NOT_SUPPORTED | STATE_STATE_ERROR | STATE_FSAL_DELAY | STATE_NAME_TOO_LONG | STATE_LOCK_CONFLICT
  | STATE_LOCK_BLOCKED | STATE_LOCK_DEADLOCK | STATE_BAD_COOKIE | STATE_FILE_BIG | STATE_GRACE_PERIOD
  | STATE_CACHE_INODE_ERR | STATE_SIGNAL_ERROR | STATE_KILLED | STATE_FILE_OPEN | STATE_MLINK
  | STATE_SERVERFAULT | STATE_TOOSMALL | STATE_XDEV | STATE_FSAL_SHARE_DENIED | STATE_IN_GRACE
  | STATE_BADHANDLE.

Inductive cache_inode_status_t :=
  | CACHE_INODE_SUCCESS | CACHE_INODE_MALLOC_ERROR | CACHE_INODE_POOL_MUTEX_INIT_ERROR
  | CACHE_INODE_GET_NEW_LRU_ENTRY | CACHE_INODE_INIT_ENTRY_FAILED | CACHE_INODE_FSAL_ERROR
  | CACHE_INODE_LRU_ERROR | CACHE_INODE_HASH_SET_ERROR | CACHE_INODE_NOT_A_DIRECTORY
  | CACHE_INODE_INCONSISTENT_ENTRY | CACHE_INODE_BAD_TYPE | CACHE_INODE_ENTRY_EXISTS
  | CACHE_INODE_DIR_NOT_EMPTY | CACHE_INODE_NOT_FOUND | CACHE_INODE_INVALID_ARGUMENT
  | CACHE_INODE_INSERT_ERROR | CACHE_INODE_HASH_TABLE_ERROR | CACHE_INODE_FSAL_EACCESS
  | CACHE_INODE_IS_A_DIRECTORY | CACHE_INODE_FSAL_EPERM | CACHE_INODE_NO_SPACE_LEFT
  | CACHE_INODE_READ_ONLY_FS | CACHE_INODE_IO_ERROR | CACHE_INODE_FSAL_ESTALE | CACHE_INODE_FSAL_ERR_SEC
  | CACHE_INODE_STATE_CONFLICT | CACHE_INODE_QUOTA_EXCEEDED | CACHE_INODE_DEAD_ENTRY
  | CACHE_INODE_ASYNC_POST_ERROR | CACHE_INODE_NOT_SUPPORTED | CACHE_INODE_STATE_ERROR | CACHE_INODE_DELAY
  | CACHE_INODE_NAME_TOO_LONG | CACHE_INODE_BAD_COOKIE | CACHE_INODE_FILE_BIG | CACHE_INODE_KILLED
  | CACHE_INODE_FILE_OPEN | CACHE_INODE_FSAL_XDEV | CACHE_INODE_FSAL_MLINK | CACHE_INODE_SERVERFAULT
  | CACHE_INODE_TOOSMALL | CACHE_INODE_FSAL_SHARE_DENIED | CACHE_INODE_BADNAME | CACHE_INODE_UNION_NOTSUPP
  | CACHE_INODE_CROSS_JUNCTION | CACHE_INODE_IN_GRACE | CACHE_INODE_BADHANDLE.

Inductive fsal_errors_t :=
  | ERR_FSAL_NO_ERROR | ERR_FSAL_PERM | ERR_FSAL_NOENT | ERR_FSAL_IO | ERR_FSAL_NXIO | ERR_FSAL_NOMEM
  | ERR_FSAL_ACCESS | ERR_FSAL_FAULT | ERR_FSAL_EXIST | ERR_FSAL_XDEV | ERR_FSAL_NOTDIR | ERR_FSAL_ISDIR
  | ERR_FSAL_INVAL | ERR_FSAL_FBIG | ERR_FSAL_NOSPC | ERR_FSAL_ROFS | ERR_FSAL_MLINK | ERR_FSAL_DQUOT
  | ERR_FSAL_NAMETOOLONG | ERR_FSAL_NOTEMPTY | ERR_FSAL_STALE | ERR_FSAL_BADHANDLE | ERR_FSAL_BADCOOKIE
  | ERR_FSAL_NOTSUPP | ERR_FSAL_TOOSMALL | ERR_FSAL_SERVERFAULT | ERR_FSAL_BADTYPE | ERR_FSAL_DELAY
  | ERR_FSAL_FHEXPIRED | ERR_FSAL_SHARE_DENIED | ERR_FSAL_SYMLINK | ERR_FSAL_ATTRNOTSUPP | ERR_FSAL_NOT_INIT
  | ERR_FSAL_ALREADY_INIT | ERR_FSAL_BAD_INIT | ERR_FSAL_SEC | ERR_FSAL_NO_QUOTA | ERR_FSAL_NOT_OPENED
  | ERR_FSAL_DEADLOCK | ERR_FSAL_OVERFLOW | ERR_FSAL_INTERRUPT | ERR_FSAL_BLOCKED | ERR_FSAL_TIMEOUT
  | ERR_FSAL_FILE_OPEN | ERR_FSAL_UNION_NOTSUPP | ERR_FSAL_IN_GRACE.

Definition cache_inode_status_to_state_status (status : cache_inode_status_t) : state_status_t :=
  match status with
  | CACHE_INODE_SUCCESS => STATE_SUCCESS
  | CACHE_INODE_MALLOC_ERROR => STATE_MALLOC_ERROR
  | CACHE_INODE_POOL_MUTEX_INIT_ERROR => STATE_POOL_MUTEX_INIT_ERROR
  | CACHE_INODE_GET_NEW_LRU_ENTRY => STATE_GET_NEW_LRU_ENTRY
  | CACHE_INODE_INIT_ENTRY_FAILED => STATE_INIT_ENTRY_FAILED
  | CACHE_INODE_FSAL_ERROR => STATE_FSAL_ERROR
  | CACHE_INODE_LRU_ERROR => STATE_LRU_ERROR
  | CACHE_INODE_HASH_SET_ERROR => STATE_HASH_SET_ERROR
  | CACHE_INODE_NOT_A_DIRECTORY => STATE_NOT_A_DIRECTORY
  | CACHE_INODE_INCONSISTENT_ENTRY => STATE_INCONSISTENT_ENTRY
  | CACHE_INODE_BAD_TYPE => STATE_BAD_TYPE
  | CACHE_INODE_ENTRY_EXISTS => STATE_ENTRY_EXISTS
  | CACHE_INODE_DIR_NOT_EMPTY => STATE_DIR_NOT_EMPTY
  | CACHE_INODE_NOT_FOUND => STATE_NOT_FOUND
  | CACHE_INODE_BADNAME | CACHE_INODE_INVALID_ARGUMENT | CACHE_INODE_CROSS_JUNCTION => STATE_INVALID_ARGUMENT
  | CACHE_INODE_INSERT_ERROR => STATE_INSERT_ERROR
  | CACHE_INODE_HASH_TABLE_ERROR => STATE_HASH_TABLE_ERROR
  | CACHE_INODE_FSAL_EACCESS => STATE_FSAL_EACCESS
  | CACHE_INODE_IS_A_DIRECTORY => STATE_IS_A_DIRECTORY
  | CACHE_INODE_FSAL_EPERM => STATE_FSAL_EPERM
  | CACHE_INODE_NO_SPACE_LEFT => STATE_NO_SPACE_LEFT
  | CACHE_INODE_READ_ONLY_FS => STATE_READ_ONLY_FS
  | CACHE_INODE_IO_ERROR => STATE_IO_ERROR
  | CACHE_INODE_FSAL_ESTALE => STATE_FSAL_ESTALE
  | CACHE_INODE_FSAL_ERR_SEC => STATE_FSAL_ERR_SEC
  | CACHE_INODE_STATE_CONFLICT => STATE_STATE_CONFLICT
  | CACHE_INODE_QUOTA_EXCEEDED => STATE_QUOTA_EXCEEDED
  | CACHE_INODE_DEAD_ENTRY => STATE_DEAD_ENTRY
  | CACHE_INODE_ASYNC_POST_ERROR => STATE_ASYNC_POST_ERROR
  | CACHE_INODE_NOT_SUPPORTED | CACHE_INODE_UNION_NOTSUPP => STATE_NOT_SUPPORTED
  | CACHE_INODE_STATE_ERROR => STATE_STATE_ERROR
  | CACHE_INODE_DELAY => STATE_FSAL_DELAY
  | CACHE_INODE_NAME_TOO_LONG => STATE_NAME_TOO_LONG
  | CACHE_INODE_BAD_COOKIE => STATE_BAD_COOKIE
  | CACHE_INODE_FILE_BIG => STATE_FILE_BIG
  | CACHE_INODE_KILLED => STATE_KILLED
  | CACHE_INODE_FILE_OPEN => STATE_FILE_OPEN
  | CACHE_INODE_FSAL_SHARE_DENIED => STATE_FSAL_SHARE_DENIED
  | CACHE_INODE_FSAL_MLINK => STATE_MLINK
  | CACHE_INODE_SERVERFAULT => STATE_SERVERFAULT
  | CACHE_INODE_TOOSMALL => STATE_TOOSMALL
  | CACHE_INODE_FSAL_XDEV => STATE_XDEV
  | CACHE_INODE_IN_GRACE => STATE_IN_GRACE
  | CACHE_INODE_BADHANDLE => STATE_BADHANDLE
  end.

Definition state_error_convert (major : fsal_errors_t) : state_status_t :=
  match major with
  | ERR_FSAL_NO_ERROR => STATE_SUCCESS
  | ERR_FSAL_NOENT => STATE_NOT_FOUND
  | ERR_FSAL_DELAY | ERR_FSAL_ACCESS => STATE_LOCK_CONFLICT
  | ERR_FSAL_PERM => STATE_FSAL_EPERM
  | ERR_FSAL_NOSPC => STATE_NO_SPACE_LEFT
  | ERR_FSAL_ROFS => STATE_READ_ONLY_FS
  | ERR_FSAL_IO | ERR_FSAL_NXIO => STATE_IO_ERROR
  | ERR_FSAL_STALE | ERR_FSAL_FHEXPIRED => STATE_FSAL_ESTALE
  | ERR_FSAL_INVAL | ERR_FSAL_OVERFLOW => STATE_INVALID_ARGUMENT
  | ERR_FSAL_SEC => STATE_FSAL_ERR_SEC
  | ERR_FSAL_NOTSUPP | ERR_FSAL_ATTRNOTSUPP | ERR_FSAL_UNION_NOTSUPP => STATE_NOT_SUPPORTED
  | ERR_FSAL_NOMEM => STATE_MALLOC_ERROR
  | ERR_FSAL_DEADLOCK => STATE_LOCK_DEADLOCK
  | ERR_FSAL_BADCOOKIE => STATE_BAD_COOKIE
  | ERR_FSAL_NOT_OPENED => STATE_FSAL_ERROR
  | ERR_FSAL_SYMLINK | ERR_FSAL_BADTYPE => STATE_BAD_TYPE
  | ERR_FSAL_ISDIR => STATE_IS_A_DIRECTORY
  | ERR_FSAL_FBIG => STATE_FILE_BIG
  | ERR_FSAL_FILE_OPEN => STATE_FILE_OPEN
  | ERR_FSAL_SHARE_DENIED => STATE_FSAL_SHARE_DENIED
  | ERR_FSAL_BLOCKED => STATE_LOCK_BLOCKED
  | ERR_FSAL_IN_GRACE => STATE_IN_GRACE
  | ERR_FSAL_BADHANDLE => STATE_BADHANDLE
  | ERR_FSAL_DQUOT | ERR_FSAL_NAMETOOLONG | ERR_FSAL_EXIST | ERR_FSAL_NOTEMPTY | ERR_FSAL_NOTDIR |
    ERR_FSAL_INTERRUPT | ERR_FSAL_FAULT | ERR_FSAL_NOT_INIT | ERR_FSAL_ALREADY_INIT | ERR_FSAL_BAD_INIT |
    ERR_FSAL_NO_QUOTA | ERR_FSAL_XDEV | ERR_FSAL_MLINK | ERR_FSAL_TOOSMALL | ERR_FSAL_TIMEOUT |
    ERR_FSAL_SERVERFAULT => STATE_FSAL_ERROR
  end.

Definition state_unlock_err_ok (status : state_status_t) : bool :=
  match status with STATE_SUCCESS | STATE_FSAL_ESTALE | STATE_DEAD_ENTRY => true | _ => false end.

Definition success (status : state_status_t) : bool := match status with STATE_SUCCESS => true | _ => false end.

(** ** Locks *)

Inductive fsal_lock_t := FSAL_LOCK_R | FSAL_LOCK_W | FSAL_NO_LOCK.

Inductive lock_type_t := POSIX_LOCK | LEASE_LOCK.

Record fsal_lock_param_t := mk_lock {
  lock_sle_type : lock_type_t; lock_type : fsal_lock_t; lock_start : Z; lock_length : Z; lock_reclaim : bool }.

#[export] Instance fsal_lock_eq_dec : EqDecision fsal_lock_t.
Proof. solve_decision. Defined.
#[export] Instance lock_type_eq_dec : EqDecision lock_type_t.
Proof. solve_decision. Defined.

Definition UINT64_MAX : Z := 2 ^ 64 - 1.

Definition lock_end (lock : fsal_lock_param_t) : Z :=
  if lock_length lock =? 0 then UINT64_MAX else u64 (lock_start lock + lock_length lock - 1).

Definition different_lock (lock1 lock2 : fsal_lock_param_t) : bool :=
  negb (bool_decide (lock_type lock1 = lock_type lock2))
  || negb (lock_start lock1 =? lock_start lock2)
  || negb (lock_length lock1 =? lock_length lock2).

Definition set_sle_type (x : lock_type_t) (l : fsal_lock_param_t) : fsal_lock_param_t :=
  mk_lock x (lock_type l) (lock_start l) (lock_length l) (lock_reclaim l).
Definition set_range (start length : Z) (l : fsal_lock_param_t) : fsal_lock_param_t :=
  mk_lock (lock_sle_type l) (lock_type l) start length (lock_reclaim l).

Inductive fsal_lock_op_t := FSAL_OP_LOCKT | FSAL_OP_LOCK | FSAL_OP_LOCKB | FSAL_OP_UNLOCK | FSAL_OP_CANCEL.

(** What an export supports. *)
Inductive fso := fso_lock_support | fso_lock_support_owner | fso_lock_support_async_block | fso_reopen_method.

Inductive state_blocking_t := STATE_NON_BLOCKING | STATE_NLM_BLOCKING | STATE_NFSV4_BLOCKING | STATE_GRANTING | STATE_CANCELED.

#[export] Instance blocking_eq_dec : EqDecision state_blocking_t.
Proof. solve_decision. Defined.

Inductive state_grant_type_t := STATE_GRANT_NONE | STATE_GRANT_INTERNAL | STATE_GRANT_FSAL | STATE_GRANT_FSAL_AVAILABLE.

(** ** Owners *)

Inductive state_owner_type_t :=
  | STATE_LOCK_OWNER_UNKNOWN | STATE_LOCK_OWNER_NLM | STATE_LOCK_OWNER_9P
  | STATE_OPEN_OWNER_NFSV4 | STATE_LOCK_OWNER_NFSV4 | STATE_CLIENTID_OWNER_NFSV4.

#[export] Instance owner_type_eq_dec : EqDecision state_owner_type_t.
Proof. solve_decision. Defined.

(** The fields of an owner that do not change; [so_id] is the client id, or the process of a 9P owner. *)
Record state_owner_t := mk_owner { so_type : state_owner_type_t; so_id : Z; so_owner_val : string }.

Section owners.
(** The owners by their addresses. *)
Context (own : Z -> state_owner_t).

(** [compare_nfs4_owner] and [compare_9p_owner] of two owners of the same type, as [different_owners] calls them:
    whether they differ. *)
Definition compare_nfs4_owner (owner1 owner2 : Z) : bool :=
  if (owner1 =? 0) || (owner2 =? 0) then true
  else if owner1 =? owner2 then false
  else negb (so_id (own owner1) =? so_id (own owner2)) || negb (String.eqb (so_owner_val (own owner1)) (so_owner_val (own owner2))).

Definition compare_9p_owner (owner1 owner2 : Z) : bool :=
  if (owner1 =? 0) || (owner2 =? 0) then true
  else if owner1 =? owner2 then false
  else negb (so_id (own owner1) =? so_id (own owner2)) || negb (String.eqb (so_owner_val (own owner1)) (so_owner_val (own owner2))).

Definition different_owners (owner1 owner2 : Z) : bool :=
  if (owner1 =? 0) || (owner2 =? 0) then true
  else if owner1 =? owner2 then false
  else if negb (bool_decide (so_type (own owner1) = so_type (own owner2))) then true
  else
  match so_type (own owner1) with
  | STATE_LOCK_OWNER_9P => compare_9p_owner owner1 owner2
  | STATE_LOCK_OWNER_UNKNOWN => true
  | _ => compare_nfs4_owner owner1 owner2
  end.

End owners.

End Sal.
