(* ===== verification/StateLock.v ===== *)
(** Byte-range locks of the server, [SAL/state_lock.c]: the list of the locks of a file, merging a new lock with
    the locks of its owner, subtracting a range, blocked locks, and the operations that test, take and release
    locks together with the file system. Module [Locks].

    Lock entries, blocked locks and cookies are in a memory by address. Every linked list is a list of addresses.
    The mutexes make the operations atomic. The logging, the hash of the cookies and the queue of notifications are
    not modelled. *)

From S2P Require Import Prelude StateTypes.
Import Sal.
Local Open Scope Z_scope.

Module Locks.

(** ** The state *)

Record state_lock_entry_t := mk_sle {
  sle_export : Z; sle_entry : Z; sle_block_data : Z; sle_owner : Z; sle_state : Z;
  sle_blocked : state_blocking_t; sle_ref_count : Z; sle_lock : fsal_lock_param_t; sle_type : lock_type_t }.

Record state_block_data_t := mk_block {
  sbd_grant_type : state_grant_type_t; sbd_granted_callback : Z; sbd_blocked_cookie : Z; sbd_lock_entry : Z }.

Record state_cookie_entry_t := mk_cookie { sce_entry : Z; sce_lock_entry : Z; sce_cookie : string }.

(** A file: whether it is a regular one, its pin count, and whether it waits to be cleaned up. *)
Record file := mk_file { regular : bool; pin_refcnt : Z; cleanup : bool }.

(** The lists: those of a file, an export, an owner and a state, the blocked locks, and the local lists of
    [subtract_lock_from_list] and [do_unlock_no_owner]. *)
Inductive lid :=
  | lock_list (entry : Z) | deleg_list (entry : Z) | split_lock_list | remove_list | fsal_unlock_list
  | exp_lock_list (export : Z) | so_lock_list (owner : Z) | state_locklist (state : Z) | state_blocked_locks.

#[export] Instance lid_eq_dec : EqDecision lid.
Proof. solve_decision. Defined.

Definition lid_code (l : lid) : nat * Z :=
  match l with
  | lock_list x => (0%nat, x) | deleg_list x => (1%nat, x) | split_lock_list => (2%nat, 0) | remove_list => (3%nat, 0)
  | fsal_unlock_list => (4%nat, 0) | exp_lock_list x => (5%nat, x) | so_lock_list x => (6%nat, x)
  | state_locklist x => (7%nat, x) | state_blocked_locks => (8%nat, 0)
  end.

Definition lid_decode (c : nat * Z) : lid :=
  match c with
  | (0%nat, x) => lock_list x | (1%nat, x) => deleg_list x | (2%nat, _) => split_lock_list | (3%nat, _) => remove_list
  | (4%nat, _) => fsal_unlock_list | (5%nat, x) => exp_lock_list x | (6%nat, x) => so_lock_list x
  | (7%nat, x) => state_locklist x | (_, _) => state_blocked_locks
  end.

#[export] Instance lid_countable : Countable lid.
Proof. refine (inj_countable' lid_code lid_decode _). by intros []. Defined.

(** Whether the elements of a list are linked by [sle_list]. *)
Definition by_sle_list (l : lid) : bool :=
  match l with lock_list _ | deleg_list _ | split_lock_list | remove_list | fsal_unlock_list => true | _ => false end.

Section locks.
(** The state of the file system below, and what it does: opening a file, its lock operations, which return an
    error and the conflicting lock, and the removal of a stale file from the cache. *)
Context {K : Type} (cache_inode_open : Z -> bool -> bool -> K -> cache_inode_status_t * K)
  (lock_op : Z -> Z -> fsal_lock_op_t -> fsal_lock_param_t -> K -> (fsal_errors_t * fsal_lock_param_t) * K)
  (cache_inode_kill_entry : Z -> K -> K) (update_delegation_stats : Z -> Z -> K -> K).

(** The owners by address, what an export supports, and the address of [unknown_owner]. *)
Context (own : Z -> state_owner_t) (supports : Z -> fso -> bool) (unknown_owner : Z).

(** [supply]: what [gsh_malloc] returns next; memory is used up when it is empty. [refs]: the reference counts of
    the owners that are not freed. [ctx_export]: [op_ctx->export]. *)
Record state := mk_state {
  supply : list Z; les : gmap Z state_lock_entry_t; blocks : gmap Z state_block_data_t;
  cookies : gmap Z state_cookie_entry_t; ht_lock_cookies : gmap string Z; gl : gmap lid (list Z);
  refs : gmap Z Z; files : gmap Z file; ctx_export : Z; fsal : K }.

Definition set_supply x (s : state) := mk_state x (les s) (blocks s) (cookies s) (ht_lock_cookies s) (gl s) (refs s) (files s) (ctx_export s) (fsal s).
Definition set_les x (s : state) := mk_state (supply s) x (blocks s) (cookies s) (ht_lock_cookies s) (gl s) (refs s) (files s) (ctx_export s) (fsal s).
Definition set_blocks x (s : state) := mk_state (supply s) (les s) x (cookies s) (ht_lock_cookies s) (gl s) (refs s) (files s) (ctx_export s) (fsal s).
Definition set_cookies x y (s : state) := mk_state (supply s) (les s) (blocks s) x y (gl s) (refs s) (files s) (ctx_export s) (fsal s).
Definition set_gl x (s : state) := mk_state (supply s) (les s) (blocks s) (cookies s) (ht_lock_cookies s) x (refs s) (files s) (ctx_export s) (fsal s).
Definition set_refs x (s : state) := mk_state (supply s) (les s) (blocks s) (cookies s) (ht_lock_cookies s) (gl s) x (files s) (ctx_export s) (fsal s).
Definition set_files x (s : state) := mk_state (supply s) (les s) (blocks s) (cookies s) (ht_lock_cookies s) (gl s) (refs s) x (ctx_export s) (fsal s).
Definition set_ctx x (s : state) := mk_state (supply s) (les s) (blocks s) (cookies s) (ht_lock_cookies s) (gl s) (refs s) (files s) x (fsal s).
Definition set_fsal x (s : state) := mk_state (supply s) (les s) (blocks s) (cookies s) (ht_lock_cookies s) (gl s) (refs s) (files s) (ctx_export s) x.

Definition get : M state state := fun s => done (s, s).
Definition on (f : state -> state) : M state unit := fun s => done (tt, f s).

(** A call into the file system. *)
Definition call {A} (f : K -> A * K) : M state A := fun s => let '(a, k) := f (fsal s) in done (a, set_fsal k s).

(** Reading and changing a lock entry; an entry that is not allocated is not accessed. *)
Definition entry_at (x : Z) : M state state_lock_entry_t := s ← get; need (les s !! x).
Definition change_entry (x : Z) (f : state_lock_entry_t -> state_lock_entry_t) : M state unit :=
  e ← entry_at x; on (fun s => set_les (<[x := f e]> (les s)) s).

Definition with_lock (l : fsal_lock_param_t) (e : state_lock_entry_t) : state_lock_entry_t :=
  mk_sle (sle_export e) (sle_entry e) (sle_block_data e) (sle_owner e) (sle_state e) (sle_blocked e) (sle_ref_count e) l (sle_type e).
Definition with_blocked (b : state_blocking_t) (e : state_lock_entry_t) : state_lock_entry_t :=
  mk_sle (sle_export e) (sle_entry e) (sle_block_data e) (sle_owner e) (sle_state e) b (sle_ref_count e) (sle_lock e) (sle_type e).
Definition with_owner (o : Z) (e : state_lock_entry_t) : state_lock_entry_t :=
  mk_sle (sle_export e) (sle_entry e) (sle_block_data e) o (sle_state e) (sle_blocked e) (sle_ref_count e) (sle_lock e) (sle_type e).
Definition with_refs (n : Z) (e : state_lock_entry_t) : state_lock_entry_t :=
  mk_sle (sle_export e) (sle_entry e) (sle_block_data e) (sle_owner e) (sle_state e) (sle_blocked e) n (sle_lock e) (sle_type e).
Definition with_block (b : Z) (e : state_lock_entry_t) : state_lock_entry_t :=
  mk_sle (sle_export e) (sle_entry e) b (sle_owner e) (sle_state e) (sle_blocked e) (sle_ref_count e) (sle_lock e) (sle_type e).

Definition block_at (x : Z) : M state state_block_data_t := s ← get; need (blocks s !! x).
Definition change_block (x : Z) (f : state_block_data_t -> state_block_data_t) : M state unit :=
  b ← block_at x; on (fun s => set_blocks (<[x := f b]> (blocks s)) s).

(** ** Lists *)

Definition glist (l : lid) (s : state) : list Z := default [] (gl s !! l).

Definition glist_init (l : lid) : M state unit := on (fun s => set_gl (<[l := []]> (gl s)) s).
Definition glist_empty (l : lid) : M state bool := s ← get; mret (match glist l s with [] => true | _ => false end).
Definition glist_add_tail (l : lid) (x : Z) : M state unit := on (fun s => set_gl (<[l := glist l s ++ [x]]> (gl s)) s).

(** [glist_del] of a link that only one list uses, and of [sle_list], which can be on several lists in turn. *)
Definition glist_del_from (l : lid) (x : Z) : M state unit :=
  on (fun s => set_gl (<[l := filter (fun y => y <> x) (glist l s)]> (gl s)) s).
Definition glist_del (x : Z) : M state unit :=
  on (fun s => set_gl (map_imap (fun l xs => Some (if by_sle_list l then filter (fun y => y <> x) xs else xs)) (gl s)) s).

(** [glist_add_list_tail(list, ne)]. *)
Definition glist_add_list_tail (l ne : lid) : M state unit :=
  on (fun s => set_gl (<[ne := []]> (<[l := glist l s ++ glist ne s]> (gl s))) s).

(** The element after [x], [Some None] at the end; [None] when [x] is not on the list. *)
Fixpoint next_of (x : Z) (l : list Z) : option (option Z) :=
  match l with
  | [] => None
  | y :: l => if y =? x then Some (head l) else next_of x l
  end.

(** [glist_for_each_safe]: the next element is read before the body. The body has an accumulator, and a result
    that says whether the loop goes on. *)
Fixpoint walk {A} (n : nat) (l : lid) (body : A -> Z -> M state (A * bool)) (a : A) (cur : option Z) : M state A :=
  match cur with
  | None => mret a
  | Some x =>
      match n with
      | O => fun _ => Ok None
      | S n =>
          s ← get;
          next ← need (next_of x (glist l s));
          '(a, go) ← body a x;
          if go : bool then walk n l body a next else mret a
      end
  end.

Context (fuel : nat).

Definition glist_for_each_safe {A} (l : lid) (body : A -> Z -> M state (A * bool)) (a : A) : M state A :=
  s ← get; walk fuel l body a (head (glist l s)).

(** ** Memory and reference counts *)

Definition gsh_malloc : M state Z := fun s =>
  match supply s with [] => done (0, s) | x :: r => done (x, set_supply r s) end.

Definition inc_state_owner_ref (owner : Z) : M state unit :=
  s ← get; n ← need (refs s !! owner); on (fun s => set_refs (<[owner := n + 1]> (refs s)) s).

(** The owner is freed with its last reference. *)
Definition dec_state_owner_ref (owner : Z) : M state unit :=
  s ← get;
  n ← need (refs s !! owner);
  if negb (n - 1 =? 0) then _ ← check (0 <? n - 1); on (fun s => set_refs (<[owner := n - 1]> (refs s)) s)
  else
  _ ← check (negb (bool_decide (so_type (own owner) = STATE_LOCK_OWNER_UNKNOWN)));
  on (fun s => set_refs (delete owner (refs s)) s).

Definition file_at (entry : Z) : M state file := s ← get; need (files s !! entry).

(** The count of pins is an [int32_t] that the code never tests for overflow; it is kept as a number without
    bound here, which agrees as long as a file has fewer than 2^31 pins. *)
Definition cache_inode_inc_pin_ref (entry : Z) : M state cache_inode_status_t :=
  f ← file_at entry;
  if cleanup f then mret CACHE_INODE_DEAD_ENTRY
  else
  _ ← on (fun s => set_files (<[entry := mk_file (regular f) (pin_refcnt f + 1) (cleanup f)]> (files s)) s);
  mret CACHE_INODE_SUCCESS.

Definition cache_inode_dec_pin_ref (entry : Z) : M state unit :=
  f ← file_at entry; on (fun s => set_files (<[entry := mk_file (regular f) (pin_refcnt f - 1) (cleanup f)]> (files s)) s).

(** ** Lock entries *)

Definition create_state_lock_entry (entry export : Z) (blocked : state_blocking_t) (owner st : Z)
    (lock : fsal_lock_param_t) (ty : lock_type_t) : M state Z :=
  x ← gsh_malloc;
  if x =? 0 then mret 0
  else
  _ ← on (fun s => set_les (<[x := mk_sle export entry 0 owner st blocked 1 lock ty]> (les s)) s);
  _ ← glist_add_tail (exp_lock_list export) x;
  _ ← inc_state_owner_ref owner;
  _ ← (if bool_decide (so_type (own owner) = STATE_LOCK_OWNER_NFSV4) && negb (st =? 0)
       then glist_add_tail (state_locklist st) x else mret tt);
  _ ← glist_add_tail (so_lock_list owner) x;
  mret x.

Definition state_lock_entry_t_dup (orig_entry : Z) : M state Z :=
  e ← entry_at orig_entry;
  create_state_lock_entry (sle_entry e) (sle_export e) (sle_blocked e) (sle_owner e) (sle_state e) (sle_lock e) (sle_type e).

Definition lock_entry_inc_ref (x : Z) : M state unit := change_entry x (fun e => with_refs (sle_ref_count e + 1) e).

(** The entry is freed with its last reference, and with it the data of a blocked lock. *)
Definition lock_entry_dec_ref (x : Z) : M state unit :=
  _ ← change_entry x (fun e => with_refs (sle_ref_count e - 1) e);
  e ← entry_at x;
  if negb (sle_ref_count e =? 0) then mret tt
  else
  _ ← (if sle_block_data e =? 0 then mret tt
       else
       _ ← block_at (sle_block_data e);
       _ ← glist_del_from state_blocked_locks (sle_block_data e);
       on (fun s => set_blocks (delete (sle_block_data e) (blocks s)) s));
  on (fun s => set_les (delete x (les s)) s).

Definition remove_from_locklist (x : Z) : M state unit :=
  e ← entry_at x;
  _ ← (if sle_owner e =? 0 then mret tt
       else
       _ ← glist_del_from (exp_lock_list (sle_export e)) x;
       _ ← (if bool_decide (so_type (own (sle_owner e)) = STATE_LOCK_OWNER_NFSV4)
            then glist_del_from (state_locklist (sle_state e)) x else mret tt);
       _ ← glist_del_from (so_lock_list (sle_owner e)) x;
       dec_state_owner_ref (sle_owner e));
  _ ← change_entry x (with_owner 0);
  _ ← glist_del x;
  lock_entry_dec_ref x.

(** ** The list of the locks of a file *)

(** Whether two ranges overlap, as every function tests it. *)
Definition overlaps (l1 l2 : fsal_lock_param_t) : bool := (lock_start l2 <=? lock_end l1) && (lock_start l1 <=? lock_end l2).

Definition is_write (l : fsal_lock_param_t) : bool := bool_decide (lock_type l = FSAL_LOCK_W).

(** The first conflicting lock, or null. *)
Definition get_overlapping_entry (entry owner : Z) (lock : fsal_lock_param_t) : M state Z :=
  glist_for_each_safe (lock_list entry) (fun _ x =>
    e ← entry_at x;
    if bool_decide (sle_blocked e = STATE_NFSV4_BLOCKING) || bool_decide (sle_blocked e = STATE_CANCELED) then mret (0, true)
    else if overlaps (sle_lock e) lock && (is_write (sle_lock e) || is_write lock) && different_owners own (sle_owner e) owner
    then mret (x, false)
    else mret (0, true)) 0.

(** The lock [x], of another type than the new lock, keeps what the new lock leaves of it. *)
Definition merge_shrink (entry x : Z) (lock : fsal_lock_param_t) : M state unit :=
  e ← entry_at x;
  let check_entry_end := lock_end (sle_lock e) in
  let lock_entry_end := lock_end lock in
  let start := lock_start (sle_lock e) in
  right ← (if (lock_entry_end <? check_entry_end) && (start <? lock_start lock)
           then
           right ← state_lock_entry_t_dup x;
           if right =? 0 then mret 0 else _ ← glist_add_tail (lock_list entry) right; mret right
           else mret x);
  if right =? 0 then mret tt
  else
  _ ← (if lock_entry_end <? check_entry_end
       then change_entry right (fun e => with_lock (set_range (u64 (lock_entry_end + 1)) (u64 (check_entry_end - lock_entry_end)) (sle_lock e)) e)
       else mret tt);
  e ← entry_at x;
  if lock_start (sle_lock e) <? lock_start lock
  then change_entry x (fun e => with_lock (set_range (lock_start (sle_lock e)) (u64 (lock_start lock - lock_start (sle_lock e))) (sle_lock e)) e)
  else mret tt.

(** The new lock [lock_entry] grows by the lock [x], which leaves the list. *)
Definition merge_expand (lock_entry x : Z) : M state unit :=
  e ← entry_at x;
  n ← entry_at lock_entry;
  let check_entry_end := lock_end (sle_lock e) in
  let lock_entry_end := Z.max (lock_end (sle_lock n)) check_entry_end in
  let start := Z.min (lock_start (sle_lock n)) (lock_start (sle_lock e)) in
  _ ← change_entry lock_entry (fun n => with_lock (set_range start (u64 (lock_entry_end - start + 1)) (sle_lock n)) n);
  remove_from_locklist x.

Definition merge_lock_entry (entry lock_entry : Z) : M state unit :=
  glist_for_each_safe (lock_list entry) (fun _ x =>
    if x =? lock_entry then mret (tt, true)
    else
    e ← entry_at x;
    n ← entry_at lock_entry;
    if different_owners own (sle_owner e) (sle_owner n) then mret (tt, true)
    else if negb (bool_decide (sle_blocked e = STATE_NON_BLOCKING)) then mret (tt, true)
    else
    let check_entry_end := lock_end (sle_lock e) in
    let lock_entry_end := lock_end (sle_lock n) in
    if u64 (check_entry_end + 1) <? lock_start (sle_lock n) then mret (tt, true)
    else if u64 (lock_entry_end + 1) <? lock_start (sle_lock e) then mret (tt, true)
    else if negb (bool_decide (lock_type (sle_lock e) = lock_type (sle_lock n)))
            && ((lock_entry_end <? check_entry_end) || (lock_start (sle_lock e) <? lock_start (sle_lock n)))
    then _ ← merge_shrink entry x (sle_lock n); mret (tt, true)
    else _ ← merge_expand lock_entry x; mret (tt, true)) tt.

Definition free_list (l : lid) : M state unit :=
  glist_for_each_safe l (fun _ x => _ ← remove_from_locklist x; mret (tt, true)) tt.

(** A copy of [found_entry] with another range, at the end of [split_lock_list]; whether there was memory for it. *)
Definition split_off (found_entry start length : Z) : M state bool :=
  x ← state_lock_entry_t_dup found_entry;
  if x =? 0 then _ ← free_list split_lock_list; mret false
  else
  _ ← change_entry x (fun e => with_lock (set_range start length (sle_lock e)) e);
  _ ← glist_add_tail split_lock_list x;
  mret true.

(** The status and [*removed]. *)
Definition subtract_lock_from_entry (found_entry : Z) (lock : fsal_lock_param_t) : M state (state_status_t * bool) :=
  e ← entry_at found_entry;
  let start := lock_start (sle_lock e) in
  let found_entry_end := lock_end (sle_lock e) in
  let range_end := lock_end lock in
  if range_end <? start then mret (STATE_SUCCESS, false)
  else if found_entry_end <? lock_start lock then mret (STATE_SUCCESS, false)
  else
  let complete_remove := _ ← glist_del found_entry; _ ← glist_add_tail remove_list found_entry; mret (STATE_SUCCESS, true) in
  if (lock_start lock <=? start) && (found_entry_end <=? range_end) then complete_remove
  else
  left ← (if start <? lock_start lock then split_off found_entry start (u64 (lock_start lock - start)) else mret true);
  if negb left then mret (STATE_MALLOC_ERROR, false)
  else
  right ← (if range_end <? found_entry_end
           then split_off found_entry (u64 (range_end + 1)) (u64 (found_entry_end - range_end)) else mret true);
  if negb right then mret (STATE_MALLOC_ERROR, false)
  else complete_remove.

(** [*removed]. *)
Definition subtract_deleg_from_list (owner : Z) (l : lid) : M state bool :=
  glist_for_each_safe l (fun removed x =>
    e ← entry_at x;
    if negb (owner =? 0) && different_owners own (sle_owner e) owner then mret (removed, true)
    else match sle_type e with
         | LEASE_LOCK => _ ← glist_del x; mret (true, true)
         | _ => mret (removed, true)
         end) false.

(** The status and [*removed]. *)
Definition subtract_lock_from_list (owner st : Z) (lock : fsal_lock_param_t) (l : lid) : M state (state_status_t * bool) :=
  _ ← glist_init split_lock_list;
  _ ← glist_init remove_list;
  '(status, removed) ← glist_for_each_safe l (fun '(status, removed) x =>
    e ← entry_at x;
    if negb (owner =? 0) && different_owners own (sle_owner e) owner then mret ((status, removed), true)
    else if negb (bool_decide (sle_blocked e = STATE_NON_BLOCKING)) then mret ((status, removed), true)
    else if negb (st =? 0) && (sle_state e =? st) then mret ((status, removed), true)
    else
    '(status, removed_one) ← subtract_lock_from_entry x lock;
    mret ((status, removed || removed_one), success status)) (STATE_SUCCESS, false);
  _ ← (if success status
       then _ ← free_list remove_list; glist_add_list_tail l split_lock_list
       else glist_for_each_safe remove_list (fun _ x => _ ← glist_del x; _ ← glist_add_tail l x; mret (tt, true)) tt);
  mret (status, removed).

Definition subtract_list_from_list (target source : lid) : M state state_status_t :=
  glist_for_each_safe source (fun _ x =>
    e ← entry_at x;
    '(status, _) ← subtract_lock_from_list 0 0 (sle_lock e) target;
    mret (status, success status)) STATE_SUCCESS.

(** ** The file system below *)

(** The locks of the file system, which knows no owners, are released where no lock of the file is left. *)
Definition do_unlock_no_owner (entry : Z) (lock : fsal_lock_param_t) (ty : lock_type_t) : M state state_status_t :=
  s ← get;
  unlock_entry ← create_state_lock_entry entry (ctx_export s) STATE_NON_BLOCKING unknown_owner 0 lock ty;
  if unlock_entry =? 0 then mret STATE_MALLOC_ERROR
  else
  _ ← glist_init fsal_unlock_list;
  _ ← glist_add_tail fsal_unlock_list unlock_entry;
  status ← subtract_list_from_list fsal_unlock_list (lock_list entry);
  glist_for_each_safe fsal_unlock_list (fun status x =>
    e ← entry_at x;
    '(major, _) ← call (lock_op entry 0 FSAL_OP_UNLOCK (sle_lock e));
    _ ← match major with ERR_FSAL_STALE => call (fun k => (tt, cache_inode_kill_entry entry k)) | _ => mret tt end;
    let t_status := state_error_convert major in
    _ ← remove_from_locklist x;
    mret (if success t_status then status else t_status, true)) status.

Definition is_op (x y : fsal_lock_op_t) : bool :=
  match x, y with
  | FSAL_OP_LOCKT, FSAL_OP_LOCKT | FSAL_OP_LOCK, FSAL_OP_LOCK | FSAL_OP_LOCKB, FSAL_OP_LOCKB
  | FSAL_OP_UNLOCK, FSAL_OP_UNLOCK | FSAL_OP_CANCEL, FSAL_OP_CANCEL => true
  | _, _ => false
  end.

(** A description of all zeros. *)
Definition no_conflict : fsal_lock_param_t := mk_lock POSIX_LOCK FSAL_LOCK_R 0 0 false.

(** The status, and what is stored in [*holder] and [*conflict]; [ask]: whether these are asked for. *)
Definition do_lock_op (entry : Z) (op : fsal_lock_op_t) (owner : Z) (lock : fsal_lock_param_t) (ask overlap : bool)
    (ty : lock_type_t) : M state (state_status_t * option (Z * fsal_lock_param_t)) :=
  let lock := set_sle_type ty lock in
  s ← get;
  let sup := supports (ctx_export s) in
  if negb (sup fso_lock_support)
     || (negb (sup fso_lock_support_async_block) && is_op op FSAL_OP_CANCEL)
     || (negb (sup fso_lock_support_async_block) && overlap)
     || (negb (sup fso_lock_support_owner) && overlap)
  then mret (STATE_SUCCESS, None)
  else
  '(status, conflicting_lock) ←
    (if sup fso_lock_support_owner || negb (is_op op FSAL_OP_UNLOCK) then
       let op := if is_op op FSAL_OP_LOCKB && negb (sup fso_lock_support_async_block) then FSAL_OP_LOCK else op in
       '(major, c) ← call (lock_op entry (if sup fso_lock_support_owner then owner else 0) op lock);
       let status := state_error_convert major in
       mret (match status with STATE_LOCK_BLOCKED => if is_op op FSAL_OP_LOCKB then status else STATE_FSAL_ERROR | _ => status end, c)
     else if bool_decide (so_type (own owner) = STATE_LOCK_OWNER_9P) then mret (STATE_SUCCESS, no_conflict)
     else status ← do_unlock_no_owner entry lock ty; mret (status, no_conflict));
  match status with
  | STATE_LOCK_CONFLICT =>
      if ask then _ ← inc_state_owner_ref unknown_owner; mret (status, Some (unknown_owner, conflicting_lock))
      else mret (status, None)
  | _ => mret (status, None)
  end.

(** [do_lock_op] on the lock of an entry, whose type it sets. *)
Definition do_entry_op (entry : Z) (op : fsal_lock_op_t) (x : Z) : M state state_status_t :=
  e ← entry_at x;
  _ ← change_entry x (fun e => with_lock (set_sle_type POSIX_LOCK (sle_lock e)) e);
  '(status, _) ← do_lock_op entry op (sle_owner e) (sle_lock e) false false POSIX_LOCK;
  mret status.

(** What [copy_conflict] stores. *)
Definition copy_conflict (found_entry : Z) : M state (option (Z * fsal_lock_param_t)) :=
  if found_entry =? 0 then mret None
  else
  e ← entry_at found_entry;
  _ ← inc_state_owner_ref (sle_owner e);
  mret (Some (sle_owner e, sle_lock e)).

(** ** Blocked locks *)

Definition with_cookie (c : Z) (b : state_block_data_t) : state_block_data_t :=
  mk_block (sbd_grant_type b) (sbd_granted_callback b) c (sbd_lock_entry b).
Definition with_grant (g : state_grant_type_t) (b : state_block_data_t) : state_block_data_t :=
  mk_block g (sbd_granted_callback b) (sbd_blocked_cookie b) (sbd_lock_entry b).
Definition with_entry (x : Z) (b : state_block_data_t) : state_block_data_t :=
  mk_block (sbd_grant_type b) (sbd_granted_callback b) (sbd_blocked_cookie b) x.

Definition cookie_at (c : Z) : M state state_cookie_entry_t := s ← get; need (cookies s !! c).

Definition free_cookie (c : Z) (unblock : bool) : M state unit :=
  ce ← cookie_at c;
  _ ← (if negb (sce_lock_entry ce =? 0) && unblock then
         e ← entry_at (sce_lock_entry ce);
         _ ← (if sle_block_data e =? 0 then mret tt else change_block (sle_block_data e) (with_cookie 0));
         lock_entry_dec_ref (sce_lock_entry ce)
       else mret tt);
  on (fun s => set_cookies (delete c (cookies s)) (ht_lock_cookies s) s).

(** The status and [*cookie_entry]; the cookie is null when it is empty. *)
Definition state_add_grant_cookie (entry : Z) (cookie : string) (lock_entry : Z) : M state (state_status_t * Z) :=
  e ← entry_at lock_entry;
  if (sle_block_data e =? 0) || String.eqb cookie EmptyString then mret (STATE_INCONSISTENT_ENTRY, 0)
  else
  c ← gsh_malloc;
  if c =? 0 then mret (STATE_MALLOC_ERROR, 0)
  else
  key ← gsh_malloc;
  if key =? 0 then mret (STATE_MALLOC_ERROR, 0)
  else
  s ← get;
  match ht_lock_cookies s !! cookie with
  | Some _ => mret (STATE_HASH_TABLE_ERROR, 0)
  | None =>
      _ ← on (fun s => set_cookies (<[c := mk_cookie entry lock_entry cookie]> (cookies s)) (<[cookie := c]> (ht_lock_cookies s)) s);
      _ ← lock_entry_inc_ref lock_entry;
      _ ← change_block (sle_block_data e) (with_cookie c);
      b ← block_at (sle_block_data e);
      status ← match sbd_grant_type b with
               | STATE_GRANT_NONE => mret STATE_INCONSISTENT_ENTRY
               | STATE_GRANT_FSAL_AVAILABLE => do_entry_op entry FSAL_OP_LOCKB lock_entry
               | STATE_GRANT_INTERNAL => do_entry_op entry FSAL_OP_LOCK lock_entry
               | STATE_GRANT_FSAL => mret STATE_SUCCESS
               end;
      if success status then mret (status, c) else _ ← free_cookie c false; mret (status, 0)
  end.

Definition state_cancel_grant (c : Z) : M state state_status_t :=
  ce ← cookie_at c;
  status ← do_entry_op (sce_entry ce) FSAL_OP_UNLOCK (sce_lock_entry ce);
  _ ← free_cookie c true;
  mret status.

(** The status and the cookie that leaves the table. *)
Definition state_find_grant (cookie : string) : M state (state_status_t * Z) :=
  s ← get;
  match ht_lock_cookies s !! cookie with
  | None => mret (STATE_BAD_COOKIE, 0)
  | Some c => _ ← on (fun s => set_cookies (cookies s) (delete cookie (ht_lock_cookies s)) s); mret (STATE_SUCCESS, c)
  end.

(** The function that tells a client that its lock is granted, by its address. *)
Context (call_back : Z -> Z -> Z -> M state state_status_t).

Definition try_to_grant_lock (x : Z) : M state unit :=
  e ← entry_at x;
  granted ← (if bool_decide (sle_blocked e = STATE_CANCELED) || (sle_block_data e =? 0) then mret false
             else
             b ← block_at (sle_block_data e);
             _ ← change_entry x (with_blocked STATE_GRANTING);
             _ ← match sbd_grant_type b with
                 | STATE_GRANT_NONE => change_block (sle_block_data e) (with_grant STATE_GRANT_INTERNAL)
                 | _ => mret tt
                 end;
             s ← get;
             _ ← on (set_ctx (sle_export e));
             status ← call_back (sbd_granted_callback b) (sle_entry e) x;
             _ ← on (set_ctx (ctx_export s));
             match status with
             | STATE_LOCK_BLOCKED => _ ← change_entry x (with_blocked (sle_blocked e)); mret true
             | STATE_SUCCESS => mret true
             | _ => mret false
             end);
  if granted : bool then mret tt else remove_from_locklist x.

Definition grant_blocked_locks (entry : Z) : M state unit :=
  s ← get;
  if supports (ctx_export s) fso_lock_support_async_block then mret tt
  else
  glist_for_each_safe (lock_list entry) (fun _ x =>
    e ← entry_at x;
    if negb (bool_decide (sle_blocked e = STATE_NFSV4_BLOCKING)) then mret (tt, true)
    else
    found ← get_overlapping_entry entry (sle_owner e) (sle_lock e);
    if negb (found =? 0) then mret (tt, true)
    else _ ← try_to_grant_lock x; mret (tt, true)) tt.

(** The pin of a file whose list has become empty is released. *)
Definition unpin_if_empty (entry : Z) : M state unit :=
  empty ← glist_empty (lock_list entry);
  if empty : bool then cache_inode_dec_pin_ref entry else mret tt.

Definition grant_blocked_lock_immediate (entry x : Z) : M state unit :=
  e ← entry_at x;
  mine ← (if sle_block_data e =? 0 then mret true
          else
          b ← block_at (sle_block_data e);
          if sbd_blocked_cookie b =? 0 then
            _ ← on (fun s => set_blocks (delete (sle_block_data e) (blocks s)) s);
            _ ← change_entry x (with_block 0);
            mret true
          else
          ce ← cookie_at (sbd_blocked_cookie b);
          '(status, c) ← state_find_grant (sce_cookie ce);
          if success status then _ ← free_cookie c true; mret true else mret false);
  if negb mine then mret tt
  else
  _ ← change_entry x (with_blocked STATE_NON_BLOCKING);
  _ ← merge_lock_entry entry x;
  grant_blocked_locks entry.

Definition state_complete_grant (c : Z) : M state unit :=
  ce ← cookie_at c;
  e ← entry_at (sce_lock_entry ce);
  _ ← (if bool_decide (sle_blocked e = STATE_GRANTING) then
         _ ← change_entry (sce_lock_entry ce) (with_blocked STATE_NON_BLOCKING);
         _ ← merge_lock_entry (sce_entry ce) (sce_lock_entry ce);
         grant_blocked_locks (sce_entry ce)
       else mret tt);
  _ ← free_cookie c true;
  unpin_if_empty (sce_entry ce).

Definition process_blocked_lock_upcall (block : Z) : M state unit :=
  b ← block_at block;
  e ← entry_at (sbd_lock_entry b);
  _ ← try_to_grant_lock (sbd_lock_entry b);
  unpin_if_empty (sle_entry e).

Definition cancel_blocked_lock (entry x : Z) : M state unit :=
  _ ← change_entry x (with_blocked STATE_CANCELED);
  e ← entry_at x;
  b ← (if sle_block_data e =? 0 then mret None else b ← block_at (sle_block_data e); mret (Some b));
  go ← match b with
       | Some b =>
           if sbd_blocked_cookie b =? 0 then status ← do_entry_op entry FSAL_OP_CANCEL x; mret (success status)
           else
           ce ← cookie_at (sbd_blocked_cookie b);
           '(status, c) ← state_find_grant (sce_cookie ce);
           _ ← (if success status then free_cookie c true else mret tt);
           mret true
       | None => status ← do_entry_op entry FSAL_OP_CANCEL x; mret (success status)
       end;
  if go : bool then remove_from_locklist x else mret tt.

Definition cancel_blocked_locks_range (entry owner st : Z) (lock : fsal_lock_param_t) : M state unit :=
  glist_for_each_safe (lock_list entry) (fun _ x =>
    e ← entry_at x;
    if negb (owner =? 0) && different_owners own (sle_owner e) owner then mret (tt, true)
    else if negb (st =? 0) && (sle_state e =? st) then mret (tt, true)
    else if bool_decide (sle_blocked e = STATE_NON_BLOCKING) then mret (tt, true)
    else if overlaps (sle_lock e) lock then _ ← cancel_blocked_lock entry x; mret (tt, true)
    else mret (tt, true)) tt.

Definition state_release_grant (c : Z) : M state state_status_t :=
  ce ← cookie_at c;
  e ← entry_at (sce_lock_entry ce);
  status ← (if bool_decide (sle_blocked e = STATE_GRANTING) then
              _ ← change_entry (sce_lock_entry ce) (with_blocked STATE_CANCELED);
              status ← do_entry_op (sce_entry ce) FSAL_OP_UNLOCK (sce_lock_entry ce);
              _ ← (if success status then remove_from_locklist (sce_lock_entry ce) else mret tt);
              mret status
            else mret STATE_SUCCESS);
  _ ← free_cookie c true;
  _ ← grant_blocked_locks (sce_entry ce);
  _ ← unpin_if_empty (sce_entry ce);
  mret status.

(** ** Testing, taking and releasing locks *)

Definition state_test (entry owner : Z) (lock : fsal_lock_param_t) : M state (state_status_t * option (Z * fsal_lock_param_t)) :=
  pinned ← cache_inode_inc_pin_ref entry;
  match pinned with
  | CACHE_INODE_SUCCESS =>
      opened ← call (cache_inode_open entry false false);
      match opened with
      | CACHE_INODE_SUCCESS =>
          found_entry ← get_overlapping_entry entry owner lock;
          r ← (if negb (found_entry =? 0) then c ← copy_conflict found_entry; mret (STATE_LOCK_CONFLICT, c)
               else do_lock_op entry FSAL_OP_LOCKT owner lock true false POSIX_LOCK);
          _ ← cache_inode_dec_pin_ref entry;
          mret r
      | _ => _ ← cache_inode_dec_pin_ref entry; mret (cache_inode_status_to_state_status opened, None)
      end
  | _ => mret (cache_inode_status_to_state_status pinned, None)
  end.

(** The search for the same request among the blocked ones: the status that the operation returns with. *)
Definition find_blocked (entry owner : Z) (blocking : state_blocking_t) (lock : fsal_lock_param_t) : M state (option state_status_t) :=
  s ← get;
  glist_for_each_safe (lock_list entry) (fun _ x =>
    e ← entry_at x;
    if different_owners own (sle_owner e) owner then mret (None, true)
    else if negb (sle_export e =? ctx_export s) then mret (Some STATE_INVALID_ARGUMENT, false)
    else if negb (bool_decide (sle_blocked e = blocking)) then mret (None, true)
    else if different_lock (sle_lock e) lock then mret (None, true)
    else mret (Some STATE_LOCK_BLOCKED, false)) None.

(** The search for conflicting locks and for locks that contain the new one: [allow] and [overlap], the conflict,
    and the status when the operation returns. *)
Record scan := mk_scan { allow : bool; overlap : bool; conflict : option (Z * fsal_lock_param_t); ret : option state_status_t }.

Definition scan_locks (entry owner : Z) (lock : fsal_lock_param_t) : M state scan :=
  s ← get;
  glist_for_each_safe (lock_list entry) (fun a x =>
    e ← entry_at x;
    lease ← (if bool_decide (sle_type e = LEASE_LOCK) && bool_decide (lock_sle_type lock = LEASE_LOCK)
             then _ ← check (negb (sle_owner e =? 0)); mret (so_id (own owner) =? so_id (own (sle_owner e)))
             else mret false);
    if lease : bool then mret (a, true)
    else if negb (sle_export e =? ctx_export s) && negb (different_owners own (sle_owner e) owner)
    then mret (mk_scan (allow a) (overlap a) (conflict a) (Some STATE_INVALID_ARGUMENT), false)
    else if overlaps (sle_lock e) lock && (is_write (sle_lock e) || is_write lock) && different_owners own (sle_owner e) owner
    then c ← copy_conflict x; mret (mk_scan false true c (ret a), false)
    else if (lock_end lock <=? lock_end (sle_lock e)) && (lock_start (sle_lock e) <=? lock_start lock)
            && bool_decide (lock_type (sle_lock e) = lock_type lock)
            && (bool_decide (sle_blocked e = STATE_NON_BLOCKING) || bool_decide (sle_blocked e = STATE_GRANTING))
    then
      if negb (different_owners own (sle_owner e) owner) then
        _ ← (if bool_decide (sle_blocked e = STATE_GRANTING) then grant_blocked_lock_immediate entry x else mret tt);
        mret (mk_scan (allow a) (overlap a) (conflict a) (Some STATE_SUCCESS), false)
      else mret (mk_scan (allow a) true (conflict a) (ret a), true)
    else mret (a, true)) (mk_scan true false None None).

(** The new lock is granted: it goes into the list of delegations, or is merged into the list of locks. *)
Definition insert_granted (entry st x : Z) (ty : lock_type_t) : M state unit :=
  match ty with
  | LEASE_LOCK =>
      _ ← call (fun k => (tt, update_delegation_stats entry st k));
      glist_add_tail (deleg_list entry) x
  | POSIX_LOCK =>
      _ ← merge_lock_entry entry x;
      empty ← glist_empty (lock_list entry);
      _ ← (if empty : bool then _ ← cache_inode_inc_pin_ref entry; mret tt else mret tt);
      _ ← glist_add_tail (lock_list entry) x;
      grant_blocked_locks entry
  end.

(** The new lock is blocked. *)
Definition insert_blocked (entry x : Z) (blocking : state_blocking_t) (block_data : Z) : M state unit :=
  _ ← change_entry x (with_block block_data);
  _ ← change_entry x (with_blocked blocking);
  _ ← change_block block_data (with_entry x);
  empty ← glist_empty (lock_list entry);
  _ ← (if empty : bool then _ ← cache_inode_inc_pin_ref entry; mret tt else mret tt);
  _ ← glist_add_tail (lock_list entry) x;
  _ ← cache_inode_dec_pin_ref entry;
  glist_add_tail state_blocked_locks block_data.

(** [state_lock] from the decision how to proceed on. *)
Definition acquire (entry owner st : Z) (blocking : state_blocking_t) (block_data : Z) (lock : fsal_lock_param_t)
    (ty : lock_type_t) (a : scan) : M state (state_status_t * option (Z * fsal_lock_param_t)) :=
  s ← get;
  let async := supports (ctx_export s) fso_lock_support_async_block in
  if negb async && negb (allow a) then _ ← cache_inode_dec_pin_ref entry; mret (STATE_LOCK_CONFLICT, conflict a)
  else
  let op := if async then FSAL_OP_LOCKB else FSAL_OP_LOCK in
  x ← create_state_lock_entry entry (ctx_export s) STATE_NON_BLOCKING owner st lock ty;
  if x =? 0 then _ ← cache_inode_dec_pin_ref entry; mret (STATE_MALLOC_ERROR, conflict a)
  else
  '(status, c) ← do_lock_op entry op owner lock (allow a) (overlap a) ty;
  let c := match c with Some _ => c | None => conflict a end in
  match status with
  | STATE_SUCCESS => _ ← insert_granted entry st x ty; _ ← cache_inode_dec_pin_ref entry; mret (status, c)
  | STATE_LOCK_BLOCKED => _ ← insert_blocked entry x blocking block_data; mret (status, c)
  | _ => _ ← remove_from_locklist x; _ ← cache_inode_dec_pin_ref entry; mret (status, c)
  end.

Definition state_lock (entry owner st : Z) (blocking : state_blocking_t) (block_data : Z) (lock : fsal_lock_param_t)
    (ty : lock_type_t) : M state (state_status_t * option (Z * fsal_lock_param_t)) :=
  pinned ← cache_inode_inc_pin_ref entry;
  match pinned with
  | CACHE_INODE_SUCCESS =>
      s ← get;
      let rdwr := negb (bool_decide (lock_type lock = FSAL_LOCK_R) && supports (ctx_export s) fso_reopen_method) in
      opened ← call (cache_inode_open entry rdwr (lock_reclaim lock));
      match opened with
      | CACHE_INODE_SUCCESS =>
          r ← (if bool_decide (blocking = STATE_NON_BLOCKING) then mret None else find_blocked entry owner blocking lock);
          match r with
          | Some status => _ ← cache_inode_dec_pin_ref entry; mret (status, None)
          | None =>
              a ← scan_locks entry owner lock;
              match ret a with
              | Some status => _ ← cache_inode_dec_pin_ref entry; mret (status, conflict a)
              | None => acquire entry owner st blocking block_data lock ty a
              end
          end
      | _ => _ ← cache_inode_dec_pin_ref entry; mret (cache_inode_status_to_state_status opened, None)
      end
  | _ => mret (cache_inode_status_to_state_status pinned, None)
  end.

(** [deleg]: whether the state [st] is that of a delegation. *)
Definition state_unlock (entry owner st : Z) (deleg : bool) (lock : fsal_lock_param_t) (ty : lock_type_t) : M state state_status_t :=
  pinned ← cache_inode_inc_pin_ref entry;
  match pinned with
  | CACHE_INODE_SUCCESS =>
      f ← file_at entry;
      if negb (regular f) then mret STATE_BAD_TYPE
      else
      let l := if negb (st =? 0) && deleg then deleg_list entry else lock_list entry in
      empty ← glist_empty l;
      if empty : bool then _ ← cache_inode_dec_pin_ref entry; mret STATE_SUCCESS
      else
      _ ← (if negb (st =? 0) && deleg then _ ← subtract_deleg_from_list owner l; mret tt else mret tt);
      _ ← cancel_blocked_locks_range entry owner st lock;
      '(status, _) ← subtract_lock_from_list owner st lock (lock_list entry);
      _ ← unpin_if_empty entry;
      if negb (success status) then _ ← cache_inode_dec_pin_ref entry; mret status
      else
      '(status, _) ← do_lock_op entry FSAL_OP_UNLOCK owner lock false false ty;
      _ ← grant_blocked_locks entry;
      _ ← cache_inode_dec_pin_ref entry;
      mret status
  | _ => mret (cache_inode_status_to_state_status pinned)
  end.

Definition state_cancel (entry owner : Z) (lock : fsal_lock_param_t) : M state state_status_t :=
  f ← file_at entry;
  if negb (regular f) then mret STATE_BAD_TYPE
  else
  pinned ← cache_inode_inc_pin_ref entry;
  match pinned with
  | CACHE_INODE_SUCCESS =>
      empty ← glist_empty (lock_list entry);
      if empty : bool then _ ← cache_inode_dec_pin_ref entry; mret STATE_SUCCESS
      else
      _ ← glist_for_each_safe (lock_list entry) (fun _ x =>
            e ← entry_at x;
            if different_owners own (sle_owner e) owner then mret (tt, true)
            else if bool_decide (sle_blocked e = STATE_NON_BLOCKING) then mret (tt, true)
            else if different_lock (sle_lock e) lock then mret (tt, true)
            else _ ← cancel_blocked_lock entry x; _ ← grant_blocked_locks entry; mret (tt, false)) tt;
      _ ← unpin_if_empty entry;
      _ ← cache_inode_dec_pin_ref entry;
      mret STATE_SUCCESS
  | _ => mret (cache_inode_status_to_state_status pinned)
  end.

(** A lock on the whole file; the fields that the code leaves as they are do not matter for a release. *)
Definition whole_file : fsal_lock_param_t := mk_lock POSIX_LOCK FSAL_LOCK_R 0 0 false.

Definition STATE_ERR_MAX : Z := 100.

(** The release of all locks of an owner: the rounds of the loop, with the number of errors and the last status. *)
Fixpoint owner_unlock_loop (n : nat) (owner st : Z) (deleg : bool) (errcnt : Z) (status : state_status_t) : M state state_status_t :=
  match n with
  | O => fun _ => Ok None
  | S n =>
      if STATE_ERR_MAX <=? errcnt then mret status
      else
      s ← get;
      match head (glist (so_lock_list owner) s) with
      | None => mret status
      | Some x =>
          e ← entry_at x;
          if negb (sle_state e =? st) then mret status
          else
          _ ← lock_entry_inc_ref x;
          _ ← glist_del_from (so_lock_list owner) x;
          _ ← glist_add_tail (so_lock_list owner) x;
          _ ← on (set_ctx (sle_export e));
          _ ← lock_entry_dec_ref x;
          status ← state_unlock (sle_entry e) owner st deleg whole_file POSIX_LOCK;
          owner_unlock_loop n owner st deleg (if state_unlock_err_ok status then errcnt else errcnt + 1) status
      end
  end.

Definition state_owner_unlock_all (n : nat) (owner st : Z) (deleg : bool) : M state state_status_t :=
  s ← get;
  status ← owner_unlock_loop n owner st deleg 0 STATE_SUCCESS;
  _ ← on (set_ctx (ctx_export s));
  mret status.

(** The release of all locks of an export; [delegs] tells the states that are delegations. *)
Fixpoint state_export_unlock_all (n : nat) (delegs : Z -> bool) (errcnt : Z) : M state unit :=
  match n with
  | O => fun _ => Ok None
  | S n =>
      if STATE_ERR_MAX <=? errcnt then mret tt
      else
      s ← get;
      match head (glist (exp_lock_list (ctx_export s)) s) with
      | None => mret tt
      | Some x =>
          _ ← lock_entry_inc_ref x;
          _ ← glist_del_from (exp_lock_list (ctx_export s)) x;
          _ ← glist_add_tail (exp_lock_list (ctx_export s)) x;
          e ← entry_at x;
          _ ← lock_entry_dec_ref x;
          status ← state_unlock (sle_entry e) (sle_owner e) (sle_state e) (delegs (sle_state e)) whole_file (sle_type e);
          state_export_unlock_all n delegs (if state_unlock_err_ok status then errcnt else errcnt + 1)
      end
  end.

(** An upcall of the file system about a blocked lock; [schedule] hands it to a thread. Not finding the lock is fatal. *)
Definition find_blocked_lock_upcall (schedule : Z -> K -> bool * K) (entry owner : Z) (lock : fsal_lock_param_t)
    (grant_type : state_grant_type_t) : M state unit :=
  found ← glist_for_each_safe state_blocked_locks (fun _ x =>
    b ← block_at x;
    if sbd_lock_entry b =? 0 then mret (false, true)
    else
    e ← entry_at (sbd_lock_entry b);
    if negb (sle_entry e =? entry) || negb (sle_owner e =? owner) || different_lock (sle_lock e) lock then mret (false, true)
    else
    _ ← glist_del_from state_blocked_locks x;
    _ ← change_block x (with_grant grant_type);
    _ ← call (schedule x);
    mret (true, false)) false;
  if found : bool then mret tt else stop.

Definition state_lock_wipe (entry : Z) : M state unit :=
  empty ← glist_empty (lock_list entry);
  if empty : bool then mret tt else _ ← free_list (lock_list entry); cache_inode_dec_pin_ref entry.

End locks.

End Locks.
