(* ===== verification/LockBook.v ===== *)
(** Lock entries and the lists they are on. Module [LockBook]. The invariant [book]: every entry is on one list of
    locks at most, has one reference, and its owner has a reference for each of its entries; creating and removing
    entries keep it. [walk_step] and [walk_search] are the rules of the loops over lists. *)

From S2P Require Import Prelude StateTypes StateLock.
Import Sal Locks.
Local Open Scope Z_scope.

Module LockBook.

(** ** Loops *)

Lemma next_of_mid x A B : x ∉ A -> next_of x (A ++ x :: B) = Some (head B).
Proof.
  induction A as [|y A IH]; intros Hx; cbn; [by rewrite Z.eqb_refl|].
  rewrite (proj2 (Z.eqb_neq y x)) by set_solver. apply IH. set_solver.
Qed.

(** ** Counting *)

(** The number of entries of an owner. *)
Definition count (o : Z) (m : gmap Z state_lock_entry_t) : nat := size (filter (fun p => sle_owner (snd p) = o) m).

Lemma count_new o m x e : m !! x = None -> count o (<[x := e]> m) = ((if decide (sle_owner e = o) then 1 else 0) + count o m)%nat.
Proof.
  intros Hx. unfold count. destruct (decide (sle_owner e = o)).
  - rewrite map_filter_insert_True by done. apply map_size_insert_None. by apply map_lookup_filter_None_2; left.
  - rewrite map_filter_insert_not'; [done | done|]. intros y Hy. by rewrite Hx in Hy.
Qed.

Lemma count_delete o m x e : m !! x = Some e -> count o m = ((if decide (sle_owner e = o) then 1 else 0) + count o (delete x m))%nat.
Proof. intros Hx. rewrite <- (insert_delete_id m x e) at 1 by done. apply count_new, lookup_delete_eq. Qed.

Lemma count_update o m x e e' : m !! x = Some e -> sle_owner e' = sle_owner e -> count o (<[x := e']> m) = count o m.
Proof.
  intros Hx Ho. rewrite (count_delete o m x e Hx), (count_delete o (<[x := e']> m) x e') by apply lookup_insert_eq.
  by rewrite delete_insert_eq, Ho.
Qed.

Section loops.
Context {K : Type}.
Notation state := (@state K).

Lemma get_run (s : state) {A} (k : state -> M state A) : (s ← get; k s) s = k s s.
Proof. done. Qed.

Lemma entry_at_ok (s : state) x e : les s !! x = Some e -> entry_at x s = done (e, s).
Proof. intros H. unfold entry_at. rewrite get_run, H. done. Qed.

Lemma change_entry_ok (s : state) x e f : les s !! x = Some e -> change_entry x f s = done (tt, set_les (<[x := f e]> (les s)) s).
Proof. intros H. unfold change_entry. by rewrite (bind_done _ _ _ _ _ (entry_at_ok s x e H)). Qed.

Lemma walk_step {A} n l (body : A -> Z -> M state (A * bool)) a x s X Y : glist l s = X ++ x :: Y -> x ∉ X ->
  walk (S n) l body a (Some x) s = ('(a, go) ← body a x; if go : bool then walk n l body a (head Y) else mret a) s.
Proof.
  intros E Hx. cbn [walk]. rewrite get_run, E, next_of_mid by done.
  unfold need. by rewrite (bind_done (mret (head Y)) _ s (head Y) s).
Qed.

(** A loop whose body only looks: what it computes. *)
Fixpoint search {A} (f : A -> Z -> A * bool) (a : A) (l : list Z) : A :=
  match l with
  | [] => a
  | x :: l => let '(a, go) := f a x in if go : bool then search f a l else a
  end.

Lemma walk_search_from {A} l (body : A -> Z -> M state (A * bool)) f s : forall Y n X a, glist l s = X ++ Y -> NoDup (X ++ Y) ->
  (forall a x, x ∈ Y -> body a x s = done (f a x, s)) -> (length Y <= n)%nat -> walk n l body a (head Y) s = done (search f a Y, s).
Proof.
  induction Y as [|x Y IH]; intros n X a E Hnd Hb Hn; [destruct n; done|]. destruct n as [|n]; [cbn in Hn; lia|].
  assert (x ∉ X) as Hx. { apply NoDup_app in Hnd as (_ & Hd & _). intros Hx. by apply (Hd x Hx); left. }
  cbn [head]. rewrite (walk_step n l body a x s X Y E Hx), (bind_done _ _ _ _ _ (Hb a x ltac:(by left))). cbn [search].
  destruct (f a x) as [a' [|]]; [|done]. apply (IH n (X ++ [x])); [by rewrite <- app_assoc | by rewrite <- app_assoc | | cbn in Hn; lia].
  intros a'' y Hy. apply Hb. by right.
Qed.

Lemma walk_search {A} fuel l (body : A -> Z -> M state (A * bool)) f s a : NoDup (glist l s) ->
  (forall a x, x ∈ glist l s -> body a x s = done (f a x, s)) -> (length (glist l s) <= fuel)%nat ->
  glist_for_each_safe fuel l body a s = done (search f a (glist l s), s).
Proof. intros Hnd Hb Hf. unfold glist_for_each_safe. rewrite get_run. by apply (walk_search_from l body f s (glist l s) fuel []). Qed.

Lemma for_each_run {A} fuel l (body : A -> Z -> M state (A * bool)) a s Y r : glist l s = Y ->
  walk fuel l body a (head Y) s = r -> glist_for_each_safe fuel l body a s = r.
Proof. intros <- <-. done. Qed.

(** A search that finds nothing goes through the list and keeps its accumulator. *)
Lemma search_nothing {A} (f : A -> Z -> A * bool) a l : (forall x, x ∈ l -> f a x = (a, true)) -> search f a l = a.
Proof. induction l as [|x l IH]; intros H; [done|]. cbn. rewrite (H x) by (by left). apply IH. intros y Hy. apply H. by right. Qed.

(** ** Lists *)

Lemma glist_set l x (s : state) l' : glist l (set_gl (<[l' := x]> (gl s)) s) = if decide (l' = l) then x else glist l s.
Proof. unfold glist. cbn. destruct (decide (l' = l)) as [->|]; [by rewrite lookup_insert_eq | by rewrite lookup_insert_ne]. Qed.

Lemma glist_unlink l x (s : state) :
  glist l (set_gl (map_imap (fun l xs => Some (if by_sle_list l then filter (fun y => y <> x) xs else xs)) (gl s)) s)
  = if by_sle_list l then filter (fun y => y <> x) (glist l s) else glist l s.
Proof. unfold glist. cbn. rewrite map_lookup_imap. destruct (gl s !! l); cbn; by destruct (by_sle_list l). Qed.

(** ** The invariant *)

Definition users (s : state) (o : Z) : nat := count o (les s).

(** Someone else than the entries has a reference to the owner. *)
Definition alive (s : state) (o : Z) : Prop := exists n, refs s !! o = Some n /\ Z.of_nat (users s o) < n.

Context (own : Z -> state_owner_t).

Record book (s : state) : Prop := {
  book_entry : forall x e, les s !! x = Some e -> x <> 0 /\ sle_ref_count e = 1 /\ sle_block_data e = 0 /\ sle_owner e <> 0;
  book_fresh : NoDup (filter (fun x => x <> 0) (supply s)) /\ forall x, x ∈ supply s -> les s !! x = None;
  book_owner : forall o, (0 < users s o)%nat -> exists n, refs s !! o = Some n /\ Z.of_nat (users s o) <= n;
  book_unknown : forall o, so_type (own o) = STATE_LOCK_OWNER_UNKNOWN -> (0 < users s o)%nat -> alive s o;
  book_lists : forall l, by_sle_list l = true -> NoDup (glist l s) /\ forall x, x ∈ glist l s -> is_Some (les s !! x);
  book_one : forall l1 l2 x, by_sle_list l1 = true -> by_sle_list l2 = true -> x ∈ glist l1 s -> x ∈ glist l2 s -> l1 = l2 }.

(** What operations on lists do not change. *)
Record kept (s s' : state) : Prop := {
  kept_files : files s' = files s; kept_ctx : ctx_export s' = ctx_export s; kept_fsal : fsal s' = fsal s;
  kept_alive : forall o, alive s o -> alive s' o }.

#[export] Instance kept_preorder : PreOrder kept.
Proof.
  split; [by intros s; split|]. intros s1 s2 s3 [F1 C1 K1 A1] [F2 C2 K2 A2].
  split; [congruence | congruence | congruence | auto].
Qed.

(** The locks on a list, in their order. *)
Definition view (l : lid) (s : state) : list state_lock_entry_t := omap (fun x => les s !! x) (glist l s).

(** ** Removing an entry *)

Lemma dec_ref_ok (s : state) o n : refs s !! o = Some n -> 1 <= n -> (n = 1 -> so_type (own o) <> STATE_LOCK_OWNER_UNKNOWN) ->
  dec_state_owner_ref own o s = done (tt, set_refs (if n =? 1 then delete o (refs s) else <[o := n - 1]> (refs s)) s).
Proof.
  intros Hn H1 Hu. unfold dec_state_owner_ref. rewrite get_run, Hn. unfold need. rewrite (bind_done (mret n) _ s n s) by done.
  destruct (Z.eqb_spec n 1) as [->|Hne].
  - cbn. by rewrite bool_decide_eq_false_2 by auto.
  - rewrite (proj2 (Z.eqb_neq (n - 1) 0)) by lia. cbn [negb]. by rewrite (proj2 (Z.ltb_lt 0 (n - 1))) by lia.
Qed.

Lemma dec_entry_ok (s : state) x e : les s !! x = Some e -> sle_ref_count e = 1 -> sle_block_data e = 0 ->
  lock_entry_dec_ref x s = done (tt, set_les (delete x (les s)) s).
Proof.
  intros He H1 H2. unfold lock_entry_dec_ref. rewrite (bind_done _ _ _ _ _ (change_entry_ok s x e _ He)).
  erewrite bind_done by (apply entry_at_ok, lookup_insert_eq). cbn [sle_ref_count with_refs sle_block_data]. rewrite H1, H2.
  change (done (tt, set_les (delete x (<[x := with_refs 0 e]> (les s))) s) = done (tt, set_les (delete x (les s)) s)).
  by rewrite delete_insert_eq.
Qed.

(** The state after [remove_from_locklist]. *)
Definition removed (x : Z) (e : state_lock_entry_t) (n : Z) (s : state) : state :=
  let o := sle_owner e in
  let s := set_gl (<[exp_lock_list (sle_export e) := filter (fun y => y <> x) (glist (exp_lock_list (sle_export e)) s)]> (gl s)) s in
  let s := if bool_decide (so_type (own o) = STATE_LOCK_OWNER_NFSV4)
           then set_gl (<[state_locklist (sle_state e) := filter (fun y => y <> x) (glist (state_locklist (sle_state e)) s)]> (gl s)) s else s in
  let s := set_gl (<[so_lock_list o := filter (fun y => y <> x) (glist (so_lock_list o) s)]> (gl s)) s in
  let s := set_refs (if n =? 1 then delete o (refs s) else <[o := n - 1]> (refs s)) s in
  let s := set_gl (map_imap (fun l xs => Some (if by_sle_list l then filter (fun y => y <> x) xs else xs)) (gl s)) s in
  set_les (delete x (les s)) s.

Lemma remove_run (s : state) x e n : les s !! x = Some e -> sle_ref_count e = 1 -> sle_block_data e = 0 -> sle_owner e <> 0 ->
  refs s !! sle_owner e = Some n -> 1 <= n -> (n = 1 -> so_type (own (sle_owner e)) <> STATE_LOCK_OWNER_UNKNOWN) ->
  remove_from_locklist own x s = done (tt, removed x e n s).
Proof.
  intros He H1 H2 H3 Hn Hn1 Hu. unfold remove_from_locklist. rewrite (bind_done _ _ _ _ _ (entry_at_ok s x e He)).
  rewrite (proj2 (Z.eqb_neq _ _) H3). unfold removed.
  destruct (bool_decide _).
  all: erewrite (bind_done _ _ s tt);
    [|erewrite bind_done by reflexivity; erewrite bind_done by reflexivity; erewrite bind_done by reflexivity; by apply dec_ref_ok].
  all: erewrite bind_done by (apply change_entry_ok; exact He).
  all: erewrite bind_done by reflexivity.
  all: rewrite (dec_entry_ok _ x (with_owner 0 e)) by first [apply lookup_insert_eq | done].
  all: unfold set_les, set_refs, set_gl; cbn [les gl refs supply blocks cookies ht_lock_cookies files ctx_export fsal]; by rewrite delete_insert_eq.
Qed.

Lemma removed_fields x e n (s : state) : les (removed x e n s) = delete x (les s) /\ supply (removed x e n s) = supply s
  /\ files (removed x e n s) = files s /\ ctx_export (removed x e n s) = ctx_export s /\ fsal (removed x e n s) = fsal s
  /\ refs (removed x e n s) = if n =? 1 then delete (sle_owner e) (refs s) else <[sle_owner e := n - 1]> (refs s).
Proof. unfold removed. by destruct (bool_decide _). Qed.

Lemma removed_glist x e n (s : state) l : by_sle_list l = true -> glist l (removed x e n s) = filter (fun y => y <> x) (glist l s).
Proof.
  intros Hl. unfold removed. change (glist l (set_les ?m ?s)) with (glist l s). rewrite glist_unlink, Hl. f_equal.
  change (glist l (set_refs ?m ?s)) with (glist l s). rewrite glist_set, decide_False by (by intros <-).
  destruct (bool_decide _); [rewrite glist_set, decide_False by (by intros <-)|]; by rewrite glist_set, decide_False by (by intros <-).
Qed.

(** What an operation does that removes the entry [x]. *)
Record drops (x : Z) (s s' : state) : Prop := {
  drops_book : book s'; drops_kept : kept s s'; drops_les : les s' = delete x (les s); drops_supply : supply s' = supply s;
  drops_list : forall l, by_sle_list l = true -> glist l s' = filter (fun y => y <> x) (glist l s) }.

Lemma removed_book x e n (s : state) : book s -> les s !! x = Some e -> refs s !! sle_owner e = Some n ->
  Z.of_nat (users s (sle_owner e)) <= n -> drops x s (removed x e n s).
Proof.
  intros [B1 [B2 B3] B4 B5 B6 B7] He Hn Hle. destruct (removed_fields x e n s) as (F1 & F2 & F3 & F4 & F5 & F6).
  assert (forall o, users s o = ((if decide (sle_owner e = o) then 1 else 0) + users (removed x e n s) o)%nat) as Hu.
  { intros o. unfold users. rewrite F1. by apply count_delete. }
  pose proof (Hu (sle_owner e)) as Huo. rewrite decide_True in Huo by done.
  assert (forall o, sle_owner e <> o -> refs (removed x e n s) !! o = refs s !! o) as Hro.
  { intros o Ho. rewrite F6. destruct (n =? 1); [by rewrite lookup_delete_ne | by rewrite lookup_insert_ne]. }
  assert (forall o, alive s o -> alive (removed x e n s) o) as Ha.
  { intros o (m & Hm & Hlt). specialize (Hu o). destruct (decide (sle_owner e = o)) as [<-|Ho].
    - exists (n - 1). rewrite F6. assert (m = n) as -> by congruence. rewrite (proj2 (Z.eqb_neq n 1)) by lia.
      rewrite lookup_insert_eq. split; [done | lia].
    - exists m. rewrite Hro by done. split; [done | lia]. }
  split; [| |done | done | intros l Hl; by apply removed_glist].
  - split.
    + intros y f Hy. rewrite F1 in Hy. apply lookup_delete_Some in Hy as [_ Hy]. by apply B1 in Hy.
    + rewrite F1, F2. split; [done|]. intros y Hy. rewrite lookup_delete_None. right. by apply B3.
    + intros o Ho. specialize (Hu o). destruct (decide (sle_owner e = o)) as [<-|Hne].
      * exists (n - 1). rewrite F6, (proj2 (Z.eqb_neq n 1)) by lia. rewrite lookup_insert_eq. split; [done | lia].
      * rewrite Hro by done. destruct (B4 o) as (m & Hm & Hle'); [lia|]. exists m. split; [done | lia].
    + intros o Ht Ho. apply Ha, B5; [done|]. specialize (Hu o). destruct (decide _); lia.
    + intros l Hl. rewrite removed_glist, F1 by done. destruct (B6 l Hl) as [Hnd Hin]. split; [by apply NoDup_filter|].
      intros y [Hy Hy']%list_elem_of_filter. rewrite lookup_delete_ne by done. by apply Hin.
    + intros l1 l2 y H1 H2. rewrite !removed_glist by done. intros [_ Hy1]%list_elem_of_filter [_ Hy2]%list_elem_of_filter.
      by apply (B7 l1 l2 y).
  - by split.
Qed.

Lemma drop_ok (s : state) x e : book s -> les s !! x = Some e ->
  exists s', remove_from_locklist own x s = done (tt, s') /\ drops x s s'.
Proof.
  intros Hb He. destruct (book_entry _ Hb x e He) as (_ & H1 & H2 & H3).
  assert (0 < users s (sle_owner e))%nat as Hu by (unfold users; rewrite (count_delete _ _ _ _ He), decide_True by done; lia).
  destruct (book_owner _ Hb _ Hu) as (n & Hn & Hle). exists (removed x e n s). split; [|by apply removed_book].
  apply remove_run; [done | done | done | done | done | lia |]. intros -> Ht.
  destruct (book_unknown _ Hb _ Ht Hu) as (m & Hm & Hlt). assert (m = 1) as -> by congruence. lia.
Qed.

(** ** Creating an entry *)

(** The owner can get another entry. *)
Definition owned (s : state) (o : Z) : Prop :=
  exists n, refs s !! o = Some n /\ Z.of_nat (users s o) <= n /\ (so_type (own o) = STATE_LOCK_OWNER_UNKNOWN -> alive s o).

Lemma owned_alive (s : state) o : alive s o -> owned s o.
Proof. intros (n & Hn & Hlt). exists n. split; [done|]. split; [lia|]. intros _. by exists n. Qed.

Lemma owned_user (s : state) x e : book s -> les s !! x = Some e -> owned s (sle_owner e).
Proof.
  intros Hb He. assert (0 < users s (sle_owner e))%nat as Hu by (unfold users; rewrite (count_delete _ _ _ _ He), decide_True by done; lia).
  destruct (book_owner _ Hb _ Hu) as (n & Hn & Hle). exists n. split; [done|]. split; [done|]. intros Ht. by apply (book_unknown _ Hb).
Qed.

(** What an operation does that makes an entry [e] at the address [x], the first of the supply. *)
Record adds (x : Z) (e : state_lock_entry_t) (s s' : state) : Prop := {
  adds_book : book s'; adds_kept : kept s s'; adds_les : les s' = <[x := e]> (les s); adds_new : les s !! x = None;
  adds_supply : supply s = x :: supply s'; adds_list : forall l, by_sle_list l = true -> glist l s' = glist l s }.

(** The state after [create_state_lock_entry]. *)
Definition created (x : Z) (r : list Z) (e : state_lock_entry_t) (n : Z) (s : state) : state :=
  let o := sle_owner e in
  let s := set_les (<[x := e]> (les s)) (set_supply r s) in
  let s := set_gl (<[exp_lock_list (sle_export e) := glist (exp_lock_list (sle_export e)) s ++ [x]]> (gl s)) s in
  let s := set_refs (<[o := n + 1]> (refs s)) s in
  let s := if bool_decide (so_type (own o) = STATE_LOCK_OWNER_NFSV4) && negb (sle_state e =? 0)
           then set_gl (<[state_locklist (sle_state e) := glist (state_locklist (sle_state e)) s ++ [x]]> (gl s)) s else s in
  set_gl (<[so_lock_list o := glist (so_lock_list o) s ++ [x]]> (gl s)) s.

Lemma create_run (s : state) x r entry export blocked owner st lock ty n : supply s = x :: r -> x <> 0 -> refs s !! owner = Some n ->
  create_state_lock_entry own entry export blocked owner st lock ty s
  = done (x, created x r (mk_sle export entry 0 owner st blocked 1 lock ty) n s).
Proof.
  intros Hs Hx Hn. unfold create_state_lock_entry. rewrite (bind_done gsh_malloc _ s x (set_supply r s)) by (unfold gsh_malloc; by rewrite Hs).
  rewrite (proj2 (Z.eqb_neq x 0) Hx). erewrite bind_done by reflexivity. erewrite bind_done by reflexivity.
  erewrite bind_done.
  2: { unfold inc_state_owner_ref. rewrite get_run. cbn [refs set_gl set_les set_supply]. rewrite Hn. reflexivity. }
  unfold created. cbn [sle_owner sle_export sle_state]. by destruct (bool_decide _ && _).
Qed.

Lemma created_fields x r e n (s : state) : les (created x r e n s) = <[x := e]> (les s) /\ supply (created x r e n s) = r
  /\ files (created x r e n s) = files s /\ ctx_export (created x r e n s) = ctx_export s /\ fsal (created x r e n s) = fsal s
  /\ refs (created x r e n s) = <[sle_owner e := n + 1]> (refs s).
Proof. unfold created. by destruct (bool_decide _ && _). Qed.

Lemma created_glist x r e n (s : state) l : by_sle_list l = true -> glist l (created x r e n s) = glist l s.
Proof.
  intros Hl. unfold created. rewrite glist_set, decide_False by (by intros <-).
  destruct (bool_decide _ && _); [rewrite glist_set, decide_False by (by intros <-)|].
  all: change (glist l (set_refs ?m ?s)) with (glist l s); rewrite glist_set, decide_False by (by intros <-); done.
Qed.

Lemma created_book x r e n (s : state) : book s -> supply s = x :: r -> x <> 0 -> sle_ref_count e = 1 -> sle_block_data e = 0 -> sle_owner e <> 0 ->
  refs s !! sle_owner e = Some n -> Z.of_nat (users s (sle_owner e)) <= n ->
  (so_type (own (sle_owner e)) = STATE_LOCK_OWNER_UNKNOWN -> alive s (sle_owner e)) -> adds x e s (created x r e n s).
Proof.
  intros [B1 [B2 B3] B4 B5 B6 B7] Hs Hx E1 E2 E3 Hn Hle Hun. destruct (created_fields x r e n s) as (F1 & F2 & F3 & F4 & F5 & F6).
  assert (les s !! x = None) as Hnew by (apply B3; rewrite Hs; by left).
  assert (forall o, users (created x r e n s) o = ((if decide (sle_owner e = o) then 1 else 0) + users s o)%nat) as Hu.
  { intros o. unfold users. rewrite F1. by apply count_new. }
  assert (forall o, alive s o -> alive (created x r e n s) o) as Ha.
  { intros o (m & Hm & Hlt). unfold alive. rewrite Hu, F6. destruct (decide (sle_owner e = o)) as [<-|Ho].
    - exists (n + 1). rewrite lookup_insert_eq. assert (m = n) as -> by congruence. split; [done | lia].
    - exists m. rewrite lookup_insert_ne by done. split; [done | lia]. }
  split; [| by split | done | done | by rewrite F2 | intros l Hl; by apply created_glist].
  rewrite Hs, filter_cons, decide_True in B2 by done. apply NoDup_cons in B2 as [Hnx Hnd]. split.
  - intros y f. rewrite F1. destruct (decide (x = y)) as [<-|Hne]; [rewrite lookup_insert_eq; by intros [= <-]|].
    rewrite lookup_insert_ne by done. apply B1.
  - rewrite F1, F2. split; [done|]. intros y Hy. rewrite lookup_insert_ne; [apply B3; rewrite Hs; by right|].
    intros <-. apply Hnx. by apply list_elem_of_filter.
  - intros o. rewrite Hu, F6. destruct (decide (sle_owner e = o)) as [<-|Ho]; intros Hpos.
    + exists (n + 1). rewrite lookup_insert_eq. split; [done | lia].
    + rewrite lookup_insert_ne by done. by apply B4.
  - intros o Ht. rewrite Hu. destruct (decide (sle_owner e = o)) as [<-|Ho]; intros Hpos; apply Ha; [by apply Hun | by apply B5].
  - intros l Hl. rewrite created_glist, F1 by done. destruct (B6 l Hl) as [Hnd' Hin]. split; [done|]. intros y Hy.
    rewrite lookup_insert_ne; [by apply Hin|]. intros <-. destruct (Hin x Hy) as [f Hf]. congruence.
  - intros l1 l2 y H1 H2. rewrite !created_glist by done. by apply B7.
Qed.

Lemma create_ok (s : state) x r entry export blocked owner st lock ty : book s -> supply s = x :: r -> x <> 0 -> owner <> 0 -> owned s owner ->
  exists s', create_state_lock_entry own entry export blocked owner st lock ty s = done (x, s')
  /\ adds x (mk_sle export entry 0 owner st blocked 1 lock ty) s s'.
Proof.
  intros Hb Hs Hx Ho (n & Hn & Hle & Hu). eexists. split; [by eapply create_run | by apply created_book].
Qed.

(** Without memory nothing is made. *)
Definition no_memory (s : state) : Prop := supply s = [] \/ exists r, supply s = 0 :: r.

Lemma create_fails (s : state) entry export blocked owner st lock ty : no_memory s ->
  create_state_lock_entry own entry export blocked owner st lock ty s = done (0, set_supply (tail (supply s)) s).
Proof.
  intros [Hs|[r Hs]]; unfold create_state_lock_entry, gsh_malloc, mbind, M_bind, fbind; rewrite Hs; [|done]. cbn. by destruct s; cbn in *; subst.
Qed.

Lemma dup_ok (s : state) x r y e : book s -> supply s = x :: r -> x <> 0 -> les s !! y = Some e ->
  exists s', state_lock_entry_t_dup own y s = done (x, s') /\ adds x e s s'.
Proof.
  intros Hb Hs Hx He. unfold state_lock_entry_t_dup. rewrite (bind_done _ _ _ _ _ (entry_at_ok s y e He)).
  destruct (book_entry _ Hb y e He) as (_ & H1 & H2 & H3).
  destruct (create_ok s x r (sle_entry e) (sle_export e) (sle_blocked e) (sle_owner e) (sle_state e) (sle_lock e) (sle_type e) Hb Hs Hx H3
    (owned_user s y e Hb He)) as (s' & E & Ha). exists s'. split; [done|]. destruct e; cbn in *. by rewrite H1, H2.
Qed.

(** ** Changing entries and lists *)

(** The invariant depends on the owners of the entries only, and on the lists. *)
Lemma book_change (s s' : state) : book s -> supply s' = supply s -> refs s' = refs s ->
  (forall y, (exists e e', les s !! y = Some e /\ les s' !! y = Some e' /\ sle_owner e' = sle_owner e /\ sle_ref_count e' = sle_ref_count e
               /\ sle_block_data e' = sle_block_data e) \/ (les s !! y = None /\ les s' !! y = None)) ->
  (forall o, users s' o = users s o) ->
  (forall l, by_sle_list l = true -> NoDup (glist l s') /\ forall x, x ∈ glist l s' -> is_Some (les s !! x)) ->
  (forall l1 l2 x, by_sle_list l1 = true -> by_sle_list l2 = true -> x ∈ glist l1 s' -> x ∈ glist l2 s' -> l1 = l2) -> book s'.
Proof.
  intros [B1 [B2 B3] B4 B5 B6 B7] Hs Hr Hl Hu HL H1. split; [..|done].
  - intros y f Hf. destruct (Hl y) as [(e & e' & He & He' & E1 & E2 & E3)|[_ Hn]]; [|congruence].
    assert (e' = f) as -> by congruence. rewrite E1, E2, E3. by apply B1.
  - rewrite Hs. split; [done|]. intros y Hy. destruct (Hl y) as [(e & e' & He & _)|[_ Hn]]; [|done]. rewrite B3 in He; done.
  - intros o. rewrite Hu, Hr. apply B4.
  - intros o Ht. rewrite Hu. intros Ho. destruct (B5 o Ht Ho) as (n & Hn & Hlt). exists n. by rewrite Hr, Hu.
  - intros l Hl'. destruct (HL l Hl') as [Hnd Hin]. split; [done|]. intros x Hx. apply Hin in Hx as [e He].
    destruct (Hl x) as [(e1 & e' & _ & He' & _)|[Hn _]]; [by exists e' | congruence].
Qed.

Lemma book_update (s : state) x e f : book s -> les s !! x = Some e -> (forall e, sle_owner (f e) = sle_owner e) ->
  (forall e, sle_ref_count (f e) = sle_ref_count e) -> (forall e, sle_block_data (f e) = sle_block_data e) ->
  book (set_les (<[x := f e]> (les s)) s) /\ kept s (set_les (<[x := f e]> (les s)) s).
Proof.
  intros Hb He H1 H2 H3. assert (forall o, users (set_les (<[x := f e]> (les s)) s) o = users s o) as Hu.
  { intros o. unfold users. cbn. by apply (count_update o (les s) x e). }
  split.
  - eapply (book_change s); [done | done | done | | done | apply (book_lists _ Hb) | apply (book_one _ Hb)].
    intros y. cbn. destruct (decide (x = y)) as [<-|Hne].
    + left. exists e, (f e). rewrite lookup_insert_eq. by rewrite H1, H2, H3.
    + rewrite lookup_insert_ne by done. destruct (les s !! y) as [g|]; [left; by exists g, g | by right].
  - split; [done | done | done|]. intros o (n & Hn & Hlt). exists n. by rewrite Hu.
Qed.

(** Changing the lists only. *)
Lemma book_relink (s : state) g : book s ->
  (forall l, by_sle_list l = true -> NoDup (glist l (set_gl g s)) /\ forall x, x ∈ glist l (set_gl g s) -> is_Some (les s !! x)) ->
  (forall l1 l2 x, by_sle_list l1 = true -> by_sle_list l2 = true -> x ∈ glist l1 (set_gl g s) -> x ∈ glist l2 (set_gl g s) -> l1 = l2) ->
  book (set_gl g s) /\ kept s (set_gl g s).
Proof.
  intros Hb H1 H2. split; [|by split]. eapply (book_change s); [done | done | done | | done | done | done].
  intros y. cbn. destruct (les s !! y) as [e|]; [left; by exists e, e | by right].
Qed.

(** An entry that is on no list. *)
Definition off (s : state) (x : Z) : Prop := forall l, by_sle_list l = true -> x ∉ glist l s.

Lemma off_new (s : state) x : book s -> les s !! x = None -> off s x.
Proof. intros Hb Hx l Hl Hin. destruct (proj2 (book_lists _ Hb l Hl) x Hin) as [e He]. congruence. Qed.

Lemma add_tail_book (s : state) l x e : book s -> by_sle_list l = true -> les s !! x = Some e -> off s x ->
  book (set_gl (<[l := glist l s ++ [x]]> (gl s)) s) /\ kept s (set_gl (<[l := glist l s ++ [x]]> (gl s)) s).
Proof.
  intros Hb Hl He Hx. apply book_relink; [done|..].
  - intros l' Hl'. rewrite glist_set. destruct (book_lists _ Hb l' Hl') as [Hnd Hin]. destruct (decide (l = l')) as [<-|]; [|done]. split.
    + apply NoDup_app. split; [done|]. split; [|apply NoDup_singleton]. intros y Hy ->%list_elem_of_singleton. by apply (Hx l Hl).
    + intros y [Hy| ->%list_elem_of_singleton]%elem_of_app; [by apply Hin | by eexists].
  - intros l1 l2 y H1 H2. rewrite !glist_set. pose proof (book_one _ Hb) as H7.
    destruct (decide (l = l1)) as [<-|Hn1], (decide (l = l2)) as [<-|Hn2]; [done | | | by apply H7].
    + intros [Hy| ->%list_elem_of_singleton]%elem_of_app Hy2; [by apply (H7 _ _ y) | by destruct (Hx l2)].
    + intros Hy1 [Hy| ->%list_elem_of_singleton]%elem_of_app; [by apply (H7 _ _ y) | by destruct (Hx l1)].
Qed.

Definition unlinked (x : Z) (s : state) : state :=
  set_gl (map_imap (fun l xs => Some (if by_sle_list l then filter (fun y => y <> x) xs else xs)) (gl s)) s.

Lemma unlinked_glist x (s : state) l : by_sle_list l = true -> glist l (unlinked x s) = filter (fun y => y <> x) (glist l s).
Proof. intros Hl. unfold unlinked. by rewrite glist_unlink, Hl. Qed.

Lemma unlinked_book (s : state) x : book s -> book (unlinked x s) /\ kept s (unlinked x s) /\ off (unlinked x s) x.
Proof.
  intros Hb. destruct (book_relink s (map_imap (fun l xs => Some (if by_sle_list l then filter (fun y => y <> x) xs else xs)) (gl s)) Hb) as [H1 H2].
  - intros l Hl. fold (unlinked x s). rewrite unlinked_glist by done. destruct (book_lists _ Hb l Hl) as [Hnd Hin].
    split; [by apply NoDup_filter|]. intros y [_ Hy]%list_elem_of_filter. by apply Hin.
  - intros l1 l2 y Hl1 Hl2. fold (unlinked x s). rewrite !unlinked_glist by done.
    intros [_ Hy1]%list_elem_of_filter [_ Hy2]%list_elem_of_filter. by apply (book_one _ Hb l1 l2 y).
  - split; [done|]. split; [done|]. intros l Hl. rewrite unlinked_glist by done. by intros [? _]%list_elem_of_filter.
Qed.

End loops.

End LockBook.
