(* ===== verification/LockSubtract.v ===== *)
(** Subtracting a range from the locks of a list, [subtract_lock_from_list]. Module [LockSubtract]. The locks that are
    left, in their order, are [subtract_spec], when there is memory for the parts. *)

From S2P Require Import Prelude StateTypes StateLock LockBook.
Import Sal Locks LockBook.
Local Open Scope Z_scope.

Module LockSubtract.

(** ** What is left *)

(** The parts of a lock outside a range. *)
Definition pieces (lock : fsal_lock_param_t) (e : state_lock_entry_t) : list state_lock_entry_t :=
  let start := lock_start (sle_lock e) in
  let found_end := lock_end (sle_lock e) in
  (if start <? lock_start lock then [with_lock (set_range start (u64 (lock_start lock - start)) (sle_lock e)) e] else [])
  ++ (if lock_end lock <? found_end
      then [with_lock (set_range (u64 (lock_end lock + 1)) (u64 (found_end - lock_end lock)) (sle_lock e)) e] else []).

Section subtract.
Context {K : Type} (own : Z -> state_owner_t).
Notation state := (@state K).

(** The locks that a request for [owner], null for all, is about: granted ones that are not of the state [st]. *)
Definition target (owner st : Z) (e : state_lock_entry_t) : bool :=
  ((owner =? 0) || negb (different_owners own (sle_owner e) owner)) && bool_decide (sle_blocked e = STATE_NON_BLOCKING)
  && negb (negb (st =? 0) && (sle_state e =? st)).

Definition touched (owner st : Z) (lock : fsal_lock_param_t) (e : state_lock_entry_t) : bool :=
  target owner st e && overlaps (sle_lock e) lock.

Definition subtract_spec (owner st : Z) (lock : fsal_lock_param_t) (es : list state_lock_entry_t) : list state_lock_entry_t :=
  List.filter (fun e => negb (touched owner st lock e)) es ++ flat_map (pieces lock) (List.filter (touched owner st lock) es).

(** There is memory for [n] entries. *)
Definition memory (n : nat) (s : state) : Prop := (n <= length (supply s))%nat /\ Forall (fun x => x <> 0) (take n (supply s)).

Lemma memory_S n (s : state) : memory (S n) s -> exists x r, supply s = x :: r /\ x <> 0 /\ (n <= length r)%nat /\ Forall (fun x => x <> 0) (take n r).
Proof.
  intros [Hl Hf]. destruct (supply s) as [|x r]; cbn in Hl; [lia|]. cbn in Hf. apply Forall_cons in Hf as [Hx Hf]. exists x, r. split_and!; [done | done | lia | done].
Qed.

Lemma memory_le n m (s : state) : (n <= m)%nat -> memory m s -> memory n s.
Proof.
  intros Hnm [Hl Hf]. split; [lia|]. replace n with (n `min` m)%nat by lia. rewrite <- take_take. by apply Forall_take.
Qed.

(** ** One lock *)

(** What the subtraction from an entry has done: [X] are the new entries, with the locks [es]. *)
Record grows (l : lid) (X : list Z) (es : list state_lock_entry_t) (s s' : state) : Prop := {
  gr_book : book own s'; gr_kept : kept s s'; gr_les : les s ⊆ les s'; gr_supply : supply s = X ++ supply s';
  gr_new : Forall2 (fun x e => les s !! x = None /\ les s' !! x = Some e) X es;
  gr_tail : glist l s' = glist l s ++ X; gr_lists : forall l', by_sle_list l' = true -> l' <> l -> glist l' s' = glist l' s }.

Context (fuel : nat).

Lemma split_off_ok (s : state) y e start len x r : book own s -> les s !! y = Some e -> supply s = x :: r -> x <> 0 ->
  exists s', split_off own fuel y start len s = done (true, s')
  /\ grows split_lock_list [x] [with_lock (set_range start len (sle_lock e)) e] s s'.
Proof.
  intros Hb He Hs Hx. destruct (dup_ok own s x r y e Hb Hs Hx He) as (s1 & E1 & [A1 A2 A3 A4 A5 A6]).
  unfold split_off. rewrite (bind_done _ _ _ _ _ E1), (proj2 (Z.eqb_neq _ _) Hx).
  assert (les s1 !! x = Some e) as Hx1 by (by rewrite A3, lookup_insert_eq).
  set (f := fun e => with_lock (set_range start len (sle_lock e)) e).
  rewrite (bind_done _ _ _ _ _ (change_entry_ok s1 x e f Hx1)).
  destruct (book_update own s1 x e f A1 Hx1) as [B1 B2]; [done | done | done|]. set (s2 := set_les _ s1) in *.
  assert (off s2 x) as Hoff.
  { intros l Hl. change (glist l s2) with (glist l s1). rewrite A6 by done. by apply (off_new own s). }
  destruct (add_tail_book own s2 split_lock_list x (f e) B1 eq_refl) as [C1 C2]; [cbn; by rewrite lookup_insert_eq | done|].
  eexists. split; [by erewrite bind_done by reflexivity|]. split.
  - done.
  - transitivity s1; [done|]. by transitivity s2.
  - cbn. rewrite A3. rewrite insert_insert_eq. by apply insert_subseteq.
  - done.
  - constructor; [|done]. split; [done|]. cbn. by rewrite lookup_insert_eq.
  - rewrite glist_set, decide_True by done. change (glist split_lock_list s2) with (glist split_lock_list s1). by rewrite A6.
  - intros l' Hl' Hne. rewrite glist_set, decide_False by done. change (glist l' s2) with (glist l' s1). by rewrite A6.
Qed.

Lemma grows_nil l (s : state) : book own s -> grows l [] [] s s.
Proof. intros Hb. split; try done. by rewrite app_nil_r. Qed.

Lemma grows_app l X1 es1 X2 es2 (s s1 s2 : state) : grows l X1 es1 s s1 -> grows l X2 es2 s1 s2 -> grows l (X1 ++ X2) (es1 ++ es2) s s2.
Proof.
  intros [A1 A2 A3 A4 A5 A6 A7] [B1 B2 B3 B4 B5 B6 B7]. split.
  - done.
  - by transitivity s1.
  - by transitivity (les s1).
  - by rewrite A4, B4, app_assoc.
  - apply Forall2_app.
    + eapply Forall2_impl; [exact A5|]. intros x e [H1 H2]. split; [done|]. by eapply lookup_weaken.
    + eapply Forall2_impl; [exact B5|]. intros x e [H1 H2]. split; [|done]. by eapply lookup_weaken_None.
  - by rewrite B6, A6, app_assoc.
  - intros l' H1 H2. by rewrite B7, A7.
Qed.

Lemma split_if_ok (b : bool) (s : state) y e start len : book own s -> les s !! y = Some e -> memory 1 s ->
  exists s' X, (if b then split_off own fuel y start len else mret true) s = done (true, s')
  /\ grows split_lock_list X (if b then [with_lock (set_range start len (sle_lock e)) e] else []) s s' /\ (length X <= 1)%nat.
Proof.
  intros Hb He (x & r & Hs & Hx & _)%memory_S. destruct b.
  - destruct (split_off_ok s y e start len x r Hb He Hs Hx) as (s' & E & G). exists s', [x]. split; [done|]. by split.
  - exists s, []. split; [done|]. split; [by apply grows_nil | cbn; lia].
Qed.

(** What the subtraction from the entry [x] has done, with new entries [X] of the locks [es]. *)
Record cuts (x : Z) (X : list Z) (es : list state_lock_entry_t) (s s' : state) : Prop := {
  cu_book : book own s'; cu_kept : kept s s'; cu_les : les s ⊆ les s'; cu_supply : supply s = X ++ supply s';
  cu_new : Forall2 (fun x e => les s !! x = None /\ les s' !! x = Some e) X es;
  cu_split : glist split_lock_list s' = filter (fun y => y <> x) (glist split_lock_list s) ++ X;
  cu_remove : glist remove_list s' = filter (fun y => y <> x) (glist remove_list s) ++ [x];
  cu_lists : forall l', by_sle_list l' = true -> l' <> split_lock_list -> l' <> remove_list ->
    glist l' s' = filter (fun y => y <> x) (glist l' s) }.

Lemma filter_ne_id (x : Z) (l : list Z) : x ∉ l -> filter (fun y => y <> x) l = l.
Proof. intros Hx. apply filter_all, Forall_forall. intros y Hy ->. done. Qed.

(** The entry [x] goes to [remove_list] after its parts were made. *)
Lemma cut_out (s s1 : state) x e X es : les s !! x = Some e -> grows split_lock_list X es s s1 ->
  exists s', (_ ← glist_del x; _ ← glist_add_tail remove_list x; mret (STATE_SUCCESS, true)) s1 = done ((STATE_SUCCESS, true), s') /\ cuts x X es s s'.
Proof.
  intros He [A1 A2 A3 A4 A5 A6 A7]. destruct (unlinked_book own s1 x A1) as (B1 & B2 & B3).
  assert (les (unlinked x s1) !! x = Some e) as Hx by (by eapply lookup_weaken).
  destruct (add_tail_book own (unlinked x s1) remove_list x e B1 eq_refl Hx B3) as [C1 C2].
  exists (set_gl (<[remove_list := glist remove_list (unlinked x s1) ++ [x]]> (gl (unlinked x s1))) (unlinked x s1)). split; [done|].
  assert (x ∉ X) as HX.
  { intros Hx'. destruct (proj1 (list_elem_of_lookup _ _) Hx') as [i Hi]. destruct (Forall2_lookup_l _ _ _ _ _ A5 Hi) as (f & _ & Hf & _). congruence. }
  split; [done | | done | done | done | | |].
  - transitivity s1; [done|]. by transitivity (unlinked x s1).
  - rewrite glist_set, decide_False by done. rewrite unlinked_glist, A6, filter_app by done. by rewrite (filter_ne_id x X).
  - rewrite glist_set, decide_True by done. rewrite unlinked_glist by done. by rewrite A7.
  - intros l' G1 G2 G3. rewrite glist_set, decide_False by done. rewrite unlinked_glist by done. by rewrite A7.
Qed.

Lemma subtract_hit (s : state) x e lock : book own s -> les s !! x = Some e -> overlaps (sle_lock e) lock = true -> memory 2 s ->
  exists s' X, subtract_lock_from_entry own fuel x lock s = done ((STATE_SUCCESS, true), s') /\ cuts x X (pieces lock e) s s' /\ (length X <= 2)%nat.
Proof.
  intros Hb He Hov Hm. unfold overlaps in Hov. apply andb_true_iff in Hov as [H1%Z.leb_le H2%Z.leb_le].
  unfold subtract_lock_from_entry. rewrite (bind_done _ _ _ _ _ (entry_at_ok s x e He)).
  rewrite (proj2 (Z.ltb_ge (lock_end lock) _) H2), (proj2 (Z.ltb_ge (lock_end (sle_lock e)) _) H1).
  unfold pieces. destruct (Z.leb_spec (lock_start lock) (lock_start (sle_lock e))) as [Hl|Hl], (Z.leb_spec (lock_end (sle_lock e)) (lock_end lock)) as [Hr|Hr]; cbn [andb].
  1: { rewrite (proj2 (Z.ltb_ge _ _) Hl), (proj2 (Z.ltb_ge _ _) Hr).
       destruct (cut_out s s x e [] [] He (grows_nil _ s Hb)) as (s' & E & C). exists s', []. split; [done|]. split; [done | cbn; lia]. }
  all: destruct (split_if_ok (lock_start (sle_lock e) <? lock_start lock) s x e (lock_start (sle_lock e)) (u64 (lock_start lock - lock_start (sle_lock e)))
         Hb He ltac:(by apply (memory_le 1 2); [lia|])) as (s1 & X1 & E1 & G1 & L1); rewrite (bind_done _ _ _ _ _ E1); cbn [negb].
  all: assert (memory 1 s1) as Hm1.
  1,3,5: destruct Hm as [M1 M2]; rewrite (gr_supply _ _ _ _ _ G1) in M1, M2; split; [rewrite length_app in M1; lia|];
    rewrite take_app in M2; apply Forall_app in M2 as [_ M2]; replace 1%nat with (1 `min` (2 - length X1))%nat by lia;
    rewrite <- take_take; by apply Forall_take.
  all: destruct (split_if_ok (lock_end lock <? lock_end (sle_lock e)) s1 x e (u64 (lock_end lock + 1)) (u64 (lock_end (sle_lock e) - lock_end lock))
         (gr_book _ _ _ _ _ G1) (lookup_weaken _ _ _ _ He (gr_les _ _ _ _ _ G1)) Hm1) as (s2 & X2 & E2 & G2 & L2); rewrite (bind_done _ _ _ _ _ E2); cbn [negb].
  all: destruct (cut_out s s2 x e _ _ He (grows_app _ _ _ _ _ _ _ _ G1 G2)) as (s' & E & C); exists s', (X1 ++ X2).
  all: split; [done|]; split; [done|]; rewrite length_app; lia.
Qed.

Lemma subtract_miss (s : state) x e lock : les s !! x = Some e -> overlaps (sle_lock e) lock = false ->
  subtract_lock_from_entry own fuel x lock s = done ((STATE_SUCCESS, false), s).
Proof.
  intros He Hov. unfold overlaps in Hov. unfold subtract_lock_from_entry. rewrite (bind_done _ _ _ _ _ (entry_at_ok s x e He)).
  destruct (Z.ltb_spec (lock_end lock) (lock_start (sle_lock e))); [done|].
  destruct (Z.ltb_spec (lock_end (sle_lock e)) (lock_start lock)); [done|].
  apply andb_false_iff in Hov as [Hov%Z.leb_gt|Hov%Z.leb_gt]; lia.
Qed.

(** ** The locks of a list *)

Lemma memory_rest n m X (s s' : state) : memory (n + m) s -> supply s = X ++ supply s' -> (length X <= n)%nat -> memory m s'.
Proof.
  intros [M1 M2] Hs HX. rewrite Hs in M1, M2. split; [rewrite length_app in M1; lia|].
  rewrite take_app in M2. apply Forall_app in M2 as [_ M2]. replace m with (m `min` (n + m - length X))%nat by lia.
  rewrite <- take_take. by apply Forall_take.
Qed.

(** What an operation has done that frees the entries [R]. *)
Record frees (R : list Z) (s s' : state) : Prop := {
  fr_book : book own s'; fr_kept : kept s s'; fr_supply : supply s' = supply s;
  fr_gone : forall x, x ∈ R -> les s' !! x = None; fr_rest : forall x, x ∉ R -> les s' !! x = les s !! x;
  fr_lists : forall l, by_sle_list l = true -> glist l s' = filter (fun x => x ∉ R) (glist l s) }.

Lemma free_loop l : by_sle_list l = true -> forall Y n (s : state), book own s -> glist l s = Y -> (length Y <= n)%nat ->
  exists s', walk n l (fun (_ : unit) x => _ ← remove_from_locklist own x; mret (tt, true)) tt (head Y) s = done (tt, s') /\ frees Y s s'.
Proof.
  intros Hl. induction Y as [|x Y IH]; intros n s Hb HL Hn.
  { exists s. split; [by destruct n|]. split; [done | done | done | by intros y ?%not_elem_of_nil | done|]. intros l' _. symmetry. apply filter_all, Forall_true. intros y. apply not_elem_of_nil. }
  destruct n as [|n]; [cbn in Hn; lia|]. destruct (book_lists _ _ Hb l Hl) as [Hnd Hin]. rewrite HL in Hnd, Hin.
  destruct (Hin x) as [e He]; [by left|]. apply NoDup_cons in Hnd as [Hx Hnd].
  cbn [head]. rewrite (walk_step n l _ tt x s [] Y HL) by apply not_elem_of_nil.
  destruct (drop_ok own s x e Hb He) as (s1 & E1 & [D1 D2 D3 D4 D5]).
  rewrite (bind_done _ _ _ _ _ (bind_done _ _ _ _ _ E1)).
  destruct (IH n s1 D1) as (s' & E & [F1 F2 F3 F4 F5 F6]); [|cbn in Hn; lia|].
  { rewrite D5, HL, filter_cons, decide_False by naive_solver. by apply filter_ne_id. }
  exists s'. split; [done|]. split.
  - done.
  - by transitivity s1.
  - by rewrite F3.
  - intros y Hy. destruct (decide (y ∈ Y)) as [|HY]; [by apply F4|]. apply elem_of_cons in Hy as [->|]; [|done].
    rewrite F5 by done. rewrite D3. apply lookup_delete_eq.
  - intros y Hy. rewrite F5 by set_solver. rewrite D3, lookup_delete_ne by set_solver. done.
  - intros l' Hl'. rewrite F6, D5 by done. rewrite list_filter_filter. apply list_filter_iff. set_solver.
Qed.

Lemma free_list_ok l (s : state) : by_sle_list l = true -> book own s -> (length (glist l s) <= fuel)%nat ->
  exists s', free_list own fuel l s = done (tt, s') /\ frees (glist l s) s s'.
Proof. intros Hl Hb Hn. unfold free_list, glist_for_each_safe. rewrite get_run. by apply free_loop. Qed.

Section list.
Context (owner st : Z) (lock : fsal_lock_param_t) (l : lid).

(** The addresses of the locks that are touched. *)
Definition hit_at (s : state) (x : Z) : Prop := exists e, les s !! x = Some e /\ touched owner st lock e = true.

#[global] Instance hit_at_dec s x : Decision (hit_at s x).
Proof.
  destruct (les s !! x) as [e|] eqn:E; [|right; intros (f & Hf & _); congruence].
  destruct (touched owner st lock e) eqn:T; [left; by exists e | right; intros (f & Hf & Ht); congruence].
Defined.

(** The state in the loop: [A] are the locks that stay, [Y] those to come, [R] those taken out and [P] the new ones. *)
Record cutting (s0 : state) (A Y R P : list Z) (s : state) : Prop := {
  ct_book : book own s; ct_kept : kept s0 s; ct_les : les s0 ⊆ les s; ct_list : glist l s = A ++ Y;
  ct_remove : glist remove_list s = R; ct_split : glist split_lock_list s = P; ct_supply : supply s0 = P ++ supply s;
  ct_new : Forall2 (fun x e => les s0 !! x = None /\ les s !! x = Some e) P
    (flat_map (pieces lock) (omap (fun x => les s0 !! x) R));
  ct_lists : forall l', by_sle_list l' = true -> l' <> l -> l' <> split_lock_list -> l' <> remove_list -> glist l' s = glist l' s0 }.

Definition subtract_body : state_status_t * bool -> Z -> M state ((state_status_t * bool) * bool) := fun '(status, removed) x =>
  e ← entry_at x;
  if negb (owner =? 0) && different_owners own (sle_owner e) owner then mret ((status, removed), true)
  else if negb (bool_decide (sle_blocked e = STATE_NON_BLOCKING)) then mret ((status, removed), true)
  else if negb (st =? 0) && (sle_state e =? st) then mret ((status, removed), true)
  else
  '(status, removed_one) ← subtract_lock_from_entry own fuel x lock;
  mret ((status, removed || removed_one), success status).

Lemma subtract_body_target (s : state) x e status b : les s !! x = Some e -> subtract_body (status, b) x s
  = (if target owner st e then '(status, removed_one) ← subtract_lock_from_entry own fuel x lock; mret ((status, b || removed_one), success status)
     else mret ((status, b), true)) s.
Proof.
  intros He. unfold subtract_body. rewrite (bind_done _ _ _ _ _ (entry_at_ok s x e He)). unfold target.
  destruct (owner =? 0), (different_owners own (sle_owner e) owner), (bool_decide _), (negb (st =? 0) && (sle_state e =? st)); done.
Qed.

(** The locks at addresses that are kept. *)
Lemma omap_filter_hit (s0 : state) L : omap (fun x => les s0 !! x) (filter (hit_at s0) L) = List.filter (touched owner st lock) (omap (fun x => les s0 !! x) L)
  /\ omap (fun x => les s0 !! x) (filter (fun x => ~ hit_at s0 x) L) = List.filter (fun e => negb (touched owner st lock e)) (omap (fun x => les s0 !! x) L).
Proof.
  induction L as [|x L [IH1 IH2]]; [done|]. rewrite !filter_cons. cbn [omap list_omap]. destruct (les s0 !! x) as [e|] eqn:E; cbn [List.filter].
  - destruct (touched owner st lock e) eqn:T; cbn [negb].
    + rewrite (decide_True (P := hit_at s0 x)) by (by exists e). rewrite (decide_False (P := ~ hit_at s0 x)) by (intros H; apply H; by exists e).
      cbn [omap list_omap]. by rewrite E, IH1, IH2.
    + assert (~ hit_at s0 x) as Hno by (intros (f & Hf & Ht); congruence).
      rewrite (decide_False (P := hit_at s0 x)), (decide_True (P := ~ hit_at s0 x)) by done. cbn [omap list_omap]. by rewrite E, IH1, IH2.
  - assert (~ hit_at s0 x) as Hno by (intros (f & Hf & Ht); congruence).
    rewrite (decide_False (P := hit_at s0 x)), (decide_True (P := ~ hit_at s0 x)) by done. cbn [omap list_omap]. by rewrite E, IH1, IH2.
Qed.

Context (Hl : by_sle_list l = true) (Hls : l <> split_lock_list) (Hlr : l <> remove_list).

Lemma cutting_cut (s0 s s' : state) A x Y R P X e : cutting s0 A (x :: Y) R P s -> les s0 !! x = Some e -> cuts x X (pieces lock e) s s' -> cutting s0 A Y (R ++ [x]) (P ++ X) s'.
Proof.
  intros [C1 C2 C3 C4 C5 C6 C7 C8 C9] He [U1 U2 U3 U4 U5 U6 U7 U8].
  pose proof (book_one _ _ C1) as H1. pose proof (proj1 (book_lists _ _ C1 l Hl)) as Hnd. rewrite C4 in Hnd.
  assert (x ∈ glist l s) as Hin by (rewrite C4; set_solver).
  assert (x ∉ glist split_lock_list s) as N1 by (intros ?; by apply Hls, (H1 l split_lock_list x)).
  assert (x ∉ glist remove_list s) as N2 by (intros ?; by apply Hlr, (H1 l remove_list x)).
  split.
  - done.
  - by transitivity s.
  - by transitivity (les s).
  - rewrite U8, C4 by done. apply NoDup_app in Hnd as (Hn1 & Hn2 & Hn3). apply NoDup_cons in Hn3 as [Hn3 _].
    rewrite filter_app, filter_cons, decide_False by naive_solver. rewrite !filter_ne_id; [done | done|].
    intros HA. by apply (Hn2 x HA); left.
  - by rewrite U7, filter_ne_id, C5.
  - by rewrite U6, filter_ne_id, C6.
  - by rewrite C7, U4, <- app_assoc.
  - rewrite omap_app, flat_map_app. cbn [omap list_omap]. rewrite He. cbn [flat_map]. rewrite app_nil_r. apply Forall2_app.
    + eapply Forall2_impl; [exact C8|]. intros y f [G1 G2]. split; [done|]. by eapply lookup_weaken.
    + eapply Forall2_impl; [exact U5|]. intros y f [G1 G2]. split; [|done]. by eapply lookup_weaken_None.
  - intros l' G1 G2 G3 G4. rewrite U8, C9 by done. apply filter_ne_id. rewrite <- C9 by done. intros ?. by apply G2, (H1 l' l x).
Qed.

Lemma cutting_step (s0 s : state) A x Y R P e b : cutting s0 A (x :: Y) R P s -> les s0 !! x = Some e -> memory 2 s ->
  exists s' b' X P', subtract_body (STATE_SUCCESS, b) x s = done (((STATE_SUCCESS, b'), true), s')
  /\ supply s = X ++ supply s' /\ (length X <= 2)%nat
  /\ (if touched owner st lock e then cutting s0 A Y (R ++ [x]) P' s' else cutting s0 (A ++ [x]) Y R P' s').
Proof.
  intros C He Hm. pose proof C as [C1 C2 C3 C4 C5 C6 C7 C8 C9].
  assert (les s !! x = Some e) as Hx by (by eapply lookup_weaken). rewrite (subtract_body_target s x e) by done.
  assert (cutting s0 (A ++ [x]) Y R P s) as Hskip by (split; try done; by rewrite <- app_assoc).
  unfold touched. destruct (target owner st e); [|exists s, b, [], P; split_and!; [done | done | cbn; lia | done]].
  destruct (overlaps (sle_lock e) lock) eqn:Hov; cbn [andb].
  2: { rewrite (bind_done _ _ _ _ _ (subtract_miss s x e lock Hx Hov)). exists s, (b || false), [], P. split_and!; [done | done | cbn; lia | done]. }
  destruct (subtract_hit s x e lock C1 Hx Hov Hm) as (s' & X & E & U & HX).
  rewrite (bind_done _ _ _ _ _ E). exists s', (b || true), X, (P ++ X). split; [done|]. split; [apply U|]. split; [done|]. by apply (cutting_cut s0 s s' A x Y R P X e).
Qed.

Lemma cutting_loop (s0 : state) : (forall x, x ∈ glist l s0 -> is_Some (les s0 !! x)) -> forall Y n A R P b s, cutting s0 A Y R P s ->
  (forall x, x ∈ Y -> x ∈ glist l s0) -> (length Y <= n)%nat -> memory (2 * length Y) s ->
  exists s' b' P', walk n l subtract_body (STATE_SUCCESS, b) (head Y) s = done ((STATE_SUCCESS, b'), s')
  /\ cutting s0 (A ++ filter (fun x => ~ hit_at s0 x) Y) [] (R ++ filter (hit_at s0) Y) P' s'.
Proof.
  intros Hin. induction Y as [|x Y IH]; intros n A R P b s C HY Hn Hm; [exists s, b, P; rewrite !app_nil_r; by destruct n|].
  destruct n as [|n]; [cbn in Hn; lia|]. destruct (Hin x) as [e He]; [apply HY; by left|].
  pose proof (ct_list _ _ _ _ _ _ C) as HL. pose proof (proj1 (book_lists _ _ (ct_book _ _ _ _ _ _ C) l Hl)) as Hnd. rewrite HL in Hnd.
  assert (x ∉ A) as HxA. { apply NoDup_app in Hnd as (_ & Hd & _). intros Hx. by apply (Hd x Hx); left. }
  cbn [head]. rewrite (walk_step n l subtract_body _ x s A Y HL HxA).
  destruct (cutting_step s0 s A x Y R P e b C He) as (s1 & b1 & X & P1 & E1 & HX & HlX & C1); [apply (memory_le 2 (2 * S (length Y))); [lia | done]|].
  rewrite (bind_done _ _ _ _ _ E1).
  assert (memory (2 * length Y) s1) as Hm1. { apply (memory_rest 2 _ X s); [|done | done]. by replace (2 + 2 * length Y)%nat with (2 * length (x :: Y))%nat by (cbn; lia). }
  rewrite !filter_cons. destruct (touched owner st lock e) eqn:T.
  - rewrite (decide_True (P := hit_at s0 x)) by (by exists e). rewrite (decide_False (P := ~ hit_at s0 x)) by (intros H; apply H; by exists e).
    destruct (IH n A (R ++ [x]) P1 b1 s1 C1) as (s' & b' & P' & E & C'); [set_solver | cbn in Hn; lia | done|].
    exists s', b', P'. split; [done|]. by rewrite <- app_assoc in C'.
  - assert (~ hit_at s0 x) as Hno by (intros (f & Hf & Ht); congruence).
    rewrite (decide_False (P := hit_at s0 x)), (decide_True (P := ~ hit_at s0 x)) by done.
    destruct (IH n (A ++ [x]) R P1 b1 s1 C1) as (s' & b' & P' & E & C'); [set_solver | cbn in Hn; lia | done|].
    exists s', b', P'. split; [done|]. by rewrite <- app_assoc in C'.
Qed.

End list.

(** ** The result *)

Lemma omap_ext_in (f g : Z -> option state_lock_entry_t) (L : list Z) : (forall x, x ∈ L -> f x = g x) -> omap f L = omap g L.
Proof.
  induction L as [|x L IH]; intros H; [done|]. cbn. rewrite (H x) by (by left). rewrite IH; [done|]. intros y Hy. apply H. by right.
Qed.

Lemma omap_Forall2 (f : Z -> option state_lock_entry_t) (X : list Z) es : Forall2 (fun x e => f x = Some e) X es -> omap f X = es.
Proof. induction 1 as [|x e X es H _ IH]; [done|]. cbn. by rewrite H, IH. Qed.

(** The elements of [ne] are moved to the end of [l]. *)
Definition moved (l ne : lid) (s : state) : state := set_gl (<[ne := []]> (<[l := glist l s ++ glist ne s]> (gl s))) s.

Lemma moved_glist l ne (s : state) l' : glist l' (moved l ne s) = if decide (l' = ne) then [] else if decide (l' = l) then glist l s ++ glist ne s else glist l' s.
Proof.
  unfold moved, glist. cbn. destruct (decide (l' = ne)) as [->|]; [by rewrite lookup_insert_eq|]. rewrite lookup_insert_ne by done.
  destruct (decide (l' = l)) as [->|]; [by rewrite lookup_insert_eq | by rewrite lookup_insert_ne].
Qed.

Lemma moved_book l ne (s : state) : book own s -> by_sle_list l = true -> by_sle_list ne = true -> l <> ne -> book own (moved l ne s) /\ kept s (moved l ne s).
Proof.
  intros Hb Hl Hn Hne. pose proof (book_one _ _ Hb) as H1. pose proof (book_lists _ _ Hb) as H2. apply book_relink; [done|..].
  - intros l' Hl'. fold (moved l ne s). rewrite moved_glist. destruct (decide (l' = ne)); [split; [apply NoDup_nil_2 | by intros x ?%not_elem_of_nil]|].
    destruct (decide (l' = l)) as [->|]; [|by apply H2]. destruct (H2 l Hl) as [N1 I1], (H2 ne Hn) as [N2 I2]. split.
    + apply NoDup_app. split; [done|]. split; [|done]. intros x Hx Hx'. by apply Hne, (H1 l ne x).
    + intros x [Hx|Hx]%elem_of_app; [by apply I1 | by apply I2].
  - intros l1 l2 x Hl1 Hl2. fold (moved l ne s). rewrite !moved_glist.
    destruct (decide (l1 = ne)); [by intros ?%not_elem_of_nil|]. destruct (decide (l2 = ne)); [by intros _ ?%not_elem_of_nil|].
    destruct (decide (l1 = l)) as [->|], (decide (l2 = l)) as [->|]; [done | | | by apply H1].
    + intros [Hx|Hx]%elem_of_app Hx2; [by apply (H1 l l2 x)|]. by destruct (H1 ne l2 x).
    + intros Hx1 [Hx|Hx]%elem_of_app; [by apply (H1 l1 l x)|]. by destruct (H1 ne l1 x).
Qed.

Lemma pieces_length lock es : (length (flat_map (pieces lock) es) <= 2 * length es)%nat.
Proof.
  induction es as [|e es IH]; [done|]. cbn [flat_map length]. rewrite length_app.
  assert (length (pieces lock e) <= 2)%nat by (unfold pieces; destruct (_ <? _), (_ <? _); cbn; lia). lia.
Qed.

Lemma length_omap_le (f : Z -> option state_lock_entry_t) (L : list Z) : (length (omap f L) <= length L)%nat.
Proof. induction L as [|x L IH]; [done|]. cbn. destruct (f x); cbn; lia. Qed.

(** The local lists are not in use. *)
Definition idle (s : state) : Prop := glist split_lock_list s = [] /\ glist remove_list s = [].

(** What an operation has done to the locks of the list [l], with at most [n] new entries. *)
Record changes (l : lid) (n : nat) (es : list state_lock_entry_t) (s s' : state) : Prop := {
  ch_book : book own s'; ch_kept : kept s s'; ch_idle : idle s'; ch_view : view l s' = es;
  ch_others : forall l', by_sle_list l' = true -> l' <> l -> view l' s' = view l' s;
  ch_supply : exists X, supply s = X ++ supply s' /\ (length X <= n)%nat }.

Lemma idle_init (s : state) : book own s -> idle s -> exists s1, (forall A (k : M state A), (_ ← glist_init split_lock_list; _ ← glist_init remove_list; k) s = k s1)
  /\ book own s1 /\ kept s s1 /\ les s1 = les s /\ supply s1 = supply s /\ forall l, glist l s1 = glist l s.
Proof.
  intros Hb [H1 H2]. set (s1 := set_gl (<[remove_list := []]> (<[split_lock_list := []]> (gl s))) s). exists s1.
  assert (forall l, glist l s1 = glist l s) as HL.
  { intros l. unfold s1, glist. cbn. destruct (decide (l = remove_list)) as [->|]; [by rewrite lookup_insert_eq; unfold glist in H2; rewrite H2|].
    rewrite lookup_insert_ne by done. destruct (decide (l = split_lock_list)) as [->|]; [by rewrite lookup_insert_eq; unfold glist in H1; rewrite H1|].
    by rewrite lookup_insert_ne. }
  split; [done|]. destruct (book_relink own s (gl s1) Hb) as [B1 B2]; [..|by split_and!].
  - intros l Hl. fold s1. change (set_gl (gl s1) s) with s1. rewrite HL. by apply (book_lists _ _ Hb).
  - intros l1 l2 x. change (set_gl (gl s1) s) with s1. rewrite !HL. by apply (book_one _ _ Hb).
Qed.

(** The end of the subtraction, after the loop has gone through the list. *)
Lemma subtract_finish owner st lock l (s s2 : state) P : book own s -> idle s -> by_sle_list l = true -> l <> split_lock_list -> l <> remove_list ->
  (length (glist l s) <= fuel)%nat -> cutting lock l s (filter (fun x => ~ hit_at owner st lock s x) (glist l s)) [] (filter (hit_at owner st lock s) (glist l s)) P s2 ->
  exists s', (_ ← free_list own fuel remove_list; glist_add_list_tail l split_lock_list) s2 = done (tt, s')
  /\ changes l (2 * length (glist l s)) (subtract_spec owner st lock (view l s)) s s'.
Proof.
  intros Hb [I1 I2] Hl Hls Hlr Hf [T1 T2 T3 T4 T5 T6 T7 T8 T9].
  rewrite app_nil_r in T4. set (A := filter (fun x => ~ hit_at owner st lock s x) (glist l s)) in *.
  set (R := filter (hit_at owner st lock s) (glist l s)) in *.
  destruct (free_list_ok remove_list s2 eq_refl T1) as (s3 & E3 & [F1 F2 F3 F4 F5 F6]).
  { rewrite T5. etransitivity; [apply length_filter | done]. }
  rewrite (bind_done _ _ _ _ _ E3).
  exists (moved l split_lock_list s3). split; [done|]. rewrite T5 in F4, F5, F6.
  assert (forall x, x ∈ R -> x ∈ glist l s) as HR by (intros x [_ ?]%list_elem_of_filter; done).
  assert (forall l', by_sle_list l' = true -> l' <> l -> l' <> remove_list -> glist l' s3 = glist l' s2) as HL3.
  { intros l' H1 H2 H3. rewrite F6 by done. apply filter_all, Forall_forall. intros x Hx HxR.
    destruct (decide (l' = split_lock_list)) as [->|Hns]; [|by rewrite T9 in Hx by done; apply H2, (book_one _ _ Hb l' l x); auto].
    rewrite T6 in Hx. apply list_elem_of_lookup in Hx as [i Hi]. destruct (Forall2_lookup_l _ _ _ _ _ T8 Hi) as (e & _ & Hn & _).
    destruct (proj2 (book_lists _ _ Hb l Hl) x (HR x HxR)) as [f Hf']. congruence. }
  assert (glist l s3 = A) as HA3.
  { rewrite F6, T4 by done. apply filter_all, Forall_forall. intros x [Hx _]%list_elem_of_filter [Hx' _]%list_elem_of_filter. done. }
  assert (glist split_lock_list s3 = P) as HP3 by (rewrite HL3 by done; done).
  destruct (moved_book l split_lock_list s3 F1 Hl eq_refl Hls) as [V1 V2].
  assert (forall x, x ∈ glist l s -> x ∉ R -> les s3 !! x = les s !! x) as Hles.
  { intros x Hx HxR. rewrite F5 by done. destruct (proj2 (book_lists _ _ Hb l Hl) x Hx) as [e He]. rewrite He. by eapply lookup_weaken. }
  destruct (omap_filter_hit owner st lock s (glist l s)) as [O1 O2]. split.
  - done.
  - transitivity s2; [done | by transitivity s3].
  - split; rewrite moved_glist; [done|]. rewrite decide_False, decide_False by done.
    rewrite F6, T5 by done. apply filter_none, Forall_forall. by intros x Hx ?.
  - unfold view at 1, subtract_spec. rewrite moved_glist, decide_False, decide_True, HA3, HP3, omap_app by done. f_equal.
    + unfold view. rewrite <- O2. apply omap_ext_in. intros x [H1 H2]%list_elem_of_filter. apply Hles; [done|]. by intros [? _]%list_elem_of_filter.
    + unfold view. rewrite <- O1. apply omap_Forall2. eapply Forall2_impl; [exact T8|]. intros x e [H1 H2]. cbn. rewrite F5; [done|].
      intros HxR. destruct (proj2 (book_lists _ _ Hb l Hl) x (HR x HxR)) as [f Hf']. congruence.
  - intros l' H1 H2. unfold view. rewrite moved_glist.
    destruct (decide (l' = split_lock_list)) as [->|H3]; [by rewrite I1|]. rewrite decide_False by done.
    destruct (decide (l' = remove_list)) as [->|H4].
    { rewrite F6, T5, I2 by done. rewrite filter_none; [done|]. apply Forall_forall. by intros x Hx ?. }
    rewrite HL3, T9 by done. apply omap_ext_in. intros x Hx. cbn. rewrite F5.
    + destruct (proj2 (book_lists _ _ Hb l' H1) x Hx) as [f Hf']. rewrite Hf'. by eapply lookup_weaken.
    + intros HxR. by apply H2, (book_one _ _ Hb l' l x); auto.
  - exists P. split; [by cbn; rewrite F3|]. rewrite (Forall2_length _ _ _ T8). etransitivity; [apply pieces_length|].
    assert (length (omap (fun x => les s !! x) R) <= length R)%nat by apply length_omap_le.
    assert (length R <= length (glist l s))%nat by apply length_filter. lia.
Qed.

Theorem subtract_list_ok owner st lock l (s : state) : book own s -> idle s -> by_sle_list l = true -> l <> split_lock_list -> l <> remove_list ->
  (length (glist l s) <= fuel)%nat -> memory (2 * length (glist l s)) s ->
  exists b s', subtract_lock_from_list own fuel owner st lock l s = done ((STATE_SUCCESS, b), s')
  /\ changes l (2 * length (glist l s)) (subtract_spec owner st lock (view l s)) s s'.
Proof.
  intros Hb Hi Hl Hls Hlr Hf Hm. destruct (idle_init s Hb Hi) as (s1 & E1 & B1 & K1 & L1 & S1 & G1).
  unfold subtract_lock_from_list. rewrite E1. pose proof Hi as [I1 I2].
  assert (cutting lock l s [] (glist l s) [] [] s1) as C.
  { split; [done | done | by rewrite L1 | by rewrite G1 | by rewrite G1 | by rewrite G1 | by rewrite S1 | done | by intros; rewrite G1]. }
  destruct (cutting_loop owner st lock l Hl Hls Hlr s (proj2 (book_lists _ _ Hb l Hl)) (glist l s) fuel [] [] [] false s1 C) as (s2 & b & P & E2 & T); [done | done | |].
  { destruct Hm as [M1 M2]. split; by rewrite S1. }
  destruct (subtract_finish owner st lock l s s2 P Hb Hi Hl Hls Hlr Hf T) as (s' & E3 & Ch). exists b, s'. split; [|done].
  erewrite bind_done by (apply (for_each_run fuel l _ _ s1 (glist l s)); [apply G1 | exact E2]). cbn [success]. by rewrite (bind_done _ _ _ _ _ E3).
Qed.

End subtract.

End LockSubtract.
