(* ===== verification/LockNoMemory.v ===== *)
(** Subtracting a range when memory runs out. Module [LockNoMemory]. Whatever memory there is, [subtract_lock_from_list]
    returns; when it cannot split a lock it gives back the parts it has made and puts the locks it took out back on the
    list, so that the locks are those there were, in another order. *)

From S2P Require Import Prelude StateTypes StateLock LockBook LockSubtract.
Import Sal Locks LockBook LockSubtract.
Local Open Scope Z_scope.
Set Default Proof Using "Type".

Module LockNoMemory.

Section nomem.
Context {K : Type} (own : Z -> state_owner_t) (fuel : nat).
Notation state := (@state K).

(** ** Splitting *)

(** What a failed split has done: the parts of [split_lock_list] are given back. *)
Record backed (s s' : state) : Prop := {
  bk_book : book own s'; bk_kept : kept s s';
  bk_les : forall y e, les s !! y = Some e -> y ∉ glist split_lock_list s -> les s' !! y = Some e;
  bk_split : glist split_lock_list s' = []; bk_lists : forall l, by_sle_list l = true -> l <> split_lock_list -> glist l s' = glist l s }.

Lemma used_up (s : state) : no_memory s \/ exists x r, supply s = x :: r /\ x <> 0.
Proof.
  unfold no_memory. destruct (supply s) as [|x r]; [by left; left|]. destruct (decide (x = 0)) as [->|]; [left; right; by exists r | right; by exists x, r].
Qed.

Lemma book_tail (s : state) : book own s -> book own (set_supply (tail (supply s)) s) /\ kept s (set_supply (tail (supply s)) s).
Proof.
  intros [B1 [B2 B3] B4 B5 B6 B7]. split; [|by split]. split; [done | | done | done | done | done]. cbn. destruct (supply s) as [|x r]; [done|]. cbn. split.
  - rewrite filter_cons in B2. destruct (decide (x <> 0)); [by apply NoDup_cons in B2 as [_ ?] | done].
  - intros y Hy. apply B3. by right.
Qed.

Lemma split_off_fails (s : state) y e start len : book own s -> les s !! y = Some e -> no_memory s -> (length (glist split_lock_list s) <= fuel)%nat ->
  exists s', split_off own fuel y start len s = done (false, s') /\ backed s s'.
Proof.
  intros Hb He Hn Hf. destruct (book_tail s Hb) as [B1 K1]. set (s1 := set_supply _ s) in *.
  destruct (free_list_ok own fuel split_lock_list s1 eq_refl B1 Hf) as (s' & E & [F1 F2 F3 F4 F5 F6]). exists s'. split.
  - unfold split_off, state_lock_entry_t_dup. erewrite bind_done by (rewrite (bind_done _ _ _ _ _ (entry_at_ok s y e He)); by apply create_fails).
    cbn [Z.eqb]. fold s1. by rewrite (bind_done _ _ _ _ _ E).
  - change (glist split_lock_list s1) with (glist split_lock_list s) in *. split; [done | by transitivity s1 | | |].
    + intros z f Hz Hnz. rewrite F5 by done. done.
    + rewrite F6 by done. apply filter_none, Forall_forall. intros x Hx Hnx. by apply Hnx.
    + intros l Hl Hne. rewrite F6 by done. apply filter_all, Forall_forall. intros x Hx Hx'. apply Hne. by apply (book_one _ _ Hb l split_lock_list x).
Qed.

(** A split that is made or fails. *)
Lemma split_if_any (b : bool) (s : state) y e start len : book own s -> les s !! y = Some e -> (length (glist split_lock_list s) <= fuel)%nat ->
  (exists s' X, (if b then split_off own fuel y start len else mret true) s = done (true, s')
    /\ grows own split_lock_list X (if b then [with_lock (set_range start len (sle_lock e)) e] else []) s s' /\ (length X <= 1)%nat)
  \/ (exists s', (if b then split_off own fuel y start len else mret true) s = done (false, s') /\ backed s s').
Proof.
  intros Hb He Hf. destruct b; [|left; exists s, []; split; [done|]; split; [by apply grows_nil | cbn; lia]]. destruct (used_up s) as [Hn|(x & r & Hs & Hx)].
  - right. by apply (split_off_fails s y e).
  - left. destruct (split_off_ok own fuel s y e start len x r Hb He Hs Hx) as (s' & E & G). exists s', [x]. split; [done|]. by split.
Qed.

(** The parts that were made before a split failed are given back with the others. *)
Lemma backed_after X es (s s1 s' : state) : grows own split_lock_list X es s s1 -> backed s1 s' -> backed s s'.
Proof.
  intros [A1 A2 A3 A4 A5 A6 A7] [B1 B2 B3 B4 B5]. split; [done | by transitivity s1 | | done | intros l H1 H2; by rewrite B5, A7].
  intros y e Hy Hn. apply B3; [by eapply lookup_weaken|]. rewrite A6. intros [?|HX]%elem_of_app; [done|].
  apply list_elem_of_lookup in HX as [i Hi]. destruct (Forall2_lookup_l _ _ _ _ _ A5 Hi) as (f & _ & Hf & _). congruence.
Qed.

Lemma subtract_any (s : state) x e lock : book own s -> les s !! x = Some e -> overlaps (sle_lock e) lock = true -> (length (glist split_lock_list s) + 1 <= fuel)%nat ->
  (exists s' X, subtract_lock_from_entry own fuel x lock s = done ((STATE_SUCCESS, true), s') /\ cuts own x X (pieces lock e) s s' /\ (length X <= 2)%nat)
  \/ (exists s', subtract_lock_from_entry own fuel x lock s = done ((STATE_MALLOC_ERROR, false), s') /\ backed s s').
Proof.
  intros Hb He Hov Hf. unfold overlaps in Hov. apply andb_true_iff in Hov as [H1%Z.leb_le H2%Z.leb_le].
  unfold subtract_lock_from_entry. rewrite (bind_done _ _ _ _ _ (entry_at_ok s x e He)).
  rewrite (proj2 (Z.ltb_ge (lock_end lock) _) H2), (proj2 (Z.ltb_ge (lock_end (sle_lock e)) _) H1).
  unfold pieces. destruct ((lock_start lock <=? lock_start (sle_lock e)) && (lock_end (sle_lock e) <=? lock_end lock)) eqn:Hall.
  { apply andb_true_iff in Hall as [Hl%Z.leb_le Hr%Z.leb_le]. rewrite (proj2 (Z.ltb_ge _ _) Hl), (proj2 (Z.ltb_ge _ _) Hr).
    left. destruct (cut_out own s s x e [] [] He (grows_nil own _ s Hb)) as (s' & E & C). exists s', []. split; [done|]. split; [done | cbn; lia]. }
  destruct (split_if_any (lock_start (sle_lock e) <? lock_start lock) s x e (lock_start (sle_lock e)) (u64 (lock_start lock - lock_start (sle_lock e))) Hb He ltac:(lia))
    as [(s1 & X1 & E1 & G1 & L1)|(s1 & E1 & K1)]; rewrite (bind_done _ _ _ _ _ E1); cbn [negb]; [|right; by exists s1].
  destruct (split_if_any (lock_end lock <? lock_end (sle_lock e)) s1 x e (u64 (lock_end lock + 1)) (u64 (lock_end (sle_lock e) - lock_end lock))
    (gr_book _ _ _ _ _ _ G1) (lookup_weaken _ _ _ _ He (gr_les _ _ _ _ _ _ G1))) as [(s2 & X2 & E2 & G2 & L2)|(s2 & E2 & K2)].
  { rewrite (gr_tail _ _ _ _ _ _ G1), length_app. lia. }
  - rewrite (bind_done _ _ _ _ _ E2). cbn [negb]. left. destruct (cut_out own s s2 x e _ _ He (grows_app own _ _ _ _ _ _ _ _ G1 G2)) as (s' & E & C).
    exists s', (X1 ++ X2). split; [done|]. split; [done|]. rewrite length_app. lia.
  - rewrite (bind_done _ _ _ _ _ E2). cbn [negb]. right. exists s2. split; [done|]. by apply (backed_after X1 _ s s1 s2 G1).
Qed.

(** ** The loop *)

Section list.
Context (owner st : Z) (lock : fsal_lock_param_t) (l : lid) (Hl : by_sle_list l = true) (Hls : l <> split_lock_list) (Hlr : l <> remove_list).

(** The loop has stopped: [L] is left on the list, and [R] was taken out. *)
Record halted (s0 : state) (L R : list Z) (s : state) : Prop := {
  ha_book : book own s; ha_kept : kept s0 s; ha_les : les s0 ⊆ les s; ha_list : glist l s = L; ha_remove : glist remove_list s = R; ha_split : glist split_lock_list s = [];
  ha_lists : forall l', by_sle_list l' = true -> l' <> l -> l' <> split_lock_list -> l' <> remove_list -> glist l' s = glist l' s0 }.

Lemma cutting_halts (s0 s s' : state) A Y R P : cutting own lock l s0 A Y R P s -> backed s s' -> halted s0 (A ++ Y) R s'.
Proof using Hl Hls.
  intros [C1 C2 C3 C4 C5 C6 C7 C8 C9] [B1 B2 B3 B4 B5]. split; [done | by transitivity s | | by rewrite B5 | by rewrite B5 | done | intros l' H1 H2 H3 H4; by rewrite B5, C9].
  apply map_subseteq_spec. intros y e Hy. apply B3; [by eapply lookup_weaken|]. rewrite C6. intros HP.
  apply list_elem_of_lookup in HP as [i Hi]. destruct (Forall2_lookup_l _ _ _ _ _ C8 Hi) as (f & _ & Hf & _). congruence.
Qed.

Lemma cutting_any_step (s0 s : state) A x Y R P e b : cutting own lock l s0 A (x :: Y) R P s -> les s0 !! x = Some e -> (length P + 1 <= fuel)%nat ->
  (exists s' b' P', subtract_body own fuel owner st lock (STATE_SUCCESS, b) x s = done (((STATE_SUCCESS, b'), true), s') /\ (length P' <= length P + 2)%nat
    /\ (if touched own owner st lock e then cutting own lock l s0 A Y (R ++ [x]) P' s' else cutting own lock l s0 (A ++ [x]) Y R P' s'))
  \/ (exists s' b', subtract_body own fuel owner st lock (STATE_SUCCESS, b) x s = done (((STATE_MALLOC_ERROR, b'), false), s') /\ halted s0 (A ++ x :: Y) R s').
Proof using Hl Hls Hlr.
  intros C He Hf. pose proof C as [C1 C2 C3 C4 C5 C6 C7 C8 C9].
  assert (les s !! x = Some e) as Hx by (by eapply lookup_weaken). rewrite (subtract_body_target own fuel owner st lock s x e) by done.
  assert (cutting own lock l s0 (A ++ [x]) Y R P s) as Hskip by (split; try done; by rewrite <- app_assoc).
  unfold touched. destruct (target own owner st e); [|left; exists s, b, P; split_and!; [done | lia | done]].
  destruct (overlaps (sle_lock e) lock) eqn:Hov; cbn [andb].
  2: { left. rewrite (bind_done _ _ _ _ _ (subtract_miss own fuel s x e lock Hx Hov)). exists s, (b || false), P. split_and!; [done | lia | done]. }
  destruct (subtract_any s x e lock C1 Hx Hov) as [(s' & X & E & U & HX)|(s' & E & B)]; [by rewrite C6 | |]; rewrite (bind_done _ _ _ _ _ E).
  - left. exists s', (b || true), (P ++ X). split; [done|]. split; [rewrite length_app; lia|]. by apply (cutting_cut own lock l Hl Hls Hlr s0 s s' A x Y R P X e).
  - right. exists s', (b || false). split; [done|]. by apply (cutting_halts s0 s s' A (x :: Y) R P).
Qed.

Lemma cutting_any (s0 : state) : (forall x, x ∈ glist l s0 -> is_Some (les s0 !! x)) -> forall Y n A R P b s, cutting own lock l s0 A Y R P s ->
  (forall x, x ∈ Y -> x ∈ glist l s0) -> (length Y <= n)%nat -> (length P + 2 * length Y <= fuel)%nat ->
  (exists s' b' P', walk n l (subtract_body own fuel owner st lock) (STATE_SUCCESS, b) (head Y) s = done ((STATE_SUCCESS, b'), s')
    /\ cutting own lock l s0 (A ++ filter (fun x => ~ hit_at own owner st lock s0 x) Y) [] (R ++ filter (hit_at own owner st lock s0) Y) P' s')
  \/ (exists s' b' L' R', walk n l (subtract_body own fuel owner st lock) (STATE_SUCCESS, b) (head Y) s = done ((STATE_MALLOC_ERROR, b'), s')
    /\ halted s0 L' R' s' /\ L' ++ R' ≡ₚ (A ++ Y) ++ R).
Proof using Hl Hls Hlr.
  intros Hin. induction Y as [|x Y IH]; intros n A R P b s C HY Hn Hf; [left; exists s, b, P; rewrite !app_nil_r; by destruct n|].
  destruct n as [|n]; [cbn in Hn; lia|]. destruct (Hin x) as [e He]; [apply HY; by left|]. cbn [length] in Hn, Hf.
  pose proof (ct_list _ _ _ _ _ _ _ _ _ C) as HL. pose proof (proj1 (book_lists _ _ (ct_book _ _ _ _ _ _ _ _ _ C) l Hl)) as Hnd. rewrite HL in Hnd.
  assert (x ∉ A) as HxA. { apply NoDup_app in Hnd as (_ & Hd & _). intros Hx. by apply (Hd x Hx); left. }
  assert (forall y, y ∈ Y -> y ∈ glist l s0) as HY' by (intros y Hy; apply HY; by right).
  cbn [head]. rewrite (walk_step n l (subtract_body own fuel owner st lock) _ x s A Y HL HxA). rewrite !filter_cons.
  destruct (cutting_any_step s0 s A x Y R P e b C He ltac:(lia)) as [(s1 & b1 & P1 & E1 & HP & C1)|(s1 & b1 & E1 & H1)]; rewrite (bind_done _ _ _ _ _ E1).
  2: { right. exists s1, b1, (A ++ x :: Y), R. done. }
  destruct (touched own owner st lock e) eqn:T.
  - rewrite (decide_True (P := hit_at own owner st lock s0 x)) by (by exists e). rewrite (decide_False (P := ~ hit_at own owner st lock s0 x)) by (intros H; apply H; by exists e).
    destruct (IH n A (R ++ [x]) P1 b1 s1 C1 HY' ltac:(lia) ltac:(lia)) as [(s' & b' & P' & E & C')|(s' & b' & L' & R' & E & H' & Hp)].
    + left. exists s', b', P'. split; [done|]. by rewrite <- app_assoc in C'.
    + right. exists s', b', L', R'. split; [done|]. split; [done|]. rewrite Hp. by rewrite app_assoc, <- Permutation_cons_append, <- Permutation_middle, app_comm_cons.
  - assert (~ hit_at own owner st lock s0 x) as Hno by (intros (f & Hf' & Ht); congruence).
    rewrite (decide_False (P := hit_at own owner st lock s0 x)), (decide_True (P := ~ hit_at own owner st lock s0 x)) by done.
    destruct (IH n (A ++ [x]) R P1 b1 s1 C1 HY' ltac:(lia) ltac:(lia)) as [(s' & b' & P' & E & C')|(s' & b' & L' & R' & E & H' & Hp)].
    + left. exists s', b', P'. split; [done|]. by rewrite <- app_assoc in C'.
    + right. exists s', b', L', R'. split; [done|]. split; [done|]. by rewrite <- (app_assoc A) in Hp.
Qed.

End list.

(** ** The end *)

(** The locks that were taken out go back to the end of the list. *)
Definition put_back (l : lid) : unit -> Z -> M state (unit * bool) := fun _ x => _ ← glist_del x; _ ← glist_add_tail l x; mret (tt, true).

Record returned (l : lid) (R : list Z) (s s' : state) : Prop := {
  rt_book : book own s'; rt_kept : kept s s'; rt_les : les s' = les s; rt_remove : glist remove_list s' = []; rt_list : glist l s' = glist l s ++ R;
  rt_lists : forall l', by_sle_list l' = true -> l' <> l -> l' <> remove_list -> glist l' s' = glist l' s }.

Lemma put_back_loop l : by_sle_list l = true -> l <> remove_list -> forall Y n (s : state), book own s -> glist remove_list s = Y -> (length Y <= n)%nat ->
  exists s', walk n remove_list (put_back l) tt (head Y) s = done (tt, s') /\ returned l Y s s'.
Proof.
  intros Hl Hlr. induction Y as [|x Y IH]; intros n s Hb HL Hn; [exists s; split; [by destruct n|]; split; try done; by rewrite app_nil_r|].
  destruct n as [|n]; [cbn in Hn; lia|]. destruct (book_lists _ _ Hb remove_list eq_refl) as [Hnd Hin]. rewrite HL in Hnd, Hin.
  destruct (Hin x) as [e He]; [by left|]. apply NoDup_cons in Hnd as [Hx Hnd].
  cbn [head]. rewrite (walk_step n remove_list _ tt x s [] Y HL) by apply not_elem_of_nil.
  destruct (unlinked_book own s x Hb) as (B1 & B2 & B3). destruct (add_tail_book own (unlinked x s) l x e B1 Hl He B3) as [C1 C2]. set (s1 := set_gl _ (unlinked x s)) in *.
  assert (forall l', by_sle_list l' = true -> glist l' s1 = if decide (l = l') then glist l s ++ [x] else filter (fun y => y <> x) (glist l' s)) as G1.
  { intros l' Hl'. unfold s1. rewrite glist_set. destruct (decide (l = l')) as [<-|]; [|by apply unlinked_glist]. rewrite unlinked_glist by done. rewrite filter_ne_id; [done|].
    intros Hx'. apply Hlr, (book_one _ _ Hb l remove_list x); [done | done | done | rewrite HL; by left]. }
  destruct (IH n s1 C1) as (s' & E & [R1 R2 R3 R4 R5 R6]); [|cbn in Hn; lia|].
  { rewrite G1, decide_False, HL, filter_cons, decide_False by naive_solver. by apply filter_ne_id. }
  exists s'. split.
  - erewrite bind_done by (unfold put_back; erewrite bind_done by reflexivity; erewrite bind_done by reflexivity; reflexivity). exact E.
  - split; [done | transitivity s1; [by transitivity (unlinked x s) | done] | by rewrite R3 | done | by rewrite R5, G1, decide_True, <- app_assoc |].
    intros l' H1 H2 H3. rewrite R6, G1, decide_False by done. apply filter_ne_id. intros Hx'. apply H3, (book_one _ _ Hb l' remove_list x); [done | done | done | rewrite HL; by left].
Qed.

Lemma view_weaken (s s' : state) l : book own s -> by_sle_list l = true -> les s ⊆ les s' -> omap (fun x => les s' !! x) (glist l s) = view l s.
Proof.
  intros Hb Hl Hs. apply omap_ext_in. intros x Hx. destruct (proj2 (book_lists _ _ Hb l Hl) x Hx) as [e He]. rewrite He. by eapply lookup_weaken.
Qed.

(** What a failed subtraction has done: nothing but changing the order of the list. *)
Record reordered (l : lid) (s s' : state) : Prop := {
  ro_book : book own s'; ro_kept : kept s s'; ro_idle : idle s'; ro_view : view l s' ≡ₚ view l s;
  ro_others : forall l', by_sle_list l' = true -> l' <> l -> view l' s' = view l' s }.

Theorem subtract_list_any owner st lock l (s : state) : book own s -> idle s -> by_sle_list l = true -> l <> split_lock_list -> l <> remove_list -> (2 * length (glist l s) <= fuel)%nat ->
  (exists b s', subtract_lock_from_list own fuel owner st lock l s = done ((STATE_SUCCESS, b), s')
    /\ changes own l (2 * length (glist l s)) (subtract_spec own owner st lock (view l s)) s s')
  \/ (exists b s', subtract_lock_from_list own fuel owner st lock l s = done ((STATE_MALLOC_ERROR, b), s') /\ reordered l s s').
Proof.
  intros Hb Hi Hl Hls Hlr Hf. destruct (idle_init own s Hb Hi) as (s1 & E1 & B1 & K1 & L1 & S1 & G1).
  unfold subtract_lock_from_list. rewrite E1. pose proof Hi as [I1 I2].
  assert (cutting own lock l s [] (glist l s) [] [] s1) as C.
  { split; [done | done | by rewrite L1 | by rewrite G1 | by rewrite G1 | by rewrite G1 | by rewrite S1 | done | by intros; rewrite G1]. }
  destruct (cutting_any owner st lock l Hl Hls Hlr s (proj2 (book_lists _ _ Hb l Hl)) (glist l s) fuel [] [] [] false s1 C ltac:(done) ltac:(lia) ltac:(cbn; lia))
    as [(s2 & b & P & E2 & T)|(s2 & b & L & R & E2 & [H1 H2 H3 H4 H5 H6 H7] & Hp)].
  - left. destruct (subtract_finish own fuel owner st lock l s s2 P Hb Hi Hl Hls Hlr ltac:(lia) T) as (s' & E3 & Ch). exists b, s'. split; [|done].
    erewrite bind_done by (apply (for_each_run fuel l _ _ s1 (glist l s)); [apply G1 | exact E2]). cbn [success]. by rewrite (bind_done _ _ _ _ _ E3).
  - right. cbn [app] in Hp. rewrite app_nil_r in Hp. assert (length R <= fuel)%nat as HfR by (apply Permutation_length in Hp; rewrite length_app in Hp; lia).
    destruct (put_back_loop l Hl Hlr R fuel s2 H1 H5 HfR) as (s' & E3 & [R1 R2 R3 R4 R5 R6]). exists b, s'. split.
    + erewrite bind_done by (apply (for_each_run fuel l _ _ s1 (glist l s)); [apply G1 | exact E2]). cbn [success].
      erewrite bind_done by (apply (for_each_run fuel remove_list _ _ s2 R); [exact H5 | exact E3]). done.
    + split; [done | by transitivity s2 | split; [by rewrite R6 | done] | |].
      * unfold view at 1. rewrite R5, H4, R3. rewrite <- (view_weaken s s2 l Hb Hl H3). by rewrite Hp.
      * intros l' G2 G3. unfold view at 1. rewrite R3. destruct (decide (l' = remove_list)) as [->|]; [unfold view; by rewrite R4, I2|].
        destruct (decide (l' = split_lock_list)) as [->|]; [unfold view; by rewrite R6, H6, I1|]. rewrite R6, H7 by done. by apply view_weaken.
Qed.

End nomem.

End LockNoMemory.
