(* ===== verification/LockMerge.v ===== *)
(** Merging a new lock into the locks of a list, [merge_lock_entry]. Module [LockMerge]. The loop over the list computes
    [merge_pure] on the locks, and it ends. *)

From S2P Require Import Prelude StateTypes StateLock LockBook LockSubtract.
Import Sal Locks LockBook LockSubtract.
Local Open Scope Z_scope.

Module LockMerge.

(** ** Ranges *)

(** A lock with a range of bytes; it has at least one, and none after the last possible one. *)
Definition valid (l : fsal_lock_param_t) : Prop := 0 <= lock_start l <= lock_end l.

Definition covers (l : fsal_lock_param_t) (b : Z) : Prop := lock_start l <= b <= lock_end l.

Lemma lock_end_bound l : 0 <= lock_end l <= UINT64_MAX.
Proof.
  unfold lock_end, UINT64_MAX. destruct (_ =? 0); [lia|]. unfold u64. pose proof (Z.mod_pos_bound (lock_start l + lock_length l - 1) (2 ^ 64)). lia.
Qed.

Lemma u64_within x : 0 <= x <= UINT64_MAX -> u64 x = x.
Proof. intros H. apply u64_small. unfold UINT64_MAX in H. lia. Qed.

(** The range of a lock whose length is computed from its ends. *)
Lemma range_end l a b : 0 <= a <= b -> b <= UINT64_MAX -> lock_end (set_range a (u64 (b - a + 1)) l) = b.
Proof.
  intros H1 H2. unfold lock_end. cbn. destruct (decide (b - a + 1 = 2 ^ 64)) as [E|E].
  - rewrite E. change (u64 (2 ^ 64) =? 0) with true. cbn iota. unfold UINT64_MAX in *. lia.
  - rewrite u64_within by (unfold UINT64_MAX in *; lia). rewrite (proj2 (Z.eqb_neq _ _)) by lia.
    rewrite u64_within by lia. lia.
Qed.

Lemma range_valid l a b : 0 <= a <= b -> b <= UINT64_MAX -> valid (set_range a (u64 (b - a + 1)) l).
Proof. intros H1 H2. unfold valid. rewrite range_end by done. cbn. lia. Qed.

(** ** The loop on locks *)

(** What a lock of the list becomes: it stays, it is merged into the new lock, which grows, or a part or two parts of
    it are left. *)
Inductive mstep :=
  | Keep
  | Gone (n : fsal_lock_param_t)
  | Shrunk (e : state_lock_entry_t)
  | Split (e r : state_lock_entry_t).

Section pure.
Context (own : Z -> state_owner_t) (owner : Z).

Definition left_of (n : fsal_lock_param_t) (e : state_lock_entry_t) : state_lock_entry_t :=
  with_lock (set_range (lock_start (sle_lock e)) (u64 (lock_start n - lock_start (sle_lock e))) (sle_lock e)) e.
Definition right_of (n : fsal_lock_param_t) (e : state_lock_entry_t) : state_lock_entry_t :=
  with_lock (set_range (u64 (lock_end n + 1)) (u64 (lock_end (sle_lock e) - lock_end n)) (sle_lock e)) e.

Definition merge_step (n : fsal_lock_param_t) (e : state_lock_entry_t) : mstep :=
  let check_entry_end := lock_end (sle_lock e) in
  let start := lock_start (sle_lock e) in
  if different_owners own (sle_owner e) owner then Keep
  else if negb (bool_decide (sle_blocked e = STATE_NON_BLOCKING)) then Keep
  else if u64 (check_entry_end + 1) <? lock_start n then Keep
  else if u64 (lock_end n + 1) <? start then Keep
  else if negb (bool_decide (lock_type (sle_lock e) = lock_type n)) && ((lock_end n <? check_entry_end) || (start <? lock_start n)) then
    if lock_end n <? check_entry_end then if start <? lock_start n then Split (left_of n e) (right_of n e) else Shrunk (right_of n e)
    else Shrunk (left_of n e)
  else Gone (set_range (Z.min (lock_start n) start) (u64 (Z.max (lock_end n) check_entry_end - Z.min (lock_start n) start + 1)) n).

(** The locks that stay and the locks to come; a part that is added while the last lock is visited is not visited. *)
Fixpoint merge_pure (k : nat) (n : fsal_lock_param_t) (kept todo : list state_lock_entry_t) : option (fsal_lock_param_t * list state_lock_entry_t) :=
  match todo with
  | [] => Some (n, kept)
  | e :: todo =>
      match k with
      | O => None
      | S k =>
          match merge_step n e with
          | Keep => merge_pure k n (kept ++ [e]) todo
          | Gone n => merge_pure k n kept todo
          | Shrunk e => merge_pure k n (kept ++ [e]) todo
          | Split e r => match todo with [] => Some (n, kept ++ [e; r]) | _ => merge_pure k n (kept ++ [e]) (todo ++ [r]) end
          end
      end
  end.

(** The number of locks that may be split. *)
Definition splits (n : fsal_lock_param_t) (todo : list state_lock_entry_t) : nat :=
  length (List.filter (fun e => lock_start (sle_lock e) <? lock_start n) todo).

Lemma splits_le n todo : (splits n todo <= length todo)%nat.
Proof. unfold splits. induction todo as [|e todo IH]; [done|]. cbn. destruct (_ <? _); cbn; lia. Qed.

Lemma splits_mono n n' todo : lock_start n' <= lock_start n -> (splits n' todo <= splits n todo)%nat.
Proof.
  intros H. unfold splits. induction todo as [|e todo IH]; [done|]. cbn.
  destruct (Z.ltb_spec (lock_start (sle_lock e)) (lock_start n')), (Z.ltb_spec (lock_start (sle_lock e)) (lock_start n)); cbn; lia.
Qed.

(** A lock that is not as long as the new one and what is left of it. *)
Lemma right_valid n e : valid n -> lock_end n < lock_end (sle_lock e) ->
  lock_start (sle_lock (right_of n e)) = lock_end n + 1 /\ lock_end (sle_lock (right_of n e)) = lock_end (sle_lock e).
Proof.
  intros [H1 H2] Hlt. pose proof (lock_end_bound (sle_lock e)). pose proof (lock_end_bound n). unfold right_of. cbn [sle_lock with_lock].
  rewrite (u64_within (lock_end n + 1)) by lia. split; [done|].
  replace (lock_end (sle_lock e) - lock_end n) with (lock_end (sle_lock e) - (lock_end n + 1) + 1) by lia. apply range_end; lia.
Qed.

Lemma left_valid n e : valid (sle_lock e) -> lock_start (sle_lock e) < lock_start n -> lock_start n <= UINT64_MAX ->
  lock_start (sle_lock (left_of n e)) = lock_start (sle_lock e) /\ lock_end (sle_lock (left_of n e)) = lock_start n - 1.
Proof.
  intros [H1 H2] Hlt Hn. unfold left_of. cbn [sle_lock with_lock]. split; [done|].
  replace (lock_start n - lock_start (sle_lock e)) with ((lock_start n - 1) - lock_start (sle_lock e) + 1) by lia. apply range_end; lia.
Qed.

Lemma gone_valid n e : valid n -> valid (sle_lock e) ->
  let n' := set_range (Z.min (lock_start n) (lock_start (sle_lock e)))
    (u64 (Z.max (lock_end n) (lock_end (sle_lock e)) - Z.min (lock_start n) (lock_start (sle_lock e)) + 1)) n in
  lock_start n' = Z.min (lock_start n) (lock_start (sle_lock e)) /\ lock_end n' = Z.max (lock_end n) (lock_end (sle_lock e)) /\ valid n'.
Proof.
  intros [H1 H2] [H3 H4]. pose proof (lock_end_bound (sle_lock e)). pose proof (lock_end_bound n). cbn zeta. split; [done|].
  split; [apply range_end; lia | apply range_valid; lia].
Qed.

Lemma merge_step_cases n e :
  match merge_step n e with
  | Keep => True
  | Gone n' => n' = set_range (Z.min (lock_start n) (lock_start (sle_lock e)))
      (u64 (Z.max (lock_end n) (lock_end (sle_lock e)) - Z.min (lock_start n) (lock_start (sle_lock e)) + 1)) n
  | Shrunk e' => (lock_end n <? lock_end (sle_lock e)) || (lock_start (sle_lock e) <? lock_start n) = true
      /\ ((lock_end n <? lock_end (sle_lock e)) = true /\ (lock_start (sle_lock e) <? lock_start n) = false /\ e' = right_of n e
          \/ (lock_end n <? lock_end (sle_lock e)) = false /\ (lock_start (sle_lock e) <? lock_start n) = true /\ e' = left_of n e)
  | Split l r => (lock_end n <? lock_end (sle_lock e)) = true /\ (lock_start (sle_lock e) <? lock_start n) = true /\ l = left_of n e /\ r = right_of n e
  end.
Proof.
  unfold merge_step. destruct (different_owners _ _ _); [done|]. destruct (negb (bool_decide (sle_blocked e = _))); [done|].
  destruct (u64 (lock_end (sle_lock e) + 1) <? _); [done|]. destruct (u64 (lock_end n + 1) <? _); [done|].
  destruct (lock_end n <? lock_end (sle_lock e)), (lock_start (sle_lock e) <? lock_start n), (negb (bool_decide _)); cbn; auto.
Qed.

(** The loop ends. *)
Lemma merge_pure_total k : forall n kept todo, valid n -> Forall (fun e => valid (sle_lock e)) todo -> (length todo + splits n todo <= k)%nat ->
  exists n' es, merge_pure k n kept todo = Some (n', es).
Proof.
  induction k as [|k IH]; intros n kept todo Hn Ht Hk; (destruct todo as [|e todo]; [by eexists _, _|]); [cbn in Hk; lia|].
  apply Forall_cons in Ht as [He Ht]. cbn [merge_pure].
  assert (splits n (e :: todo) = ((if (lock_start (sle_lock e) <? lock_start n)%Z then 1 else 0) + splits n todo)%nat) as Es.
  { unfold splits. cbn. by destruct (_ <? _). }
  rewrite Es in Hk. cbn [length] in Hk. unfold merge_step.
  assert (length todo + splits n todo <= k)%nat as Hk' by lia.
  destruct (different_owners _ _ _); [by apply IH|]. destruct (negb (bool_decide (sle_blocked e = _))); [by apply IH|].
  destruct (u64 (lock_end (sle_lock e) + 1) <? _); [by apply IH|]. destruct (u64 (lock_end n + 1) <? _); [by apply IH|].
  destruct (negb _ && _).
  - destruct (Z.ltb_spec (lock_end n) (lock_end (sle_lock e))) as [Hr|Hr]; [|by apply IH].
    destruct (Z.ltb_spec (lock_start (sle_lock e)) (lock_start n)) as [Hl|Hl]; [|by apply IH].
    destruct todo as [|f todo]; [by eexists _, _|]. destruct (right_valid n e Hn Hr) as [R1 R2]. apply IH; [done | |].
    + apply Forall_app. split; [done|]. constructor; [|done]. unfold valid. rewrite R1, R2. destruct Hn. lia.
    + assert (splits n ((f :: todo) ++ [right_of n e]) = splits n (f :: todo)) as ->.
      { unfold splits. rewrite List.filter_app, length_app. cbn [List.filter]. rewrite R1, (proj2 (Z.ltb_ge (lock_end n + 1) (lock_start n))) by (destruct Hn; lia). apply Nat.add_0_r. }
      rewrite length_app. cbn [length] in *. lia.
  - destruct (gone_valid n e Hn He) as (G1 & G2 & G3). apply IH; [done | done|].
    pose proof (splits_mono n _ todo (eq_ind_r (fun x => x <= lock_start n) (Z.le_min_l _ _) G1)). lia.
Qed.

Lemma merge_pure_length k : forall n kept todo n' es, valid n -> Forall (fun e => valid (sle_lock e)) todo ->
  merge_pure k n kept todo = Some (n', es) -> (length es <= length kept + length todo + splits n todo)%nat.
Proof.
  induction k as [|k IH]; intros n kept todo n' es Hn Ht Hr; (destruct todo as [|e todo]; [inversion Hr; subst; lia|]); [done|].
  apply Forall_cons in Ht as [He Ht]. cbn [merge_pure] in Hr.
  assert (splits n (e :: todo) = ((if (lock_start (sle_lock e) <? lock_start n)%Z then 1 else 0) + splits n todo)%nat) as Es.
  { unfold splits. cbn. by destruct (_ <? _). }
  rewrite Es. cbn [length]. pose proof (merge_step_cases n e) as Hc. destruct (merge_step n e) as [|n1|e'|l r].
  - apply IH in Hr; [|done..]. rewrite length_app in Hr. cbn in Hr. lia.
  - subst n1. destruct (gone_valid n e Hn He) as (G1 & G2 & G3). apply IH in Hr; [|done..].
    pose proof (splits_mono n _ todo (eq_ind_r (fun x => x <= lock_start n) (Z.le_min_l _ _) G1)). lia.
  - apply IH in Hr; [|done..]. rewrite length_app in Hr. cbn in Hr. lia.
  - destruct Hc as (C1%Z.ltb_lt & C2 & -> & ->). rewrite C2. destruct todo as [|f todo]; [injection Hr as <- <-; rewrite length_app; cbn; lia|].
    destruct (right_valid n e Hn C1) as [R1 R2]. apply IH in Hr; [|done|].
    + rewrite !length_app in Hr. assert (splits n ((f :: todo) ++ [right_of n e]) = splits n (f :: todo)) as E.
      { unfold splits. rewrite List.filter_app, length_app. cbn [List.filter]. rewrite R1, (proj2 (Z.ltb_ge (lock_end n + 1) (lock_start n))) by (destruct Hn; lia). apply Nat.add_0_r. }
      rewrite E in Hr. cbn [length] in *. lia.
    + apply Forall_app. split; [done|]. constructor; [|done]. unfold valid. rewrite R1, R2. destruct Hn. lia.
Qed.

End pure.

(** ** The loop on the list *)

Section merge.
Context {K : Type} (own : Z -> state_owner_t) (fuel : nat) (entry : Z).
Notation state := (@state K).

(** The new lock is the entry [m], at first [en], and has grown to [n]. *)
Context (m : Z) (en : state_lock_entry_t).

Notation ll := (lock_list entry).

Record merging (s0 : state) (n : fsal_lock_param_t) (A Y : list Z) (s : state) : Prop := {
  mg_book : book own s; mg_kept : kept s0 s; mg_list : glist ll s = A ++ Y; mg_new : les s !! m = Some (with_lock n en); mg_off : off s m;
  mg_lists : forall l, by_sle_list l = true -> l <> ll -> glist l s = glist l s0 /\ view l s = view l s0 }.

Lemma merging_in (s0 : state) n A Y s x : merging s0 n A Y s -> x ∈ A ++ Y -> x <> m /\ is_Some (les s !! x).
Proof.
  intros [B1 B2 B3 B4 B5 B6] Hx. rewrite <- B3 in Hx. split; [|by apply (book_lists _ _ B1 ll)]. intros ->. by apply (B5 ll).
Qed.

(** Locks of other lists are not at the address [x] of the list. *)
Lemma view_other (s s' : state) l x : book own s -> by_sle_list l = true -> l <> ll -> x ∈ glist ll s \/ off s x -> glist l s' = glist l s ->
  (forall y, y <> x -> les s' !! y = les s !! y) -> view l s' = view l s.
Proof.
  intros Hb Hl Hne Hx HL He. unfold view. rewrite HL. apply omap_ext_in. intros y Hy. apply He. intros ->.
  destruct Hx as [Hx|Hx]; [by apply Hne, (book_one _ _ Hb l ll x) | by apply (Hx l)].
Qed.

(** The entry [x] is changed to [f e]. *)
Lemma merging_update (s0 : state) n A Y s x e f : merging s0 n A Y s -> x ∈ A ++ Y -> les s !! x = Some e -> (forall e, sle_owner (f e) = sle_owner e) ->
  (forall e, sle_ref_count (f e) = sle_ref_count e) -> (forall e, sle_block_data (f e) = sle_block_data e) ->
  change_entry x f s = done (tt, set_les (<[x := f e]> (les s)) s) /\ merging s0 n A Y (set_les (<[x := f e]> (les s)) s).
Proof.
  intros M Hx He F1 F2 F3. destruct (merging_in _ _ _ _ _ x M Hx) as [Hm _]. destruct M as [B1 B2 B3 B4 B5 B6].
  split; [by apply change_entry_ok|]. destruct (book_update own s x e f B1 He F1 F2 F3) as [C1 C2]. split.
  - done.
  - by transitivity s.
  - done.
  - cbn. by rewrite lookup_insert_ne.
  - done.
  - intros l Hl Hne. destruct (B6 l Hl Hne) as [G1 G2]. split; [done|]. rewrite <- G2. apply (view_other s _ l x); [done | done | done | | done |].
    + left. by rewrite B3.
    + intros y Hy. cbn. by rewrite lookup_insert_ne.
Qed.

Lemma expand_ok (s0 : state) n n' A x Y s e : merging s0 n A (x :: Y) s -> les s !! x = Some e ->
  n' = set_range (Z.min (lock_start n) (lock_start (sle_lock e)))
         (u64 (Z.max (lock_end n) (lock_end (sle_lock e)) - Z.min (lock_start n) (lock_start (sle_lock e)) + 1)) n ->
  exists s', merge_expand own m x s = done (tt, s') /\ merging s0 n' A Y s' /\ supply s' = supply s
  /\ forall y, y <> x -> y <> m -> les s' !! y = les s !! y.
Proof.
  intros M He ->. destruct (merging_in _ _ _ _ _ x M ltac:(set_solver)) as [Hm _]. destruct M as [B1 B2 B3 B4 B5 B6].
  unfold merge_expand. rewrite (bind_done _ _ _ _ _ (entry_at_ok s x e He)), (bind_done _ _ _ _ _ (entry_at_ok s m _ B4)).
  cbn [sle_lock with_lock]. set (f := fun n0 => with_lock _ n0).
  rewrite (bind_done _ _ _ _ _ (change_entry_ok s m _ f B4)).
  destruct (book_update own s m _ f B1 B4) as [C1 C2]; [done | done | done|]. set (s1 := set_les _ s) in *.
  destruct (drop_ok own s1 x e C1) as (s2 & E & [D1 D2 D3 D4 D5]); [cbn; by rewrite lookup_insert_ne|].
  assert (forall y, y <> x -> y <> m -> les s2 !! y = les s !! y) as Hles.
  { intros y Hy1 Hy2. rewrite D3, lookup_delete_ne by done. cbn. by rewrite lookup_insert_ne. }
  exists s2. split; [done|]. split; [|done]. pose proof (proj1 (book_lists _ _ B1 ll eq_refl)) as Hnd. rewrite B3 in Hnd.
  apply NoDup_app in Hnd as (N1 & N2 & [N3 N4]%NoDup_cons). split.
  - done.
  - transitivity s; [done|]. by transitivity s1.
  - rewrite D5 by done. change (glist ll s1) with (glist ll s). rewrite B3, filter_app, filter_cons, decide_False by naive_solver.
    rewrite !filter_ne_id; [done | done|]. intros HA. by apply (N2 x HA); left.
  - rewrite D3, lookup_delete_ne by done. cbn. by rewrite lookup_insert_eq.
  - intros l Hl. rewrite D5 by done. intros [_ Hin]%list_elem_of_filter. by apply (B5 l Hl).
  - intros l Hl Hne. destruct (B6 l Hl Hne) as [G1 G2].
    assert (glist l s2 = glist l s) as HL.
    { rewrite D5 by done. apply filter_ne_id. change (glist l s1) with (glist l s). intros Hx. apply Hne, (book_one _ _ B1 l ll x); [done..|].
      rewrite B3. set_solver. }
    split; [congruence|]. rewrite <- G2. unfold view. rewrite HL. apply omap_ext_in. intros y Hy. apply Hles.
    + intros ->. apply Hne, (book_one _ _ B1 l ll x); [done..|]. rewrite B3. set_solver.
    + intros ->. by apply (B5 l).
Qed.

(** A new entry [r], a copy of [e], at the end of the list. *)
Lemma merging_dup (s0 : state) n A x Y s e r q : merging s0 n A (x :: Y) s -> les s !! x = Some e -> supply s = r :: q -> r <> 0 ->
  exists s', (right ← state_lock_entry_t_dup own x; if right =? 0 then mret 0 else _ ← glist_add_tail ll right; mret right) s = done (r, s')
  /\ merging s0 n A (x :: Y ++ [r]) s' /\ les s' = <[r := e]> (les s) /\ les s !! r = None /\ supply s' = q.
Proof.
  intros [B1 B2 B3 B4 B5 B6] He Hs Hr. destruct (dup_ok own s r q x e B1 Hs Hr He) as (s1 & E1 & [A1 A2 A3 A4 A5 A6]).
  rewrite (bind_done _ _ _ _ _ E1), (proj2 (Z.eqb_neq _ _) Hr).
  assert (off s r) as Hoff by (by apply (off_new own)). assert (off s1 r) as Hoff1 by (intros l Hl; rewrite A6 by done; by apply Hoff).
  destruct (add_tail_book own s1 ll r e A1 eq_refl) as [C1 C2]; [by rewrite A3, lookup_insert_eq | done|].
  set (s2 := set_gl _ s1) in *. exists s2. split; [done|].
  assert (forall l, by_sle_list l = true -> l <> ll -> glist l s2 = glist l s) as HL2.
  { intros l Hl Hne. unfold s2. rewrite glist_set, decide_False by done. by apply A6. }
  assert (glist ll s2 = A ++ (x :: Y ++ [r])) as HL.
  { unfold s2. rewrite glist_set, decide_True, A6, B3 by done. by rewrite <- app_assoc. }
  split; [|split; [done|]; split; [done|]; rewrite Hs in A5; by injection A5]. split.
  - done.
  - transitivity s; [done|]. by transitivity s1.
  - done.
  - cbn. rewrite A3, lookup_insert_ne; [done|]. congruence.
  - intros l Hl. destruct (decide (l = ll)) as [->|Hne].
    + rewrite HL. intros Hin. assert (m ∈ A ++ x :: Y \/ m = r) as [Hm| ->] by set_solver; [|congruence]. rewrite <- B3 in Hm. by apply (B5 ll).
    + rewrite HL2 by done. by apply B5.
  - intros l Hl Hne. destruct (B6 l Hl Hne) as [G1 G2]. rewrite HL2 by done. split; [done|]. rewrite <- G2.
    apply (view_other s _ l r); [done | done | done | by right | by apply HL2|]. intros y Hy. cbn. by rewrite A3, lookup_insert_ne.
Qed.

(** The parts that are left of a lock of another type. *)
Lemma shrink_ok (s0 : state) n A x Y s e : merging s0 n A (x :: Y) s -> les s !! x = Some e -> valid n -> valid (sle_lock e) ->
  (lock_end n <? lock_end (sle_lock e)) || (lock_start (sle_lock e) <? lock_start n) = true ->
  (lock_start (sle_lock e) < lock_start n -> lock_end n < lock_end (sle_lock e) -> memory 1 s) ->
  exists s' R, merge_shrink own entry x n s = done (tt, s') /\ merging s0 n A (x :: Y ++ R) s' /\ supply s = R ++ supply s'
  /\ (forall y, y ∈ A ++ Y -> les s' !! y = les s !! y)
  /\ (if lock_end n <? lock_end (sle_lock e)
      then if lock_start (sle_lock e) <? lock_start n
           then exists r, R = [r] /\ les s' !! x = Some (left_of n e) /\ les s' !! r = Some (right_of n e)
           else R = [] /\ les s' !! x = Some (right_of n e)
      else R = [] /\ les s' !! x = Some (left_of n e)).
Proof.
  intros M He Hn Hve Hor Hmem. pose proof (proj1 (book_lists _ _ (mg_book _ _ _ _ _ M) ll eq_refl)) as Hnd. rewrite (mg_list _ _ _ _ _ M) in Hnd.
  assert (x ∉ A ++ Y) as HxAY.
  { apply NoDup_app in Hnd as (N1 & N2 & [N3 N4]%NoDup_cons). intros [HA|HY]%elem_of_app; [by apply (N2 x HA); left | done]. }
  unfold merge_shrink. rewrite (bind_done _ _ _ _ _ (entry_at_ok s x e He)).
  set (fr := fun e0 => with_lock (set_range (u64 (lock_end n + 1)) (u64 (lock_end (sle_lock e) - lock_end n)) (sle_lock e0)) e0).
  set (fl := fun e0 => with_lock (set_range (lock_start (sle_lock e0)) (u64 (lock_start n - lock_start (sle_lock e0))) (sle_lock e0)) e0).
  destruct (Z.ltb_spec (lock_end n) (lock_end (sle_lock e))) as [Hr|Hr]; destruct (Z.ltb_spec (lock_start (sle_lock e)) (lock_start n)) as [Hl|Hl]; [..|done]; cbn [andb].
  - destruct (memory_S 0 s (Hmem Hl Hr)) as (r & q & Hs & Hr0 & _).
    destruct (merging_dup s0 n A x Y s e r q M He Hs Hr0) as (s1 & E1 & M1 & L1 & L2 & Q1). rewrite (bind_done _ _ _ _ _ E1), (proj2 (Z.eqb_neq _ _) Hr0).
    assert (x <> r) as Hxr by congruence.
    assert (les s1 !! r = Some e) as Hr1 by (by rewrite L1, lookup_insert_eq).
    destruct (merging_update s0 n A (x :: Y ++ [r]) s1 r e fr M1) as [E2 M2]; [set_solver | done | done | done | done|].
    rewrite (bind_done _ _ _ _ _ E2). set (s2 := set_les _ s1) in *.
    assert (les s2 !! x = Some e) as Hx2 by (cbn; rewrite lookup_insert_ne, L1, lookup_insert_ne by done; done).
    rewrite (bind_done _ _ _ _ _ (entry_at_ok s2 x e Hx2)), (proj2 (Z.ltb_lt _ _) Hl).
    destruct (merging_update s0 n A (x :: Y ++ [r]) s2 x e fl M2) as [E3 M3]; [set_solver | done | done | done | done|].
    exists (set_les (<[x := fl e]> (les s2)) s2), [r]. split; [done|]. split; [done|]. split; [cbn; by rewrite Q1|]. split.
    + intros y Hy. assert (y <> r) as Hyr.
      { intros ->. destruct (merging_in _ _ _ _ _ r M) as [_ [f Hf]]; [set_solver | congruence]. }
      assert (y <> x) by (by intros ->). cbn. by rewrite !lookup_insert_ne, L1, lookup_insert_ne by done.
    + exists r. cbn. by rewrite lookup_insert_eq, lookup_insert_ne, lookup_insert_eq by done.
  - rewrite (bind_done (mret x) _ s x s) by done. destruct (Z.eqb_spec x 0) as [->|Hx0]; [by apply (book_entry _ _ (mg_book _ _ _ _ _ M)) in He as [? _]|].
    destruct (merging_update s0 n A (x :: Y) s x e fr M) as [E2 M2]; [set_solver | done | done | done | done|].
    rewrite (bind_done _ _ _ _ _ E2). set (s2 := set_les _ s) in *.
    assert (les s2 !! x = Some (fr e)) as Hx2 by (cbn; by rewrite lookup_insert_eq).
    rewrite (bind_done _ _ _ _ _ (entry_at_ok s2 x _ Hx2)). change (lock_start (sle_lock (fr e))) with (lock_start (sle_lock (right_of n e))).
    rewrite (proj1 (right_valid n e Hn Hr)), (proj2 (Z.ltb_ge (lock_end n + 1) (lock_start n))) by (destruct Hn; lia).
    exists s2, []. rewrite app_nil_r. split; [done|]. split; [done|]. split; [done|]. split; [|done].
    intros y Hy. assert (y <> x) by (by intros ->). cbn. by rewrite lookup_insert_ne.
  - rewrite (bind_done (mret x) _ s x s) by done. destruct (Z.eqb_spec x 0) as [->|Hx0]; [by apply (book_entry _ _ (mg_book _ _ _ _ _ M)) in He as [? _]|].
    rewrite (bind_done (mret tt) _ s tt s) by done. rewrite (bind_done _ _ _ _ _ (entry_at_ok s x e He)), (proj2 (Z.ltb_lt _ _) Hl).
    destruct (merging_update s0 n A (x :: Y) s x e fl M) as [E2 M2]; [set_solver | done | done | done | done|].
    exists (set_les (<[x := fl e]> (les s)) s), []. rewrite app_nil_r. split; [done|]. split; [done|]. split; [done|]. split.
    + intros y Hy. assert (y <> x) by (by intros ->). cbn. by rewrite lookup_insert_ne.
    + split; [done|]. cbn. by rewrite lookup_insert_eq.
Qed.

Definition merge_body (_ : unit) (x : Z) : M state (unit * bool) :=
  if x =? m then mret (tt, true)
  else
  e ← entry_at x;
  n ← entry_at m;
  if different_owners own (sle_owner e) (sle_owner n) then mret (tt, true)
  else if negb (bool_decide (sle_blocked e = STATE_NON_BLOCKING)) then mret (tt, true)
  else
  let check_entry_end := lock_end (sle_lock e) in
  let lock_entry_end := lock_end (sle_lock n) in
  if u64 (check_entry_end + 1) <? lock_start (sle_lock n) then mret (tt, true)
  else if u64 (lock_entry_end + 1) <? lock_start (sle_lock e) then mret (tt, true)
  else if negb (bool_decide (lock_type (sle_lock e) = lock_type (sle_lock n)))
          && ((lock_entry_end <? check_entry_end) || (lock_start (sle_lock e) <? lock_start (sle_lock n)))
  then _ ← merge_shrink own entry x (sle_lock n); mret (tt, true)
  else _ ← merge_expand own m x; mret (tt, true).

(** The locks at addresses. *)
Definition at_ (s : state) (L : list Z) : list state_lock_entry_t := omap (fun x => les s !! x) L.

Lemma at_same (s s' : state) L : (forall y, y ∈ L -> les s' !! y = les s !! y) -> at_ s' L = at_ s L.
Proof. intros H. by apply omap_ext_in. Qed.

Lemma at_concat (s : state) L1 L2 : at_ s (L1 ++ L2) = at_ s L1 ++ at_ s L2.
Proof. apply omap_app. Qed.

Lemma at_one (s : state) x e : les s !! x = Some e -> at_ s [x] = [e].
Proof. intros H. unfold at_. cbn. by rewrite H. Qed.

Lemma merging_move (s0 : state) n A x Y s : merging s0 n A (x :: Y) s -> merging s0 n (A ++ [x]) Y s.
Proof. intros [B1 B2 B3 B4 B5 B6]. split; try done. by rewrite <- app_assoc. Qed.

Lemma body_step (s0 : state) n A x Y s e : merging s0 n A (x :: Y) s -> les s !! x = Some e -> merge_body tt x s
  = match merge_step own (sle_owner en) n e with
    | Keep => mret (tt, true)
    | Gone _ => _ ← merge_expand own m x; mret (tt, true)
    | _ => _ ← merge_shrink own entry x n; mret (tt, true)
    end s.
Proof.
  intros M He. destruct (merging_in _ _ _ _ _ x M ltac:(set_solver)) as [Hm _]. unfold merge_body, merge_step.
  rewrite (proj2 (Z.eqb_neq _ _) Hm), (bind_done _ _ _ _ _ (entry_at_ok s x e He)), (bind_done _ _ _ _ _ (entry_at_ok s m _ (mg_new _ _ _ _ _ M))).
  cbn [sle_owner with_lock sle_lock]. destruct (different_owners own (sle_owner e) (sle_owner en)); [done|].
  destruct (negb (bool_decide (sle_blocked e = STATE_NON_BLOCKING))); [done|].
  destruct (u64 (lock_end (sle_lock e) + 1) <? lock_start n); [done|]. destruct (u64 (lock_end n + 1) <? lock_start (sle_lock e)); [done|].
  destruct (lock_end n <? lock_end (sle_lock e)), (lock_start (sle_lock e) <? lock_start n), (negb (bool_decide (lock_type (sle_lock e) = lock_type n))); done.
Qed.

Lemma merge_loop (s0 : state) k : forall n A Y s n' es, merging s0 n A Y s -> valid n -> Forall (fun e => valid (sle_lock e)) (at_ s Y) ->
  merge_pure own (sle_owner en) k n (at_ s A) (at_ s Y) = Some (n', es) -> memory (splits n (at_ s Y)) s ->
  exists s' L X, walk k ll merge_body tt (head Y) s = done (tt, s') /\ merging s0 n' L [] s' /\ at_ s' L = es
  /\ supply s = X ++ supply s' /\ (length X <= splits n (at_ s Y))%nat.
Proof.
  induction k as [|k IH]; intros n A Y s n' es M Hn HY E Hm; (destruct Y as [|x Y]; [cbn in E; injection E as <- <-; by exists s, A, []|]);
    destruct (merging_in _ _ _ _ _ x M ltac:(set_solver)) as [Hxm [e He]]; change (x :: Y) with ([x] ++ Y) in HY, E, Hm |- *;
    rewrite at_concat, (at_one s x e He) in HY, E, Hm |- *; cbn [app] in HY, E, Hm |- *; [done|].
  apply Forall_cons in HY as [Hve HY]. pose proof (proj1 (book_lists _ _ (mg_book _ _ _ _ _ M) ll eq_refl)) as Hnd.
  rewrite (mg_list _ _ _ _ _ M) in Hnd. apply NoDup_app in Hnd as (N1 & N2 & [N3 N4]%NoDup_cons).
  assert (x ∉ A) as HxA by (intros HA; by apply (N2 x HA); left).
  cbn [head]. rewrite (walk_step k ll merge_body tt x s A Y (mg_list _ _ _ _ _ M) HxA).
  assert (splits n (e :: at_ s Y) = ((if (lock_start (sle_lock e) <? lock_start n)%Z then 1 else 0) + splits n (at_ s Y))%nat) as Es.
  { unfold splits. cbn. by destruct (_ <? _). }
  rewrite Es in Hm |- *. cbn [merge_pure] in E. pose proof (body_step s0 n A x Y s e M He) as Eb. pose proof (merge_step_cases own (sle_owner en) n e) as Hc.
  destruct (merge_step own (sle_owner en) n e) as [|n2|e2|e2 r2].
  - rewrite (bind_done _ _ _ _ _ Eb). destruct (IH n (A ++ [x]) Y s n' es) as (s' & L & X & E1 & M1 & V1 & S1 & S2).
    + by apply merging_move.
    + done.
    + done.
    + by rewrite at_concat, (at_one s x e He).
    + eapply memory_le; [|exact Hm]. lia.
    + exists s', L, X. split_and!; [done | done | done | done | lia].
  - destruct (expand_ok s0 n n2 A x Y s e M He Hc) as (s1 & E1 & M1 & S1 & L1). rewrite (bind_done _ _ _ _ _ E1) in Eb. rewrite (bind_done _ _ _ _ _ Eb).
    destruct (gone_valid n e Hn Hve) as (G1 & G2 & G3). cbn zeta in G1, G2, G3. rewrite <- Hc in G1, G2, G3.
    assert (splits n2 (at_ s Y) <= splits n (at_ s Y))%nat as Hsp by (apply splits_mono; rewrite G1; lia).
    assert (at_ s1 Y = at_ s Y /\ at_ s1 A = at_ s A) as [HatY HatA].
    { split; apply at_same; intros y Hy; (apply L1; [by intros ->|]); intros ->; apply (merging_in _ _ _ _ _ m M); set_solver. }
    destruct (IH n2 A Y s1 n' es) as (s' & L & X & E2 & M2 & V2 & S2 & S3).
    + done.
    + done.
    + by rewrite HatY.
    + by rewrite HatA, HatY.
    + rewrite HatY. destruct Hm as [Hm1 Hm2]. eapply memory_le; [exact Hsp|]. apply (memory_rest (if (lock_start (sle_lock e) <? lock_start n)%Z then 1 else 0) _ [] s).
      * by split.
      * by rewrite S1.
      * cbn. lia.
    + exists s', L, X. rewrite HatY in S3. rewrite S1 in S2. split_and!; [done | done | done | done | lia].
  - destruct Hc as [Hor Hc]. destruct (shrink_ok s0 n A x Y s e M He Hn Hve Hor) as (s1 & R & E1 & M1 & S1 & L1 & H1).
    { intros H1%Z.ltb_lt H2%Z.ltb_lt. naive_solver congruence. }
    assert (R = [] /\ les s1 !! x = Some e2) as [-> Hx1].
    { destruct Hc as [(C1 & C2 & ->)|(C1 & C2 & ->)]; rewrite C1 in H1; [rewrite C2 in H1|]; done. }
    rewrite app_nil_r in M1. rewrite (bind_done _ _ _ _ _ E1) in Eb. rewrite (bind_done _ _ _ _ _ Eb).
    assert (at_ s1 Y = at_ s Y /\ at_ s1 A = at_ s A) as [HatY HatA] by (split; apply at_same; intros y Hy; apply L1; set_solver).
    destruct (IH n (A ++ [x]) Y s1 n' es) as (s' & L & X & E2 & M2 & V2 & S2 & S3).
    + by apply merging_move.
    + done.
    + by rewrite HatY.
    + by rewrite at_concat, (at_one s1 x e2 Hx1), HatA, HatY.
    + rewrite HatY. apply (memory_rest _ _ [] s s1 Hm); [done | cbn; lia].
    + exists s', L, X. rewrite HatY in S3. cbn [app] in S1. rewrite <- S1 in S2. split_and!; [done | done | done | done | lia].
  - destruct Hc as (C1 & C2 & -> & ->). rewrite C2 in Hm |- *. destruct (shrink_ok s0 n A x Y s e M He Hn Hve) as (s1 & R & E1 & M1 & S1 & L1 & H1).
    { by rewrite C1. }
    { intros _ _. eapply memory_le; [|exact Hm]. lia. }
    rewrite C1, C2 in H1. destruct H1 as (r & -> & Hx1 & Hr1). rewrite (bind_done _ _ _ _ _ E1) in Eb. rewrite (bind_done _ _ _ _ _ Eb).
    assert (at_ s1 Y = at_ s Y /\ at_ s1 A = at_ s A) as [HatY HatA] by (split; apply at_same; intros y Hy; apply L1; set_solver).
    apply Z.ltb_lt in C1. destruct (right_valid n e Hn C1) as [R1 R2].
    destruct Y as [|z Y].
    { cbn in E. injection E as <- <-. exists s1, (A ++ [x; r]), [r]. split_and!; [by destruct k | | | done | cbn; lia].
      - destruct M1 as [B1 B2 B3 B4 B5 B6]. split; try done. rewrite app_nil_r. exact B3.
      - rewrite at_concat, HatA. f_equal. unfold at_. cbn. by rewrite Hx1, Hr1. }
    assert (at_ s (z :: Y) <> []) as Hne.
    { destruct (merging_in _ _ _ _ _ z M ltac:(set_solver)) as [_ [f Hf]]. unfold at_. cbn. by rewrite Hf. }
    assert (splits n (at_ s1 ((z :: Y) ++ [r])) = splits n (at_ s (z :: Y))) as Hsp.
    { rewrite at_concat, HatY, (at_one s1 r _ Hr1). unfold splits. rewrite List.filter_app, length_app. cbn [List.filter].
      rewrite R1, (proj2 (Z.ltb_ge (lock_end n + 1) (lock_start n))) by (destruct Hn; lia). apply Nat.add_0_r. }
    destruct (IH n (A ++ [x]) ((z :: Y) ++ [r]) s1 n' es) as (s' & L & X & E2 & M2 & V2 & S2 & S3).
    + by apply merging_move.
    + done.
    + rewrite at_concat, HatY, (at_one s1 r _ Hr1). apply Forall_app. split; [done|]. constructor; [|done]. unfold valid. rewrite R1, R2. destruct Hn. lia.
    + rewrite !at_concat, (at_one s1 x _ Hx1), (at_one s1 r _ Hr1), HatA, HatY. by destruct (at_ s (z :: Y)).
    + rewrite Hsp. apply (memory_rest 1 _ [r] s); [done | done | cbn; lia].
    + exists s', L, (r :: X). cbn [head app] in *. split_and!; [done | done | done | by rewrite S1, S2 | cbn [length]; lia].
Qed.

(** The whole loop. *)
Theorem merge_ok (s : state) : book own s -> les s !! m = Some en -> off s m -> valid (sle_lock en) -> Forall (fun e => valid (sle_lock e)) (view ll s) ->
  (2 * length (glist ll s) <= fuel)%nat -> memory (length (glist ll s)) s ->
  exists s' n es X, merge_lock_entry own fuel entry m s = done (tt, s')
  /\ merge_pure own (sle_owner en) fuel (sle_lock en) [] (view ll s) = Some (n, es)
  /\ merging s n (glist ll s') [] s' /\ view ll s' = es /\ supply s = X ++ supply s' /\ (length X <= length (glist ll s))%nat.
Proof.
  intros Hb Hm Ho Hn Hv Hf Hmem. assert (length (view ll s) <= length (glist ll s))%nat as Hl1 by apply length_omap_le.
  pose proof (splits_le (sle_lock en) (view ll s)) as Hl2.
  destruct (merge_pure_total own (sle_owner en) fuel (sle_lock en) [] (view ll s) Hn Hv) as (n & es & Ep); [lia|].
  assert (merging s (sle_lock en) [] (glist ll s) s) as M by (split; try done; by destruct en).
  destruct (merge_loop s fuel (sle_lock en) [] (glist ll s) s n es M Hn Hv Ep) as (s' & L & X & E1 & M1 & V1 & S1 & S2).
  { eapply memory_le; [|exact Hmem]. unfold view in Hl2, Hl1. unfold at_. lia. }
  assert (glist ll s' = L) as HL by (rewrite (mg_list _ _ _ _ _ M1); apply app_nil_r).
  exists s', n, es, X. split; [done|]. split; [done|]. rewrite HL. split; [done|]. split; [unfold view; by rewrite HL|]. split; [done|].
  unfold at_ in S2. unfold view in Hl2, Hl1. lia.
Qed.

End merge.

End LockMerge.
