(* ===== verification/LockHeld.v ===== *)
(** Who holds which bytes of a file. Module [LockHeld]. Owners are compared by an equivalence; [holds] tells the locks of
    an owner on a byte. Subtracting a range takes exactly its bytes away ([subtract_holds]), and merging a lock gives its
    owner exactly its bytes when no lock of the owner reaches the last byte ([merge_exact]). *)

From S2P Require Import Prelude StateTypes StateLock LockBook LockSubtract LockMerge.
Import Sal Locks LockBook LockSubtract LockMerge.
Local Open Scope Z_scope.

Module LockHeld.

Section held.
Context (own : Z -> state_owner_t).

(** ** Owners *)

Definition same (o1 o2 : Z) : Prop := different_owners own o1 o2 = false.

Lemma same_spec o1 o2 : same o1 o2 <-> o1 <> 0 /\ o2 <> 0 /\ (o1 = o2 \/ (so_type (own o1) = so_type (own o2) /\ so_type (own o1) <> STATE_LOCK_OWNER_UNKNOWN
  /\ so_id (own o1) = so_id (own o2) /\ so_owner_val (own o1) = so_owner_val (own o2))).
Proof.
  unfold same, different_owners, compare_9p_owner, compare_nfs4_owner.
  destruct (Z.eqb_spec o1 0); [cbn; naive_solver|]. destruct (Z.eqb_spec o2 0); [cbn; naive_solver|]. cbn [orb].
  destruct (Z.eqb_spec o1 o2) as [->|Hne]; [naive_solver|].
  destruct (decide (so_type (own o1) = so_type (own o2))) as [Ht|Ht]; [rewrite bool_decide_eq_true_2 by done | rewrite bool_decide_eq_false_2 by done; cbn; naive_solver].
  cbn [negb]. destruct (Z.eqb_spec (so_id (own o1)) (so_id (own o2))), (String.eqb_spec (so_owner_val (own o1)) (so_owner_val (own o2)));
    destruct (so_type (own o1)) eqn:E; cbn; naive_solver.
Qed.

Lemma same_sym o1 o2 : same o1 o2 -> same o2 o1.
Proof. rewrite !same_spec. intros (H1 & H2 & H3). split; [done|]. split; [done|]. naive_solver congruence. Qed.

Lemma same_trans o1 o2 o3 : same o1 o2 -> same o2 o3 -> same o1 o3.
Proof.
  rewrite !same_spec. intros (H1 & H2 & H3) (H4 & H5 & H6). split; [done|]. split; [done|].
  destruct H3 as [->|(A1 & A2 & A3 & A4)]; [done|]. destruct H6 as [<-|(B1 & B2 & B3 & B4)]; [by right|]. right. split_and!; congruence.
Qed.

Lemma same_refl o : o <> 0 -> same o o.
Proof. intros H. apply same_spec. auto. Qed.

#[export] Instance same_dec o1 o2 : Decision (same o1 o2).
Proof. unfold same. apply _. Defined.

(** ** Held bytes *)

(** The owner [o] has a lock of type [ty] on the byte [b]. *)
Definition holds (es : list state_lock_entry_t) (o : Z) (ty : fsal_lock_t) (b : Z) : Prop :=
  exists e, e ∈ es /\ same (sle_owner e) o /\ lock_type (sle_lock e) = ty /\ covers (sle_lock e) b.

Lemma held_app es1 es2 o ty b : holds (es1 ++ es2) o ty b <-> holds es1 o ty b \/ holds es2 o ty b.
Proof. unfold holds. set_solver. Qed.

Lemma holds_one e o ty b : holds [e] o ty b <-> same (sle_owner e) o /\ lock_type (sle_lock e) = ty /\ covers (sle_lock e) b.
Proof. unfold holds. set_solver. Qed.

Lemma holds_perm es es' o ty b : es ≡ₚ es' -> holds es o ty b <-> holds es' o ty b.
Proof. intros H. unfold holds. by setoid_rewrite H. Qed.

(** The locks of a list are ranges, and are granted. *)
Definition sound (es : list state_lock_entry_t) : Prop := Forall (fun e => valid (sle_lock e) /\ sle_blocked e = STATE_NON_BLOCKING) es.

Lemma sound_valid es : sound es -> Forall (fun e => valid (sle_lock e)) es.
Proof. intros H. eapply Forall_impl; [exact H|]. by intros e [? _]. Qed.

(** [e'] is a part of the lock [e]. *)
Definition part_of (e e' : state_lock_entry_t) : Prop :=
  sle_owner e' = sle_owner e /\ lock_type (sle_lock e') = lock_type (sle_lock e) /\ sle_blocked e' = sle_blocked e /\ sle_state e' = sle_state e
  /\ sle_type e' = sle_type e /\ sle_export e' = sle_export e /\ valid (sle_lock e') /\ forall b, covers (sle_lock e') b -> covers (sle_lock e) b.

Lemma pieces_part lock e p : valid lock -> valid (sle_lock e) -> overlaps (sle_lock e) lock = true -> p ∈ pieces lock e -> part_of e p.
Proof.
  intros Hl He Hov Hp. unfold overlaps in Hov. apply andb_true_iff in Hov as [O1%Z.leb_le O2%Z.leb_le].
  pose proof (lock_end_bound lock). pose proof (lock_end_bound (sle_lock e)). unfold pieces in Hp. apply elem_of_app in Hp as [Hp|Hp].
  - destruct (Z.ltb_spec (lock_start (sle_lock e)) (lock_start lock)) as [Hlt|]; [|by apply not_elem_of_nil in Hp].
    apply list_elem_of_singleton in Hp as ->. fold (left_of lock e). destruct (left_valid lock e He Hlt) as [L1 L2]; [unfold valid in *; lia|].
    unfold part_of, covers, valid in *. rewrite L1, L2. split_and!; try done; lia.
  - destruct (Z.ltb_spec (lock_end lock) (lock_end (sle_lock e))) as [Hlt|]; [|by apply not_elem_of_nil in Hp].
    apply list_elem_of_singleton in Hp as ->. fold (right_of lock e). destruct (right_valid lock e Hl Hlt) as [R1 R2].
    unfold part_of, covers, valid in *. rewrite R1, R2. split_and!; try done; lia.
Qed.

Lemma pieces_cover lock e b : valid lock -> valid (sle_lock e) -> overlaps (sle_lock e) lock = true -> covers (sle_lock e) b -> ~ covers lock b ->
  exists p, p ∈ pieces lock e /\ covers (sle_lock p) b.
Proof.
  intros Hl He Hov Hc Hn. unfold overlaps in Hov. apply andb_true_iff in Hov as [O1%Z.leb_le O2%Z.leb_le].
  pose proof (lock_end_bound lock). pose proof (lock_end_bound (sle_lock e)). unfold pieces.
  destruct (decide (b < lock_start lock)) as [Hb|Hb].
  - exists (left_of lock e). unfold covers, valid in *. rewrite (proj2 (Z.ltb_lt _ _)) by lia. split; [fold (left_of lock e); set_solver|].
    destruct (left_valid lock e) as [L1 L2]; [done | lia | lia|]. rewrite L1, L2. lia.
  - exists (right_of lock e). unfold covers in *. rewrite (proj2 (Z.ltb_lt (lock_end lock) _)) by lia. split; [fold (right_of lock e); set_solver|].
    destruct (right_valid lock e Hl) as [R1 R2]; [lia|]. rewrite R1, R2. lia.
Qed.

Lemma pieces_outside lock e p b : valid lock -> valid (sle_lock e) -> overlaps (sle_lock e) lock = true -> p ∈ pieces lock e -> covers (sle_lock p) b -> ~ covers lock b.
Proof.
  intros Hl He Hov Hp Hc. unfold overlaps in Hov. apply andb_true_iff in Hov as [O1%Z.leb_le O2%Z.leb_le].
  pose proof (lock_end_bound lock). pose proof (lock_end_bound (sle_lock e)). unfold pieces in Hp. apply elem_of_app in Hp as [Hp|Hp].
  - destruct (Z.ltb_spec (lock_start (sle_lock e)) (lock_start lock)) as [Hlt|]; [|by apply not_elem_of_nil in Hp].
    apply list_elem_of_singleton in Hp as ->. fold (left_of lock e) in Hc. destruct (left_valid lock e He Hlt) as [L1 L2]; [unfold valid in *; lia|].
    unfold covers in *. rewrite L1, L2 in Hc. lia.
  - destruct (Z.ltb_spec (lock_end lock) (lock_end (sle_lock e))) as [Hlt|]; [|by apply not_elem_of_nil in Hp].
    apply list_elem_of_singleton in Hp as ->. fold (right_of lock e) in Hc. destruct (right_valid lock e Hl Hlt) as [R1 R2].
    unfold covers in *. rewrite R1, R2 in Hc. lia.
Qed.

Lemma overlaps_covers l1 l2 b : covers l1 b -> covers l2 b -> overlaps l1 l2 = true.
Proof. unfold covers, overlaps. intros H1 H2. apply andb_true_iff. rewrite !Z.leb_le. lia. Qed.

(** The subtraction takes away the bytes of the range from the locks it is about. *)
Lemma subtract_holds owner st lock es o ty b : valid lock -> sound es ->
  holds (subtract_spec own owner st lock es) o ty b <->
  exists e, e ∈ es /\ same (sle_owner e) o /\ lock_type (sle_lock e) = ty /\ covers (sle_lock e) b /\ ~ (target own owner st e = true /\ covers lock b).
Proof.
  intros Hl Hs. unfold sound in Hs. rewrite Forall_forall in Hs. unfold subtract_spec. rewrite held_app. split.
  - intros [(e & He & Ho & Ht & Hc)|(p & Hp & Ho & Ht & Hc)].
    + apply list_elem_of_In, filter_In in He as [He%list_elem_of_In Hn]. exists e. split_and!; try done. intros [H1 H2].
      unfold touched in Hn. rewrite H1, (overlaps_covers _ _ b Hc H2) in Hn. done.
    + apply list_elem_of_In, in_flat_map in Hp as (e & He & Hp%list_elem_of_In). apply filter_In in He as [He%list_elem_of_In Hth].
      apply andb_true_iff in Hth as [Hta Hov]. destruct (Hs e He) as [Hv Hg].
      destruct (pieces_part lock e p Hl Hv Hov Hp) as (P1 & P2 & _ & _ & _ & _ & _ & P3).
      exists e. rewrite P1 in Ho. rewrite P2 in Ht. split_and!; [done | done | done | by apply P3|]. intros [_ Hcl].
      by apply (pieces_outside lock e p b).
  - intros (e & He & Ho & Ht & Hc & Hn). destruct (touched own owner st lock e) eqn:T.
    + right. pose proof T as [Hta Hov]%andb_true_iff. destruct (Hs e He) as [Hv Hg].
      destruct (pieces_cover lock e b Hl Hv Hov Hc) as (p & Hp & Hpc); [naive_solver|].
      destruct (pieces_part lock e p Hl Hv Hov Hp) as (P1 & P2 & _ & _ & _ & _ & _ & P3).
      exists p. rewrite P1, P2. split_and!; try done. apply list_elem_of_In, in_flat_map. exists e. split; [|by apply list_elem_of_In].
      apply filter_In. split; [by apply list_elem_of_In | done].
    + left. exists e. split_and!; try done. apply list_elem_of_In, filter_In. split; [by apply list_elem_of_In | by rewrite T].
Qed.

(** ** Merging *)

(** The locks of one owner do not overlap. *)
Definition disj (e f : state_lock_entry_t) : Prop := same (sle_owner e) (sle_owner f) -> forall b, covers (sle_lock e) b -> covers (sle_lock f) b -> False.

Fixpoint apart (es : list state_lock_entry_t) : Prop :=
  match es with
  | [] => True
  | e :: es => Forall (disj e) es /\ apart es
  end.

Lemma disj_sym e f : disj e f -> disj f e.
Proof. intros H Hs b H1 H2. by apply (H (same_sym _ _ Hs) b). Qed.

Lemma apart_app es1 es2 : apart (es1 ++ es2) <-> apart es1 /\ apart es2 /\ Forall (fun e => Forall (disj e) es2) es1.
Proof.
  induction es1 as [|e es1 IH]; cbn; [naive_solver|]. rewrite Forall_app, IH, Forall_cons. naive_solver.
Qed.

Lemma apart_perm es es' : es ≡ₚ es' -> apart es -> apart es'.
Proof.
  induction 1 as [|e es es' Hp IH|e f es|es1 es2 es3 _ IH1 _ IH2]; cbn; [done | | | by auto].
  - intros [H1 H2]. split; [by rewrite <- Hp | by apply IH].
  - rewrite !Forall_cons. intros ((H1 & H2) & H3 & H4). split_and!; [by apply disj_sym | done | done | done].
Qed.

Lemma disj_part e f e' : part_of e e' -> disj e f -> disj e' f.
Proof. intros (P1 & _ & _ & _ & _ & _ & _ & P2) H Hs b H1 H2. rewrite P1 in Hs. apply (H Hs b); [by apply P2 | done]. Qed.

Section top.
(** A new lock of [owner], of type [t]. *)
Context (owner : Z) (t : fsal_lock_t).

(** The lock [e] has no byte of [n], if it is of the same owner. *)
Definition clear (n : fsal_lock_param_t) (e : state_lock_entry_t) : Prop :=
  same (sle_owner e) owner -> forall b, covers (sle_lock e) b -> covers n b -> False.

(** What is held with the lock [n] on top of the locks [es]. *)
Definition topped (n : fsal_lock_param_t) (es : list state_lock_entry_t) (o : Z) (ty : fsal_lock_t) (b : Z) : Prop :=
  (same owner o /\ covers n b /\ ty = t) \/ (holds es o ty b /\ ~ (same owner o /\ covers n b)).

Lemma topped_perm n es es' o ty b : es ≡ₚ es' -> topped n es o ty b <-> topped n es' o ty b.
Proof. intros H. unfold topped. by rewrite (holds_perm _ _ _ _ _ H). Qed.

Lemma topped_clear n es o ty b : Forall (clear n) es -> topped n es o ty b <-> (same owner o /\ covers n b /\ ty = t) \/ holds es o ty b.
Proof.
  intros Hc. unfold topped. split; [naive_solver|]. intros [H|H]; [by left|]. right. split; [done|]. intros [H1 H2].
  destruct H as (e & He & Ho & Ht & Hcv). rewrite Forall_forall in Hc. apply (Hc e He (same_trans _ _ _ Ho (same_sym _ _ H1)) b Hcv H2).
Qed.

(** Replacing a lock of the owner by parts of it that have its bytes outside the new lock. *)
Lemma topped_cut n e ps rest o ty b : (forall p, p ∈ ps -> part_of e p) -> same (sle_owner e) owner ->
  (forall b, covers (sle_lock e) b -> ~ covers n b -> exists p, p ∈ ps /\ covers (sle_lock p) b) ->
  topped n (ps ++ rest) o ty b <-> topped n (e :: rest) o ty b.
Proof.
  intros Hp Ho Hc. unfold topped. change (e :: rest) with ([e] ++ rest). rewrite !held_app, holds_one.
  assert (~ (same owner o /\ covers n b) -> holds ps o ty b <-> same (sle_owner e) o /\ lock_type (sle_lock e) = ty /\ covers (sle_lock e) b) as H; [|tauto].
  intros Hn. split.
  - intros (p & Hin & H1 & H2 & H3). destruct (Hp p Hin) as (P1 & P2 & _ & _ & _ & _ & _ & P3). rewrite P1 in H1. rewrite P2 in H2. auto.
  - intros (H1 & H2 & H3). destruct (Hc b H3) as (p & Hin & Hcp).
    { intros Hcn. apply Hn. split; [|done]. by apply (same_trans _ (sle_owner e)); [apply same_sym|]. }
    destruct (Hp p Hin) as (P1 & P2 & _). exists p. rewrite P1, P2. auto.
Qed.

(** A lock of the owner that is merged into the new one. *)
Lemma topped_grow n n' e rest o ty b : same (sle_owner e) owner -> (forall b, covers n' b <-> covers n b \/ covers (sle_lock e) b) ->
  lock_type (sle_lock e) = t \/ (forall b, covers (sle_lock e) b -> covers n b) -> Forall (disj e) rest ->
  topped n' rest o ty b <-> topped n (e :: rest) o ty b.
Proof.
  intros Ho Hc Ht Hd. unfold topped. change (e :: rest) with ([e] ++ rest). rewrite held_app, holds_one, Hc.
  assert (same owner o -> same (sle_owner e) o) as S1 by (by apply same_trans).
  assert (same (sle_owner e) o -> same owner o) as S2 by (by apply same_trans, same_sym).
  assert (holds rest o ty b -> same owner o -> covers (sle_lock e) b -> False) as S3.
  { intros (f & Hf & Hfo & _ & Hfc) H1 H2. rewrite Forall_forall in Hd. apply (Hd f Hf (same_trans _ _ _ (S1 H1) (same_sym _ _ Hfo)) b H2 Hfc). }
  assert (covers n b \/ ~ covers n b) as Dn by (unfold covers; lia). assert (same owner o \/ ~ same owner o) as Do by (destruct (decide (same owner o)); auto).
  split.
  - intros [(H1 & [H2|H2] & ->)|[H1 H2]]; [by left; auto | | right; tauto].
    destruct Dn as [Dn|Dn]; [by left; auto|]. right. split; [|tauto]. left. destruct Ht as [Ht|Ht]; [auto | naive_solver].
  - intros [(H1 & H2 & H3)|[[(H1 & <- & H3)|H1] H2]]; [by left; auto | | right; tauto]. left. destruct Ht as [Ht|Ht]; naive_solver.
Qed.

(** What a step of the loop does, with the other locks [rest] of the list apart from this one. *)
Lemma merge_step_exact n e rest : valid n -> lock_end n < UINT64_MAX -> lock_type n = t -> valid (sle_lock e) -> sle_blocked e = STATE_NON_BLOCKING ->
  (same (sle_owner e) owner -> lock_end (sle_lock e) < UINT64_MAX) ->
  match merge_step own owner n e with
  | Keep => clear n e
  | Gone n' => valid n' /\ lock_end n' < UINT64_MAX /\ lock_type n' = t /\ (forall f, disj e f -> clear n f -> clear n' f)
      /\ (Forall (disj e) rest -> forall o ty b, topped n' rest o ty b <-> topped n (e :: rest) o ty b)
  | Shrunk e' => part_of e e' /\ clear n e' /\ forall o ty b, topped n (e' :: rest) o ty b <-> topped n (e :: rest) o ty b
  | Split l r => part_of e l /\ part_of e r /\ clear n l /\ clear n r /\ disj l r /\ forall o ty b, topped n (l :: r :: rest) o ty b <-> topped n (e :: rest) o ty b
  end.
Proof.
  intros Hn HnM Hnt He Hb HeM. pose proof (lock_end_bound n). pose proof (lock_end_bound (sle_lock e)). pose proof He as [He1 He2]. pose proof Hn as [Hn1 Hn2].
  unfold merge_step. destruct (different_owners own (sle_owner e) owner) eqn:Ho; [intros Hs; unfold same in Hs; congruence|].
  change (same (sle_owner e) owner) in Ho. specialize (HeM Ho). rewrite bool_decide_eq_true_2 by done. cbn [negb]. rewrite (u64_within (lock_end (sle_lock e) + 1)), (u64_within (lock_end n + 1)) by lia.
  destruct (Z.ltb_spec (lock_end (sle_lock e) + 1) (lock_start n)) as [H1|H1]; [intros _ b [??] [??]; lia|].
  destruct (Z.ltb_spec (lock_end n + 1) (lock_start (sle_lock e))) as [H2|H2]; [intros _ b [??] [??]; lia|].
  assert (lock_start (sle_lock e) < lock_start n -> part_of e (left_of n e) /\ clear n (left_of n e)
    /\ lock_start (sle_lock (left_of n e)) = lock_start (sle_lock e) /\ lock_end (sle_lock (left_of n e)) = lock_start n - 1) as HL.
  { intros Hlt. destruct (left_valid n e He Hlt ltac:(lia)) as [L1 L2]. unfold part_of, clear, covers, valid. rewrite L1, L2. split_and!; try done; lia. }
  assert (lock_end n < lock_end (sle_lock e) -> part_of e (right_of n e) /\ clear n (right_of n e)
    /\ lock_start (sle_lock (right_of n e)) = lock_end n + 1 /\ lock_end (sle_lock (right_of n e)) = lock_end (sle_lock e)) as HR.
  { intros Hlt. destruct (right_valid n e Hn Hlt) as [R1 R2]. unfold part_of, clear, covers, valid. rewrite R1, R2. split_and!; try done; lia. }
  destruct (negb _ && _) eqn:Hcut.
  - destruct (Z.ltb_spec (lock_end n) (lock_end (sle_lock e))) as [Hr|Hr]; [destruct (Z.ltb_spec (lock_start (sle_lock e)) (lock_start n)) as [Hl|Hl]|].
    + destruct (HL Hl) as (L1 & L2 & L3 & L4), (HR Hr) as (R1 & R2 & R3 & R4). refine (conj L1 (conj R1 (conj L2 (conj R2 (conj _ _))))).
      * intros _ b. unfold covers. rewrite L3, L4, R3, R4. lia.
      * intros o ty b. apply (topped_cut n e [left_of n e; right_of n e] rest); [set_solver | done|]. intros c C1 C2.
        unfold covers in *. destruct (decide (c < lock_start n)); [exists (left_of n e) | exists (right_of n e)]; rewrite ?L3, ?L4, ?R3, ?R4; split; [set_solver | lia | set_solver | lia].
    + destruct (HR Hr) as (R1 & R2 & R3 & R4). refine (conj R1 (conj R2 _)).
      intros o ty b. apply (topped_cut n e [right_of n e] rest); [set_solver | done|]. intros c C1 C2.
      exists (right_of n e). unfold covers in *. rewrite R3, R4. split; [set_solver | lia].
    + rewrite orb_false_l in Hcut. apply andb_true_iff in Hcut as [_ Hl%Z.ltb_lt]. destruct (HL Hl) as (L1 & L2 & L3 & L4). refine (conj L1 (conj L2 _)).
      intros o ty b. apply (topped_cut n e [left_of n e] rest); [set_solver | done|]. intros c C1 C2.
      exists (left_of n e). unfold covers in *. rewrite L3, L4. split; [set_solver | lia].
  - destruct (gone_valid n e Hn He) as (G1 & G2 & G3).
    match type of G3 with valid ?x => set (n' := x) in * end.
    assert (forall b, covers n' b <-> covers n b \/ covers (sle_lock e) b) as Hc by (intros b; unfold covers; rewrite G1, G2; lia).
    refine (conj G3 (conj _ (conj Hnt (conj _ _)))); [lia | |].
    + intros f Hd Hf Hs b B1 [B2|B2]%Hc; [by apply (Hf Hs b)|]. by apply (Hd (same_trans _ _ _ Ho (same_sym _ _ Hs)) b).
    + intros Hd o ty b. apply topped_grow; [done | done | | done]. apply andb_false_iff in Hcut as [Hcut|Hcut].
      * left. apply negb_false_iff, bool_decide_eq_true in Hcut. congruence.
      * right. apply orb_false_iff in Hcut as [C1%Z.ltb_ge C2%Z.ltb_ge]. unfold covers. lia.
Qed.

(** A granted lock that does not reach the last byte, if it is of the owner. *)
Definition short (e : state_lock_entry_t) : Prop :=
  valid (sle_lock e) /\ sle_blocked e = STATE_NON_BLOCKING /\ (same (sle_owner e) owner -> lock_end (sle_lock e) < UINT64_MAX).

Lemma short_part e p : part_of e p -> short e -> short p.
Proof.
  intros (P1 & _ & P2 & _ & _ & _ & P3 & P4) (S1 & S2 & S3). unfold short. rewrite P1, P2. split_and!; [done..|]. intros Hs. specialize (S3 Hs).
  destruct (P4 (lock_end (sle_lock p))) as [_ H]; [destruct P3; unfold covers; lia | lia].
Qed.

(** Locks [es] that are apart from each other and from the lock [n], which is on top of the locks [es0]. *)
Record placed (n : fsal_lock_param_t) (es : list state_lock_entry_t) (n0 : fsal_lock_param_t) (es0 : list state_lock_entry_t) : Prop := {
  pl_valid : valid n; pl_end : lock_end n < UINT64_MAX; pl_type : lock_type n = t; pl_short : Forall short es; pl_apart : apart es;
  pl_topped : forall o ty b, topped n es o ty b <-> topped n0 es0 o ty b }.

Lemma placed_perm n es es' n0 es0 : es ≡ₚ es' -> placed n es n0 es0 -> placed n es' n0 es0.
Proof.
  intros Hp [H1 H2 H3 H4 H5 H6]. constructor; [done..| by rewrite <- Hp | by apply (apart_perm es) |]. intros. by rewrite <- H6, (topped_perm n es es').
Qed.

(** A step of the loop. *)
Lemma placed_step n e rest n0 es0 : placed n (e :: rest) n0 es0 ->
  match merge_step own owner n e with
  | Keep => clear n e
  | Gone n' => placed n' rest n0 es0 /\ forall f, f ∈ rest -> clear n f -> clear n' f
  | Shrunk e' => placed n (e' :: rest) n0 es0 /\ clear n e'
  | Split l r => placed n (l :: r :: rest) n0 es0 /\ clear n l /\ clear n r
  end.
Proof.
  intros [H1 H2 H3 [H4 H4']%Forall_cons [H5 H5'] H6]. destruct H4 as (S1 & S2 & S3). pose proof (merge_step_exact n e rest H1 H2 H3 S1 S2 S3) as H.
  assert (forall p, part_of e p -> short p /\ Forall (disj p) rest) as Hp.
  { intros p Hp. split; [by apply (short_part e)|]. eapply Forall_impl; [exact H5|]. intros f. by apply disj_part. }
  destruct (merge_step own owner n e) as [|n'|e'|l r].
  - done.
  - destruct H as (G1 & G2 & G3 & G4 & G5). split; [constructor; try done; intros; by rewrite G5|]. rewrite Forall_forall in H5. eauto.
  - destruct H as (G1 & G2 & G3). destruct (Hp _ G1). split; [|done]. constructor; [done..| by constructor | done | intros; by rewrite G3].
  - destruct H as (G1 & G2 & G3 & G4 & G5 & G6). destruct (Hp _ G1), (Hp _ G2). split; [|done]. constructor; [done..| by constructor; [|constructor] | | intros; by rewrite G6].
    cbn. by rewrite Forall_cons.
Qed.

(** At the end of the loop the locks that stay are apart from the new lock. *)
Lemma merge_pure_exact k : forall n kept todo n0 es0 n' es, placed n (kept ++ todo) n0 es0 -> Forall (clear n) kept ->
  merge_pure own owner k n kept todo = Some (n', es) -> placed n' es n0 es0 /\ Forall (clear n') es.
Proof.
  induction k as [|k IH]; intros n kept todo n0 es0 n' es Hpl Hc Hr; (destruct todo as [|e todo]; [rewrite app_nil_r in Hpl; by inversion Hr; subst|]); [done|].
  cbn [merge_pure] in Hr. apply (placed_perm _ _ (e :: kept ++ todo)) in Hpl; [|by rewrite Permutation_middle].
  pose proof (placed_step n e _ n0 es0 Hpl) as Hs. destruct (merge_step own owner n e) as [|n1|e'|l r].
  - apply IH with (n0 := n0) (es0 := es0) in Hr; [done | | apply Forall_app; split; [done | by apply Forall_singleton]]. eapply placed_perm; [|exact Hpl]. by rewrite <- app_assoc, Permutation_middle.
  - destruct Hs as [Hs1 Hs2]. apply IH with (n0 := n0) (es0 := es0) in Hr; [done..|]. rewrite Forall_forall in *. set_solver.
  - destruct Hs as [Hs1 Hs2]. apply IH with (n0 := n0) (es0 := es0) in Hr; [done | | apply Forall_app; split; [done | by apply Forall_singleton]]. eapply placed_perm; [|exact Hs1]. by rewrite <- app_assoc, Permutation_middle.
  - destruct Hs as (Hs1 & Hs2 & Hs3). destruct todo as [|f todo].
    + injection Hr as <- <-. rewrite app_nil_r in Hs1. split; [|apply Forall_app; split; [done | by apply Forall_cons, conj, Forall_singleton]]. eapply placed_perm; [|exact Hs1]. by rewrite (Permutation_app_comm kept).
    + apply IH with (n0 := n0) (es0 := es0) in Hr; [done | | apply Forall_app; split; [done | by apply Forall_singleton]]. eapply placed_perm; [|exact Hs1].
      rewrite <- app_assoc. etransitivity; [|apply Permutation_middle]. apply perm_skip. by rewrite Permutation_cons_append, <- app_assoc.
Qed.

(** The new lock [en] gives its owner its bytes, takes none from others and leaves the locks apart. *)
Lemma merge_exact k en es n' es' : sle_owner en = owner -> lock_type (sle_lock en) = t -> valid (sle_lock en) -> lock_end (sle_lock en) < UINT64_MAX ->
  Forall short es -> apart es -> merge_pure own owner k (sle_lock en) [] es = Some (n', es') ->
  apart (es' ++ [with_lock n' en]) /\ (sle_blocked en = STATE_NON_BLOCKING -> Forall short (es' ++ [with_lock n' en]))
  /\ forall o ty b, holds (es' ++ [with_lock n' en]) o ty b <-> topped (sle_lock en) es o ty b.
Proof.
  intros Ho Ht Hv He Hs Ha Hr. destruct (merge_pure_exact k (sle_lock en) [] es (sle_lock en) es n' es') as [[P1 P2 P3 P4 P5 P6] Hc]; [by constructor | done | done|].
  split_and!.
  - apply apart_app. split_and!; [done | by split|]. eapply Forall_impl; [exact Hc|]. intros e Hce. constructor; [|done]. intros Hse b. cbn in Hse. rewrite Ho in Hse. by apply Hce.
  - intros Hb. apply Forall_app. split; [done|]. constructor; [|done]. by split_and!.
  - intros o ty b. rewrite <- P6, topped_clear, held_app, holds_one by done. cbn. rewrite Ho, P3. naive_solver.
Qed.

End top.

End held.

End LockHeld.
