(* ===== verification/LockExcl.v ===== *)
(** No two owners have conflicting locks. Module [LockExcl]. The locks left by a subtraction, and those left by a merge,
    are parts of the locks there were; a merged lock has the bytes of the new lock and of locks of its owner and its
    type. So neither makes a conflict, whatever the ranges, those up to the last byte included. *)

From S2P Require Import Prelude StateTypes StateLock LockBook LockSubtract LockMerge LockHeld.
Import Sal Locks LockBook LockSubtract LockMerge LockHeld.
Local Open Scope Z_scope.

Module LockExcl.

Section excl.
Context (own : Z -> state_owner_t).

(** A request of [owner] conflicts with the lock [e]: they have a byte in common, are of different owners, and one of
    them is exclusive. *)
Definition conflicts (lock : fsal_lock_param_t) (owner : Z) (e : state_lock_entry_t) : bool :=
  overlaps (sle_lock e) lock && (is_write (sle_lock e) || is_write lock) && different_owners own (sle_owner e) owner.

Definition exclusive (es : list state_lock_entry_t) : Prop := forall e f, e ∈ es -> f ∈ es -> conflicts (sle_lock f) (sle_owner f) e = false.

Lemma overlaps_spec l1 l2 : valid l1 -> valid l2 -> overlaps l1 l2 = true <-> exists b, covers l1 b /\ covers l2 b.
Proof.
  intros [H1 H2] [H3 H4]. split; [|intros (b & Hb1 & Hb2); by apply (overlaps_covers _ _ b)].
  intros [A1%Z.leb_le A2%Z.leb_le]%andb_true_iff. exists (Z.max (lock_start l1) (lock_start l2)). unfold covers. lia.
Qed.

Lemma conflicts_spec lock owner e : valid lock -> valid (sle_lock e) ->
  conflicts lock owner e = true <-> (exists b, covers (sle_lock e) b /\ covers lock b) /\ (lock_type (sle_lock e) = FSAL_LOCK_W \/ lock_type lock = FSAL_LOCK_W)
    /\ ~ same own (sle_owner e) owner.
Proof.
  intros Hl He. unfold conflicts, is_write, same. rewrite !andb_true_iff, orb_true_iff, overlaps_spec, !bool_decide_eq_true by done.
  rewrite not_false_iff_true. tauto.
Qed.

(** Locks with fewer bytes have fewer conflicts. *)
Lemma conflicts_less lock lock' owner e e' : valid lock -> valid (sle_lock e) -> valid lock' -> valid (sle_lock e') ->
  conflicts lock' owner e' = true -> sle_owner e' = sle_owner e -> lock_type (sle_lock e') = lock_type (sle_lock e) -> lock_type lock' = lock_type lock ->
  (forall b, covers (sle_lock e') b -> covers lock' b -> exists b, covers (sle_lock e) b /\ covers lock b) -> conflicts lock owner e = true.
Proof.
  intros H1 H2 H3 H4 Hc Ho Ht Ht' Hb. apply conflicts_spec in Hc as ((b & B1 & B2) & Hw & Hs); [|done|done]. apply conflicts_spec; [done..|].
  rewrite Ho, Ht, Ht' in *. split; [by apply (Hb b)|]. done.
Qed.

Lemma conflicts_sym e f : conflicts (sle_lock f) (sle_owner f) e = conflicts (sle_lock e) (sle_owner e) f.
Proof.
  unfold conflicts, overlaps. rewrite (andb_comm (_ <=? lock_end (sle_lock e))), (orb_comm (is_write (sle_lock e))). f_equal.
  destruct (different_owners own (sle_owner e) (sle_owner f)) eqn:E1, (different_owners own (sle_owner f) (sle_owner e)) eqn:E2; try done.
  - apply same_sym in E2. unfold same in E2. congruence.
  - apply same_sym in E1. unfold same in E1. congruence.
Qed.

(** ** Parts of locks *)

(** The locks [es'] are parts of the locks [es]. *)
Definition derived (es es' : list state_lock_entry_t) : Prop := forall e', e' ∈ es' -> exists e, e ∈ es /\ part_of e e'.

Lemma part_refl e : valid (sle_lock e) -> part_of e e.
Proof. by intros H. Qed.

Lemma part_trans e1 e2 e3 : part_of e1 e2 -> part_of e2 e3 -> part_of e1 e3.
Proof. intros (A1 & A2 & A3 & A4 & A5 & A6 & A7 & A8) (B1 & B2 & B3 & B4 & B5 & B6 & B7 & B8). split_and!; [congruence..| done | auto]. Qed.

Lemma derived_sound es es' : derived es es' -> sound es -> sound es'.
Proof.
  intros Hd Hs. unfold sound in *. rewrite Forall_forall in *. intros e' He'. destruct (Hd e' He') as (e & He & P1 & P2 & P3 & _ & _ & _ & P4 & _).
  destruct (Hs e He) as [_ H]. split; [done | congruence].
Qed.

Lemma derived_exclusive es es' : derived es es' -> sound es -> exclusive es -> exclusive es'.
Proof.
  intros Hd Hs Hx e' f' He' Hf'. destruct (Hd e' He') as (e & He & P1 & P2 & _ & _ & _ & _ & P3 & P4), (Hd f' Hf') as (f & Hf & Q1 & Q2 & _ & _ & _ & _ & Q3 & Q4).
  unfold sound in Hs. rewrite Forall_forall in Hs. destruct (Hs e He) as [He1 _], (Hs f Hf) as [Hf1 _].
  apply not_true_iff_false. intros Hc. rewrite Q1 in Hc. specialize (Hx e f He Hf). apply not_true_iff_false in Hx. apply Hx.
  eapply (conflicts_less _ (sle_lock f') _ _ e'); eauto.
Qed.

Lemma subtract_derived owner st lock es : valid lock -> sound es -> derived es (subtract_spec own owner st lock es).
Proof.
  intros Hl Hs e' He'. unfold sound in Hs. rewrite Forall_forall in Hs. unfold subtract_spec in He'. apply elem_of_app in He' as [He'|He'].
  - apply list_elem_of_In, filter_In in He' as [He'%list_elem_of_In _]. exists e'. split; [done|]. by apply part_refl, Hs.
  - apply list_elem_of_In, in_flat_map in He' as (e & He & Hp%list_elem_of_In). apply filter_In in He as [He%list_elem_of_In Hth].
    apply andb_true_iff in Hth as [_ Hov]. exists e. split; [done|]. apply (pieces_part lock); [done | by apply Hs | done | done].
Qed.

(** ** Merging *)

(** The bytes of the lock [n] are those of [n0] or of locks [es] of the owner and of the type of [n]. *)
Definition from (owner : Z) (n0 n : fsal_lock_param_t) (es : list state_lock_entry_t) : Prop :=
  valid n /\ lock_type n = lock_type n0 /\ forall b, covers n b -> covers n0 b \/ exists e, e ∈ es /\ same own (sle_owner e) owner /\ lock_type (sle_lock e) = lock_type n /\ covers (sle_lock e) b.

Lemma merge_step_from owner n e : valid n -> valid (sle_lock e) ->
  match merge_step own owner n e with
  | Keep => True
  | Gone n' => valid n' /\ lock_type n' = lock_type n /\ same own (sle_owner e) owner
      /\ forall b, covers n' b -> covers n b \/ (lock_type (sle_lock e) = lock_type n /\ covers (sle_lock e) b)
  | Shrunk e' => part_of e e'
  | Split l r => part_of e l /\ part_of e r
  end.
Proof.
  intros Hn He. pose proof (lock_end_bound n). pose proof (lock_end_bound (sle_lock e)). pose proof He as [He1 He2]. pose proof Hn as [Hn1 Hn2].
  unfold merge_step. destruct (different_owners own (sle_owner e) owner) eqn:Ho; [done|].
  destruct (negb (bool_decide (sle_blocked e = _))); [done|].
  assert (forall x, 0 <= x <= UINT64_MAX -> u64 (x + 1) = x + 1 \/ u64 (x + 1) = 0 /\ x = UINT64_MAX) as Hu.
  { intros x Hx. destruct (decide (x = UINT64_MAX)) as [->|]; [by right|]. left. apply u64_within. lia. }
  destruct (Z.ltb_spec (u64 (lock_end (sle_lock e) + 1)) (lock_start n)) as [H1|H1]; [done|].
  destruct (Z.ltb_spec (u64 (lock_end n + 1)) (lock_start (sle_lock e))) as [H2|H2]; [done|].
  assert (lock_start n <= lock_end (sle_lock e) + 1 /\ lock_start (sle_lock e) <= lock_end n + 1) as [T1 T2].
  { destruct (Hu (lock_end (sle_lock e)) ltac:(lia)) as [E|[E ?]], (Hu (lock_end n) ltac:(lia)) as [E'|[E' ?]]; rewrite E in H1; rewrite E' in H2; lia. }
  destruct (negb _ && _) eqn:Hcut.
  - assert (lock_start (sle_lock e) < lock_start n -> part_of e (left_of n e)) as HL.
    { intros Hlt. destruct (left_valid n e He Hlt ltac:(lia)) as [L1 L2]. unfold part_of, covers, valid. rewrite L1, L2. split_and!; try done; lia. }
    assert (lock_end n < lock_end (sle_lock e) -> part_of e (right_of n e)) as HR.
    { intros Hlt. destruct (right_valid n e Hn Hlt) as [R1 R2]. unfold part_of, covers, valid. rewrite R1, R2. split_and!; try done; lia. }
    destruct (Z.ltb_spec (lock_end n) (lock_end (sle_lock e))); [destruct (Z.ltb_spec (lock_start (sle_lock e)) (lock_start n)); [split|]; auto|].
    rewrite orb_false_l in Hcut. apply andb_true_iff in Hcut as [_ Hl%Z.ltb_lt]. auto.
  - destruct (gone_valid n e Hn He) as (G1 & G2 & G3). match type of G3 with valid ?x => set (n' := x) in * end.
    split_and!; [done | done | done|]. unfold covers. rewrite G1, G2. intros b Hb.
    destruct (decide (lock_start n <= b <= lock_end n)); [by left|]. right. split; [|lia].
    apply andb_false_iff in Hcut as [Hcut|[C1%Z.ltb_ge C2%Z.ltb_ge]%orb_false_iff]; [|lia]. by apply negb_false_iff, bool_decide_eq_true in Hcut.
Qed.

Lemma merge_pure_from owner n0 es0 k : forall n kept todo n' es, from owner n0 n es0 -> derived es0 (kept ++ todo) -> sound es0 ->
  merge_pure own owner k n kept todo = Some (n', es) -> from owner n0 n' es0 /\ derived es0 es.
Proof.
  induction k as [|k IH]; intros n kept todo n' es Hf Hd Hs Hr; (destruct todo as [|e todo]; [rewrite app_nil_r in Hd; by inversion Hr; subst|]); [done|].
  cbn [merge_pure] in Hr. pose proof (Hf) as (F1 & F2 & F3). destruct (Hd e ltac:(set_solver)) as (e0 & He0 & Hp). pose proof Hp as (P1 & P2 & _ & _ & _ & _ & P3 & P4).
  pose proof (merge_step_from owner n e F1 P3) as Hst.
  assert (forall ps A B : list state_lock_entry_t, (forall p, p ∈ ps -> part_of e p) -> (forall x, x ∈ A ++ B -> x ∈ ps \/ x ∈ kept ++ todo) -> derived es0 (A ++ B)) as Hd'.
  { intros ps A B Hps HAB x Hx. destruct (HAB x Hx) as [Hx'|Hx']; [exists e0; split; [done|]; by apply (part_trans _ e); auto | apply Hd; set_solver]. }
  destruct (merge_step own owner n e) as [|n1|e'|l r].
  - by apply IH in Hr; [| |rewrite <- app_assoc|].
  - destruct Hst as (G1 & G2 & G3 & G4). apply IH in Hr; [done | | apply (Hd' []); set_solver | done]. split_and!; [done | congruence|].
    intros b Hb. destruct (G4 b Hb) as [H|[H1 H2]].
    + destruct (F3 b H) as [?|(f & ?)]; [by left | right; exists f; by rewrite G2].
    + right. exists e0. rewrite <- P1, <- P2, G2. auto.
  - apply IH in Hr; [done | done | apply (Hd' [e']); set_solver | done].
  - destruct Hst as [S1 S2]. destruct todo as [|f todo].
    + injection Hr as <- <-. split; [done|]. apply (Hd' [l; r]); set_solver.
    + apply IH in Hr; [done | done | apply (Hd' [l; r]); set_solver | done].
Qed.

(** A lock that conflicts with none makes no conflict when it is merged. *)
Lemma merge_exclusive k en es n' es' : valid (sle_lock en) -> sle_blocked en = STATE_NON_BLOCKING -> sle_owner en <> 0 -> sound es -> exclusive es ->
  (forall e, e ∈ es -> conflicts (sle_lock en) (sle_owner en) e = false) -> merge_pure own (sle_owner en) k (sle_lock en) [] es = Some (n', es') ->
  sound (es' ++ [with_lock n' en]) /\ exclusive (es' ++ [with_lock n' en]).
Proof.
  intros Hv Hb Ho Hs Hx Hc Hr. destruct (merge_pure_from (sle_owner en) (sle_lock en) es k (sle_lock en) [] es n' es') as [(F1 & F2 & F3) Hd]; [| |done|done|].
  { split_and!; [done | done | by left]. }
  { intros e He. exists e. split; [done|]. apply part_refl. unfold sound in Hs. rewrite Forall_forall in Hs. by apply Hs. }
  pose proof (derived_sound es es' Hd Hs) as Hs'. split; [apply Forall_app; split; [done | by constructor]|].
  pose proof Hs as Hs0. unfold sound in Hs, Hs'. rewrite Forall_forall in Hs, Hs'.
  assert (forall e', e' ∈ es' -> conflicts n' (sle_owner en) e' = false) as Hn.
  { intros e' He'. apply not_true_iff_false. intros Hcf. destruct (Hd e' He') as (e & He & P1 & P2 & _ & _ & _ & _ & P3 & P4).
    apply conflicts_spec in Hcf as ((b & B1 & B2) & Hw & Hso); [|done|done]. rewrite P1, P2, F2 in *. destruct (F3 b B2) as [B3|(f & Hf & Q1 & Q2 & Q3)].
    - specialize (Hc e He). apply not_true_iff_false in Hc. apply Hc, conflicts_spec; [done | by apply Hs |]. split_and!; [by eauto | done | done].
    - specialize (Hx e f He Hf). apply not_true_iff_false in Hx. apply Hx, conflicts_spec; [by apply Hs | by apply Hs |]. split_and!; [by eauto | by rewrite Q2|].
      intros Hef. by apply Hso, (same_trans own _ (sle_owner f)). }
  intros e f [He|He]%elem_of_app [Hf|Hf]%elem_of_app; try (apply list_elem_of_singleton in He as ->); try (apply list_elem_of_singleton in Hf as ->).
  - by apply (derived_exclusive es es').
  - by apply Hn.
  - rewrite conflicts_sym. by apply Hn.
  - apply not_true_iff_false. intros (_ & _ & Hso)%conflicts_spec; [|done|done]. by apply Hso, same_refl.
Qed.

End excl.

End LockExcl.
