(* ===== verification/LockOps.v ===== *)
(** The operations on the locks of a file: [state_lock], [state_unlock] and [state_test], for exports that do not block
    locks themselves. Module [LockOps]. [lockable] is the invariant of a file; each operation returns, keeps it, and
    does to the locks of the file what its outcome says. *)

From S2P Require Import Prelude StateTypes StateLock LockBook LockSubtract LockNoMemory LockMerge LockHeld LockExcl.
Import Sal Locks LockBook LockSubtract LockNoMemory LockMerge LockHeld LockExcl.
Local Open Scope Z_scope.
Set Default Proof Using "Type".

Module LockOps.

Section ops.
Context {K : Type} (cache_inode_open : Z -> bool -> bool -> K -> cache_inode_status_t * K)
  (lock_op : Z -> Z -> fsal_lock_op_t -> fsal_lock_param_t -> K -> (fsal_errors_t * fsal_lock_param_t) * K)
  (cache_inode_kill_entry : Z -> K -> K) (update_delegation_stats : Z -> Z -> K -> K)
  (own : Z -> state_owner_t) (supports : Z -> fso -> bool) (unknown_owner : Z) (fuel : nat).
Notation state := (@state K).
Context (call_back : Z -> Z -> Z -> M state state_status_t) (entry : Z).

Notation ll := (lock_list entry).
Notation do_lock_op := (do_lock_op lock_op cache_inode_kill_entry own supports unknown_owner fuel).
Notation state_lock := (state_lock cache_inode_open lock_op cache_inode_kill_entry update_delegation_stats own supports unknown_owner fuel call_back).
Notation state_unlock := (state_unlock lock_op cache_inode_kill_entry own supports unknown_owner fuel call_back).

(** ** States with the same locks *)

Definition bump (d : Z) (f : file) : file := mk_file (regular f) (pin_refcnt f + d) (cleanup f).

(** What changes neither entries nor lists; the pin count of the file changes by [d]. *)
Record calm (d : Z) (s s' : state) : Prop := {
  calm_book : book own s'; calm_les : les s' = les s; calm_gl : forall l, glist l s' = glist l s; calm_supply : supply s' = supply s;
  calm_files : files s' = alter (bump d) entry (files s); calm_ctx : ctx_export s' = ctx_export s; calm_alive : forall o, alive s o -> alive s' o }.

Lemma bump_0 (m : gmap Z file) : alter (bump 0) entry m = m.
Proof. apply alter_id. intros [r p c] _. unfold bump. cbn. by rewrite Z.add_0_r. Qed.

Lemma bump_add d1 d2 (m : gmap Z file) : alter (bump d2) entry (alter (bump d1) entry m) = alter (bump (d1 + d2)) entry m.
Proof. rewrite alter_alter_eq. apply alter_ext. intros [r p c] _. unfold bump. cbn. by rewrite Z.add_assoc. Qed.

Lemma calm_refl (s : state) : book own s -> calm 0 s s.
Proof. intros H. split; [done.. | by rewrite bump_0 | done | done]. Qed.

Lemma calm_trans d1 d2 (s1 s2 s3 : state) : calm d1 s1 s2 -> calm d2 s2 s3 -> calm (d1 + d2) s1 s3.
Proof. intros [A1 A2 A3 A4 A5 A6 A7] [B1 B2 B3 B4 B5 B6 B7]. split; [done | congruence.. | by rewrite B5, A5, bump_add | congruence | auto]. Qed.

Lemma calm_fsal (s : state) k : book own s -> calm 0 s (set_fsal k s).
Proof. intros [B1 B2 B3 B4 B5 B6]. split; [done.. | by rewrite bump_0 | done | done]. Qed.

Lemma calm_ref (s : state) o n : book own s -> refs s !! o = Some n -> calm 0 s (set_refs (<[o := n + 1]> (refs s)) s).
Proof.
  intros [B1 B2 B3 B4 B5 B6] Hn. set (s' := set_refs _ _).
  assert (forall o', alive s o' -> alive s' o') as Ha.
  { intros o' (m & Hm & Hlt). unfold alive. cbn. destruct (decide (o = o')) as [<-|Hne]; [|rewrite lookup_insert_ne by done; by exists m].
    rewrite lookup_insert_eq. exists (n + 1). split; [done|]. change (users s' o) with (users s o). assert (m = n) as -> by congruence. lia. }
  split; [|done.. | by rewrite bump_0 | done | done]. split; [done | done | | | done | done].
  - intros o' Ho'. change (users s' o') with (users s o') in *. destruct (B3 o' Ho') as (m & Hm & Hle). cbn.
    destruct (decide (o = o')) as [<-|Hne]; [|rewrite lookup_insert_ne by done; by exists m].
    rewrite lookup_insert_eq. exists (n + 1). split; [done|]. assert (m = n) as -> by congruence. lia.
  - intros o' Ht Ho'. by apply Ha, B4.
Qed.

Lemma calm_view d (s s' : state) l : calm d s s' -> glist l s' = glist l s /\ view l s' = view l s.
Proof. intros [_ H1 H2 _ _ _ _]. unfold view. by rewrite H1, H2. Qed.

Definition pinned (d : Z) (s : state) : state := set_files (alter (bump d) entry (files s)) s.

Lemma calm_pinned (s : state) d : book own s -> calm d s (pinned d s).
Proof. by intros [B1 B2 B3 B4 B5 B6]. Qed.

Lemma pinned_insert (s : state) d f : files s !! entry = Some f -> pinned d s = set_files (<[entry := bump d f]> (files s)) s.
Proof.
  intros Hf. unfold pinned. f_equal. apply map_eq. intros x. destruct (decide (entry = x)) as [<-|Hne].
  - by rewrite lookup_insert_eq, lookup_alter_eq, Hf.
  - by rewrite lookup_insert_ne, lookup_alter_ne.
Qed.

Lemma pin_ok (s : state) p : files s !! entry = Some (mk_file true p false) -> cache_inode_inc_pin_ref entry s = done (CACHE_INODE_SUCCESS, pinned 1 s).
Proof.
  intros Hf. unfold cache_inode_inc_pin_ref, file_at. erewrite bind_done by (rewrite get_run, Hf; reflexivity). cbn [cleanup].
  by rewrite (pinned_insert s 1 _ Hf).
Qed.

Lemma unpin_ok (s : state) f : files s !! entry = Some f -> cache_inode_dec_pin_ref entry s = done (tt, pinned (-1) s).
Proof.
  intros Hf. unfold cache_inode_dec_pin_ref, file_at. erewrite bind_done by (rewrite get_run, Hf; reflexivity). by rewrite (pinned_insert s (-1) _ Hf).
Qed.

Lemma fs_call_ok {A} (f : K -> A * K) (s : state) : book own s -> exists s', call f s = done (fst (f (fsal s)), s') /\ calm 0 s s'.
Proof.
  intros Hb. exists (set_fsal (snd (f (fsal s))) s). split; [|by apply calm_fsal]. unfold call. by destruct (f (fsal s)).
Qed.

Lemma inc_owner_ok (s : state) o : book own s -> (exists n, refs s !! o = Some n) -> exists s', inc_state_owner_ref o s = done (tt, s') /\ calm 0 s s'.
Proof.
  intros Hb [n Hn]. exists (set_refs (<[o := n + 1]> (refs s)) s). split; [|by apply calm_ref].
  unfold inc_state_owner_ref. rewrite get_run, Hn. done.
Qed.

(** ** The invariant of a file *)

(** The export does not block locks itself, and its file system knows the owners of locks, or locks nothing. *)
Definition plain_export (s : state) : Prop :=
  supports (ctx_export s) fso_lock_support_async_block = false
  /\ (supports (ctx_export s) fso_lock_support = true -> supports (ctx_export s) fso_lock_support_owner = true).

(** The file is a regular one in the cache, its locks are granted ones of the export, and no two of them conflict. *)
Record lockable (s : state) : Prop := {
  lk_book : book own s; lk_idle : idle s; lk_plain : plain_export s;
  lk_file : exists p, files s !! entry = Some (mk_file true p false);
  lk_sound : sound (view ll s); lk_excl : exclusive own (view ll s);
  lk_export : Forall (fun e => sle_export e = ctx_export s /\ sle_type e = POSIX_LOCK) (view ll s);
  lk_unknown : alive s unknown_owner }.

Lemma calm_lockable d (s s' : state) : calm d s s' -> lockable s -> lockable s'.
Proof.
  intros C [H1 H2 H3 [p H4] H5 H6 H7 H8]. destruct (calm_view d s s' ll C) as [_ V]. destruct C as [C1 C2 C3 C4 C5 C6 C7]. split.
  - done.
  - unfold idle. by rewrite !C3.
  - unfold plain_export. by rewrite C6.
  - exists (p + d). by rewrite C5, lookup_alter_eq, H4.
  - by rewrite V.
  - by rewrite V.
  - by rewrite V, C6.
  - auto.
Qed.

Lemma view_in (s : state) l x e : x ∈ glist l s -> les s !! x = Some e -> e ∈ view l s.
Proof. intros Hx He. apply list_elem_of_omap. by exists x. Qed.

Lemma listed (s : state) l x : book own s -> by_sle_list l = true -> x ∈ glist l s -> exists e, les s !! x = Some e /\ e ∈ view l s.
Proof. intros Hb Hl Hx. destruct (proj2 (book_lists _ _ Hb l Hl) x Hx) as [e He]. exists e. split; [done | by apply (view_in s l x)]. Qed.

(** Loops that wait for blocked locks find none. *)
Lemma no_blocked_ok {A} (s : state) (body : A -> Z -> M state (A * bool)) a : lockable s -> (length (glist ll s) <= fuel)%nat ->
  (forall x e, les s !! x = Some e -> e ∈ view ll s -> sle_blocked e = STATE_NON_BLOCKING -> body a x s = done ((a, true), s)) ->
  glist_for_each_safe fuel ll body a s = done (a, s).
Proof.
  intros Hk Hf Hbody. pose proof (lk_book _ Hk) as Hb. unfold glist_for_each_safe. rewrite get_run.
  assert (forall Y n X, glist ll s = X ++ Y -> (length Y <= n)%nat -> walk n ll body a (head Y) s = done (a, s)) as H; [|by apply (H (glist ll s) fuel [])].
  induction Y as [|x Y IH]; intros n X E Hn; [by destruct n|]. destruct n as [|n]; [inversion Hn|].
  assert (x ∉ X) as HX. { pose proof (proj1 (book_lists _ _ Hb ll eq_refl)) as Hnd. rewrite E in Hnd. apply NoDup_app in Hnd as (_ & Hd & _). intros Hx. by apply (Hd x Hx); left. }
  cbn [head]. rewrite (walk_step n ll body a x s X Y E HX). destruct (listed s ll x Hb eq_refl) as (e & He & Hin); [rewrite E; apply elem_of_app; right; left|].
  pose proof (lk_sound _ Hk) as Hs. unfold sound in Hs. rewrite Forall_forall in Hs.
  rewrite (bind_done _ _ _ _ _ (Hbody x e He Hin (proj2 (Hs e Hin)))). apply (IH n (X ++ [x])); [by rewrite <- app_assoc | by apply le_S_n].
Qed.

Lemma grant_none (s : state) : lockable s -> (length (glist ll s) <= fuel)%nat ->
  grant_blocked_locks own supports fuel call_back entry s = done (tt, s).
Proof.
  intros Hk Hf. unfold grant_blocked_locks. rewrite get_run, (proj1 (lk_plain _ Hk)). apply no_blocked_ok; [done | done|].
  intros x e He _ Hn. by rewrite (bind_done _ _ _ _ _ (entry_at_ok s x e He)), Hn.
Qed.

Lemma cancel_none (s : state) owner st lock : lockable s -> (length (glist ll s) <= fuel)%nat ->
  cancel_blocked_locks_range lock_op cache_inode_kill_entry own supports unknown_owner fuel entry owner st lock s = done (tt, s).
Proof.
  intros Hk Hf. unfold cancel_blocked_locks_range. apply no_blocked_ok; [done | done|].
  intros x e He _ Hn. rewrite (bind_done _ _ _ _ _ (entry_at_ok s x e He)), Hn. by destruct (negb (owner =? 0) && different_owners own (sle_owner e) owner), (negb (st =? 0) && (sle_state e =? st)).
Qed.

(** ** Looking for conflicts *)

(** The lock [e] contains the new lock, and is of its type. *)
Definition contains (lock : fsal_lock_param_t) (e : state_lock_entry_t) : bool :=
  (lock_end lock <=? lock_end (sle_lock e)) && (lock_start (sle_lock e) <=? lock_start lock) && bool_decide (lock_type (sle_lock e) = lock_type lock).

(** What the search of [state_lock] finds. *)
Inductive scanned (owner : Z) (lock : fsal_lock_param_t) (es : list state_lock_entry_t) : scan -> Prop :=
  | scan_conflict e : e ∈ es -> conflicts own lock owner e = true -> scanned owner lock es (mk_scan false true (Some (sle_owner e, sle_lock e)) None)
  | scan_owned e ov : e ∈ es -> same own (sle_owner e) owner -> contains lock e = true -> scanned owner lock es (mk_scan true ov None (Some STATE_SUCCESS))
  | scan_free ov : (forall e, e ∈ es -> conflicts own lock owner e = false) -> (ov = true -> exists e, e ∈ es /\ contains lock e = true) ->
      scanned owner lock es (mk_scan true ov None None).

Definition scan_body (ctx owner : Z) (lock : fsal_lock_param_t) : scan -> Z -> M state (scan * bool) := fun a x =>
    e ← entry_at x;
    lease ← (if bool_decide (sle_type e = LEASE_LOCK) && bool_decide (lock_sle_type lock = LEASE_LOCK)
             then _ ← check (negb (sle_owner e =? 0)); mret (so_id (own owner) =? so_id (own (sle_owner e)))
             else mret false);
    if lease : bool then mret (a, true)
    else if negb (sle_export e =? ctx) && negb (different_owners own (sle_owner e) owner)
    then mret (mk_scan (allow a) (overlap a) (conflict a) (Some STATE_INVALID_ARGUMENT), false)
    else if overlaps (sle_lock e) lock && (is_write (sle_lock e) || is_write lock) && different_owners own (sle_owner e) owner
    then c ← copy_conflict x; mret (mk_scan false true c (ret a), false)
    else if (lock_end lock <=? lock_end (sle_lock e)) && (lock_start (sle_lock e) <=? lock_start lock)
            && bool_decide (lock_type (sle_lock e) = lock_type lock)
            && (bool_decide (sle_blocked e = STATE_NON_BLOCKING) || bool_decide (sle_blocked e = STATE_GRANTING))
    then
      if negb (different_owners own (sle_owner e) owner) then
        _ ← (if bool_decide (sle_blocked e = STATE_GRANTING) then grant_blocked_lock_immediate own supports fuel call_back entry x else mret tt);
        mret (mk_scan (allow a) (overlap a) (conflict a) (Some STATE_SUCCESS), false)
      else mret (mk_scan (allow a) true (conflict a) (ret a), true)
    else mret (a, true).

Lemma scan_step (s : state) owner lock a x e : lockable s -> les s !! x = Some e -> e ∈ view ll s ->
  (conflicts own lock owner e = true /\ exists s', scan_body (ctx_export s) owner lock a x s = done ((mk_scan false true (Some (sle_owner e, sle_lock e)) (ret a), false), s') /\ calm 0 s s')
  \/ (conflicts own lock owner e = false /\ same own (sle_owner e) owner /\ contains lock e = true
      /\ scan_body (ctx_export s) owner lock a x s = done ((mk_scan (allow a) (overlap a) (conflict a) (Some STATE_SUCCESS), false), s))
  \/ (conflicts own lock owner e = false /\ exists ov, scan_body (ctx_export s) owner lock a x s = done ((mk_scan (allow a) ov (conflict a) (ret a), true), s)
      /\ (ov = true -> overlap a = true \/ contains lock e = true)).
Proof.
  intros Hk He Hin. pose proof (lk_book _ Hk) as Hb. pose proof (lk_export _ Hk) as Hx. rewrite Forall_forall in Hx. destruct (Hx e Hin) as [X1 X2].
  pose proof (lk_sound _ Hk) as Hs. unfold sound in Hs. rewrite Forall_forall in Hs. destruct (Hs e Hin) as [_ Hnb].
  unfold scan_body. rewrite (bind_done _ _ _ _ _ (entry_at_ok s x e He)), X2, X1, Z.eqb_refl, Hnb. cbn [negb andb].
  erewrite bind_done by (rewrite bool_decide_eq_false_2 by done; reflexivity). cbn iota. fold (conflicts own lock owner e). fold (contains lock e).
  destruct (conflicts own lock owner e) eqn:Hc.
  - left. split; [done|]. unfold copy_conflict. destruct (book_entry _ _ Hb x e He) as (Hx0 & _ & _ & Ho0). rewrite (proj2 (Z.eqb_neq x 0) Hx0).
    destruct (owned_user own s x e Hb He) as (n & Hn & _). destruct (inc_owner_ok s (sle_owner e) Hb) as (s' & E & C); [by exists n|]. exists s'. split; [|done].
    erewrite bind_done; [reflexivity|]. rewrite (bind_done _ _ _ _ _ (entry_at_ok s x e He)), (bind_done _ _ _ _ _ E). done.
  - right. rewrite bool_decide_eq_true_2 by done. cbn [orb]. rewrite andb_true_r. destruct (contains lock e) eqn:Hct.
    + destruct (different_owners own (sle_owner e) owner) eqn:Hd; cbn [negb].
      * right. split; [done|]. exists true. split; [done|]. by right.
      * left. split_and!; [done..|]. rewrite bool_decide_eq_false_2 by done. done.
    + right. split; [done|]. exists (overlap a). split; [by destruct a | by left].
Qed.

Lemma scan_from (s : state) owner lock : lockable s -> forall Y n X ov, glist ll s = X ++ Y -> (length Y <= n)%nat ->
  (forall x e, x ∈ X -> les s !! x = Some e -> conflicts own lock owner e = false) -> (ov = true -> exists e, e ∈ view ll s /\ contains lock e = true) ->
  exists a s', walk n ll (scan_body (ctx_export s) owner lock) (mk_scan true ov None None) (head Y) s = done (a, s') /\ scanned owner lock (view ll s) a /\ calm 0 s s'.
Proof.
  intros Hk. pose proof (lk_book _ Hk) as Hb. induction Y as [|x Y IH]; intros n X ov E Hn HX Hov.
  - exists (mk_scan true ov None None), s. split; [by destruct n|]. split; [|by apply calm_refl]. apply scan_free; [|done].
    intros e (x & Hx & He)%list_elem_of_omap. rewrite app_nil_r in E. rewrite E in Hx. by apply (HX x).
  - destruct n as [|n]; [inversion Hn|].
    assert (x ∉ X) as HnX. { pose proof (proj1 (book_lists _ _ Hb ll eq_refl)) as Hnd. rewrite E in Hnd. apply NoDup_app in Hnd as (_ & Hd & _). intros Hx. by apply (Hd x Hx); left. }
    cbn [head]. rewrite (walk_step n ll _ _ x s X Y E HnX). destruct (listed s ll x Hb eq_refl) as (e & He & Hin); [rewrite E; apply elem_of_app; right; left|].
    destruct (scan_step s owner lock (mk_scan true ov None None) x e Hk He Hin) as [(Hc & s' & E1 & C)|[(Hc & Hs & Hct & E1)|(Hc & ov' & E1 & Hov')]];
      rewrite (bind_done _ _ _ _ _ E1); cbn [allow overlap conflict ret].
    + eexists _, s'. split; [done|]. split; [by apply scan_conflict | done].
    + eexists _, s. split; [done|]. split; [by eapply scan_owned | by apply calm_refl].
    + apply (IH n (X ++ [x])); [by rewrite <- app_assoc | by apply le_S_n | |].
      * intros y f Hy Hf. apply elem_of_app in Hy as [Hy|Hy]; [by apply (HX y)|]. apply list_elem_of_singleton in Hy as ->. congruence.
      * intros Ht. destruct (Hov' Ht) as [H|H]; [by apply Hov | by exists e].
Qed.

Lemma scan_ok (s : state) owner lock : lockable s -> (length (glist ll s) <= fuel)%nat ->
  exists a s', scan_locks own supports fuel call_back entry owner lock s = done (a, s') /\ scanned owner lock (view ll s) a /\ calm 0 s s'.
Proof. intros Hk Hf. by apply (scan_from s owner lock Hk (glist ll s) fuel [] false); [| |set_solver|]. Qed.

(** ** The file system *)

(** The status of a lock operation that does not wait. *)
Definition fs_status (major : fsal_errors_t) : state_status_t := match state_error_convert major with STATE_LOCK_BLOCKED => STATE_FSAL_ERROR | t => t end.

Lemma fs_not_blocked major : fs_status major <> STATE_LOCK_BLOCKED.
Proof. unfold fs_status. by destruct (state_error_convert major). Qed.

(** A call of the file system, for an export of which [plain_export] holds. *)
Lemma do_lock_ok (s : state) op owner lock ask ov : book own s -> plain_export s -> alive s unknown_owner -> op = FSAL_OP_LOCK \/ op = FSAL_OP_UNLOCK \/ op = FSAL_OP_LOCKT ->
  exists status c s', do_lock_op entry op owner lock ask ov POSIX_LOCK s = done ((status, c), s') /\ calm 0 s s' /\ status <> STATE_LOCK_BLOCKED
  /\ (supports (ctx_export s) fso_lock_support = false \/ ov = true -> status = STATE_SUCCESS /\ s' = s)
  /\ (supports (ctx_export s) fso_lock_support = true -> ov = false ->
      status = fs_status (fst (fst (lock_op entry owner op (set_sle_type POSIX_LOCK lock) (fsal s))))
      /\ fsal s' = snd (lock_op entry owner op (set_sle_type POSIX_LOCK lock) (fsal s))).
Proof.
  intros Hb [P1 P2] Hu Hop. unfold Locks.do_lock_op. rewrite get_run, P1. cbn [negb andb orb].
  assert (is_op op FSAL_OP_CANCEL = false) as -> by (by destruct Hop as [->|[->| ->]]). cbn [andb orb].
  destruct (supports (ctx_export s) fso_lock_support) eqn:Hls; cbn [negb andb orb].
  2: { eexists _, _, s. split; [reflexivity|]. split_and!; [by apply calm_refl | done | done | done]. }
  rewrite (P2 eq_refl). cbn [negb andb orb]. rewrite orb_false_r. destruct ov; cbn [orb].
  { eexists _, _, s. split; [reflexivity|]. split_and!; [by apply calm_refl | done | done | done]. }
  assert (is_op op FSAL_OP_LOCKB = false) as Hnb by (by destruct Hop as [->|[->| ->]]). rewrite Hnb. cbn [andb].
  set (q := lock_op entry owner op (set_sle_type POSIX_LOCK lock)).
  destruct (q (fsal s)) as [[major c] k] eqn:Eq. cbn [fst snd].
  erewrite (bind_done _ _ s (fs_status major, c) (set_fsal k s)).
  2: { erewrite bind_done by (unfold call; fold q; rewrite Eq; reflexivity). rewrite Hnb. unfold fs_status. by destruct (state_error_convert major). }
  pose proof (calm_fsal s k Hb) as C. pose proof (fs_not_blocked major) as Ht. set (t := fs_status major) in *.
  destruct (calm_alive _ _ _ C _ Hu) as (n & Hn & _).
  destruct (inc_owner_ok (set_fsal k s) unknown_owner (calm_book _ _ _ C)) as (s2 & E2 & C2); [by exists n|].
  assert (fsal s2 = k) as Hk2. { unfold inc_state_owner_ref in E2. rewrite get_run, Hn in E2. by inversion E2. }
  assert ((t = STATE_LOCK_CONFLICT /\ ask = true) \/ (t = STATE_LOCK_CONFLICT -> ask = false)) as [[Et ->]|Hne] by (destruct ask; [destruct t; first [by left | by right] | by right]).
  - rewrite Et. eexists _, _, s2. split; [by rewrite (bind_done _ _ _ _ _ E2)|]. split; [by apply (calm_trans 0 0 _ _ _ C)|].
    split; [done|]. split; [by intros [?|?]|]. intros _ _. by rewrite <- Et.
  - exists t, None, (set_fsal k s). split; [destruct t; try done; by rewrite Hne|]. split; [done|]. split; [done|]. split; [by intros [?|?]|]. done.
Qed.

(** ** What an operation does *)

(** There is memory and fuel for an operation. *)
Definition room (s : state) : Prop := (2 * length (glist ll s) + 1 <= fuel)%nat /\ memory (2 * length (glist ll s) + 1) s.

(** The locks of the file become [es], and its pin count changes by [d]. *)
Record after (d : Z) (es : list state_lock_entry_t) (s s' : state) : Prop := {
  af_lockable : lockable s'; af_view : view ll s' = es; af_files : files s' = alter (bump d) entry (files s); af_ctx : ctx_export s' = ctx_export s;
  af_others : forall l, by_sle_list l = true -> l <> ll -> view l s' = view l s; af_alive : forall o, alive s o -> alive s' o }.

Lemma after_intro d es (s s' : state) : lockable s -> book own s' -> idle s' -> files s' = alter (bump d) entry (files s) -> ctx_export s' = ctx_export s ->
  (forall o, alive s o -> alive s' o) -> view ll s' = es -> (forall l, by_sle_list l = true -> l <> ll -> view l s' = view l s) ->
  sound es -> exclusive own es -> Forall (fun e => sle_export e = ctx_export s /\ sle_type e = POSIX_LOCK) es -> after d es s s'.
Proof.
  intros [H1 H2 H3 [p H4] H5 H6 H7 H8] Hb Hi Hf Hc Ha Hv Ho Hs Hx He. split; [split | done..].
  - done.
  - done.
  - unfold plain_export. by rewrite Hc.
  - exists (p + d). by rewrite Hf, lookup_alter_eq, H4.
  - by rewrite Hv.
  - by rewrite Hv.
  - by rewrite Hv, Hc.
  - auto.
Qed.

Lemma after_calm d (s s' : state) : lockable s -> calm d s s' -> after d (view ll s) s s'.
Proof.
  intros Hk C. split; [by apply (calm_lockable d s) | by apply (calm_view d) | by apply C | by apply C | | by apply C]. intros l _ _. by apply (calm_view d).
Qed.

Lemma after_trans d1 d2 es1 es2 (s1 s2 s3 : state) : after d1 es1 s1 s2 -> after d2 es2 s2 s3 -> after (d1 + d2) es2 s1 s3.
Proof.
  intros [A1 A2 A3 A4 A5 A6] [B1 B2 B3 B4 B5 B6]. split; [done | done | by rewrite B3, A3, bump_add | congruence | | auto].
  intros l H1 H2. by rewrite B5, A5.
Qed.

Lemma after_then d1 d2 es (s1 s2 s3 : state) : after d1 es s1 s2 -> calm d2 s2 s3 -> after (d1 + d2) es s1 s3.
Proof.
  intros A C. eapply after_trans; [exact A|]. rewrite <- (af_view _ _ _ _ A). apply after_calm; [apply A | done].
Qed.

Lemma length_view (s : state) l : book own s -> by_sle_list l = true -> length (view l s) = length (glist l s).
Proof.
  intros Hb Hl. assert (forall x, x ∈ glist l s -> is_Some (les s !! x)) as H by (by apply (book_lists _ _ Hb)).
  unfold view. induction (glist l s) as [|x L IH]; [done|]. cbn. destruct (H x) as [e ->]; [by left|]. cbn. f_equal. apply IH. intros y Hy. apply H. by right.
Qed.

Lemma lock_file (s : state) : lockable s -> exists f, files s !! entry = Some f /\ regular f = true.
Proof. intros Hk. destruct (lk_file _ Hk) as [p Hp]. by eexists. Qed.

Lemma dec_pin_ok (s : state) : lockable s -> cache_inode_dec_pin_ref entry s = done (tt, pinned (-1) s) /\ calm (-1) s (pinned (-1) s).
Proof. intros Hk. destruct (lock_file s Hk) as (f & Hf & _). split; [by apply (unpin_ok s f) | apply calm_pinned, Hk]. Qed.

Lemma inc_pin_ok (s : state) : lockable s -> cache_inode_inc_pin_ref entry s = done (CACHE_INODE_SUCCESS, pinned 1 s) /\ calm 1 s (pinned 1 s).
Proof. intros Hk. destruct (lk_file _ Hk) as [p Hp]. split; [by apply (pin_ok s p) | apply calm_pinned, Hk]. Qed.

(** Whether a list of locks is empty, as a number. *)
Definition empties (es : list state_lock_entry_t) : Z := match es with [] => 1 | _ => 0 end.

Lemma unpin_if_ok (s : state) : lockable s -> exists s', unpin_if_empty entry s = done (tt, s') /\ calm (- empties (view ll s)) s s'.
Proof.
  intros Hk. destruct (dec_pin_ok s Hk) as [E C]. pose proof (length_view s ll (lk_book _ Hk) eq_refl) as Hl. unfold unpin_if_empty.
  erewrite bind_done by reflexivity. destruct (glist ll s), (view ll s); try done.
  - by exists (pinned (-1) s).
  - exists s. split; [done|]. apply calm_refl, Hk.
Qed.

(** ** Releasing *)

Lemma derived_export es es' x : derived es es' -> Forall (fun e => sle_export e = x /\ sle_type e = POSIX_LOCK) es -> Forall (fun e => sle_export e = x /\ sle_type e = POSIX_LOCK) es'.
Proof.
  intros Hd H. rewrite Forall_forall in *. intros e' He'. destruct (Hd e' He') as (e & He & _ & _ & _ & _ & P1 & P2 & _). destruct (H e He). split; congruence.
Qed.

Lemma subtract_length owner st lock es : (length (subtract_spec own owner st lock es) <= 2 * length es)%nat.
Proof.
  unfold subtract_spec. induction es as [|e es IH]; [done|]. rewrite length_app in *. cbn. destruct (touched own owner st lock e); cbn; [|lia].
  rewrite length_app. assert (length (pieces lock e) <= 2)%nat by (unfold pieces; rewrite length_app; destruct (_ <? _), (_ <? _); cbn; lia). lia.
Qed.

Lemma after_changes (s s' : state) n owner st lock : lockable s -> valid lock -> changes own ll n (subtract_spec own owner st lock (view ll s)) s s' ->
  after 0 (subtract_spec own owner st lock (view ll s)) s s'.
Proof.
  intros Hk Hl [C1 [K1 K2 K3 K4] C3 C4 C5 C6]. pose proof (subtract_derived own owner st lock (view ll s) Hl (lk_sound _ Hk)) as Hd. apply after_intro; try done.
  - by rewrite K1, bump_0.
  - by apply (derived_sound (view ll s)), (lk_sound _ Hk).
  - by apply (derived_exclusive own (view ll s)); [| apply Hk | apply Hk].
  - by apply (derived_export (view ll s)), (lk_export _ Hk).
Qed.

Lemma after_subtract (s : state) owner st lock : lockable s -> valid lock -> (length (glist ll s) <= fuel)%nat -> memory (2 * length (glist ll s)) s ->
  exists b s', subtract_lock_from_list own fuel owner st lock ll s = done ((STATE_SUCCESS, b), s') /\ after 0 (subtract_spec own owner st lock (view ll s)) s s'.
Proof.
  intros Hk Hl Hf Hm. destruct (subtract_list_ok own fuel owner st lock ll s (lk_book _ Hk) (lk_idle _ Hk) eq_refl) as (b & s' & E & C); [done..|].
  exists b, s'. split; [done|]. by apply (after_changes s s' (2 * length (glist ll s))).
Qed.

Lemma unlock_empty (s : state) owner st lock : lockable s -> view ll s = [] ->
  exists s', state_unlock entry owner st false lock POSIX_LOCK s = done (STATE_SUCCESS, s') /\ calm 0 s s'.
Proof.
  intros Hk Hv. destruct (inc_pin_ok s Hk) as [E1 C1]. set (s1 := pinned 1 s) in *. pose proof (calm_lockable _ _ _ C1 Hk) as Hk1.
  destruct (dec_pin_ok s1 Hk1) as [E2 C2]. exists (pinned (-1) s1). split; [|exact (calm_trans _ _ _ _ _ C1 C2)].
  unfold Locks.state_unlock. rewrite (bind_done _ _ _ _ _ E1). destruct (lock_file s1 Hk1) as (f & Hf & Hr).
  erewrite bind_done by (unfold file_at; rewrite get_run, Hf; reflexivity). rewrite Hr, andb_false_r. cbn [negb].
  pose proof (length_view s ll (lk_book _ Hk) eq_refl) as Hl. rewrite Hv in Hl. erewrite bind_done by reflexivity. change (glist ll s1) with (glist ll s).
  destruct (glist ll s); [|done]. by rewrite (bind_done _ _ _ _ _ E2).
Qed.

(** What comes before and after the subtraction. *)
Lemma unlock_run (s s2 : state) owner st lock b : lockable s -> view ll s <> [] -> (length (glist ll s) <= fuel)%nat ->
  subtract_lock_from_list own fuel owner st lock ll (pinned 1 s) = done ((STATE_SUCCESS, b), s2) -> lockable s2 -> (length (view ll s2) <= fuel)%nat ->
  ctx_export s2 = ctx_export s ->
  exists status s', state_unlock entry owner st false lock POSIX_LOCK s = done (status, s') /\ calm (- empties (view ll s2) - 1) s2 s'
  /\ (supports (ctx_export s) fso_lock_support = false -> status = STATE_SUCCESS)
  /\ (supports (ctx_export s) fso_lock_support = true -> exists k, status = fs_status (fst (fst (lock_op entry owner FSAL_OP_UNLOCK (set_sle_type POSIX_LOCK lock) k)))).
Proof.
  intros Hk Hv Hf E2 Hk2 Hf2 Hctx. destruct (inc_pin_ok s Hk) as [E1 C1]. set (s1 := pinned 1 s) in *. pose proof (calm_lockable _ _ _ C1 Hk) as Hk1.
  destruct (calm_view _ _ _ ll C1) as [G1 V1]. destruct (unpin_if_ok s2 Hk2) as (s3 & E3 & C3). pose proof (calm_lockable _ _ _ C3 Hk2) as Hk3.
  destruct (do_lock_ok s3 FSAL_OP_UNLOCK owner lock false false (lk_book _ Hk3) (lk_plain _ Hk3) (lk_unknown _ Hk3)) as (status & c & s4 & E4 & C4 & _ & F1 & F2); [auto|].
  pose proof (calm_trans _ _ _ _ _ C3 C4) as C34. pose proof (calm_lockable _ _ _ C34 Hk2) as Hk4.
  assert (length (glist ll s4) <= fuel)%nat as Hf4 by (rewrite (proj1 (calm_view _ _ _ ll C34)), <- (length_view s2 ll (lk_book _ Hk2) eq_refl); done).
  destruct (dec_pin_ok s4 Hk4) as [E5 C5]. exists status, (pinned (-1) s4).
  assert (ctx_export s3 = ctx_export s) as Hctx3 by (by rewrite (calm_ctx _ _ _ C3)). rewrite <- Hctx3. split_and!.
  - unfold Locks.state_unlock. rewrite (bind_done _ _ _ _ _ E1). destruct (lock_file s1 Hk1) as (f & Hfi & Hr).
    erewrite bind_done by (unfold file_at; rewrite get_run, Hfi; reflexivity). rewrite Hr, andb_false_r. cbn [negb].
    assert (glist ll s1 <> []) as Hne. { intros Hne. apply Hv. apply nil_length_inv. by rewrite (length_view s ll (lk_book _ Hk) eq_refl), <- G1, Hne. }
    erewrite bind_done by reflexivity. destruct (glist ll s1) eqn:Hg; [done|]. erewrite bind_done by reflexivity.
    rewrite (bind_done _ _ _ _ _ (cancel_none s1 owner st lock Hk1 ltac:(rewrite Hg, G1; done))), (bind_done _ _ _ _ _ E2), (bind_done _ _ _ _ _ E3). cbn [success negb].
    rewrite (bind_done _ _ _ _ _ E4), (bind_done _ _ _ _ _ (grant_none s4 Hk4 Hf4)), (bind_done _ _ _ _ _ E5). done.
  - pose proof (calm_trans _ _ _ _ _ C34 C5) as C. by rewrite Z.add_0_r in C.
  - intros Hs. apply F1. by left.
  - intros Hs. exists (fsal s3). by apply F2.
Qed.

Lemma unlock_nonempty (s : state) owner st lock : lockable s -> room s -> valid lock -> view ll s <> [] ->
  let es := subtract_spec own owner st lock (view ll s) in
  exists status s', state_unlock entry owner st false lock POSIX_LOCK s = done (status, s') /\ after (- empties es) es s s'
  /\ (supports (ctx_export s) fso_lock_support = false -> status = STATE_SUCCESS)
  /\ (supports (ctx_export s) fso_lock_support = true -> exists k, status = fs_status (fst (fst (lock_op entry owner FSAL_OP_UNLOCK (set_sle_type POSIX_LOCK lock) k)))).
Proof.
  intros Hk [Hf Hm] Hl Hv es. destruct (inc_pin_ok s Hk) as [E1 C1]. set (s1 := pinned 1 s) in *. pose proof (calm_lockable _ _ _ C1 Hk) as Hk1.
  destruct (calm_view _ _ _ ll C1) as [G1 V1].
  destruct (after_subtract s1 owner st lock Hk1 Hl) as (b & s2 & E2 & A2); [rewrite G1; lia | rewrite G1; apply (memory_le _ (2 * length (glist ll s) + 1)); [lia | done]|].
  rewrite V1 in A2. fold es in A2. pose proof (af_view _ _ _ _ A2) as V2.
  destruct (unlock_run s s2 owner st lock b Hk Hv) as (status & s' & E & C & F1 & F2); [lia | done | apply A2 | | by rewrite (af_ctx _ _ _ _ A2)|].
  { rewrite V2. etransitivity; [apply subtract_length|]. rewrite (length_view s ll (lk_book _ Hk) eq_refl). lia. }
  exists status, s'. split; [done|]. split; [|done]. pose proof (after_then _ _ _ _ _ _ (after_trans _ _ _ _ _ _ _ (after_calm _ _ _ Hk C1) A2) C) as A.
  rewrite V2 in A. by replace (1 + 0 + (- empties es - 1)) with (- empties es) in A by lia.
Qed.

(** A subtraction for which there is no memory leaves the locks as they are. *)
Lemma reordered_lockable (s s' : state) : lockable s -> reordered own ll s s' -> lockable s'.
Proof.
  intros [H1 H2 H3 [p H4] H5 H6 H7 H8] [R1 [K1 K2 K3 K4] R3 R4 R5]. split.
  - done.
  - done.
  - unfold plain_export. by rewrite K2.
  - exists p. by rewrite K1.
  - unfold sound. by rewrite R4.
  - intros e f He Hf. rewrite R4 in He, Hf. by apply H6.
  - by rewrite R4, K2.
  - auto.
Qed.

Lemma unlock_fails (s s2 : state) owner st lock b : lockable s -> view ll s <> [] -> (length (glist ll s) <= fuel)%nat ->
  subtract_lock_from_list own fuel owner st lock ll (pinned 1 s) = done ((STATE_MALLOC_ERROR, b), s2) -> reordered own ll (pinned 1 s) s2 ->
  exists s', state_unlock entry owner st false lock POSIX_LOCK s = done (STATE_MALLOC_ERROR, s') /\ lockable s' /\ view ll s' ≡ₚ view ll s /\ files s' = files s /\ fsal s' = fsal s
  /\ forall l, by_sle_list l = true -> l <> ll -> view l s' = view l s.
Proof.
  intros Hk Hv Hf E2 Ro. destruct (inc_pin_ok s Hk) as [E1 C1]. set (s1 := pinned 1 s) in *. pose proof (calm_lockable _ _ _ C1 Hk) as Hk1.
  destruct (calm_view _ _ _ ll C1) as [G1 V1]. pose proof (reordered_lockable s1 s2 Hk1 Ro) as Hk2. pose proof Ro as [R1 [K1 K2 K3 K4] R3 R4 R5].
  assert (view ll s2 <> []) as Hv2. { intros H0. apply Hv. rewrite H0, V1 in R4. by apply Permutation_nil. }
  assert (unpin_if_empty entry s2 = done (tt, s2)) as E3.
  { unfold unpin_if_empty. erewrite bind_done by reflexivity. pose proof (length_view s2 ll (lk_book _ Hk2) eq_refl) as Hlen. destruct (glist ll s2), (view ll s2); done. }
  destruct (dec_pin_ok s2 Hk2) as [E5 C5]. exists (pinned (-1) s2). split; [|split; [by apply (calm_lockable _ _ _ C5)|]].
  - unfold Locks.state_unlock. rewrite (bind_done _ _ _ _ _ E1). destruct (lock_file s1 Hk1) as (f & Hfi & Hr).
    erewrite bind_done by (unfold file_at; rewrite get_run, Hfi; reflexivity). rewrite Hr, andb_false_r. cbn [negb].
    assert (glist ll s1 <> []) as Hne. { intros Hne. apply Hv. apply nil_length_inv. by rewrite (length_view s ll (lk_book _ Hk) eq_refl), <- G1, Hne. }
    erewrite bind_done by reflexivity. destruct (glist ll s1) eqn:Hg; [done|]. erewrite bind_done by reflexivity.
    rewrite (bind_done _ _ _ _ _ (cancel_none s1 owner st lock Hk1 ltac:(rewrite Hg, G1; done))), (bind_done _ _ _ _ _ E2), (bind_done _ _ _ _ _ E3). cbn [success negb].
    by rewrite (bind_done _ _ _ _ _ E5).
  - split; [by rewrite (proj2 (calm_view _ _ _ ll C5)), R4, V1|]. split; [|split; [done|]].
    + rewrite (calm_files _ _ _ C5), K1, (calm_files _ _ _ C1), bump_add. apply bump_0.
    + intros l Hl' Hne. rewrite (proj2 (calm_view _ _ _ l C5)), R5 by done. by apply (calm_view _ _ _ l C1).
Qed.

(** When no lock is touched, nothing changes. *)
Lemma subtract_none (s : state) owner st lock : lockable s -> (length (glist ll s) <= fuel)%nat ->
  (forall e, e ∈ view ll s -> touched own owner st lock e = false) ->
  exists s', subtract_lock_from_list own fuel owner st lock ll s = done ((STATE_SUCCESS, false), s') /\ calm 0 s s'.
Proof.
  intros Hk Hf Ht. destruct (idle_init own s (lk_book _ Hk) (lk_idle _ Hk)) as (s1 & E1 & B1 & [K1 K2 K3 K4] & L1 & S1 & G1).
  assert (calm 0 s s1) as C1 by (split; [done.. | by rewrite K1, bump_0 | done | done]).
  pose proof (calm_lockable _ _ _ C1 Hk) as Hk1. unfold subtract_lock_from_list. rewrite E1.
  erewrite bind_done.
  2: { apply (no_blocked_ok s1 _ (STATE_SUCCESS, false) Hk1); [by rewrite G1|]. intros x e He Hin Hb. rewrite (bind_done _ _ _ _ _ (entry_at_ok s1 x e He)), Hb.
       rewrite (proj2 (calm_view _ _ _ ll C1)) in Hin. specialize (Ht e Hin). unfold touched, target in Ht.
       rewrite bool_decide_eq_true_2 in * by done. cbn [negb]. destruct (owner =? 0), (different_owners own (sle_owner e) owner), (negb (st =? 0) && (sle_state e =? st)); try done; cbn in Ht |- *;
         by rewrite (bind_done _ _ _ _ _ (subtract_miss own fuel s1 x e lock He Ht)). }
  destruct (lk_idle _ Hk1) as [I1 I2]. cbn [success].
  assert (free_list own fuel remove_list s1 = done (tt, s1)) as E2 by (apply (for_each_run fuel remove_list _ _ s1 []); [done | by destruct fuel]).
  erewrite bind_done by (rewrite (bind_done _ _ _ _ _ E2); reflexivity). fold (moved ll split_lock_list s1). exists (moved ll split_lock_list s1). split; [done|].
  destruct (moved_book own ll split_lock_list s1 B1) as [B2 [K21 K22 K23 K24]]; [done..|].
  replace 0 with (0 + 0) by done. apply (calm_trans _ _ _ _ _ C1). split; [done | done | | done | by rewrite K21, bump_0 | done | done].
  intros l. rewrite moved_glist. destruct (decide (l = split_lock_list)) as [->|]; [done|]. destruct (decide (l = ll)) as [->|]; [by rewrite I1, app_nil_r | done].
Qed.

Lemma unlock_untouched (s : state) owner st lock : lockable s -> (length (glist ll s) <= fuel)%nat -> view ll s <> [] ->
  (forall e, e ∈ view ll s -> touched own owner st lock e = false) ->
  exists status s', state_unlock entry owner st false lock POSIX_LOCK s = done (status, s') /\ calm 0 s s'
  /\ (supports (ctx_export s) fso_lock_support = false -> status = STATE_SUCCESS)
  /\ (supports (ctx_export s) fso_lock_support = true -> exists k, status = fs_status (fst (fst (lock_op entry owner FSAL_OP_UNLOCK (set_sle_type POSIX_LOCK lock) k)))).
Proof.
  intros Hk Hf Hv Ht. destruct (inc_pin_ok s Hk) as [E1 C1]. set (s1 := pinned 1 s) in *. pose proof (calm_lockable _ _ _ C1 Hk) as Hk1.
  destruct (calm_view _ _ _ ll C1) as [G1 V1]. destruct (subtract_none s1 owner st lock Hk1) as (s2 & E2 & C2); [by rewrite G1 | by rewrite V1|].
  pose proof (calm_trans _ _ _ _ _ C1 C2) as C12. destruct (calm_view _ _ _ ll C12) as [G2 V2].
  destruct (unlock_run s s2 owner st lock false Hk Hv) as (status & s' & E & C & F1 & F2); [done | done | by apply (calm_lockable _ _ _ C12) | | by rewrite (calm_ctx _ _ _ C12)|].
  { rewrite V2, (length_view s ll (lk_book _ Hk) eq_refl). done. }
  exists status, s'. split; [done|]. split; [|done]. rewrite V2 in C. destruct (view ll s); [done|]. exact (calm_trans _ _ _ _ _ C12 C).
Qed.

(** ** Taking *)

Lemma adds_view x e (s s' : state) l : book own s -> adds own x e s s' -> by_sle_list l = true -> glist l s' = glist l s /\ view l s' = view l s.
Proof.
  intros Hb [A1 A2 A3 A4 A5 A6] Hl. split; [by apply A6|]. unfold view. rewrite A6 by done. apply omap_ext_in. intros y Hy. rewrite A3, lookup_insert_ne; [done|].
  intros <-. destruct (proj2 (book_lists _ _ Hb l Hl) x Hy) as [f Hf]. congruence.
Qed.

Lemma drops_view x (s s' : state) l : off s x -> drops own x s s' -> by_sle_list l = true -> glist l s' = glist l s /\ view l s' = view l s.
Proof.
  intros Ho [D1 D2 D3 D4 D5] Hl. assert (glist l s' = glist l s) as Hg by (rewrite D5 by done; apply filter_ne_id, Ho, Hl). split; [done|].
  unfold view. rewrite Hg. apply omap_ext_in. intros y Hy. rewrite D3, lookup_delete_ne; [done|]. intros <-. by apply (Ho l).
Qed.

Definition new_entry (s : state) (owner st : Z) (lock : fsal_lock_param_t) : state_lock_entry_t :=
  mk_sle (ctx_export s) entry 0 owner st STATE_NON_BLOCKING 1 lock POSIX_LOCK.

(** Making the entry of a new lock; it is on no list yet. *)
Lemma new_ok (s : state) owner st lock : lockable s -> room s -> owner <> 0 -> alive s owner ->
  exists x s', create_state_lock_entry own entry (ctx_export s) STATE_NON_BLOCKING owner st lock POSIX_LOCK s = done (x, s') /\ x <> 0
  /\ adds own x (new_entry s owner st lock) s s' /\ off s' x /\ after 0 (view ll s) s s' /\ glist ll s' = glist ll s /\ memory (2 * length (glist ll s)) s'.
Proof.
  intros Hk [Hf Hm] Ho Ha. pose proof (lk_book _ Hk) as Hb. rewrite Nat.add_1_r in Hm. destruct (memory_S _ _ Hm) as (x & r & Hs & Hx & Hr1 & Hr2).
  destruct (create_ok own s x r entry (ctx_export s) STATE_NON_BLOCKING owner st lock POSIX_LOCK Hb Hs Hx Ho (owned_alive own s owner Ha)) as (s' & E & A).
  exists x, s'. split; [done|]. split; [done|]. split; [done|]. pose proof (fun l => adds_view x _ s s' l Hb A) as HV.
  pose proof A as [A1 [K1 K2 K3 K4] A3 A4 A5 A6].
  split; [intros l Hl; rewrite (proj1 (HV l Hl)); by apply (off_new own s x Hb A4)|]. split; [|split; [by apply HV|]].
  - apply after_intro; try done; [| by rewrite K1, bump_0 | by apply HV | intros l Hl _; by apply HV | apply Hk | apply Hk | apply Hk].
    destruct (lk_idle _ Hk) as [I1 I2]. split; by rewrite A6.
  - assert (supply s' = r) as E' by congruence. split; rewrite E'; done.
Qed.

(** A new lock that is not granted goes away. *)
Lemma refuse_ok (s : state) x e : lockable s -> les s !! x = Some e -> off s x ->
  exists s', remove_from_locklist own x s = done (tt, s') /\ after 0 (view ll s) s s'.
Proof.
  intros Hk He Ho. destruct (drop_ok own s x e (lk_book _ Hk) He) as (s' & E & D). exists s'. split; [done|].
  pose proof (fun l => drops_view x s s' l Ho D) as HV. pose proof D as [D1 [K1 K2 K3 K4] D3 D4 D5]. destruct (lk_idle _ Hk) as [I1 I2].
  apply after_intro; try done; [| by rewrite K1, bump_0 | by apply HV | intros l Hl _; by apply HV | apply Hk | apply Hk | apply Hk].
  split; [by rewrite (proj1 (HV split_lock_list eq_refl)) | by rewrite (proj1 (HV remove_list eq_refl))].
Qed.

(** A granted lock is merged into the list and added to it. *)
Lemma insert_ok (s : state) x owner st lock : lockable s -> les s !! x = Some (new_entry s owner st lock) -> off s x -> owner <> 0 -> valid lock ->
  (2 * length (glist ll s) + 1 <= fuel)%nat -> memory (length (glist ll s)) s -> (forall e, e ∈ view ll s -> conflicts own lock owner e = false) ->
  exists n es s', insert_granted update_delegation_stats own supports fuel call_back entry st x POSIX_LOCK s = done (tt, s')
  /\ merge_pure own owner fuel lock [] (view ll s) = Some (n, es) /\ after (empties es) (es ++ [with_lock n (new_entry s owner st lock)]) s s'.
Proof.
  intros Hk He Ho Ho0 Hl Hf Hm Hc. set (en := new_entry s owner st lock) in *.
  destruct (merge_ok own fuel entry x en s (lk_book _ Hk) He Ho Hl (sound_valid _ (lk_sound _ Hk))) as (s1 & n & es & X & E1 & Em & [M1 [K1 K2 K3 K4] M3 M4 M5 M6] & V1 & S1 & S2); [lia | done|].
  change (sle_owner en) with owner in Em. change (sle_lock en) with lock in Em.
  set (s2 := match glist ll s1 with [] => pinned 1 s1 | _ => s1 end).
  assert (calm (empties es) s1 s2) as C2.
  { pose proof (length_view s1 ll M1 eq_refl) as Hlen. rewrite V1 in Hlen. unfold s2. destruct (glist ll s1), es; try done; [by apply calm_pinned | by apply calm_refl]. }
  destruct (calm_view _ _ _ ll C2) as [G2 V2]. assert (les s2 !! x = Some (with_lock n en)) as Hx2 by (by rewrite (calm_les _ _ _ C2)).
  assert (off s2 x) as Ho2 by (intros l Hl'; rewrite (proj1 (calm_view _ _ _ l C2)); by apply M5).
  destruct (add_tail_book own s2 ll x _ (calm_book _ _ _ C2) eq_refl Hx2 Ho2) as [B3 [K31 K32 K33 K34]]. set (s3 := set_gl _ s2) in *.
  assert (forall l, glist l s3 = if decide (ll = l) then glist ll s2 ++ [x] else glist l s2) as G3 by (intros l; apply glist_set).
  destruct (merge_exclusive own fuel en (view ll s) n es Hl eq_refl Ho0 (lk_sound _ Hk) (lk_excl _ Hk) Hc Em) as [Hs3 Hx3].
  destruct (merge_pure_from own owner lock (view ll s) fuel lock [] (view ll s) n es) as [_ Hd]; [by split_and!; [..|left] | | apply Hk | done|].
  { intros e He'. exists e. split; [done|]. apply part_refl. pose proof (sound_valid _ (lk_sound _ Hk)) as Hv. rewrite Forall_forall in Hv. by apply Hv. }
  assert (after (empties es) (es ++ [with_lock n en]) s s3) as A3.
  { apply after_intro; try done.
    - destruct (lk_idle _ Hk) as [I1 I2]. split; rewrite G3, decide_False, (proj1 (calm_view _ _ _ _ C2)) by done;
        [by rewrite (proj1 (M6 split_lock_list eq_refl ltac:(done))) | by rewrite (proj1 (M6 remove_list eq_refl ltac:(done)))].
    - by rewrite K31, (calm_files _ _ _ C2), K1.
    - by rewrite K32, (calm_ctx _ _ _ C2).
    - intros o Hao. by apply K34, (calm_alive _ _ _ C2), K4.
    - unfold view. rewrite G3, decide_True, omap_app by done. f_equal; [by rewrite <- V1, <- V2|]. cbn. by rewrite Hx2.
    - intros l Hl' Hne. unfold view at 1. rewrite G3, decide_False by done. change (les s3) with (les s2). fold (view l s2). rewrite (proj2 (calm_view _ _ _ l C2)). by apply M6.
    - apply Forall_app. split; [by apply (derived_export (view ll s)); [|apply Hk] | by constructor]. }
  exists n, es, s3. split; [|done]. unfold insert_granted. rewrite (bind_done _ _ _ _ _ E1). erewrite bind_done by reflexivity.
  erewrite (bind_done _ _ s1 tt s2). 2: { unfold s2. destruct (glist ll s1) eqn:Hg; [|done]. destruct (lk_file _ Hk) as [p Hp]. rewrite <- K1 in Hp. by rewrite (bind_done _ _ _ _ _ (pin_ok s1 p Hp)). }
  erewrite bind_done by reflexivity. fold s3. apply grant_none; [apply A3|].
  rewrite <- (length_view s3 ll B3 eq_refl), (af_view _ _ _ _ A3), length_app. cbn.
  pose proof (merge_pure_length own owner fuel lock [] (view ll s) n es Hl (sound_valid _ (lk_sound _ Hk)) Em) as Hlen. cbn in Hlen.
  pose proof (splits_le lock (view ll s)). rewrite (length_view s ll (lk_book _ Hk) eq_refl) in *. lia.
Qed.

(** The outcomes of [state_lock]. *)
Inductive locked (owner st : Z) (lock : fsal_lock_param_t) (s : state) : state_status_t * option (Z * fsal_lock_param_t) -> state -> Prop :=
  | lock_unopened status s' : status <> CACHE_INODE_SUCCESS -> (exists rdwr k, status = fst (cache_inode_open entry rdwr (lock_reclaim lock) k)) ->
      after 0 (view ll s) s s' -> locked owner st lock s (cache_inode_status_to_state_status status, None) s'
  | lock_conflict e s' : e ∈ view ll s -> conflicts own lock owner e = true -> after 0 (view ll s) s s' ->
      locked owner st lock s (STATE_LOCK_CONFLICT, Some (sle_owner e, sle_lock e)) s'
  | lock_had e s' : e ∈ view ll s -> same own (sle_owner e) owner -> contains lock e = true -> after 0 (view ll s) s s' -> locked owner st lock s (STATE_SUCCESS, None) s'
  | lock_refused k c s' : supports (ctx_export s) fso_lock_support = true -> fs_status (fst (fst (lock_op entry owner FSAL_OP_LOCK (set_sle_type POSIX_LOCK lock) k))) <> STATE_SUCCESS ->
      (forall e, e ∈ view ll s -> conflicts own lock owner e = false) -> after 0 (view ll s) s s' ->
      locked owner st lock s (fs_status (fst (fst (lock_op entry owner FSAL_OP_LOCK (set_sle_type POSIX_LOCK lock) k))), c) s'
  | lock_granted n es s' c : (forall e, e ∈ view ll s -> conflicts own lock owner e = false) -> merge_pure own owner fuel lock [] (view ll s) = Some (n, es) ->
      after (empties es) (es ++ [with_lock n (new_entry s owner st lock)]) s s' -> locked owner st lock s (STATE_SUCCESS, c) s'.

Notation acquire := (acquire lock_op cache_inode_kill_entry update_delegation_stats own supports unknown_owner fuel call_back).

(** [acquire] when the list has no conflict; the pin of the operation is released. *)
Lemma acquire_ok (s : state) owner st bd lock ov : lockable s -> room s -> owner <> 0 -> alive s owner -> valid lock ->
  (forall e, e ∈ view ll s -> conflicts own lock owner e = false) ->
  (exists k c s', supports (ctx_export s) fso_lock_support = true /\ fs_status (fst (fst (lock_op entry owner FSAL_OP_LOCK (set_sle_type POSIX_LOCK lock) k))) <> STATE_SUCCESS
    /\ acquire entry owner st STATE_NON_BLOCKING bd lock POSIX_LOCK (mk_scan true ov None None) s
        = done ((fs_status (fst (fst (lock_op entry owner FSAL_OP_LOCK (set_sle_type POSIX_LOCK lock) k))), c), s') /\ after (-1) (view ll s) s s')
  \/ (exists n es c s', acquire entry owner st STATE_NON_BLOCKING bd lock POSIX_LOCK (mk_scan true ov None None) s = done ((STATE_SUCCESS, c), s')
    /\ merge_pure own owner fuel lock [] (view ll s) = Some (n, es) /\ after (empties es - 1) (es ++ [with_lock n (new_entry s owner st lock)]) s s').
Proof.
  intros Hk Hroom Ho Ha Hl Hc. destruct (new_ok s owner st lock Hk Hroom Ho Ha) as (x & s1 & E1 & Hx & Ad & Off1 & A1 & G1 & Mem1).
  pose proof (af_lockable _ _ _ _ A1) as Hk1.
  destruct (do_lock_ok s1 FSAL_OP_LOCK owner lock true ov (lk_book _ Hk1) (lk_plain _ Hk1) (lk_unknown _ Hk1)) as (status & c & s2 & E2 & C2 & Hnb & F1 & F2); [auto|].
  pose proof (after_then _ _ _ _ _ _ A1 C2) as A2. pose proof (af_lockable _ _ _ _ A2) as Hk2.
  destruct (calm_view _ _ _ ll C2) as [G2 V2].
  assert (les s2 !! x = Some (new_entry s2 owner st lock)) as Hx2.
  { rewrite (calm_les _ _ _ C2), (adds_les _ _ _ _ _ Ad), lookup_insert_eq. unfold new_entry. by rewrite (af_ctx _ _ _ _ A2). }
  assert (off s2 x) as Off2 by (intros l Hl'; rewrite (proj1 (calm_view _ _ _ l C2)); by apply Off1).
  unfold Locks.acquire. rewrite get_run, (proj1 (lk_plain _ Hk)). cbn [negb andb allow overlap conflict].
  rewrite (bind_done _ _ _ _ _ E1), (proj2 (Z.eqb_neq x 0) Hx), (bind_done _ _ _ _ _ E2).
  assert (status = STATE_SUCCESS \/ status <> STATE_SUCCESS) as [->|Hns] by (destruct status; first [by left | by right]).
  - right. destruct (insert_ok s2 x owner st lock Hk2 Hx2 Off2 Ho Hl) as (n & es & s3 & E3 & Em & A3).
    { rewrite G2, G1. apply Hroom. }
    { apply (memory_le _ (2 * length (glist ll s))); [rewrite G2, G1; lia|]. destruct Mem1 as [M1 M2]. split; by rewrite (calm_supply _ _ _ C2). }
    { rewrite (af_view _ _ _ _ A2). done. }
    rewrite (af_view _ _ _ _ A2) in Em. destruct (dec_pin_ok s3 (af_lockable _ _ _ _ A3)) as [E4 C4]. exists n, es. eexists _, _. split.
    { rewrite (bind_done _ _ _ _ _ E3), (bind_done _ _ _ _ _ E4). reflexivity. }
    split; [done|]. pose proof (after_then _ _ _ _ _ _ (after_trans _ _ _ _ _ _ _ A2 A3) C4) as A4. unfold new_entry in A4. rewrite (af_ctx _ _ _ _ A2) in A4.
    by replace (0 + 0 + empties es + -1) with (empties es - 1) in A4 by lia.
  - left. assert (supports (ctx_export s1) fso_lock_support = true /\ ov = false) as [Hsup ->].
    { destruct (supports (ctx_export s1) fso_lock_support) eqn:Hs, ov; try done; exfalso; apply Hns, F1; auto. }
    destruct (F2 Hsup eq_refl) as [F3 _]. destruct (refuse_ok s2 x _ Hk2 Hx2 Off2) as (s3 & E3 & A3). rewrite (af_view _ _ _ _ A2) in A3.
    pose proof (after_trans _ _ _ _ _ _ _ A2 A3) as A23. destruct (dec_pin_ok s3 (af_lockable _ _ _ _ A23)) as [E4 C4].
    exists (fsal s1). eexists _, (pinned (-1) s3). rewrite <- F3. split; [by rewrite <- (af_ctx _ _ _ _ A1)|]. split; [done|]. split; [|exact (after_then _ _ _ _ _ _ A23 C4)].
    destruct status; try done; rewrite (bind_done _ _ _ _ _ E3), (bind_done _ _ _ _ _ E4); reflexivity.
Qed.

Lemma room_calm d (s s' : state) : calm d s s' -> room s -> room s'.
Proof.
  intros C [H1 [H2 H3]]. destruct (calm_view d s s' ll C) as [G _]. unfold room, memory. rewrite G, (calm_supply _ _ _ C). done.
Qed.

Lemma after_back d d' es es' (s s1 s' : state) : lockable s -> calm d s s1 -> es = es' -> after d' es s1 s' -> after (d + d') es' s s'.
Proof. intros Hk C -> A. exact (after_trans _ _ _ _ _ _ _ (after_calm _ _ _ Hk C) A). Qed.

Lemma lock_ok (s : state) owner st bd lock : lockable s -> room s -> owner <> 0 -> alive s owner -> valid lock ->
  exists r s', state_lock entry owner st STATE_NON_BLOCKING bd lock POSIX_LOCK s = done (r, s') /\ locked owner st lock s r s'.
Proof.
  intros Hk Hr Ho Ha Hl. destruct (inc_pin_ok s Hk) as [E1 C1]. set (s1 := pinned 1 s) in *.
  unfold Locks.state_lock. rewrite (bind_done _ _ _ _ _ E1), get_run. cbn zeta. set (rdwr := negb _).
  destruct (fs_call_ok (cache_inode_open entry rdwr (lock_reclaim lock)) s1 (calm_book _ _ _ C1)) as (s2 & E2 & C2). rewrite (bind_done _ _ _ _ _ E2).
  pose proof (calm_trans _ _ _ _ _ C1 C2) as C12. pose proof (calm_lockable _ _ _ C12 Hk) as Hk2. destruct (dec_pin_ok s2 Hk2) as [E3 C3].
  set (opened := fst (cache_inode_open entry rdwr (lock_reclaim lock) (fsal s1))).
  assert (opened = CACHE_INODE_SUCCESS \/ opened <> CACHE_INODE_SUCCESS) as [Eo|Eo] by (destruct opened; first [by left | by right]).
  2: { exists (cache_inode_status_to_state_status opened, None), (pinned (-1) s2). split.
       - destruct opened; try done; by rewrite (bind_done _ _ _ _ _ E3).
       - apply lock_unopened; [done | by eexists _, _|]. exact (after_calm _ _ _ Hk (calm_trans _ _ _ _ _ C12 C3)). }
  rewrite Eo, bool_decide_eq_true_2 by done. erewrite bind_done by reflexivity.
  assert (length (glist ll s2) <= fuel)%nat as Hf2 by (rewrite (proj1 (calm_view _ _ _ ll C12)); destruct Hr; lia).
  destruct (scan_ok s2 owner lock Hk2 Hf2) as (a & s3 & E4 & Hsc & C4). rewrite (bind_done _ _ _ _ _ E4).
  pose proof (calm_trans _ _ _ _ _ C12 C4) as C14. pose proof (calm_lockable _ _ _ C14 Hk) as Hk3. destruct (dec_pin_ok s3 Hk3) as [E5 C5].
  destruct (calm_view _ _ _ ll C12) as [_ V2]. destruct (calm_view _ _ _ ll C14) as [G3 V3]. rewrite V2 in Hsc.
  pose proof (after_calm _ _ _ Hk (calm_trans _ _ _ _ _ C14 C5)) as A5.
  destruct Hsc as [e Hin Hcf|e ov Hin Hso Hct|ov Hnc Hov]; cbn [ret conflict].
  - eexists _, _. split; [unfold Locks.acquire; rewrite get_run, (proj1 (lk_plain _ Hk3)); cbn [negb andb allow]; rewrite (bind_done _ _ _ _ _ E5); reflexivity|].
    by apply lock_conflict.
  - eexists _, _. split; [rewrite (bind_done _ _ _ _ _ E5); reflexivity|]. by eapply lock_had.
  - rewrite <- V3 in Hnc. pose proof (calm_alive _ _ _ C14 _ Ha) as Ha3.
    destruct (acquire_ok s3 owner st bd lock ov Hk3 (room_calm _ _ _ C14 Hr) Ho Ha3 Hl Hnc) as [(k & c & s4 & Hsup & Hns & E6 & A6)|(n & es & c & s4 & E6 & Em & A6)];
      eexists _, s4; (split; [exact E6|]); rewrite V3 in *.
    + rewrite (calm_ctx _ _ _ C14) in Hsup. apply lock_refused; [done | done | done|]. exact (after_back _ _ _ _ _ _ _ Hk C14 eq_refl A6).
    + eapply lock_granted; [done | exact Em|]. pose proof (after_back _ _ _ _ _ _ _ Hk C14 eq_refl A6) as A. unfold new_entry in *. rewrite (calm_ctx _ _ _ C14) in A.
      by replace (1 + 0 + 0 + (empties es - 1)) with (empties es) in A by lia.
Qed.

(** ** Testing *)

(** The outcomes of [state_test]. *)
Inductive tested (owner : Z) (lock : fsal_lock_param_t) (s : state) : state_status_t * option (Z * fsal_lock_param_t) -> Prop :=
  | test_unopened status : status <> CACHE_INODE_SUCCESS -> (exists k, status = fst (cache_inode_open entry false false k)) -> tested owner lock s (cache_inode_status_to_state_status status, None)
  | test_conflict e : e ∈ view ll s -> conflicts own lock owner e = true -> tested owner lock s (STATE_LOCK_CONFLICT, Some (sle_owner e, sle_lock e))
  | test_free status c : (forall e, e ∈ view ll s -> conflicts own lock owner e = false) ->
      (supports (ctx_export s) fso_lock_support = false -> status = STATE_SUCCESS) -> tested owner lock s (status, c).

Lemma overlap_ok (s : state) owner lock : lockable s -> (length (glist ll s) <= fuel)%nat ->
  exists x, get_overlapping_entry own fuel entry owner lock s = done (x, s)
  /\ ((x = 0 /\ forall e, e ∈ view ll s -> conflicts own lock owner e = false) \/ (exists e, les s !! x = Some e /\ e ∈ view ll s /\ conflicts own lock owner e = true)).
Proof.
  intros Hk Hf. pose proof (lk_book _ Hk) as Hb. pose proof (lk_sound _ Hk) as Hs. unfold sound in Hs. rewrite Forall_forall in Hs.
  set (f := fun (_ x : Z) => match les s !! x with Some e => if conflicts own lock owner e then (x, false) else (0, true) | None => (0, true) end).
  exists (search f 0 (glist ll s)). split.
  - apply walk_search; [by apply (book_lists _ _ Hb) | | done]. intros a x Hx. destruct (listed s ll x Hb eq_refl Hx) as (e & He & Hin).
    rewrite (bind_done _ _ _ _ _ (entry_at_ok s x e He)), (proj2 (Hs e Hin)), !bool_decide_eq_false_2 by done. cbn [orb]. unfold f. rewrite He.
    fold (conflicts own lock owner e). by destruct (conflicts own lock owner e).
  - assert (forall x, x ∈ glist ll s -> exists e, les s !! x = Some e /\ e ∈ view ll s) as Hl by (intros; by apply listed). unfold view at 1.
    induction (glist ll s) as [|x L IH]; [left; split; [done|]; intros e He; by apply not_elem_of_nil in He|]. destruct (Hl x ltac:(by left)) as (e & He & Hin).
    cbn [search]. unfold f at 1 3. rewrite He. destruct (conflicts own lock owner e) eqn:Hc; [right; by exists e|].
    destruct IH as [[H1 H2]|(e' & H1 & H2)]; [cbn in Hf; lia | intros y Hy; apply Hl; by right | left | right; by exists e'].
    split; [done|]. intros e' He'. cbn in He'. rewrite He in He'. apply elem_of_cons in He' as [->|He']; [done | by apply H2].
Qed.

Lemma test_ok (s : state) owner lock : lockable s -> (length (glist ll s) <= fuel)%nat ->
  exists r s', Locks.state_test cache_inode_open lock_op cache_inode_kill_entry own supports unknown_owner fuel entry owner lock s = done (r, s')
  /\ tested owner lock s r /\ calm 0 s s'.
Proof.
  intros Hk Hf. destruct (inc_pin_ok s Hk) as [E1 C1]. set (s1 := pinned 1 s) in *.
  destruct (fs_call_ok (cache_inode_open entry false false) s1 (calm_book _ _ _ C1)) as (s2 & E2 & C2).
  pose proof (calm_trans _ _ _ _ _ C1 C2) as C12. pose proof (calm_lockable _ _ _ C12 Hk) as Hk2. destruct (calm_view _ _ _ ll C12) as [G2 V2].
  unfold Locks.state_test. rewrite (bind_done _ _ _ _ _ E1), (bind_done _ _ _ _ _ E2). set (opened := fst _).
  assert (opened = CACHE_INODE_SUCCESS \/ opened <> CACHE_INODE_SUCCESS) as [->|Eo] by (destruct opened; first [by left | by right]).
  2: { destruct (dec_pin_ok s2 Hk2) as [E3 C3]. exists (cache_inode_status_to_state_status opened, None), (pinned (-1) s2).
       split; [destruct opened; try done; by rewrite (bind_done _ _ _ _ _ E3)|]. split; [by apply test_unopened; [|eexists] | exact (calm_trans _ _ _ _ _ C12 C3)]. }
  destruct (overlap_ok s2 owner lock Hk2) as (x & E3 & Hx); [by rewrite G2|]. rewrite (bind_done _ _ _ _ _ E3). rewrite V2 in Hx.
  destruct Hx as [[-> Hn]|(e & He & Hin & Hc)].
  - destruct (do_lock_ok s2 FSAL_OP_LOCKT owner lock true false (lk_book _ Hk2) (lk_plain _ Hk2) (lk_unknown _ Hk2)) as (status & c & s3 & E4 & C4 & _ & F1 & _); [auto|].
    pose proof (calm_trans _ _ _ _ _ C12 C4) as C14. destruct (dec_pin_ok s3 (calm_lockable _ _ _ C14 Hk)) as [E5 C5].
    exists (status, c), (pinned (-1) s3). split; [|split; [|exact (calm_trans _ _ _ _ _ C14 C5)]].
    + cbn. rewrite (bind_done _ _ _ _ _ E4), (bind_done _ _ _ _ _ E5). done.
    + apply test_free; [done|]. intros Hls. apply F1. left. by rewrite (calm_ctx _ _ _ C12).
  - destruct (book_entry _ _ (lk_book _ Hk2) x e He) as (Hx0 & _). destruct (owned_user own s2 x e (lk_book _ Hk2) He) as (n & Hn & _).
    destruct (inc_owner_ok s2 (sle_owner e) (lk_book _ Hk2)) as (s3 & E4 & C4); [by exists n|].
    pose proof (calm_trans _ _ _ _ _ C12 C4) as C14. destruct (dec_pin_ok s3 (calm_lockable _ _ _ C14 Hk)) as [E5 C5].
    exists (STATE_LOCK_CONFLICT, Some (sle_owner e, sle_lock e)), (pinned (-1) s3). split; [|split; [by apply test_conflict | exact (calm_trans _ _ _ _ _ C14 C5)]].
    unfold copy_conflict. rewrite (proj2 (Z.eqb_neq x 0) Hx0). cbn [negb].
    erewrite (bind_done _ _ s2); [rewrite (bind_done _ _ _ _ _ E5); reflexivity|]. erewrite bind_done; [reflexivity|].
    rewrite (bind_done _ _ _ _ _ (entry_at_ok s2 x e He)), (bind_done _ _ _ _ _ E4). done.
Qed.

End ops.

End LockOps.
