(* ===== verification/LockProps.v ===== *)
(** Byte-range locks: what the operations promise to the owners of locks, and where they do not keep it. Module
    [LockProps]. The abstraction of the locks of a file is the table of who holds which byte; taking and releasing a
    range refine the operations on tables. *)

From S2P Require Import Prelude StateTypes StateLock LockBook LockSubtract LockNoMemory LockMerge LockHeld LockExcl LockOps.
Import Sal Locks LockBook LockSubtract LockNoMemory LockMerge LockHeld LockExcl LockOps.
Local Open Scope Z_scope.
Set Default Proof Using "Type".

Module LockProps.

(** ** Tables *)

(** Which owner has a lock of which type on which byte. *)
Definition table := Z -> fsal_lock_t -> Z -> Prop.

Definition lock_table (own : Z -> state_owner_t) (owner : Z) (lock : fsal_lock_param_t) (T : table) : table := fun o ty b =>
  (same own owner o /\ covers lock b /\ ty = lock_type lock) \/ (T o ty b /\ ~ (same own owner o /\ covers lock b)).

Definition unlock_table (own : Z -> state_owner_t) (owner : Z) (lock : fsal_lock_param_t) (T : table) : table := fun o ty b =>
  T o ty b /\ ~ (same own owner o /\ covers lock b).

(** The owners exclude each other. *)
Definition exclusion (own : Z -> state_owner_t) (T : table) : Prop := forall o1 o2 ty b, T o1 FSAL_LOCK_W b -> T o2 ty b -> same own o1 o2.

Section table.
Context (own : Z -> state_owner_t).

Lemma exclusive_table es : sound es -> exclusive own es -> exclusion own (holds own es).
Proof.
  intros Hs Hx o1 o2 ty b (e & He & E1 & E2 & E3) (f & Hf & F1 & F2 & F3). unfold sound in Hs. rewrite Forall_forall in Hs.
  destruct (decide (same own (sle_owner e) (sle_owner f))) as [H|H]; [apply (same_trans own _ (sle_owner e)); [by apply same_sym | by apply (same_trans own _ (sle_owner f))]|].
  exfalso. specialize (Hx e f He Hf). apply not_true_iff_false in Hx. apply Hx, conflicts_spec; [by apply Hs | by apply Hs|]. split_and!; [by exists b | by left | done].
Qed.

(** A request within a lock of its owner changes nothing. *)
Lemma had_table es owner lock e o ty b : e ∈ es -> same own (sle_owner e) owner -> contains lock e = true -> apart own es ->
  holds own es o ty b <-> lock_table own owner lock (holds own es) o ty b.
Proof.
  intros He Ho Hc Ha. unfold contains in Hc. apply andb_true_iff in Hc as [[C1%Z.leb_le C2%Z.leb_le]%andb_true_iff C3%bool_decide_eq_true].
  assert (covers lock b -> covers (sle_lock e) b) as Hcov by (unfold covers; lia). unfold lock_table. split.
  - intros H. destruct (decide (same own owner o)) as [Hs|Hs]; [|right; tauto].
    assert (covers lock b \/ ~ covers lock b) as [Hb|Hb] by (unfold covers; lia); [|right; tauto]. left. split; [done|]. split; [done|].
    destruct H as (f & Hf & F1 & <- & F3). rewrite <- C3. apply list_elem_of_split in He as (l1 & l2 & ->). apply (apart_perm own _ (e :: l1 ++ l2)) in Ha as [Ha _]; [|by rewrite Permutation_middle].
    rewrite Forall_forall in Ha. assert (f = e \/ f ∈ l1 ++ l2) as [->|Hf'] by set_solver; [done|]. exfalso. apply (Ha f Hf') with b; [|by apply Hcov | done].
    apply (same_trans own _ owner); [done|]. by apply (same_trans own _ o); [|apply same_sym].
  - intros [(H1 & H2 & ->)|[H _]]; [|done]. exists e. split_and!; [done | by apply (same_trans own _ owner) | done | by apply Hcov].
Qed.

(** Releasing a range of an owner, whatever the state of its locks. *)
Lemma unlock_holds es owner lock o ty b : valid lock -> sound es -> owner <> 0 ->
  holds own (subtract_spec own owner 0 lock es) o ty b <-> unlock_table own owner lock (holds own es) o ty b.
Proof.
  intros Hl Hs Ho. rewrite subtract_holds by done. unfold unlock_table. unfold sound in Hs. rewrite Forall_forall in Hs.
  assert (forall e, e ∈ es -> same own (sle_owner e) o -> target own owner 0 e = true <-> same own owner o) as Ht.
  { intros e He Hs'. unfold target. rewrite (proj2 (Z.eqb_neq owner 0) Ho), (proj2 (Hs e He)), bool_decide_eq_true_2 by done. cbn. rewrite !andb_true_r, negb_true_iff.
    fold (same own (sle_owner e) owner). split; intros H; [by apply (same_trans own _ (sle_owner e)); [apply same_sym|] | by apply (same_trans own _ o); [|apply same_sym]]. }
  unfold holds. split.
  - intros (e & He & E1 & E2 & E3 & E4). split; [by exists e|]. intros [H1 H2]. apply E4. split; [by apply (Ht e)|done].
  - intros [(e & He & E1 & E2 & E3) Hn]. exists e. split_and!; try done. intros [H1 H2]. apply Hn. split; [by apply (Ht e)|done].
Qed.

(** A lock up to the last byte is not merged into a range that starts after byte 0. *)
Lemma merge_keeps_last owner e k : lock_end (sle_lock e) = UINT64_MAX -> forall n kept todo n' es, valid n -> 0 < lock_start n ->
  (forall f, f ∈ todo -> valid (sle_lock f) /\ (same own (sle_owner f) owner -> 0 < lock_start (sle_lock f))) -> e ∈ kept ++ todo ->
  merge_pure own owner k n kept todo = Some (n', es) -> e ∈ es.
Proof.
  intros He. induction k as [|k IH]; intros n kept todo n' es Hn Hn0 Ht Hin Hr; (destruct todo as [|f todo]; [rewrite app_nil_r in Hin; by inversion Hr; subst|]); [done|].
  cbn [merge_pure] in Hr. destruct (Ht f ltac:(by left)) as [Hf Hf0]. assert (forall g, g ∈ todo -> valid (sle_lock g) /\ (same own (sle_owner g) owner -> 0 < lock_start (sle_lock g))) as Ht' by (intros g Hg; apply Ht; by right).
  assert (e = f -> merge_step own owner n f = Keep) as Hk.
  { intros <-. unfold merge_step. rewrite He. change (u64 (UINT64_MAX + 1)) with 0. rewrite (proj2 (Z.ltb_lt 0 (lock_start n)) Hn0). by destruct (different_owners _ _ _), (negb (bool_decide (sle_blocked e = STATE_NON_BLOCKING))). }
  assert (e = f \/ e ∈ kept ++ todo) as [Hef|Hef] by (apply elem_of_app in Hin as [?|[?|?]%elem_of_cons]; rewrite ?elem_of_app; auto).
  - rewrite (Hk Hef) in Hr. apply IH in Hr; [done..|]. subst f. rewrite !elem_of_app, list_elem_of_singleton. auto.
  - assert (same own (sle_owner f) owner \/ merge_step own owner n f = Keep) as Hsame by (unfold merge_step, same; destruct (different_owners _ _ _); auto).
    pose proof (merge_step_cases own owner n f) as Hc. destruct (merge_step own owner n f) as [|n1|f'|l r].
    + apply IH in Hr; [done..|]. rewrite !elem_of_app in *. tauto.
    + subst n1. destruct (gone_valid n f Hn Hf) as (G1 & G2 & G3). apply IH in Hr; [done | done | | done | done]. rewrite G1. destruct Hsame as [Hs|]; [specialize (Hf0 Hs); lia | done].
    + apply IH in Hr; [done..|]. rewrite !elem_of_app in *. tauto.
    + destruct Hc as (C1%Z.ltb_lt & _ & -> & ->). destruct (right_valid n f Hn C1) as [R1 R2]. destruct todo as [|g todo]; [injection Hr as <- <-; rewrite app_nil_r in Hef; apply elem_of_app; by left|].
      apply IH in Hr; [done | done | done | | rewrite !elem_of_app in *; tauto]. intros h Hh. apply elem_of_app in Hh as [Hh|Hh]; [by apply Ht'|].
      apply list_elem_of_singleton in Hh as ->. unfold valid. rewrite R1, R2. destruct Hn. split; [lia|]. lia.
Qed.

(** A lock that is swallowed by a larger one, and the release of all. *)
Lemma swallow_merge owner lock e k : valid (sle_lock e) -> sle_blocked e = STATE_NON_BLOCKING -> valid lock -> same own (sle_owner e) owner ->
  lock_type (sle_lock e) = lock_type lock -> lock_start lock <= lock_start (sle_lock e) -> lock_end (sle_lock e) < lock_end lock < UINT64_MAX -> (1 <= k)%nat ->
  merge_pure own owner k lock [] [e]
  = Some (set_range (Z.min (lock_start lock) (lock_start (sle_lock e))) (u64 (Z.max (lock_end lock) (lock_end (sle_lock e)) - Z.min (lock_start lock) (lock_start (sle_lock e)) + 1)) lock, []).
Proof.
  intros He Hb Hl Hs Hty Hst Hend Hk. destruct k as [|k]; [lia|]. pose proof (lock_end_bound (sle_lock e)). destruct He, Hl. cbn [merge_pure]. unfold merge_step. unfold same in Hs.
  rewrite Hs, Hb, Hty, !bool_decide_eq_true_2 by done. cbn [negb andb]. rewrite (u64_within (lock_end (sle_lock e) + 1)), (u64_within (lock_end lock + 1)) by lia.
  rewrite !(proj2 (Z.ltb_ge _ _)) by lia. by destruct k.
Qed.

Lemma swallow_release owner e : owner <> 0 -> same own (sle_owner e) owner -> sle_blocked e = STATE_NON_BLOCKING -> valid (sle_lock e) -> subtract_spec own owner 0 whole_file [e] = [].
Proof.
  intros Ho Hs Hb He. pose proof (lock_end_bound (sle_lock e)). change UINT64_MAX with (lock_end whole_file) in *.
  assert (touched own owner 0 whole_file e = true) as Ht.
  { unfold touched, target. unfold same in Hs. rewrite (proj2 (Z.eqb_neq owner 0) Ho), Hs, Hb, bool_decide_eq_true_2 by done. cbn [orb negb andb]. unfold overlaps.
    rewrite !(proj2 (Z.leb_le _ _)); [done | destruct He; lia | destruct He; cbn; lia]. }
  unfold subtract_spec. cbn [List.filter]. rewrite Ht. cbn [negb List.filter app flat_map]. unfold pieces. cbn [lock_start whole_file].
  rewrite !(proj2 (Z.ltb_ge _ _)); [done | lia | destruct He; lia].
Qed.

End table.

Section ops.
Context {K : Type} (cache_inode_open : Z -> bool -> bool -> K -> cache_inode_status_t * K)
  (lock_op : Z -> Z -> fsal_lock_op_t -> fsal_lock_param_t -> K -> (fsal_errors_t * fsal_lock_param_t) * K)
  (cache_inode_kill_entry : Z -> K -> K) (update_delegation_stats : Z -> Z -> K -> K)
  (own : Z -> state_owner_t) (supports : Z -> fso -> bool) (unknown_owner : Z) (fuel : nat).
Notation state := (@state K).
Context (call_back : Z -> Z -> Z -> M state state_status_t) (entry : Z).

Notation ll := (lock_list entry).
Notation state_lock := (state_lock cache_inode_open lock_op cache_inode_kill_entry update_delegation_stats own supports unknown_owner fuel call_back entry).
Notation state_unlock := (state_unlock lock_op cache_inode_kill_entry own supports unknown_owner fuel call_back entry).
Notation state_test := (state_test cache_inode_open lock_op cache_inode_kill_entry own supports unknown_owner fuel entry).
Notation lockable := (lockable own supports unknown_owner entry).
Notation room := (room fuel entry).
Notation locked := (locked cache_inode_open lock_op own supports unknown_owner fuel entry).

(** Who holds which byte of the file. *)
Definition held (s : state) : table := holds own (view ll s).

Definition pins (s : state) : option Z := pin_refcnt <$> files s !! entry.

Lemma locked_after owner st lock (s s' : state) r : locked owner st lock s r s' -> exists d es, after own supports unknown_owner entry d es s s'.
Proof. intros []; by eexists _, _. Qed.

Lemma unlock_any (s : state) owner st lock : lockable s -> room s -> valid lock ->
  exists status s', state_unlock owner st false lock POSIX_LOCK s = done (status, s')
  /\ after own supports unknown_owner entry (empties (view ll s) - empties (subtract_spec own owner st lock (view ll s))) (subtract_spec own owner st lock (view ll s)) s s'
  /\ (supports (ctx_export s) fso_lock_support = false -> status = STATE_SUCCESS).
Proof.
  intros Hk Hr Hl. destruct (view ll s) eqn:Hv.
  - destruct (unlock_empty lock_op cache_inode_kill_entry own supports unknown_owner fuel call_back entry s owner st lock Hk Hv) as (s' & E & C).
    exists STATE_SUCCESS, s'. split; [done|]. split; [|done]. pose proof (after_calm own supports unknown_owner entry _ _ _ Hk C) as A. rewrite Hv in A. exact A.
  - destruct (unlock_nonempty lock_op cache_inode_kill_entry own supports unknown_owner fuel call_back entry s owner st lock Hk Hr Hl) as (status & s' & E & A & F & _); [by rewrite Hv|].
    exists status, s'. rewrite Hv in A. done.
Qed.

(** ** Every request on a file *)

(** A request that returns. *)
Inductive step (s : state) : state -> Prop :=
  | step_lock owner st bd lock r s' : room s -> owner <> 0 -> alive s owner -> valid lock ->
      state_lock owner st STATE_NON_BLOCKING bd lock POSIX_LOCK s = done (r, s') -> step s s'
  | step_unlock owner st lock r s' : room s -> valid lock -> state_unlock owner st false lock POSIX_LOCK s = done (r, s') -> step s s'
  | step_test owner lock r s' : room s -> state_test owner lock s = done (r, s') -> step s s'.

(** The pin count is at least that of the file without locks, and one more when it has some. *)
Definition pinned_enough (p : Z) (s : state) : Prop := exists q, files s !! entry = Some (mk_file true q false) /\ p + (1 - empties (view ll s)) <= q.

Lemma after_pins d es p (s s' : state) : after own supports unknown_owner entry d es s s' -> pinned_enough p s -> empties (view ll s) - empties es <= d -> pinned_enough p s'.
Proof.
  intros A (q & Hq & Hle) Hd. exists (q + d). rewrite (af_files _ _ _ _ _ _ _ _ A), lookup_alter_eq, Hq, (af_view _ _ _ _ _ _ _ _ A). split; [done|]. lia.
Qed.

Lemma request_ok p (s s' : state) : step s s' -> lockable s -> pinned_enough p s -> lockable s' /\ pinned_enough p s'.
Proof.
  intros Hst Hk Hp. destruct Hst as [owner st bd lock r s' Hr Ho Ha Hl E|owner st lock r s' Hr Hl E|owner lock r s' Hr E].
  - destruct (lock_ok cache_inode_open lock_op cache_inode_kill_entry update_delegation_stats own supports unknown_owner fuel call_back entry s owner st bd lock Hk Hr Ho Ha Hl) as (r' & s'' & E' & L).
    rewrite E in E'. injection E' as <- <-.
    destruct L as [? ? _ _ A|? ? _ _ A|? ? _ _ _ A|? ? ? _ _ _ A|n es ? ? _ Hm A]; (split; [apply A|]); (eapply after_pins; [exact A | done|]); [lia..|].
    destruct (view ll s) eqn:Hv; [destruct fuel; injection Hm as <- <-; cbn; lia|]. destruct es; cbn; lia.
  - destruct (unlock_any s owner st lock Hk Hr Hl) as (r' & s'' & E' & A & _). rewrite E in E'. injection E' as <- <-. split; [apply A|]. eapply after_pins; [exact A | done | lia].
  - destruct (test_ok cache_inode_open lock_op cache_inode_kill_entry own supports unknown_owner fuel entry s owner lock Hk) as (r' & s'' & E' & _ & C); [destruct Hr; lia|].
    rewrite E in E'. injection E' as <- <-. pose proof (after_calm own supports unknown_owner entry _ _ _ Hk C) as A. split; [apply A|]. eapply after_pins; [exact A | done | lia].
Qed.

(** C27: whatever requests a file without locks gets, by whatever owners, no byte is ever held exclusively by one owner
    and in any way by another, the file stays pinned while it has locks, and the next request returns. *)
Theorem locks_exclusive (s0 s : state) p : lockable s0 -> view ll s0 = [] -> pins s0 = Some p -> rtc step s0 s ->
  exclusion own (held s) /\ pinned_enough p s
  /\ forall owner st bd lock, room s -> owner <> 0 -> alive s owner -> valid lock ->
      (exists r s', state_lock owner st STATE_NON_BLOCKING bd lock POSIX_LOCK s = done (r, s'))
      /\ (exists r s', state_unlock owner st false lock POSIX_LOCK s = done (r, s')).
Proof.
  intros Hk Hv Hp Hrun. assert (lockable s /\ pinned_enough p s) as [Hk' Hp'].
  { assert (pinned_enough p s0) as Hp0. { destruct (lk_file _ _ _ _ _ Hk) as [q Hq]. exists q. unfold pins in Hp. rewrite Hq in Hp. injection Hp as <-. rewrite Hv. split; [done | cbn; lia]. }
    clear Hv Hp. induction Hrun as [|s0 s1 s Hst _ IH]; [done|]. destruct (request_ok p s0 s1 Hst Hk Hp0). by apply IH. }
  split; [apply exclusive_table; apply Hk'|]. split; [done|]. intros owner st bd lock Hr Ho Ha Hl. split.
  - destruct (lock_ok cache_inode_open lock_op cache_inode_kill_entry update_delegation_stats own supports unknown_owner fuel call_back entry s owner st bd lock Hk' Hr Ho Ha Hl) as (r & s' & E & _). by exists r, s'.
  - destruct (unlock_any s owner st lock Hk' Hr Hl) as (r & s' & E & _). by exists r, s'.
Qed.

(** ** Taking and releasing *)

Lemma open_error status : status <> CACHE_INODE_SUCCESS -> cache_inode_status_to_state_status status <> STATE_SUCCESS.
Proof. by destruct status. Qed.

(** Another owner holds a byte of the request, and one of the two is exclusive. *)
Definition contested (T : table) (owner : Z) (lock : fsal_lock_param_t) : Prop :=
  exists o ty b, T o ty b /\ covers lock b /\ ~ same own o owner /\ (ty = FSAL_LOCK_W \/ lock_type lock = FSAL_LOCK_W).

Lemma conflict_contested (s : state) owner lock e : lockable s -> valid lock -> e ∈ view ll s -> conflicts own lock owner e = true -> contested (held s) owner lock.
Proof.
  intros Hk Hl He Hc. pose proof (lk_sound _ _ _ _ _ Hk) as Hs. unfold sound in Hs. rewrite Forall_forall in Hs.
  apply conflicts_spec in Hc as ((b & B1 & B2) & Hw & Hso); [|done | by apply Hs].
  exists (sle_owner e), (lock_type (sle_lock e)), b. split_and!; [|done | done | done]. exists e. split_and!; try done. apply same_refl.
  apply list_elem_of_omap in He as (x & _ & He). by apply (book_entry _ _ (lk_book _ _ _ _ _ Hk) x).
Qed.

Lemma contested_spec (s : state) owner lock : lockable s -> valid lock ->
  (forall e, e ∈ view ll s -> conflicts own lock owner e = false) <-> ~ contested (held s) owner lock.
Proof.
  intros Hk Hl. pose proof (lk_sound _ _ _ _ _ Hk) as Hs. unfold sound in Hs. rewrite Forall_forall in Hs. split.
  - intros Hn (o & ty & b & (e & He & E1 & E2 & E3) & Hc & Hso & Hw). specialize (Hn e He). apply not_true_iff_false in Hn.
    apply Hn, conflicts_spec; [done | by apply Hs|]. rewrite E2. split_and!; [by exists b | done|]. intros Hs'. apply Hso. apply (same_trans own _ (sle_owner e)); [by apply same_sym | done].
  - intros Hn e He. apply not_true_iff_false. intros Hc. by apply Hn, (conflict_contested s owner lock e).
Qed.

(** A range that the owner holds is not contested. *)
Lemma had_uncontested (s : state) owner lock e : lockable s -> e ∈ view ll s -> same own (sle_owner e) owner -> contains lock e = true -> ~ contested (held s) owner lock.
Proof.
  intros Hk He Ho Hc (o & ty & b & Hh & Hb & Hso & Hw). unfold contains in Hc. apply andb_true_iff in Hc as [[C1%Z.leb_le C2%Z.leb_le]%andb_true_iff C3%bool_decide_eq_true].
  assert (held s owner (lock_type lock) b) as Hh'. { exists e. split_and!; try done. unfold covers in *. lia. }
  pose proof (exclusive_table own _ (lk_sound _ _ _ _ _ Hk) (lk_excl _ _ _ _ _ Hk)) as Hx. destruct Hw as [-> | Hw].
  - apply Hso, (Hx o owner _ b Hh Hh').
  - rewrite Hw in Hh'. apply Hso, same_sym, (Hx owner o _ b Hh' Hh).
Qed.

(** C28: when no lock of the owner reaches the last byte, [state_lock] refines the table of held bytes. It never succeeds
    when the range is contested; when it succeeds the owner holds exactly its former bytes with the range on top, in
    the type asked for, and the others what they held; when it fails nobody holds anything else. An export that locks
    nothing below grants every range that is not contested. The locks of other files stay. *)
Theorem lock_refines (s : state) owner st bd lock : lockable s -> room s -> owner <> 0 -> alive s owner -> valid lock -> lock_end lock < UINT64_MAX ->
  Forall (short own owner) (view ll s) -> apart own (view ll s) ->
  exists r s', state_lock owner st STATE_NON_BLOCKING bd lock POSIX_LOCK s = done (r, s') /\ lockable s' /\ apart own (view ll s') /\ Forall (short own owner) (view ll s')
  /\ (fst r = STATE_SUCCESS -> forall o ty b, held s' o ty b <-> lock_table own owner lock (held s) o ty b)
  /\ (fst r <> STATE_SUCCESS -> forall o ty b, held s' o ty b <-> held s o ty b)
  /\ (contested (held s) owner lock -> fst r <> STATE_SUCCESS)
  /\ (supports (ctx_export s) fso_lock_support = false -> (forall rdwr rc k, fst (cache_inode_open entry rdwr rc k) = CACHE_INODE_SUCCESS) ->
      ~ contested (held s) owner lock -> fst r = STATE_SUCCESS)
  /\ forall l, by_sle_list l = true -> l <> ll -> view l s' = view l s.
Proof.
  intros Hk Hr Ho Ha Hl Hle Hsh Hap.
  destruct (lock_ok cache_inode_open lock_op cache_inode_kill_entry update_delegation_stats own supports unknown_owner fuel call_back entry s owner st bd lock Hk Hr Ho Ha Hl) as (r & s' & E & L).
  exists r, s'. split; [done|]. pose proof (contested_spec s owner lock Hk Hl) as Hcs. unfold held in *.
  destruct L as [status s' Hst (rdwr & k & Ek) A|e s' He Hc A|e s' He Hso Hct A|k c s' Hsup Hns Hnc A|n es s' c Hnc Hm A]; cbn [fst];
    (split; [apply A|]); pose proof (af_others _ _ _ _ _ _ _ _ A) as Hoth; rewrite (af_view _ _ _ _ _ _ _ _ A).
  - pose proof (open_error status Hst). split_and!; try done. intros _ Hop _. rewrite (Hop rdwr _ k) in Ek. congruence.
  - split_and!; try done. intros _ _ Hn. rewrite <- Hcs in Hn. rewrite (Hn e He) in Hc. done.
  - split_and!; try done; [intros _ o ty b; by apply (had_table own _ owner lock e) |]. intros Hcon _. by apply (had_uncontested s owner lock e).
  - split_and!; try done. congruence.
  - destruct (merge_exact own owner (lock_type lock) fuel (new_entry entry s owner st lock) (view ll s) n es) as (M1 & M2 & M3); [done..|].
    split_and!; try done; [by apply M2|]. intros Hcon _. by apply Hcs in Hnc.
Qed.

(** C29: [state_unlock] without a state refines the table of held bytes, whatever the ranges, those up to the last byte
    included: the owner loses exactly the bytes of the range, the others nothing, and the locks of other files stay. *)
Theorem unlock_refines (s : state) owner lock : lockable s -> room s -> owner <> 0 -> valid lock ->
  exists status s', state_unlock owner 0 false lock POSIX_LOCK s = done (status, s') /\ lockable s'
  /\ (forall o ty b, held s' o ty b <-> unlock_table own owner lock (held s) o ty b)
  /\ (supports (ctx_export s) fso_lock_support = false -> status = STATE_SUCCESS)
  /\ forall l, by_sle_list l = true -> l <> ll -> view l s' = view l s.
Proof.
  intros Hk Hr Ho Hl. destruct (unlock_any s owner 0 lock Hk Hr Hl) as (status & s' & E & A & F). exists status, s'. split; [done|].
  split; [apply A|]. split; [|split; [done | apply A]]. intros o ty b. unfold held. rewrite (af_view _ _ _ _ _ _ _ _ A). apply unlock_holds; [done | apply Hk | done].
Qed.

(** C30: [state_unlock] with whatever memory there is: either the owner loses exactly the bytes of the range, or the
    status is that of a failed allocation, nobody has lost a byte, the file is pinned as before and the file system was
    not told anything. *)
Theorem unlock_out_of_memory (s : state) owner lock : lockable s -> (2 * length (glist ll s) <= fuel)%nat -> owner <> 0 -> valid lock ->
  exists status s', state_unlock owner 0 false lock POSIX_LOCK s = done (status, s') /\ lockable s'
  /\ ((forall o ty b, held s' o ty b <-> unlock_table own owner lock (held s) o ty b)
      \/ (status = STATE_MALLOC_ERROR /\ (forall o ty b, held s' o ty b <-> held s o ty b) /\ pins s' = pins s /\ fsal s' = fsal s)).
Proof.
  intros Hk Hf Ho Hl. destruct (decide (view ll s = [])) as [Hv|Hv].
  { destruct (unlock_empty lock_op cache_inode_kill_entry own supports unknown_owner fuel call_back entry s owner 0 lock Hk Hv) as (s' & E & C).
    exists STATE_SUCCESS, s'. split; [done|]. split; [by apply (calm_lockable _ _ _ _ _ _ _ C)|]. left. intros o ty b. unfold held, unlock_table.
    rewrite (proj2 (calm_view _ _ _ _ _ ll C)), Hv. split; [intros (e & He & _) | intros [(e & He & _) _]]; by apply not_elem_of_nil in He. }
  pose proof (calm_pinned own entry s 1 (lk_book _ _ _ _ _ Hk)) as C1. pose proof (calm_lockable _ _ _ _ _ _ _ C1 Hk) as Hk1. destruct (calm_view _ _ _ _ _ ll C1) as [G1 V1].
  destruct (subtract_list_any own fuel owner 0 lock ll (pinned entry 1 s) (lk_book _ _ _ _ _ Hk1) (lk_idle _ _ _ _ _ Hk1) eq_refl) as [(b & s2 & E2 & Ch)|(b & s2 & E2 & Ro)]; [done | done | by rewrite G1 | |].
  - pose proof (after_changes _ _ _ _ _ _ _ _ _ _ Hk1 Hl Ch) as A2. rewrite V1 in A2. pose proof (af_view _ _ _ _ _ _ _ _ A2) as V2.
    destruct (unlock_run lock_op cache_inode_kill_entry own supports unknown_owner fuel call_back entry s s2 owner 0 lock b Hk Hv) as (status & s' & E & C & _);
      [lia | done | apply A2 | | by rewrite (af_ctx _ _ _ _ _ _ _ _ A2)|].
    { rewrite V2. etransitivity; [apply subtract_length|]. rewrite (length_view own s ll (lk_book _ _ _ _ _ Hk) eq_refl). lia. }
    exists status, s'. split; [done|]. split; [by apply (calm_lockable _ _ _ _ _ _ _ C), A2|]. left. intros o ty b'. unfold held.
    rewrite (proj2 (calm_view _ _ _ _ _ ll C)), V2. apply unlock_holds; [done | apply Hk | done].
  - destruct (unlock_fails lock_op cache_inode_kill_entry own supports unknown_owner fuel call_back entry s s2 owner 0 lock b Hk Hv ltac:(lia) E2 Ro) as (s' & E & Hk' & V & F & Hfs & _).
    exists STATE_MALLOC_ERROR, s'. split; [done|]. split; [done|]. right. split; [done|]. split; [intros o ty b'; by apply holds_perm|]. split; [unfold pins; by rewrite F | done].
Qed.

(** [state_test] changes nothing, and reports a lock that holds a contested byte exactly when the range is
    contested; it then names such a lock and its owner. *)
Theorem test_reports (s : state) owner lock : lockable s -> (length (glist ll s) <= fuel)%nat -> valid lock ->
  (forall rdwr rc k, fst (cache_inode_open entry rdwr rc k) = CACHE_INODE_SUCCESS) -> supports (ctx_export s) fso_lock_support = false ->
  exists r s', state_test owner lock s = done (r, s') /\ view ll s' = view ll s
  /\ ((contested (held s) owner lock /\ exists e, e ∈ view ll s /\ conflicts own lock owner e = true /\ r = (STATE_LOCK_CONFLICT, Some (sle_owner e, sle_lock e)))
      \/ (~ contested (held s) owner lock /\ fst r = STATE_SUCCESS)).
Proof.
  intros Hk Hf Hl Hop Hls. destruct (test_ok cache_inode_open lock_op cache_inode_kill_entry own supports unknown_owner fuel entry s owner lock Hk Hf) as (r & s' & E & T & C).
  exists r, s'. split; [done|]. split; [by apply (calm_view own entry 0)|]. destruct T as [status Hst (k & Ek)|e He Hc|status c Hn Hs].
  - rewrite Hop in Ek. congruence.
  - left. split; [by apply (conflict_contested s owner lock e) | by exists e].
  - right. split; [by apply contested_spec | by apply Hs].
Qed.

(** ** Releasing with a state *)

(** All locks of the owner on the file were taken with the state [st]. *)
Definition taken_with (s : state) (owner st : Z) : Prop :=
  owner <> 0 /\ st <> 0 /\ view ll s <> [] /\ forall e, e ∈ view ll s -> same own (sle_owner e) owner -> sle_state e = st.

Lemma taken_untouched (s : state) owner st lock e : taken_with s owner st -> e ∈ view ll s -> touched own owner st lock e = false.
Proof.
  intros (Ho & Hst & _ & Ht) He. unfold touched, target. rewrite (proj2 (Z.eqb_neq owner 0) Ho), (proj2 (Z.eqb_neq st 0) Hst). cbn [orb negb andb].
  destruct (different_owners own (sle_owner e) owner) eqn:Hd; [done|]. rewrite (Ht e He Hd), Z.eqb_refl. cbn. by rewrite !andb_false_r.
Qed.

(** C31: [state_unlock] with the state that the locks were taken with, which is how the LOCKU operation calls it, releases
    no byte of the file in the server, whatever the range, though it succeeds, and though the file system below, if it
    keeps locks, was told to release the range. *)
Theorem unlock_own_state (s : state) owner st lock : lockable s -> (length (glist ll s) <= fuel)%nat -> taken_with s owner st ->
  exists status s', state_unlock owner st false lock POSIX_LOCK s = done (status, s') /\ view ll s' = view ll s /\ pins s' = pins s
  /\ (supports (ctx_export s) fso_lock_support = false -> status = STATE_SUCCESS)
  /\ (supports (ctx_export s) fso_lock_support = true -> exists k, status = fs_status (fst (fst (lock_op entry owner FSAL_OP_UNLOCK (set_sle_type POSIX_LOCK lock) k)))).
Proof.
  intros Hk Hf Ht. destruct (unlock_untouched lock_op cache_inode_kill_entry own supports unknown_owner fuel call_back entry s owner st lock Hk Hf) as (status & s' & E & C & F1 & F2);
    [apply Ht | intros e; by apply taken_untouched|].
  exists status, s'. split; [done|]. split; [by apply (calm_view own entry 0)|]. split; [|done]. unfold pins. by rewrite (calm_files _ _ _ _ _ C), bump_0.
Qed.

(** The owner has locks, all of them on this file and taken with the state [st]. *)
Definition all_here (s : state) (owner st : Z) : Prop :=
  taken_with s owner st /\ glist (so_lock_list owner) s <> []
  /\ forall x, x ∈ glist (so_lock_list owner) s -> exists e, les s !! x = Some e /\ e ∈ view ll s /\ sle_entry e = entry /\ sle_state e = st.

(** States that differ in lists that are not linked by [sle_list] only. *)
Lemma relist (s s' : state) : lockable s -> les s' = les s -> supply s' = supply s -> refs s' = refs s -> files s' = files s -> ctx_export s' = ctx_export s ->
  (forall l, by_sle_list l = true -> glist l s' = glist l s) -> lockable s' /\ view ll s' = view ll s.
Proof.
  intros [H1 H2 H3 H4 H5 H6 H7 H8] E1 E2 E3 E4 E5 E6. assert (view ll s' = view ll s) as V by (unfold view; by rewrite E1, E6).
  assert (forall o, users s' o = users s o) as Hu by (intros o; unfold users; by rewrite E1).
  split; [|done]. split; try (by rewrite V).
  - apply (book_change own s); [done..| | done | |].
    + intros y. rewrite E1. destruct (les s !! y) as [e|]; [left; by exists e, e | by right].
    + intros l Hl. rewrite E6 by done. by apply (book_lists _ _ H1).
    + intros l1 l2 x Hl1 Hl2. rewrite !E6 by done. by apply (book_one _ _ H1).
  - unfold idle. by rewrite !E6.
  - unfold plain_export. by rewrite E5.
  - by rewrite E4.
  - by rewrite V, E5.
  - destruct H8 as (n & Hn & Hlt). exists n. by rewrite E3, Hu.
Qed.

(** The first lock of the owner goes to the end of its list. *)
Definition rotated (owner x : Z) (s : state) : state :=
  let s1 := set_gl (<[so_lock_list owner := filter (fun y => y <> x) (glist (so_lock_list owner) s)]> (gl s)) s in
  set_gl (<[so_lock_list owner := glist (so_lock_list owner) s1 ++ [x]]> (gl s1)) s1.

Lemma rotate_run (s : state) owner x e : book own s -> les s !! x = Some e -> sle_export e = ctx_export s -> forall A (k : M state A),
  (_ ← lock_entry_inc_ref x; _ ← glist_del_from (so_lock_list owner) x; _ ← glist_add_tail (so_lock_list owner) x; _ ← on (set_ctx (sle_export e)); _ ← lock_entry_dec_ref x; k) s
  = k (rotated owner x s).
Proof.
  intros Hb He Hx A k. destruct (book_entry _ _ Hb x e He) as (_ & Hrc & Hbd & _). unfold lock_entry_inc_ref. rewrite (bind_done _ _ _ _ _ (change_entry_ok s x e _ He)).
  erewrite bind_done by reflexivity. erewrite bind_done by reflexivity. erewrite bind_done by reflexivity.
  erewrite (bind_done _ _ _ tt (rotated owner x s)); [done|]. unfold lock_entry_dec_ref.
  erewrite bind_done by (apply change_entry_ok, lookup_insert_eq). erewrite bind_done by (apply entry_at_ok, lookup_insert_eq). cbn [sle_ref_count with_refs]. rewrite Hrc.
  assert (with_refs (1 + 1 - 1) (with_refs (1 + 1) e) = e) as Ee by (by destruct e; cbn in *; subst).
  cbn [les set_ctx set_gl set_les]. rewrite Ee, insert_insert_eq, (insert_id (les s) x e He), Hx. done.
Qed.

Lemma rotated_glist owner x (s : state) l : glist l (rotated owner x s) = if decide (so_lock_list owner = l) then filter (fun y => y <> x) (glist l s) ++ [x] else glist l s.
Proof. unfold rotated. rewrite !glist_set. destruct (decide (so_lock_list owner = l)) as [<-|]; [by rewrite decide_True | done]. Qed.

(** Every release on the file goes well below. *)
Definition releases (s : state) (owner : Z) : Prop :=
  supports (ctx_export s) fso_lock_support = true ->
  forall k, state_unlock_err_ok (fs_status (fst (fst (lock_op entry owner FSAL_OP_UNLOCK (set_sle_type POSIX_LOCK whole_file) k)))) = true.

Lemma spin_round (s : state) owner st : lockable s -> (length (glist ll s) <= fuel)%nat -> all_here s owner st -> releases s owner ->
  exists x e status s', head (glist (so_lock_list owner) s) = Some x /\ les s !! x = Some e /\ sle_state e = st /\ sle_entry e = entry /\ sle_export e = ctx_export s
  /\ state_unlock owner st false whole_file POSIX_LOCK (rotated owner x s) = done (status, s') /\ state_unlock_err_ok status = true
  /\ lockable s' /\ (length (glist ll s') <= fuel)%nat /\ all_here s' owner st /\ releases s' owner.
Proof.
  intros Hk Hf ((T1 & T2 & T3 & T4) & Hne & Hall) Hrel. destruct (glist (so_lock_list owner) s) as [|x L] eqn:Hg; [done|].
  destruct (Hall x ltac:(by left)) as (e & He & Hin & Hen & Hst).
  pose proof (lk_export _ _ _ _ _ Hk) as Hex. rewrite Forall_forall in Hex. destruct (Hex e Hin) as [Hexp _].
  destruct (relist s (rotated owner x s) Hk) as [Hk1 V1]; [done..| |].
  { intros l Hl. rewrite rotated_glist, decide_False; [done|]. by intros <-. }
  assert (glist ll (rotated owner x s) = glist ll s) as G1 by (by rewrite rotated_glist, decide_False).
  assert (taken_with (rotated owner x s) owner st) as Ht1 by (unfold taken_with; by rewrite V1).
  destruct (unlock_untouched lock_op cache_inode_kill_entry own supports unknown_owner fuel call_back entry (rotated owner x s) owner st whole_file Hk1) as (status & s' & E & C & F1 & F2);
    [by rewrite G1 | apply Ht1 | intros f; by apply taken_untouched|].
  destruct (calm_view _ _ _ _ _ ll C) as [G2 V2]. rewrite G1 in G2. rewrite V1 in V2.
  exists x, e, status, s'. split_and!; try done.
  - destruct (supports (ctx_export (rotated owner x s)) fso_lock_support) eqn:Hsup; [|by rewrite F1]. destruct (F2 eq_refl) as [k ->]. by apply Hrel.
  - by apply (calm_lockable _ _ _ _ _ _ _ C).
  - by rewrite G2.
  - unfold all_here, taken_with. rewrite V2, (proj1 (calm_view _ _ _ _ _ (so_lock_list owner) C)), rotated_glist, decide_True, Hg, (calm_les _ _ _ _ _ C) by done.
    split; [done|]. split; [by destruct (filter _ _)|]. intros y Hy. apply Hall. apply elem_of_app in Hy as [Hy|Hy]; [by apply list_elem_of_filter in Hy as [_ Hy]|].
    apply list_elem_of_singleton in Hy as ->. by left.
  - unfold releases. by rewrite (calm_ctx _ _ _ _ _ C).
Qed.

(** C32: [state_owner_unlock_all], which the server calls for every state of the lock owners of an expired client, never
    returns when the locks of the owner are of that state and the releases go well: every round leaves every lock where
    it was and counts no error. *)
Theorem owner_unlock_all_spins (s : state) owner st n : lockable s -> (length (glist ll s) <= fuel)%nat -> all_here s owner st -> releases s owner ->
  state_owner_unlock_all lock_op cache_inode_kill_entry own supports unknown_owner fuel call_back n owner st false s = Ok None.
Proof.
  intros Hk Hf Hall Hrel. unfold state_owner_unlock_all. rewrite get_run. apply bind_none.
  generalize STATE_SUCCESS. revert s Hk Hf Hall Hrel. induction n as [|n IH]; intros s Hk Hf Hall Hrel status0; [done|]. cbn [owner_unlock_loop].
  destruct (spin_round s owner st Hk Hf Hall Hrel) as (x & e & status & s' & Hx & He & Hst & Hen & Hexp & E & Hok & Hk' & Hf' & Hall' & Hrel').
  change (STATE_ERR_MAX <=? 0) with false. cbn iota. rewrite get_run, Hx, (bind_done _ _ _ _ _ (entry_at_ok s x e He)), Hst, Z.eqb_refl. cbn [negb].
  rewrite (rotate_run s owner x e (lk_book _ _ _ _ _ Hk) He Hexp), Hen, (bind_done _ _ _ _ _ E), Hok. by apply IH.
Qed.

(** ** Locks up to the last byte *)

(** C33: the bound of the comparison of ranges. The end of a lock up to the last byte is the largest 64-bit number, and
    adding one to it in [merge_lock_entry] wraps to zero; the lock is then taken to end before any range that starts
    after byte 0. So when every lock of the owner and the request start after byte 0, a request of another type leaves
    the lock as it was, whatever it returns: a lock that is downgraded is still exclusive on all its bytes. (A lock of
    the owner at byte 0 that the request is merged with would make the merged range start at byte 0.) *)
Theorem last_byte_wraps (s : state) owner st bd lock e : lockable s -> room s -> owner <> 0 -> alive s owner -> valid lock -> 0 < lock_start lock ->
  e ∈ view ll s -> same own (sle_owner e) owner -> lock_end (sle_lock e) = UINT64_MAX -> lock_type (sle_lock e) <> lock_type lock ->
  (forall f, f ∈ view ll s -> same own (sle_owner f) owner -> 0 < lock_start (sle_lock f)) ->
  u64 (lock_end (sle_lock e) + 1) = 0
  /\ exists r s', state_lock owner st STATE_NON_BLOCKING bd lock POSIX_LOCK s = done (r, s') /\ forall b, covers (sle_lock e) b -> held s' owner (lock_type (sle_lock e)) b.
Proof.
  intros Hk Hr Ho Ha Hl H0 He Hs Hend Hty Hfirst. split; [by rewrite Hend|].
  destruct (lock_ok cache_inode_open lock_op cache_inode_kill_entry update_delegation_stats own supports unknown_owner fuel call_back entry s owner st bd lock Hk Hr Ho Ha Hl) as (r & s' & E & L).
  exists r, s'. split; [done|]. assert (e ∈ view ll s') as He'; [|intros b Hb; by exists e].
  destruct L as [? ? _ _ A|? ? _ _ A|? ? _ _ _ A|? ? ? _ _ _ A|n es ? ? _ Hm A]; rewrite (af_view _ _ _ _ _ _ _ _ A); [done..|].
  apply elem_of_app. left. apply (merge_keeps_last own owner e fuel Hend lock [] (view ll s) n es); [done | done | | done | done].
  intros f Hf. pose proof (sound_valid _ (lk_sound _ _ _ _ _ Hk)) as Hv. rewrite Forall_forall in Hv. split; [by apply Hv | by apply Hfirst].
Qed.

(** ** Pins *)

(** C34: a request that swallows the only lock of a file pins the file once more, though it still has one lock: the list
    is empty for a moment, and the pin that the first lock took is taken again. When all is released the file stays
    pinned as with a lock, and the cache never lets it go. *)
Theorem swallowed_lock_leaks_pin (s : state) owner st bd lock e p : lockable s -> room s -> owner <> 0 -> alive s owner -> valid lock ->
  supports (ctx_export s) fso_lock_support = false -> (forall rdwr rc k, fst (cache_inode_open entry rdwr rc k) = CACHE_INODE_SUCCESS) ->
  view ll s = [e] -> same own (sle_owner e) owner -> lock_type (sle_lock e) = lock_type lock -> lock_start lock <= lock_start (sle_lock e) ->
  lock_end (sle_lock e) < lock_end lock < UINT64_MAX -> pins s = Some p ->
  exists r s', state_lock owner st STATE_NON_BLOCKING bd lock POSIX_LOCK s = done (r, s') /\ fst r = STATE_SUCCESS /\ length (view ll s') = 1%nat /\ pins s' = Some (p + 1)
  /\ forall status s'', room s' -> state_unlock owner 0 false whole_file POSIX_LOCK s' = done (status, s'') -> view ll s'' = [] /\ pins s'' = Some p.
Proof.
  intros Hk Hr Ho Ha Hl Hls Hop Hv Hs Hty Hst Hend Hp.
  destruct (lock_ok cache_inode_open lock_op cache_inode_kill_entry update_delegation_stats own supports unknown_owner fuel call_back entry s owner st bd lock Hk Hr Ho Ha Hl) as (r & s' & E & L).
  exists r, s'. split; [done|]. pose proof (lk_sound _ _ _ _ _ Hk) as Hso. unfold sound in Hso. rewrite Hv, Forall_singleton in Hso. destruct Hso as [He Hb].
  destruct L as [status s' Hne (rdwr & k & Ek) A|e' s' He' Hc A|e' s' He' _ Hct A|k c s' Hsup _ _ A|n es s' c Hnc Hm A]; cbn [fst]; rewrite Hv in *.
  - rewrite Hop in Ek. congruence.
  - apply list_elem_of_singleton in He' as ->. apply conflicts_spec in Hc as (_ & _ & Hd); done.
  - apply list_elem_of_singleton in He' as ->. unfold contains in Hct. rewrite (proj2 (Z.leb_gt (lock_end lock) (lock_end (sle_lock e)))) in Hct by lia. done.
  - congruence.
  - rewrite (swallow_merge own owner lock e fuel He Hb Hl Hs Hty Hst Hend ltac:(destruct Hr; lia)) in Hm. injection Hm as <- <-.
    pose proof (af_view _ _ _ _ _ _ _ _ A) as V. cbn in V. assert (pins s' = Some (p + 1)) as Hp'.
    { unfold pins in *. rewrite (af_files _ _ _ _ _ _ _ _ A), lookup_alter_eq. destruct (files s !! entry); [|done]. injection Hp as <-. done. }
    rewrite V. split_and!; [done | done | done|]. intros status s'' Hr' E'. pose proof (af_lockable _ _ _ _ _ _ _ _ A) as Hk'.
    destruct (unlock_any s' owner 0 whole_file Hk' Hr') as (status' & s3 & E3 & A3 & _); [done|]. rewrite E' in E3. injection E3 as <- <-.
    pose proof (sound_valid _ (lk_sound _ _ _ _ _ Hk')) as Hval. rewrite V, Forall_singleton in Hval.
    rewrite V, swallow_release in A3 by first [apply Hval | by apply (same_refl own owner) | done]. split; [apply A3|].
    unfold pins in *. rewrite (af_files _ _ _ _ _ _ _ _ A3), lookup_alter_eq. destruct (files s' !! entry); [|done]. injection Hp' as Hp'. cbn. f_equal. rewrite Hp'. cbn. lia.
Qed.

Lemma lock_lockable (s : state) owner st bd lock r s' : lockable s -> room s -> owner <> 0 -> alive s owner -> valid lock ->
  state_lock owner st STATE_NON_BLOCKING bd lock POSIX_LOCK s = done (r, s') -> lockable s'.
Proof.
  intros Hk Hr Ho Ha Hl E.
  destruct (lock_ok cache_inode_open lock_op cache_inode_kill_entry update_delegation_stats own supports unknown_owner fuel call_back entry s owner st bd lock Hk Hr Ho Ha Hl) as (r' & s'' & E' & L).
  rewrite E in E'. injection E' as <- <-. destruct (locked_after _ _ _ _ _ _ L) as (d & es & A). apply A.
Qed.

(** A file without locks in a server without locks. *)
Lemma start_lockable (s : state) p : les s = ∅ -> gl s = ∅ -> NoDup (filter (fun x => x <> 0) (supply s)) -> plain_export supports s ->
  files s !! entry = Some (mk_file true p false) -> alive s unknown_owner -> lockable s.
Proof.
  intros H1 H2 H3 H4 H5 H6. assert (forall l, glist l s = []) as Hg by (intros l; unfold glist; by rewrite H2, lookup_empty).
  assert (view ll s = []) as Hv by (unfold view; by rewrite Hg). assert (forall o, users s o = 0%nat) as Hu by (intros o; unfold users, count; by rewrite H1, map_filter_empty, map_size_empty).
  split; try done; try (rewrite Hv; by constructor).
  - split.
    + intros x e. rewrite H1, lookup_empty. done.
    + rewrite H1. split; [done|]. intros x _. apply lookup_empty.
    + intros o. rewrite Hu. lia.
    + intros o _. rewrite Hu. lia.
    + intros l _. rewrite Hg. split; [constructor|]. intros x Hx. by apply not_elem_of_nil in Hx.
    + intros l1 l2 x _ _. rewrite Hg. intros Hx. by apply not_elem_of_nil in Hx.
  - by exists p.
  - rewrite Hv. intros e f He. by apply not_elem_of_nil in He.
Qed.

End ops.

(** ** A server with two owners *)

Module Demo.

Definition open (_ : Z) (_ _ : bool) (_ : unit) : cache_inode_status_t * unit := (CACHE_INODE_SUCCESS, tt).
Definition op (_ _ : Z) (_ : fsal_lock_op_t) (_ : fsal_lock_param_t) (_ : unit) : (fsal_errors_t * fsal_lock_param_t) * unit := ((ERR_FSAL_NO_ERROR, no_conflict), tt).
Definition kill (_ : Z) (_ : unit) : unit := tt.
Definition stats (_ _ : Z) (_ : unit) : unit := tt.
Definition own (o : Z) : state_owner_t := mk_owner (if o =? 99 then STATE_LOCK_OWNER_UNKNOWN else STATE_LOCK_OWNER_NFSV4) o EmptyString.
Definition supports (_ : Z) (_ : fso) : bool := false.
Definition call_back (_ _ _ : Z) : M (@state unit) state_status_t := mret STATE_SUCCESS.

Definition start : @state unit :=
  mk_state [101; 102; 103; 104; 105; 106; 107; 108; 109; 110; 111; 112] ∅ ∅ ∅ ∅ ∅ (<[1 := 1]> (<[2 := 1]> (<[99 := 1]> ∅))) (<[7 := mk_file true 0 false]> ∅) 5 tt.

Definition range (ty : fsal_lock_t) (start len : Z) : fsal_lock_param_t := mk_lock POSIX_LOCK ty start len false.

Definition lock (owner st : Z) (l : fsal_lock_param_t) : M (@state unit) (state_status_t * option (Z * fsal_lock_param_t)) :=
  state_lock open op kill stats own supports 99 20 call_back 7 owner st STATE_NON_BLOCKING 0 l POSIX_LOCK.

Definition after_lock (owner st : Z) (l : fsal_lock_param_t) (s : @state unit) : @state unit :=
  match lock owner st l s with Ok (Some (_, s)) => s | _ => s end.

(** Owner 1 has bytes 10 to 19 exclusively, then owner 2 has bytes 30 to 39, or owner 1 has all bytes from 10 on. *)
Definition one : @state unit := after_lock 1 11 (range FSAL_LOCK_W 10 10) start.
Definition two : @state unit := after_lock 2 12 (range FSAL_LOCK_R 30 10) one.
Definition rest : @state unit := after_lock 1 11 (range FSAL_LOCK_W 10 0) start.

(** The same with memory for one entry only. *)
Definition scarce : @state unit := set_supply [101] start.
Definition low : @state unit := after_lock 1 11 (range FSAL_LOCK_W 10 10) scarce.

Abbreviation ok := (lockable own supports 99 7).
Abbreviation roomy := (room 20 7).

Ltac concrete := apply (bool_decide_unpack _); vm_compute; exact I.

Lemma room_ok (s : @state unit) : bool_decide (2 * length (glist (lock_list 7) s) + 1 <= 20)%nat && bool_decide (2 * length (glist (lock_list 7) s) + 1 <= length (supply s))%nat
  && bool_decide (Forall (fun x => x <> 0) (take (2 * length (glist (lock_list 7) s) + 1) (supply s))) = true -> roomy s.
Proof. intros [[H1%bool_decide_eq_true H2%bool_decide_eq_true]%andb_true_iff H3%bool_decide_eq_true]%andb_true_iff. by split. Qed.

Lemma alive_ok (s : @state unit) o : (match refs s !! o with Some n => Z.of_nat (users s o) <? n | None => false end) = true -> alive s o.
Proof. intros H. destruct (refs s !! o) as [n|] eqn:E; [|done]. exists n. split; [done | by apply Z.ltb_lt]. Qed.

Lemma valid_ok l : (0 <=? lock_start l) && (lock_start l <=? lock_end l) = true -> valid l.
Proof. intros [H1%Z.leb_le H2%Z.leb_le]%andb_true_iff. done. Qed.

Ltac room_now := apply room_ok; vm_compute; reflexivity.
Ltac alive_now := apply alive_ok; vm_compute; reflexivity.
Ltac valid_now := apply valid_ok; vm_compute; reflexivity.

Lemma start_ok : ok start.
Proof.
  apply (start_lockable own supports 99 7 start 0); [done | done | concrete | done | done | alive_now].
Qed.

Lemma scarce_ok : ok scarce.
Proof.
  apply (start_lockable own supports 99 7 scarce 0); [done | done | concrete | done | done | alive_now].
Qed.

Lemma next_ok s owner st l r : ok s -> roomy s -> owner <> 0 -> alive s owner -> valid l -> lock owner st l s = done (r, after_lock owner st l s) -> ok (after_lock owner st l s).
Proof. exact (lock_lockable open op kill stats own supports 99 20 call_back 7 s owner st 0 l r (after_lock owner st l s)). Qed.

Lemma one_ok : ok one.
Proof. exact (next_ok start 1 11 (range FSAL_LOCK_W 10 10) _ start_ok ltac:(room_now) ltac:(done) ltac:(alive_now) ltac:(valid_now) ltac:(vm_compute; reflexivity)). Qed.

Lemma two_ok : ok two.
Proof. exact (next_ok one 2 12 (range FSAL_LOCK_R 30 10) _ one_ok ltac:(room_now) ltac:(done) ltac:(alive_now) ltac:(valid_now) ltac:(vm_compute; reflexivity)). Qed.

Lemma rest_ok : ok rest.
Proof. exact (next_ok start 1 11 (range FSAL_LOCK_W 10 0) _ start_ok ltac:(room_now) ltac:(done) ltac:(alive_now) ltac:(valid_now) ltac:(vm_compute; reflexivity)). Qed.

Lemma low_ok : ok low.
Proof. exact (next_ok scarce 1 11 (range FSAL_LOCK_W 10 10) _ scarce_ok ltac:(room_now) ltac:(done) ltac:(alive_now) ltac:(valid_now) ltac:(vm_compute; reflexivity)). Qed.

Lemma locks_exclusive_witness : exclusion own (held own 7 one).
Proof.
  apply (locks_exclusive open op kill stats own supports 99 20 call_back 7 start one 0); [exact start_ok | vm_compute; reflexivity | vm_compute; reflexivity|].
  apply rtc_once. apply (step_lock open op kill stats own supports 99 20 call_back 7 start 1 11 0 (range FSAL_LOCK_W 10 10) (STATE_SUCCESS, None));
    [room_now | done | alive_now | valid_now | vm_compute; reflexivity].
Defined.

Lemma lock_refines_witness : exists r s', state_lock open op kill stats own supports 99 20 call_back 7 1 11 STATE_NON_BLOCKING 0 (range FSAL_LOCK_W 15 10) POSIX_LOCK two = done (r, s')
  /\ apart own (view (lock_list 7) s').
Proof.
  destruct (lock_refines open op kill stats own supports 99 20 call_back 7 two 1 11 0 (range FSAL_LOCK_W 15 10)) as (r & s' & E & _ & A & _);
    [exact two_ok | room_now | done | alive_now | valid_now | vm_compute; reflexivity | | | exact (ex_intro _ r (ex_intro _ s' (conj E A)))].
  - apply Forall_forall. intros e He. assert (e ∈ view (lock_list 7) two) as H by exact He. vm_compute in H.
    repeat (apply elem_of_cons in H as [->|H]; [split; [valid_now | by split; [|intros _]]|]). by apply not_elem_of_nil in H.
  - split; [|by split; [constructor|]]. constructor; [|constructor]. intros H. vm_compute in H. discriminate.
Defined.

Lemma unlock_refines_witness : exists status s', state_unlock op kill own supports 99 20 call_back 7 1 0 false (range FSAL_LOCK_R 12 2) POSIX_LOCK two = done (status, s').
Proof.
  destruct (unlock_refines op kill own supports 99 20 call_back 7 two 1 (range FSAL_LOCK_R 12 2)) as (status & s' & E & _); [exact two_ok | room_now | done | valid_now | exact (ex_intro _ status (ex_intro _ s' E))].
Defined.

Lemma test_reports_witness : exists r s', state_test open op kill own supports 99 20 7 2 (range FSAL_LOCK_W 12 1) two = done (r, s').
Proof.
  destruct (test_reports open op kill own supports 99 20 7 two 2 (range FSAL_LOCK_W 12 1)) as (r & s' & E & _);
    [exact two_ok | vm_compute; repeat constructor | valid_now | done | done | exact (ex_intro _ r (ex_intro _ s' E))].
Defined.

Lemma one_taken : taken_with own 7 one 1 11.
Proof.
  split; [done|]. split; [done|]. split; [vm_compute; done|]. intros e He _. assert (e ∈ view (lock_list 7) one) as H by exact He. vm_compute in H.
  apply list_elem_of_singleton in H as ->. done.
Qed.

Lemma unlock_own_state_witness : exists status s', state_unlock op kill own supports 99 20 call_back 7 1 11 false (range FSAL_LOCK_R 10 10) POSIX_LOCK one = done (status, s')
  /\ view (lock_list 7) s' = view (lock_list 7) one.
Proof.
  destruct (unlock_own_state op kill own supports 99 20 call_back 7 one 1 11 (range FSAL_LOCK_R 10 10)) as (status & s' & E & V & _);
    [exact one_ok | vm_compute; repeat constructor | exact one_taken | exact (ex_intro _ status (ex_intro _ s' (conj E V)))].
Defined.

Lemma owner_unlock_all_spins_witness : state_owner_unlock_all op kill own supports 99 20 call_back 1000 1 11 false one = Ok None.
Proof.
  apply (owner_unlock_all_spins op kill own supports 99 20 call_back 7 one 1 11 1000); [exact one_ok | vm_compute; repeat constructor | | by intros H].
  split; [exact one_taken|]. split; [vm_compute; done|]. intros x Hx. assert (x ∈ glist (so_lock_list 1) one) as H by exact Hx. vm_compute in H.
  apply list_elem_of_singleton in H as ->. eexists. split; [vm_compute; reflexivity|]. split; [|done]. vm_compute. left.
Defined.

Lemma last_byte_wraps_witness : exists r s', state_lock open op kill stats own supports 99 20 call_back 7 1 11 STATE_NON_BLOCKING 0 (range FSAL_LOCK_R 20 10) POSIX_LOCK rest = done (r, s')
  /\ held own 7 s' 1 FSAL_LOCK_W 25.
Proof.
  assert (exists e, view (lock_list 7) rest = [e] /\ sle_owner e = 1 /\ sle_lock e = range FSAL_LOCK_W 10 0) as (e & Ev & Eo & El) by (eexists; split; [vm_compute; reflexivity | done]).
  destruct (last_byte_wraps open op kill stats own supports 99 20 call_back 7 rest 1 11 0 (range FSAL_LOCK_R 20 10) e) as (_ & r & s' & E & H);
    [exact rest_ok | room_now | done | alive_now | valid_now | vm_compute; reflexivity | rewrite Ev; left | by rewrite Eo | by rewrite El | by rewrite El | |].
  - intros f Hf _. rewrite Ev in Hf. apply list_elem_of_singleton in Hf as ->. by rewrite El.
  - exists r, s'. split; [exact E|]. rewrite El in H. apply H. by split.
Defined.

Lemma swallowed_lock_leaks_pin_witness : exists r s', state_lock open op kill stats own supports 99 20 call_back 7 1 11 STATE_NON_BLOCKING 0 (range FSAL_LOCK_W 5 20) POSIX_LOCK one = done (r, s')
  /\ pins 7 one = Some 1 /\ pins 7 s' = Some 2.
Proof.
  assert (exists e, view (lock_list 7) one = [e] /\ sle_owner e = 1 /\ sle_lock e = range FSAL_LOCK_W 10 10) as (e & Ev & Eo & El) by (eexists; split; [vm_compute; reflexivity | done]).
  destruct (swallowed_lock_leaks_pin open op kill stats own supports 99 20 call_back 7 one 1 11 0 (range FSAL_LOCK_W 5 20) e 1) as (r & s' & E & _ & _ & P & _);
    [exact one_ok | room_now | done | alive_now | valid_now | done | done | done | by rewrite Eo | by rewrite El | by rewrite El | by rewrite El | vm_compute; reflexivity|].
  exists r, s'. split; [exact E|]. split; [vm_compute; reflexivity | exact P].
Defined.

Lemma unlock_out_of_memory_witness : exists status s', state_unlock op kill own supports 99 20 call_back 7 1 0 false (range FSAL_LOCK_R 12 2) POSIX_LOCK low = done (status, s') /\ ok s'.
Proof.
  destruct (unlock_out_of_memory op kill own supports 99 20 call_back 7 low 1 (range FSAL_LOCK_R 12 2)) as (status & s' & E & H & _);
    [exact low_ok | vm_compute; repeat constructor | done | valid_now | exact (ex_intro _ status (ex_intro _ s' (conj E H)))].
Defined.

End Demo.

End LockProps.
